(* ===== verification/_CoqProject ===== *)
-Q . S2P
Prelude.v
Bytes.v
Text.v
Chars.v
Calendar.v
Concrete.v
Codec.v
Json.v
Messages.v
Label.v
Paths.v
Ipc.v
Ring.v
Registry.v
ResumeToken.v
Handshake.v
Crypto.v
Pairing.v
Store.v
StoreLaws.v
Export.v
DaemonClient.v
Reconnect.v
Link.v
Pending.v
PairRuntime.v
Notifier.v
Runners.v
IpcServer.v
Worktree.v
RelayManager.v
Dispatcher.v
DispatcherLaws.v
Daemon.v
DaemonLock.v
PushSeal.v
Push.v
Jwt.v
Apns.v
Rate.v
Metrics.v
Server.v
Conn.v
Interleave.v
Turns.v
Http.v
Startup.v
RunnerParts.v
Runner.v
RunnerLaws.v
Lines.v
Release.v
Files.v
Upgrade.v
UpgradeLaws.v
UpgradeInstall.v
UpgradeDemo.v
CliText.v
Completions.v
CliIpc.v
CliArgs.v
CliCmd.v
SessionCmd.v
PairCmd.v
PairNew.v
Passthrough.v
CliDemo.v
Locate.v
Service.v
ServiceLaws.v
