(* ===== verification/Prelude.v ===== *)
(** * Teleprompter: verification of the Rust workspace.

    Teleprompter lets a phone watch and steer coding sessions that run on a computer.
    On the computer a daemon ([src/rust/tp-daemon]) keeps sessions, each fed by a runner
    process, and talks to phones ("frontends") through a relay ([src/rust/tp-relay]) that
    must not be able to read what it forwards.  [src/rust/tp-core] holds the cryptography,
    the pairing links and the frame codec both sides share, [src/rust/tp-proto] the message
    types.  This library translates that code into Rocq and proves what makes it correct.
    File names below are those of [src/rust/]; a definition has the name the source gives
    the function, method or type, and its doc comment says where it differs.

    ** The parts and how they interact

    Shared foundations.  [Prelude]: [Result], hash iteration order as the class
    [HashIter], generic lemmas.  [Bytes], [Text], [Chars]: machine words, UTF-8,
    and the [str] functions of the standard library that the code calls.
    [Calendar]: the date formula of [http.rs] and [export_formatter.rs] against the
    Gregorian calendar.  [Concrete]: stand-ins for crates, for the witnesses only.

    Wire formats.  [Codec]: [tp-core/codec.rs].  [Json]: [serde_json]'s value type and the
    field guards of [tp-proto/lib.rs] and [tp-relay/lib.rs].  [Messages]:
    [tp-proto/relay_client.rs] and [tp-relay/messages.rs].  [Label]: [tp-proto/label.rs] and
    [control.rs].  [Ipc]: [tp-proto/ipc.rs].  [Paths]: [tp-proto/socket_path.rs].
    [Crypto]: [tp-core/crypto.rs].  [Pairing]: [tp-core/pairing.rs].

    The relay.  [Ring], [Registry], [ResumeToken], [PushSeal], [Rate], [Metrics], [Jwt],
    [Apns], [Push], [Http]: the modules of the same name of [tp-relay].  [Handshake]:
    [handshake.rs] over the registry and the token signer.  [Server]: the [RelayCore] of
    [server.rs], which everything under the one mutex reads and writes.  [Conn]:
    [conn.rs], each turn of a connection run to its end.  [Interleave]: the same code as
    the runtime really runs it, any number of threads, one locked section or one
    [try_send] per step.  [Turns]: the turns of [Conn] are schedules of [Interleave].
    [Startup]: the environment and the command line of [main.rs] to the initial state.

    The daemon.  [Store], [StoreLaws]: [store/*.rs], a state and error monad over four
    tables, the session files and the handle cache; every SQL statement and system call
    may fail.  [DaemonClient]: [transport/relay_client.rs], one definition per handler.
    [Reconnect]: the tasks around it (connecting, reading, reconnecting, pinging,
    disposal) as a step relation.  [Link]: the client composed with the relay's
    [Handshake].  [Pending], [PairRuntime]: [pairing/*.rs] and the pairing part of
    [daemon.rs].  [Notifier]: [push/notifier.rs].  [Runners]: [session/manager.rs].
    [IpcServer]: [ipc/server.rs].  [Worktree]: [worktree/manager.rs].  [Export]:
    [export_formatter.rs].  [RelayManager]: [transport/relay_manager.rs]; its [Core] is the
    daemon's shared objects (the state of [Store], [Runners], [Notifier], [IpcServer] and
    the pool of clients), its [World] adds what is outside.  [Dispatcher],
    [DispatcherLaws]: [ipc/command_dispatcher.rs] over that state.  [Daemon]:
    [daemon.rs], and [other], the relation of everything that can happen to the
    daemon besides.  [DaemonLock]: [daemon_lock.rs], system call by system call, for
    several processes.

    The runner.  [RunnerParts]: the modules of [tp-runner] around its loop ([cli.rs],
    [socket.rs], [settings.rs], [hooks.rs], [wire.rs], [collector.rs]) and
    [tp-proto/user_config.rs].  [Runner], [RunnerLaws]: [runner.rs], [ipc.rs] and
    [pty.rs], the loop and the tasks and threads it talks to, one arm, turn or call per
    step.

    The command line.  [Lines]: the [str] functions [tp-cli] uses besides.  [Release]: the
    pure part of [upgrade.rs] (versions, the list of checksums, what a new binary prints,
    the release's JSON).  [Files]: a file system every operation of which may fail, and
    programs over it with rules for invariants.  [Upgrade]: the rest of [upgrade.rs], call
    by call.  [UpgradeLaws], [UpgradeInstall]: what an upgrade keeps and what it installs.
    [UpgradeDemo]: one run.  [CliText]: colours, ages, labels for display.  [Completions]:
    [completions_install.rs], over [Files].  [CliIpc]: the blocking codec, requests and
    the reading thread.  [CliArgs]: routing, splitting, prefixes, durations.  [CliCmd]: a
    command as a state monad over the terminal and the daemon.  [SessionCmd], [PairCmd]:
    [tp session] and [tp pair].  [PairNew]: [tp pair new] as events of its threads.
    [Passthrough]: the polling terminal of [passthrough.rs].  [CliDemo]: runs.  [Locate]:
    [locate.rs] (of [tp-cli] and [tp-proto]), [config_dir.rs] and where the service's
    files are.  [Service], [ServiceLaws]: [ensure_daemon.rs], [service_linux.rs],
    [service_darwin.rs] and [stop], [install], [uninstall] of [commands/daemon.rs].

    ** How state and effects are modelled

    A struct is a record, an enum an inductive type; a [HashMap] is a [gmap], and where
    the code iterates over one, the order is an unknown permutation ([HashIter]).
    Integers keep their width where the code computes with them: a counter that wraps is
    taken modulo 2^64 (the relay's connection ids), a length that is cast is cast
    ([as_u32]), [f64] is [SpecFloat] with 53 bits of precision.  Two are left unbounded:
    the generation of a relay client ([DaemonClient.bump_generation]) and the integers of a
    JSON value ([Json.Number]), of which [serde_json] makes only 64-bit ones.
    A function that can fail returns [result]; a panic is a value of its own
    ([Pairing]'s decoder: [None]).  Code under a mutex is a function of the state it
    guards.  Code that awaits is cut at its awaits: each piece is a step, what follows a
    continuation, and invariants are proved over all interleavings.  What the runtime
    decides (clocks, randomness, the answer of a system call, whether an outbox accepts a
    message) is an argument ([Env], [Choice], [System], ...), chosen afresh at each step.

    Crates are parameters: the classes [CryptoCrates], [PairingCrates], [ResumeCrypto],
    [TokenSealer], [JwtCrates], [ApnsCrates], [HttpCrates], [Governor] and [SqlEngine],
    and the readers and printers of [serde_json] ([from_str], [to_string], ...).  Where a
    theorem needs a crate's documented behaviour it is a named law ([CryptoLaws],
    [PairingLaws], [ResumeCryptoLaws], [TokenSealerLaws]), and the witness runs the
    theorem on a concrete instance of it.

    ** What the theorems show

    Claims are numbered in the order of importance; each stands in its component's file.

    - The relay under concurrency: every reachable state satisfies the relay's invariant,
      and no connection id comes twice before the counter wraps
      ([Interleave.interleaved_invariant]), work in progress drains
      ([Interleave.relay_quiesces]), a frame is handed out at most once per recipient
      ([Interleave.delivered_once]), no connection acts outside its authenticated group,
      pushes included ([Conn.dispatch_isolation]), registrations cannot be taken over
      ([Registry.no_takeover]), resumption grants only what was granted
      ([Handshake.resume_sound]), a replay is the session's own newest frames and within
      the limits all of them ([Ring.replay_complete]).  [Turns.turns_refine] relates the
      two models of the same handlers, so that [Conn]'s runs are runs of [Interleave].
    - The daemon as a whole: the clients of the pool are accounted for whatever
      interleaves ([Daemon.clients_accounted]), a tracked runner is watched until its exit
      is seen or the wait for it fails ([Runners.supervised]), a connection is never opened twice
      ([Reconnect.single_flight]), a dropped one comes back ([Reconnect.reconnects]) and
      a disposed one stops ([Reconnect.disposed_quiesces]), start-up leaves no session
      running that is not ([Daemon.starts_clean]), the age limit never prunes by accident
      ([Daemon.cleanup_is_sane]).
    - Storage: [StoreLaws.store_invariant] under any operations and failures;
      [append_replay] reads back what was appended, in order and page by page;
      [pairing_persisted] and [RelayManager.restart_reconnects] take a pairing through a
      restart.
    - Commands: live frontends and later ones see the same record
      ([DispatcherLaws.live_is_replayed]); deleting, pruning, restarting and worktree
      commands do all of their work or leave what they found.
    - Pairing and cryptography: one slot, one client ([PairRuntime.custody],
      [join_promotes]), both ends derive the same keys ([Crypto.session_agreement]),
      sealing and links round-trip, and exactly which links make the decoder panic
      ([Pairing.decode_panics_iff]).
    - Parsers are total and inverse to the printers ([Ipc.ipc_messages],
      [Label.label_normal_form], [IpcServer.reads_are_frames]).
    - The runner: one story whatever interleaves ([RunnerLaws.one_story]), heard by the
      daemon's handler as it was told ([session_reaches_daemon]), ended by the child's
      exit even when the loss of the daemon goes unnoticed ([child_exit_stops]); started
      with the arguments its supervisor wrote ([RunnerParts.supervisor_args]).
    - [tp upgrade]: no installed file is lost whatever fails
      ([UpgradeLaws.upgrade_loses_nothing]), and success means that what was checked is
      what is installed ([UpgradeInstall.upgrade_installs]).
    - The command line: installing completions and taking them away leaves an rc
      file without their marker as it was ([Completions.rc_file_kept]); [tp] and the daemon read the same frames
      ([CliIpc.cli_reads_frames]); arguments reach the runner as meant
      ([CliArgs.passthrough_reaches_runner]), and its output the terminal, once and in
      order ([Passthrough.terminal_mirrors_session]); nothing is deleted without consent
      ([SessionCmd.delete_needs_consent], [prune_needs_consent], [cleanup_deletes_picked],
      [PairCmd.pair_delete_needs_consent]); a pairing ends once, with the terminal restored
      ([PairNew.pair_new_story]); a label cleaned for display cannot drive the terminal
      ([CliText.sanitize_is_clean]).
    - The service: starting the daemon ends and says what the last probe found
      ([ServiceLaws.ensure_daemon_truthful]), installs nothing without consent
      ([ensure_installs_with_consent]), installing and uninstalling touch the unit alone
      ([service_comes_and_goes]).
    Theorems that are not numbered are the components' laws; they carry the claims'
    proofs.  [Example]s record behaviours that are surprising, among them code that does
    not do what it means to (two holders of the daemon lock, a pairing link that
    panics the decoder, a half-deleted session).

    ** Fuel

    Loops that are not structural take fuel and are proved to have enough:
    [Codec.decode_loop] the buffer's length ([decode_parses]), [Ring.evict_loop] the
    order's length ([evict_loop_ref]), [Conn.deliver_actions] the number of connections
    plus one ([Turns.run_deliver], each nested close removes one), [Export.strip_loop]
    and [record_lines] the length of what they consume, digit printers the number of
    digits.  Task systems have no fuel: they are step relations, and quiescence is proved
    by a decreasing measure.

    ** Not modelled, and why

    Sockets, TLS, HTTP/2 and the async runtime are the environment: what they answer is
    an argument, and their buffers' bounds are modelled where the code sees them.  SQL
    text is modelled by its effect; the migration of a pre-label pairings table is left
    out.  The [bin/] mains, signal handlers, logging and the daemon's local record
    observer do not change modelled state.  [tp-core/lib.rs] re-exports for UniFFI.
    [keypair.rs] is a struct, its uses in [Crypto].  Of
    [tp-cli], [doctor], [logs], [status] and [daemon status] probe files and print; clap,
    SQLite and the bash and zsh completion scripts are left out too.
    [tp-loopback] and [tp-e2e-holder] are test programs; the iOS app
    and the scripts are not Rust. *)
From stdpp Require Import base list list_numbers numbers strings gmap fin_maps pretty.
From Stdlib Require Import Lia ZArith.

Set Default Proof Using "Type".

(** ** Rust outcomes *)

(** [Result<A, E>]. *)
Inductive result (A E : Type) : Type :=
| Ok (a : A)
| Err (e : E).
Arguments Ok {A E} a.
Arguments Err {A E} e.

#[export] Instance result_eq_dec {A E} `{EqDecision A, EqDecision E} :
  EqDecision (result A E).
Proof. solve_decision. Defined.

Definition result_bind {A B E} (m : result A E) (k : A → result B E) : result B E :=
  match m with Ok a => k a | Err e => Err e end.

Definition ok_or {A E} (o : option A) (e : E) : result A E :=
  match o with Some a => Ok a | None => Err e end.

(** A computation that may also stop the thread (an out-of-range index). *)
Inductive outcome (A : Type) : Type :=
| Ret (a : A)
| Panic.
Arguments Ret {A} a.
Arguments Panic {A}.

Declare Scope rust_scope.
Delimit Scope rust_scope with rust.
Notation "'let?' x ':=' m 'in' k" :=
  (result_bind m (fun x => k))
  (at level 10, x pattern, m at level 100, k at level 200) : rust_scope.
Notation "'let?o' x ':=' m 'in' k" :=
  (mbind (M:=option) (fun x => k) m)
  (at level 10, x pattern, m at level 100, k at level 200) : rust_scope.
Open Scope rust_scope.

(** ** Lists *)

(** The last [n] elements, in order. *)
Definition lastn {A} (n : nat) (l : list A) : list A := drop (length l - n) l.

Lemma lastn_all {A} n (l : list A) : length l ≤ n → lastn n l = l.
Proof. intros. unfold lastn. by replace (length l - n) with 0 by lia. Qed.

Lemma length_lastn {A} n (l : list A) : length (lastn n l) = min n (length l).
Proof. unfold lastn. rewrite length_drop. lia. Qed.

Lemma lastn_snoc {A} n (l : list A) x :
  lastn (S n) (l ++ [x]) = lastn n l ++ [x].
Proof.
  unfold lastn. rewrite length_app. simpl.
  replace (length l + 1 - S n) with (length l - n) by lia.
  by rewrite drop_app_le by lia.
Qed.

Lemma lastn_lastn_snoc {A} n (l : list A) x :
  lastn n (lastn n l ++ [x]) = lastn n (l ++ [x]).
Proof.
  destruct n as [|n].
  - unfold lastn. rewrite !Nat.sub_0_r. by rewrite !drop_all.
  - rewrite !lastn_snoc. f_equal. unfold lastn.
    rewrite length_drop, drop_drop. f_equal. lia.
Qed.

Lemma lastn_sublist {A} n (l : list A) : lastn n l `sublist_of` l.
Proof. unfold lastn. apply sublist_drop. Qed.

Lemma elem_of_lastn {A} n (l : list A) x : x ∈ lastn n l → x ∈ l.
Proof. intros H. eapply elem_of_submseteq; [exact H|]. apply sublist_submseteq, lastn_sublist. Qed.

Lemma nodup_lastn {A} n (l : list A) : NoDup l → NoDup (lastn n l).
Proof. intros H. eapply sublist_NoDup; [exact H|apply lastn_sublist]. Qed.

(** An update splits a list at its position. *)
Lemma insert_split {A} (l : list A) i x y :
  l !! i = Some x → ∃ l1 l2, l = l1 ++ x :: l2 ∧ <[i := y]> l = l1 ++ y :: l2.
Proof.
  intros Hi. exists (take i l), (drop (S i) l). split; [by rewrite take_drop_middle|].
  apply insert_take_drop. by eapply lookup_lt_Some.
Qed.

Lemma list_filter_none {A} (P : A → Prop) `{!∀ x, Decision (P x)} (l : list A) :
  (∀ x, x ∈ l → ¬ P x) → filter P l = [].
Proof.
  induction l as [|x l IH]; intros Hq; [done|]. rewrite filter_cons_False by (apply Hq; left).
  apply IH. intros y Hy. apply Hq. by right.
Qed.

Lemma list_filter_all {A} (P : A → Prop) `{!∀ x, Decision (P x)} (l : list A) :
  (∀ x, x ∈ l → P x) → filter P l = l.
Proof.
  induction l as [|x l IH]; intros Hq; [done|]. rewrite filter_cons_True by (apply Hq; left). f_equal.
  apply IH. intros y Hy. apply Hq. by right.
Qed.

Lemma list_filter_ext_in {A} (P Q : A → Prop) `{!∀ x, Decision (P x), !∀ x, Decision (Q x)} (l : list A) :
  (∀ x, x ∈ l → P x ↔ Q x) → filter P l = filter Q l.
Proof.
  induction l as [|x l IH]; intros Hpq; [done|].
  rewrite !filter_cons, IH by (intros y Hy; apply Hpq; by right).
  pose proof (Hpq x ltac:(by left)). do 2 case_decide; tauto || done.
Qed.

(** ** Strings: [str::starts_with] *)

Fixpoint starts_with (p s : string) : bool :=
  match p, s with
  | EmptyString, _ => true
  | String c p', String c' s' => if decide (c = c') then starts_with p' s' else false
  | String _ _, EmptyString => false
  end.

Lemma starts_with_app p r : starts_with p (p +:+ r) = true.
Proof. induction p as [|c p IH]; [done|]. simpl. by rewrite decide_True. Qed.

Lemma starts_with_spec p s : starts_with p s = true ↔ ∃ r, s = p +:+ r.
Proof.
  split; [|intros [r ->]; apply starts_with_app].
  revert s. induction p as [|c p IH]; intros s; simpl; [intros _; by exists s|].
  destruct s as [|c' s]; [done|]. case_decide as Hc; [|done]. subst.
  intros [r ->]%IH. by exists r.
Qed.

(** [s.contains(c)] for one character. *)
Fixpoint str_contains (c : Ascii.ascii) (s : string) : bool :=
  match s with
  | EmptyString => false
  | String c' s' => if decide (c = c') then true else str_contains c s'
  end.

Lemma str_contains_app c s1 s2 :
  str_contains c (s1 +:+ s2) = str_contains c s1 || str_contains c s2.
Proof. induction s1 as [|c' s1 IH]; simpl; [done|]. by case_decide. Qed.

(** Splitting at a separator absent from the left parts is unambiguous. *)
Lemma sep_app_inj c (a1 a2 b1 b2 : string) :
  str_contains c a1 = false → str_contains c a2 = false →
  a1 +:+ String c b1 = a2 +:+ String c b2 → a1 = a2 ∧ b1 = b2.
Proof.
  revert a2. induction a1 as [|x a1 IH]; intros [|y a2]; simpl; intros H1 H2 Heq.
  - by injection Heq as ->.
  - injection Heq as <- _. by rewrite decide_True in H2.
  - injection Heq as -> _. by rewrite decide_True in H1.
  - injection Heq as <- Heq. repeat case_decide; try done.
    destruct (IH a2 H1 H2 Heq) as [-> ->]. done.
Qed.

Lemma str_append_cons c (a b : string) : String c a +:+ b = String c (a +:+ b).
Proof. reflexivity. Qed.

Lemma str_append_assoc (a b c : string) : (a +:+ b) +:+ c = a +:+ (b +:+ c).
Proof. induction a as [|x a IH]; [done|]. by rewrite !str_append_cons, IH. Qed.

Lemma str_append_nil_r (a : string) : a +:+ "" = a.
Proof. induction a as [|x a IH]; [done|]. by rewrite !str_append_cons, IH. Qed.

(** ** Termination by three measures, the first the most significant *)

Lemma wf_measure3 {A} (R : A → A → Prop) (f g h : A → nat) :
  (∀ x y, R x y → f y < f x ∨ f y = f x ∧ (g y < g x ∨ g y = g x ∧ h y < h x)) →
  well_founded (flip R).
Proof.
  intros HR.
  assert (∀ a b c x, f x = a → g x = b → h x = c → Acc (flip R) x) as H; [|by intros x; eapply H].
  intros a. induction a as [a IHa] using lt_wf_ind. intros b. induction b as [b IHb] using lt_wf_ind.
  intros c. induction c as [c IHc] using lt_wf_ind. intros x Ef Eg Eh. constructor. intros y Hy.
  destruct (HR x y Hy) as [H|[E1 [H|[E2 H]]]].
  - by eapply (IHa (f y)); [lia|..].
  - by eapply (IHb (g y)); [lia|lia|..].
  - by eapply (IHc (h y)); [lia|lia|lia|].
Qed.

(** ** Hash containers *)

(** The iteration order of a [HashSet]/[HashMap] is unspecified: every definition
    that iterates takes the order as a parameter, constrained only to visit each
    element once. *)
Class HashIter (K : Type) `{Countable K} := {
  set_iter : gset K → list K;
  set_iter_perm s : set_iter s ≡ₚ elements s
}.
Arguments set_iter {K _ _ _} s.

Section hash_iter.
Context {K : Type} `{HashIter K}.

Lemma elem_of_set_iter (s : gset K) x : x ∈ set_iter s ↔ x ∈ s.
Proof. by rewrite set_iter_perm, elem_of_elements. Qed.

Lemma nodup_set_iter (s : gset K) : NoDup (set_iter s).
Proof. rewrite set_iter_perm. apply NoDup_elements. Qed.
End hash_iter.

(** One concrete order, for evaluating the model. *)
Definition elements_iter (K : Type) `{Countable K} : HashIter K :=
  {| set_iter := elements; set_iter_perm s := reflexivity _ |}.

(** ** Automation *)

Create HintDb tp.
Create Rewrite HintDb tpr.
#[export] Hint Resolve lastn_sublist elem_of_lastn nodup_lastn starts_with_app : tp.
#[export] Hint Rewrite @length_lastn : tpr.

(** Case analysis on every [match]/[if] of the goal, keeping the equations. *)
Ltac split_match :=
  repeat (match goal with
          | |- context [match ?x with _ => _ end] => destruct x eqn:?
          end; simplify_eq/=; try done).

Ltac split_match_in H :=
  repeat (match type of H with
          | context [match ?x with _ => _ end] => destruct x eqn:?
          end; simplify_eq/=; try done).
