(* ===== verification/Bytes.v ===== *)
(** * Bytes: machine words as big-endian byte strings, UTF-8, [str] primitives.
    The part of the Rust language and standard library the wire codecs use:
    [u32::to_be_bytes], [u64::from_be_bytes], slicing, [str::from_utf8]. *)
From stdpp Require Import base list numbers strings.
From Stdlib Require Import Lia NArith Ascii.
From S2P Require Import Prelude.

Abbreviation byte := Ascii.ascii.
Abbreviation bytes := (list Ascii.ascii).

Definition byte_val (b : byte) : N := N_of_ascii b.

Lemma byte_val_lt b : (byte_val b < 256)%N.
Proof. apply N_ascii_bounded. Qed.
#[export] Hint Resolve byte_val_lt : tp.

(** [x as u8] *)
Definition as_u8 (x : N) : byte := ascii_of_N (x mod 256).

Lemma byte_val_as_u8 x : byte_val (as_u8 x) = (x mod 256)%N.
Proof. apply N_ascii_embedding. by apply N.mod_lt. Qed.

Lemma as_u8_byte_val b : as_u8 (byte_val b) = b.
Proof.
  unfold as_u8. rewrite N.mod_small by apply byte_val_lt. apply ascii_N_embedding.
Qed.

Lemma byte_val_inj a b : byte_val a = byte_val b → a = b.
Proof. intros H. rewrite <-(as_u8_byte_val a), <-(as_u8_byte_val b). by rewrite H. Qed.

(** ** Big-endian words *)

(** [to_be_bytes] of a [8*k]-bit word. *)
Fixpoint to_be_bytes (k : nat) (v : N) : bytes :=
  match k with
  | O => []
  | S k' => as_u8 (v / 256 ^ N.of_nat k') :: to_be_bytes k' v
  end.

(** [from_be_bytes] *)
Definition from_be_bytes (bs : bytes) : N :=
  fold_left (λ acc b, acc * 256 + byte_val b)%N bs 0%N.

Lemma length_to_be_bytes k v : length (to_be_bytes k v) = k.
Proof. induction k; simpl; auto. Qed.
#[export] Hint Rewrite length_to_be_bytes : tpr.

Lemma from_be_bytes_acc bs acc :
  fold_left (λ acc b, acc * 256 + byte_val b)%N bs acc
  = (acc * 256 ^ N.of_nat (length bs) + from_be_bytes bs)%N.
Proof.
  unfold from_be_bytes. revert acc. induction bs as [|b bs IH]; intros acc.
  - cbn. lia.
  - cbn [fold_left length]. rewrite (IH (acc * 256 + _)%N), (IH (0 * 256 + _)%N).
    rewrite Nat2N.inj_succ, N.pow_succ_r'. lia.
Qed.

Lemma from_be_bytes_cons b bs :
  from_be_bytes (b :: bs) = (byte_val b * 256 ^ N.of_nat (length bs) + from_be_bytes bs)%N.
Proof. unfold from_be_bytes at 1. simpl. by rewrite from_be_bytes_acc. Qed.

Lemma from_be_bytes_lt bs : (from_be_bytes bs < 256 ^ N.of_nat (length bs))%N.
Proof.
  induction bs as [|b bs IH]; [done|].
  rewrite from_be_bytes_cons. cbn [length]. rewrite Nat2N.inj_succ, N.pow_succ_r'.
  pose proof (byte_val_lt b). nia.
Qed.

Lemma from_to_be_bytes k v :
  from_be_bytes (to_be_bytes k v) = (v mod 256 ^ N.of_nat k)%N.
Proof.
  induction k as [|k IH]; [by rewrite N.mod_1_r|].
  cbn [to_be_bytes]. rewrite from_be_bytes_cons, IH, length_to_be_bytes, byte_val_as_u8.
  rewrite Nat2N.inj_succ, N.pow_succ_r'.
  rewrite (N.mul_comm 256), N.Div0.mod_mul_r. ring.
Qed.

Lemma from_to_be_bytes_small k v :
  (v < 256 ^ N.of_nat k)%N → from_be_bytes (to_be_bytes k v) = v.
Proof. intros. rewrite from_to_be_bytes. by apply N.mod_small. Qed.

Lemma to_from_be_bytes_acc bs h :
  to_be_bytes (length bs) (h * 256 ^ N.of_nat (length bs) + from_be_bytes bs) = bs.
Proof.
  revert h. induction bs as [|b bs IH]; intros h; [done|].
  cbn [to_be_bytes length]. rewrite from_be_bytes_cons, Nat2N.inj_succ, N.pow_succ_r'.
  set (P := (256 ^ N.of_nat (length bs))%N).
  replace (h * (256 * P) + (byte_val b * P + from_be_bytes bs))%N
    with ((h * 256 + byte_val b) * P + from_be_bytes bs)%N by ring.
  f_equal; [|apply IH].
  unfold P. rewrite N.div_add_l by (apply N.pow_nonzero; lia).
  rewrite (N.div_small (from_be_bytes bs)) by apply from_be_bytes_lt.
  unfold as_u8. rewrite N.add_0_r, N.add_comm, N.Div0.mod_add.
  rewrite N.mod_small by apply byte_val_lt. apply ascii_N_embedding.
Qed.

Lemma to_from_be_bytes bs : to_be_bytes (length bs) (from_be_bytes bs) = bs.
Proof. pose proof (to_from_be_bytes_acc bs 0) as H. by rewrite N.mul_0_l, N.add_0_l in H. Qed.

(** [x as u32] *)
Definition as_u32 (x : N) : N := (x mod 2 ^ 32)%N.

Lemma u32_be_roundtrip x : from_be_bytes (to_be_bytes 4 x) = as_u32 x.
Proof. rewrite from_to_be_bytes. done. Qed.

(** ** Slices *)

(** [&b[lo..hi]] for [lo <= hi <= b.len()]. *)
Definition slice (b : bytes) (lo hi : nat) : bytes := take (hi - lo) (drop lo b).

Lemma length_slice b lo hi : lo ≤ hi → hi ≤ length b → length (slice b lo hi) = hi - lo.
Proof. intros. unfold slice. rewrite length_take, length_drop. lia. Qed.

Lemma slice_app_middle (a m r : bytes) :
  slice (a ++ m ++ r) (length a) (length a + length m) = m.
Proof.
  unfold slice. rewrite drop_app_length.
  replace (length a + length m - length a) with (length m) by lia.
  apply take_app_length.
Qed.

Lemma slice_app_at (a m r : bytes) lo hi :
  lo = length a → hi = length a + length m → slice (a ++ m ++ r) lo hi = m.
Proof. intros -> ->. apply slice_app_middle. Qed.

(** ** Strings and their bytes *)

(** [s.as_bytes()] *)
Definition as_bytes (s : string) : bytes := Stdlib.Strings.String.list_ascii_of_string s.
Definition str_of_bytes (b : bytes) : string := Stdlib.Strings.String.string_of_list_ascii b.

Lemma str_of_as_bytes s : str_of_bytes (as_bytes s) = s.
Proof. apply Stdlib.Strings.String.string_of_list_ascii_of_string. Qed.
Lemma as_bytes_of_str b : as_bytes (str_of_bytes b) = b.
Proof. apply Stdlib.Strings.String.list_ascii_of_string_of_list_ascii. Qed.
#[export] Hint Rewrite str_of_as_bytes as_bytes_of_str : tpr.

Lemma as_bytes_app s1 s2 : as_bytes (s1 +:+ s2) = as_bytes s1 ++ as_bytes s2.
Proof. induction s1; simpl; [done|]. unfold as_bytes in *. simpl. by f_equal. Qed.

Lemma str_of_bytes_app a b : str_of_bytes (a ++ b) = str_of_bytes a +:+ str_of_bytes b.
Proof.
  induction a as [|x a IH]; [done|].
  change (String x (str_of_bytes (a ++ b)) = String x (str_of_bytes a +:+ str_of_bytes b)). by rewrite IH.
Qed.

(** [s.len()] *)
Definition str_len (s : string) : nat := Stdlib.Strings.String.length s.

Lemma str_len_as_bytes s : length (as_bytes s) = str_len s.
Proof. induction s; simpl; [done|]. unfold as_bytes in *. simpl. by f_equal. Qed.

(** [core::str::from_utf8]'s acceptance: the well-formed byte sequences of the
    Unicode standard (no overlong form, no surrogate, nothing above U+10FFFF). *)
Definition is_cont (b : byte) : bool := (128 <=? byte_val b)%N && (byte_val b <=? 191)%N.

Fixpoint utf8_valid (bs : bytes) : bool :=
  match bs with
  | [] => true
  | b0 :: r0 =>
      let v := byte_val b0 in
      if (v <? 128)%N then utf8_valid r0
      else match r0 with
      | [] => false
      | b1 :: r1 =>
        let v1 := byte_val b1 in
        if (194 <=? v)%N && (v <=? 223)%N then is_cont b1 && utf8_valid r1
        else match r1 with
        | [] => false
        | b2 :: r2 =>
          if (v =? 224)%N then (160 <=? v1)%N && (v1 <=? 191)%N && is_cont b2 && utf8_valid r2
          else if (v =? 237)%N then (128 <=? v1)%N && (v1 <=? 159)%N && is_cont b2 && utf8_valid r2
          else if (225 <=? v)%N && (v <=? 239)%N
          then is_cont b1 && is_cont b2 && utf8_valid r2
          else match r2 with
          | [] => false
          | b3 :: r3 =>
            if (v =? 240)%N
            then (144 <=? v1)%N && (v1 <=? 191)%N && is_cont b2 && is_cont b3 && utf8_valid r3
            else if (v =? 244)%N
            then (128 <=? v1)%N && (v1 <=? 143)%N && is_cont b2 && is_cont b3 && utf8_valid r3
            else if (241 <=? v)%N && (v <=? 243)%N
            then is_cont b1 && is_cont b2 && is_cont b3 && utf8_valid r3
            else false
          end
        end
      end
  end.

(** [str::from_utf8] / [String::from_utf8] *)
Definition from_utf8 (bs : bytes) : option string :=
  if utf8_valid bs then Some (str_of_bytes bs) else None.

(** A Rust [str] holds valid UTF-8. *)
Definition is_str (s : string) : Prop := utf8_valid (as_bytes s) = true.

#[export] Instance is_str_dec s : Decision (is_str s).
Proof. unfold is_str. apply _. Defined.

Lemma from_utf8_as_bytes s : is_str s → from_utf8 (as_bytes s) = Some s.
Proof. unfold is_str, from_utf8. intros ->. by rewrite str_of_as_bytes. Qed.

Lemma from_utf8_Some bs s : from_utf8 bs = Some s → is_str s ∧ as_bytes s = bs.
Proof.
  unfold from_utf8, is_str. destruct (utf8_valid bs) eqn:E; [|done].
  intros [= <-]. by rewrite as_bytes_of_str.
Qed.
