(* ===== verification/Text.v ===== *)
(** * Text: the [str] and integer-text primitives of the Rust standard library
    that the code calls: [strip_prefix], [parse::<uN>], [Display] of unsigned
    integers, [take_while(char::is_ascii_digit)], [eq_ignore_ascii_case]. *)
From stdpp Require Import base list numbers strings.
From Stdlib Require Import Lia NArith Ascii.
From Stdlib Require DecimalString DecimalN DecimalFacts.
From S2P Require Import Prelude Bytes.

(** [s.strip_prefix(p)] *)
Fixpoint strip_prefix (p s : string) : option string :=
  match p, s with
  | EmptyString, _ => Some s
  | String c p', String c' s' => if decide (c = c') then strip_prefix p' s' else None
  | String _ _, EmptyString => None
  end.

Lemma strip_prefix_app p r : strip_prefix p (p +:+ r) = Some r.
Proof. induction p as [|c p IH]; [done|]. rewrite str_append_cons. cbn. by rewrite decide_True. Qed.

Lemma strip_prefix_Some p s r : strip_prefix p s = Some r → s = p +:+ r.
Proof.
  revert s. induction p as [|c p IH]; intros s; cbn; [by intros [= ->]|].
  destruct s as [|c' s]; [done|]. case_decide as Hc; [|done]. subst. intros ->%IH.
  by rewrite str_append_cons.
Qed.

Definition is_ascii_digit (c : ascii) : bool :=
  let v := N_of_ascii c in (48 <=? v)%N && (v <=? 57)%N.

(** [s.chars().take_while(char::is_ascii_digit).collect()] *)
Fixpoint take_digits (s : string) : string :=
  match s with
  | EmptyString => EmptyString
  | String c r => if is_ascii_digit c then String c (take_digits r) else EmptyString
  end.

(** [c.to_ascii_lowercase()] *)
Definition ascii_lower (c : ascii) : ascii :=
  let v := N_of_ascii c in
  if (65 <=? v)%N && (v <=? 90)%N then ascii_of_N (v + 32) else c.

Fixpoint str_ascii_lower (s : string) : string :=
  match s with
  | EmptyString => EmptyString
  | String c r => String (ascii_lower c) (str_ascii_lower r)
  end.

Definition eq_ignore_ascii_case (a b : string) : bool :=
  bool_decide (str_ascii_lower a = str_ascii_lower b).

(** [n.to_string()] *)
Definition print_dec (n : N) : string := DecimalString.NilEmpty.string_of_uint (N.to_uint n).

(** [s.parse::<uN>()] for a type whose largest value is [max]: an optional
    ['+'], then at least one digit and nothing else, without overflow. *)
Definition parse_uint (max : N) (s : string) : option N :=
  let digits := match s with
                | String c r => if decide (c = "+"%char) then r else s
                | EmptyString => s
                end in
  match digits with
  | EmptyString => None
  | _ =>
      match DecimalString.NilEmpty.uint_of_string digits with
      | Some d => let n := N.of_uint d in if decide (n ≤ max)%N then Some n else None
      | None => None
      end
  end.

(** [s.find(c)] and the slices around it. *)
Fixpoint split_once (c : ascii) (s : string) : option (string * string) :=
  match s with
  | EmptyString => None
  | String x r =>
      if decide (x = c) then Some (EmptyString, r)
      else let?o (a, b) := split_once c r in Some (String x a, b)
  end.

(** [s.rfind(c)] and the two slices around it. *)
Fixpoint rsplit_once (c : ascii) (s : string) : option (string * string) :=
  match s with
  | EmptyString => None
  | String x r =>
      match rsplit_once c r with
      | Some (a, b) => Some (String x a, b)
      | None => if decide (x = c) then Some (EmptyString, r) else None
      end
  end.


(** [s.split(c)] *)
Fixpoint split_char (c : ascii) (s : string) : list string :=
  match s with
  | EmptyString => [""]
  | String x r =>
      match split_char c r with
      | [] => []
      | w :: ws => if decide (x = c) then "" :: w :: ws else String x w :: ws
      end
  end.

(** [s.trim_end_matches(c)] *)
Fixpoint trim_end_char (c : ascii) (s : string) : string :=
  match s with
  | EmptyString => EmptyString
  | String x r =>
      match trim_end_char c r with
      | EmptyString => if decide (x = c) then EmptyString else String x EmptyString
      | r' => String x r'
      end
  end.

(** [s.replace(from, to)] for one-byte patterns. *)
Fixpoint replace_char (from to : ascii) (s : string) : string :=
  match s with
  | EmptyString => EmptyString
  | String x r => String (if decide (x = from) then to else x) (replace_char from to r)
  end.

(** [s.chars().filter(|x| *x != c).collect()] for an ASCII [c]. *)
Fixpoint remove_char (c : ascii) (s : string) : string :=
  match s with
  | EmptyString => EmptyString
  | String x r => if decide (x = c) then remove_char c r else String x (remove_char c r)
  end.

(** The text in double quotes. *)
Definition quoted (s : string) : string := let q := String (ascii_of_N 34) "" in q +:+ s +:+ q.

(** [[str]::join] *)
Fixpoint join (sep : string) (l : list string) : string :=
  match l with
  | [] => ""
  | [s] => s
  | s :: l => s +:+ sep +:+ join sep l
  end.

(** *** [str::trim]: the [White_Space] characters of Unicode, in UTF-8 *)

Definition is_ascii_ws (c : ascii) : bool :=
  let v := N_of_ascii c in ((9 <=? v) && (v <=? 13) || (v =? 32))%N.

(** The two- and three-byte white-space characters: U+0085, U+00A0, U+1680,
    U+2000..U+200A, U+2028, U+2029, U+202F, U+205F, U+3000. *)
Definition is_ws2 (a b : ascii) : bool :=
  ((N_of_ascii a =? 0xC2) && ((N_of_ascii b =? 0x85) || (N_of_ascii b =? 0xA0)))%N.
Definition is_ws3 (a b c : ascii) : bool :=
  let '(x, y, z) := (N_of_ascii a, N_of_ascii b, N_of_ascii c) in
  ((x =? 0xE1) && (y =? 0x9A) && (z =? 0x80)
   || (x =? 0xE2) && (y =? 0x80) && ((0x80 <=? z) && (z <=? 0x8A) || (z =? 0xA8) || (z =? 0xA9) || (z =? 0xAF))
   || (x =? 0xE2) && (y =? 0x81) && (z =? 0x9F)
   || (x =? 0xE3) && (y =? 0x80) && (z =? 0x80))%N.

Fixpoint trim_start (s : string) : string :=
  match s with
  | String a r1 =>
      if is_ascii_ws a then trim_start r1
      else match r1 with
           | String b r2 =>
               if is_ws2 a b then trim_start r2
               else match r2 with
                    | String c r3 => if is_ws3 a b c then trim_start r3 else s
                    | EmptyString => s
                    end
           | EmptyString => s
           end
  | EmptyString => EmptyString
  end.

Fixpoint trim_end (s : string) : string :=
  match s with
  | EmptyString => EmptyString
  | String c r => if String.eqb (trim_start s) EmptyString then EmptyString else String c (trim_end r)
  end.

Definition trim (s : string) : string := trim_end (trim_start s).

Definition u16_max : N := 65535.
Definition u32_max : N := 4294967295.
Definition u64_max : N := 18446744073709551615.

(** ** Facts *)

Fixpoint all_digits (s : string) : bool :=
  match s with EmptyString => true | String c r => is_ascii_digit c && all_digits r end.

Lemma digits_string_of_uint d : all_digits (DecimalString.NilEmpty.string_of_uint d) = true.
Proof. induction d; cbn; auto. Qed.

Lemma digits_print_dec n : all_digits (print_dec n) = true.
Proof. apply digits_string_of_uint. Qed.

Lemma take_digits_app s r :
  all_digits s = true → (∀ c r', r = String c r' → is_ascii_digit c = false) →
  take_digits (s +:+ r) = s.
Proof.
  intros Hs Hr. induction s as [|c s IH].
  - destruct r as [|c r]; [done|]. change ("" +:+ String c r) with (String c r). cbn.
    by rewrite (Hr c r eq_refl).
  - cbn in Hs. apply andb_true_iff in Hs as [Hc Hs]. rewrite str_append_cons. cbn.
    by rewrite Hc, IH.
Qed.

Lemma take_digits_all s : all_digits s = true → take_digits s = s.
Proof. intros Hs. rewrite <-(str_append_nil_r s) at 1. by apply take_digits_app. Qed.

Lemma print_dec_nonempty n : print_dec n ≠ "".
Proof.
  unfold print_dec. destruct (N.to_uint n) eqn:E; try done.
  exfalso. pose proof (DecimalN.Unsigned.of_to n) as H. rewrite E in H. cbn in H. subst n. by compute in E.
Qed.

Lemma parse_print_dec max n : (n ≤ max)%N → parse_uint max (print_dec n) = Some n.
Proof.
  intros H. unfold parse_uint. pose proof (digits_print_dec n) as Hd. pose proof (print_dec_nonempty n) as Hn.
  pose proof (DecimalString.NilEmpty.usu (N.to_uint n)) as Hu. fold (print_dec n) in Hu.
  destruct (print_dec n) as [|c r] eqn:E; [done|].
  rewrite decide_False.
  2:{ intros ->. cbn in Hd. done. }
  rewrite Hu, DecimalN.Unsigned.of_to. by rewrite decide_True.
Qed.
#[export] Hint Resolve digits_print_dec print_dec_nonempty : tp.

Lemma parse_uint_le max s n : parse_uint max s = Some n → (n ≤ max)%N.
Proof. unfold parse_uint. repeat case_match; congruence || (intros; simplify_eq; done). Qed.

Lemma all_digits_no_char c s : is_ascii_digit c = false → all_digits s = true → str_contains c s = false.
Proof.
  intros Hc. induction s as [|x s IH]; [done|]. cbn. intros [Hx Hs]%andb_true_iff.
  rewrite decide_False by (intros ->; congruence). by apply IH.
Qed.

Lemma split_once_app c a b :
  str_contains c a = false → split_once c (a +:+ String c b) = Some (a, b).
Proof.
  induction a as [|x a IH].
  - intros _. change ("" +:+ String c b) with (String c b). cbn. by rewrite decide_True.
  - cbn [str_contains]. case_decide as Hx; [done|]. intros Ha. rewrite str_append_cons. cbn.
    by rewrite decide_False, IH by congruence.
Qed.

Lemma split_once_Some c s a b : split_once c s = Some (a, b) → s = a +:+ String c b.
Proof.
  revert a. induction s as [|x s IH]; intros a; cbn; [done|]. case_decide as Hx.
  - intros [= <- <-]. by subst.
  - destruct (split_once c s) as [[a' b']|]; cbn; [|done]. intros [= <- <-].
    rewrite str_append_cons. by rewrite <-(IH a' eq_refl).
Qed.

Lemma rsplit_once_none c s : str_contains c s = false → rsplit_once c s = None.
Proof.
  induction s as [|x s IH]; [done|]. cbn. case_decide as H; [done|]. intros Hs.
  rewrite IH by done. by rewrite decide_False by congruence.
Qed.

Lemma rsplit_once_app c a b :
  str_contains c b = false → rsplit_once c (a +:+ String c b) = Some (a, b).
Proof.
  intros Hb. induction a as [|x a IH].
  - change ("" +:+ String c b) with (String c b). cbn. rewrite rsplit_once_none by done.
    by rewrite decide_True.
  - rewrite str_append_cons. cbn. by rewrite IH.
Qed.

Lemma rsplit_once_Some c s a b : rsplit_once c s = Some (a, b) → s = a +:+ String c b.
Proof.
  revert a. induction s as [|x s IH]; intros a; cbn; [done|].
  destruct (rsplit_once c s) as [[a' b']|] eqn:E.
  - intros [= <- <-]. rewrite str_append_cons. f_equal. by apply IH.
  - case_decide as Hx; [|done]. intros [= <- <-]. by subst.
Qed.

(** *** Strings of printable ASCII *)

Definition is_graphic (c : ascii) : bool := let v := N_of_ascii c in ((33 <=? v) && (v <? 127))%N.

Fixpoint all_chars (P : ascii → bool) (s : string) : bool :=
  match s with EmptyString => true | String c r => P c && all_chars P r end.

Lemma all_chars_app P a b : all_chars P (a +:+ b) = all_chars P a && all_chars P b.
Proof. induction a as [|c a IH]; [done|]. rewrite str_append_cons. cbn. by rewrite IH, andb_assoc. Qed.

Lemma all_chars_impl P Q s : (∀ c, P c = true → Q c = true) → all_chars P s = true → all_chars Q s = true.
Proof. intros H. induction s as [|c s IH]; [done|]. cbn. intros [?%H ?%IH]%andb_true_iff. by apply andb_true_iff. Qed.

Lemma all_chars_no_char P c s : P c = false → all_chars P s = true → str_contains c s = false.
Proof.
  intros Hc. induction s as [|x s IH]; [done|]. cbn. intros [Hx Hs]%andb_true_iff.
  rewrite decide_False by (intros ->; congruence). by apply IH.
Qed.

Lemma trim_start_graphic s : all_chars is_graphic s = true → trim_start s = s.
Proof.
  destruct s as [|a r]; [done|]. cbn [all_chars]. intros [Ha _]%andb_true_iff.
  unfold is_graphic in Ha. apply andb_true_iff in Ha as [H1%N.leb_le H2%N.ltb_lt].
  cbn [trim_start]. unfold is_ascii_ws. destruct (_ || _)%N eqn:E.
  { apply orb_true_iff in E as [[E1%N.leb_le E2%N.leb_le]%andb_true_iff|E%N.eqb_eq]; lia. }
  destruct r as [|b r]; [done|]. unfold is_ws2. rewrite (proj2 (N.eqb_neq _ _)) by lia. cbn [andb].
  destruct r as [|c r]; [done|]. unfold is_ws3. rewrite !(proj2 (N.eqb_neq (N_of_ascii a) _)) by lia. done.
Qed.

Lemma trim_graphic s : all_chars is_graphic s = true → trim s = s.
Proof.
  intros Hs. unfold trim. rewrite trim_start_graphic by done. induction s as [|c s IH]; [done|].
  cbn [trim_end]. rewrite trim_start_graphic by done. cbn [String.eqb].
  cbn in Hs. apply andb_true_iff in Hs as [_ Hs]. by rewrite IH.
Qed.

(** A line of printable characters, its end trimmed. *)
Lemma trim_line s : s ≠ "" → all_chars is_graphic s = true → trim (s +:+ String (ascii_of_N 10) "") = s.
Proof.
  intros Hne Hs. assert (∀ s c, all_chars is_graphic (String c s) = true → ∀ t, trim_start (String c s +:+ t) = String c s +:+ t) as Hst.
  { clear. intros s c H t. cbn [all_chars] in H. apply andb_true_iff in H as [Ha _]. unfold is_graphic in Ha.
    apply andb_true_iff in Ha as [H1%N.leb_le H2%N.ltb_lt]. rewrite str_append_cons. cbn [trim_start]. unfold is_ascii_ws.
    destruct (_ || _)%N eqn:E; [apply orb_true_iff in E as [[E1%N.leb_le E2%N.leb_le]%andb_true_iff|E%N.eqb_eq]; lia|].
    destruct (s +:+ t) as [|b r]; [done|]. unfold is_ws2. rewrite (proj2 (N.eqb_neq _ _)) by lia. cbn [andb].
    destruct r as [|d r]; [done|]. unfold is_ws3. rewrite !(proj2 (N.eqb_neq (N_of_ascii c) _)) by lia. done. }
  unfold trim. destruct s as [|c s]; [done|]. rewrite Hst by done. clear Hne. revert c Hs. induction s as [|c' s IH]; intros c Hs.
  - rewrite str_append_cons. cbn [trim_end]. change (String c ("" +:+ ?t)) with (String c "" +:+ t). rewrite Hst by done. reflexivity.
  - rewrite str_append_cons. cbn [trim_end]. change (String c (String c' s +:+ ?t)) with (String c (String c' s) +:+ t).
    rewrite Hst by done. cbn in Hs. apply andb_true_iff in Hs as [_ Hs]. rewrite str_append_cons at 1. cbn [String.eqb]. by rewrite IH.
Qed.

Lemma split_char_none c s : str_contains c s = false → split_char c s = [s].
Proof.
  induction s as [|x s IH]; [done|]. cbn [str_contains split_char]. case_decide as Hx; [done|].
  intros Hs. rewrite IH by done. rewrite decide_False by congruence. done.
Qed.

Lemma split_char_ne c s : split_char c s ≠ [].
Proof. induction s as [|x s IH]; [done|]. cbn. destruct (split_char c s); [done|]. by case_decide. Qed.

Lemma split_char_app c a b : str_contains c a = false → split_char c (a +:+ String c b) = a :: split_char c b.
Proof.
  induction a as [|x a IH]; intros Ha.
  - change ("" +:+ String c b) with (String c b). cbn. destruct (split_char c b) as [|w ws] eqn:E; [by destruct (split_char_ne c b)|].
    by rewrite decide_True.
  - cbn in Ha. case_decide as Hx; [done|]. rewrite str_append_cons. cbn. rewrite IH by done.
    by rewrite decide_False by congruence.
Qed.

(** The pieces hold no separator, and joining the pieces of a join gives them back. *)
Lemma split_char_parts c s p : p ∈ split_char c s → str_contains c p = false.
Proof.
  revert p. induction s as [|x s IH]; intros p; cbn [split_char]; [by intros ->%list_elem_of_singleton|].
  destruct (split_char c s) as [|w ws]; [by intros ?%elem_of_nil|]. case_decide as Hx.
  - intros [->|Hp]%elem_of_cons; [done|by apply IH].
  - intros [->|Hp]%elem_of_cons; [|by apply IH; right]. cbn. rewrite decide_False by done. apply IH. left.
Qed.

Lemma split_join_app c l r : l ≠ [] → (∀ p, p ∈ l → str_contains c p = false) →
  split_char c (join (String c "") l +:+ String c r) = l ++ split_char c r.
Proof.
  induction l as [|p [|q l] IH]; intros Hne Hl; [done| |].
  - cbn [join]. by rewrite split_char_app by (apply Hl; left).
  - change (join (String c "") (p :: q :: l)) with (p +:+ String c "" +:+ join (String c "") (q :: l)). rewrite !str_append_assoc.
    change (String c "" +:+ ?x) with (String c x). rewrite split_char_app by (apply Hl; left).
    rewrite IH; [done|done|]. intros x Hx. apply Hl. by right.
Qed.

Lemma split_join c l : l ≠ [] → (∀ p, p ∈ l → str_contains c p = false) → split_char c (join (String c "") l) = l.
Proof.
  induction l as [|p [|q l] IH]; intros Hne Hl; [done| |].
  - cbn [join]. by apply split_char_none, Hl; left.
  - change (join (String c "") (p :: q :: l)) with (p +:+ String c "" +:+ join (String c "") (q :: l)).
    change (String c "" +:+ ?x) with (String c x). rewrite split_char_app by (apply Hl; left).
    rewrite IH; [done|done|]. intros x Hx. apply Hl. by right.
Qed.

Lemma prefix_app p s : String.prefix p s = true → ∃ r, s = p +:+ r.
Proof.
  revert s. induction p as [|c p IH]; intros [|x s]; cbn; try done; [by exists ""|by exists (String x s)|].
  destruct (ascii_dec c x) as [->|]; [|done]. intros [r ->]%IH. exists r. by rewrite str_append_cons.
Qed.

Lemma replace_char_len a b s : str_len (replace_char a b s) = str_len s.
Proof. induction s as [|x s IH]; [done|]. cbn. unfold str_len in IH. by rewrite IH. Qed.

(** Replacing [a] by a fresh [b] is undone by the converse. *)
Lemma replace_char_inv a b s : str_contains b s = false → replace_char b a (replace_char a b s) = s.
Proof.
  induction s as [|x s IH]; [done|]. cbn. case_decide as Hb; [done|]. intros Hs. rewrite IH by done. f_equal.
  destruct (decide (x = a)) as [->|Hne]; [by rewrite decide_True|]. by rewrite decide_False by congruence.
Qed.

Lemma str_len_app a b : str_len (a +:+ b) = str_len a + str_len b.
Proof. rewrite <-!str_len_as_bytes, as_bytes_app, length_app. done. Qed.

(** [k] times the character [c]. *)
Fixpoint repeat_char (c : ascii) (k : nat) : string :=
  match k with O => "" | S k => String c (repeat_char c k) end.

Lemma repeat_char_len c k : str_len (repeat_char c k) = k.
Proof. induction k as [|k IH]; [done|]. cbn. unfold str_len in IH. by rewrite IH. Qed.

Lemma trim_end_char_repeat c s k :
  str_contains c s = false → trim_end_char c (s +:+ repeat_char c k) = s.
Proof.
  induction s as [|x s IH]; intros Hs.
  - change ("" +:+ repeat_char c k) with (repeat_char c k). clear Hs.
    induction k as [|k IHk]; [done|]. cbn. rewrite IHk. by rewrite decide_True.
  - cbn in Hs. case_decide as Hx; [done|]. rewrite str_append_cons. cbn. rewrite IH by done.
    destruct s; [|done]. by rewrite decide_False by congruence.
Qed.

(** *** [trim] is a projection *)

Lemma str_len_ind (P : string → Prop) :
  (∀ s, (∀ r, str_len r < str_len s → P r) → P s) → ∀ s, P s.
Proof.
  intros H s. remember (str_len s) as n eqn:En. revert s En. induction n as [n IH] using lt_wf_ind.
  intros s ->. apply H. intros r Hr. by apply (IH (str_len r)).
Qed.

(** What [trim_start] does: drop one white-space character, or stop. *)
Lemma trim_start_cases s :
  trim_start s = s ∨
  (∃ p r, s = p +:+ r ∧ 0 < str_len p ∧ ∀ w, trim_start (p +:+ w) = trim_start w).
Proof.
  destruct s as [|a r1]; [by left|]. cbn [trim_start]. destruct (is_ascii_ws a) eqn:Ea.
  { right. exists (String a ""), r1. split_and!; [done|cbn; lia|]. intros w. rewrite str_append_cons. cbn [trim_start].
    by rewrite Ea. }
  destruct r1 as [|b r2]; [by left|]. destruct (is_ws2 a b) eqn:Eb.
  { right. exists (String a (String b "")), r2. split_and!; [done|cbn; lia|]. intros w. rewrite !str_append_cons.
    cbn [trim_start]. by rewrite Ea, Eb. }
  destruct r2 as [|c r3]; [by left|]. destruct (is_ws3 a b c) eqn:Ec; [|by left].
  right. exists (String a (String b (String c ""))), r3. split_and!; [done|cbn; lia|]. intros w.
  rewrite !str_append_cons. cbn [trim_start]. by rewrite Ea, Eb, Ec.
Qed.

Lemma trim_start_len s : str_len (trim_start s) ≤ str_len s.
Proof.
  induction s as [s IH] using str_len_ind. destruct (trim_start_cases s) as [->|(p & r & -> & Hp & Hw)]; [done|].
  rewrite Hw, str_len_app in *. etransitivity; [apply IH; lia|lia].
Qed.

Lemma trim_start_idemp s : trim_start (trim_start s) = trim_start s.
Proof.
  induction s as [s IH] using str_len_ind. destruct (trim_start_cases s) as [E|(p & r & -> & Hp & Hw)].
  - by rewrite !E.
  - rewrite Hw. apply IH. rewrite str_len_app. lia.
Qed.

Lemma trim_start_all_ws u w : trim_start u = "" → trim_start (u +:+ w) = trim_start w.
Proof.
  induction u as [u IH] using str_len_ind. intros Hu.
  destruct (trim_start_cases u) as [E|(p & r & -> & Hp & Hw)].
  - rewrite E in Hu. by subst.
  - rewrite str_append_assoc, Hw. apply IH; [rewrite str_len_app; lia|]. by rewrite <-Hu, Hw.
Qed.

(** A prefix of a string that starts with no white space starts with none. *)
Lemma trim_start_prefix t w : trim_start (t +:+ w) = t +:+ w → trim_start t = t.
Proof.
  destruct (trim_start_cases t) as [E|(p & r & -> & Hp & Hw)]; [done|].
  rewrite str_append_assoc, Hw. intros E. pose proof (trim_start_len (r +:+ w)) as H.
  rewrite E, str_len_app in H. lia.
Qed.

Lemma trim_end_prefix s : ∃ w, s = trim_end s +:+ w ∧ trim_start w = "".
Proof.
  induction s as [|c s (w & Hs & Hw)]; [by exists ""|]. cbn [trim_end].
  destruct (String.eqb_spec (trim_start (String c s)) ""); [by exists (String c s)|].
  exists w. split; [|done]. by rewrite str_append_cons, <-Hs.
Qed.

Lemma trim_end_idemp s : trim_end (trim_end s) = trim_end s.
Proof.
  induction s as [|c s IH]; [done|]. cbn [trim_end].
  destruct (String.eqb_spec (trim_start (String c s)) "") as [|Hn]; [done|]. cbn [trim_end].
  destruct (String.eqb_spec (trim_start (String c (trim_end s))) "") as [E|]; [|by rewrite IH].
  destruct Hn. destruct (trim_end_prefix s) as (w & Hs & Hw).
  replace (String c s) with (String c (trim_end s) +:+ w) by by rewrite str_append_cons, <-Hs.
  by rewrite trim_start_all_ws.
Qed.

Lemma trim_idemp s : trim (trim s) = trim s.
Proof.
  unfold trim. replace (trim_start (trim_end (trim_start s))) with (trim_end (trim_start s));
    [apply trim_end_idemp|].
  destruct (trim_end_prefix (trim_start s)) as (w & Hs & _). symmetry. apply (trim_start_prefix _ w).
  rewrite <-Hs. apply trim_start_idemp.
Qed.
