(* ===== verification/Chars.v ===== *)
(** * Chars: a [str] as its sequence of Unicode scalar values.
    [s.chars()] gives each scalar value as the bytes that encode it; cutting at a
    character boundary keeps a string well-formed. *)
From stdpp Require Import base list numbers strings.
From Stdlib Require Import Lia ZifyBool NArith Ascii.
From S2P Require Import Prelude Bytes Text.

(** A character starts at every byte that is not a continuation byte. *)
Definition chars_step (b : byte) (acc : bytes * list bytes) : bytes * list bytes :=
  if is_cont b then (b :: acc.1, acc.2) else ([], (b :: acc.1) :: acc.2).
Definition chars_bytes (bs : bytes) : list bytes := (foldr chars_step ([], []) bs).2.

(** [s.chars().collect::<Vec<char>>()] *)
Definition chars (s : string) : list string := str_of_bytes <$> chars_bytes (as_bytes s).

(** [chars.iter().collect::<String>()] *)
Definition of_chars (cs : list string) : string := foldr String.append "" cs.

(** [s.chars().count()] *)
Definition chars_count (s : string) : nat := length (chars s).

Definition is_char (c : bytes) : Prop :=
  ∃ b r, c = b :: r ∧ is_cont b = false ∧ forallb is_cont r = true ∧ ∀ x, utf8_valid (c ++ x) = utf8_valid x.

Lemma is_cont_false b : is_cont b = false ↔ (byte_val b < 128 ∨ 191 < byte_val b)%N.
Proof. unfold is_cont. rewrite andb_false_iff, !N.leb_gt. done. Qed.

Lemma is_cont_true b : is_cont b = true ↔ (128 ≤ byte_val b ≤ 191)%N.
Proof. unfold is_cont. rewrite andb_true_iff, !N.leb_le. done. Qed.

(** The first character of a well-formed sequence. *)
Lemma utf8_first b0 r0 :
  utf8_valid (b0 :: r0) = true → ∃ r rest, r0 = r ++ rest ∧ is_char (b0 :: r) ∧ utf8_valid rest = true.
Proof.
  intros H. 
  assert (∀ r rest, r0 = r ++ rest → is_cont b0 = false → forallb is_cont r = true →
    (∀ x, utf8_valid (b0 :: r ++ x) = utf8_valid x) → ∃ r rest, r0 = r ++ rest ∧ is_char (b0 :: r) ∧ utf8_valid rest = true) as K.
  { intros r rest E H1 H2 H3. exists r, rest. split; [done|]. split; [by exists b0, r|]. by rewrite E, H3 in H. }
  cbn [utf8_valid] in H.
  repeat match type of H with
         | (if ?c then _ else _) = true => destruct c eqn:?
         | match ?l with [] => _ | _ :: _ => _ end = true => destruct l as [|? l]; [discriminate H|]
         end; try discriminate H;
    repeat match goal with E : _ && _ = true |- _ => apply andb_true_iff in E as [? ?] end;
    [apply (K [] r0)|eapply (K [_] _)|eapply (K [_; _] _)|eapply (K [_; _] _)|eapply (K [_; _] _)
    |eapply (K [_; _; _] _)|eapply (K [_; _; _] _)|eapply (K [_; _; _] _)]; try reflexivity;
    try (apply is_cont_false; lia);
    try (cbn [forallb]; rewrite ?andb_true_iff; split_and!; try reflexivity; apply is_cont_true;
         rewrite ?is_cont_true in *; lia);
    intros x; cbn [app utf8_valid];
    repeat match goal with E : ?c = ?v |- context [?c] => rewrite E; cbn [andb] end; reflexivity.
Qed.

(** Induction over the characters of a well-formed sequence. *)
Lemma utf8_ind (P : bytes → Prop) :
  P [] → (∀ c bs, is_char c → utf8_valid bs = true → P bs → P (c ++ bs)) → ∀ bs, utf8_valid bs = true → P bs.
Proof.
  intros H0 Hs bs. remember (length bs) as n eqn:En. revert bs En.
  induction (lt_wf n) as [n _ IH]. intros [|b bs] -> Hv; [done|].
  destruct (utf8_first b bs Hv) as (r & rest & -> & Hc & Hr).
  apply (Hs (b :: r) rest Hc Hr), (IH (length rest)); [|done..]. cbn. rewrite length_app. lia.
Qed.

Lemma chars_step_conts r acc : forallb is_cont r = true →
  foldr chars_step acc r = (r ++ acc.1, acc.2).
Proof.
  induction r as [|b r IH]; cbn; [by destruct acc|]. intros [Hb Hr]%andb_true_iff. rewrite IH by done.
  unfold chars_step. by rewrite Hb.
Qed.

(** At a boundary nothing is pending. *)
Lemma chars_bytes_char c bs : is_char c → utf8_valid bs = true → chars_bytes (c ++ bs) = c :: chars_bytes bs.
Proof.
  intros (b & r & -> & Hb & Hr & _) Hv. unfold chars_bytes. cbn. rewrite foldr_app, chars_step_conts by done.
  unfold chars_step at 1. rewrite Hb. cbn. f_equal. f_equal.
  destruct bs as [|b' bs]; [apply app_nil_r|]. destruct (utf8_first b' bs Hv) as (r' & rest & -> & (?&?&[= <- <-]&Hb'&_) & _).
  cbn. unfold chars_step at 1. rewrite Hb'. apply app_nil_r.
Qed.

Lemma chars_bytes_concat bs : utf8_valid bs = true → Forall is_char (chars_bytes bs) ∧ concat (chars_bytes bs) = bs.
Proof.
  revert bs. apply utf8_ind; [by split; [constructor|]|]. intros c bs Hc Hv [IHf IHc].
  rewrite chars_bytes_char by done. cbn. split; [by constructor|by rewrite IHc].
Qed.

Lemma chars_valid cs : Forall is_char cs → utf8_valid (concat cs) = true ∧ chars_bytes (concat cs) = cs.
Proof.
  induction 1 as [|c cs Hc Hcs [IHv IHc]]; [done|]. cbn. split; [by destruct Hc as (?&?&_&_&_&->)|].
  by rewrite chars_bytes_char, IHc.
Qed.

Lemma of_chars_concat cs : of_chars (str_of_bytes <$> cs) = str_of_bytes (concat cs).
Proof.
  induction cs as [|c cs IH]; [done|]. rewrite fmap_cons. cbn [concat]. rewrite str_of_bytes_app, <-IH. done.
Qed.

Definition char_list (cs : list string) : Prop := Forall (λ c, is_char (as_bytes c)) cs.

Lemma chars_list s : is_str s → char_list (chars s).
Proof.
  intros [Hf _]%chars_bytes_concat. unfold char_list, chars. rewrite Forall_fmap. eapply Forall_impl; [exact Hf|].
  intros c Hc. cbn. by rewrite as_bytes_of_str.
Qed.

(** Characters put together make a string with these characters. *)
Lemma of_chars_list cs : char_list cs → is_str (of_chars cs) ∧ chars (of_chars cs) = cs.
Proof.
  intros H. assert (Forall is_char (as_bytes <$> cs)) as [Hv Hc]%chars_valid by by rewrite Forall_fmap.
  assert (of_chars cs = str_of_bytes (concat (as_bytes <$> cs))) as ->.
  { rewrite <-of_chars_concat, <-list_fmap_compose. f_equal. clear. induction cs as [|c cs IH]; [done|].
    rewrite fmap_cons, <-IH. cbn. by rewrite str_of_as_bytes. }
  unfold is_str, chars. rewrite as_bytes_of_str, Hc, <-list_fmap_compose. split; [done|]. clear.
  induction cs as [|c cs IH]; [done|]. rewrite fmap_cons, IH. cbn. by rewrite str_of_as_bytes.
Qed.

Lemma take_chars s n : is_str s →
  is_str (of_chars (take n (chars s))) ∧ chars (of_chars (take n (chars s))) = take n (chars s).
Proof. intros H%chars_list. apply of_chars_list. by apply Forall_take. Qed.

Lemma of_chars_chars s : is_str s → of_chars (chars s) = s.
Proof.
  intros [_ Hc]%chars_bytes_concat. unfold chars. rewrite of_chars_concat, Hc. apply str_of_as_bytes.
Qed.

Lemma of_chars_app a b : of_chars (a ++ b) = of_chars a +:+ of_chars b.
Proof.
  induction a as [|x a IH]; [done|]. change (x +:+ of_chars (a ++ b) = (x +:+ of_chars a) +:+ of_chars b).
  by rewrite IH, str_append_assoc.
Qed.

Lemma chars_app s1 s2 : is_str s1 → is_str s2 → chars (s1 +:+ s2) = chars s1 ++ chars s2 ∧ is_str (s1 +:+ s2).
Proof.
  intros H1 H2. unfold chars, is_str in *. rewrite as_bytes_app.
  revert H1. generalize (as_bytes s1) as b1. apply utf8_ind; [by split|]. intros c b1 Hc Hv [IHc IHv].
  rewrite <-app_assoc, (chars_bytes_char c (b1 ++ _)), (chars_bytes_char c b1), !fmap_cons by done. rewrite IHc. split; [done|].
  by destruct Hc as (?&?&_&_&_&->).
Qed.

(** ** Trimming stays on character boundaries *)

Lemma utf8_ascii b x : (byte_val b < 128)%N → utf8_valid (b :: x) = utf8_valid x.
Proof. intros H. cbn. by rewrite (proj2 (N.ltb_lt _ _) H). Qed.

Lemma ws2_valid a b x : is_ws2 a b = true → utf8_valid (a :: b :: x) = utf8_valid x.
Proof.
  unfold is_ws2. intros [Ha Hb]%andb_true_iff. unfold utf8_valid; fold utf8_valid. unfold byte_val, is_cont, byte_val.
  apply N.eqb_eq in Ha. rewrite Ha. cbn [N.ltb N.compare N.leb andb].
  replace ((128 <=? N_of_ascii b)%N && (N_of_ascii b <=? 191)%N) with true; [done|]. lia.
Qed.

Lemma ws3_valid a b c x : is_ws3 a b c = true → utf8_valid (a :: b :: c :: x) = utf8_valid x.
Proof.
  unfold is_ws3. intros H. unfold utf8_valid; fold utf8_valid. unfold byte_val, is_cont, byte_val.
  assert ((N_of_ascii a = 225 ∨ N_of_ascii a = 226 ∨ N_of_ascii a = 227) ∧ (128 ≤ N_of_ascii b ≤ 191) ∧ (128 ≤ N_of_ascii c ≤ 191))%N
    as (Ha & Hb & Hc) by lia.
  replace ((128 <=? N_of_ascii b)%N && (N_of_ascii b <=? 191)%N) with true by lia.
  replace ((128 <=? N_of_ascii c)%N && (N_of_ascii c <=? 191)%N) with true by lia.
  by destruct Ha as [->|[->| ->]].
Qed.

(** One step: nothing to trim, or one white-space character less. *)
Lemma trim_start_step s : trim_start s = s ∨
  ∃ r, str_len r < str_len s ∧ trim_start s = trim_start r ∧ utf8_valid (as_bytes s) = utf8_valid (as_bytes r).
Proof.
  destruct s as [|a r1]; [by left|].
  change (trim_start (String a r1)) with
    (if is_ascii_ws a then trim_start r1
     else match r1 with
          | String b r2 =>
              if is_ws2 a b then trim_start r2
              else match r2 with
                   | String c r3 => if is_ws3 a b c then trim_start r3 else String a r1
                   | EmptyString => String a r1
                   end
          | EmptyString => String a r1
          end).
  destruct (is_ascii_ws a) eqn:E.
  { right. exists r1. split_and!; [unfold str_len; cbn; lia|done|]. apply (utf8_ascii a). unfold is_ascii_ws in E. unfold byte_val. lia. }
  destruct r1 as [|b r2]; [by left|]. destruct (is_ws2 a b) eqn:E2.
  { right. exists r2. split_and!; [unfold str_len; cbn; lia|done|]. by apply (ws2_valid a b). }
  destruct r2 as [|c r3]; [by left|]. destruct (is_ws3 a b c) eqn:E3; [|by left].
  right. exists r3. split_and!; [unfold str_len; cbn; lia|done|]. by apply (ws3_valid a b c).
Qed.

Lemma trim_start_str s : is_str s → is_str (trim_start s).
Proof.
  unfold is_str. remember (str_len s) as n eqn:En. revert s En.
  induction (lt_wf n) as [n _ IH]. intros s -> Hv. destruct (trim_start_step s) as [->|(r & Hr & -> & E)]; [done|].
  apply (IH (str_len r)); [done..|]. by rewrite <-E.
Qed.

Lemma trim_start_cont b s : is_cont b = true → trim_start (String b s) ≠ "".
Proof.
  intros Hb%is_cont_true. unfold byte_val in Hb. cbn [trim_start].
  replace (is_ascii_ws b) with false by (unfold is_ascii_ws; lia). destruct s as [|c s]; [done|].
  replace (is_ws2 b c) with false by (unfold is_ws2; lia). destruct s as [|d s]; [done|].
  by replace (is_ws3 b c d) with false by (unfold is_ws3; lia).
Qed.

Lemma trim_end_conts r s : forallb is_cont r = true →
  trim_end (str_of_bytes r +:+ s) = str_of_bytes r +:+ trim_end s.
Proof.
  induction r as [|b r IH]; [done|]. cbn [forallb]. intros [Hb Hr]%andb_true_iff.
  change (str_of_bytes (b :: r)) with (String b (str_of_bytes r)). rewrite !str_append_cons. cbn [trim_end].
  destruct (String.eqb_spec (trim_start (String b (str_of_bytes r +:+ s))) ""); [by apply trim_start_cont in e|].
  by rewrite IH.
Qed.

Lemma trim_end_str s : is_str s → is_str (trim_end s).
Proof.
  unfold is_str. rewrite <-(str_of_as_bytes s) at 2. generalize (as_bytes s). clear s.
  apply utf8_ind; [done|]. intros c bs (b & r & -> & _ & Hr & Hc) Hv IH.
  change (str_of_bytes ((b :: r) ++ bs)) with (String b (str_of_bytes (r ++ bs))). cbn [trim_end].
  destruct (String.eqb _ _); [done|]. rewrite str_of_bytes_app, trim_end_conts by done.
  rewrite <-(as_bytes_of_str (b :: r)) in Hc. specialize (Hc (as_bytes (trim_end (str_of_bytes bs)))).
  rewrite <-as_bytes_app in Hc. by rewrite <-IH.
Qed.

Lemma trim_str s : is_str s → is_str (trim s).
Proof. intros H. by apply trim_end_str, trim_start_str. Qed.

(** ** [String::from_utf8_lossy] *)

Definition REPLACEMENT : bytes := [as_u8 0xEF; as_u8 0xBF; as_u8 0xBD].

Definition in_range (lo hi : N) (b : byte) : bool := (lo <=? byte_val b)%N && (byte_val b <=? hi)%N.

(** What may follow a lead byte, and how many continuation bytes come after that. *)
Definition second_byte (b0 : byte) : option ((byte → bool) * nat) :=
  let v := byte_val b0 in
  if (194 <=? v)%N && (v <=? 223)%N then Some (is_cont, 0)
  else if (v =? 224)%N then Some (in_range 160 191, 1)
  else if (v =? 237)%N then Some (in_range 128 159, 1)
  else if (225 <=? v)%N && (v <=? 239)%N then Some (is_cont, 1)
  else if (v =? 240)%N then Some (in_range 144 191, 2)
  else if (v =? 244)%N then Some (in_range 128 143, 2)
  else if (241 <=? v)%N && (v <=? 243)%N then Some (is_cont, 2)
  else None.

(** Well-formed characters are kept; each longest prefix of one that is cut short
    becomes one replacement character. *)
Fixpoint lossy_bytes (bs : bytes) : bytes :=
  match bs with
  | [] => []
  | b0 :: r0 =>
      if (byte_val b0 <? 128)%N then b0 :: lossy_bytes r0
      else
        match second_byte b0 with
        | None => REPLACEMENT ++ lossy_bytes r0
        | Some (ok, more) =>
            match r0 with
            | [] => REPLACEMENT
            | b1 :: r1 =>
                if negb (ok b1) then REPLACEMENT ++ lossy_bytes r0
                else
                  match more with
                  | 0 => b0 :: b1 :: lossy_bytes r1
                  | S more =>
                      match r1 with
                      | [] => REPLACEMENT
                      | b2 :: r2 =>
                          if negb (is_cont b2) then REPLACEMENT ++ lossy_bytes r1
                          else
                            match more with
                            | 0 => b0 :: b1 :: b2 :: lossy_bytes r2
                            | S _ =>
                                match r2 with
                                | [] => REPLACEMENT
                                | b3 :: r3 =>
                                    if negb (is_cont b3) then REPLACEMENT ++ lossy_bytes r2
                                    else b0 :: b1 :: b2 :: b3 :: lossy_bytes r3
                                end
                            end
                      end
                  end
            end
        end
  end.

Definition from_utf8_lossy (bs : bytes) : string := str_of_bytes (lossy_bytes bs).

Lemma replacement_valid x : utf8_valid (REPLACEMENT ++ x) = utf8_valid x.
Proof. reflexivity. Qed.

(** The class [utf8_valid] tests, read off [second_byte]. *)
Lemma second_byte_valid b0 ok more b1 r :
  (byte_val b0 <? 128)%N = false → second_byte b0 = Some (ok, more) → ok b1 = true →
  utf8_valid (b0 :: b1 :: r) =
    match more, r with
    | 0, _ => utf8_valid r
    | 1, b2 :: r2 => is_cont b2 && utf8_valid r2
    | 2, b2 :: b3 :: r3 => is_cont b2 && is_cont b3 && utf8_valid r3
    | _, _ => false
    end.
Proof.
  intros H0 H1 H2. unfold second_byte in H1.
  repeat match type of H1 with (if ?c then _ else _) = _ => destruct c eqn:? end; simplify_eq;
    unfold in_range in H2; cbn [utf8_valid]; rewrite H0;
    repeat match goal with E : ?c = ?v |- context [if ?c then _ else _] => rewrite E end; cbn [andb];
    try (by rewrite H2); try (by destruct r as [|b2 [|b3 r]]; rewrite ?H2).
Qed.

Lemma second_byte_none b0 r :
  (byte_val b0 <? 128)%N = false → second_byte b0 = None → utf8_valid (b0 :: r) = false.
Proof.
  intros H0 H1. unfold second_byte in H1.
  repeat match type of H1 with (if ?c then _ else _) = _ => destruct c eqn:?; [done|] end.
  cbn [utf8_valid]. rewrite H0. repeat match goal with E : ?c = false |- context [if ?c then _ else _] => rewrite E end.
  destruct r as [|b1 [|b2 [|b3 r]]]; try done;
    repeat match goal with E : ?c = false |- context [if ?c then _ else _] => rewrite E end; done.
Qed.

Lemma second_byte_bad b0 ok more b1 r :
  (byte_val b0 <? 128)%N = false → second_byte b0 = Some (ok, more) → ok b1 = false → utf8_valid (b0 :: b1 :: r) = false.
Proof.
  intros H0 H1 H2. unfold second_byte in H1.
  repeat match type of H1 with (if ?c then _ else _) = _ => destruct c eqn:? end; simplify_eq;
    unfold in_range in H2; cbn [utf8_valid]; rewrite H0;
    repeat match goal with E : ?c = ?v |- context [if ?c then _ else _] => rewrite E end; cbn [andb];
    try (by rewrite H2); try (by destruct r as [|b2 [|b3 r]]; rewrite ?H2).
Qed.

Lemma lossy_spec bs : utf8_valid (lossy_bytes bs) = true ∧ (utf8_valid bs = true → lossy_bytes bs = bs).
Proof.
  remember (length bs) as n eqn:En. revert bs En. induction (lt_wf n) as [n _ IH]. intros bs ->.
  assert (∀ r, length r < length bs → utf8_valid (lossy_bytes r) = true ∧ (utf8_valid r = true → lossy_bytes r = r)) as IH'
    by (intros r Hr; by apply (IH (length r))). clear IH.
  destruct bs as [|b0 r0]; [done|]. cbn [lossy_bytes]. destruct (byte_val b0 <? 128)%N eqn:E0.
  { destruct (IH' r0 ltac:(cbn; lia)) as [H1 H2]. rewrite !utf8_ascii by lia. split; [done|]. intros. by rewrite H2. }
  destruct (second_byte b0) as [[ok more]|] eqn:E1; [|rewrite replacement_valid, (second_byte_none b0 r0 E0 E1);
    by split; [apply IH'; cbn; lia|]].
  assert (utf8_valid [b0] = false) as Hb0 by (cbn; rewrite E0; done).
  destruct r0 as [|b1 r1]; [by rewrite Hb0|].
  destruct (ok b1) eqn:E2; cbn [negb].
  2:{ rewrite replacement_valid, (second_byte_bad b0 ok more b1 r1 E0 E1 E2). by split; [apply IH'; cbn; lia|]. }
  pose proof (λ r, second_byte_valid b0 ok more b1 r E0 E1 E2) as Hv. rewrite Hv.
  destruct more as [|[|[|more]]].
  - rewrite Hv. destruct (IH' r1 ltac:(cbn; lia)) as [H1 H2]. split; [done|]. intros. by rewrite H2.
  - destruct r1 as [|b2 r2]; [by rewrite replacement_valid || done|]. destruct (is_cont b2) eqn:E3; cbn [negb andb].
    + rewrite Hv, E3. destruct (IH' r2 ltac:(cbn; lia)) as [H1 H2]. split; [done|]. intros. by rewrite H2.
    + rewrite replacement_valid. split; [apply IH'; cbn; lia|done].
  - destruct r1 as [|b2 r2]; [done|]. destruct (is_cont b2) eqn:E3; cbn [negb andb].
    2:{ rewrite replacement_valid. split; [apply IH'; cbn; lia|]. by destruct r2. }
    destruct r2 as [|b3 r3]; [done|]. destruct (is_cont b3) eqn:E4; cbn [negb andb].
    + rewrite Hv, E3, E4. destruct (IH' r3 ltac:(cbn; lia)) as [H1 H2]. split; [done|]. intros. by rewrite H2.
    + rewrite replacement_valid. split; [apply IH'; cbn; lia|done].
  - exfalso. unfold second_byte in E1. by repeat match type of E1 with (if ?c then _ else _) = _ => destruct c end.
Qed.

Lemma from_utf8_lossy_str bs : is_str (from_utf8_lossy bs).
Proof. unfold is_str, from_utf8_lossy. rewrite as_bytes_of_str. apply lossy_spec. Qed.

Lemma from_utf8_lossy_valid s : is_str s → from_utf8_lossy (as_bytes s) = s.
Proof. intros H. unfold from_utf8_lossy. rewrite (proj2 (lossy_spec _) H). apply str_of_as_bytes. Qed.
