(* ===== verification/Calendar.v ===== *)
(** * Calendar: dates from day counts, for the two places that print them.
    The Gregorian calendar stepped day by day is the reference; the era formula both
    [tp-relay/src/http.rs] and [tp-daemon/src/export_formatter.rs] compute is proved
    to be it, for every day before and after 1970. *)
From stdpp Require Import base list numbers strings.
From Stdlib Require Import Lia NArith ZArith Ascii.
From S2P Require Import Prelude Bytes Text.

(** [{n:0w}] *)
Definition pad_zero (w : nat) (n : Z) : string :=
  let s := print_dec (Z.to_N n) in repeat_char "0"%char (w - str_len s) +:+ s.

(** ** The Gregorian calendar, as a reference *)

Definition leap (y : Z) : bool := ((y mod 4 =? 0) && negb (y mod 100 =? 0) || (y mod 400 =? 0))%Z.

Definition month_length (y m : Z) : Z :=
  (if m =? 2 then if leap y then 29 else 28
   else if (m =? 4) || (m =? 6) || (m =? 9) || (m =? 11) then 30 else 31)%Z.

(** The day after. *)
Definition next_day (date : Z * Z * Z) : Z * Z * Z :=
  let '(y, m, d) := date in
  if (d <? month_length y m)%Z then (y, m, (d + 1)%Z)
  else if (m <? 12)%Z then (y, (m + 1)%Z, 1%Z) else ((y + 1)%Z, 1%Z, 1%Z).

(** The date [n] days after 1970-01-01. *)
Definition date_after (n : nat) : Z * Z * Z := Nat.iter n next_day (1970, 1, 1)%Z.

(** ** The era algorithm is the calendar *)

#[local] Ltac pair_lia := repeat apply (f_equal2 pair); lia.

Section calendar.
Local Open Scope Z_scope.

(** Days of an era before its March-based year [y], and that year's length. *)
Definition year_start (y : Z) : Z := 365 * y + y / 4 - y / 100.
Definition year_end (y : Z) : Z := if y =? 399 then 146097 else year_start (y + 1).

Definition yoe_num (doe : Z) : Z := doe - doe / 1460 + doe / 36524 - doe / 146096.

Lemma yoe_num_mono_1 d : 0 ≤ d → yoe_num d ≤ yoe_num (d + 1).
Proof. intros Hd. unfold yoe_num. Z.to_euclidean_division_equations. lia. Qed.

Lemma yoe_num_mono a b : 0 ≤ a ≤ b → yoe_num a ≤ yoe_num b.
Proof.
  intros [Ha Hab]. revert b Hab. apply Zlt_lower_bound_ind. intros b IH Hb.
  destruct (decide (a = b)) as [->|Hne]; [lia|].
  pose proof (IH (b - 1) ltac:(lia)) as H1. pose proof (yoe_num_mono_1 (b - 1) ltac:(lia)) as H2.
  replace (b - 1 + 1) with b in H2 by lia. lia.
Qed.

Lemma forall_below (P : Z → bool) n :
  forallb (λ k, P (Z.of_nat k)) (seq 0 n) = true → ∀ z, 0 ≤ z < Z.of_nat n → P z = true.
Proof.
  intros H z Hz. rewrite forallb_forall in H. specialize (H (Z.to_nat z)). rewrite Z2Nat.id in H by lia.
  apply H, in_seq. lia.
Qed.

Lemma year_bounds y :
  0 ≤ y < 400 → 365 * y ≤ yoe_num (year_start y) ∧ yoe_num (year_end y - 1) < 365 * (y + 1) ∧
                365 ≤ year_end y - year_start y ≤ 366 ∧ 0 ≤ year_start y ∧
                year_end y - year_start y = (if leap (y + 1) then 366 else 365).
Proof.
  intros Hy. pose proof (forall_below (λ y, (365 * y <=? yoe_num (year_start y))
    && (yoe_num (year_end y - 1) <? 365 * (y + 1)) && (365 <=? year_end y - year_start y)
    && (year_end y - year_start y <=? 366) && (0 <=? year_start y)
    && (year_end y - year_start y =? (if leap (y + 1) then 366 else 365))) 400 ltac:(vm_compute; reflexivity) y Hy) as H.
  cbv beta in H. repeat (apply andb_true_iff in H as [H ?]).
  repeat match goal with
  | H : (_ <=? _) = true |- _ => apply Z.leb_le in H
  | H : (_ <? _) = true |- _ => apply Z.ltb_lt in H
  | H : (_ =? _) = true |- _ => apply Z.eqb_eq in H
  end. split_and!; lia.
Qed.

(** A day of an era lies in exactly one of its years. *)
Lemma year_exists doe : 0 ≤ doe < 146097 → ∃ y, 0 ≤ y < 400 ∧ year_start y ≤ doe < year_end y.
Proof.
  intros Hd. assert (∀ n : nat, (n < 400)%nat → doe < year_end (Z.of_nat n) →
    ∃ y, 0 ≤ y < 400 ∧ year_start y ≤ doe < year_end y) as H.
  { induction n as [|n IH]; intros Hn Hlt; [exists 0; split; [lia|]; split; [change (year_start 0) with 0; lia|done]|].
    destruct (decide (year_start (Z.of_nat (S n)) ≤ doe)) as [Hle|Hgt]; [exists (Z.of_nat (S n)); lia|].
    apply IH; [lia|]. unfold year_end. rewrite (proj2 (Z.eqb_neq _ _)) by lia.
    replace (Z.of_nat n + 1) with (Z.of_nat (S n)) by lia. lia. }
  apply (H 399%nat); [lia|]. change (year_end (Z.of_nat 399)) with 146097. lia.
Qed.

(** A date by era, March-based year and day of that year: the offset of the
    civil year, the month and the day. *)
Definition month_day (doy : Z) : Z * Z * Z :=
  let mp := (5 * doy + 2) / 153 in
  let month := if decide (mp < 10) then mp + 3 else mp - 9 in
  (if decide (month ≤ 2) then 1 else 0, month, doy - (153 * mp + 2) / 5 + 1).

Definition date_of (era y doy : Z) : Z * Z * Z :=
  let '(dy, m, d) := month_day doy in (era * 400 + y + dy, m, d).

(** Days since 1970-01-01 to a date, by eras of 400 years. *)
Definition civil_of_days (days : Z) : Z * Z * Z :=
  let z := days + 719468 in
  let era := z / 146097 in
  let doe := z mod 146097 in
  let yoe := yoe_num doe / 365 in
  date_of era yoe (doe - year_start yoe).

Lemma civil_decomposed era y doy days :
  0 ≤ y < 400 → 0 ≤ doy < year_end y - year_start y →
  days + 719468 = era * 146097 + year_start y + doy → civil_of_days days = date_of era y doy.
Proof.
  intros Hy Hd Hz. destruct (year_bounds y Hy) as (B1 & B2 & B3 & B4 & _).
  assert (year_end y ≤ 146097) as B5.
  { unfold year_end. destruct (y =? 399) eqn:E; [lia|]. unfold year_start. Z.to_euclidean_division_equations. lia. }
  unfold civil_of_days. rewrite Hz. set (doe := year_start y + doy).
  replace (era * 146097 + year_start y + doy) with (doe + era * 146097) by (unfold doe; lia).
  assert (0 ≤ doe < 146097) as Hdoe by (unfold doe; lia).
  rewrite Z.div_add, (Z.div_small doe), Z.add_0_l, Z.mod_add, Z.mod_small by lia.
  pose proof (yoe_num_mono (year_start y) doe ltac:(unfold doe; lia)) as M1.
  pose proof (yoe_num_mono doe (year_end y - 1) ltac:(unfold doe; lia)) as M2.
  assert (yoe_num doe / 365 = y) as -> by (symmetry; apply (Z.div_unique_pos _ _ _ (yoe_num doe - 365 * y)); lia).
  f_equal. unfold doe. lia.
Qed.

(** The formula as the code computes it, with truncating divisions. *)
Definition era_formula (era z : Z) : Z * Z * Z :=
  let doe := z - era * 146097 in
  let yoe := (doe - doe `quot` 1460 + doe `quot` 36524 - doe `quot` 146096) `quot` 365 in
  let y := yoe + era * 400 in
  let doy := doe - (365 * yoe + yoe `quot` 4 - yoe `quot` 100) in
  let mp := (5 * doy + 2) `quot` 153 in
  let day := doy - (153 * mp + 2) `quot` 5 + 1 in
  let month := if decide (mp < 10) then mp + 3 else mp - 9 in
  let year := if decide (month ≤ 2) then y + 1 else y in
  (year, month, day).

Lemma era_formula_civil days :
  era_formula ((days + 719468) / 146097) (days + 719468) = civil_of_days days.
Proof.
  set (z := days + 719468). unfold era_formula, civil_of_days. fold z.
  replace (z - z / 146097 * 146097) with (z mod 146097) by (pose proof (Z.div_mod z 146097 ltac:(lia)); lia).
  set (doe := z mod 146097). assert (0 ≤ doe < 146097) as Hdoe by (apply Z.mod_pos_bound; lia).
  destruct (year_exists doe Hdoe) as (y & Hy & Hlo & Hhi). destruct (year_bounds y Hy) as (B1 & B2 & B3 & B4 & _).
  pose proof (yoe_num_mono (year_start y) doe ltac:(lia)) as M1.
  pose proof (yoe_num_mono doe (year_end y - 1) ltac:(lia)) as M2.
  rewrite !(Z.quot_div_nonneg doe) by lia. fold (yoe_num doe). rewrite (Z.quot_div_nonneg (yoe_num doe)) by lia.
  assert (yoe_num doe / 365 = y) as -> by (symmetry; apply (Z.div_unique_pos _ _ _ (yoe_num doe - 365 * y)); lia).
  rewrite !(Z.quot_div_nonneg y) by lia. fold (year_start y). set (doy := doe - year_start y).
  rewrite (Z.quot_div_nonneg (5 * doy + 2)) by (unfold doy; lia). unfold date_of, month_day. set (mp := (5 * doy + 2) / 153).
  assert (0 ≤ mp) by (apply Z.div_pos; unfold doy; lia). rewrite (Z.quot_div_nonneg (153 * mp + 2)) by lia.
  destruct (decide (mp < 10)); destruct (decide (_ ≤ 2)); pair_lia.
Qed.
End calendar.

Section calendar_days.
Local Open Scope Z_scope.

(** One step of the calendar inside a March-based year of [len] days: [b] is
    the leapness of the current civil year, consulted in February only. *)
Definition next_in_year (b : bool) (ymd : Z * Z * Z) : Z * Z * Z :=
  let '(dy, m, d) := ymd in
  let ml := if m =? 2 then if b then 29 else 28
            else if (m =? 4) || (m =? 6) || (m =? 9) || (m =? 11) then 30 else 31 in
  if d <? ml then (dy, m, d + 1) else if m <? 12 then (dy, m + 1, 1) else (dy + 1, 1, 1).

Definition step_ok (b : bool) (doy : Z) : bool :=
  bool_decide (next_in_year b (month_day doy)
    = if doy + 1 <? (if b then 366 else 365) then month_day (doy + 1) else (1, 3, 1)).

Lemma steps_ok (b : bool) doy : 0 ≤ doy < (if b then 366 else 365) → step_ok b doy = true.
Proof.
  intros Hd. destruct b.
  - apply (forall_below (step_ok true) 366); [vm_compute; reflexivity|exact Hd].
  - apply (forall_below (step_ok false) 365); [vm_compute; reflexivity|exact Hd].
Qed.

Lemma steps_ok' (b : bool) doy : step_ok b doy = true →
  next_in_year b (month_day doy) = if doy + 1 <? (if b then 366 else 365) then month_day (doy + 1) else (1, 3, 1).
Proof. apply bool_decide_eq_true_1. Qed.

(** January and February belong to the next civil year, the only months that
    look at the leap rule being in it. *)
Lemma month_day_year doy : 0 ≤ doy < 366 →
  let '(dy, m, d) := month_day doy in (dy = 0 ∨ dy = 1) ∧ (m = 2 → dy = 1).
Proof.
  intros Hd. pose proof (forall_below (λ doy, let '(dy, m, d) := month_day doy in
    ((dy =? 0) || (dy =? 1)) && (negb (m =? 2) || (dy =? 1))) 366 ltac:(vm_compute; reflexivity) doy Hd) as H.
  cbv beta in H. destruct (month_day doy) as [[dy m] d]. apply andb_true_iff in H as [H1 H2].
  split.
  - apply orb_true_iff in H1 as [?%Z.eqb_eq|?%Z.eqb_eq]; auto.
  - intros ->. cbn in H2. by apply Z.eqb_eq in H2.
Qed.

Lemma leap_shift era y : leap (era * 400 + y) = leap y.
Proof.
  unfold leap. replace (era * 400 + y) with (y + (era * 100) * 4) at 1 by lia. rewrite Z.mod_add by lia.
  replace (era * 400 + y) with (y + (era * 4) * 100) at 1 by lia. rewrite Z.mod_add by lia.
  replace (era * 400 + y) with (y + era * 400) by lia. by rewrite Z.mod_add by lia.
Qed.

Lemma next_day_date_of era y doy :
  0 ≤ y < 400 → 0 ≤ doy < year_end y - year_start y →
  next_day (date_of era y doy) =
    if doy + 1 <? year_end y - year_start y then date_of era y (doy + 1) else (era * 400 + y + 1, 3, 1).
Proof.
  intros Hy Hd. destruct (year_bounds y Hy) as (_ & _ & _ & _ & Hlen). rewrite Hlen in *.
  set (b := leap (y + 1)) in *. pose proof (steps_ok' b doy (steps_ok b doy Hd)) as Hs.
  pose proof (month_day_year doy ltac:(destruct b; lia)) as Hm. unfold date_of.
  destruct (month_day doy) as [[dy m] d]. destruct Hm as [Hdy Hfeb].
  assert (next_day (era * 400 + y + dy, m, d)
          = let '(dy', m', d') := next_in_year b (dy, m, d) in (era * 400 + y + dy', m', d')) as E.
  { unfold next_day, next_in_year, month_length.
    assert ((if m =? 2 then if leap (era * 400 + y + dy) then 29 else 28
             else if (m =? 4) || (m =? 6) || (m =? 9) || (m =? 11) then 30 else 31)
            = (if m =? 2 then if b then 29 else 28
               else if (m =? 4) || (m =? 6) || (m =? 9) || (m =? 11) then 30 else 31)) as ->.
    { destruct (m =? 2) eqn:Em; [|done]. apply Z.eqb_eq in Em. rewrite (Hfeb Em).
      replace (era * 400 + y + 1) with (era * 400 + (y + 1)) by lia. by rewrite leap_shift. }
    destruct (d <? _); [done|]. destruct (m <? 12); [done|]. pair_lia. }
  rewrite E, Hs. destruct (doy + 1 <? _); [done|]. pair_lia.
Qed.

Lemma civil_next days : civil_of_days (days + 1) = next_day (civil_of_days days).
Proof.
  set (z := days + 719468). set (era := z / 146097). set (doe := z mod 146097).
  pose proof (Z.div_mod z 146097 ltac:(lia)) as Hz. fold era doe in Hz.
  pose proof (Z.mod_pos_bound z 146097 ltac:(lia)) as Hb. fold doe in Hb.
  destruct (year_exists doe Hb) as (y & Hy & Hlo & Hhi). set (doy := doe - year_start y).
  rewrite (civil_decomposed era y doy days) by (unfold doy, z in *; lia).
  rewrite next_day_date_of by (unfold doy; lia).
  destruct (doy + 1 <? year_end y - year_start y) eqn:E.
  - apply Z.ltb_lt in E. apply civil_decomposed; unfold doy, z in *; lia.
  - apply Z.ltb_ge in E. unfold year_end in E, Hhi. destruct (y =? 399) eqn:E3.
    + apply Z.eqb_eq in E3 as ->.
      rewrite (civil_decomposed (era + 1) 0 0) by (first [done | unfold doy, z in *; change (year_start 0) with 0; lia]).
      unfold date_of. change (month_day 0) with (0, 3, 1). pair_lia.
    + apply Z.eqb_neq in E3. rewrite (civil_decomposed era (y + 1) 0).
      * unfold date_of. change (month_day 0) with (0, 3, 1). pair_lia.
      * lia.
      * destruct (year_bounds (y + 1) ltac:(lia)) as (_ & _ & ? & _). lia.
      * unfold doy, z in *. lia.
Qed.

Lemma civil_after (n : nat) : civil_of_days (Z.of_nat n) = date_after n.
Proof.
  induction n as [|n IH]; [vm_compute; reflexivity|]. rewrite Nat2Z.inj_succ, <-Z.add_1_r.
  by rewrite civil_next, IH.
Qed.

(** Days before 1970 are the days from which the calendar steps to it. *)
Lemma civil_before (n : nat) : Nat.iter n next_day (civil_of_days (- Z.of_nat n)) = (1970, 1, 1).
Proof.
  induction n as [|n IH]; [vm_compute; reflexivity|]. rewrite Nat.iter_succ_r, <-civil_next.
  by replace (- Z.of_nat (S n) + 1) with (- Z.of_nat n) by lia.
Qed.
End calendar_days.
