(* ===== verification/Concrete.v ===== *)
(** * Concrete: small stand-ins for the linked crates, used only to evaluate
    the model at the witnesses.  None of them models code: every theorem is
    stated for arbitrary crates satisfying their documented laws. *)
From stdpp Require Import base list numbers strings.
From Stdlib Require Import Lia NArith Ascii.
From S2P Require Import Prelude Bytes Text.

(** ** A two-letters-per-byte text codec over [a..p] *)

Definition nib_char (n : N) : ascii := ascii_of_N (97 + n).
Definition char_nib (c : ascii) : option N :=
  let v := N_of_ascii c in
  if (97 <=? v)%N && (v <? 113)%N then Some (v - 97)%N else None.

Fixpoint nib_encode (b : bytes) : string :=
  match b with
  | [] => EmptyString
  | x :: r => String (nib_char (byte_val x / 16)) (String (nib_char (byte_val x mod 16)) (nib_encode r))
  end.

Fixpoint nib_decode (s : string) : option bytes :=
  match s with
  | EmptyString => Some []
  | String c1 (String c2 r) =>
      match char_nib c1, char_nib c2, nib_decode r with
      | Some h, Some l, Some b => Some (as_u8 (h * 16 + l) :: b)
      | _, _, _ => None
      end
  | String _ EmptyString => None
  end.

Lemma char_nib_char n : (n < 16)%N → char_nib (nib_char n) = Some n.
Proof.
  intros H. unfold char_nib, nib_char. rewrite N_ascii_embedding by lia.
  rewrite (proj2 (N.leb_le _ _)) by lia. rewrite (proj2 (N.ltb_lt _ _)) by lia.
  cbn [andb]. f_equal. lia.
Qed.

Lemma nib_char_nib c n : char_nib c = Some n → nib_char n = c ∧ (n < 16)%N.
Proof.
  unfold char_nib. destruct (_ && _) eqn:E; [|done]. intros [= <-].
  apply andb_true_iff in E as [H1%N.leb_le H2%N.ltb_lt]. split; [|lia].
  unfold nib_char. rewrite <-(ascii_N_embedding c) at 2. f_equal. lia.
Qed.

Lemma nib_decode_encode b : nib_decode (nib_encode b) = Some b.
Proof.
  induction b as [|x b IH]; [done|]. cbn [nib_encode nib_decode].
  pose proof (byte_val_lt x).
  rewrite !char_nib_char, IH by (first [apply N.mod_lt; lia | apply N.Div0.div_lt_upper_bound; lia]).
  do 2 f_equal. rewrite N.mul_comm, <-N.div_mod by lia. apply as_u8_byte_val.
Qed.

Lemma nib_canonical s b : nib_decode s = Some b → nib_encode b = s.
Proof.
  revert s. induction b as [|x b IH]; intros s.
  - destruct s as [|c1 [|c2 s]]; [done|done|]. cbn. repeat case_match; done.
  - destruct s as [|c1 [|c2 s]]; [done|done|]. cbn [nib_decode].
    destruct (char_nib c1) as [h|] eqn:E1; [|done]. destruct (char_nib c2) as [l|] eqn:E2; [|done].
    destruct (nib_decode s) as [b'|] eqn:E; [|done]. intros [= <- ->].
    apply nib_char_nib in E1 as [<- Hh], E2 as [<- Hl]. cbn [nib_encode].
    rewrite byte_val_as_u8, N.mod_small by lia. rewrite (IH s E).
    rewrite N.div_add_l, (N.div_small l) by lia.
    rewrite N.add_0_r, (N.add_comm (h * 16) l), N.Div0.mod_add, N.mod_small by lia. done.
Qed.

Lemma nib_no_char c b : char_nib c = None → str_contains c (nib_encode b) = false.
Proof.
  intros Hc. induction b as [|x b IH]; [done|]. cbn [nib_encode str_contains].
  pose proof (byte_val_lt x).
  rewrite !decide_False, IH; [done|..]; intros ->; rewrite char_nib_char in Hc; try done;
    first [apply N.mod_lt; lia | apply N.Div0.div_lt_upper_bound; lia].
Qed.

Lemma nib_encode_nil b : nib_encode b = "" → b = [].
Proof. by destruct b. Qed.

(** ** A fixed-length "tag" *)

Definition pad_tag (n : nat) (k m : bytes) : bytes := take n (k ++ m ++ replicate n Ascii.zero).

Lemma pad_tag_length n k m : length (pad_tag n k m) = n.
Proof. unfold pad_tag. rewrite length_take, !length_app, length_replicate. lia. Qed.

(** ** Base64 (RFC 4648, standard alphabet, canonical padding) *)

Definition b64_char (n : N) : ascii :=
  ascii_of_N (if (n <? 26) then 65 + n else if (n <? 52) then 71 + n else if (n <? 62) then n - 4
              else if (n =? 62) then 43 else 47)%N.

Definition b64_val (c : ascii) : option N :=
  let v := N_of_ascii c in
  if ((65 <=? v) && (v <=? 90))%N then Some (v - 65)%N
  else if ((97 <=? v) && (v <=? 122))%N then Some (v - 71)%N
  else if ((48 <=? v) && (v <=? 57))%N then Some (v + 4)%N
  else if (v =? 43)%N then Some 62%N else if (v =? 47)%N then Some 63%N else None.

(** The alphabet. *)
Definition is_b64_char (c : ascii) : bool := match b64_val c with Some _ => true | None => false end.

(** One, two or three bytes as their sextets. *)
Definition sext1 (a : N) : string := String (b64_char (a / 4)) (String (b64_char (a mod 4 * 16)) "").
Definition sext2 (a b : N) : string :=
  String (b64_char (a / 4)) (String (b64_char (a mod 4 * 16 + b / 16)) (String (b64_char (b mod 16 * 4)) "")).
Definition sext3 (a b c : N) : string :=
  String (b64_char (a / 4)) (String (b64_char (a mod 4 * 16 + b / 16))
    (String (b64_char (b mod 16 * 4 + c / 64)) (String (b64_char (c mod 64)) ""))).

(** The sextets of a byte string, and the padding they need. *)
Fixpoint b64_body (b : bytes) : string :=
  match b with
  | [] => ""
  | [x] => sext1 (byte_val x)
  | [x; y] => sext2 (byte_val x) (byte_val y)
  | x :: y :: z :: r => sext3 (byte_val x) (byte_val y) (byte_val z) +:+ b64_body r
  end.

Fixpoint b64_pad (b : bytes) : nat :=
  match b with [] => 0 | [_] => 2 | [_; _] => 1 | _ :: _ :: _ :: r => b64_pad r end.

Definition b64_encode (b : bytes) : string := b64_body b +:+ repeat_char "="%char (b64_pad b).

Fixpoint b64_body_decode (s : string) : option bytes :=
  match s with
  | EmptyString => Some []
  | String x (String y EmptyString) =>
      match b64_val x, b64_val y with
      | Some p, Some q => Some [as_u8 (p * 4 + q / 16)]
      | _, _ => None
      end
  | String x (String y (String z EmptyString)) =>
      match b64_val x, b64_val y, b64_val z with
      | Some p, Some q, Some r => Some [as_u8 (p * 4 + q / 16); as_u8 (q mod 16 * 16 + r / 4)]
      | _, _, _ => None
      end
  | String x (String y (String z (String w s))) =>
      match b64_val x, b64_val y, b64_val z, b64_val w, b64_body_decode s with
      | Some p, Some q, Some r, Some t, Some b =>
          Some (as_u8 (p * 4 + q / 16) :: as_u8 (q mod 16 * 16 + r / 4) :: as_u8 (r mod 4 * 64 + t) :: b)
      | _, _, _, _, _ => None
      end
  | _ => None
  end.

(** Only the canonical text decodes. *)
Definition b64_decode (s : string) : option bytes :=
  match b64_body_decode (trim_end_char "="%char s) with
  | Some b => if decide (b64_encode b = s) then Some b else None
  | None => None
  end.

Lemma N_lt_cases (P : N → bool) k : forallb (λ n, P (N.of_nat n)) (seq 0 k) = true →
  ∀ n, (n < N.of_nat k)%N → P n = true.
Proof.
  intros H n Hn. rewrite forallb_forall in H. specialize (H (N.to_nat n)).
  rewrite N2Nat.id in H. apply H. apply in_seq. lia.
Qed.

Lemma b64_val_char n : (n < 64)%N → b64_val (b64_char n) = Some n.
Proof.
  intros Hn. pose proof (N_lt_cases (λ n, bool_decide (b64_val (b64_char n) = Some n)) 64) as H.
  cbv beta in H. specialize (H ltac:(vm_compute; reflexivity) n Hn). by apply bool_decide_eq_true_1 in H.
Qed.

Lemma byte_sextets x y z :
  (x < 256)%N → (y < 256)%N → (z < 256)%N →
  (x / 4 < 64 ∧ x mod 4 * 16 + y / 16 < 64 ∧ y mod 16 * 4 + z / 64 < 64 ∧ z mod 64 < 64)%N.
Proof. intros. pose proof (N.mod_lt x 4). pose proof (N.mod_lt y 16). pose proof (N.mod_lt z 64).
  split_and!; try lia; first [apply N.Div0.div_lt_upper_bound; lia | idtac].
  - assert (y / 16 < 16)%N by (apply N.Div0.div_lt_upper_bound; lia). lia.
  - assert (z / 64 < 4)%N by (apply N.Div0.div_lt_upper_bound; lia). lia.
Qed.

Lemma byte_joins x y z :
  (x < 256)%N → (y < 256)%N → (z < 256)%N →
  (x / 4 * 4 + (x mod 4 * 16 + y / 16) / 16 = x ∧
   (x mod 4 * 16 + y / 16) mod 16 * 16 + (y mod 16 * 4 + z / 64) / 4 = y ∧
   (y mod 16 * 4 + z / 64) mod 4 * 64 + z mod 64 = z)%N.
Proof.
  intros. assert (y / 16 < 16)%N by (apply N.Div0.div_lt_upper_bound; lia).
  assert (z / 64 < 4)%N by (apply N.Div0.div_lt_upper_bound; lia).
  pose proof (N.div_mod x 4 ltac:(lia)). pose proof (N.div_mod y 16 ltac:(lia)).
  pose proof (N.div_mod z 64 ltac:(lia)).
  rewrite !N.div_add_l by lia. rewrite (N.div_small (y / 16)), (N.div_small (z / 64)) by lia.
  rewrite (N.add_comm (x mod 4 * 16) (y / 16)), (N.add_comm (y mod 16 * 4) (z / 64)), !N.Div0.mod_add.
  rewrite !(N.mod_small (y / 16)), !(N.mod_small (z / 64)) by lia. lia.
Qed.

Lemma list_ind3 {A} (P : list A → Prop) :
  P [] → (∀ x, P [x]) → (∀ x y, P [x; y]) → (∀ x y z r, P r → P (x :: y :: z :: r)) → ∀ l, P l.
Proof.
  intros H0 H1 H2 H3. fix IH 1. intros [|x [|y [|z r]]]; [done|done|done|]. apply H3, IH.
Qed.

Lemma as_u8_eq x v : v = byte_val x → as_u8 v = x.
Proof. intros ->. apply as_u8_byte_val. Qed.

Lemma b64_body_decode_encode b : b64_body_decode (b64_body b) = Some b.
Proof.
  induction b as [|x|x y|x y z r IH] using list_ind3; [done|..]; cbn [b64_body];
    unfold sext1, sext2, sext3; rewrite ?str_append_cons; pose proof (byte_val_lt x) as Hx.
  - destruct (byte_sextets (byte_val x) 0 0 Hx) as (S1 & S2 & _); [done..|].
    destruct (byte_joins (byte_val x) 0 0 Hx) as (J1 & _); [done..|]. rewrite !N.Div0.div_0_l, N.add_0_r in S2, J1.
    cbn [b64_body_decode]. rewrite !b64_val_char by done. by rewrite (as_u8_eq x).
  - pose proof (byte_val_lt y) as Hy. destruct (byte_sextets (byte_val x) (byte_val y) 0 Hx Hy) as (S1 & S2 & S3 & _); [done|].
    destruct (byte_joins (byte_val x) (byte_val y) 0 Hx Hy) as (J1 & J2 & _); [done|].
    rewrite N.Div0.div_0_l, N.add_0_r in S3, J2.
    cbn [b64_body_decode]. rewrite !b64_val_char by done. by rewrite (as_u8_eq x), (as_u8_eq y).
  - pose proof (byte_val_lt y) as Hy. pose proof (byte_val_lt z) as Hz.
    destruct (byte_sextets (byte_val x) (byte_val y) (byte_val z) Hx Hy Hz) as (S1 & S2 & S3 & S4).
    destruct (byte_joins (byte_val x) (byte_val y) (byte_val z) Hx Hy Hz) as (J1 & J2 & J3).
    change ("" +:+ b64_body r) with (b64_body r). cbn [b64_body_decode]. rewrite !b64_val_char by done.
    rewrite IH, (as_u8_eq x), (as_u8_eq y), (as_u8_eq z) by done. done.
Qed.

Lemma is_b64_char_char n : (n < 64)%N → is_b64_char (b64_char n) = true.
Proof. intros H. unfold is_b64_char. by rewrite b64_val_char. Qed.

Lemma b64_body_alphabet b : all_chars is_b64_char (b64_body b) = true.
Proof.
  induction b as [|x|x y|x y z r IH] using list_ind3; [done|..]; cbn [b64_body];
    unfold sext1, sext2, sext3; rewrite ?str_append_cons; pose proof (byte_val_lt x) as Hx.
  - destruct (byte_sextets (byte_val x) 0 0 Hx) as (S1 & S2 & _); [done..|].
    rewrite N.Div0.div_0_l, N.add_0_r in S2. cbn. by rewrite !is_b64_char_char.
  - pose proof (byte_val_lt y) as Hy. destruct (byte_sextets (byte_val x) (byte_val y) 0 Hx Hy) as (S1 & S2 & S3 & _); [done|].
    rewrite N.Div0.div_0_l, N.add_0_r in S3. cbn. by rewrite !is_b64_char_char.
  - pose proof (byte_val_lt y) as Hy. pose proof (byte_val_lt z) as Hz.
    destruct (byte_sextets (byte_val x) (byte_val y) (byte_val z) Hx Hy Hz) as (S1 & S2 & S3 & S4).
    change ("" +:+ b64_body r) with (b64_body r). cbn [all_chars]. by rewrite !is_b64_char_char, IH.
Qed.

Lemma b64_alphabet_no c s : is_b64_char c = false → all_chars is_b64_char s = true → str_contains c s = false.
Proof. apply all_chars_no_char. Qed.

Lemma b64_decode_encode b : b64_decode (b64_encode b) = Some b.
Proof.
  unfold b64_decode, b64_encode at 1. rewrite trim_end_char_repeat
    by (apply b64_alphabet_no; [done|apply b64_body_alphabet]).
  rewrite b64_body_decode_encode. by rewrite decide_True.
Qed.

Lemma b64_canonical s b : b64_decode s = Some b → b64_encode b = s.
Proof. unfold b64_decode. destruct (b64_body_decode _); [|done]. case_decide; [|done]. by intros [= <-]. Qed.

Lemma b64_encode_no c b :
  is_b64_char c = false → c ≠ "="%char → str_contains c (b64_encode b) = false.
Proof.
  intros Hc Hne. unfold b64_encode. rewrite str_contains_app, (b64_alphabet_no c) by (done || apply b64_body_alphabet).
  cbn. induction (b64_pad b) as [|k IH]; [done|]. cbn. by rewrite decide_False.
Qed.

Lemma b64_encode_length b : str_len (b64_encode b) = 4 * ((length b + 2) / 3) ∧ b64_pad b ≤ 2.
Proof.
  unfold b64_encode. rewrite str_len_app, repeat_char_len.
  induction b as [|x|x y|x y z r [IH1 IH2]] using list_ind3; try (split; [reflexivity|cbn; lia]).
  cbn [b64_body b64_pad length]. split; [|done]. rewrite str_len_app. change (str_len (sext3 _ _ _)) with 4.
  replace (S (S (S (length r))) + 2) with (1 * 3 + (length r + 2)) by lia. rewrite Nat.div_add_l by lia. lia.
Qed.
