(* ===== verification/Codec.v ===== *)
(** * Codec: the framed-JSON wire codec of [rust/tp-core/src/codec.rs].
    [encode_frame] and the incremental [FrameDecoder]; the decoder is proved
    against the stream grammar [Parses], which does not know about chunks. *)
From stdpp Require Import base list numbers strings pretty.
From Stdlib Require Import Lia NArith.
From S2P Require Import Prelude Bytes.

Definition HEADER_SIZE : nat := 8.
Definition MAX_FRAME_SIZE : N := 64 * 1024 * 1024.

(** [TpError] of [error.rs]. *)
Inductive TpError : Type :=
| Frame (m : string)
| Codec (m : string)
| InvalidInput (m : string)
| Crypto (m : string)
| Pairing (m : string).

#[export] Instance TpError_eq_dec : EqDecision TpError.
Proof. solve_decision. Defined.

Record DecodedFrame := mkFrame { json : bytes; binary : option bytes }.

#[export] Instance DecodedFrame_eq_dec : EqDecision DecodedFrame.
Proof. solve_decision. Defined.

Definition encode_frame (json : bytes) (binary : option bytes) : bytes :=
  let bin_len := from_option length 0 binary in
  to_be_bytes 4 (as_u32 (N.of_nat (length json)))
  ++ to_be_bytes 4 (as_u32 (N.of_nat bin_len))
  ++ json
  ++ match binary with
     | Some b => if decide (0 < bin_len) then b else []
     | None => []
     end.

Record FrameDecoder := mkDecoder { buf : bytes }.

Definition new : FrameDecoder := mkDecoder [].

Definition too_large (n : N) : TpError :=
  Frame ("Frame too large: " +:+ pretty n +:+ " bytes exceeds max " +:+ pretty MAX_FRAME_SIZE).

(** The [while] loop of [FrameDecoder::decode]; [None] is "out of fuel". *)
Fixpoint decode_loop (fuel : nat) (b : bytes) (offset : nat) (results : list DecodedFrame)
  : option (result (nat * list DecodedFrame) TpError) :=
  match fuel with
  | O => None
  | S fuel =>
    if decide (length b - offset < HEADER_SIZE) then Some (Ok (offset, results))
    else
      let json_len := from_be_bytes (slice b offset (offset + 4)) in
      let bin_len := from_be_bytes (slice b (offset + 4) (offset + 8)) in
      if decide (MAX_FRAME_SIZE < json_len + bin_len)%N
      then Some (Err (too_large (json_len + bin_len)))
      else
        let total_len := (N.of_nat HEADER_SIZE + json_len + bin_len)%N in
        if decide (N.of_nat (length b - offset) < total_len)%N
        then Some (Ok (offset, results))
        else
          let json_start := offset + HEADER_SIZE in
          let bin_start := json_start + N.to_nat json_len in
          let json := slice b json_start (json_start + N.to_nat json_len) in
          let binary :=
            if decide (0 < bin_len)%N
            then Some (slice b bin_start (bin_start + N.to_nat bin_len)) else None in
          decode_loop fuel b (offset + N.to_nat total_len)
            (results ++ [mkFrame json binary])
  end.

(** [FrameDecoder::decode]: the result and the decoder it leaves behind. On the
    error path the early [return] skips the [drain]. *)
Definition decode (self : FrameDecoder) (chunk : bytes)
  : result (list DecodedFrame) TpError * FrameDecoder :=
  let b := buf self ++ chunk in
  match decode_loop (S (length b)) b 0 [] with
  | Some (Ok (offset, results)) => (Ok results, mkDecoder (drop offset b))
  | Some (Err e) => (Err e, mkDecoder b)
  | None => (Ok [], mkDecoder b)
  end.

Definition reset (self : FrameDecoder) : FrameDecoder := mkDecoder [].

(** A reader feeding the decoder chunk by chunk and stopping at the first error,
    as the IPC read loops do. *)
Fixpoint feed (d : FrameDecoder) (chunks : list bytes)
  : result (list DecodedFrame) TpError * FrameDecoder :=
  match chunks with
  | [] => (Ok [], d)
  | c :: cs =>
      match decode d c with
      | (Ok fs, d') =>
          match feed d' cs with
          | (Ok gs, d'') => (Ok (fs ++ gs), d'')
          | (Err e, d'') => (Err e, d'')
          end
      | (Err e, d') => (Err e, d')
      end
  end.

(** ** The stream grammar *)

Definition hdr_json (s : bytes) : N := from_be_bytes (take 4 s).
Definition hdr_bin (s : bytes) : N := from_be_bytes (take 4 (drop 4 s)).
Definition hdr_total (s : bytes) : nat := 8 + N.to_nat (hdr_json s) + N.to_nat (hdr_bin s).
Definition body (s : bytes) : DecodedFrame :=
  let j := N.to_nat (hdr_json s) in
  let k := N.to_nat (hdr_bin s) in
  mkFrame (take j (drop 8 s)) (if decide (0 < k) then Some (take k (drop (8 + j) s)) else None).

Inductive stop := More | TooBig (n : N).

Inductive Parses : bytes → list DecodedFrame → stop → bytes → Prop :=
| P_header s : length s < 8 → Parses s [] More s
| P_big s : 8 ≤ length s → (MAX_FRAME_SIZE < hdr_json s + hdr_bin s)%N →
    Parses s [] (TooBig (hdr_json s + hdr_bin s)) s
| P_partial s : 8 ≤ length s → (hdr_json s + hdr_bin s ≤ MAX_FRAME_SIZE)%N →
    length s < hdr_total s → Parses s [] More s
| P_frame s fs st r : 8 ≤ length s → (hdr_json s + hdr_bin s ≤ MAX_FRAME_SIZE)%N →
    hdr_total s ≤ length s → Parses (drop (hdr_total s) s) fs st r →
    Parses s (body s :: fs) st r.

Definition stop_result (st : stop) (fs : list DecodedFrame) : result (list DecodedFrame) TpError :=
  match st with More => Ok fs | TooBig n => Err (too_large n) end.

Lemma slice_drop b off k : slice b off (off + k) = take k (drop off b).
Proof. unfold slice. f_equal. lia. Qed.

Lemma slice_drop' b off i k :
  slice b (off + i) (off + i + k) = take k (drop i (drop off b)).
Proof. rewrite slice_drop, drop_drop. done. Qed.

(** The loop at [offset] reads the frames of the stream from [offset] on. *)
Lemma decode_loop_parses fuel b offset results :
  offset ≤ length b → length b - offset < fuel →
  ∃ fs st r, Parses (drop offset b) fs st r ∧
    match st with
    | More => ∃ off, decode_loop fuel b offset results = Some (Ok (off, results ++ fs))
                     ∧ r = drop off b
    | TooBig n => decode_loop fuel b offset results = Some (Err (too_large n))
    end.
Proof.
  revert offset results. induction fuel as [|fuel IH]; intros offset results Hle Hf; [lia|].
  cbn [decode_loop]. pose proof (length_drop b offset) as Hlen.
  case_decide as Hh.
  { eexists [], More, _. split; [apply P_header; unfold HEADER_SIZE in *; lia|].
    exists offset. by rewrite app_nil_r. }
  unfold HEADER_SIZE in Hh.
  replace (offset + 8) with (offset + 4 + 4) by lia.
  rewrite (slice_drop' b offset 4 4), (slice_drop b offset 4).
  fold (hdr_json (drop offset b)) (hdr_bin (drop offset b)).
  set (s := drop offset b) in *.
  case_decide as Hbig.
  { eexists [], (TooBig _), _. split; [apply P_big; [lia|done]|done]. }
  case_decide as Hpart.
  { eexists [], More, _. split; [apply P_partial; unfold hdr_total, HEADER_SIZE in *; lia|].
    exists offset. by rewrite app_nil_r. }
  assert (N.to_nat (N.of_nat HEADER_SIZE + hdr_json s + hdr_bin s) = hdr_total s) as Htot
    by (unfold hdr_total, HEADER_SIZE; lia).
  rewrite Htot.
  assert (hdr_total s ≤ length s) as Hfit by lia.
  destruct (IH (offset + hdr_total s) (results ++ [body s])) as (fs & st & r & HP & Hres);
    [lia|unfold hdr_total in *; lia|].
  exists (body s :: fs), st, r. split.
  { apply P_frame; [lia|lia|done|]. unfold s. rewrite drop_drop. done. }
  assert (mkFrame (slice b (offset + HEADER_SIZE) (offset + HEADER_SIZE + N.to_nat (hdr_json s)))
    (if decide (0 < hdr_bin s)%N
     then Some (slice b (offset + HEADER_SIZE + N.to_nat (hdr_json s))
       (offset + HEADER_SIZE + N.to_nat (hdr_json s) + N.to_nat (hdr_bin s))) else None)
    = body s) as ->.
  { unfold body, HEADER_SIZE, s. rewrite slice_drop'. f_equal.
    repeat case_decide; try lia; [|done]. do 2 f_equal.
    by rewrite slice_drop, drop_drop, Nat.add_assoc. }
  rewrite <-app_assoc in Hres. exact Hres.
Qed.

Lemma Parses_det s fs st r fs' st' r' :
  Parses s fs st r → Parses s fs' st' r' → fs = fs' ∧ st = st' ∧ r = r'.
Proof.
  intros H. revert fs' st' r'. induction H as [s Hs|s Hs Hb|s Hs Hm Hp|s fs st r Hs Hm Ht HP IH];
    intros fs' st' r' H'; inversion H'; subst; try lia; auto.
  match goal with HP' : Parses (drop _ _) _ _ _ |- _ =>
    destruct (IH _ _ _ HP') as (-> & -> & ->); auto end.
Qed.

Lemma Parses_total s : ∃ fs st r, Parses s fs st r.
Proof.
  destruct (decode_loop_parses (S (length s)) s 0 []) as (fs & st & r & HP & _); [lia|lia|].
  rewrite drop_0 in HP. eauto.
Qed.

(** [decode] returns exactly what the grammar says of [buf ++ chunk]. *)
Lemma decode_parses d chunk fs st r :
  Parses (buf d ++ chunk) fs st r →
  decode d chunk = (stop_result st fs, mkDecoder match st with More => r | TooBig _ => buf d ++ chunk end).
Proof.
  intros HP. unfold decode.
  destruct (decode_loop_parses (S (length (buf d ++ chunk))) (buf d ++ chunk) 0 [])
    as (fs' & st' & r' & HP' & Hres); [lia|lia|].
  rewrite drop_0 in HP'. destruct (Parses_det _ _ _ _ _ _ _ HP HP') as (<- & <- & <-).
  destruct st; cbn [stop_result].
  - destruct Hres as (off & -> & ->). done.
  - by rewrite Hres.
Qed.

Lemma hdr_app s t : 8 ≤ length s → hdr_json (s ++ t) = hdr_json s ∧ hdr_bin (s ++ t) = hdr_bin s.
Proof.
  intros. unfold hdr_json, hdr_bin. rewrite drop_app_le by lia.
  by rewrite !take_app_le by (rewrite ?length_drop; lia).
Qed.

Lemma hdr_total_app s t : 8 ≤ length s → hdr_total (s ++ t) = hdr_total s.
Proof. intros H. unfold hdr_total. by destruct (hdr_app s t H) as [-> ->]. Qed.

Lemma body_app s t : 8 ≤ length s → hdr_total s ≤ length s → body (s ++ t) = body s.
Proof.
  intros H Hle. unfold body. destruct (hdr_app s t H) as [-> ->]. unfold hdr_total in Hle.
  rewrite !drop_app_le by lia. by rewrite !take_app_le by (rewrite ?length_drop; lia).
Qed.

(** Bytes that arrive later only extend what was read. *)
Lemma Parses_app s t fs r gs st r' :
  Parses s fs More r → Parses (r ++ t) gs st r' → Parses (s ++ t) (fs ++ gs) st r'.
Proof.
  intros H. remember More as m eqn:Em. induction H as [| | |s fs st0 r Hs Hm Ht HP IH]; subst;
    try done. intros HG. cbn.
  rewrite <-(body_app s t) by done. destruct (hdr_app s t Hs) as [Ej Eb].
  apply P_frame; rewrite ?length_app, ?hdr_total_app, ?Ej, ?Eb by done; try lia.
  rewrite drop_app_le by done. by apply IH.
Qed.

Lemma Parses_big_app s t fs n r :
  Parses s fs (TooBig n) r → ∃ r', Parses (s ++ t) fs (TooBig n) r'.
Proof.
  intros H. remember (TooBig n) as m eqn:Em.
  induction H as [|s Hs Hb| |s fs st0 r Hs Hm Ht HP IH]; simplify_eq.
  - destruct (hdr_app s t Hs) as [Ej Eb]. rewrite <-Ej, <-Eb in *.
    eexists. apply P_big; [rewrite length_app; lia|done].
  - destruct (IH eq_refl) as [r' HP']. exists r'.
    rewrite <-(body_app s t) by done. destruct (hdr_app s t Hs) as [Ej Eb].
    apply P_frame; rewrite ?length_app, ?hdr_total_app, ?Ej, ?Eb by done; try lia.
    by rewrite drop_app_le.
Qed.

Lemma Parses_residue s fs r : Parses s fs More r → Parses r [] More r.
Proof.
  intros H. remember More as m eqn:Em. induction H; simplify_eq; auto.
  - by apply P_header. - by apply P_partial.
Qed.

(** Feeding any chunking of a stream gives the stream's parse. *)
Lemma feed_parses chunks d fs st r :
  Parses (buf d) [] More (buf d) →
  Parses (buf d ++ concat chunks) fs st r →
  (feed d chunks).1 = stop_result st fs ∧ (st = More → (feed d chunks).2 = mkDecoder r).
Proof.
  revert d fs st r. induction chunks as [|c cs IH]; intros d fs st r Hd HP; cbn [feed concat] in *.
  { rewrite app_nil_r in HP. destruct (Parses_det _ _ _ _ _ _ _ Hd HP) as (<- & <- & <-).
    split; [done|]. by destruct d. }
  destruct (Parses_total (buf d ++ c)) as (fs1 & st1 & r1 & HP1).
  rewrite (decode_parses _ _ _ _ _ HP1). destruct st1 as [|n1]; cbn [stop_result].
  - destruct (Parses_total (r1 ++ concat cs)) as (gs & st' & r' & HG).
    pose proof (Parses_app _ (concat cs) _ _ _ _ _ HP1 HG) as HPP.
    rewrite <-app_assoc in HPP.
    destruct (Parses_det _ _ _ _ _ _ _ HP HPP) as (-> & -> & ->).
    destruct (IH (mkDecoder r1) gs st' r') as [E1 E2];
      [by eapply Parses_residue|done|].
    destruct (feed _ cs) as [res d'']. cbn in E1, E2. subst res.
    destruct st'; cbn; split; auto.
  - destruct (Parses_big_app _ (concat cs) _ _ _ HP1) as [r' HPP].
    rewrite <-app_assoc in HPP.
    destruct (Parses_det _ _ _ _ _ _ _ HP HPP) as (-> & -> & ->). done.
Qed.

Definition bin_len (f : DecodedFrame) : nat := from_option length 0 (binary f).

(** A frame the encoder can send: within the decoder's ceiling. *)
Definition sendable (f : DecodedFrame) : Prop :=
  (N.of_nat (length (json f)) + N.of_nat (bin_len f) ≤ MAX_FRAME_SIZE)%N.

Definition enc (f : DecodedFrame) : bytes := encode_frame (json f) (binary f).

(** What the wire carries: an empty sidecar is no sidecar. *)
Definition norm (f : DecodedFrame) : DecodedFrame :=
  mkFrame (json f) (match binary f with Some [] => None | o => o end).

Lemma enc_parts f :
  enc f = to_be_bytes 4 (as_u32 (N.of_nat (length (json f))))
          ++ to_be_bytes 4 (as_u32 (N.of_nat (bin_len f)))
          ++ json f ++ default [] (binary f).
Proof.
  unfold enc, encode_frame, bin_len. do 3 f_equal. destruct (binary f) as [b|]; cbn; [|done].
  case_decide; [done|]. by destruct b; cbn in *; [|lia].
Qed.

Lemma as_u32_small n : (n ≤ MAX_FRAME_SIZE)%N → from_be_bytes (to_be_bytes 4 (as_u32 n)) = n.
Proof.
  intros H. rewrite u32_be_roundtrip. unfold as_u32, MAX_FRAME_SIZE in *.
  rewrite N.Div0.mod_mod. apply N.mod_small. change (2 ^ 32)%N with 4294967296%N. lia.
Qed.

Lemma enc_header f t : sendable f →
  hdr_json (enc f ++ t) = N.of_nat (length (json f)) ∧
  hdr_bin (enc f ++ t) = N.of_nat (bin_len f).
Proof.
  unfold sendable. intros H. unfold hdr_json, hdr_bin. rewrite enc_parts, <-!app_assoc.
  rewrite drop_app_length', !take_app_length' by (by rewrite length_to_be_bytes).
  split; apply as_u32_small; lia.
Qed.

Lemma enc_length f : length (enc f) = 8 + length (json f) + bin_len f.
Proof.
  rewrite enc_parts, !length_app, !length_to_be_bytes. unfold bin_len. destruct (binary f); cbn; lia.
Qed.

Lemma enc_parse1 f t fs st r :
  sendable f → Parses t fs st r → Parses (enc f ++ t) (norm f :: fs) st r.
Proof.
  intros H HP. destruct (enc_header f t H) as [Ej Eb].
  assert (hdr_total (enc f ++ t) = length (enc f)) as Et.
  { unfold hdr_total. rewrite Ej, Eb, enc_length. lia. }
  assert (body (enc f ++ t) = norm f) as <-.
  { unfold body, norm. rewrite Ej, Eb, !Nat2N.id, enc_parts, <-!app_assoc. unfold bin_len.
    rewrite (app_assoc (to_be_bytes 4 _)), drop_app_length', take_app_length'
      by (by rewrite ?length_app, ?length_to_be_bytes).
    f_equal. destruct (binary f) as [[|x b]|] eqn:Eq; cbn [from_option default length]; [done| |done].
    rewrite decide_True by (cbn; lia). f_equal.
    rewrite (app_assoc _ (json f)), drop_app_length', take_app_length'; [done|done|].
    rewrite !length_app, !length_to_be_bytes. done. }
  apply P_frame; rewrite ?Et, ?Ej, ?Eb, ?length_app, ?enc_length; try lia; [exact H|].
  rewrite <-enc_length, drop_app_length. done.
Qed.

Lemma enc_parse frames :
  Forall sendable frames → Parses (concat (map enc frames)) (map norm frames) More [].
Proof.
  induction 1 as [|f fs Hf _ IH]; cbn; [apply P_header; cbn; lia|]. by apply enc_parse1.
Qed.

Lemma feed_new chunks fs st r :
  Parses (concat chunks) fs st r →
  (feed new chunks).1 = stop_result st fs ∧ (st = More → (feed new chunks).2 = mkDecoder r).
Proof. intros HP. apply feed_parses; [apply P_header; cbn; lia|done]. Qed.

Lemma residue_bound r : Parses r [] More r → (N.of_nat (length r) < 8 + MAX_FRAME_SIZE)%N.
Proof.
  intros H. inversion H as [?|?|?|? ? ? ? Hs Hm Ht]; subst.
  - unfold MAX_FRAME_SIZE. lia.
  - unfold hdr_total in *. lia.
Qed.

(** Framing round trip under arbitrary fragmentation: whatever chunks the
    transport cuts the concatenated encodings into, feeding them to a fresh
    decoder yields exactly the frames sent, in order, and an empty buffer. An
    empty sidecar arrives as no sidecar. *)
Theorem decode_encode_chunks (frames : list DecodedFrame) (chunks : list bytes) :
  Forall sendable frames → concat chunks = concat (map enc frames) →
  feed new chunks = (Ok (map norm frames), new).
Proof.
  intros Hs Hc. pose proof (enc_parse frames Hs) as HP. rewrite <-Hc in HP.
  destruct (feed_new _ _ _ _ HP) as [E1 E2]. specialize (E2 eq_refl).
  destruct (feed new chunks). by cbn in *; subst.
Qed.

Lemma decode_encode_chunks_witness :
  feed new [map as_u8 [0; 0; 0]%N; map as_u8 [1; 0; 0; 0; 2]%N ++ as_bytes "xa"; as_bytes "b"]
  = (Ok [mkFrame (as_bytes "x") (Some (as_bytes "ab"))], new).
Proof.
  apply (decode_encode_chunks [mkFrame (as_bytes "x") (Some (as_bytes "ab"))]).
  - constructor; [|constructor]. unfold sendable. vm_compute. discriminate.
  - reflexivity.
Defined.

(** Chunking is unobservable: two fragmentations of the same bytes give the
    same frames or the same error, poisoned streams included. *)
Theorem decode_chunk_independent (c1 c2 : list bytes) :
  concat c1 = concat c2 → (feed new c1).1 = (feed new c2).1.
Proof.
  intros H. destruct (Parses_total (concat c1)) as (fs & st & r & HP).
  destruct (feed_new _ _ _ _ HP) as [-> _]. rewrite H in HP.
  by destruct (feed_new _ _ _ _ HP) as [-> _].
Qed.

Lemma decode_chunk_independent_witness :
  (feed new [repeat (as_u8 255) 4; repeat (as_u8 255) 4]).1
  = (feed new [repeat (as_u8 255) 8; []]).1.
Proof. apply decode_chunk_independent. reflexivity. Defined.

(** After a successful [decode] the carried-over tail is bounded: less than
    one header plus the 64 MiB ceiling, whatever was fed. *)
Theorem decode_buffer_bounded (d : FrameDecoder) (chunk : bytes) fs d' :
  decode d chunk = (Ok fs, d') → (N.of_nat (length (buf d')) < 8 + MAX_FRAME_SIZE)%N.
Proof.
  intros H. destruct (Parses_total (buf d ++ chunk)) as (fs' & st & r & HP).
  rewrite (decode_parses _ _ _ _ _ HP) in H. destruct st; simplify_eq/=.
  eapply residue_bound, Parses_residue, HP.
Qed.

Lemma decode_buffer_bounded_witness :
  (N.of_nat (length (buf (decode new [as_u8 0]).2)) < 8 + MAX_FRAME_SIZE)%N.
Proof. apply (decode_buffer_bounded new [as_u8 0] []). vm_compute. reflexivity. Defined.

(** A protocol violation is sticky: after [decode] reports an oversized
    header, every later [decode] reports the same error whatever arrives, until
    [reset]. The offending bytes are never skipped. *)
Theorem decode_error_sticky (d : FrameDecoder) (chunk more : bytes) e d' :
  decode d chunk = (Err e, d') → (decode d' more).1 = Err e ∧ (decode (reset d') []).1 = Ok [].
Proof.
  intros H. destruct (Parses_total (buf d ++ chunk)) as (fs & st & r & HP).
  rewrite (decode_parses _ _ _ _ _ HP) in H. destruct st as [|n]; simplify_eq/=.
  destruct (Parses_big_app _ more _ _ _ HP) as [r' HP']. split; [|reflexivity].
  by rewrite (decode_parses (mkDecoder (buf d ++ chunk)) more _ _ _ HP').
Qed.

Lemma decode_error_sticky_witness :
  let r := decode new (repeat (as_u8 255) 8) in
  (decode r.2 [as_u8 1]).1 = r.1 ∧ (decode (reset r.2) []).1 = Ok [].
Proof.
  apply (decode_error_sticky new (repeat (as_u8 255) 8) [as_u8 1] (too_large 8589934590)).
  vm_compute. reflexivity.
Defined.
