(* ===== verification/Json.v ===== *)
(** * Json: JSON values and the guard primitives of [tp-proto/src/lib.rs] and
    [tp-relay/src/lib.rs].
    [Value] is the public data type of [serde_json] (an integer token is kept as
    u64/i64, everything else is an f64); the guards are the repository's own. *)
From stdpp Require Import base list numbers strings.
From Stdlib Require Import Lia ZArith NArith.
From Stdlib.Floats Require Import SpecFloat.
From S2P Require Import Prelude.

(** ** IEEE-754 binary64 *)

Abbreviation f64 := spec_float.

Definition u64_max : N := 18446744073709551615.

(** [n as f64] (round to nearest even). *)
Definition u64_as_f64 (n : N) : f64 := binary_normalize 53 1024 (Z.of_N n) 0 false.
Definition i64_as_f64 (z : Z) : f64 := binary_normalize 53 1024 z 0 false.

Definition f64_is_finite (f : f64) : bool :=
  match f with S754_zero _ | S754_finite _ _ _ => true | _ => false end.

(** [f.fract() == 0.0] *)
Definition f64_fract_is_zero (f : f64) : bool :=
  match f with
  | S754_zero _ => true
  | S754_finite _ m e => bool_decide (0 ≤ e)%Z || bool_decide (Z.pos m mod 2 ^ (- e) = 0)%Z
  | _ => false
  end.

(** [f as u64]: truncate, then saturate; NaN is 0. *)
Definition f64_as_u64 (f : f64) : N :=
  match f with
  | S754_finite false m e =>
      N.min u64_max (Z.to_N (if decide (0 ≤ e)%Z then Z.pos m * 2 ^ e else Z.pos m / 2 ^ (- e))%Z)
  | S754_infinity false => u64_max
  | _ => 0%N
  end.

Definition f64_zero : f64 := S754_zero false.

(** ** [serde_json::Value] *)

(** [serde_json] holds a [u64], an [i64] or an [f64]; the range of the first two is not
    in the type here: a number outside it is a value that the crate never makes. *)
Inductive Number : Type :=
| PosInt (n : N)
| NegInt (z : Z)
| Float (f : f64).

Inductive Value : Type :=
| Null
| Bool (b : bool)
| Num (n : Number)
| Str (s : string)
| Array (l : list Value)
| Object (o : list (string * Value)).

Abbreviation Map := (list (string * Value)).

(** [Map::get] *)
Fixpoint get (obj : Map) (key : string) : option Value :=
  match obj with
  | [] => None
  | (k, v) :: obj' => if String.eqb k key then Some v else get obj' key
  end.

(** [Map::insert]: without the [preserve_order] feature the map is a [BTreeMap],
    kept in key order. *)
Fixpoint map_insert (obj : Map) (key : string) (val : Value) : Map :=
  match obj with
  | [] => [(key, val)]
  | (k, v) :: obj' =>
      match String.compare key k with
      | Lt => (key, val) :: obj
      | Eq => (key, val) :: obj'
      | Gt => (k, v) :: map_insert obj' key val
      end
  end.

Lemma get_map_insert obj key val key' :
  get (map_insert obj key val) key' = if String.eqb key key' then Some val else get obj key'.
Proof.
  induction obj as [|[k v] obj IH]; [done|]. cbn [map_insert].
  destruct (String.compare key k) eqn:E; cbn [get]; [|done|].
  - apply String.compare_eq_iff in E as ->. by destruct (String.eqb k key').
  - rewrite IH. destruct (String.eqb k key') eqn:E1, (String.eqb key key') eqn:E2; try done.
    apply String.eqb_eq in E1, E2. subst. pose proof (String.compare_antisym key' key') as H. rewrite E in H. done.
Qed.

Definition as_object (v : Value) : option Map := match v with Object o => Some o | _ => None end.
Definition as_array (v : Value) : option (list Value) := match v with Array l => Some l | _ => None end.
Definition as_str (v : Value) : option string := match v with Str s => Some s | _ => None end.
Definition as_bool (v : Value) : option bool := match v with Bool b => Some b | _ => None end.
Definition as_u64 (v : Value) : option N := match v with Num (PosInt n) => Some n | _ => None end.
Definition as_f64 (v : Value) : option f64 :=
  match v with
  | Num (PosInt n) => Some (u64_as_f64 n)
  | Num (NegInt z) => Some (i64_as_f64 z)
  | Num (Float f) => Some f
  | _ => None
  end.

(** [Value::get] on any value. *)
Definition value_get (v : Value) (k : string) : option Value :=
  match v with Object o => get o k | _ => None end.

(** ** Guard primitives *)

Definition req_string (obj : Map) (key : string) : option string := get obj key ≫= as_str.

Definition is_number (v : Value) : option f64 :=
  let?o n := as_f64 v in if f64_is_finite n then Some n else None.

Definition as_string_array (v : Value) : option (list string) :=
  let?o l := as_array v in mapM as_str l.

Definition req_bool (obj : Map) (key : string) : option bool := get obj key ≫= as_bool.

Definition opt_string (obj : Map) (key : string) : option (option string) :=
  match get obj key with
  | None => Some None
  | Some (Str s) => Some (Some s)
  | Some _ => None
  end.

Definition opt_number (obj : Map) (key : string) : option (option f64) :=
  match get obj key with
  | None => Some None
  | Some v => Some <$> is_number v
  end.

Definition opt_bool (obj : Map) (key : string) : option (option bool) :=
  match get obj key with
  | None => Some None
  | Some (Bool b) => Some (Some b)
  | Some _ => None
  end.

Module Proto.
(** [tp-proto/src/lib.rs]: the upper bound is inclusive. *)
Definition is_non_negative_int (v : Value) : option N :=
  match as_u64 v with
  | Some u => Some u
  | None =>
    match as_f64 v with
    | Some f =>
        if f64_is_finite f && f64_fract_is_zero f && SFleb f64_zero f
           && SFleb f (u64_as_f64 u64_max)
        then Some (f64_as_u64 f) else None
    | None => None
    end
  end.

Definition is_positive_int (v : Value) : option N :=
  let?o n := is_non_negative_int v in if decide (0 < n)%N then Some n else None.

Definition MAX_TERMINAL_DIMENSION : N := 65535.

Definition is_terminal_dimension (v : Value) : option N :=
  let?o n := is_positive_int v in if decide (n ≤ MAX_TERMINAL_DIMENSION)%N then Some n else None.
End Proto.

Module Relay.
(** [tp-relay/src/lib.rs]: the upper bound is strict. *)
Definition is_non_negative_int (v : Value) : option N :=
  match as_u64 v with
  | Some u => Some u
  | None =>
    match as_f64 v with
    | Some f =>
        if f64_is_finite f && f64_fract_is_zero f && SFleb f64_zero f
           && SFltb f (u64_as_f64 u64_max)
        then Some (f64_as_u64 f) else None
    | None => None
    end
  end.
End Relay.

(** ** Facts *)

Lemma is_number_float f : f64_is_finite f = true → is_number (Num (Float f)) = Some f.
Proof. intros H. unfold is_number. cbn. by rewrite H. Qed.

Lemma u64_max_as_f64 : u64_as_f64 u64_max = S754_finite false 4503599627370496 12.
Proof. vm_compute. reflexivity. Qed.

Lemma SFcompare_two64_eq f :
  SFcompare f (u64_as_f64 u64_max) = Some Eq → f64_as_u64 f = u64_max.
Proof.
  rewrite u64_max_as_f64. generalize (eq_refl (f64_as_u64 f)). generalize (f64_as_u64 f) at 2 3.
  intros n Hn Hc. destruct f as [[]|[]| |[] m e]; unfold SFcompare in Hc; try discriminate Hc.
  destruct (Z.compare_spec e 12) as [->|He|He]; [|discriminate Hc|discriminate Hc].
  assert (m = 4503599627370496%positive) as ->.
  { apply Pos.compare_eq. unfold Pos.compare. congruence. }
  rewrite <-Hn. vm_compute. reflexivity.
Qed.

(** A terminal dimension the guard accepts fits the kernel's [unsigned short]
    without truncation and is not zero. *)
Theorem terminal_dimension_fits_u16 (v : Value) n :
  Proto.is_terminal_dimension v = Some n → (1 ≤ n)%N ∧ (n mod 2 ^ 16 = n)%N.
Proof.
  unfold Proto.is_terminal_dimension, Proto.is_positive_int.
  destruct (Proto.is_non_negative_int v) as [m|]; cbn; [|done].
  case_decide; cbn; [|done]. case_decide as Hm; [|done]. intros [= <-].
  unfold Proto.MAX_TERMINAL_DIMENSION in Hm. split; [lia|]. apply N.mod_small.
  change (2 ^ 16)%N with 65536%N. lia.
Qed.

Lemma terminal_dimension_fits_u16_witness : (1 ≤ 65535)%N ∧ (65535 mod 2 ^ 16 = 65535)%N.
Proof.
  apply (terminal_dimension_fits_u16 (Num (Float (S754_finite false 65535 0)))).
  vm_compute. reflexivity.
Defined.

(** The two copies of [is_non_negative_int] differ in exactly one place: where
    they disagree the value is the double 2^64, which the relay rejects and
    [tp-proto] accepts after saturating it to [u64::MAX]. *)
Theorem non_negative_int_copies_differ (v : Value) :
  Proto.is_non_negative_int v ≠ Relay.is_non_negative_int v →
  Proto.is_non_negative_int v = Some u64_max ∧ Relay.is_non_negative_int v = None.
Proof.
  unfold Proto.is_non_negative_int, Relay.is_non_negative_int.
  destruct (as_u64 v); [done|]. destruct (as_f64 v) as [f|]; [|done].
  destruct (_ && _ && SFleb f64_zero f); cbn; [|done].
  unfold SFleb, SFltb. destruct (SFcompare f _) as [[]|] eqn:Ec; cbn; try done.
  intros _. by rewrite (SFcompare_two64_eq f Ec).
Qed.

Lemma non_negative_int_copies_differ_witness :
  let v := Num (Float (S754_finite false 4503599627370496 12)) in
  Proto.is_non_negative_int v = Some u64_max ∧ Relay.is_non_negative_int v = None.
Proof. apply non_negative_int_copies_differ. vm_compute. discriminate. Defined.

(** An integer that fits the mantissa is a finite [f64]. *)
Lemma digits2_shift k m : digits2_pos (shift_pos k m) = (digits2_pos m + k)%positive.
Proof.
  assert (∀ n, digits2_pos (shift_nat (S n) m) = (digits2_pos m + Pos.of_succ_nat n)%positive) as H.
  { induction n as [|n IH]; [cbn; lia|]. change (Pos.succ (digits2_pos (shift_nat (S n) m)) = digits2_pos m + Pos.of_succ_nat (S n))%positive.
    rewrite IH. lia. }
  rewrite shift_pos_nat. destruct (Pos.to_nat k) as [|n] eqn:E; [lia|]. rewrite H. lia.
Qed.

Lemma digits2_bound m n : (Z.pos m < 2 ^ Z.pos n)%Z → (digits2_pos m ≤ n)%positive.
Proof.
  revert n. induction m as [m IH|m IH|]; intros n H; cbn [digits2_pos]; [| |lia];
    (destruct (Pos.eq_dec n 1) as [->|Hn]; [lia|]);
    (assert (digits2_pos m ≤ Pos.pred n)%positive; [apply IH|lia]);
    pose proof (Z.pow_succ_r 2 (Z.pos (Pos.pred n)) ltac:(lia)) as E; replace (Z.succ _) with (Z.pos n) in E by lia; lia.
Qed.

Lemma normalize_finite z : (Z.abs z < 2 ^ 53)%Z → f64_is_finite (binary_normalize 53 1024 z 0 false) = true.
Proof.
  assert (∀ s m, (Z.pos m < 2 ^ 53)%Z → f64_is_finite (binary_round 53 1024 s m 0) = true) as H.
  2:{ intros Hz. destruct z; [done| |]; apply H; lia. }
  intros s m Hm. apply digits2_bound in Hm as Hd. unfold binary_round.
  assert (∃ mz, shl_align m 0 (fexp 53 1024 (Z.pos (digits2_pos m) + 0)) = (mz, (Z.pos (digits2_pos m) - 53)%Z) ∧ digits2_pos mz = 53%positive) as (mz & -> & Hz).
  { unfold fexp, emin. rewrite Z.max_l by lia. unfold shl_align. destruct (_ - _ - 0)%Z as [|p|p] eqn:E; [| |].
    - exists m. split; [f_equal|]; lia.
    - lia.
    - exists (shift_pos p m). split; [f_equal; lia|]. rewrite digits2_shift. lia. }
  unfold binary_round_aux.
  assert (∀ l, shr_fexp 53 1024 (Z.pos mz) (Z.pos (digits2_pos m) - 53) l = (shr_record_of_loc (Z.pos mz) l, (Z.pos (digits2_pos m) - 53)%Z)) as Hs.
  { intros l. unfold shr_fexp, fexp, emin. cbn [Zdigits2]. rewrite Hz, Z.max_l by lia.
    replace (_ - _ - _)%Z with 0%Z by lia. done. }
  rewrite Hs. cbn [shr_m shr_record_of_loc loc_of_shr_record shr_r shr_s round_nearest_even]. rewrite Hs. cbn [shr_m shr_record_of_loc].
  by rewrite (proj2 (Z.leb_le _ _)) by lia.
Qed.
