(* ===== verification/Messages.v ===== *)
(** * Messages: the relay protocol's message types and their parse boundaries.
    [Client -> Relay] is [tp-proto/src/relay_client.rs], [Relay -> Client] is
    [tp-relay/src/messages.rs]. [*_to_value] is what the [serde] attributes on
    the enums say is written ([tag = "t"], the [rename]s, the skipped [None]s). *)
From stdpp Require Import base list numbers strings.
From Stdlib Require Import Lia ZArith NArith.
From Stdlib.Floats Require Import SpecFloat.
From S2P Require Import Prelude Bytes Json.

Inductive Role := Daemon | Frontend.
#[export] Instance Role_eq_dec : EqDecision Role.
Proof. solve_decision. Defined.

Inductive Platform := Ios | Android.
#[export] Instance Platform_eq_dec : EqDecision Platform.
Proof. solve_decision. Defined.

Inductive InterruptionLevel := Active | TimeSensitive.

Record PushData := mkPushData { pd_sid : string; pd_daemon_id : string; pd_event : string }.

Definition Role_from_str (s : string) : option Role :=
  if String.eqb s "daemon" then Some Daemon
  else if String.eqb s "frontend" then Some Frontend else None.

Definition Platform_from_str (s : string) : option Platform :=
  if String.eqb s "ios" then Some Ios
  else if String.eqb s "android" then Some Android else None.

(** The [#[serde(rename_all = "lowercase")]] names. *)
Definition Role_to_str (r : Role) : string := match r with Daemon => "daemon" | Frontend => "frontend" end.
Definition Platform_to_str (p : Platform) : string := match p with Ios => "ios" | Android => "android" end.

Definition InterruptionLevel_to_str (l : InterruptionLevel) : string :=
  match l with Active => "active" | TimeSensitive => "time-sensitive" end.

Definition InterruptionLevel_parse_opt (v : option Value) : option (option InterruptionLevel) :=
  match v with
  | None => Some None
  | Some (Str s) =>
      if String.eqb s "active" then Some (Some Active)
      else if String.eqb s "time-sensitive" then Some (Some TimeSensitive) else None
  | Some _ => None
  end.

Definition PushData_parse_opt (v : option Value) : option (option PushData) :=
  match v with
  | None => Some None
  | Some (Object map) =>
      let?o sid := get map "sid" ≫= as_str in
      let?o daemon_id := get map "daemonId" ≫= as_str in
      let?o event := get map "event" ≫= as_str in
      Some (Some (mkPushData sid daemon_id event))
  | Some _ => None
  end.

(** ** Push tokens *)

Definition MAX_PUSH_TOKEN_ANDROID : nat := 1024.
Definition IOS_APNS_TOKEN_HEX_LEN : nat := 64.

Definition is_lower_hex (b : byte) : bool :=
  let v := byte_val b in
  ((48 <=? v)%N && (v <=? 57)%N) || ((97 <=? v)%N && (v <=? 102)%N).

Definition is_ios_apns_token (s : string) : bool :=
  bool_decide (str_len s = IOS_APNS_TOKEN_HEX_LEN) && forallb is_lower_hex (as_bytes s).

Definition token_ok (p : Platform) (token : string) : bool :=
  match p with
  | Ios => is_ios_apns_token token
  | Android => bool_decide (str_len token ≤ MAX_PUSH_TOKEN_ANDROID)
  end.

(** ** Client to relay *)

Inductive RelayClientMessage : Type :=
| Auth (role : Role) (daemon_id token : string) (v : f64) (frontend_id : option string)
| AuthResume (token : string) (v : f64)
| Register (daemon_id proof token : string) (v : f64)
| KeyExchange (ct : string) (role : Role)
| Publish (sid ct : string) (seq : N)
| Subscribe (sid : string) (after : option N)
| Unsubscribe (sid : string)
| Ping (ts : option f64)
| Push (frontend_id sealed title body : string)
       (interruption_level : option InterruptionLevel) (data : option PushData)
| PushRegister (frontend_id token : string) (platform : Platform).

Definition parse_relay_client_message (raw : Value) : option RelayClientMessage :=
  let?o obj := as_object raw in
  let?o t := get obj "t" ≫= as_str in
  if String.eqb t "relay.auth" then
    let?o role := (get obj "role" ≫= as_str) ≫= Role_from_str in
    let?o daemon_id := req_string obj "daemonId" in
    let?o token := req_string obj "token" in
    let?o v := get obj "v" ≫= is_number in
    let?o frontend_id := opt_string obj "frontendId" in
    Some (Auth role daemon_id token v frontend_id)
  else if String.eqb t "relay.auth.resume" then
    let?o token := req_string obj "token" in
    let?o v := get obj "v" ≫= is_number in
    Some (AuthResume token v)
  else if String.eqb t "relay.register" then
    let?o daemon_id := req_string obj "daemonId" in
    let?o proof := req_string obj "proof" in
    let?o token := req_string obj "token" in
    let?o v := get obj "v" ≫= is_number in
    Some (Register daemon_id proof token v)
  else if String.eqb t "relay.kx" then
    let?o ct := req_string obj "ct" in
    let?o role := (get obj "role" ≫= as_str) ≫= Role_from_str in
    Some (KeyExchange ct role)
  else if String.eqb t "relay.pub" then
    let?o sid := req_string obj "sid" in
    let?o ct := req_string obj "ct" in
    let?o seq := get obj "seq" ≫= Proto.is_non_negative_int in
    Some (Publish sid ct seq)
  else if String.eqb t "relay.sub" then
    let?o sid := req_string obj "sid" in
    let?o after := match get obj "after" with
                   | None => Some None
                   | Some v => Some <$> Proto.is_non_negative_int v
                   end in
    Some (Subscribe sid after)
  else if String.eqb t "relay.unsub" then
    let?o sid := req_string obj "sid" in
    Some (Unsubscribe sid)
  else if String.eqb t "relay.ping" then
    let?o ts := opt_number obj "ts" in
    Some (Ping ts)
  else if String.eqb t "relay.push" then
    let?o frontend_id := req_string obj "frontendId" in
    let?o sealed := req_string obj "sealed" in
    let?o title := req_string obj "title" in
    let?o body := req_string obj "body" in
    let?o interruption_level := InterruptionLevel_parse_opt (get obj "interruptionLevel") in
    let?o data := PushData_parse_opt (get obj "data") in
    Some (Push frontend_id sealed title body interruption_level data)
  else if String.eqb t "relay.push.register" then
    let?o frontend_id := req_string obj "frontendId" in
    let?o platform := (get obj "platform" ≫= as_str) ≫= Platform_from_str in
    let?o token := req_string obj "token" in
    if token_ok platform token then Some (PushRegister frontend_id token platform) else None
  else None.

(** ** Relay to client *)

Record AuthOkP := mkAuthOk { ao_daemon_id : string; ao_resume_token : option string;
  ao_resume_expires_at : option f64; ao_resumed : option bool }.
Record Frame := mkFrameMsg { f_sid : string; f_ct : string; f_seq : N; f_from : Role;
  f_frontend_id : option string }.
Record KeyExchangeFrameP := mkKx { kx_ct : string; kx_from : Role }.
Record PresenceP := mkPresence { pr_daemon_id : string; pr_online : bool;
  pr_sessions : list string; pr_last_seen : f64 }.
Record RelayErrP := mkErr { e_e : string; e_m : option string; e_frontend_id : option string }.
Record NotificationP := mkNotif { n_title : string; n_body : string; n_data : option PushData }.
Record PushTokenP := mkPushToken { pt_frontend_id : string; pt_sealed : string;
  pt_platform : Platform }.

Inductive RelayServerMessage : Type :=
| AuthOk (p : AuthOkP)
| AuthErr (e : string)
| RegisterOk (daemon_id : string)
| RegisterErr (e : string)
| FrameMsg (f : Frame)
| KeyExchangeFrame (k : KeyExchangeFrameP)
| Presence (p : PresenceP)
| Pong (ts : option f64)
| RErr (e : RelayErrP)
| Notification (n : NotificationP)
| PushToken (p : PushTokenP).

Definition parse_role (v : Value) : option Role := as_str v ≫= Role_from_str.
Definition parse_platform (v : Value) : option Platform := as_str v ≫= Platform_from_str.
Definition parse_push_data_opt (v : option Value) : option (option PushData) :=
  match v with
  | None => Some None
  | Some (Object map) =>
      let?o sid := get map "sid" ≫= as_str in
      let?o daemon_id := get map "daemonId" ≫= as_str in
      let?o event := get map "event" ≫= as_str in
      Some (Some (mkPushData sid daemon_id event))
  | Some _ => None
  end.

Definition parse_relay_server_message (raw : Value) : option RelayServerMessage :=
  let?o obj := as_object raw in
  let?o t := get obj "t" ≫= as_str in
  if String.eqb t "relay.auth.ok" then
    let?o daemon_id := req_string obj "daemonId" in
    let?o resume_token := opt_string obj "resumeToken" in
    let?o resume_expires_at := opt_number obj "resumeExpiresAt" in
    let?o resumed := opt_bool obj "resumed" in
    match resumed, resume_token, resume_expires_at with
    | Some true, None, _ | Some true, _, None => None
    | _, _, _ => Some (AuthOk (mkAuthOk daemon_id resume_token resume_expires_at resumed))
    end
  else if String.eqb t "relay.auth.err" then
    let?o e := req_string obj "e" in Some (AuthErr e)
  else if String.eqb t "relay.register.ok" then
    let?o daemon_id := req_string obj "daemonId" in Some (RegisterOk daemon_id)
  else if String.eqb t "relay.register.err" then
    let?o e := req_string obj "e" in Some (RegisterErr e)
  else if String.eqb t "relay.frame" then
    let?o sid := req_string obj "sid" in
    let?o ct := req_string obj "ct" in
    let?o seq := get obj "seq" ≫= Relay.is_non_negative_int in
    let?o from := get obj "from" ≫= parse_role in
    let?o frontend_id := opt_string obj "frontendId" in
    Some (FrameMsg (mkFrameMsg sid ct seq from frontend_id))
  else if String.eqb t "relay.kx.frame" then
    let?o ct := req_string obj "ct" in
    let?o from := get obj "from" ≫= parse_role in
    Some (KeyExchangeFrame (mkKx ct from))
  else if String.eqb t "relay.presence" then
    let?o daemon_id := req_string obj "daemonId" in
    let?o online := req_bool obj "online" in
    let?o sessions := get obj "sessions" ≫= as_string_array in
    let?o last_seen := get obj "lastSeen" ≫= is_number in
    Some (Presence (mkPresence daemon_id online sessions last_seen))
  else if String.eqb t "relay.pong" then
    let?o ts := opt_number obj "ts" in Some (Pong ts)
  else if String.eqb t "relay.err" then
    let?o e := req_string obj "e" in
    let?o m := opt_string obj "m" in
    let?o frontend_id := opt_string obj "frontendId" in
    Some (RErr (mkErr e m frontend_id))
  else if String.eqb t "relay.notification" then
    let?o title := req_string obj "title" in
    let?o body := req_string obj "body" in
    let?o data := parse_push_data_opt (get obj "data") in
    Some (Notification (mkNotif title body data))
  else if String.eqb t "relay.push.token" then
    let?o frontend_id := req_string obj "frontendId" in
    let?o sealed := req_string obj "sealed" in
    let?o platform := get obj "platform" ≫= parse_platform in
    Some (PushToken (mkPushToken frontend_id sealed platform))
  else None.

(** ** What [serde] writes *)

(** A non-finite [f64] is written as [null]. *)
Definition f64_value (f : f64) : Value := if f64_is_finite f then Num (Float f) else Null.
Definition u64_value (n : N) : Value := Num (PosInt n).
(** [skip_serializing_if = "Option::is_none"] *)
Definition opt_field {A} (k : string) (enc : A → Value) (o : option A) : Map :=
  match o with Some a => [(k, enc a)] | None => [] end.
Definition PushData_value (d : PushData) : Value :=
  Object [("sid", Str (pd_sid d)); ("daemonId", Str (pd_daemon_id d)); ("event", Str (pd_event d))].

Definition client_to_value (m : RelayClientMessage) : Value :=
  Object
    match m with
    | Auth role daemon_id token v frontend_id =>
        [("t", Str "relay.auth"); ("role", Str (Role_to_str role)); ("daemonId", Str daemon_id);
         ("token", Str token); ("v", f64_value v)] ++ opt_field "frontendId" Str frontend_id
    | AuthResume token v => [("t", Str "relay.auth.resume"); ("token", Str token); ("v", f64_value v)]
    | Register daemon_id proof token v =>
        [("t", Str "relay.register"); ("daemonId", Str daemon_id); ("proof", Str proof);
         ("token", Str token); ("v", f64_value v)]
    | KeyExchange ct role => [("t", Str "relay.kx"); ("ct", Str ct); ("role", Str (Role_to_str role))]
    | Publish sid ct seq => [("t", Str "relay.pub"); ("sid", Str sid); ("ct", Str ct); ("seq", u64_value seq)]
    | Subscribe sid after => [("t", Str "relay.sub"); ("sid", Str sid)] ++ opt_field "after" u64_value after
    | Unsubscribe sid => [("t", Str "relay.unsub"); ("sid", Str sid)]
    | Ping ts => [("t", Str "relay.ping")] ++ opt_field "ts" f64_value ts
    | Push frontend_id sealed title body level data =>
        [("t", Str "relay.push"); ("frontendId", Str frontend_id); ("sealed", Str sealed);
         ("title", Str title); ("body", Str body)]
        ++ opt_field "interruptionLevel" (λ l, Str (InterruptionLevel_to_str l)) level
        ++ opt_field "data" PushData_value data
    | PushRegister frontend_id token platform =>
        [("t", Str "relay.push.register"); ("frontendId", Str frontend_id); ("token", Str token);
         ("platform", Str (Platform_to_str platform))]
    end.

Definition server_to_value (m : RelayServerMessage) : Value :=
  Object
    match m with
    | AuthOk p =>
        [("t", Str "relay.auth.ok"); ("daemonId", Str (ao_daemon_id p))]
        ++ opt_field "resumeToken" Str (ao_resume_token p)
        ++ opt_field "resumeExpiresAt" f64_value (ao_resume_expires_at p)
        ++ opt_field "resumed" Bool (ao_resumed p)
    | AuthErr e => [("t", Str "relay.auth.err"); ("e", Str e)]
    | RegisterOk d => [("t", Str "relay.register.ok"); ("daemonId", Str d)]
    | RegisterErr e => [("t", Str "relay.register.err"); ("e", Str e)]
    | FrameMsg f =>
        [("t", Str "relay.frame"); ("sid", Str (f_sid f)); ("ct", Str (f_ct f));
         ("seq", u64_value (f_seq f)); ("from", Str (Role_to_str (f_from f)))]
        ++ opt_field "frontendId" Str (f_frontend_id f)
    | KeyExchangeFrame k =>
        [("t", Str "relay.kx.frame"); ("ct", Str (kx_ct k)); ("from", Str (Role_to_str (kx_from k)))]
    | Presence p =>
        [("t", Str "relay.presence"); ("daemonId", Str (pr_daemon_id p)); ("online", Bool (pr_online p));
         ("sessions", Array (map Str (pr_sessions p))); ("lastSeen", f64_value (pr_last_seen p))]
    | Pong ts => [("t", Str "relay.pong")] ++ opt_field "ts" f64_value ts
    | RErr e =>
        [("t", Str "relay.err"); ("e", Str (e_e e))] ++ opt_field "m" Str (e_m e)
        ++ opt_field "frontendId" Str (e_frontend_id e)
    | Notification n =>
        [("t", Str "relay.notification"); ("title", Str (n_title n)); ("body", Str (n_body n))]
        ++ opt_field "data" PushData_value (n_data n)
    | PushToken p =>
        [("t", Str "relay.push.token"); ("frontendId", Str (pt_frontend_id p));
         ("sealed", Str (pt_sealed p)); ("platform", Str (Platform_to_str (pt_platform p)))]
    end.

(** ** Round trips *)

Definition finite_opt (o : option f64) : bool := from_option f64_is_finite true o.

(** The client messages an honest peer can mean: finite numbers, a device token
    of its platform's shape. *)
Definition client_wf (m : RelayClientMessage) : bool :=
  match m with
  | Auth _ _ _ v _ | AuthResume _ v | Register _ _ _ v => f64_is_finite v
  | Ping ts => finite_opt ts
  | PushRegister _ token platform => token_ok platform token
  | _ => true
  end.

Definition server_wf (m : RelayServerMessage) : bool :=
  match m with
  | AuthOk p =>
      finite_opt (ao_resume_expires_at p) &&
      match ao_resumed p with
      | Some true => bool_decide (is_Some (ao_resume_token p)) && bool_decide (is_Some (ao_resume_expires_at p))
      | _ => true
      end
  | Presence p => f64_is_finite (pr_last_seen p)
  | Pong ts => finite_opt ts
  | _ => true
  end.

Lemma is_number_f64_value f : f64_is_finite f = true → is_number (f64_value f) = Some f.
Proof. intros H. unfold f64_value. rewrite H. by apply is_number_float. Qed.

Lemma as_string_array_map l : as_string_array (Array (map Str l)) = Some l.
Proof.
  unfold as_string_array. cbn. induction l as [|s l IH]; [done|]. cbn in *. by rewrite IH.
Qed.
#[export] Hint Rewrite is_number_f64_value as_string_array_map using assumption : tpr.

(** The relay understands every well-formed client message exactly as the
    client meant it. *)
Theorem client_message_roundtrip (m : RelayClientMessage) :
  client_wf m = true → parse_relay_client_message (client_to_value m) = Some m.
Proof.
  intros H. destruct m; cbn in H; repeat match goal with
    | r : Role |- _ => destruct r | p : Platform |- _ => destruct p
    | o : option _ |- _ => destruct o | l : InterruptionLevel |- _ => destruct l
    | d : PushData |- _ => destruct d end;
  cbn -[is_number f64_value token_ok] in *; autorewrite with tpr; cbn -[token_ok];
  rewrite ?H; reflexivity.
Qed.

Lemma client_message_roundtrip_witness :
  parse_relay_client_message (client_to_value (Publish "s" "ct" 7)) = Some (Publish "s" "ct" 7).
Proof. apply client_message_roundtrip. reflexivity. Defined.

(** The client understands every well-formed relay message exactly as the
    relay meant it. *)
Theorem server_message_roundtrip (m : RelayServerMessage) :
  server_wf m = true → parse_relay_server_message (server_to_value m) = Some m.
Proof.
  intros H. destruct m; repeat match goal with
    | p : AuthOkP |- _ => destruct p as [? ? ? [[]|]] | p : Frame |- _ => destruct p as [? ? ? [] ?]
    | p : KeyExchangeFrameP |- _ => destruct p as [? []] | p : PresenceP |- _ => destruct p
    | p : RelayErrP |- _ => destruct p | p : NotificationP |- _ => destruct p
    | p : PushTokenP |- _ => destruct p as [? ? []] | o : option _ |- _ => destruct o
    | d : PushData |- _ => destruct d end;
  cbn -[is_number f64_value as_string_array] in *;
  try (apply andb_true_iff in H as [H ?]); try discriminate;
  autorewrite with tpr; cbn; rewrite ?is_number_f64_value by assumption; reflexivity.
Qed.

Lemma server_message_roundtrip_witness :
  parse_relay_server_message (server_to_value (Presence (mkPresence "d" true ["a"] (u64_as_f64 5))))
  = Some (Presence (mkPresence "d" true ["a"] (u64_as_f64 5))).
Proof. apply server_message_roundtrip. vm_compute. reflexivity. Defined.

Lemma parse_push_register_inv v fid token p :
  parse_relay_client_message v = Some (PushRegister fid token p) → token_ok p token = true.
Proof.
  unfold parse_relay_client_message. intros H.
  repeat (match type of H with
    | (_ ≫= _) = Some _ => apply bind_Some in H as (? & ? & H)
    | (if token_ok ?a ?b then _ else _) = _ => destruct (token_ok a b) eqn:?
    | (if ?c then _ else _) = Some _ => destruct c
    end; try discriminate H).
  by simplify_eq.
Qed.

(** Only well-formed device tokens get past the parser: exactly 64 lowercase
    hex characters for iOS, at most 1024 bytes for Android. *)
Theorem push_register_token_format (v : Value) fid token p :
  parse_relay_client_message v = Some (PushRegister fid token p) →
  match p with
  | Ios => str_len token = 64 ∧ Forall (λ b, is_lower_hex b = true) (as_bytes token)
  | Android => str_len token ≤ 1024
  end.
Proof.
  intros H%parse_push_register_inv. destruct p; cbn in H.
  - apply andb_true_iff in H as [Hl%bool_decide_eq_true_1 Hh]. split; [done|].
    apply Forall_forall. intros b Hb. rewrite forallb_forall in Hh.
    apply Hh, list_elem_of_In, Hb.
  - by apply bool_decide_eq_true_1 in H.
Qed.

Lemma push_register_token_format_witness :
  str_len "abc" ≤ 1024.
Proof.
  apply (push_register_token_format (client_to_value (PushRegister "f" "abc" Android)) "f" "abc" Android).
  vm_compute. reflexivity.
Defined.
