(* ===== verification/Label.v ===== *)
(** * Label: names of pairings on the wire.
    [tp-proto/src/label.rs] (the tagged union and its forgiving decoders) and
    [tp-proto/src/control.rs] (the decrypted control messages that carry them). *)
From stdpp Require Import base list numbers strings.
From Stdlib.Floats Require Import SpecFloat.
From S2P Require Import Prelude Bytes Text Json Messages.

Inductive Label := Set_ (value : string) | Unset.
#[export] Instance Label_eq_dec : EqDecision Label.
Proof. solve_decision. Defined.

Definition label_unset : Label := Unset.

(** The manual [Serialize]: the union shape. *)
Definition Label_value (l : Label) : Value :=
  match l with
  | Set_ value => Object [("set", Bool true); ("value", Str value)]
  | Unset => Object [("set", Bool false)]
  end.

Definition make_label (raw : option string) : Label :=
  match raw with
  | None => Unset
  | Some s => let v := trim s in if decide (v = "") then Unset else Set_ v
  end.

Definition label_to_nullable (l : Label) : option string :=
  match l with Set_ value => Some value | Unset => None end.

Definition decode_wire_label (raw : Value) : Label :=
  match raw with
  | Null => Unset
  | Str s => make_label (Some s)
  | Object map =>
      match get map "set" with
      | Some (Bool false) => Unset
      | Some (Bool true) =>
          match get map "value" with
          | Some (Str v) => make_label (Some v)
          | _ => Unset
          end
      | _ => Unset
      end
  | _ => Unset
  end.

Definition decode_label_opt_field (v : option Value) : option Label := decode_wire_label <$> v.

Definition decode_kx_label_or_keep (raw : Value) : option Label :=
  match decode_wire_label raw with
  | Set_ value => Some (Set_ value)
  | Unset => None
  end.

(** ** Control messages *)

Inductive UnpairReason := UserInitiated | DeviceRemoved | Rotated.

Definition UnpairReason_from_str (s : string) : option UnpairReason :=
  if String.eqb s "user-initiated" then Some UserInitiated
  else if String.eqb s "device-removed" then Some DeviceRemoved
  else if String.eqb s "rotated" then Some Rotated else None.

(** The [#[serde(rename)]] names. *)
Definition UnpairReason_to_str (r : UnpairReason) : string :=
  match r with UserInitiated => "user-initiated" | DeviceRemoved => "device-removed" | Rotated => "rotated" end.

Inductive ControlMessage :=
| Unpair (daemon_id frontend_id : string) (reason : UnpairReason) (ts : f64)
| Rename (daemon_id frontend_id : string) (label : Label) (ts : f64).

Definition parse_control_message (raw : Value) : option ControlMessage :=
  let?o obj := as_object raw in
  let?o t := get obj "t" ≫= as_str in
  if String.eqb t "control.unpair" then
    let?o daemon_id := req_string obj "daemonId" in
    let?o frontend_id := req_string obj "frontendId" in
    let?o reason := (get obj "reason" ≫= as_str) ≫= UnpairReason_from_str in
    let?o ts := get obj "ts" ≫= is_number in
    Some (Unpair daemon_id frontend_id reason ts)
  else if String.eqb t "control.rename" then
    let?o daemon_id := req_string obj "daemonId" in
    let?o frontend_id := req_string obj "frontendId" in
    let?o ts := get obj "ts" ≫= is_number in
    let label := decode_wire_label (default Null (get obj "label")) in
    Some (Rename daemon_id frontend_id label ts)
  else None.

(** What the derived [Serialize] writes. *)
Definition control_to_value (m : ControlMessage) : Value :=
  Object
    match m with
    | Unpair d fid reason ts =>
        [("t", Str "control.unpair"); ("daemonId", Str d); ("frontendId", Str fid);
         ("reason", Str (UnpairReason_to_str reason)); ("ts", f64_value ts)]
    | Rename d fid label ts =>
        [("t", Str "control.rename"); ("daemonId", Str d); ("frontendId", Str fid);
         ("label", Label_value label); ("ts", f64_value ts)]
    end.

(** ** Facts *)

(** The invariant of the type: a set label is trimmed and not empty. *)
Definition canonical (l : Label) : bool :=
  match l with Set_ v => bool_decide (trim v = v) && bool_decide (v ≠ "") | Unset => true end.

Lemma make_label_canonical raw : canonical (make_label raw) = true.
Proof.
  destruct raw as [s|]; [|done]. unfold make_label. case_decide; [done|]. cbn.
  by rewrite trim_idemp, !bool_decide_true.
Qed.

Lemma make_label_of_canonical l : canonical l = true → make_label (label_to_nullable l) = l.
Proof.
  destruct l as [v|]; [|done]. cbn. intros [Ht%bool_decide_eq_true_1 Hn%bool_decide_eq_true_1]%andb_true_iff.
  by rewrite Ht, decide_False.
Qed.

Lemma decode_wire_label_canonical v : canonical (decode_wire_label v) = true.
Proof.
  destruct v as [| | |s| |map]; try done; [exact (make_label_canonical (Some s))|]. cbn.
  destruct (get map "set") as [[| [] | | | |]|]; try done.
  destruct (get map "value") as [[| | |s| |]|]; try done. exact (make_label_canonical (Some s)).
Qed.

Lemma decode_label_value l : canonical l = true → decode_wire_label (Label_value l) = l.
Proof. intros H. destruct l as [v|]; [|done]. exact (make_label_of_canonical (Set_ v) H). Qed.

(** C31. Labels have a normal form.  Every decoder is total and gives a label whose
    text is trimmed and not empty; writing such a label in the union shape, as
    a bare string of older peers, or through the store's nullable column reads
    back as itself; and the key-exchange decoder gives a label exactly when the
    wire names one, so [keep current] is never confused with [clear]. *)
Theorem label_normal_form v :
  let l := decode_wire_label v in
  canonical l = true ∧
  decode_wire_label (Label_value l) = l ∧
  decode_wire_label (from_option Str Null (label_to_nullable l)) = l ∧
  make_label (label_to_nullable l) = l ∧
  decode_label_opt_field (Some v) = Some l ∧
  decode_kx_label_or_keep v = match l with Set_ _ => Some l | Unset => None end.
Proof.
  intros l. pose proof (decode_wire_label_canonical v : canonical l = true) as H.
  pose proof (decode_label_value l H). pose proof (make_label_of_canonical l H) as Hm. split_and!; try done.
  - by destruct l.
  - unfold decode_kx_label_or_keep. fold l. by destruct l.
Qed.

Definition control_wf (m : ControlMessage) : bool :=
  match m with Unpair _ _ _ ts => f64_is_finite ts | Rename _ _ l ts => canonical l && f64_is_finite ts end.

(** The frontend and the daemon understand each other's control messages as
    they were meant. *)
Lemma control_message_roundtrip m :
  control_wf m = true → parse_control_message (control_to_value m) = Some m.
Proof.
  intros H. destruct m as [d f r ts|d f l ts]; cbn in H.
  - destruct r; cbn -[is_number f64_value]; by rewrite is_number_f64_value.
  - apply andb_true_iff in H as [Hl Ht]. cbn -[is_number f64_value decode_wire_label Label_value].
    rewrite is_number_f64_value by done. cbn -[decode_wire_label Label_value]. by rewrite decode_label_value.
Qed.
