(* ===== verification/Paths.v ===== *)
(** * Paths: session ids as file names, and the runtime directory.
    [tp-proto/src/socket_path.rs].  Strings are walked byte by byte: the code
    replaces whole characters, but every byte of a character outside ASCII is
    outside the allowlist, so one run of bytes stands for one run of characters. *)
From stdpp Require Import base list numbers strings.
From Stdlib Require Import Lia NArith Ascii.
From S2P Require Import Prelude Bytes Text.

Definition is_ascii_alphanumeric (c : ascii) : bool :=
  let v := N_of_ascii c in
  ((48 <=? v) && (v <=? 57) || (65 <=? v) && (v <=? 90) || (97 <=? v) && (v <=? 122))%N.

Definition is_sid_char (c : ascii) : bool :=
  is_ascii_alphanumeric c || bool_decide (c = "_"%char) || bool_decide (c = "-"%char).

Definition is_safe_sid (sid : string) : bool := bool_decide (sid ≠ "") && forallb is_sid_char (as_bytes sid).

Definition invalid_sid (sid : string) : string :=
  "invalid sid '" +:+ sid +:+ "': must match [A-Za-z0-9_-]+ (no path separator, '..', or empty)".

Definition assert_safe_sid (sid : string) : result unit string :=
  if is_safe_sid sid then Ok tt else Err (invalid_sid sid).

(** [s.ends_with('-')] on a text under construction. *)
Definition ends_dash (l : bytes) : bool := bool_decide (last l = Some "-"%char).

(** First pass: what is not allowed becomes a dash, unless one is there. *)
Definition clean_step (cleaned : bytes) (c : ascii) : bytes :=
  if is_sid_char c then cleaned ++ [c]
  else if negb (ends_dash cleaned) then cleaned ++ ["-"%char] else cleaned.

(** Second pass: runs of dashes. *)
Definition collapse_step (collapsed : bytes) (c : ascii) : bytes :=
  if bool_decide (c = "-"%char) && ends_dash collapsed then collapsed else collapsed ++ [c].

Fixpoint skip_dashes (l : bytes) : bytes :=
  match l with c :: r => if decide (c = "-"%char) then skip_dashes r else l | [] => [] end.

(** [s.trim_matches('-')] *)
Definition trim_dashes (l : bytes) : bytes := reverse (skip_dashes (reverse (skip_dashes l))).

Definition sanitize_for_sid (label : string) : string :=
  let cleaned := foldl clean_step [] (as_bytes label) in
  let collapsed := foldl collapse_step [] cleaned in
  let trimmed := trim_dashes collapsed in
  if decide (trimmed = []) then "wt" else str_of_bytes trimmed.

(** ** The runtime directory *)

(** What the file system answers. *)
Record FsEnv := mkFs {
  xdg_runtime_dir : option string;   (* the variable, when set and valid UTF-8 *)
  uid : N;
  is_dir : string → bool;
  create_dir : string → bool;        (* create_dir_all succeeds *)
  set_mode_0700 : string → bool
}.

Definition create_dir_0700 (fs : FsEnv) (dir : string) : result unit string :=
  if negb (create_dir fs dir) then Err dir else if negb (set_mode_0700 fs dir) then Err dir else Ok tt.

Definition resolve_runtime_dir (fs : FsEnv) : result string string :=
  let by_uid :=
    let systemd_dir := "/run/user/" +:+ print_dec (uid fs) in
    if is_dir fs systemd_dir then Ok systemd_dir
    else
      let fallback := "/tmp/teleprompter-" +:+ print_dec (uid fs) in
      let? _ := create_dir_0700 fs fallback in Ok fallback in
  match xdg_runtime_dir fs with
  | Some xdg => if decide (xdg = "") then by_uid
                else if create_dir fs xdg then Ok xdg else Err xdg
  | None => by_uid
  end.

(** [Path::join] of one relative component. *)
Definition path_join (dir name : string) : string :=
  match rsplit_once "/" dir with
  | Some (_, EmptyString) => dir +:+ name
  | _ => if String.eqb dir "" then name else dir +:+ "/" +:+ name
  end.

Definition socket_path (fs : FsEnv) : result string string :=
  let? dir := resolve_runtime_dir fs in Ok (path_join dir "daemon.sock").

(** ** Sanitised labels *)

(** No two dashes in a row. *)
Definition no_runs (l : bytes) : Prop := ∀ i, l !! i = Some "-"%char → l !! S i ≠ Some "-"%char.

Lemma clean_chars l acc :
  Forall is_sid_char acc → Forall is_sid_char (foldl clean_step acc l).
Proof.
  revert acc. induction l as [|c l IH]; intros acc Ha; [done|]. cbn. apply IH. unfold clean_step.
  destruct (is_sid_char c) eqn:E; [apply Forall_app; split; [done|]; constructor; [by rewrite E|done]|].
  destruct (negb _); [|done]. apply Forall_app. split; [done|]. by constructor.
Qed.

Lemma ends_dash_snoc l c : ends_dash (l ++ [c]) = bool_decide (c = "-"%char).
Proof. unfold ends_dash. rewrite last_snoc. apply bool_decide_ext. split; [by intros [= ->]|by intros ->]. Qed.

Lemma no_runs_snoc l c : no_runs l → (c = "-"%char → ends_dash l = false) → no_runs (l ++ [c]).
Proof.
  intros Hl Hc i Hi Hs. destruct (decide (S i < length l)) as [Hlt|Hge].
  - rewrite lookup_app_l in Hi by lia. rewrite lookup_app_l in Hs by lia. by apply (Hl i).
  - apply lookup_lt_Some in Hs as Hs'. rewrite length_app in Hs'. cbn in Hs'.
    assert (S i = length l) as Ei by lia. rewrite lookup_app_r, <-Ei, Nat.sub_diag in Hs by lia.
    rewrite lookup_app_l in Hi by lia. injection Hs as Hs. specialize (Hc Hs).
    unfold ends_dash in Hc. apply bool_decide_eq_false_1 in Hc. apply Hc. rewrite last_lookup, <-Ei. done.
Qed.

Lemma collapse_spec l acc :
  Forall is_sid_char acc → Forall is_sid_char l → no_runs acc →
  Forall is_sid_char (foldl collapse_step acc l) ∧ no_runs (foldl collapse_step acc l).
Proof.
  revert acc. induction l as [|c l IH]; intros acc Ha Hl Hr; [done|]. cbn. apply Forall_cons in Hl as [Hc Hl].
  unfold collapse_step at 2 4. case_bool_decide as E; cbn.
  - destruct (ends_dash acc) eqn:Ed; [by apply IH|].
    apply IH; [apply Forall_app; split; [done|by constructor]|done|by apply no_runs_snoc].
  - apply IH; [apply Forall_app; split; [done|by constructor]|done|by apply no_runs_snoc].
Qed.

Lemma skip_dashes_suffix l : ∃ p, l = p ++ skip_dashes l.
Proof.
  induction l as [|c l [p IH]]; [by exists []|]. cbn. case_decide; [|by exists []].
  exists (c :: p). cbn. by f_equal.
Qed.

Lemma skip_dashes_head l : head (skip_dashes l) ≠ Some "-"%char.
Proof. induction l as [|c l IH]; [done|]. cbn. case_decide; [done|]. cbn. congruence. Qed.

Lemma skip_dashes_id l : head l ≠ Some "-"%char → skip_dashes l = l.
Proof. destruct l as [|c l]; [done|]. cbn. intros H. by rewrite decide_False by congruence. Qed.

(** Trimming keeps a middle piece, with no dash at either end. *)
Lemma trim_dashes_piece l :
  (∃ p q, l = p ++ trim_dashes l ++ q) ∧ head (trim_dashes l) ≠ Some "-"%char ∧ last (trim_dashes l) ≠ Some "-"%char.
Proof.
  unfold trim_dashes. destruct (skip_dashes_suffix l) as [p Hp]. pose proof (skip_dashes_head l) as Hh.
  set (l1 := skip_dashes l) in *. destruct (skip_dashes_suffix (reverse l1)) as [q Hq]. pose proof (skip_dashes_head (reverse l1)) as Ht.
  set (l2 := skip_dashes (reverse l1)) in *.
  assert (l1 = reverse l2 ++ reverse q) as E by (rewrite <-reverse_app, <-Hq; by rewrite reverse_involutive).
  split_and!.
  - exists p, (reverse q). by rewrite <-E.
  - destruct (reverse l2) as [|c r]; [done|]. by rewrite E in Hh.
  - by rewrite <-head_reverse, reverse_involutive.
Qed.

Definition tidy (l : bytes) : Prop :=
  l ≠ [] ∧ Forall is_sid_char l ∧ no_runs l ∧ head l ≠ Some "-"%char ∧ last l ≠ Some "-"%char.

Lemma tidy_cleaned l acc : Forall is_sid_char l → foldl clean_step acc l = acc ++ l.
Proof.
  revert acc. induction l as [|c l IH]; intros acc H; [by rewrite app_nil_r|]. apply Forall_cons in H as [Hc H]. cbn.
  unfold clean_step at 2. destruct (is_sid_char c); [|done]. rewrite IH by done. by rewrite <-app_assoc.
Qed.

Lemma tidy_collapsed l acc : no_runs (acc ++ l) → foldl collapse_step acc l = acc ++ l.
Proof.
  revert acc. induction l as [|c l IH]; intros acc H; [by rewrite app_nil_r|]. cbn. unfold collapse_step at 2.
  assert (bool_decide (c = "-"%char) && ends_dash acc = false) as ->.
  { apply andb_false_iff. case_bool_decide as E; [right|by left]. unfold ends_dash. apply bool_decide_eq_false_2.
    rewrite last_lookup. intros Hl. apply (H (pred (length acc))).
    - by apply lookup_app_l_Some.
    - apply lookup_lt_Some in Hl as Hlt. rewrite lookup_app_r by lia. by replace (S (pred (length acc)) - length acc) with 0 by lia; subst. }
  rewrite IH; by rewrite <-app_assoc.
Qed.

(** A sanitised label is always a session id: allowed characters only, no run
    of dashes, none at the ends, never empty; and a label already of that form is
    left as it is, so sanitising twice is sanitising once. *)
Theorem sanitize_tidy label :
  let r := sanitize_for_sid label in
  assert_safe_sid r = Ok tt ∧ tidy (as_bytes r) ∧ (tidy (as_bytes label) → r = label) ∧ sanitize_for_sid r = r.
Proof.
  assert (∀ l, tidy (as_bytes l) → sanitize_for_sid l = l) as Hid.
  { intros l (Hn & Hc & Hr & Hh & Ht). unfold sanitize_for_sid. rewrite tidy_cleaned, tidy_collapsed by done. cbn [app].
    unfold trim_dashes. rewrite (skip_dashes_id (as_bytes l)), skip_dashes_id, reverse_involutive, decide_False, str_of_as_bytes;
      [done|done|by rewrite head_reverse|done]. }
  assert (tidy (as_bytes (sanitize_for_sid label))) as Ht.
  { unfold sanitize_for_sid. set (cleaned := foldl clean_step _ _). set (collapsed := foldl collapse_step _ _).
    destruct (collapse_spec cleaned []) as [Hc Hr]; [done|by apply clean_chars|done|]. fold collapsed in Hc, Hr.
    destruct (trim_dashes_piece collapsed) as ((p & q & E) & Hh & Hl). case_decide as Hd.
    - unfold tidy. cbn. split_and!; try done; [repeat constructor|]. intros [|[|?]]; done.
    - rewrite as_bytes_of_str. split_and!; try done.
      + rewrite E, !Forall_app in Hc. tauto.
      + intros i Hi Hs. apply (Hr (length p + i)); rewrite E.
        * rewrite lookup_app_r by lia. replace (length p + i - length p) with i by lia. by apply lookup_app_l_Some.
        * rewrite lookup_app_r by lia. replace (S (length p + i) - length p) with (S i) by lia. by apply lookup_app_l_Some. }
  cbv zeta. split_and!; try done; [|by apply Hid|by apply Hid].
  destruct Ht as (Hn & Hc & _). unfold assert_safe_sid, is_safe_sid. rewrite bool_decide_eq_true_2 by by intros E; rewrite E in Hn.
  assert (forallb is_sid_char (as_bytes (sanitize_for_sid label)) = true) as ->; [|done].
  apply forallb_forall. intros c Hin. rewrite Forall_forall in Hc. apply Is_true_true, Hc. by apply list_elem_of_In.
Qed.

(** A safe id names a file of the sessions directory: it has no separator. *)
Lemma safe_sid_no_slash s : is_safe_sid s = true → str_contains "/"%char s = false ∧ str_contains "."%char s = false.
Proof.
  unfold is_safe_sid. intros [_ H]%andb_prop. induction s as [|c s IH]; [done|]. cbn in H. apply andb_prop in H as [Hc H].
  destruct (IH H) as [H1 H2]. cbn. rewrite H1, H2. unfold is_sid_char in Hc.
  split; (destruct (decide _) as [<-|]; [done|]); done.
Qed.

Module Demo.
Example sanitize_branch : sanitize_for_sid "feat/foo" = "feat-foo" ∧ sanitize_for_sid "release-1.2" = "release-1-2"
  ∧ sanitize_for_sid "--" = "wt" ∧ sanitize_for_sid "a//b--c-" = "a-b-c".
Proof. vm_compute. done. Qed.
End Demo.
