(* ===== verification/Ipc.v ===== *)
(** * Ipc: the messages between daemon, runner and command line.
    [tp-proto/src/ipc.rs]: the 28 variants of the union, its zero-trust parser
    and what its derived serialiser writes.  The framing under it is [Codec]. *)
From stdpp Require Import base list numbers strings.
From Stdlib Require Import Lia NArith.
From Stdlib.Floats Require Import SpecFloat.
From S2P Require Import Prelude Bytes Text Json Messages Label.

(** ** The string enums *)

Inductive RecordKind := Io | Event | Meta.
Inductive Namespace := NsClaude | NsTp | NsRunner | NsDaemon.
Inductive IpcPairBeginErrReason := BeginAlreadyPending | BeginDaemonIdTaken | BeginRelayUnreachable | BeginInternal.
Inductive IpcPairErrorReason := PairRelayUnreachable | PairRelayClosed | PairKxDecryptFailed | PairInternal.
Inductive IpcPairRemoveErrReason := RemoveNotFound | RemoveInternal.
Inductive IpcPairRenameErrReason := RenameNotFound | RenameInternal.
Inductive IpcSessionDeleteErrReason := DeleteNotFound | DeleteInternal.
Inductive IpcSessionPruneErrReason := PruneInternal.
Inductive ByeReason := Signal | Exit.

Definition RecordKind_from_str (s : string) : option RecordKind :=
  if String.eqb s "io" then Some Io
  else if String.eqb s "event" then Some Event
  else if String.eqb s "meta" then Some Meta else None.
Definition IpcPairBeginErrReason_from_str (s : string) : option IpcPairBeginErrReason :=
  if String.eqb s "already-pending" then Some BeginAlreadyPending
  else if String.eqb s "daemon-id-taken" then Some BeginDaemonIdTaken
  else if String.eqb s "relay-unreachable" then Some BeginRelayUnreachable
  else if String.eqb s "internal" then Some BeginInternal else None.
Definition IpcPairErrorReason_from_str (s : string) : option IpcPairErrorReason :=
  if String.eqb s "relay-unreachable" then Some PairRelayUnreachable
  else if String.eqb s "relay-closed" then Some PairRelayClosed
  else if String.eqb s "kx-decrypt-failed" then Some PairKxDecryptFailed
  else if String.eqb s "internal" then Some PairInternal else None.
Definition IpcPairRemoveErrReason_from_str (s : string) : option IpcPairRemoveErrReason :=
  if String.eqb s "not-found" then Some RemoveNotFound
  else if String.eqb s "internal" then Some RemoveInternal else None.
Definition IpcPairRenameErrReason_from_str (s : string) : option IpcPairRenameErrReason :=
  if String.eqb s "not-found" then Some RenameNotFound
  else if String.eqb s "internal" then Some RenameInternal else None.
Definition IpcSessionDeleteErrReason_from_str (s : string) : option IpcSessionDeleteErrReason :=
  if String.eqb s "not-found" then Some DeleteNotFound
  else if String.eqb s "internal" then Some DeleteInternal else None.
Definition IpcSessionPruneErrReason_from_str (s : string) : option IpcSessionPruneErrReason :=
  if String.eqb s "internal" then Some PruneInternal else None.
Definition ByeReason_from_str (s : string) : option ByeReason :=
  if String.eqb s "signal" then Some Signal
  else if String.eqb s "exit" then Some Exit else None.

(** [Namespace::parse_opt]: absent, or one of the four names. *)
Definition Namespace_parse_opt (v : option Value) : option (option Namespace) :=
  match v with
  | None => Some None
  | Some (Str s) =>
      if String.eqb s "claude" then Some (Some NsClaude)
      else if String.eqb s "tp" then Some (Some NsTp)
      else if String.eqb s "runner" then Some (Some NsRunner)
      else if String.eqb s "daemon" then Some (Some NsDaemon) else None
  | Some _ => None
  end.

(** The [serde] names. *)
Definition RecordKind_to_str (x : RecordKind) : string :=
  match x with Io => "io" | Event => "event" | Meta => "meta" end.
Definition Namespace_to_str (x : Namespace) : string :=
  match x with NsClaude => "claude" | NsTp => "tp" | NsRunner => "runner" | NsDaemon => "daemon" end.
Definition IpcPairBeginErrReason_to_str (x : IpcPairBeginErrReason) : string :=
  match x with BeginAlreadyPending => "already-pending" | BeginDaemonIdTaken => "daemon-id-taken"
     | BeginRelayUnreachable => "relay-unreachable" | BeginInternal => "internal" end.
Definition IpcPairErrorReason_to_str (x : IpcPairErrorReason) : string :=
  match x with PairRelayUnreachable => "relay-unreachable" | PairRelayClosed => "relay-closed"
     | PairKxDecryptFailed => "kx-decrypt-failed" | PairInternal => "internal" end.
Definition IpcPairRemoveErrReason_to_str (x : IpcPairRemoveErrReason) : string :=
  match x with RemoveNotFound => "not-found" | RemoveInternal => "internal" end.
Definition IpcPairRenameErrReason_to_str (x : IpcPairRenameErrReason) : string :=
  match x with RenameNotFound => "not-found" | RenameInternal => "internal" end.
Definition IpcSessionDeleteErrReason_to_str (x : IpcSessionDeleteErrReason) : string :=
  match x with DeleteNotFound => "not-found" | DeleteInternal => "internal" end.
Definition IpcSessionPruneErrReason_to_str (x : IpcSessionPruneErrReason) : string :=
  match x with PruneInternal => "internal" end.
Definition ByeReason_to_str (x : ByeReason) : string :=
  match x with Signal => "signal" | Exit => "exit" end.

(** ** Fields with a shape of their own *)

Inductive AgeFilter := All | OlderThan (ms : N).

Definition parse_age_filter (v : option Value) : option AgeFilter :=
  let?o obj := v ≫= as_object in
  let?o kind := get obj "kind" ≫= as_str in
  if String.eqb kind "all" then Some All
  else if String.eqb kind "olderThan" then
    let?o ms := get obj "ms" ≫= Proto.is_non_negative_int in Some (OlderThan ms)
  else None.

Definition AgeFilter_value (a : AgeFilter) : Value :=
  Object
    match a with
    | All => [("kind", Str "all")]
    | OlderThan ms => [("kind", Str "olderThan"); ("ms", u64_value ms)]
    end.

(** A label field: rejected only when its type is outright wrong. *)
Definition parse_label_field (v : option Value) : option Label :=
  match v with
  | None | Some Null => Some (decode_wire_label Null)
  | Some (Str s) => Some (decode_wire_label (Str s))
  | Some (Object map) =>
      if bool_decide (is_Some (get map "set")) then Some (decode_wire_label (Object map)) else None
  | Some _ => None
  end.

Record DoctorRelayStatus := mkRelayStatus {
  rs_daemon_id : string;
  rs_relay_url : string;
  rs_connected : bool;
  rs_peer_count : N;
  rs_throttled : option bool
}.

(** One iteration of the loop of ["doctor.probe.ok"]. *)
Definition parse_relay_status (r : Value) : option DoctorRelayStatus :=
  let?o ro := as_object r in
  let?o daemon_id := req_string ro "daemonId" in
  let?o relay_url := req_string ro "relayUrl" in
  let?o connected := req_bool ro "connected" in
  let?o peer_count := get ro "peerCount" ≫= Proto.is_non_negative_int in
  let?o throttled := match get ro "throttled" with
                     | None => Some None
                     | Some (Bool b) => Some (Some b)
                     | Some _ => None
                     end in
  Some (mkRelayStatus daemon_id relay_url connected peer_count throttled).

Definition RelayStatus_value (r : DoctorRelayStatus) : Value :=
  Object ([("daemonId", Str (rs_daemon_id r)); ("relayUrl", Str (rs_relay_url r));
           ("connected", Bool (rs_connected r)); ("peerCount", u64_value (rs_peer_count r))]
          ++ opt_field "throttled" Bool (rs_throttled r)).

(** ** The union *)

Inductive IpcMessage :=
| Hello (sid : string) (cwd : string) (worktree_path : option string) (claude_version : option string) (pid : N)
| Rec (sid : string) (kind : RecordKind) (ts : f64) (ns : option Namespace) (name : option string) (payload : string)
| Bye (sid : string) (exit_code : f64) (pid : option N) (reason : option ByeReason)
| Ack (sid : string) (seq : N)
| Input (sid : string) (data : string)
| Resize (sid : string) (cols : N) (rows : N)
| PairBegin (relay_url : string) (daemon_id : option string) (label : option Label)
| PairBeginOk (pairing_id : string) (qr_string : string) (daemon_id : string)
| PairBeginErr (reason : IpcPairBeginErrReason) (message : option string)
| PairCancel (pairing_id : string)
| PairCompleted (pairing_id : string) (daemon_id : string) (label : Label)
| PairCancelled (pairing_id : string)
| PairError (pairing_id : string) (reason : IpcPairErrorReason) (message : option string)
| PairRemove (daemon_id : string)
| PairRemoveOk (daemon_id : string) (notified_peers : N)
| PairRemoveErr (daemon_id : string) (reason : IpcPairRemoveErrReason) (message : option string)
| PairRename (daemon_id : string) (label : Label)
| PairRenameOk (daemon_id : string) (label : Label) (notified_peers : N)
| PairRenameErr (daemon_id : string) (reason : IpcPairRenameErrReason) (message : option string)
| SessionDelete (sid : string)
| SessionDeleteOk (sid : string) (was_running : bool)
| SessionDeleteErr (sid : string) (reason : IpcSessionDeleteErrReason) (message : option string)
| SessionPrune (age : AgeFilter) (include_running : bool) (dry_run : bool)
| SessionPruneOk (sids : list string) (running_killed : N) (dry_run : bool)
| SessionPruneErr (reason : IpcSessionPruneErrReason) (message : option string) (partial_sids : list string)
   (partial_running_killed : N)
| DoctorProbe
| DoctorProbeOk (relays : list DoctorRelayStatus).

Definition parse_ipc_message (raw : Value) : option IpcMessage :=
  let?o obj := as_object raw in
  let?o t := get obj "t" ≫= as_str in
  if String.eqb t "hello" then
    let?o sid := req_string obj "sid" in
    let?o cwd := req_string obj "cwd" in
    let?o pid := get obj "pid" ≫= Proto.is_positive_int in
    let?o worktree_path := opt_string obj "worktreePath" in
    let?o claude_version := opt_string obj "claudeVersion" in
    Some (Hello sid cwd worktree_path claude_version pid)
  else if String.eqb t "rec" then
    let?o sid := req_string obj "sid" in
    let?o kind := (get obj "kind" ≫= as_str) ≫= RecordKind_from_str in
    let?o ts := get obj "ts" ≫= is_number in
    let?o payload := req_string obj "payload" in
    let?o ns := Namespace_parse_opt (get obj "ns") in
    let?o name := opt_string obj "name" in
    Some (Rec sid kind ts ns name payload)
  else if String.eqb t "bye" then
    let?o sid := req_string obj "sid" in
    let?o exit_code := get obj "exitCode" ≫= is_number in
    let?o pid := match get obj "pid" with None => Some None | Some v => Some <$> Proto.is_positive_int v end in
    let?o reason := match get obj "reason" with None => Some None
       | Some v => Some <$> (as_str v ≫= ByeReason_from_str) end in
    Some (Bye sid exit_code pid reason)
  else if String.eqb t "ack" then
    let?o sid := req_string obj "sid" in
    let?o seq := get obj "seq" ≫= Proto.is_non_negative_int in
    Some (Ack sid seq)
  else if String.eqb t "input" then
    let?o sid := req_string obj "sid" in
    let?o data := req_string obj "data" in
    Some (Input sid data)
  else if String.eqb t "resize" then
    let?o sid := req_string obj "sid" in
    let?o cols := get obj "cols" ≫= Proto.is_terminal_dimension in
    let?o rows := get obj "rows" ≫= Proto.is_terminal_dimension in
    Some (Resize sid cols rows)
  else if String.eqb t "pair.begin" then
    let?o relay_url := req_string obj "relayUrl" in
    let?o daemon_id := opt_string obj "daemonId" in
    let?o label := match get obj "label" with None => Some None | Some v => Some <$> parse_label_field (Some v) end in
    Some (PairBegin relay_url daemon_id label)
  else if String.eqb t "pair.begin.ok" then
    let?o pairing_id := req_string obj "pairingId" in
    let?o qr_string := req_string obj "qrString" in
    let?o daemon_id := req_string obj "daemonId" in
    Some (PairBeginOk pairing_id qr_string daemon_id)
  else if String.eqb t "pair.begin.err" then
    let?o reason := (get obj "reason" ≫= as_str) ≫= IpcPairBeginErrReason_from_str in
    let?o message := opt_string obj "message" in
    Some (PairBeginErr reason message)
  else if String.eqb t "pair.cancel" then
    let?o pairing_id := req_string obj "pairingId" in
    Some (PairCancel pairing_id)
  else if String.eqb t "pair.completed" then
    let?o pairing_id := req_string obj "pairingId" in
    let?o daemon_id := req_string obj "daemonId" in
    let?o label := parse_label_field (get obj "label") in
    Some (PairCompleted pairing_id daemon_id label)
  else if String.eqb t "pair.cancelled" then
    let?o pairing_id := req_string obj "pairingId" in
    Some (PairCancelled pairing_id)
  else if String.eqb t "pair.error" then
    let?o pairing_id := req_string obj "pairingId" in
    let?o reason := (get obj "reason" ≫= as_str) ≫= IpcPairErrorReason_from_str in
    let?o message := opt_string obj "message" in
    Some (PairError pairing_id reason message)
  else if String.eqb t "pair.remove" then
    let?o daemon_id := req_string obj "daemonId" in
    Some (PairRemove daemon_id)
  else if String.eqb t "pair.remove.ok" then
    let?o daemon_id := req_string obj "daemonId" in
    let?o notified_peers := get obj "notifiedPeers" ≫= Proto.is_non_negative_int in
    Some (PairRemoveOk daemon_id notified_peers)
  else if String.eqb t "pair.remove.err" then
    let?o daemon_id := req_string obj "daemonId" in
    let?o reason := (get obj "reason" ≫= as_str) ≫= IpcPairRemoveErrReason_from_str in
    let?o message := opt_string obj "message" in
    Some (PairRemoveErr daemon_id reason message)
  else if String.eqb t "pair.rename" then
    let?o daemon_id := req_string obj "daemonId" in
    let?o label := parse_label_field (get obj "label") in
    Some (PairRename daemon_id label)
  else if String.eqb t "pair.rename.ok" then
    let?o daemon_id := req_string obj "daemonId" in
    let?o label := parse_label_field (get obj "label") in
    let?o notified_peers := get obj "notifiedPeers" ≫= Proto.is_non_negative_int in
    Some (PairRenameOk daemon_id label notified_peers)
  else if String.eqb t "pair.rename.err" then
    let?o daemon_id := req_string obj "daemonId" in
    let?o reason := (get obj "reason" ≫= as_str) ≫= IpcPairRenameErrReason_from_str in
    let?o message := opt_string obj "message" in
    Some (PairRenameErr daemon_id reason message)
  else if String.eqb t "session.delete" then
    let?o sid := req_string obj "sid" in
    Some (SessionDelete sid)
  else if String.eqb t "session.delete.ok" then
    let?o sid := req_string obj "sid" in
    let?o was_running := req_bool obj "wasRunning" in
    Some (SessionDeleteOk sid was_running)
  else if String.eqb t "session.delete.err" then
    let?o sid := req_string obj "sid" in
    let?o reason := (get obj "reason" ≫= as_str) ≫= IpcSessionDeleteErrReason_from_str in
    let?o message := opt_string obj "message" in
    Some (SessionDeleteErr sid reason message)
  else if String.eqb t "session.prune" then
    let?o age := parse_age_filter (get obj "age") in
    let?o include_running := req_bool obj "includeRunning" in
    let?o dry_run := req_bool obj "dryRun" in
    Some (SessionPrune age include_running dry_run)
  else if String.eqb t "session.prune.ok" then
    let?o sids := get obj "sids" ≫= as_string_array in
    let?o running_killed := get obj "runningKilled" ≫= Proto.is_non_negative_int in
    let?o dry_run := req_bool obj "dryRun" in
    Some (SessionPruneOk sids running_killed dry_run)
  else if String.eqb t "session.prune.err" then
    let?o reason := (get obj "reason" ≫= as_str) ≫= IpcSessionPruneErrReason_from_str in
    let?o message := opt_string obj "message" in
    let?o partial_sids := get obj "partialSids" ≫= as_string_array in
    let?o partial_running_killed := get obj "partialRunningKilled" ≫= Proto.is_non_negative_int in
    Some (SessionPruneErr reason message partial_sids partial_running_killed)
  else if String.eqb t "doctor.probe" then
    Some DoctorProbe
  else if String.eqb t "doctor.probe.ok" then
    let?o relays := (get obj "relays" ≫= as_array) ≫= mapM parse_relay_status in
    Some (DoctorProbeOk relays)
  else None.

(** ** What the derived [Serialize] writes *)

Definition ipc_to_value (m : IpcMessage) : Value :=
  Object
    match m with
    | Hello sid cwd worktree_path claude_version pid =>
        [("t", Str "hello"); ("sid", Str sid); ("cwd", Str cwd)]
        ++ opt_field "worktreePath" Str worktree_path
        ++ opt_field "claudeVersion" Str claude_version
        ++ [("pid", u64_value pid)]
    | Rec sid kind ts ns name payload =>
        [("t", Str "rec"); ("sid", Str sid); ("kind", Str (RecordKind_to_str kind)); ("ts", f64_value ts)]
        ++ opt_field "ns" (λ n, Str (Namespace_to_str n)) ns
        ++ opt_field "name" Str name
        ++ [("payload", Str payload)]
    | Bye sid exit_code pid reason =>
        [("t", Str "bye"); ("sid", Str sid); ("exitCode", f64_value exit_code)]
        ++ opt_field "pid" u64_value pid
        ++ opt_field "reason" (λ r, Str (ByeReason_to_str r)) reason
    | Ack sid seq =>
        [("t", Str "ack"); ("sid", Str sid); ("seq", u64_value seq)]
    | Input sid data =>
        [("t", Str "input"); ("sid", Str sid); ("data", Str data)]
    | Resize sid cols rows =>
        [("t", Str "resize"); ("sid", Str sid); ("cols", u64_value cols); ("rows", u64_value rows)]
    | PairBegin relay_url daemon_id label =>
        [("t", Str "pair.begin"); ("relayUrl", Str relay_url)]
        ++ opt_field "daemonId" Str daemon_id
        ++ opt_field "label" Label_value label
    | PairBeginOk pairing_id qr_string daemon_id =>
        [("t", Str "pair.begin.ok"); ("pairingId", Str pairing_id); ("qrString", Str qr_string);
           ("daemonId", Str daemon_id)]
    | PairBeginErr reason message =>
        [("t", Str "pair.begin.err"); ("reason", Str (IpcPairBeginErrReason_to_str reason))]
        ++ opt_field "message" Str message
    | PairCancel pairing_id =>
        [("t", Str "pair.cancel"); ("pairingId", Str pairing_id)]
    | PairCompleted pairing_id daemon_id label =>
        [("t", Str "pair.completed"); ("pairingId", Str pairing_id); ("daemonId", Str daemon_id);
           ("label", Label_value label)]
    | PairCancelled pairing_id =>
        [("t", Str "pair.cancelled"); ("pairingId", Str pairing_id)]
    | PairError pairing_id reason message =>
        [("t", Str "pair.error"); ("pairingId", Str pairing_id); ("reason", Str (IpcPairErrorReason_to_str reason))]
        ++ opt_field "message" Str message
    | PairRemove daemon_id =>
        [("t", Str "pair.remove"); ("daemonId", Str daemon_id)]
    | PairRemoveOk daemon_id notified_peers =>
        [("t", Str "pair.remove.ok"); ("daemonId", Str daemon_id); ("notifiedPeers", u64_value notified_peers)]
    | PairRemoveErr daemon_id reason message =>
        [("t", Str "pair.remove.err"); ("daemonId", Str daemon_id);
           ("reason", Str (IpcPairRemoveErrReason_to_str reason))]
        ++ opt_field "message" Str message
    | PairRename daemon_id label =>
        [("t", Str "pair.rename"); ("daemonId", Str daemon_id); ("label", Label_value label)]
    | PairRenameOk daemon_id label notified_peers =>
        [("t", Str "pair.rename.ok"); ("daemonId", Str daemon_id); ("label", Label_value label);
           ("notifiedPeers", u64_value notified_peers)]
    | PairRenameErr daemon_id reason message =>
        [("t", Str "pair.rename.err"); ("daemonId", Str daemon_id);
           ("reason", Str (IpcPairRenameErrReason_to_str reason))]
        ++ opt_field "message" Str message
    | SessionDelete sid =>
        [("t", Str "session.delete"); ("sid", Str sid)]
    | SessionDeleteOk sid was_running =>
        [("t", Str "session.delete.ok"); ("sid", Str sid); ("wasRunning", Bool was_running)]
    | SessionDeleteErr sid reason message =>
        [("t", Str "session.delete.err"); ("sid", Str sid); ("reason", Str (IpcSessionDeleteErrReason_to_str reason))]
        ++ opt_field "message" Str message
    | SessionPrune age include_running dry_run =>
        [("t", Str "session.prune"); ("age", AgeFilter_value age); ("includeRunning", Bool include_running);
           ("dryRun", Bool dry_run)]
    | SessionPruneOk sids running_killed dry_run =>
        [("t", Str "session.prune.ok"); ("sids", Array (map Str sids));
           ("runningKilled", u64_value running_killed); ("dryRun", Bool dry_run)]
    | SessionPruneErr reason message partial_sids partial_running_killed =>
        [("t", Str "session.prune.err"); ("reason", Str (IpcSessionPruneErrReason_to_str reason))]
        ++ opt_field "message" Str message
        ++ [("partialSids", Array (map Str partial_sids)); ("partialRunningKilled", u64_value partial_running_killed)]
    | DoctorProbe =>
        [("t", Str "doctor.probe")]
    | DoctorProbeOk relays =>
        [("t", Str "doctor.probe.ok"); ("relays", Array (map RelayStatus_value relays))]
    end.

(** ** The accepted messages *)

(** What a message the parser lets through satisfies. *)
Definition dimension_ok (n : N) : bool := bool_decide (0 < n)%N && bool_decide (n ≤ Proto.MAX_TERMINAL_DIMENSION)%N.
Definition ipc_wf (m : IpcMessage) : bool :=
  match m with
  | Hello _ _ _ _ pid => bool_decide (0 < pid)%N
  | Rec _ _ ts _ _ _ => f64_is_finite ts
  | Bye _ exit_code pid _ => f64_is_finite exit_code && from_option (λ p, bool_decide (0 < p)%N) true pid
  | Resize _ cols rows => dimension_ok cols && dimension_ok rows
  | PairBegin _ _ label => from_option canonical true label
  | PairCompleted _ _ label | PairRename _ label | PairRenameOk _ label _ => canonical label
  | _ => true
  end.

Lemma non_negative_u64 n : Proto.is_non_negative_int (u64_value n) = Some n.
Proof. reflexivity. Qed.

Lemma positive_u64 n : bool_decide (0 < n)%N = true → Proto.is_positive_int (u64_value n) = Some n.
Proof. intros H%bool_decide_eq_true_1. unfold Proto.is_positive_int. cbn. by rewrite decide_True. Qed.

Lemma dimension_u64 n : dimension_ok n = true → Proto.is_terminal_dimension (u64_value n) = Some n.
Proof.
  intros [H1 H2%bool_decide_eq_true_1]%andb_true_iff. unfold Proto.is_terminal_dimension.
  rewrite positive_u64 by done. cbn. by rewrite decide_True.
Qed.

Lemma label_field_value l : canonical l = true → parse_label_field (Some (Label_value l)) = Some l.
Proof. intros H. destruct l; [|done]. cbn -[decode_wire_label]. f_equal. exact (decode_label_value (Set_ value) H). Qed.

Lemma relay_statuses_map l : mapM parse_relay_status (map RelayStatus_value l) = Some l.
Proof. apply mapM_Some. induction l as [|[d u c p [b|]] l IH]; constructor; done. Qed.

#[export] Hint Rewrite non_negative_u64 positive_u64 dimension_u64 label_field_value relay_statuses_map
  using assumption : tpr.

Lemma ipc_roundtrip m : ipc_wf m = true → parse_ipc_message (ipc_to_value m) = Some m.
Proof.
  intros H. destruct m; cbn in H; repeat match goal with
    | x : RecordKind |- _ => destruct x | x : option Namespace |- _ => destruct x as [[]|]
    | x : option ByeReason |- _ => destruct x as [[]|] | x : option _ |- _ => destruct x
    | x : AgeFilter |- _ => destruct x
    | x : IpcPairBeginErrReason |- _ => destruct x | x : IpcPairErrorReason |- _ => destruct x
    | x : IpcPairRemoveErrReason |- _ => destruct x | x : IpcPairRenameErrReason |- _ => destruct x
    | x : IpcSessionDeleteErrReason |- _ => destruct x | x : IpcSessionPruneErrReason |- _ => destruct x
    end; cbn in H; try (apply andb_true_iff in H as [? ?]);
  cbn -[is_number f64_value u64_value Label_value as_string_array parse_label_field parse_relay_status
        Proto.is_positive_int Proto.is_terminal_dimension Proto.is_non_negative_int];
  autorewrite with tpr; cbn -[parse_relay_status parse_label_field Label_value]; autorewrite with tpr; reflexivity.
Qed.

Lemma parse_positive v n : Proto.is_positive_int v = Some n → bool_decide (0 < n)%N = true.
Proof.
  unfold Proto.is_positive_int. destruct (Proto.is_non_negative_int v); cbn; [|done].
  case_decide; [|done]. intros [= <-]. by apply bool_decide_eq_true_2.
Qed.

Lemma parse_dimension v n : Proto.is_terminal_dimension v = Some n → dimension_ok n = true.
Proof.
  unfold Proto.is_terminal_dimension. intros (m & Hm%parse_positive & H)%bind_Some. unfold dimension_ok.
  case_decide; [|done]. injection H as <-. rewrite Hm. by apply bool_decide_eq_true_2.
Qed.

Lemma parse_number v f : is_number v = Some f → f64_is_finite f = true.
Proof.
  unfold is_number. intros (g & _ & H)%bind_Some. destruct (f64_is_finite g) eqn:E; [|done]. by injection H as <-.
Qed.

Lemma parse_label v l : parse_label_field v = Some l → canonical l = true.
Proof.
  unfold parse_label_field. destruct v as [v|]; [|by intros [= <-]].
  intros H. assert (l = decode_wire_label v) as ->; [|apply decode_wire_label_canonical].
  destruct v; try case_bool_decide; try done; by injection H as <-.
Qed.

Lemma parse_ipc_wf v m : parse_ipc_message v = Some m → ipc_wf m = true.
Proof.
  unfold parse_ipc_message. intros H.
  repeat (match type of H with
    | (_ ≫= _) = Some _ => apply bind_Some in H as (? & ? & H)
    | (if ?c then _ else _) = Some _ => destruct c
    end; try discriminate H); injection H as <-; cbn; try reflexivity;
  repeat match goal with
    | H : match ?o with None => Some None | Some _ => _ end = Some _ |- _ =>
        destruct o; [apply fmap_Some in H as (? & ? & ->)|injection H as <-]; cbn
    | H : get _ _ ≫= _ = Some _ |- _ => apply bind_Some in H as (? & ? & H)
    end;
  rewrite ?andb_true_iff; repeat split;
  eauto using parse_positive, parse_dimension, parse_number, parse_label.
Qed.

(** C29. The messages between daemon, runner and command line that get through
    the parser are exactly the well-formed ones: finite numbers, positive process
    ids, terminal dimensions the kernel keeps whole, canonical labels; and each
    of them, of all variants, is read by the receiver exactly as the sender
    wrote it. *)
Theorem ipc_messages m :
  ((∃ v, parse_ipc_message v = Some m) ↔ ipc_wf m = true) ∧
  (ipc_wf m = true → parse_ipc_message (ipc_to_value m) = Some m).
Proof.
  split; [split|apply ipc_roundtrip]; [intros [v Hv]; by apply (parse_ipc_wf v)|].
  intros H. eexists. by apply ipc_roundtrip.
Qed.

Lemma ipc_messages_witness :
  parse_ipc_message (ipc_to_value (PairRenameOk "d" (Set_ "Office Mac") 2))
  = Some (PairRenameOk "d" (Set_ "Office Mac") 2).
Proof. apply ipc_messages. vm_compute. reflexivity. Defined.
