(* ===== verification/Ring.v ===== *)
(** * Ring: the recent-frame replay cache of [rust/tp-relay/src/ring.rs].
    Frames are immutable behind [Arc], so a shared frame is its value. *)
From stdpp Require Import base list numbers strings gmap fin_maps fin_map_dom.
From Stdlib Require Import Lia NArith.
From S2P Require Import Prelude Messages.

Definition DEFAULT_CACHE_SIZE : nat := 10.
Definition DEFAULT_MAX_RECENT_FRAME_KEYS_PER_DAEMON : nat := 256.

Record RecentFrames := mkRecent {
  buffers : gmap string (list Frame);
  cache_size : nat;
  max_keys_per_daemon : nat;
  key_insertion_order : list string
}.

Definition with_cache_and_key_cap (cache_size max_keys : nat) : RecentFrames :=
  mkRecent ∅ cache_size max_keys [].
Definition with_cache_size (cache_size : nat) : RecentFrames :=
  with_cache_and_key_cap cache_size DEFAULT_MAX_RECENT_FRAME_KEYS_PER_DAEMON.

(** [format!("{daemon_id}:")] and [RecentFrames::key]. *)
Definition key_prefix (daemon_id : string) : string := daemon_id +:+ ":".
Definition key (daemon_id sid : string) : string := daemon_id +:+ ":" +:+ sid.

(** The eviction [while] loop of [push]: cursor [i] over the insertion log. *)
Fixpoint evict_loop (fuel : nat) (prefix : string) (evict_count i : nat)
    (order : list string) (bufs : gmap string (list Frame))
  : list string * gmap string (list Frame) :=
  match fuel with
  | O => (order, bufs)
  | S fuel =>
    if decide (0 < evict_count ∧ i < length order) then
      match order !! i with
      | Some old_key =>
          if starts_with prefix old_key
          then evict_loop fuel prefix (evict_count - 1) i (delete i order) (delete old_key bufs)
          else evict_loop fuel prefix evict_count (S i) order bufs
      | None => (order, bufs)
      end
    else (order, bufs)
  end.

(** [while ring.len() > self.cache_size { ring.pop_front(); }] *)
Fixpoint trim (cap : nat) (ring : list Frame) : list Frame :=
  match ring with
  | [] => []
  | _ :: rest => if decide (cap < length ring) then trim cap rest else ring
  end.

(** [buffers.keys().filter(|k| k.starts_with(&prefix)).count()] *)
Definition daemon_key_count (bufs : gmap string (list Frame)) (prefix : string) : nat :=
  length (filter (λ k, starts_with prefix k = true) (elements (dom bufs))).

Definition push (self : RecentFrames) (daemon_id : string) (frame : Frame) : RecentFrames :=
  let k := key daemon_id (f_sid frame) in
  let is_new := bool_decide (buffers self !! k = None) in
  let '(order, bufs) :=
    if is_new && bool_decide (0 < max_keys_per_daemon self) then
      let prefix := key_prefix daemon_id in
      let count := daemon_key_count (buffers self) prefix in
      let '(order, bufs) :=
        if decide (max_keys_per_daemon self ≤ count)
        then evict_loop (length (key_insertion_order self)) prefix
               (count + 1 - max_keys_per_daemon self) 0 (key_insertion_order self) (buffers self)
        else (key_insertion_order self, buffers self) in
      (order ++ [k], bufs)
    else (key_insertion_order self, buffers self) in
  let ring := default [] (bufs !! k) ++ [frame] in
  mkRecent (<[k := trim (cache_size self) ring]> bufs) (cache_size self)
    (max_keys_per_daemon self) order.

Definition replay_after (self : RecentFrames) (daemon_id sid : string) (after : N) : list Frame :=
  match buffers self !! key daemon_id sid with
  | None => []
  | Some ring => filter (λ f, after < f_seq f)%N ring
  end.

Definition purge_daemon (self : RecentFrames) (daemon_id : string) : RecentFrames :=
  let prefix := key_prefix daemon_id in
  mkRecent (filter (λ '(k, _), starts_with prefix k = false) (buffers self))
    (cache_size self) (max_keys_per_daemon self)
    (filter (λ k, starts_with prefix k = false) (key_insertion_order self)).

Definition key_count (self : RecentFrames) : nat := size (buffers self).

(** ** The eviction loop is a one-pass partition *)

Fixpoint evict_ref (prefix : string) (n : nat) (order : list string) : list string * list string :=
  match order with
  | [] => ([], [])
  | k :: rest =>
      if decide (0 < n ∧ starts_with prefix k = true)
      then let '(kept, out) := evict_ref prefix (n - 1) rest in (kept, k :: out)
      else let '(kept, out) := evict_ref prefix n rest in (k :: kept, out)
  end.

Definition delete_all (ks : list string) (m : gmap string (list Frame)) : gmap string (list Frame) :=
  foldl (λ m k, delete k m) m ks.

Lemma evict_ref_0 p l : evict_ref p 0 l = (l, []).
Proof. induction l as [|k l IH]; [done|]. cbn. rewrite decide_False by lia. by rewrite IH. Qed.

Lemma evict_loop_ref fuel p n pre suf bufs :
  length suf ≤ fuel →
  evict_loop fuel p n (length pre) (pre ++ suf) bufs
  = (pre ++ (evict_ref p n suf).1, delete_all (evict_ref p n suf).2 bufs).
Proof.
  revert n pre suf bufs. induction fuel as [|fuel IH]; intros n pre suf bufs Hf.
  { destruct suf; cbn in *; [done|lia]. }
  cbn [evict_loop]. rewrite length_app. destruct suf as [|k suf].
  { cbn. rewrite decide_False by lia. done. }
  destruct (decide (0 < n)) as [Hn|Hn].
  2:{ rewrite decide_False by lia. assert (n = 0) as -> by lia. by rewrite evict_ref_0. }
  rewrite decide_True by (cbn; lia). rewrite list_lookup_middle by done. cbn [evict_ref].
  destruct (starts_with p k) eqn:Es.
  - rewrite (decide_True (P := 0 < n ∧ _)) by done.
    replace (delete (length pre) (pre ++ k :: suf)) with (pre ++ suf)
      by (symmetry; by apply delete_middle).
    rewrite IH by (cbn in *; lia). by destruct (evict_ref p (n - 1) suf).
  - rewrite (decide_False (P := 0 < n ∧ _)) by (intros [? ?]; congruence).
    replace (pre ++ k :: suf) with ((pre ++ [k]) ++ suf) by (by rewrite <-app_assoc).
    replace (S (length pre)) with (length (pre ++ [k])) by (rewrite length_app; cbn; lia).
    rewrite IH by (cbn in *; lia). destruct (evict_ref p n suf); cbn. by rewrite <-app_assoc.
Qed.

Lemma trim_lastn cap l : trim cap l = lastn cap l.
Proof.
  induction l as [|x l IH]; [done|]. cbn [trim]. case_decide as H.
  - rewrite IH. unfold lastn. cbn [length] in *.
    by replace (S (length l) - cap) with (S (length l - cap)) by lia.
  - symmetry. apply lastn_all. lia.
Qed.

Lemma delete_all_lookup ks m k :
  delete_all ks m !! k = if decide (k ∈ ks) then None else m !! k.
Proof.
  unfold delete_all. revert m. induction ks as [|x ks IH]; intros m; cbn [foldl].
  { by rewrite decide_False by apply not_elem_of_nil. }
  rewrite IH. destruct (decide (k = x)) as [->|Hne].
  - rewrite lookup_delete_eq. rewrite (decide_True (P := x ∈ x :: ks)) by left. by case_decide.
  - rewrite lookup_delete_ne by done. do 2 case_decide; try done; exfalso; set_solver.
Qed.

Lemma evict_ref_perm p n l : l ≡ₚ (evict_ref p n l).1 ++ (evict_ref p n l).2.
Proof.
  revert n. induction l as [|k l IH]; intros n; [done|]. cbn. case_decide.
  - specialize (IH (n - 1)). destruct (evict_ref p (n - 1) l) as [a b]; cbn in *.
    rewrite IH at 1. by rewrite Permutation_middle.
  - specialize (IH n). destruct (evict_ref p n l) as [a b]; cbn in *. by rewrite IH at 1.
Qed.

Lemma evict_ref_prefix p n l k : k ∈ (evict_ref p n l).2 → starts_with p k = true.
Proof.
  revert n. induction l as [|k' l IH]; intros n; cbn; [by intros ?%not_elem_of_nil|].
  case_decide as H.
  - specialize (IH (n - 1)). destruct (evict_ref p (n - 1) l); cbn in *.
    intros [->|?]%elem_of_cons; [by destruct H|auto].
  - specialize (IH n). destruct (evict_ref p n l); cbn in *. auto.
Qed.

Lemma evict_ref_count p n l :
  length (filter (λ k, starts_with p k = true) (evict_ref p n l).1)
  = length (filter (λ k, starts_with p k = true) l) - n.
Proof.
  revert n. induction l as [|k l IH]; intros n; [done|]. cbn [evict_ref].
  destruct (decide (0 < n ∧ starts_with p k = true)) as [[Hn Hk]|H].
  - specialize (IH (n - 1)). destruct (evict_ref p (n - 1) l); cbn [fst] in *.
    rewrite IH, filter_cons_True by done. cbn. lia.
  - specialize (IH n). destruct (evict_ref p n l); cbn [fst] in *.
    destruct (decide (starts_with p k = true)) as [Hk|Hk].
    + rewrite !filter_cons_True by done. cbn. destruct n as [|n]; [|destruct H; split; [lia|done]].
      rewrite IH. lia.
    + rewrite !filter_cons_False by done. done.
Qed.

(** ** The invariant *)

Record wf (r : RecentFrames) : Prop := {
  wf_nodup : NoDup (key_insertion_order r);
  wf_order : 0 < max_keys_per_daemon r →
    ∀ k, k ∈ key_insertion_order r ↔ is_Some (buffers r !! k);
  wf_off : max_keys_per_daemon r = 0 → key_insertion_order r = [];
  wf_len : map_Forall (λ _ ring, length ring ≤ cache_size r) (buffers r)
}.

Lemma wf_init c m : wf (with_cache_and_key_cap c m).
Proof.
  split; cbn; [constructor| |done|apply map_Forall_empty].
  intros _ k. rewrite lookup_empty. split; [by intros ?%not_elem_of_nil|by intros []].
Qed.

Lemma wf_keys_perm r : wf r → 0 < max_keys_per_daemon r →
  elements (dom (buffers r)) ≡ₚ key_insertion_order r.
Proof.
  intros W Hm. apply NoDup_Permutation; [apply NoDup_elements|by apply wf_nodup|].
  intros k. rewrite elem_of_elements, elem_of_dom. symmetry. by apply wf_order.
Qed.

Lemma wf_key_count r p : wf r → 0 < max_keys_per_daemon r →
  daemon_key_count (buffers r) p
  = length (filter (λ k, starts_with p k = true) (key_insertion_order r)).
Proof. intros W Hm. unfold daemon_key_count. by rewrite wf_keys_perm. Qed.

(** What one push does, with the loops replaced by their meaning. [ev] is the
    list of evicted keys. *)
Definition evicted (r : RecentFrames) (daemon_id : string) (frame : Frame) : list string :=
  let count := daemon_key_count (buffers r) (key_prefix daemon_id) in
  if bool_decide (buffers r !! key daemon_id (f_sid frame) = None)
     && bool_decide (0 < max_keys_per_daemon r) && bool_decide (max_keys_per_daemon r ≤ count)
  then (evict_ref (key_prefix daemon_id) (count + 1 - max_keys_per_daemon r)
          (key_insertion_order r)).2
  else [].

Lemma push_buffers r d f :
  buffers (push r d f)
  = <[key d (f_sid f) := lastn (cache_size r) (default [] (buffers r !! key d (f_sid f)) ++ [f])]>
      (delete_all (evicted r d f) (buffers r)).
Proof.
  unfold push, evicted.
  case_bool_decide as Hnew; cbn [andb]; [|by cbn; rewrite trim_lastn].
  case_bool_decide as Hm; cbn [andb]; [|by cbn; rewrite trim_lastn].
  case_decide as Hc; cbn [buffers];
    [rewrite (bool_decide_eq_true_2 _ Hc)|rewrite (bool_decide_eq_false_2 _ Hc)].
  - rewrite (evict_loop_ref _ _ _ [] (key_insertion_order r) (buffers r)) by done.
    cbn [buffers app]. rewrite trim_lastn, Hnew, delete_all_lookup, Hnew. by case_decide.
  - by rewrite trim_lastn.
Qed.

Lemma push_order r d f :
  key_insertion_order (push r d f) =
  if bool_decide (buffers r !! key d (f_sid f) = None) && bool_decide (0 < max_keys_per_daemon r)
  then (if bool_decide (max_keys_per_daemon r ≤ daemon_key_count (buffers r) (key_prefix d))
        then (evict_ref (key_prefix d)
               (daemon_key_count (buffers r) (key_prefix d) + 1 - max_keys_per_daemon r)
               (key_insertion_order r)).1
        else key_insertion_order r) ++ [key d (f_sid f)]
  else key_insertion_order r.
Proof.
  unfold push. case_bool_decide as Hnew; cbn [andb]; [|done].
  case_bool_decide as Hm; cbn [andb]; [|done].
  case_decide as Hc; [|rewrite (bool_decide_eq_false_2 _ Hc); done].
  rewrite (bool_decide_eq_true_2 _ Hc).
  by rewrite (evict_loop_ref _ _ _ [] (key_insertion_order r) (buffers r)) by done.
Qed.

Lemma push_params r d f :
  cache_size (push r d f) = cache_size r ∧
  max_keys_per_daemon (push r d f) = max_keys_per_daemon r.
Proof. unfold push. by repeat case_match. Qed.

Lemma evicted_prefix r d f k : k ∈ evicted r d f → starts_with (key_prefix d) k = true.
Proof.
  unfold evicted. destruct (_ && _); [apply evict_ref_prefix|by intros ?%not_elem_of_nil].
Qed.

Lemma push_lookup r d f k :
  buffers (push r d f) !! k =
  if decide (k = key d (f_sid f))
  then Some (lastn (cache_size r) (default [] (buffers r !! k) ++ [f]))
  else if decide (k ∈ evicted r d f) then None else buffers r !! k.
Proof.
  rewrite push_buffers. case_decide as Hk; [subst; by rewrite lookup_insert_eq|].
  by rewrite lookup_insert_ne, delete_all_lookup.
Qed.

(** The frame just pushed is replayed to whoever is behind it. *)
Lemma replay_pushed r d f after :
  (after < f_seq f)%N → 0 < cache_size r → f ∈ replay_after (push r d f) d (f_sid f) after.
Proof.
  intros Ha Hc. unfold replay_after. rewrite push_lookup, decide_True by done.
  apply list_elem_of_filter. split; [done|]. destruct (cache_size r) as [|n]; [lia|].
  rewrite lastn_snoc. apply elem_of_app. right. by apply list_elem_of_singleton.
Qed.

Lemma evict_ref_kept p n l k :
  NoDup l → k ∈ (evict_ref p n l).1 ↔ k ∈ l ∧ k ∉ (evict_ref p n l).2.
Proof.
  intros Hnd. rewrite (evict_ref_perm p n l) in Hnd. apply NoDup_app in Hnd as (_ & Hd & _).
  rewrite (evict_ref_perm p n l) at 2. rewrite elem_of_app. naive_solver.
Qed.

Lemma evict_ref_kept_nodup p n l : NoDup l → NoDup (evict_ref p n l).1.
Proof. rewrite (evict_ref_perm p n l) at 1. by intros [? _]%NoDup_app. Qed.

(** The insertion log after a push: the survivors, then the new key. *)
Lemma push_order_kept r d f :
  wf r → 0 < max_keys_per_daemon r → buffers r !! key d (f_sid f) = None →
  ∃ kept, key_insertion_order (push r d f) = kept ++ [key d (f_sid f)] ∧ NoDup kept ∧
    ∀ k, k ∈ kept ↔ is_Some (buffers r !! k) ∧ k ∉ evicted r d f.
Proof.
  intros W Hm Hnew. rewrite push_order. unfold evicted.
  rewrite !(bool_decide_eq_true_2 _ Hnew), !(bool_decide_eq_true_2 _ Hm). cbn [andb].
  eexists. split; [reflexivity|]. case_bool_decide as Hc.
  - split; [apply evict_ref_kept_nodup, W|]. intros k.
    rewrite evict_ref_kept by apply W. by rewrite (wf_order r W Hm).
  - split; [apply W|]. intros k. rewrite (wf_order r W Hm).
    split; [|tauto]. intros; split; [done|apply not_elem_of_nil].
Qed.

Lemma push_order_old r d f :
  max_keys_per_daemon r = 0 ∨ is_Some (buffers r !! key d (f_sid f)) →
  key_insertion_order (push r d f) = key_insertion_order r ∧ evicted r d f = [].
Proof.
  intros H. rewrite push_order. unfold evicted. case_bool_decide as Hn; cbn [andb]; [|done].
  rewrite bool_decide_eq_false_2; [done|]. intros ?. destruct H as [?|[? ?]]; [lia|congruence].
Qed.

Lemma wf_push r d f : wf r → wf (push r d f).
Proof.
  intros W. destruct (push_params r d f) as [Ec Em].
  assert (map_Forall (λ _ ring, length ring ≤ cache_size r) (buffers (push r d f))) as Hl.
  { intros k ring. rewrite push_lookup. case_decide; [intros [= <-]; rewrite length_lastn; lia|].
    case_decide; [done|]. apply (wf_len r W). }
  destruct (decide (0 < max_keys_per_daemon r)) as [Hm|Hm];
    [destruct (buffers r !! key d (f_sid f)) eqn:Hk|].
  - destruct (push_order_old r d f) as [Eo Ee]; [right; by rewrite Hk|].
    split; rewrite ?Eo, ?Em, ?Ec; try apply W; [|done].
    intros _ k. rewrite push_lookup, Ee, (wf_order r W Hm). case_decide; [subst; rewrite Hk|].
    + by split; intros; eexists.
    + by rewrite decide_False by apply not_elem_of_nil.
  - destruct (push_order_kept r d f W Hm Hk) as (kept & Eo & Hnd & Hkept).
    split; rewrite ?Eo, ?Em, ?Ec; [| |lia|done].
    + apply NoDup_app. split; [done|]. split; [|apply NoDup_singleton].
      intros k [Hs _]%Hkept ->%list_elem_of_singleton. rewrite Hk in Hs. by destruct Hs.
    + intros _ k. rewrite push_lookup, elem_of_app, Hkept, list_elem_of_singleton.
      case_decide; [split; [by eexists|by right]|].
      case_decide; [|naive_solver]. split; [naive_solver|by intros []].
  - destruct (push_order_old r d f) as [Eo Ee]; [left; lia|].
    split; rewrite ?Eo, ?Em, ?Ec; try apply W; try done; lia.
Qed.

Lemma wf_purge r d : wf r → wf (purge_daemon r d).
Proof.
  intros W. split; cbn.
  - apply NoDup_filter, W.
  - intros Hm k. rewrite list_elem_of_filter, (wf_order r W Hm), map_lookup_filter.
    destruct (buffers r !! k); cbn; [|split; [by intros [_ []]|by intros []]].
    case_guard; cbn; split; naive_solver.
  - intros Hm. by rewrite (wf_off r W Hm).
  - intros k ring [? _]%map_lookup_filter_Some. by eapply (wf_len r W).
Qed.

(** ** Histories of operations *)

Inductive ring_op := OPush (daemon_id : string) (frame : Frame) | OPurge (daemon_id : string).

Definition ring_step (r : RecentFrames) (op : ring_op) : RecentFrames :=
  match op with OPush d f => push r d f | OPurge d => purge_daemon r d end.

Definition run (cache max_keys : nat) (ops : list ring_op) : RecentFrames :=
  foldl ring_step (with_cache_and_key_cap cache max_keys) ops.

Definition op_daemon (op : ring_op) : string := match op with OPush d _ | OPurge d => d end.

(** The frames one daemon pushed for one session, oldest first. *)
Definition hist_op (d s : string) (op : ring_op) : list Frame :=
  match op with OPush d' f => if decide (d' = d ∧ f_sid f = s) then [f] else [] | _ => [] end.
Definition hist (ops : list ring_op) (d s : string) : list Frame := concat (map (hist_op d s) ops).

Definition colon : Ascii.ascii := Ascii.Ascii false true false true true true false false.
Definition colon_free (d : string) : Prop := str_contains colon d = false.

Lemma run_snoc c m ops op : run c m (ops ++ [op]) = ring_step (run c m ops) op.
Proof. unfold run. by rewrite foldl_app. Qed.

Lemma hist_snoc ops op d s : hist (ops ++ [op]) d s = hist ops d s ++ hist_op d s op.
Proof. unfold hist. rewrite map_app, concat_app. cbn. by rewrite app_nil_r. Qed.

Lemma run_wf c m ops : wf (run c m ops).
Proof.
  induction ops as [|[d f|d] ops IH] using rev_ind; rewrite ?run_snoc;
    [apply wf_init|by apply wf_push|by apply wf_purge].
Qed.

Lemma run_params c m ops :
  cache_size (run c m ops) = c ∧ max_keys_per_daemon (run c m ops) = m.
Proof.
  induction ops as [|[d f|d] ops [IH1 IH2]] using rev_ind; rewrite ?run_snoc; cbn; [done| |done].
  destruct (push_params (run c m ops) d f) as [-> ->]. done.
Qed.

Lemma key_prefix_app d s : key_prefix d +:+ s = key d s.
Proof. unfold key_prefix, key. by rewrite str_append_assoc. Qed.

Lemma key_inj d1 s1 d2 s2 :
  colon_free d1 → colon_free d2 → key d1 s1 = key d2 s2 → d1 = d2 ∧ s1 = s2.
Proof. apply sep_app_inj. Qed.

Lemma starts_with_key p s : starts_with (key_prefix p) s = true ↔ ∃ r, s = key p r.
Proof.
  rewrite starts_with_spec. split; intros [r ->]; exists r; by rewrite key_prefix_app.
Qed.

Lemma prefix_key_inj p d s :
  colon_free p → colon_free d → starts_with (key_prefix p) (key d s) = true → p = d.
Proof. intros Hp Hd [r Hr]%starts_with_key. by destruct (key_inj _ _ _ _ Hd Hp Hr). Qed.

Lemma lastn_lastn {A} a b (l : list A) : lastn a (lastn b l) = lastn (a `min` b) l.
Proof. unfold lastn. rewrite length_drop, drop_drop. f_equal. lia. Qed.

Lemma purge_lookup r p k :
  buffers (purge_daemon r p) !! k
  = if starts_with (key_prefix p) k then None else buffers r !! k.
Proof.
  cbn. rewrite map_lookup_filter. destruct (buffers r !! k); cbn; [|by case_match].
  case_guard as Hs; cbn; [by rewrite Hs|]. by apply not_false_is_true in Hs as ->.
Qed.

(** What happened since [d] was last purged. *)
Definition since_op (d : string) (l : list ring_op) (op : ring_op) : list ring_op :=
  match op with OPurge p => if decide (p = d) then [] else l ++ [op] | _ => l ++ [op] end.
Definition since_purge (ops : list ring_op) (d : string) : list ring_op := foldl (since_op d) [] ops.

Lemma since_snoc ops op d : since_purge (ops ++ [op]) d = since_op d (since_purge ops d) op.
Proof. unfold since_purge. by rewrite foldl_app. Qed.

Lemma purged_key r d s : buffers (purge_daemon r d) !! key d s = None.
Proof. rewrite purge_lookup. replace (starts_with _ _) with true; [done|]. symmetry. apply starts_with_key. by eexists. Qed.

Lemma hist_window c m ops d s :
  colon_free d → Forall (λ op, colon_free (op_daemon op)) ops →
  ∃ n, n ≤ c ∧ default [] (buffers (run c m ops) !! key d s) = lastn n (hist (since_purge ops d) d s).
Proof.
  intros Hd. induction ops as [|op ops IH] using rev_ind; intros Hops.
  { exists 0. split; [lia|]. cbn. by rewrite lookup_empty. }
  apply Forall_app in Hops as [Hops [Hop _]%Forall_cons_1].
  destruct (IH Hops) as (n & Hn & E). rewrite run_snoc, since_snoc. unfold since_op.
  destruct op as [d' f|p]; cbn [ring_step op_daemon] in *.
  - rewrite hist_snoc. cbn [hist_op].
    rewrite push_lookup. destruct (run_params c m ops) as [-> _]. case_decide as Hk.
    + destruct (key_inj _ _ _ _ Hd Hop Hk) as [-> ->]. rewrite decide_True by done.
      exists (c `min` S n). split; [lia|]. cbn [default].
      rewrite E, <-lastn_snoc. apply lastn_lastn.
    + rewrite (decide_False (P := d' = d ∧ _)) by (intros [-> <-]; done). rewrite app_nil_r.
      case_decide; [exists 0; split; [lia|]|by exists n].
      cbn. unfold lastn. by rewrite Nat.sub_0_r, drop_all.
  - destruct (decide (p = d)) as [->|Hne]; [rewrite purged_key; exists 0; split; [lia|done]|].
    rewrite hist_snoc. cbn [hist_op]. rewrite purge_lookup, app_nil_r. case_match; [|by exists n].
    exists 0. split; [lia|]. unfold lastn. by rewrite Nat.sub_0_r, drop_all.
Qed.

(** ** Properties *)

(** The cache invariant holds after every sequence of pushes and purges: no
    key twice in the insertion log, the log lists exactly the live keys, no
    ring deeper than the configured depth. *)
Theorem run_invariant (c m : nat) (ops : list ring_op) : wf (run c m ops).
Proof. apply run_wf. Qed.

Definition fr (sid : string) (seq : N) : Frame := mkFrameMsg sid "ct" seq Daemon None.

(** The keys of one daemon, counted in the insertion log. *)
Lemma push_count_bound r d' f d :
  wf r → 0 < max_keys_per_daemon r → colon_free d → colon_free d' →
  daemon_key_count (buffers r) (key_prefix d) ≤ max_keys_per_daemon r →
  daemon_key_count (buffers (push r d' f)) (key_prefix d) ≤ max_keys_per_daemon r.
Proof.
  intros W Hm Hd Hd' Hle. destruct (push_params r d' f) as [_ Em].
  rewrite (wf_key_count (push r d' f)) by (rewrite ?Em; auto using wf_push).
  rewrite push_order. destruct (_ && _) eqn:Eb; [|by rewrite <-wf_key_count].
  rewrite filter_app, length_app. destruct (decide (d' = d)) as [->|Hne].
  - rewrite filter_cons_True by (apply starts_with_key; by eexists). cbn.
    destruct (bool_decide (max_keys_per_daemon r ≤ _)) eqn:Hc;
      [apply bool_decide_eq_true_1 in Hc|apply bool_decide_eq_false_1 in Hc].
    + rewrite evict_ref_count, <-wf_key_count by done. lia.
    + rewrite <-wf_key_count by done. lia.
  - rewrite filter_cons_False
      by (intros H; by apply prefix_key_inj in H).
    cbn. rewrite Nat.add_0_r.
    destruct (bool_decide (max_keys_per_daemon r ≤ _)); [|by rewrite <-wf_key_count].
    etrans; [|exact Hle]. rewrite (wf_key_count r (key_prefix d)) by done.
    set (n := daemon_key_count _ (key_prefix d') + 1 - _).
    rewrite (evict_ref_perm (key_prefix d') n (key_insertion_order r)) at 2.
    rewrite filter_app, length_app. lia.
Qed.

Lemma purge_count_bound r p q :
  wf r → 0 < max_keys_per_daemon r →
  daemon_key_count (buffers (purge_daemon r p)) q ≤ daemon_key_count (buffers r) q.
Proof.
  intros W Hm. rewrite (wf_key_count (purge_daemon r p)) by auto using wf_purge.
  rewrite (wf_key_count r) by done. cbn.
  apply sublist_length. induction (key_insertion_order r) as [|k l IH]; [done|].
  rewrite filter_cons. case_decide; rewrite !filter_cons; case_decide; try (by constructor); auto.
Qed.

(** Key growth is bounded: after any history, a daemon holds at most
    [max_keys_per_daemon] session rings (daemon ids contain no colon, cap on). *)
Lemma daemon_keys_bounded (c m : nat) (ops : list ring_op) (d : string) :
  0 < m → colon_free d → Forall (λ op, colon_free (op_daemon op)) ops →
  daemon_key_count (buffers (run c m ops)) (key_prefix d) ≤ m.
Proof.
  intros Hm Hd. induction ops as [|op ops IH] using rev_ind; intros Hops.
  { cbn. unfold daemon_key_count. rewrite dom_empty_L, elements_empty. cbn. lia. }
  apply Forall_app in Hops as [Hops [Hop _]%Forall_cons_1]. specialize (IH Hops).
  rewrite run_snoc. destruct (run_params c m ops) as [_ Em].
  pose proof (run_wf c m ops) as W. pose proof (push_count_bound (run c m ops)) as HP. pose proof (purge_count_bound (run c m ops)) as HQ.
  rewrite Em in HP, HQ. destruct op as [d' f|p]; cbn [ring_step op_daemon] in *.
  - by apply HP.
  - etrans; [by apply HQ|done].
Qed.

(** ** When nothing is evicted *)

Definition sid_op (d : string) (op : ring_op) : gset string :=
  match op with OPush d' f => if decide (d' = d) then {[f_sid f]} else ∅ | _ => ∅ end.
(** The sessions a daemon ever pushed for. *)
Definition sids (ops : list ring_op) (d : string) : gset string := ⋃ map (sid_op d) ops.

Lemma sids_snoc ops op d : sids (ops ++ [op]) d = sids ops d ∪ sid_op d op.
Proof.
  unfold sids. rewrite map_app. induction (map (sid_op d) ops); cbn in *; set_solver.
Qed.

Lemma hist_sids ops d s : hist ops d s ≠ [] ↔ s ∈ sids ops d.
Proof.
  induction ops as [|op ops IH] using rev_ind.
  { split; [done|]. intros H. unfold sids in H. cbn in H. by apply not_elem_of_empty in H. }
  rewrite hist_snoc, sids_snoc, elem_of_union, <-IH.
  destruct op as [d' f|p]; cbn [hist_op sid_op]; [|rewrite app_nil_r; set_solver].
  destruct (decide (d' = d)) as [->|];
    [|rewrite (decide_False (P := d' = d ∧ _)) by tauto; rewrite app_nil_r; set_solver].
  destruct (decide (f_sid f = s)) as [<-|].
  - rewrite decide_True by done. split; [set_solver|].
    intros _ H. by destruct (app_eq_nil _ _ H).
  - rewrite decide_False by tauto. rewrite app_nil_r. set_solver.
Qed.

(** Every live key of [d] belongs to a session it pushed for. *)
Lemma key_count_sids r d (S : gset string) :
  (∀ s, is_Some (buffers r !! key d s) → s ∈ S) →
  daemon_key_count (buffers r) (key_prefix d) ≤ size S.
Proof.
  intros HS. unfold daemon_key_count, size, set_size. cbn. rewrite <-(length_map (key d) (elements S)).
  apply submseteq_length, NoDup_submseteq; [apply NoDup_filter, NoDup_elements|].
  intros k [Hp Hk]%list_elem_of_filter. apply starts_with_key in Hp as [s ->].
  apply elem_of_elements, elem_of_dom in Hk. apply list_elem_of_In, in_map, list_elem_of_In.
  apply elem_of_elements. auto.
Qed.

(** Since the purge the window is the whole of what the depth allows. *)
Definition window (c : nat) (h : list Frame) : option (list Frame) :=
  match h with [] => None | _ => Some (lastn c h) end.

Lemma window_keys c m ops own d :
  (∀ s, buffers (run c m ops) !! key d s = window c (hist own d s)) →
  daemon_key_count (buffers (run c m ops)) (key_prefix d) ≤ size (sids own d).
Proof.
  intros IH. apply key_count_sids. intros s' [l Hl]. rewrite IH in Hl. rewrite <-hist_sids.
  by destruct (hist own d s').
Qed.

(** A new session of [d] evicts none of its keys while there is room. *)
Lemma none_evicted c m ops own d f :
  (∀ s, buffers (run c m ops) !! key d s = window c (hist own d s)) →
  m = 0 ∨ size (sids own d ∪ {[f_sid f]}) ≤ m → evicted (run c m ops) d f = [].
Proof.
  intros IH Hsz. unfold evicted. destruct (run_params c m ops) as [_ ->]. case_bool_decide as Hnew; [|done].
  case_bool_decide as Hm; [|done]. cbn [andb]. rewrite bool_decide_eq_false_2; [done|]. intros Hcount.
  assert (f_sid f ∉ sids own d) as Hnotin.
  { rewrite IH in Hnew. rewrite <-hist_sids. destruct (hist own d (f_sid f)); [by intros []|done]. }
  destruct Hsz as [|Hsz]; [lia|]. rewrite size_union, size_singleton in Hsz by set_solver.
  pose proof (window_keys c m ops own d IH). lia.
Qed.

Lemma full_window c m ops d :
  colon_free d → Forall (λ op, colon_free (op_daemon op)) ops →
  (∀ pre, pre `prefix_of` ops → m = 0 ∨ size (sids (since_purge pre d) d) ≤ m) →
  ∀ s, buffers (run c m ops) !! key d s = window c (hist (since_purge ops d) d s).
Proof.
  intros Hd. induction ops as [|op ops IH] using rev_ind; intros Hops Hsz s.
  { cbn. by rewrite lookup_empty. }
  apply Forall_app in Hops as [Hops [Hop _]%Forall_cons_1].
  pose proof (Hsz (ops ++ [op]) ltac:(done)) as Hroom.
  specialize (IH Hops (λ pre H, Hsz pre (prefix_app_r _ _ _ H))). destruct (run_params c m ops) as [Ec Em].
  rewrite run_snoc, since_snoc. rewrite since_snoc in Hroom. set (own := since_purge ops d) in *.
  unfold since_op in *. destruct op as [d' f|p]; cbn [ring_step op_daemon] in *.
  - rewrite hist_snoc. cbn [hist_op].
    rewrite push_lookup, Ec. case_decide as Hk.
    + destruct (key_inj _ _ _ _ Hd Hop Hk) as [-> ->]. rewrite decide_True by done. rewrite IH.
      destruct (hist own d' (f_sid f)) as [|x h]; [done|]. cbn [from_option id app window].
      by rewrite lastn_lastn_snoc.
    + rewrite (decide_False (P := d' = d ∧ _)) by (intros [-> <-]; done). rewrite app_nil_r.
      rewrite decide_False; [apply IH|]. intros Hev.
      pose proof (evicted_prefix _ _ _ _ Hev) as Hpre. apply prefix_key_inj in Hpre as ->; try done.
      rewrite sids_snoc in Hroom. cbn [sid_op] in Hroom. rewrite decide_True in Hroom by done.
      rewrite (none_evicted c m ops own d f IH Hroom) in Hev. by apply not_elem_of_nil in Hev.
  - destruct (decide (p = d)) as [->|Hne].
    + by rewrite purged_key.
    + rewrite hist_snoc. cbn [hist_op]. rewrite purge_lookup, app_nil_r, IH. case_match eqn:E; [|done].
      apply prefix_key_inj in E as ->; [by destruct Hne|done..].
Qed.

(** C3. The relay's replay.  After any pushes and purges, what a subscriber of a daemon's
    session is given are, in order, frames that daemon pushed for that session since it
    was last purged, the newest [n] of them that are newer than the cursor, never
    another's; [n] is the whole configured depth as long as the daemon stayed within the
    configured number of sessions, so within the limits nothing is lost; and the daemon
    holds at most that many sessions, no ring deeper than configured.  Daemon ids are
    taken to contain no colon, which is what keys are joined with. *)
Theorem replay_complete (c m : nat) (ops : list ring_op) (d s : string) (after : N) :
  colon_free d → Forall (λ op, colon_free (op_daemon op)) ops →
  (∃ n, n ≤ c ∧ replay_after (run c m ops) d s after
                = filter (λ f, after < f_seq f)%N (lastn n (hist (since_purge ops d) d s))) ∧
  ((∀ pre, pre `prefix_of` ops → m = 0 ∨ size (sids (since_purge pre d) d) ≤ m) →
   replay_after (run c m ops) d s after
   = filter (λ f, after < f_seq f)%N (lastn c (hist (since_purge ops d) d s))) ∧
  (0 < m → daemon_key_count (buffers (run c m ops)) (key_prefix d) ≤ m) ∧
  ∀ k ring, buffers (run c m ops) !! k = Some ring → length ring ≤ c.
Proof.
  intros Hd Hops. split.
  { destruct (hist_window c m ops d s Hd Hops) as (n & Hn & E). exists n. split; [done|].
    rewrite <-E. unfold replay_after. by destruct (_ !! _). }
  split; [|split].
  - intros Hsz. unfold replay_after. rewrite (full_window c m ops d) by done.
    destruct (hist _ d s); cbn [window]; [|done]. unfold lastn. by rewrite drop_nil.
  - intros Hm. by apply daemon_keys_bounded.
  - intros k ring Hk. destruct (run_params c m ops) as [<- _]. exact (wf_len _ (run_wf c m ops) k ring Hk).
Qed.

Lemma replay_complete_witness :
  replay_after (run 2 2 [OPush "a" (fr "s" 1); OPurge "a"; OPush "a" (fr "s" 2); OPush "b" (fr "s" 3); OPush "a" (fr "s" 4)]) "a" "s" 2
  = [fr "s" 4].
Proof.
  destruct (replay_complete 2 2 [OPush "a" (fr "s" 1); OPurge "a"; OPush "a" (fr "s" 2); OPush "b" (fr "s" 3); OPush "a" (fr "s" 4)]
              "a" "s" 2) as (_ & H & _); [reflexivity|repeat constructor|].
  rewrite H; [by vm_compute|]. intros pre Hp. right.
  destruct Hp as [l Hp]. destruct pre as [|? [|? [|? [|? [|? [|? pre]]]]]]; simplify_eq/=;
    try (apply (bool_decide_unpack _); vm_compute; exact I).
Defined.

(** The isolation above needs its hypothesis: cache keys of different daemons
    collide when an id contains a colon, and then one daemon's frame is
    replayed to another daemon's frontend and purging one wipes the other. *)
Theorem colon_ids_break_isolation :
  let r := run 10 256 [OPush "d:x" (fr "s" 1)] in
  replay_after r "d" "x:s" 0 = [fr "s" 1] ∧
  replay_after (purge_daemon r "d") "d:x" "s" 0 = [].
Proof. vm_compute. split; reflexivity. Qed.
