(* ===== verification/Registry.v ===== *)
(** * Registry: per-daemon state and token tables of [rust/tp-relay/src/registry.rs]. *)
From stdpp Require Import base list numbers strings gmap fin_maps fin_map_dom.
From Stdlib Require Import Lia NArith.
From S2P Require Import Prelude.

Definition MAX_SESSIONS_PER_DAEMON : nat := 256.
Definition DEFAULT_MAX_REGISTRATIONS : nat := 50 * 1000.
Definition u32_max : N := 4294967295.

Record Registration := mkRegistration { token : string; proof : option string }.

Record DaemonState := mkDaemonState {
  online : bool;
  sessions : list string;          (* IndexSet: insertion order, no duplicate *)
  last_seen : N;
  attached : gmap string N;
  registration_token : option string
}.

Definition seed_offline (now_ms : N) : DaemonState := mkDaemonState false [] now_ms ∅ None.

(** [IndexSet::insert] *)
Definition index_set_insert (x : string) (l : list string) : list string :=
  if decide (x ∈ l) then l else l ++ [x].

(** [while self.sessions.len() > MAX_SESSIONS_PER_DAEMON { shift_remove_index(0) }] *)
Fixpoint evict_oldest (cap : nat) (l : list string) : list string :=
  match l with
  | [] => []
  | _ :: rest => if decide (cap < length l) then evict_oldest cap rest else l
  end.

Definition add_session (self : DaemonState) (sid : string) : DaemonState :=
  mkDaemonState (online self)
    (evict_oldest MAX_SESSIONS_PER_DAEMON (index_set_insert sid (sessions self)))
    (last_seen self) (attached self) (registration_token self).

(** [saturating_add(1)] on u32 *)
Definition attach (self : DaemonState) (sid : string) : DaemonState :=
  let count := default 0%N (attached self !! sid) in
  mkDaemonState (online self) (sessions self) (last_seen self)
    (<[sid := N.min u32_max (count + 1)]> (attached self)) (registration_token self).

Definition detach (self : DaemonState) (sid : string) : DaemonState :=
  let attached' :=
    match attached self !! sid with
    | Some count =>
        if decide (count ≤ 1)%N then delete sid (attached self)
        else <[sid := (count - 1)%N]> (attached self)
    | None => attached self
    end in
  mkDaemonState (online self) (sessions self) (last_seen self) attached' (registration_token self).

Definition set_online (b : bool) (self : DaemonState) : DaemonState :=
  mkDaemonState b (sessions self) (last_seen self) (attached self) (registration_token self).
Definition set_last_seen (now : N) (self : DaemonState) : DaemonState :=
  mkDaemonState (online self) (sessions self) now (attached self) (registration_token self).
Definition set_registration_token (t : option string) (self : DaemonState) : DaemonState :=
  mkDaemonState (online self) (sessions self) (last_seen self) (attached self) t.

Record Registry := mkRegistry {
  daemon_states : gmap string DaemonState;
  registrations : gmap string Registration;
  valid_tokens : gmap string string;
  max_registrations : nat
}.

Definition with_max_registrations (max_registrations : nat) : Registry :=
  mkRegistry ∅ ∅ ∅ max_registrations.

Definition set_states (r : Registry) (m : gmap string DaemonState) : Registry :=
  mkRegistry m (registrations r) (valid_tokens r) (max_registrations r).

(** [entry(daemon_id).or_insert_with(|| DaemonState::seed_offline(now_ms))] *)
Definition state_or_seed (r : Registry) (daemon_id : string) (now_ms : N) : DaemonState :=
  default (seed_offline now_ms) (daemon_states r !! daemon_id).

Definition fill_token (t : option string) (s : DaemonState) : DaemonState :=
  match t with
  | Some tok => match registration_token s with
                | None => set_registration_token (Some tok) s
                | Some _ => s
                end
  | None => s
  end.

Definition upsert_daemon_state (r : Registry) (daemon_id : string) (is_daemon : bool)
    (reg_token : option string) (now_ms : N) : Registry :=
  let state := state_or_seed r daemon_id now_ms in
  let state := if is_daemon
               then fill_token reg_token (set_last_seen now_ms (set_online true state))
               else state in
  set_states r (<[daemon_id := state]> (daemon_states r)).

Definition CAPACITY_REACHED : string := "Relay registration capacity reached".
Definition DIFFERENT_CREDENTIALS : string := "Daemon ID already registered with different credentials".
Definition INVALID_TOKEN : string := "Invalid token or daemon ID".
Definition NO_LONGER_REGISTERED : string := "Daemon no longer registered".

(** Step 2 of [handle_register]: forget the old token when it changes. *)
Definition stale_token_cleanup (r : Registry) (daemon_id tok : string) : Registry :=
  match registrations r !! daemon_id with
  | Some existing =>
      if decide (token existing = tok) then r
      else mkRegistry
             (alter (set_registration_token (Some tok)) daemon_id (daemon_states r))
             (registrations r) (delete (token existing) (valid_tokens r)) (max_registrations r)
  | None => r
  end.

Definition handle_register (r : Registry) (daemon_id tok prf : string) (now_ms : N)
  : result unit string * Registry :=
  if bool_decide (registrations r !! daemon_id = None) && bool_decide (0 < max_registrations r)
     && bool_decide (max_registrations r ≤ size (registrations r))
  then (Err CAPACITY_REACHED, r)
  else
    let different := match registrations r !! daemon_id ≫= proof with
                     | Some stored_proof => bool_decide (stored_proof ≠ prf)
                     | None => false
                     end in
    if different then (Err DIFFERENT_CREDENTIALS, r)
    else
      let r1 := stale_token_cleanup r daemon_id tok in
      (Ok tt,
       mkRegistry
         (<[daemon_id := fill_token (Some tok) (state_or_seed r1 daemon_id now_ms)]> (daemon_states r1))
         (<[daemon_id := mkRegistration tok (Some prf)]> (registrations r1))
         (<[tok := daemon_id]> (valid_tokens r1))
         (max_registrations r1)).

Definition handle_auth (r : Registry) (daemon_id tok : string) (is_daemon : bool) (now_ms : N)
  : result unit string * Registry :=
  if decide (valid_tokens r !! tok = Some daemon_id) then
    let reg_token := if is_daemon then Some tok else None in
    let r1 := upsert_daemon_state r daemon_id is_daemon reg_token now_ms in
    let r2 :=
      if is_daemon && bool_decide (registrations r1 !! daemon_id = None)
      then mkRegistry (daemon_states r1)
             (<[daemon_id := mkRegistration tok None]> (registrations r1))
             (valid_tokens r1) (max_registrations r1)
      else r1 in
    (Ok tt, r2)
  else (Err INVALID_TOKEN, r).

Definition handle_auth_resume (r : Registry) (daemon_id : string) (is_daemon : bool) (now_ms : N)
  : result unit string * Registry :=
  match registrations r !! daemon_id with
  | None => (Err NO_LONGER_REGISTERED, r)
  | Some _ => (Ok tt, upsert_daemon_state r daemon_id is_daemon None now_ms)
  end.

Definition update_state (r : Registry) (daemon_id : string) (f : DaemonState → DaemonState) : Registry :=
  set_states r (alter f daemon_id (daemon_states r)).

Definition daemon_disconnect (r : Registry) (daemon_id : string) (now_ms : N) : Registry :=
  update_state r daemon_id (λ s, set_last_seen now_ms (set_online false s)).

Definition frontend_disconnect (r : Registry) (daemon_id : string) (subscriptions : list string) : Registry :=
  update_state r daemon_id (λ s, foldl detach s subscriptions).

Definition daemon_pub (r : Registry) (daemon_id sid : string) (now_ms : N) : Registry :=
  update_state r daemon_id (λ s, set_last_seen now_ms (add_session s sid)).

Definition daemon_ping (r : Registry) (daemon_id : string) (now_ms : N) : Registry :=
  update_state r daemon_id (set_last_seen now_ms).

Definition evict_daemon (r : Registry) (daemon_id : string) : Registry :=
  mkRegistry (delete daemon_id (daemon_states r)) (delete daemon_id (registrations r))
    match daemon_states r !! daemon_id ≫= registration_token with
    | Some tok => delete tok (valid_tokens r)
    | None => valid_tokens r
    end
    (max_registrations r).

Record StaleCheckResult := mkStale { newly_offline : list string; evicted : list string }.

Section stale.
Context {HI : HashIter string}.

(** Phase 1, one entry of the iteration. *)
Definition mark_stale (now_ms stale_timeout_ms : N)
    (acc : gmap string DaemonState * list string) (daemon_id : string)
  : gmap string DaemonState * list string :=
  match acc.1 !! daemon_id with
  | Some state =>
      if online state && bool_decide (stale_timeout_ms < now_ms - last_seen state)%N
      then (<[daemon_id := set_online false state]> acc.1, acc.2 ++ [daemon_id])
      else acc
  | None => acc
  end.

(** Phase 2's test. *)
Definition past_ttl (m : gmap string DaemonState) (now_ms offline_evict_ms : N) (daemon_id : string) : bool :=
  match m !! daemon_id with
  | Some state => negb (online state) && bool_decide (offline_evict_ms < now_ms - last_seen state)%N
  | None => false
  end.

Definition check_stale_daemons (r : Registry) (now_ms stale_timeout_ms offline_evict_ms : N)
  : StaleCheckResult * Registry :=
  let '(m, newly) :=
    foldl (mark_stale now_ms stale_timeout_ms) (daemon_states r, []) (set_iter (dom (daemon_states r))) in
  let gone := filter (λ d, past_ttl m now_ms offline_evict_ms d = true) (set_iter (dom m)) in
  (mkStale newly gone, foldl evict_daemon (set_states r m) gone).
End stale.

(** ** The registry invariant: the three tables tell one story *)

Record inv (r : Registry) : Prop := {
  inv_valid t d : valid_tokens r !! t = Some d →
    ∃ p, registrations r !! d = Some (mkRegistration t p);
  inv_reg d g : registrations r !! d = Some g →
    ∃ s, daemon_states r !! d = Some s ∧ registration_token s = Some (token g);
  inv_state d s t : daemon_states r !! d = Some s → registration_token s = Some t →
    ∃ p, registrations r !! d = Some (mkRegistration t p);
  inv_proof d g : registrations r !! d = Some g → is_Some (proof g);
  inv_cap : 0 < max_registrations r → size (registrations r) ≤ max_registrations r
}.

(** What a state update may not disturb. *)
Definition keeps_token (f : DaemonState → DaemonState) : Prop :=
  ∀ s, registration_token (f s) = registration_token s.

Lemma inv_init n : inv (with_max_registrations n).
Proof. split; cbn; intros *; rewrite ?lookup_empty; try done. rewrite map_size_empty. lia. Qed.

(** Replacing state entries that agree on the token preserves the invariant. *)
Lemma inv_set_states r m :
  inv r →
  (∀ d, match m !! d with
        | Some s' => ∃ s, (daemon_states r !! d = Some s ∧ registration_token s = registration_token s')
                     ∨ (daemon_states r !! d = None ∧ registration_token s' = None)
        | None => daemon_states r !! d = None
        end) →
  inv (set_states r m).
Proof.
  intros I Hm. split; cbn; try apply I.
  - intros d g Hg. destruct (inv_reg r I d g Hg) as (s & Hs & Ht). specialize (Hm d).
    destruct (m !! d) as [s'|] eqn:E; [|congruence].
    destruct Hm as [s0 [[? ?]|[? ?]]]; [|congruence]. exists s'. split; congruence.
  - intros d s' t E Ht. specialize (Hm d). rewrite E in Hm.
    destruct Hm as [s [[Hs Hst]|[? ?]]]; [|congruence].
    apply (inv_state r I d s t Hs). congruence.
Qed.

Lemma inv_update r d f : keeps_token f → inv r → inv (update_state r d f).
Proof.
  intros Hf I. apply inv_set_states; [done|]. intros d'. rewrite lookup_alter.
  case_decide; subst; destruct (daemon_states r !! d') as [s|]; cbn; try done;
    exists s; left; by rewrite ?Hf.
Qed.

Lemma keeps_token_detach l : keeps_token (λ s, foldl detach s l).
Proof.
  intros s. revert s. induction l as [|x l IH]; intros s; [done|]. cbn. by rewrite IH.
Qed.

Lemma inv_upsert r d b t now :
  inv r → (b = true → t = None ∨ is_Some (registrations r !! d)) →
  inv (upsert_daemon_state r d b t now).
Proof.
  intros I Ht. apply inv_set_states; [done|]. intros d'. unfold state_or_seed.
  destruct (decide (d' = d)) as [->|]; [rewrite lookup_insert_eq|rewrite lookup_insert_ne by done].
  2:{ destruct (daemon_states r !! d') as [s|]; [exists s; by left|done]. }
  destruct (daemon_states r !! d) as [s|] eqn:E; cbn.
  - exists s. left. split; [done|]. destruct b; [|done].
    destruct (Ht eq_refl) as [->|[g Hg]]; [done|].
    destruct (inv_reg r I d g Hg) as (s0 & Hs0 & Htok). simplify_eq.
    destruct t; cbn; rewrite Htok; done.
  - exists (seed_offline now). right. split; [done|]. destruct b; [|done].
    destruct (Ht eq_refl) as [->|[g Hg]]; [done|].
    destruct (inv_reg r I d g Hg) as (s0 & Hs0 & _). congruence.
Qed.

Lemma auth_registered r d t : inv r → valid_tokens r !! t = Some d → is_Some (registrations r !! d).
Proof. intros I [p Hp]%(inv_valid r I). by eexists. Qed.

(** On a consistent registry the token-only seeding branch is dead. *)
Lemma handle_auth_ok r d t b now :
  inv r → valid_tokens r !! t = Some d →
  handle_auth r d t b now = (Ok tt, upsert_daemon_state r d b (if b then Some t else None) now).
Proof.
  intros I Hv. destruct (auth_registered r d t I Hv) as [g Hg].
  unfold handle_auth. rewrite decide_True by done. cbn. rewrite Hg.
  rewrite bool_decide_eq_false_2, andb_false_r by done. done.
Qed.

Lemma inv_handle_auth r d t b now : inv r → inv (handle_auth r d t b now).2.
Proof.
  intros I. destruct (decide (valid_tokens r !! t = Some d)) as [Hv|Hv].
  - rewrite handle_auth_ok by done. apply inv_upsert; [done|]. intros _. right.
    by eapply auth_registered.
  - unfold handle_auth. by rewrite decide_False.
Qed.

Lemma inv_handle_auth_resume r d b now : inv r → inv (handle_auth_resume r d b now).2.
Proof.
  intros I. unfold handle_auth_resume. destruct (registrations r !! d) eqn:E; [|done].
  apply inv_upsert; [done|]. by left.
Qed.

Lemma inv_evict r d : inv r → inv (evict_daemon r d).
Proof.
  intros I. split; cbn.
  - intros t d' Hv.
    assert (valid_tokens r !! t = Some d' ∧
            (daemon_states r !! d ≫= registration_token) ≠ Some t) as [Hv' Hne].
    { destruct (_ ≫= _) as [tok|]; [|done]. apply lookup_delete_Some in Hv as [? ?].
      split; [done|congruence]. }
    destruct (inv_valid r I t d' Hv') as [p Hp]. exists p. rewrite lookup_delete_ne; [done|].
    intros ->. destruct (inv_reg r I _ _ Hp) as (s & Hs & Ht). by rewrite Hs in Hne.
  - intros d' g [Hne Hg]%lookup_delete_Some. destruct (inv_reg r I d' g Hg) as (s & Hs & Ht).
    exists s. by rewrite lookup_delete_ne.
  - intros d' s t [Hne Hs]%lookup_delete_Some Ht. rewrite lookup_delete_ne by done.
    by eapply (inv_state r I).
  - intros d' g [Hne Hg]%lookup_delete_Some. by apply (inv_proof r I) in Hg.
  - intros Hm. etrans; [|by apply (inv_cap r I)]. rewrite map_size_delete.
    destruct (registrations r !! d); cbn; lia.
Qed.

Lemma stale_cleanup_parts r d t :
  registrations (stale_token_cleanup r d t) = registrations r ∧
  max_registrations (stale_token_cleanup r d t) = max_registrations r.
Proof. unfold stale_token_cleanup. repeat case_match; done. Qed.

(** After the cleanup every state but [d]'s is as before, [d]'s carries no
    foreign token, and no other token names [d]. *)
Lemma stale_cleanup_spec r d t :
  inv r →
  (∀ d', d' ≠ d → daemon_states (stale_token_cleanup r d t) !! d' = daemon_states r !! d') ∧
  (∀ s, daemon_states (stale_token_cleanup r d t) !! d = Some s →
     registration_token s = None ∨ registration_token s = Some t) ∧
  (∀ t' d', valid_tokens (stale_token_cleanup r d t) !! t' = Some d' →
     valid_tokens r !! t' = Some d' ∧ (d' = d → t' = t)).
Proof.
  intros I. unfold stale_token_cleanup. destruct (registrations r !! d) as [g|] eqn:Eg.
  - destruct (inv_reg r I d g Eg) as (s0 & Hs0 & Ht0). case_decide as Ht.
    + subst. split; [done|]. split; [intros s Hs; simplify_eq; by right|].
      intros t' d' Hv. split; [done|]. intros ->. destruct (inv_valid r I _ _ Hv). by simplify_eq.
    + cbn. split; [intros; by rewrite lookup_alter_ne|]. split.
      * intros s. rewrite lookup_alter_eq, Hs0. cbn. intros [= <-]. by right.
      * intros t' d' [Hne Hv]%lookup_delete_Some. split; [done|]. intros ->.
        destruct (inv_valid r I _ _ Hv). by simplify_eq.
  - split; [done|]. split.
    + intros s Hs. destruct (registration_token s) as [t0|] eqn:E; [|by left].
      destruct (inv_state r I d s t0 Hs E). congruence.
    + intros t' d' Hv. split; [done|]. intros ->. destruct (inv_valid r I _ _ Hv). congruence.
Qed.

Definition capacity_reached (r : Registry) (d : string) : bool :=
  bool_decide (registrations r !! d = None) && bool_decide (0 < max_registrations r)
  && bool_decide (max_registrations r ≤ size (registrations r)).

Definition proof_conflict (r : Registry) (d prf : string) : bool :=
  match registrations r !! d ≫= proof with
  | Some stored => bool_decide (stored ≠ prf)
  | None => false
  end.

Lemma register_cases r d t p now :
  handle_register r d t p now =
  if capacity_reached r d then (Err CAPACITY_REACHED, r)
  else if proof_conflict r d p then (Err DIFFERENT_CREDENTIALS, r)
  else
    let r1 := stale_token_cleanup r d t in
    (Ok tt, mkRegistry
       (<[d := fill_token (Some t) (state_or_seed r1 d now)]> (daemon_states r1))
       (<[d := mkRegistration t (Some p)]> (registrations r1))
       (<[t := d]> (valid_tokens r1)) (max_registrations r1)).
Proof. reflexivity. Qed.

Lemma inv_handle_register r d t p now : inv r → inv (handle_register r d t p now).2.
Proof.
  intros I. rewrite register_cases. destruct (capacity_reached r d) eqn:Ecap; [done|].
  destruct (proof_conflict r d p); [done|].
  destruct (stale_cleanup_spec r d t I) as (Hst & Hd & Hv).
  destruct (stale_cleanup_parts r d t) as [Er Em].
  set (r1 := stale_token_cleanup r d t) in *.
  assert (registration_token (fill_token (Some t) (state_or_seed r1 d now)) = Some t) as Htok.
  { unfold state_or_seed. destruct (daemon_states r1 !! d) as [s|] eqn:E; [|done]. cbn.
    destruct (Hd s eq_refl) as [Hn|Hn]; rewrite Hn; done. }
  split; cbn; rewrite ?Er, ?Em.
  - intros t' d'. rewrite lookup_insert. case_decide; [intros [= <-]; subst|].
    + exists (Some p). by rewrite lookup_insert_eq.
    + intros [Hv' Hne]%Hv. rewrite lookup_insert_ne; [by apply (inv_valid r I)|].
      intros ->. by apply H, eq_sym, Hne.
  - intros d' g. rewrite !lookup_insert. case_decide; [intros [= <-]; eauto|].
    intros Hg. rewrite Hst by done. by apply (inv_reg r I).
  - intros d' s t'. rewrite !lookup_insert. case_decide; [intros [= <-] Ht'; exists (Some p); assert (Some t = Some t') as [= <-] by (rewrite <-Htok; exact Ht'); done|].
    rewrite Hst by done. intros Hs Ht. destruct (inv_state r I d' s t' Hs Ht) as [p' ?].
    by exists p'.
  - intros d' g. rewrite lookup_insert. case_decide; [by intros [= <-]|]. apply (inv_proof r I).
  - intros Hm. destruct (registrations r !! d) eqn:E.
    + rewrite map_size_insert_Some by (by eexists). by apply (inv_cap r I).
    + rewrite map_size_insert_None by done. unfold capacity_reached in Ecap.
      rewrite E in Ecap. rewrite (bool_decide_eq_true_2 (0 < _)) in Ecap by done. cbn in Ecap.
      apply bool_decide_eq_false_1 in Ecap. lia.
Qed.

(** ** The stale sweep *)

Definition is_stale (now_ms stale_timeout_ms : N) (s : DaemonState) : bool :=
  online s && bool_decide (stale_timeout_ms < now_ms - last_seen s)%N.

Definition mark (now_ms stale_timeout_ms : N) (s : DaemonState) : DaemonState :=
  if is_stale now_ms stale_timeout_ms s then set_online false s else s.

Definition stale_at (m : gmap string DaemonState) (now_ms stale_timeout_ms : N) (d : string) : bool :=
  from_option (is_stale now_ms stale_timeout_ms) false (m !! d).

(** One iteration: mark the entry, and log it if it was stale. *)
Lemma mark_stale_alter now st m acc x :
  mark_stale now st (m, acc) x
  = (alter (mark now st) x m, acc ++ if stale_at m now st x then [x] else []).
Proof.
  unfold mark_stale, stale_at. cbn. destruct (m !! x) as [s|] eqn:E; cbn.
  - unfold is_stale. destruct (online s && _) eqn:Es.
    + f_equal. apply map_eq. intros d. destruct (decide (d = x)) as [->|Hne].
      * rewrite lookup_insert_eq, lookup_alter_eq, E. cbn. unfold mark, is_stale. by rewrite Es.
      * by rewrite lookup_insert_ne, lookup_alter_ne.
    + rewrite app_nil_r. f_equal. apply map_eq. intros d. destruct (decide (d = x)) as [->|Hne].
      * rewrite lookup_alter_eq, E. cbn. unfold mark, is_stale. by rewrite Es.
      * by rewrite lookup_alter_ne.
  - rewrite app_nil_r. f_equal. apply map_eq. intros d. destruct (decide (d = x)) as [->|Hne].
    + by rewrite lookup_alter_eq, E.
    + by rewrite lookup_alter_ne.
Qed.

Lemma mark_stale_fold now st ids m acc :
  NoDup ids →
  foldl (mark_stale now st) (m, acc) ids
  = (foldl (λ m d, alter (mark now st) d m) m ids,
     acc ++ filter (λ d, stale_at m now st d = true) ids).
Proof.
  revert m acc. induction ids as [|x ids IH]; intros m acc Hnd; cbn [foldl].
  { by rewrite app_nil_r. }
  apply NoDup_cons in Hnd as [Hx Hnd]. rewrite mark_stale_alter, IH by done. f_equal.
  rewrite <-app_assoc. f_equal. rewrite filter_cons.
  assert (filter (λ d, stale_at (alter (mark now st) x m) now st d = true) ids
          = filter (λ d, stale_at m now st d = true) ids) as ->.
  { apply list_filter_ext_in. intros d Hd. unfold stale_at.
    by rewrite lookup_alter_ne by (intros ->; done). }
  by destruct (stale_at m now st x); cbn.
Qed.

Lemma alter_fold_lookup (f : DaemonState → DaemonState) ids (m : gmap string DaemonState) d :
  NoDup ids →
  foldl (λ m d, alter f d m) m ids !! d = if decide (d ∈ ids) then f <$> m !! d else m !! d.
Proof.
  revert m. induction ids as [|x ids IH]; intros m Hnd; cbn [foldl].
  { by rewrite decide_False by apply not_elem_of_nil. }
  apply NoDup_cons in Hnd as [Hx Hnd]. rewrite IH by done.
  destruct (decide (d = x)) as [->|Hne].
  - rewrite decide_False by done. rewrite decide_True by left. by rewrite lookup_alter_eq.
  - rewrite lookup_alter_ne by done. do 2 case_decide; try done; exfalso; set_solver.
Qed.

Lemma evict_fold ids r d :
  daemon_states (foldl evict_daemon r ids) !! d
  = (if decide (d ∈ ids) then None else daemon_states r !! d) ∧
  registrations (foldl evict_daemon r ids) !! d
  = (if decide (d ∈ ids) then None else registrations r !! d).
Proof.
  revert r. induction ids as [|x ids IH]; intros r; cbn [foldl].
  { by rewrite !decide_False by apply not_elem_of_nil. }
  destruct (IH (evict_daemon r x)) as [-> ->]. cbn.
  destruct (decide (d = x)) as [->|Hne].
  - rewrite !lookup_delete_eq, !(decide_True (P := x ∈ x :: ids)) by left. by case_decide.
  - rewrite !lookup_delete_ne by done.
    destruct (decide (d ∈ ids)); [rewrite !decide_True by set_solver; done|].
    by rewrite !decide_False by set_solver.
Qed.

Lemma inv_evict_fold ids r : inv r → inv (foldl evict_daemon r ids).
Proof. revert r. induction ids as [|x ids IH]; intros r I; [done|]. by apply IH, inv_evict. Qed.

(** The daemons the sweep removes: silent past the TTL and not (or no longer)
    online. *)
Definition gone (now st ev : N) (s : DaemonState) : bool :=
  negb (online (mark now st s)) && bool_decide (ev < now - last_seen s)%N.

Lemma last_seen_mark now st s : last_seen (mark now st s) = last_seen s.
Proof. unfold mark. by case_match. Qed.

Section stale_facts.
Context {HI : HashIter string}.

Lemma check_stale_eq r now st ev :
  ∃ m, (∀ d, m !! d = mark now st <$> daemon_states r !! d) ∧
    check_stale_daemons r now st ev =
    (mkStale (filter (λ d, stale_at (daemon_states r) now st d = true) (set_iter (dom (daemon_states r))))
             (filter (λ d, past_ttl m now ev d = true) (set_iter (dom m))),
     foldl evict_daemon (set_states r m)
       (filter (λ d, past_ttl m now ev d = true) (set_iter (dom m)))).
Proof.
  exists (foldl (λ m d, alter (mark now st) d m) (daemon_states r) (set_iter (dom (daemon_states r)))).
  split.
  - intros d. rewrite alter_fold_lookup by apply nodup_set_iter. case_decide as Hd; [done|].
    rewrite elem_of_set_iter, not_elem_of_dom in Hd. by rewrite Hd.
  - unfold check_stale_daemons. by rewrite mark_stale_fold by apply nodup_set_iter.
Qed.

Lemma inv_check_stale r now st ev : inv r → inv (check_stale_daemons r now st ev).2.
Proof.
  intros I. destruct (check_stale_eq r now st ev) as (m & Hm & ->). cbn.
  apply inv_evict_fold, inv_set_states; [done|]. intros d. rewrite Hm.
  destruct (daemon_states r !! d) as [s|]; cbn; [|done].
  exists s. left. split; [done|]. unfold mark. by case_match.
Qed.

Lemma past_ttl_gone r m now st ev d :
  (∀ d, m !! d = mark now st <$> daemon_states r !! d) →
  past_ttl m now ev d = from_option (gone now st ev) false (daemon_states r !! d).
Proof.
  intros Hm. unfold past_ttl, gone. rewrite Hm.
  destruct (daemon_states r !! d) as [s|]; cbn; [|done]. by rewrite last_seen_mark.
Qed.

Lemma elem_of_gone r m now st ev d :
  (∀ d, m !! d = mark now st <$> daemon_states r !! d) →
  d ∈ filter (λ d, past_ttl m now ev d = true) (set_iter (dom m)) ↔
  ∃ s, daemon_states r !! d = Some s ∧ gone now st ev s = true.
Proof.
  intros Hm. rewrite list_elem_of_filter, elem_of_set_iter, elem_of_dom, Hm.
  rewrite (past_ttl_gone r m now st ev d Hm).
  destruct (daemon_states r !! d) as [s|]; cbn; split; naive_solver.
Qed.

Lemma check_stale_spec r now st ev :
  let res := (check_stale_daemons r now st ev).1 in
  let r' := (check_stale_daemons r now st ev).2 in
  (∀ d, d ∈ newly_offline res ↔
     ∃ s, daemon_states r !! d = Some s ∧ is_stale now st s = true) ∧
  (∀ d, d ∈ evicted res ↔ ∃ s, daemon_states r !! d = Some s ∧ gone now st ev s = true) ∧
  (∀ d, daemon_states r' !! d =
     if decide (d ∈ evicted res) then None else mark now st <$> daemon_states r !! d) ∧
  (∀ d, registrations r' !! d =
     if decide (d ∈ evicted res) then None else registrations r !! d).
Proof.
  destruct (check_stale_eq r now st ev) as (m & Hm & ->). cbn. split_and!.
  - intros d. rewrite list_elem_of_filter, elem_of_set_iter, elem_of_dom. unfold stale_at.
    destruct (daemon_states r !! d) as [s|]; cbn; split; naive_solver.
  - intros d. by apply elem_of_gone.
  - intros d. destruct (evict_fold (filter (λ d, past_ttl m now ev d = true) (set_iter (dom m)))
      (set_states r m) d) as [-> _]. cbn. by rewrite Hm.
  - intros d. by destruct (evict_fold (filter (λ d, past_ttl m now ev d = true) (set_iter (dom m)))
      (set_states r m) d) as [_ ->].
Qed.
End stale_facts.

(** ** Session lists *)

Lemma evict_oldest_lastn cap l : evict_oldest cap l = lastn cap l.
Proof.
  induction l as [|x l IH]; [done|]. cbn [evict_oldest]. case_decide as H.
  - rewrite IH. unfold lastn. cbn [length] in *.
    by replace (S (length l) - cap) with (S (length l - cap)) by lia.
  - symmetry. apply lastn_all. lia.
Qed.

Definition sessions_ok (s : DaemonState) : Prop :=
  NoDup (sessions s) ∧ length (sessions s) ≤ MAX_SESSIONS_PER_DAEMON.

Lemma nodup_index_set_insert x l : NoDup l → NoDup (index_set_insert x l).
Proof.
  intros H. unfold index_set_insert. case_decide; [done|].
  apply NoDup_app. split; [done|]. split; [|apply NoDup_singleton].
  by intros y Hy ->%list_elem_of_singleton.
Qed.

Lemma sessions_ok_add s sid : sessions_ok s → sessions_ok (add_session s sid).
Proof.
  intros [H1 H2]. unfold sessions_ok, add_session. cbn [sessions].
  rewrite evict_oldest_lastn, length_lastn. split; [|lia].
  by apply nodup_lastn, nodup_index_set_insert.
Qed.

Definition keeps_sessions (f : DaemonState → DaemonState) : Prop :=
  ∀ s, sessions_ok s → sessions_ok (f s).

Lemma keeps_sessions_same f : (∀ s, sessions (f s) = sessions s) → keeps_sessions f.
Proof. intros Hf s [H1 H2]. unfold sessions_ok. by rewrite Hf. Qed.

Definition all_sessions_ok (r : Registry) : Prop :=
  map_Forall (λ _ s, sessions_ok s) (daemon_states r).

Lemma sessions_ok_seed now : sessions_ok (seed_offline now).
Proof. split; cbn; [constructor|lia]. Qed.

Lemma sessions_ok_fill t s : sessions_ok s → sessions_ok (fill_token t s).
Proof. unfold fill_token. by repeat case_match. Qed.

Lemma all_sessions_update r d f :
  keeps_sessions f → all_sessions_ok r → all_sessions_ok (update_state r d f).
Proof.
  intros Hf H d' s. cbn. destruct (decide (d' = d)) as [->|Hne];
    [rewrite lookup_alter_eq|rewrite lookup_alter_ne by done; apply H].
  destruct (daemon_states r !! d) as [s0|] eqn:E; cbn; [|done].
  intros [= <-]. apply Hf, (H d s0 E).
Qed.

Lemma all_sessions_insert r d s m :
  sessions_ok s → all_sessions_ok r → m = daemon_states r → map_Forall (λ _ s, sessions_ok s) (<[d:=s]> m).
Proof. intros Hs H ->. by apply map_Forall_insert_2. Qed.

Lemma sessions_state_or_seed r d now : all_sessions_ok r → sessions_ok (state_or_seed r d now).
Proof.
  intros H. unfold state_or_seed. destruct (daemon_states r !! d) as [s|] eqn:E; cbn;
    [by apply (H d s)|apply sessions_ok_seed].
Qed.

Lemma all_sessions_upsert r d b t now :
  all_sessions_ok r → all_sessions_ok (upsert_daemon_state r d b t now).
Proof.
  intros H. eapply all_sessions_insert; [|exact H|done].
  pose proof (sessions_state_or_seed r d now H). destruct b; [|done]. by apply sessions_ok_fill.
Qed.

Lemma all_sessions_register r d t p now :
  all_sessions_ok r → all_sessions_ok (handle_register r d t p now).2.
Proof.
  intros H. rewrite register_cases. repeat case_match; try done. cbn.
  assert (all_sessions_ok (stale_token_cleanup r d t)) as Hok.
  { unfold stale_token_cleanup. repeat case_match; try done.
    exact (all_sessions_update r d (set_registration_token (Some t)) (λ s Hs, Hs) H). }
  eapply all_sessions_insert; [|exact Hok|done].
  apply (sessions_ok_fill (Some t)). by apply sessions_state_or_seed.
Qed.

Lemma all_sessions_auth r d t b now : all_sessions_ok r → all_sessions_ok (handle_auth r d t b now).2.
Proof.
  intros A. unfold handle_auth. case_decide; [|done]. cbn.
  pose proof (all_sessions_upsert r d b (if b then Some t else None) now A) as Hu.
  by destruct (b && _).
Qed.

Lemma all_sessions_resume r d b now : all_sessions_ok r → all_sessions_ok (handle_auth_resume r d b now).2.
Proof. intros A. unfold handle_auth_resume. case_match; [|done]. by apply all_sessions_upsert. Qed.

Lemma all_sessions_check_stale {HI : HashIter string} r now st ev :
  all_sessions_ok r → all_sessions_ok (check_stale_daemons r now st ev).2.
Proof.
  intros A d' s. destruct (check_stale_spec r now st ev) as (_ & _ & -> & _).
  case_decide; [done|]. destruct (daemon_states r !! d') as [s0|] eqn:E; cbn; [|done].
  intros [= <-]. unfold mark. pose proof (A d' s0 E). by case_match.
Qed.

(** ** Runs of registry operations *)

Inductive registry_op : Type :=
| ORegister (d t p : string) (now : N)
| OAuth (d t : string) (is_daemon : bool) (now : N)
| OResume (d : string) (is_daemon : bool) (now : N)
| ODisconnect (d : string) (now : N)
| OFrontendDisconnect (d : string) (subs : list string)
| OPub (d sid : string) (now : N)
| OPing (d : string) (now : N)
| OAttach (d sid : string)
| ODetach (d sid : string)
| OEvict (d : string)
| OStale (now stale_timeout_ms offline_evict_ms : N).

Section runs.
Context {HI : HashIter string}.

Definition registry_step (r : Registry) (op : registry_op) : Registry :=
  match op with
  | ORegister d t p now => (handle_register r d t p now).2
  | OAuth d t b now => (handle_auth r d t b now).2
  | OResume d b now => (handle_auth_resume r d b now).2
  | ODisconnect d now => daemon_disconnect r d now
  | OFrontendDisconnect d subs => frontend_disconnect r d subs
  | OPub d sid now => daemon_pub r d sid now
  | OPing d now => daemon_ping r d now
  | OAttach d sid => update_state r d (λ s, attach s sid)
  | ODetach d sid => update_state r d (λ s, detach s sid)
  | OEvict d => evict_daemon r d
  | OStale now st ev => (check_stale_daemons r now st ev).2
  end.

Definition registry_run (cap : nat) (ops : list registry_op) : Registry :=
  foldl registry_step (with_max_registrations cap) ops.

Lemma registry_step_inv r op : inv r → inv (registry_step r op).
Proof.
  intros I. destruct op; cbn; try (apply inv_update; [intros s; done|done]);
    auto using inv_handle_register, inv_handle_auth, inv_handle_auth_resume, inv_evict, inv_check_stale.
  apply inv_update; [apply keeps_token_detach|done].
Qed.

Lemma registry_run_inv cap ops : inv (registry_run cap ops).
Proof.
  induction ops as [|op ops IH] using rev_ind; [apply inv_init|].
  unfold registry_run. rewrite foldl_app. by apply registry_step_inv.
Qed.

Lemma keeps_sessions_detach l : keeps_sessions (λ s, foldl detach s l).
Proof. induction l as [|x l IH]; intros s Hs; [done|]. cbn. by apply IH. Qed.

Lemma registry_step_sessions r op : all_sessions_ok r → all_sessions_ok (registry_step r op).
Proof.
  intros A. destruct op; cbn; try (apply all_sessions_update; [intros s Hs; exact Hs|done]).
  - by apply all_sessions_register.
  - by apply all_sessions_auth.
  - by apply all_sessions_resume.
  - apply all_sessions_update; [apply keeps_sessions_detach|done].
  - apply all_sessions_update; [intros s Hs; by apply sessions_ok_add|done].
  - intros d' s Hs. change (delete d (daemon_states r) !! d' = Some s) in Hs.
    apply lookup_delete_Some in Hs as [_ Hs]. by apply (A d').
  - by apply all_sessions_check_stale.
Qed.

Lemma registry_invariant_max cap ops : max_registrations (registry_run cap ops) = cap.
Proof.
  induction ops as [|op ops IH] using rev_ind; [done|].
  unfold registry_run in *. rewrite foldl_app. cbn. rewrite <-IH at 2. set (r := foldl _ _ ops).
  destruct op; cbn; try done.
  - rewrite register_cases. repeat case_match; try done. apply stale_cleanup_parts.
  - unfold handle_auth. by repeat case_match.
  - unfold handle_auth_resume. by case_match.
  - destruct (check_stale_eq r now stale_timeout_ms offline_evict_ms) as (m & _ & ->). cbn.
    generalize (filter (λ d, past_ttl m now offline_evict_ms d = true) (set_iter (dom m))).
    intros l. change (max_registrations r) with (max_registrations (set_states r m)).
    generalize (set_states r m). induction l as [|x l IHl]; intros r'; [done|]. cbn. by rewrite IHl.
Qed.

(** The registry's tables stay consistent under every sequence of
    operations: a valid token names exactly one daemon, the one whose current
    registration carries it; each registration has a daemon state that
    remembers the same token; every registration has a real proof; the
    registration cap holds. *)
Theorem registry_invariant (cap : nat) (ops : list registry_op) :
  let r := registry_run cap ops in
  (∀ t d, valid_tokens r !! t = Some d → ∃ p, registrations r !! d = Some (mkRegistration t (Some p))) ∧
  (∀ d g, registrations r !! d = Some g →
     ∃ s, daemon_states r !! d = Some s ∧ registration_token s = Some (token g)) ∧
  (0 < cap → size (registrations r) ≤ cap).
Proof.
  cbn. pose proof (registry_run_inv cap ops) as I. split_and!; [|apply I|].
  - intros t d Hv. destruct (inv_valid _ I t d Hv) as [p Hp].
    destruct (inv_proof _ I d _ Hp) as [q Hq]. cbn in Hq. subst. by exists q.
  - pose proof (inv_cap _ I) as Hc. by rewrite registry_invariant_max in Hc.
Qed.

(** Every session list stays a duplicate-free list of at most 256 ids. *)
Theorem sessions_invariant (cap : nat) (ops : list registry_op) d s :
  daemon_states (registry_run cap ops) !! d = Some s →
  NoDup (sessions s) ∧ length (sessions s) ≤ MAX_SESSIONS_PER_DAEMON.
Proof.
  revert d s. change (all_sessions_ok (registry_run cap ops)).
  induction ops as [|op ops IH] using rev_ind; [by intros d s; cbn; rewrite lookup_empty|].
  unfold registry_run. rewrite foldl_app. by apply registry_step_sessions.
Qed.

(** No takeover: once a daemon id is registered with a proof, in any
    reachable registry a registration under another proof is refused and
    changes nothing; and a token authenticates only as the current token of
    the daemon it is presented for. *)
Theorem no_takeover (cap : nat) (ops : list registry_op) d g q :
  let r := registry_run cap ops in
  registrations r !! d = Some g → proof g = Some q →
  (∀ t p now, p ≠ q → handle_register r d t p now = (Err DIFFERENT_CREDENTIALS, r)) ∧
  (∀ t b now, t ≠ token g → handle_auth r d t b now = (Err INVALID_TOKEN, r)).
Proof.
  cbn. intros Hg Hq. set (r := registry_run cap ops) in *. split.
  - intros t p now Hne. rewrite register_cases. unfold capacity_reached, proof_conflict.
    rewrite Hg. cbn. rewrite Hq. by rewrite bool_decide_eq_true_2.
  - intros t b now Hne. unfold handle_auth. rewrite decide_False; [done|]. intros Hv.
    destruct (inv_valid r (registry_run_inv cap ops) t d Hv) as [p Hp]. fold r in Hp.
    rewrite Hg in Hp. simplify_eq.
Qed.

(** Eviction is complete: after it the daemon's id resumes nothing,
    authenticates under no token, and can be registered afresh. *)
Theorem evicted_is_forgotten (cap : nat) (ops : list registry_op) d :
  let r := evict_daemon (registry_run cap ops) d in
  daemon_states r !! d = None ∧
  (∀ b now, handle_auth_resume r d b now = (Err NO_LONGER_REGISTERED, r)) ∧
  (∀ t b now, handle_auth r d t b now = (Err INVALID_TOKEN, r)) ∧
  (∀ t p now, cap = 0 ∨ size (registrations r) < cap → (handle_register r d t p now).1 = Ok tt).
Proof.
  pose proof (inv_evict _ d (registry_run_inv cap ops)) as I.
  assert (max_registrations (evict_daemon (registry_run cap ops) d) = cap) as Hm
    by exact (registry_invariant_max cap ops).
  assert (registrations (evict_daemon (registry_run cap ops) d) !! d = None) as Hr
    by apply lookup_delete_eq.
  cbv zeta. split; [apply lookup_delete_eq|].
  generalize dependent (evict_daemon (registry_run cap ops) d). intros r I Hm Hr. split_and!.
  - intros b now. unfold handle_auth_resume. by rewrite Hr.
  - intros t b now. unfold handle_auth. rewrite decide_False; [done|].
    intros Hv. destruct (auth_registered r d t I Hv) as [? ?]. congruence.
  - intros t p now Hcap. rewrite register_cases. unfold capacity_reached, proof_conflict.
    rewrite Hr, Hm. cbn -[bool_decide]. destruct Hcap as [->|Hlt].
    + by rewrite (bool_decide_eq_false_2 (0 < 0)) by lia.
    + by rewrite (bool_decide_eq_false_2 (cap ≤ _)) by lia; rewrite andb_false_r.
Qed.

(** Registration, on every branch, from any reachable registry: it is
    refused exactly when a new id meets a full table or the stored proof
    differs, and then nothing changes; when accepted, the presented token and
    no other authenticates the daemon (so a rotated token dies), its session
    list is kept, and every other daemon keeps its registration and state. *)
Theorem register_spec (cap : nat) (ops : list registry_op) d t p now :
  let r := registry_run cap ops in
  let '(res, r') := handle_register r d t p now in
  if capacity_reached r d then res = Err CAPACITY_REACHED ∧ r' = r
  else if proof_conflict r d p then res = Err DIFFERENT_CREDENTIALS ∧ r' = r
  else
    res = Ok tt ∧
    registrations r' !! d = Some (mkRegistration t (Some p)) ∧
    (∀ t' b now', (handle_auth r' d t' b now').1 = Ok tt ↔ t' = t) ∧
    (∀ s, daemon_states r !! d = Some s → sessions <$> daemon_states r' !! d = Some (sessions s)) ∧
    (∀ d', d' ≠ d → registrations r' !! d' = registrations r !! d' ∧
                    daemon_states r' !! d' = daemon_states r !! d').
Proof.
  cbv zeta. pose proof (registry_run_inv cap ops) as I.
  generalize dependent (registry_run cap ops). intros r I.
  pose proof (inv_handle_register r d t p now I) as I'. rewrite register_cases in *.
  destruct (capacity_reached r d); [done|]. destruct (proof_conflict r d p); [done|].
  destruct (stale_cleanup_parts r d t) as [Er Em]. destruct (stale_cleanup_spec r d t I) as (Hst & _ & _).
  cbv zeta in *. cbn [snd] in I'. split; [done|]. split; [apply lookup_insert_eq|]. split_and!.
  - intros t' b now'. unfold handle_auth. case_decide as Hv; cbn; [|split; [done|intros ->]].
    + split; [intros _|done]. destruct (inv_valid _ I' _ _ Hv) as [q Hq].
      cbn in Hq. rewrite lookup_insert_eq in Hq. by simplify_eq.
    + exfalso. apply Hv. apply lookup_insert_eq.
  - intros s Hs. cbn. rewrite lookup_insert_eq. cbn. f_equal. unfold state_or_seed.
    assert (∃ s1, daemon_states (stale_token_cleanup r d t) !! d = Some s1 ∧ sessions s1 = sessions s)
      as (s1 & -> & <-).
    { unfold stale_token_cleanup. repeat case_match; eauto.
      cbn. rewrite lookup_alter_eq, Hs. by eexists. }
    cbn. unfold fill_token. by case_match.
  - intros d' Hne. cbn. rewrite !lookup_insert_ne by done. by rewrite Er, Hst.
Qed.

(** The stale sweep, from any reachable registry: exactly the daemons
    that were online and silent for more than the stale timeout go offline,
    exactly those then offline and silent past the eviction TTL are evicted
    (and can no longer authenticate), every survivor keeps its last-seen
    clock, and no other entry changes. *)
Theorem stale_sweep (cap : nat) (ops : list registry_op) now st ev :
  let r := registry_run cap ops in
  let '(res, r') := check_stale_daemons r now st ev in
  (∀ d, d ∈ newly_offline res ↔ ∃ s, daemon_states r !! d = Some s ∧
     online s = true ∧ (st < now - last_seen s)%N) ∧
  (∀ d, d ∈ evicted res ↔ ∃ s, daemon_states r !! d = Some s ∧
     (ev < now - last_seen s)%N ∧ (online s = true → (st < now - last_seen s)%N)) ∧
  (∀ d, d ∈ evicted res → daemon_states r' !! d = None ∧
     ∀ t b now', (handle_auth r' d t b now').1 = Err INVALID_TOKEN) ∧
  (∀ d, d ∉ evicted res → registrations r' !! d = registrations r !! d ∧
     daemon_states r' !! d =
       (if decide (d ∈ newly_offline res) then set_online false else id) <$> daemon_states r !! d).
Proof.
  cbv zeta. pose proof (registry_run_inv cap ops) as I. generalize dependent (registry_run cap ops).
  intros r I. pose proof (inv_check_stale r now st ev I) as I'.
  pose proof (check_stale_spec r now st ev) as (H1 & H2 & H3 & H4).
  destruct (check_stale_daemons r now st ev) as [res r']. cbn in *. split_and!.
  - intros d. rewrite H1. unfold is_stale. split; intros (s & Hs & Hb); exists s; split; try done.
    + by apply andb_true_iff in Hb as [? ?%bool_decide_eq_true_1].
    + apply andb_true_iff. by rewrite bool_decide_eq_true.
  - intros d. rewrite H2. unfold gone, mark, is_stale.
    split; intros (s & Hs & Hb); exists s; split; try done.
    + apply andb_true_iff in Hb as [Ho Hev%bool_decide_eq_true_1]. split; [done|].
      intros Hon. rewrite Hon in Ho. cbn in Ho. case_bool_decide; [done|]. by rewrite Hon in Ho.
    + destruct Hb as [Hev Hon]. rewrite (bool_decide_eq_true_2 _ Hev), andb_true_r.
      destruct (online s) eqn:Eo; cbn; [|by rewrite Eo].
      by rewrite bool_decide_eq_true_2 by auto.
  - intros d Hd. rewrite H3. rewrite decide_True by done. split; [done|]. intros t b now'.
    unfold handle_auth. rewrite decide_False; [done|]. intros Hv.
    destruct (auth_registered r' d t I' Hv) as [g Hg]. rewrite H4, decide_True in Hg by done. done.
  - intros d Hd. rewrite H4, H3, !decide_False by done. split; [done|].
    destruct (daemon_states r !! d) as [s|] eqn:E; [|by case_decide]. cbn. f_equal. unfold mark.
    case_decide as Hn; [|destruct (is_stale now st s) eqn:Es; [|done]].
    + apply H1 in Hn as (s' & Hs' & Hst). simplify_eq. by rewrite Hst.
    + exfalso. apply Hn, H1. eauto.
Qed.
End runs.

(** ** Witnesses: one short history of a daemon *)

Definition demo_ops : list registry_op :=
  [ORegister "d1" "tok" "prf" 10; OAuth "d1" "tok" true 20; OPub "d1" "s1" 30;
   OAuth "d1" "tok" false 40; OAttach "d1" "s1"; ODisconnect "d1" 50].

Definition demo_run : Registry := registry_run (HI := elements_iter string) 3 demo_ops.

Definition demo_state : DaemonState :=
  mkDaemonState false ["s1"] 50 {[ "s1" := 1%N ]} (Some "tok").

Lemma sessions_invariant_witness :
  daemon_states demo_run !! "d1" = Some demo_state ∧
  NoDup (sessions demo_state) ∧ length (sessions demo_state) ≤ MAX_SESSIONS_PER_DAEMON.
Proof.
  assert (daemon_states demo_run !! "d1" = Some demo_state) as H by (vm_compute; reflexivity).
  split; [exact H|]. exact (sessions_invariant (HI := elements_iter string) 3 demo_ops "d1" demo_state H).
Defined.

Lemma no_takeover_witness :
  handle_register demo_run "d1" "tok2" "evil" 60 = (Err DIFFERENT_CREDENTIALS, demo_run) ∧
  handle_auth demo_run "d1" "evil" true 60 = (Err INVALID_TOKEN, demo_run).
Proof.
  assert (registrations demo_run !! "d1" = Some (mkRegistration "tok" (Some "prf"))) as H
    by (vm_compute; reflexivity).
  destruct (no_takeover (HI := elements_iter string) 3 demo_ops "d1" _ "prf" H eq_refl) as [H1 H2].
  split; [apply H1|apply H2]; discriminate.
Defined.

Lemma evicted_is_forgotten_witness :
  (handle_register (evict_daemon demo_run "d1") "d1" "tok2" "other" 60).1 = Ok tt.
Proof.
  apply (evicted_is_forgotten (HI := elements_iter string) 3 demo_ops "d1").
  right. vm_compute. lia.
Defined.

Lemma stale_sweep_witness :
  let res := check_stale_daemons (HI := elements_iter string) demo_run 1000 90 500 in
  res.1 = mkStale [] ["d1"] ∧ daemon_states res.2 !! "d1" = None.
Proof.
  assert ((check_stale_daemons (HI := elements_iter string) demo_run 1000 90 500).1 = mkStale [] ["d1"])
    as E by (vm_compute; reflexivity).
  cbv zeta. split; [exact E|].
  pose proof (stale_sweep (HI := elements_iter string) 3 demo_ops 1000 90 500) as H. cbv zeta in H.
  change (registry_run (HI := elements_iter string) 3 demo_ops) with demo_run in H.
  revert H E. destruct (check_stale_daemons (HI := elements_iter string) demo_run 1000 90 500) as [res r'].
  cbn. intros (_ & _ & H & _) ->. apply H. left.
Defined.
