(* ===== verification/ResumeToken.v ===== *)
(** * ResumeToken: signed resume tokens of [rust/tp-relay/src/resume_token.rs].
    The MAC (crate [blake2]) and base64url (crate [base64]) are parameters; the
    payload layout, the signer and every rejection branch are the source's. *)
From stdpp Require Import base list numbers strings.
From Stdlib Require Import Lia NArith Ascii.
From S2P Require Import Prelude Bytes Text Concrete.

Definition VERSION : N := 2.
Definition SECRET_MIN_BYTES : nat := 32.
Definition DEFAULT_TTL_MS : N := 60 * 60000.
Definition ROLE_DAEMON : N := 0.
Definition ROLE_FRONTEND : N := 1.
Definition u64_modulus : N := 2 ^ 64.

Inductive ResumePayload : Type :=
| PDaemon (daemon_id : string) (expires_at : N)
| PFrontend (daemon_id frontend_id : string) (expires_at : N).

#[export] Instance resume_payload_eq_dec : EqDecision ResumePayload.
Proof. solve_decision. Defined.

Definition daemon_id (p : ResumePayload) : string :=
  match p with PDaemon d _ => d | PFrontend d _ _ => d end.

Definition expires_at (p : ResumePayload) : N :=
  match p with PDaemon _ e => e | PFrontend _ _ e => e end.

(** ** Binary payload codec *)

Definition encode_fields (role : N) (did fid : bytes) (exp : N) : bytes :=
  [as_u8 VERSION; as_u8 role]
    ++ to_be_bytes 4 (as_u32 (N.of_nat (length did))) ++ did
    ++ to_be_bytes 4 (as_u32 (N.of_nat (length fid))) ++ fid
    ++ to_be_bytes 8 exp.

Definition encode_payload (p : ResumePayload) : bytes :=
  match p with
  | PDaemon d e => encode_fields ROLE_DAEMON (as_bytes d) (as_bytes "") e
  | PFrontend d f e => encode_fields ROLE_FRONTEND (as_bytes d) (as_bytes f) e
  end.

(** On a 64-bit target neither [offset + 4] nor [start + len] overflows. *)
Definition read_lp_string (b : bytes) (offset : nat) : option (string * nat) :=
  if decide (length b < offset + 4) then None
  else
    let len := N.to_nat (from_be_bytes (slice b offset (offset + 4))) in
    let start := offset + 4 in
    let stop := start + len in
    if decide (length b < stop) then None
    else let?o s := from_utf8 (slice b start stop) in Some (s, stop).

Definition decode_payload (b : bytes) : option ResumePayload :=
  let?o version := b !! 0 in
  if decide (byte_val version ≠ VERSION) then None else
  let?o role_byte := b !! 1 in
  let?o (did, cur) := read_lp_string b 2 in
  let?o (fid, cur) := read_lp_string b cur in
  if decide (cur + 8 ≠ length b) then None else
  let exp := from_be_bytes (slice b cur (cur + 8)) in
  if decide (byte_val role_byte = ROLE_DAEMON) then Some (PDaemon did exp)
  else if decide (byte_val role_byte = ROLE_FRONTEND) then Some (PFrontend did fid exp)
  else None.

(** ** The signer *)

(** What the signer takes from the crates it links. *)
Class ResumeCrypto := {
  blake2b_keyed_32 : bytes → bytes → bytes;
  b64url_encode : bytes → string;
  b64url_decode : string → option bytes
}.

(** Documented behaviour: a 32-byte tag; the URL-safe alphabet without padding
    (no ['.']), decoding inverting encoding and accepting canonical text only. *)
Class ResumeCryptoLaws (C : ResumeCrypto) : Prop := {
  mac_length k m : length (blake2b_keyed_32 k m) = 32;
  b64url_decode_encode b : b64url_decode (b64url_encode b) = Some b;
  b64url_canonical s b : b64url_decode s = Some b → b64url_encode b = s;
  b64url_no_dot b : str_contains "."%char (b64url_encode b) = false;
  b64url_nonempty b : b64url_encode b = "" → b = []
}.

(** [provided] secrets of at least 32 bytes are truncated; otherwise the
    32 bytes [random] drawn from [OsRng] are the key. *)
Definition resolve_key (provided : option bytes) (random : bytes) : bytes * bool :=
  match provided with
  | Some b => if decide (SECRET_MIN_BYTES ≤ length b) then (take 32 b, false) else (random, true)
  | None => (random, true)
  end.

Record ResumeTokenSigner := mkSigner { key : bytes; ephemeral : bool; ttl_ms : N }.

Definition new (secret : option bytes) (ttl : option N) (random : bytes) : ResumeTokenSigner :=
  let '(k, e) := resolve_key secret random in mkSigner k e (default DEFAULT_TTL_MS ttl).

Definition from_env (env : option string) (random : bytes) : ResumeTokenSigner :=
  let env_val := default "" env in
  let secret := if decide (SECRET_MIN_BYTES ≤ str_len env_val) then Some (as_bytes env_val) else None in
  let '(k, e) := resolve_key secret random in mkSigner k e DEFAULT_TTL_MS.

Definition with_expires_at (p : ResumePayload) (e : N) : ResumePayload :=
  match p with PDaemon d _ => PDaemon d e | PFrontend d f _ => PFrontend d f e end.

Section signer.
Context {C : ResumeCrypto}.

(** [now_ms + self.ttl_ms] on u64, wrapping as a release build does. *)
Definition issue (self : ResumeTokenSigner) (payload : ResumePayload) (now_ms : N)
    (expires_at_override : option N) : string * N :=
  let exp := default ((now_ms + ttl_ms self) mod u64_modulus)%N expires_at_override in
  let effective := with_expires_at payload exp in
  let body := encode_payload effective in
  let mac := blake2b_keyed_32 (key self) body in
  (b64url_encode body +:+ String "."%char (b64url_encode mac), exp).

Definition verify (self : ResumeTokenSigner) (tok : string) (now_ms : N) : option ResumePayload :=
  let?o (body_b64, sig_b64) := rsplit_once "."%char tok in
  if decide (body_b64 = "") then None else
  let?o body := b64url_decode body_b64 in
  let?o sig := b64url_decode sig_b64 in
  let expected := blake2b_keyed_32 (key self) body in
  if decide (length sig ≠ length expected) then None else
  if decide (sig ≠ expected) then None else
  let?o payload := decode_payload body in
  if decide (expires_at payload ≤ now_ms)%N then None else
  if decide (daemon_id payload = "") then None else
  match payload with
  | PFrontend _ f _ => if decide (f = "") then None else Some payload
  | PDaemon _ _ => Some payload
  end.
End signer.

(** ** Payload codec facts *)

Lemma read_lp_string_app a s r :
  is_str s → (N.of_nat (str_len s) < 2 ^ 32)%N →
  read_lp_string (a ++ to_be_bytes 4 (as_u32 (N.of_nat (length (as_bytes s)))) ++ as_bytes s ++ r) (length a)
  = Some (s, length a + 4 + str_len s).
Proof.
  intros Hs Hl. unfold read_lp_string.
  assert (as_u32 (N.of_nat (length (as_bytes s))) = N.of_nat (str_len s)) as ->.
  { rewrite str_len_as_bytes. by apply N.mod_small. }
  rewrite slice_app_at by (autorewrite with tpr; lia).
  rewrite from_to_be_bytes_small by (cbn; exact Hl). rewrite Nat2N.id.
  assert (length (a ++ to_be_bytes 4 (N.of_nat (str_len s)) ++ as_bytes s ++ r)
          = length a + 4 + str_len s + length r) as Hlen.
  { rewrite !length_app, length_to_be_bytes, str_len_as_bytes. lia. }
  rewrite Hlen, !decide_False by lia.
  replace (slice _ (length a + 4) (length a + 4 + str_len s)) with (as_bytes s).
  { by rewrite from_utf8_as_bytes by done. }
  rewrite (app_assoc a), slice_app_at; [done|..];
    rewrite ?length_app, ?length_to_be_bytes, ?str_len_as_bytes; lia.
Qed.

(** What the encoder may be asked to store. *)
Definition encodable (p : ResumePayload) : Prop :=
  (expires_at p < u64_modulus)%N ∧
  match p with
  | PDaemon d _ => is_str d ∧ (N.of_nat (str_len d) < 2 ^ 32)%N
  | PFrontend d f _ =>
      (is_str d ∧ (N.of_nat (str_len d) < 2 ^ 32)%N) ∧ (is_str f ∧ (N.of_nat (str_len f) < 2 ^ 32)%N)
  end.

Lemma decode_fields role d f e :
  is_str d → is_str f → (N.of_nat (str_len d) < 2 ^ 32)%N → (N.of_nat (str_len f) < 2 ^ 32)%N →
  (e < u64_modulus)%N → (role < 256)%N →
  decode_payload (encode_fields role (as_bytes d) (as_bytes f) e) =
  if decide (role = ROLE_DAEMON) then Some (PDaemon d e)
  else if decide (role = ROLE_FRONTEND) then Some (PFrontend d f e) else None.
Proof.
  intros Hd Hf Hdl Hfl He Hr. unfold decode_payload, encode_fields.
  set (D := to_be_bytes 4 (as_u32 (N.of_nat (length (as_bytes d))))).
  set (F := to_be_bytes 4 (as_u32 (N.of_nat (length (as_bytes f))))).
  set (X := to_be_bytes 8 e).
  assert (length D = 4) as HD by apply length_to_be_bytes.
  assert (length F = 4) as HF by apply length_to_be_bytes.
  assert (length X = 8) as HX by apply length_to_be_bytes.
  change ((_ ++ _) !! 0) with (Some (as_u8 VERSION)).
  change ((_ ++ _) !! 1) with (Some (as_u8 role)).
  cbn [mbind option_bind].
  rewrite decide_False by (intros Hn; apply Hn; by rewrite byte_val_as_u8).
  pose proof (read_lp_string_app [as_u8 VERSION; as_u8 role] d (F ++ as_bytes f ++ X) Hd Hdl) as E1.
  cbn [length] in E1. fold D in E1. rewrite E1. cbn [mbind option_bind].
  pose proof (read_lp_string_app ([as_u8 VERSION; as_u8 role] ++ D ++ as_bytes d) f X Hf Hfl) as E2.
  fold F in E2. rewrite <-!app_assoc in E2.
  replace (length ([as_u8 VERSION; as_u8 role] ++ D ++ as_bytes d)) with (2 + 4 + str_len d) in E2
    by (rewrite !length_app, HD, str_len_as_bytes; done).
  rewrite E2. cbn [mbind option_bind].
  rewrite decide_False.
  2:{ intros Hn. apply Hn. rewrite !length_app, HD, HF, HX, !str_len_as_bytes. cbn [length]. lia. }
  replace (slice _ _ (2 + 4 + str_len d + 4 + str_len f + 8)) with X.
  2:{ rewrite !app_assoc, <-(app_nil_r X), app_assoc, <-(app_assoc _ X []). symmetry.
      apply slice_app_at; rewrite !length_app, HD, HF, !str_len_as_bytes, ?HX; cbn [length]; lia. }
  unfold X. rewrite from_to_be_bytes_small by exact He.
  by rewrite byte_val_as_u8, N.mod_small.
Qed.

Lemma decode_encode_payload p : encodable p → decode_payload (encode_payload p) = Some p.
Proof.
  destruct p as [d e|d f e]; intros [He H]; cbn [expires_at] in He.
  - destruct H. by apply decode_fields.
  - destruct H as [[? ?] [? ?]]. by apply decode_fields.
Qed.

Lemma read_lp_string_inv b off s stop :
  read_lp_string b off = Some (s, stop) →
  is_str s ∧ (N.of_nat (str_len s) < 2 ^ 32)%N ∧ stop = off + 4 + str_len s ∧ stop ≤ length b ∧
  slice b off stop = to_be_bytes 4 (as_u32 (N.of_nat (length (as_bytes s)))) ++ as_bytes s.
Proof.
  unfold read_lp_string. case_decide as H1; [done|]. case_decide as H2; [done|].
  set (len := from_be_bytes (slice b off (off + 4))) in *.
  destruct (from_utf8 _) as [s'|] eqn:E; cbn; [|done]. intros [= <- <-].
  apply from_utf8_Some in E as [Hs Hb].
  assert (length (slice b off (off + 4)) = 4) as Hl4 by (rewrite length_slice; lia).
  assert (len < 2 ^ 32)%N as Hlen.
  { unfold len. pose proof (from_be_bytes_lt (slice b off (off + 4))) as H. by rewrite Hl4 in H. }
  assert (str_len s' = N.to_nat len) as Hsl.
  { rewrite <-str_len_as_bytes, Hb, length_slice; lia. }
  rewrite str_len_as_bytes, Hsl, N2Nat.id. split_and!; try done; try lia.
  unfold as_u32. rewrite N.mod_small by exact Hlen.
  change (slice b off (off + 4 + N.to_nat len) = to_be_bytes 4 len ++ as_bytes s').
  assert (to_be_bytes 4 len = slice b off (off + 4)) as ->.
  { unfold len. rewrite <-Hl4 at 1. apply to_from_be_bytes. }
  rewrite Hb. unfold slice.
  replace (off + 4 + N.to_nat len - off) with (4 + N.to_nat len) by lia.
  replace (off + 4 - off) with 4 by lia.
  replace (off + 4 + N.to_nat len - (off + 4)) with (N.to_nat len) by lia.
  rewrite <-drop_drop. symmetry. apply take_take_drop.
Qed.

Lemma slice_split (b : bytes) lo mid hi :
  lo ≤ mid → mid ≤ hi → slice b lo hi = slice b lo mid ++ slice b mid hi.
Proof.
  intros H1 H2. unfold slice. replace (hi - lo) with ((mid - lo) + (hi - mid)) by lia.
  replace (drop mid b) with (drop (mid - lo) (drop lo b)) by (rewrite drop_drop; f_equal; lia).
  symmetry. apply take_take_drop.
Qed.

(** Everything the decoder accepts is an encoding: of the payload itself, or,
    for a daemon, of the payload with some frontend id it ignores. *)
Lemma decode_payload_inv b p :
  decode_payload b = Some p →
  ∃ f, is_str f ∧
    b = encode_fields (match p with PDaemon _ _ => ROLE_DAEMON | PFrontend _ _ _ => ROLE_FRONTEND end)
          (as_bytes (daemon_id p)) (as_bytes f) (expires_at p) ∧
    match p with PFrontend _ f' _ => f' = f | PDaemon _ _ => True end ∧ encodable p.
Proof.
  unfold decode_payload. destruct (b !! 0) as [v|] eqn:E0; cbn; [|done].
  case_decide as Hv; [done|]. destruct (b !! 1) as [r|] eqn:E1; cbn; [|done].
  destruct (read_lp_string b 2) as [[d c1]|] eqn:R1; cbn; [|done].
  destruct (read_lp_string b c1) as [[f c2]|] eqn:R2; cbn; [|done].
  case_decide as Hc; [done|].
  apply read_lp_string_inv in R1 as (Hd & Hdl & Hc1 & _ & Hs1).
  apply read_lp_string_inv in R2 as (Hf & Hfl & Hc2 & _ & Hs2).
  assert (c2 + 8 = length b) as Hend by lia. clear Hc.
  set (e := from_be_bytes (slice b c2 (c2 + 8))).
  assert (length (slice b c2 (c2 + 8)) = 8) as H8 by (rewrite length_slice; lia).
  assert (e < u64_modulus)%N as He.
  { unfold e. pose proof (from_be_bytes_lt (slice b c2 (c2 + 8))) as H. by rewrite H8 in H. }
  assert (as_u8 VERSION = v) as Ev.
  { by rewrite <-Hv, as_u8_byte_val. }
  assert (b = encode_fields (byte_val r) (as_bytes d) (as_bytes f) e) as Hb.
  { unfold encode_fields. rewrite Ev, as_u8_byte_val.
    destruct b as [|v' [|r' b']]; [done|done|]. cbn in E0, E1.
    injection E0 as ->. injection E1 as ->.
    rewrite (app_assoc (to_be_bytes 4 _) (as_bytes d)), <-Hs1.
    rewrite (app_assoc (to_be_bytes 4 _) (as_bytes f)), <-Hs2.
    replace (to_be_bytes 8 e) with (slice (v :: r :: b') c2 (length (v :: r :: b'))).
    2:{ pose proof (to_from_be_bytes (slice (v :: r :: b') c2 (c2 + 8))) as T. rewrite H8 in T.
        unfold e. rewrite T. f_equal; cbn [length] in *; lia. }
    rewrite <-slice_split by (cbn [length] in *; lia).
    rewrite <-slice_split by (cbn [length] in *; lia).
    unfold slice. cbn [drop app length]. replace (S (S (length b')) - 2) with (length b') by lia.
    by rewrite firstn_all. }
  intros Hp. exists f. split; [done|].
  case_decide as H0; [|case_decide as H1; [|done]]; simplify_eq; cbn; unfold encodable; cbn;
    rewrite <-?H0, <-?H1; done.
Qed.

(** The resume-token payload codec round trips: decoding an encoded
    payload with ids below 4 GiB gives it back, and a frontend payload has no
    other encoding. *)
Theorem payload_roundtrip (p : ResumePayload) :
  encodable p →
  decode_payload (encode_payload p) = Some p ∧
  (∀ b d f e, p = PFrontend d f e → decode_payload b = Some p → b = encode_payload p).
Proof.
  intros H. split; [by apply decode_encode_payload|]. intros b d f e -> Hb.
  apply decode_payload_inv in Hb as (f' & _ & -> & -> & _). done.
Qed.

Lemma payload_roundtrip_witness :
  decode_payload (encode_payload (PFrontend "daemon-1" "fe" 1700000000000)) =
  Some (PFrontend "daemon-1" "fe" 1700000000000).
Proof. apply payload_roundtrip. vm_compute. repeat split. Defined.

(** ** Signer facts *)

Definition ids_present (p : ResumePayload) : Prop :=
  match p with PDaemon d _ => d ≠ "" | PFrontend d f _ => d ≠ "" ∧ f ≠ "" end.

#[export] Instance ids_present_dec p : Decision (ids_present p).
Proof. unfold ids_present. destruct p; apply _. Defined.

Lemma new_keyed secret ttl rng :
  SECRET_MIN_BYTES ≤ length secret →
  key (new (Some secret) ttl rng) = take 32 secret ∧ ttl_ms (new (Some secret) ttl rng) = default DEFAULT_TTL_MS ttl.
Proof. intros Hs. unfold new, resolve_key. by rewrite decide_True. Qed.

Lemma verify_ids {C : ResumeCrypto} s tok now p : verify s tok now = Some p → ids_present p.
Proof.
  unfold verify. destruct (rsplit_once _ tok) as [[b64 s64]|]; cbn; [|done]. case_decide; [done|].
  destruct (b64url_decode b64) as [body|]; cbn; [|done].
  destruct (b64url_decode s64) as [sig|]; cbn; [|done]. case_decide; [done|]. case_decide; [done|].
  destruct (decode_payload body) as [q|]; cbn; [|done]. case_decide; [done|].
  case_decide as Hd; [done|]. destruct q as [d e|d f e]; cbn in Hd; [by intros [= <-]|].
  case_decide as Hf; [done|]. by intros [= <-].
Qed.

Section signer_facts.
Context {C : ResumeCrypto} {L : ResumeCryptoLaws C}.

(** What [verify] does with a token built from a body and its tag. *)
Lemma verify_signed s body now :
  body ≠ [] →
  verify s (b64url_encode body +:+ String "."%char (b64url_encode (blake2b_keyed_32 (key s) body))) now =
  let?o p := decode_payload body in
  if decide (now < expires_at p)%N then if decide (ids_present p) then Some p else None else None.
Proof.
  intros Hb. unfold verify. rewrite rsplit_once_app by apply b64url_no_dot. cbn.
  rewrite decide_False by (intros He; by apply b64url_nonempty in He).
  rewrite !b64url_decode_encode. cbn. rewrite !decide_False by auto.
  destruct (decode_payload body) as [p|]; cbn; [|done].
  destruct (decide (expires_at p ≤ now)%N); [by rewrite decide_False by lia|].
  rewrite (decide_True (P := (now < expires_at p)%N)) by lia.
  destruct p; cbn; repeat case_decide; naive_solver.
Qed.

Lemma verify_issued s s' p now now' ov :
  key s' = key s → ids_present p → encodable (with_expires_at p (issue s p now ov).2) →
  verify s' (issue s p now ov).1 now' =
    if decide (now' < (issue s p now ov).2)%N then Some (with_expires_at p (issue s p now ov).2) else None.
Proof.
  intros Hk Hids Henc. unfold issue in *. cbn [fst snd] in *. set (exp := default _ ov) in *.
  assert (encode_payload (with_expires_at p exp) ≠ []) as Hne by by destruct p.
  rewrite <-Hk, verify_signed by done. rewrite decode_encode_payload by done. cbn [mbind option_bind].
  destruct p as [d e|d f e]; cbn in *; by case_decide; rewrite ?decide_True.
Qed.

Lemma verify_Some s tok now p :
  verify s tok now = Some p →
  ∃ body fid,
    tok = b64url_encode body +:+ String "."%char (b64url_encode (blake2b_keyed_32 (key s) body)) ∧
    decode_payload body = Some p ∧
    match p with
    | PDaemon d e => body = encode_fields ROLE_DAEMON (as_bytes d) fid e
    | PFrontend _ _ _ => body = encode_payload p
    end ∧
    (now < expires_at p)%N ∧ encodable p ∧ ids_present p.
Proof.
  unfold verify. destruct (rsplit_once _ tok) as [[b64 s64]|] eqn:E; cbn; [|done].
  case_decide; [done|]. destruct (b64url_decode b64) as [body|] eqn:Eb; cbn; [|done].
  destruct (b64url_decode s64) as [sig|] eqn:Es; cbn; [|done].
  case_decide; [done|]. case_decide as Hm; [done|].
  destruct (decode_payload body) as [q|] eqn:Ed; cbn; [|done].
  case_decide as He; [done|]. case_decide as Hd; [done|]. intros Hp.
  assert (q = p ∧ ids_present p) as [-> Hids].
  { destruct q; cbn in Hd; [by simplify_eq|]. case_decide; [done|]. by simplify_eq. }
  pose proof Ed as (f & _ & Hb & Hf & Henc)%decode_payload_inv.
  apply rsplit_once_Some in E as ->. apply b64url_canonical in Eb, Es.
  exists body, (as_bytes f). subst b64 s64 sig. split; [done|]. split; [done|].
  split; [by destruct p; subst|]. split; [lia|]. done.
Qed.
(** Completeness of resume: a token issued for a payload with non-empty
    ids is accepted, with exactly that identity, until its expiry and by no
    later clock; this also holds for a verifier restarted with the same
    32-byte-or-longer secret. *)
Theorem issue_verify (secret : bytes) (ttl ttl' : option N) (rng rng' : bytes)
    (p : ResumePayload) (now now' : N) (ov : option N) :
  SECRET_MIN_BYTES ≤ length secret →
  let '(tok, exp) := issue (new (Some secret) ttl rng) p now ov in
  encodable (with_expires_at p exp) → ids_present p →
  exp = default ((now + default DEFAULT_TTL_MS ttl) mod u64_modulus)%N ov ∧
  verify (new (Some secret) ttl' rng') tok now' =
    if decide (now' < exp)%N then Some (with_expires_at p exp) else None.
Proof.
  intros Hs. destruct (new_keyed secret ttl rng Hs) as [Hk Ht].
  destruct (new_keyed secret ttl' rng' Hs) as [Hk' _].
  destruct (issue _ p now ov) as [tok exp] eqn:E. intros Henc Hids.
  assert (exp = (issue (new (Some secret) ttl rng) p now ov).2) as He by by rewrite E.
  split; [by rewrite He, <-Ht|].
  assert (tok = (issue (new (Some secret) ttl rng) p now ov).1) as -> by by rewrite E.
  rewrite He in *. apply verify_issued; congruence || done.
Qed.

(** Soundness of resume: whatever [verify] accepts is the canonical text
    of a body followed by the tag of that very body under the signer's key;
    the body is an encoding of the returned payload, which is unexpired, has a
    daemon id, and has a frontend id when it is a frontend's. *)
Theorem verify_sound (s : ResumeTokenSigner) (tok : string) (now : N) (p : ResumePayload) :
  verify s tok now = Some p →
  ∃ body fid,
    tok = b64url_encode body +:+ String "."%char (b64url_encode (blake2b_keyed_32 (key s) body)) ∧
    match p with
    | PDaemon d e => body = encode_fields ROLE_DAEMON (as_bytes d) fid e
    | PFrontend _ _ _ => body = encode_payload p
    end ∧
    (now < expires_at p)%N ∧ (expires_at p < u64_modulus)%N ∧ ids_present p.
Proof.
  intros (body & fid & Htok & _ & Hb & Hx & [He _] & Hids)%verify_Some. by exists body, fid.
Qed.
End signer_facts.

(** ** Witnesses *)

Definition demo_crypto : ResumeCrypto :=
  {| blake2b_keyed_32 := pad_tag 32; b64url_encode := nib_encode; b64url_decode := nib_decode |}.

Lemma demo_crypto_laws : ResumeCryptoLaws demo_crypto.
Proof.
  split.
  - apply pad_tag_length.
  - apply nib_decode_encode.
  - intros s b. apply nib_canonical.
  - intros b. by apply nib_no_char.
  - apply nib_encode_nil.
Qed.

Definition demo_secret : bytes := as_bytes "0123456789abcdef0123456789abcdef".
Definition demo_signer : ResumeTokenSigner := new (Some demo_secret) None [].
Definition demo_payload : ResumePayload := PFrontend "d1" "f1" 0.

Lemma issue_verify_witness :
  verify (C := demo_crypto) demo_signer (issue (C := demo_crypto) demo_signer demo_payload 1000 None).1 3600999
  = Some (PFrontend "d1" "f1" 3601000).
Proof.
  pose proof (issue_verify (C := demo_crypto) (L := demo_crypto_laws) demo_secret None None [] [] demo_payload
    1000 3600999 None) as H.
  assert (SECRET_MIN_BYTES ≤ length demo_secret) as Hs by (vm_compute; lia).
  specialize (H Hs).
  assert ((issue (C := demo_crypto) (new (Some demo_secret) None []) demo_payload 1000 None).2 = 3601000%N) as He
    by (vm_compute; reflexivity).
  unfold demo_signer. destruct (issue _ demo_payload 1000 None) as [tok exp]. cbn in He. subst exp.
  cbn [fst]. destruct H as [_ ->]; [vm_compute; repeat split|split; discriminate|]. reflexivity.
Defined.

Lemma verify_sound_witness :
  let tok := (issue (C := demo_crypto) demo_signer demo_payload 1000 None).1 in
  verify (C := demo_crypto) demo_signer tok 2000 = Some (PFrontend "d1" "f1" 3601000) ∧
  (2000 < 3601000)%N.
Proof.
  cbv zeta.
  assert (verify (C := demo_crypto) demo_signer
    (issue (C := demo_crypto) demo_signer demo_payload 1000 None).1 2000
    = Some (PFrontend "d1" "f1" 3601000)) as H by (vm_compute; reflexivity).
  split; [exact H|].
  destruct (verify_sound (L := demo_crypto_laws) _ _ _ _ H) as (body & fid & _ & _ & Hx & _). exact Hx.
Defined.
