(* ===== verification/Handshake.v ===== *)
(** * Handshake: the relay's register / auth / resume handlers,
    [rust/tp-relay/src/handshake.rs], over the registry and the token signer. *)
From stdpp Require Import base list numbers strings gmap.
From Stdlib Require Import Lia NArith Ascii SpecFloat.
From S2P Require Import Prelude Bytes Json Messages Registry Concrete ResumeToken.

Definition FRONTEND_ID_REQUIRED : string := "frontendId is required for role=frontend".
Definition RESUME_INVALID : string := "Resume token invalid or expired".

Definition handle_register (daemon_id token proof : string) (now_ms : N) (registry : Registry)
  : RelayServerMessage * Registry :=
  match Registry.handle_register registry daemon_id token proof now_ms with
  | (Ok _, r) => (RegisterOk daemon_id, r)
  | (Err reason, r) => (RegisterErr reason, r)
  end.

Definition build_resume_payload (daemon_id : string) (is_daemon : bool) (frontend_id : option string)
  : ResumePayload :=
  if is_daemon then PDaemon daemon_id 0 else PFrontend daemon_id (default "" frontend_id) 0.

(** [!is_daemon && matches!(frontend_id, None | Some(""))] *)
Definition frontend_id_missing (is_daemon : bool) (frontend_id : option string) : bool :=
  negb is_daemon && match frontend_id with None => true | Some f => bool_decide (f = "") end.

Section handlers.
Context {C : ResumeCrypto}.

Definition auth_ok_reply (daemon_id : string) (issued : string * N) (resumed : bool) : RelayServerMessage :=
  AuthOk (mkAuthOk daemon_id (Some issued.1) (Some (u64_as_f64 issued.2)) (Some resumed)).

Definition handle_auth (daemon_id token : string) (is_daemon : bool) (frontend_id : option string)
    (now_ms : N) (registry : Registry) (signer : ResumeTokenSigner) : RelayServerMessage * Registry :=
  if frontend_id_missing is_daemon frontend_id then (AuthErr FRONTEND_ID_REQUIRED, registry)
  else
    match Registry.handle_auth registry daemon_id token is_daemon now_ms with
    | (Ok _, r) =>
        (auth_ok_reply daemon_id
           (issue signer (build_resume_payload daemon_id is_daemon frontend_id) now_ms None) false, r)
    | (Err reason, r) => (AuthErr reason, r)
    end.

Definition is_daemon_payload (p : ResumePayload) : bool :=
  match p with PDaemon _ _ => true | PFrontend _ _ _ => false end.

Definition payload_frontend_id (p : ResumePayload) : option string :=
  match p with PDaemon _ _ => None | PFrontend _ f _ => Some f end.

Definition handle_auth_resume (token : string) (now_ms : N) (registry : Registry)
    (signer : ResumeTokenSigner) : (RelayServerMessage * option ResumePayload) * Registry :=
  match verify signer token now_ms with
  | None => ((AuthErr RESUME_INVALID, None), registry)
  | Some payload =>
      let did := daemon_id payload in
      let is_daemon := is_daemon_payload payload in
      match Registry.handle_auth_resume registry did is_daemon now_ms with
      | (Err reason, r) => ((AuthErr reason, None), r)
      | (Ok _, r) =>
          let effective := build_resume_payload did is_daemon (payload_frontend_id payload) in
          ((auth_ok_reply did (issue signer effective now_ms None) true, Some payload), r)
      end
  end.

(** [relay.hello] is not wired to the socket; [mismatches] is the global
    [VERSION_MISMATCH_COUNT] and [display] the float formatting of the reply. *)
Definition handle_hello (display : f64 → string) (daemon_id token : string) (proof : option string)
    (is_daemon : bool) (frontend_id : option string) (v : f64) (now_ms : N)
    (registry : Registry) (signer : ResumeTokenSigner) (mismatches : N)
  : RelayServerMessage * Registry * N :=
  if SFltb v (u64_as_f64 2)
  then (AuthErr ("relay.hello requires v>=2 (got " +:+ display v +:+ ")"), registry,
        ((mismatches + 1) mod u64_modulus)%N)
  else if frontend_id_missing is_daemon frontend_id then (AuthErr FRONTEND_ID_REQUIRED, registry, mismatches)
  else
    let '(registered, r1) :=
      match proof with
      | Some p => Registry.handle_register registry daemon_id token p now_ms
      | None => (Ok tt, registry)
      end in
    match registered with
    | Err reason => (AuthErr reason, r1, mismatches)
    | Ok _ =>
        match Registry.handle_auth r1 daemon_id token is_daemon now_ms with
        | (Err reason, r2) => (AuthErr reason, r2, mismatches)
        | (Ok _, r2) =>
            (auth_ok_reply daemon_id
               (issue signer (build_resume_payload daemon_id is_daemon frontend_id) now_ms None) false,
             r2, mismatches)
        end
    end.
End handlers.

(** ** What the handlers keep *)

Section keeps.
Context {C : ResumeCrypto}.

Lemma register_keeps d t p now r :
  inv r ∧ all_sessions_ok r →
  inv (handle_register d t p now r).2 ∧ all_sessions_ok (handle_register d t p now r).2.
Proof.
  intros [I A]. unfold handle_register.
  pose proof (inv_handle_register r d t p now I). pose proof (all_sessions_register r d t p now A).
  by destruct (Registry.handle_register r d t p now) as [[]].
Qed.

Lemma auth_keeps d t b f now r s :
  inv r ∧ all_sessions_ok r →
  inv (handle_auth d t b f now r s).2 ∧ all_sessions_ok (handle_auth d t b f now r s).2.
Proof.
  intros [I A]. unfold handle_auth. destruct (frontend_id_missing b f); [done|].
  pose proof (inv_handle_auth r d t b now I). pose proof (all_sessions_auth r d t b now A).
  by destruct (Registry.handle_auth r d t b now) as [[]].
Qed.

Lemma auth_resume_keeps t now r s :
  inv r ∧ all_sessions_ok r →
  inv (handle_auth_resume t now r s).2 ∧ all_sessions_ok (handle_auth_resume t now r s).2.
Proof.
  intros [I A]. unfold handle_auth_resume. destruct (verify s t now) as [p|]; [|done].
  pose proof (inv_handle_auth_resume r (daemon_id p) (is_daemon_payload p) now I).
  pose proof (all_sessions_resume r (daemon_id p) (is_daemon_payload p) now A).
  by destruct (Registry.handle_auth_resume r _ _ now) as [[]].
Qed.

(** A successful auth had the current token, and an id if a frontend. *)
Lemma auth_ok_inv d t b f now r s m r' :
  handle_auth d t b f now r s = (AuthOk m, r') →
  ao_daemon_id m = d ∧ valid_tokens r !! t = Some d ∧ (b = false → ∃ f', f = Some f' ∧ f' ≠ "").
Proof.
  unfold handle_auth. destruct (frontend_id_missing b f) eqn:Ef; [done|].
  unfold Registry.handle_auth. case_decide as Hv; [|done]. intros [= <- _]. split; [done|].
  split; [done|]. intros ->. cbn in Ef. destruct f as [f|]; [|done].
  exists f. split; [done|]. by apply bool_decide_eq_false_1 in Ef.
Qed.

Lemma auth_resume_ok_inv t now r s reply p r' :
  handle_auth_resume t now r s = ((reply, Some p), r') →
  verify s t now = Some p ∧ is_Some (registrations r !! daemon_id p) ∧
  ∃ m, reply = AuthOk m ∧ ao_daemon_id m = daemon_id p.
Proof.
  unfold handle_auth_resume. destruct (verify s t now) as [q|]; [|done].
  unfold Registry.handle_auth_resume. destruct (registrations r !! daemon_id q) eqn:Er; [|done].
  intros [= <- <- _]. rewrite Er. by eauto.
Qed.
End keeps.

(** ** Facts *)

(** The identity half of a payload. *)
Definition same_identity (p q : ResumePayload) : Prop :=
  daemon_id p = daemon_id q ∧ is_daemon_payload p = is_daemon_payload q ∧
  payload_frontend_id p = payload_frontend_id q.

Lemma build_with_expires p e :
  with_expires_at (build_resume_payload (daemon_id p) (is_daemon_payload p) (payload_frontend_id p)) e
  = with_expires_at p e.
Proof. by destruct p. Qed.

Definition sound_string (s : string) : Prop := is_str s ∧ (N.of_nat (str_len s) < 2 ^ 32)%N.

Lemma built_encodable d b f e :
  sound_string d → sound_string (default "" f) → (e < u64_modulus)%N →
  encodable (with_expires_at (build_resume_payload d b f) e).
Proof. intros Hd Hf He. by destruct b. Qed.

Lemma built_ids d b f : d ≠ "" → frontend_id_missing b f = false → ids_present (build_resume_payload d b f).
Proof.
  intros Hd Hf. destruct b; [done|]. cbn in *. destruct f as [f|]; [|done]. cbn in *.
  by apply bool_decide_eq_false_1 in Hf.
Qed.

Lemma upsert_tables r d b t now :
  registrations (upsert_daemon_state r d b t now) = registrations r ∧
  valid_tokens (upsert_daemon_state r d b t now) = valid_tokens r.
Proof. done. Qed.

Section facts.
Context {HI : HashIter string} {C : ResumeCrypto} {L : ResumeCryptoLaws C}.

(** The resume contract, end to end: the token a successful full auth
    hands out lets its holder resume, on any later registry, until
    [now + ttl] exactly while the daemon is still registered, and always with
    the daemon, role and frontend id it authenticated as. *)
Theorem auth_then_resume (secret rng : bytes) ttl d t b f now r msg r' :
  SECRET_MIN_BYTES ≤ length secret →
  d ≠ "" → sound_string d → sound_string (default "" f) →
  handle_auth d t b f now r (new (Some secret) ttl rng) = (AuthOk msg, r') →
  ∃ tok,
    ao_resume_token msg = Some tok ∧
    ∀ r2 now2,
      let exp := ((now + default DEFAULT_TTL_MS ttl) mod u64_modulus)%N in
      let '((reply, who), r2') := handle_auth_resume tok now2 r2 (new (Some secret) ttl rng) in
      if decide (now2 < exp)%N then
        match registrations r2 !! d with
        | Some _ =>
            (∃ m, reply = AuthOk m ∧ ao_daemon_id m = d ∧ ao_resumed m = Some true) ∧
            who = Some (with_expires_at (build_resume_payload d b f) exp) ∧
            r2' = upsert_daemon_state r2 d b None now2
        | None => reply = AuthErr NO_LONGER_REGISTERED ∧ who = None ∧ r2' = r2
        end
      else reply = AuthErr RESUME_INVALID ∧ who = None ∧ r2' = r2.
Proof.
  intros Hs Hd Hds Hfs. unfold handle_auth. destruct (frontend_id_missing b f) eqn:Ef; [done|].
  destruct (Registry.handle_auth r d t b now) as [[[]|e] r1]; [|done]. intros [= <- <-].
  set (sg := new (Some secret) ttl rng) in *. set (p := build_resume_payload d b f).
  destruct (new_keyed secret ttl rng Hs) as [_ Ht]. fold sg in Ht.
  exists (issue sg p now None).1. split; [done|]. intros r2 now2.
  set (exp := ((now + default DEFAULT_TTL_MS ttl) mod u64_modulus)%N).
  assert ((issue sg p now None).2 = exp) as He by (unfold exp; by rewrite <-Ht).
  pose proof (verify_issued sg sg p now now2 None eq_refl (built_ids d b f Hd Ef)) as Hv.
  rewrite He in Hv.
  assert (exp < u64_modulus)%N as Hexp by (unfold exp; by apply N.mod_lt).
  specialize (Hv (built_encodable d b f exp Hds Hfs Hexp)).
  unfold handle_auth_resume. rewrite Hv. case_decide; [|done].
  assert (daemon_id (with_expires_at p exp) = d) as -> by (unfold p; by destruct b).
  unfold Registry.handle_auth_resume. destruct (registrations r2 !! d); [|done].
  split; [by eexists|]. split; [done|]. by destruct b.
Qed.

(** C20. Resume never elevates: whatever token is presented, from any
    registry, an accepted resume names a registered daemon, carries the tag of
    its own body under the relay's key, re-issues a token for exactly the
    identity in that body, and changes only that daemon's state entry; a
    refused one changes nothing. *)
Theorem resume_sound tok now r s reply who r' :
  handle_auth_resume tok now r s = ((reply, who), r') →
  match who with
  | Some p =>
      is_Some (registrations r !! daemon_id p) ∧
      (∃ body, tok = b64url_encode body +:+ String "."%char (b64url_encode (blake2b_keyed_32 (key s) body))
               ∧ decode_payload body = Some p) ∧
      (now < expires_at p)%N ∧
      reply = auth_ok_reply (daemon_id p)
                (issue s (with_expires_at p 0) now None) true ∧
      registrations r' = registrations r ∧ valid_tokens r' = valid_tokens r ∧
      (∀ d, d ≠ daemon_id p → daemon_states r' !! d = daemon_states r !! d)
  | None => r' = r ∧ ∃ e, reply = AuthErr e
  end.
Proof.
  unfold handle_auth_resume. destruct (verify s tok now) as [p|] eqn:Ev.
  2:{ intros [= <- <- <-]. eauto. }
  unfold Registry.handle_auth_resume. destruct (registrations r !! daemon_id p) eqn:Er.
  2:{ intros [= <- <- <-]. eauto. }
  intros [= <- <- <-]. apply verify_Some in Ev as (body & fid & Htok & Hdec & _ & Hx & _ & _).
  split_and!; try done.
  - by exists body.
  - by destruct p.
  - intros d' Hne. cbn. by rewrite lookup_insert_ne.
Qed.

(** [relay.hello] is the merge of register and auth: past its version and
    frontend-id gates, with a proof it does what the two handlers do in
    sequence (stopping at a refused registration), and then the auth half
    cannot fail; without a proof it is a plain auth. *)
Theorem hello_is_register_then_auth display d t b f v now r s n :
  SFltb v (u64_as_f64 2) = false → frontend_id_missing b f = false →
  (∀ p, handle_hello display d t (Some p) b f v now r s n =
     match handle_register d t p now r with
     | (RegisterOk _, r1) => (handle_auth d t b f now r1 s, n)
     | (RegisterErr e, r1) => (AuthErr e, r1, n)
     | (m, r1) => (m, r1, n)
     end) ∧
  (∀ p r1, handle_register d t p now r = (RegisterOk d, r1) →
     ∃ m, (handle_auth d t b f now r1 s).1 = AuthOk m ∧ ao_daemon_id m = d) ∧
  handle_hello display d t None b f v now r s n = (handle_auth d t b f now r s, n).
Proof.
  intros Hv Hf. unfold handle_hello, handle_auth, handle_register. rewrite Hv, Hf. split_and!.
  - intros p. destruct (Registry.handle_register r d t p now) as [[[]|e] r1]; [|done].
    by destruct (Registry.handle_auth r1 d t b now) as [[[]|e] r2].
  - intros p r1. rewrite register_cases. destruct (capacity_reached r d); [done|].
    destruct (proof_conflict r d p); [done|]. intros [= <-]. unfold Registry.handle_auth.
    rewrite decide_True by (cbn; by rewrite lookup_insert_eq). by eexists.
  - by destruct (Registry.handle_auth r d t b now) as [[[]|e] r1].
Qed.
End facts.

(** ** Witnesses *)

Definition demo_auth := handle_auth (C := demo_crypto) "d1" "tok" false (Some "f1") 1000 demo_run demo_signer.

Lemma auth_then_resume_witness :
  ∃ tok, ∀ r2, registrations r2 !! "d1" = None →
    handle_auth_resume (C := demo_crypto) tok 2000 r2 demo_signer
    = ((AuthErr NO_LONGER_REGISTERED, None), r2).
Proof.
  destruct demo_auth as [reply r'] eqn:E.
  assert (∃ m, reply = AuthOk m) as [m ->].
  { assert (reply = demo_auth.1) as -> by (rewrite E; reflexivity). vm_compute. eexists. reflexivity. }
  destruct (auth_then_resume (L := demo_crypto_laws) demo_secret [] None "d1" "tok" false (Some "f1") 1000
    demo_run m r') as (tok & _ & H).
  - vm_compute; lia.
  - discriminate.
  - vm_compute; split; reflexivity.
  - vm_compute; split; reflexivity.
  - exact E.
  - exists tok. intros r2 Hr. specialize (H r2 2000%N). cbv zeta in H.
    change (new (Some demo_secret) None []) with demo_signer in H.
    destruct (handle_auth_resume tok 2000 r2 demo_signer) as [[reply who] r2'].
    rewrite decide_True in H by (vm_compute; reflexivity). rewrite Hr in H.
    destruct H as (-> & -> & ->). reflexivity.
Defined.

Definition demo_token : string :=
  (issue (C := demo_crypto) demo_signer (PFrontend "d1" "f1" 0) 1000 None).1.

Lemma resume_sound_witness :
  (handle_auth_resume (C := demo_crypto) demo_token 2000 demo_run demo_signer).1.2
    = Some (PFrontend "d1" "f1" 3601000) ∧
  is_Some (registrations demo_run !! "d1").
Proof.
  destruct (handle_auth_resume (C := demo_crypto) demo_token 2000 demo_run demo_signer)
    as [[reply who] r'] eqn:E.
  assert (who = Some (PFrontend "d1" "f1" 3601000)) as ->.
  { assert (who = (handle_auth_resume (C := demo_crypto) demo_token 2000 demo_run demo_signer).1.2) as ->
      by (rewrite E; reflexivity). vm_compute. reflexivity. }
  split; [reflexivity|].
  exact (proj1 (resume_sound (L := demo_crypto_laws) _ _ _ _ _ _ _ E)).
Defined.

Lemma hello_is_register_then_auth_witness :
  (handle_hello (C := demo_crypto) (λ _, "2") "d1" "tok" None true None (u64_as_f64 2) 10 demo_run
     demo_signer 0).2 = 0%N.
Proof.
  destruct (hello_is_register_then_auth (C := demo_crypto) (λ _, "2") "d1" "tok" true None (u64_as_f64 2) 10
    demo_run demo_signer 0) as (_ & _ & ->); reflexivity.
Defined.
