(* ===== verification/Crypto.v ===== *)
(** * Crypto: the E2EE layer of [rust/tp-core/src/crypto.rs].
    The primitives (BLAKE2b, X25519, XChaCha20-Poly1305, base64, hex) are crates
    and stay parameters; key derivation, the sealed-blob layout, the session-key
    crossover, the ratchet and the confirmation tag are the source's. *)
From stdpp Require Import base list numbers strings.
From Stdlib Require Import Lia NArith Ascii.
From S2P Require Import Prelude Bytes Text Codec Concrete.

Definition NPUB_BYTES : nat := 24.
Definition KEY_BYTES : nat := 32.
Definition POLY1305_TAG_BYTES : nat := 16.

Class CryptoCrates := {
  blake2b_256 : bytes → bytes;
  blake2b_512 : bytes → bytes;
  x25519_base : bytes → bytes;                       (* PublicKey::from(&secret) *)
  x25519 : bytes → bytes → bytes;                    (* diffie_hellman *)
  xchacha_encrypt : bytes → bytes → bytes → bytes → result bytes string;  (* key nonce aad msg *)
  xchacha_decrypt : bytes → bytes → bytes → bytes → option bytes;         (* key nonce aad ct *)
  b64std_encode : bytes → string;
  b64std_decode : string → result bytes string;
  hex_encode : bytes → string
}.

(** The lower-case hexadecimal digit of a nibble. *)
Definition hex_digit (n : N) : ascii := ascii_of_N (if decide (n < 10)%N then 48 + n else 87 + n).

(** Documented behaviour of the crates. *)
Class CryptoLaws (C : CryptoCrates) : Prop := {
  blake2b_256_length m : length (blake2b_256 m) = 32;
  blake2b_512_length m : length (blake2b_512 m) = 64;
  x25519_commutes a b : x25519 a (x25519_base b) = x25519 b (x25519_base a);
  xchacha_encrypt_ok k n a m : length k = 32 → length n = 24 →
    ∃ c, xchacha_encrypt k n a m = Ok c ∧ length c = length m + 16;
  xchacha_decrypt_iff k n a m c : length k = 32 → length n = 24 →
    xchacha_decrypt k n a c = Some m ↔ xchacha_encrypt k n a m = Ok c;
  b64std_decode_encode b : b64std_decode (b64std_encode b) = Ok b;
  b64std_canonical s b : b64std_decode s = Ok b → b64std_encode b = s;
  b64std_nonempty b : b64std_encode b = "" → b = [];
  b64std_no_dot b : str_contains "."%char (b64std_encode b) = false;
  hex_encode_nil : hex_encode [] = "";
  hex_encode_cons x b : hex_encode (x :: b) =
    String (hex_digit (byte_val x / 16)) (String (hex_digit (byte_val x mod 16)) (hex_encode b))
}.

Record SessionKeys := mkKeys { rx : bytes; tx : bytes }.
Record KxKeyPair := mkKeyPair { public_key : bytes; secret_key : bytes }.

(** [Ord for [u8]]: lexicographic. *)
Fixpoint compare_bytes (a b : bytes) : comparison :=
  match a, b with
  | [], [] => Eq
  | [], _ :: _ => Lt
  | _ :: _, [] => Gt
  | x :: a, y :: b =>
      match (byte_val x ?= byte_val y)%N with Eq => compare_bytes a b | c => c end
  end.

Definition cmp_le (a b : bytes) : bool := match compare_bytes a b with Gt => false | _ => true end.

Definition PCT_DOMAIN : bytes := as_bytes "tp-pairing-confirm" ++ [as_u8 1].
Definition LEGACY_PAIRING_ID_DOMAIN : bytes := as_bytes "tp-pairing-id-legacy" ++ [as_u8 1].

(** [push_len_prefixed]: one length byte, then the bytes. *)
Definition len_prefixed (b : bytes) : bytes := as_u8 (N.of_nat (length b)) :: b.

(** The transcript hashed by [derive_pairing_confirmation_tag]. *)
Definition pct_input (pairing_id : bytes) (daemon_id hostname : string)
    (daemon_pub_key frontend_pub_key tx rx : bytes) : bytes :=
  let '(k0, k1) := if cmp_le tx rx then (tx, rx) else (rx, tx) in
  PCT_DOMAIN ++ pairing_id ++ len_prefixed (take 255 (as_bytes daemon_id))
    ++ len_prefixed (take 255 (as_bytes hostname)) ++ daemon_pub_key ++ frontend_pub_key ++ k0 ++ k1.

Section crypto.
Context {C : CryptoCrates}.

Definition generic_hash_32 (input : bytes) : bytes := blake2b_256 input.

Definition derive_blake2b (secret : bytes) (domain : string) : bytes :=
  generic_hash_32 (secret ++ as_bytes domain).

Definition derive_relay_token (pairing_secret : bytes) : string :=
  hex_encode (derive_blake2b pairing_secret "relay-auth").
Definition derive_kx_key (pairing_secret : bytes) : bytes := derive_blake2b pairing_secret "kx-envelope".
Definition derive_push_seal_key (secret : bytes) : bytes := derive_blake2b secret "relay-push-seal".
Definition derive_registration_proof (pairing_secret : bytes) : string :=
  hex_encode (derive_blake2b pairing_secret "relay-register").

Definition derive_pairing_confirmation_tag (pairing_id : bytes) (daemon_id hostname : string)
    (daemon_pub_key frontend_pub_key tx rx : bytes) : bytes :=
  generic_hash_32 (pct_input pairing_id daemon_id hostname daemon_pub_key frontend_pub_key tx rx).

(** [(b & mask) | 0x80] *)
Definition stamp (mask : N) (b : byte) : byte := as_u8 (N.lor (N.land (byte_val b) mask) 128).

(** [format_uuid]: the [8-4-4-4-12] grouping of the hex text. *)
Definition format_uuid (raw : bytes) : string :=
  let h := as_bytes (hex_encode raw) in
  let part lo hi := str_of_bytes (slice h lo hi) in
  part 0 8 +:+ "-" +:+ part 8 12 +:+ "-" +:+ part 12 16 +:+ "-" +:+ part 16 20 +:+ "-" +:+ part 20 32.

Definition derive_legacy_pairing_id (daemon_id : string) : string :=
  let digest := generic_hash_32 (LEGACY_PAIRING_ID_DOMAIN ++ as_bytes daemon_id) in
  let raw := take 16 digest in
  format_uuid (alter (stamp 63) 8 (alter (stamp 15) 6 raw)).

Definition key_length_error (n : nat) : TpError :=
  InvalidInput ("AEAD key must be 32 bytes, got " +:+ print_dec (N.of_nat n)).
Definition nonce_length_error (n : nat) : TpError :=
  InvalidInput ("nonce must be 24 bytes, got " +:+ print_dec (N.of_nat n)).

Definition aead_cipher (key : bytes) : result bytes TpError :=
  if decide (length key ≠ KEY_BYTES) then Err (key_length_error (length key)) else Ok key.

Definition aead_encrypt (plaintext : bytes) (aad : option bytes) (nonce key : bytes) : result bytes TpError :=
  if decide (length nonce ≠ NPUB_BYTES) then Err (nonce_length_error (length nonce)) else
  let? cipher := aead_cipher key in
  match xchacha_encrypt cipher nonce (default [] aad) plaintext with
  | Ok c => Ok c
  | Err e => Err (Crypto ("aead encrypt failed: " +:+ e))
  end.

Definition aead_decrypt (ciphertext : bytes) (aad : option bytes) (nonce key : bytes) : result bytes TpError :=
  if decide (length nonce ≠ NPUB_BYTES) then Err (nonce_length_error (length nonce)) else
  let? cipher := aead_cipher key in
  ok_or (xchacha_decrypt cipher nonce (default [] aad) ciphertext) (Crypto "aead authentication failed").

Definition b64_decode (s : string) : result bytes TpError :=
  match b64std_decode s with Ok b => Ok b | Err e => Err (Crypto ("base64 decode failed: " +:+ e)) end.

(** [seal]/[open] and their [_with_aad] variants share the layout
    [base64(nonce || ct || tag)]. *)
Definition seal_gen (plaintext key : bytes) (aad : option bytes) (nonce : bytes) : result string TpError :=
  let? ct := aead_encrypt plaintext aad nonce key in
  Ok (b64std_encode (nonce ++ ct)).

Definition open_gen (encoded : string) (key : bytes) (aad : option bytes) : result bytes TpError :=
  let? combined := b64_decode encoded in
  if decide (length combined < NPUB_BYTES + POLY1305_TAG_BYTES)
  then Err (Crypto "sealed blob shorter than nonce + tag")
  else aead_decrypt (drop NPUB_BYTES combined) aad (take NPUB_BYTES combined) key.

Definition seal (plaintext key nonce : bytes) : result string TpError := seal_gen plaintext key None nonce.
Definition open (encoded : string) (key : bytes) : result bytes TpError := open_gen encoded key None.
Definition seal_with_aad (plaintext key aad nonce : bytes) : result string TpError :=
  seal_gen plaintext key (Some aad) nonce.
Definition open_with_aad (encoded : string) (key aad : bytes) : result bytes TpError :=
  open_gen encoded key (Some aad).

Definition kx_seed_keypair (seed : bytes) : result KxKeyPair TpError :=
  if decide (length seed ≠ 32)
  then Err (InvalidInput ("kx seed must be 32 bytes, got " +:+ print_dec (N.of_nat (length seed))))
  else
    let sk := generic_hash_32 seed in
    Ok (mkKeyPair (x25519_base sk) sk).

Definition kx_kdf (shared client_pk server_pk : bytes) : bytes :=
  blake2b_512 (shared ++ client_pk ++ server_pk).

Definition x25519_shared (sk peer_pk : bytes) : bytes := x25519 sk peer_pk.

Definition kx_server_session_keys (pk sk peer_pk : bytes) : SessionKeys :=
  let keys := kx_kdf (x25519_shared sk peer_pk) peer_pk pk in
  mkKeys (slice keys 32 64) (slice keys 0 32).

Definition kx_client_session_keys (pk sk peer_pk : bytes) : SessionKeys :=
  let keys := kx_kdf (x25519_shared sk peer_pk) pk peer_pk in
  mkKeys (slice keys 0 32) (slice keys 32 64).

Definition ratchet_session_keys (base : SessionKeys) (sid : string) (is_daemon : bool) : SessionKeys :=
  let '(key_a, key_b) := if cmp_le (tx base) (rx base) then (tx base, rx base) else (rx base, tx base) in
  let k_a := generic_hash_32 (key_a ++ as_bytes sid ++ as_bytes "a") in
  let k_b := generic_hash_32 (key_b ++ as_bytes sid ++ as_bytes "b") in
  if is_daemon then mkKeys k_b k_a else mkKeys k_a k_b.
End crypto.

(** ** Lexicographic order *)

Lemma compare_bytes_refl a : compare_bytes a a = Eq.
Proof. induction a as [|x a IH]; [done|]. cbn. by rewrite N.compare_refl. Qed.

Lemma compare_bytes_eq a b : compare_bytes a b = Eq → a = b.
Proof.
  revert b. induction a as [|x a IH]; intros [|y b]; cbn; try done.
  destruct (N.compare_spec (byte_val x) (byte_val y)) as [H|H|H]; try done.
  intros ->%IH. f_equal. by apply byte_val_inj.
Qed.

Lemma compare_bytes_antisym a b : compare_bytes b a = CompOpp (compare_bytes a b).
Proof.
  revert b. induction a as [|x a IH]; intros [|y b]; cbn; try done.
  rewrite (N.compare_antisym (byte_val x)). destruct (byte_val x ?= byte_val y)%N; cbn; auto.
Qed.

(** Sorting two keys does not depend on which comes first. *)
Lemma sort_pair_comm a b :
  (if cmp_le a b then (a, b) else (b, a)) = (if cmp_le b a then (b, a) else (a, b)).
Proof.
  unfold cmp_le. rewrite (compare_bytes_antisym a b).
  destruct (compare_bytes a b) eqn:E; cbn; try done. by apply compare_bytes_eq in E as ->.
Qed.

Section crypto_facts.
Context {C : CryptoCrates} {L : CryptoLaws C}.

Lemma aead_encrypt_sized p aad n k :
  length k = 32 → length n = 24 →
  aead_encrypt p aad n k = match xchacha_encrypt k n (default [] aad) p with
                           | Ok c => Ok c
                           | Err e => Err (Crypto ("aead encrypt failed: " +:+ e))
                           end.
Proof. intros Hk Hn. unfold aead_encrypt, aead_cipher. by rewrite Hk, Hn. Qed.

Lemma aead_decrypt_sized c aad n k :
  length k = 32 → length n = 24 →
  aead_decrypt c aad n k = ok_or (xchacha_decrypt k n (default [] aad) c) (Crypto "aead authentication failed").
Proof. intros Hk Hn. unfold aead_decrypt, aead_cipher. by rewrite Hk, Hn. Qed.

Lemma seal_gen_ok p k aad n :
  length k = 32 → length n = 24 →
  ∃ c, xchacha_encrypt k n (default [] aad) p = Ok c ∧ length c = length p + 16 ∧
       seal_gen p k aad n = Ok (b64std_encode (n ++ c)).
Proof.
  intros Hk Hn. destruct (xchacha_encrypt_ok k n (default [] aad) p Hk Hn) as (c & Hc & Hl).
  exists c. split; [done|]. split; [done|].
  unfold seal_gen. by rewrite aead_encrypt_sized, Hc.
Qed.

Lemma open_gen_iff e k aad p :
  length k = 32 →
  open_gen e k aad = Ok p ↔ ∃ n, length n = 24 ∧ seal_gen p k aad n = Ok e.
Proof.
  intros Hk. split.
  - unfold open_gen, b64_decode. destruct (b64std_decode e) as [c|] eqn:Ed; cbn [result_bind]; [|done].
    case_decide as Hl; [done|]. unfold NPUB_BYTES, POLY1305_TAG_BYTES in *.
    assert (length (take 24 c) = 24) as Hn by (rewrite length_take; lia).
    rewrite aead_decrypt_sized by done. destruct (xchacha_decrypt k (take 24 c) (default [] aad) (drop 24 c)) as [q|] eqn:Ex; cbn; [|done].
    intros [= ->]. apply xchacha_decrypt_iff in Ex; [|done|done]. exists (take 24 c). split; [done|].
    destruct (seal_gen_ok p k aad (take 24 c) Hk Hn) as (c' & Hc' & _ & ->).
    rewrite Hc' in Ex. injection Ex as ->. rewrite take_drop. f_equal. by apply b64std_canonical.
  - intros (n & Hn & Hs). destruct (seal_gen_ok p k aad n Hk Hn) as (c & Hc & Hl & Hs').
    rewrite Hs' in Hs. injection Hs as <-. unfold open_gen, b64_decode. rewrite b64std_decode_encode.
    cbn [result_bind]. unfold NPUB_BYTES, POLY1305_TAG_BYTES.
    rewrite decide_False by (rewrite length_app; lia).
    rewrite drop_app_length', take_app_length' by done.
    rewrite aead_decrypt_sized by done. apply xchacha_decrypt_iff in Hc; [|done|done]. by rewrite Hc.
Qed.

Lemma open_sealed e k n p : length k = 32 → length n = 24 → seal p k n = Ok e → open e k = Ok p.
Proof. intros Hk Hn He. apply open_gen_iff; eauto. Qed.

Lemma seal_then_open p k n :
  length k = 32 → length n = 24 → ∃ e, seal p k n = Ok e ∧ open e k = Ok p.
Proof.
  intros Hk Hn. destruct (seal_gen_ok p k None n Hk Hn) as (c & _ & _ & He).
  eexists. split; [exact He|]. by apply (open_sealed _ _ n).
Qed.

Lemma server_keys_length pk sk peer :
  length (rx (kx_server_session_keys pk sk peer)) = 32 ∧ length (tx (kx_server_session_keys pk sk peer)) = 32.
Proof.
  unfold kx_server_session_keys. cbn [rx tx]. assert (length (kx_kdf (x25519_shared sk peer) peer pk) = 64) as H
    by apply blake2b_512_length. rewrite !length_slice by lia. done.
Qed.

Lemma derived_key_length s d : length (derive_blake2b s d) = 32.
Proof. apply blake2b_256_length. Qed.

(** Sealing: under a 32-byte key, what [open] accepts (with the same
    associated data) is exactly what [seal] produces with some 24-byte nonce, so
    the round trip holds and nothing else opens; sealing never fails on a key
    and nonce of the right sizes, and any other size is an input error. *)
Theorem seal_open (k aad e : bytes) (p : bytes) :
  length k = 32 →
  (∀ s, open_with_aad s k aad = Ok p ↔ ∃ n, length n = 24 ∧ seal_with_aad p k aad n = Ok s) ∧
  (∀ s, open s k = Ok p ↔ ∃ n, length n = 24 ∧ seal p k n = Ok s) ∧
  (∀ n, length n = 24 → ∃ s, seal_with_aad p k aad n = Ok s ∧ open_with_aad s k aad = Ok p) ∧
  (∀ n, length n ≠ 24 → seal_with_aad p k aad n = Err (nonce_length_error (length n))) ∧
  (∀ k' n, length k' ≠ 32 → length n = 24 → seal_with_aad p k' aad n = Err (key_length_error (length k'))).
Proof.
  intros Hk. split_and!.
  - intros s. by apply open_gen_iff.
  - intros s. by apply open_gen_iff.
  - intros n Hn. destruct (seal_gen_ok p k (Some aad) n Hk Hn) as (c & _ & _ & Hs).
    eexists. split; [exact Hs|]. apply open_gen_iff; eauto.
  - intros n Hn. unfold seal_with_aad, seal_gen, aead_encrypt. by rewrite decide_True.
  - intros k' n Hk' Hn. unfold seal_with_aad, seal_gen, aead_encrypt, aead_cipher.
    by rewrite Hn, (decide_True (P := length k' ≠ _)).
Qed.

(** Mirrored session keys: what one side sends with, the other receives with. *)
Definition mirrored (a b : SessionKeys) : Prop := tx a = rx b ∧ rx a = tx b.

Lemma kx_mirrored ska skb :
  mirrored (kx_server_session_keys (x25519_base ska) ska (x25519_base skb))
           (kx_client_session_keys (x25519_base skb) skb (x25519_base ska)).
Proof.
  unfold mirrored, kx_server_session_keys, kx_client_session_keys, x25519_shared. cbn.
  by rewrite (x25519_commutes ska skb).
Qed.

(** Both sides of mirrored keys compute the same tag. *)
Lemma tag_mirrored a b pid did host pd pf :
  mirrored a b →
  derive_pairing_confirmation_tag pid did host pd pf (tx a) (rx a)
  = derive_pairing_confirmation_tag pid did host pd pf (tx b) (rx b).
Proof. intros [-> ->]. unfold derive_pairing_confirmation_tag, pct_input. by rewrite (sort_pair_comm (rx b) (tx b)). Qed.

Lemma ratchet_mirrored a b sid :
  mirrored a b → mirrored (ratchet_session_keys a sid true) (ratchet_session_keys b sid false).
Proof.
  intros [H1 H2]. unfold ratchet_session_keys. rewrite H1, H2, (sort_pair_comm (rx b) (tx b)).
  by destruct (cmp_le (tx b) (rx b)).
Qed.

(** C21. End to end: a daemon and a frontend that exchanged public keys derive
    mirrored session keys; ratcheted for any session they stay mirrored, and
    the confirmation tag is the same on both sides, so whatever either seals
    for the session the other opens. *)
Theorem session_agreement (seed_d seed_f : bytes) (sid : string) kd kf :
  kx_seed_keypair seed_d = Ok kd → kx_seed_keypair seed_f = Ok kf →
  let sd := kx_server_session_keys (public_key kd) (secret_key kd) (public_key kf) in
  let sf := kx_client_session_keys (public_key kf) (secret_key kf) (public_key kd) in
  let rd := ratchet_session_keys sd sid true in
  let rf := ratchet_session_keys sf sid false in
  mirrored sd sf ∧ mirrored rd rf ∧
  (∀ pid did host, derive_pairing_confirmation_tag pid did host (public_key kd) (public_key kf) (tx sd) (rx sd)
                 = derive_pairing_confirmation_tag pid did host (public_key kd) (public_key kf) (tx sf) (rx sf)) ∧
  (∀ p n, length n = 24 →
     (∃ s, seal p (tx rd) n = Ok s ∧ open s (rx rf) = Ok p) ∧
     (∃ s, seal p (tx rf) n = Ok s ∧ open s (rx rd) = Ok p)).
Proof.
  unfold kx_seed_keypair. do 2 (case_decide; [done|]). intros [= <-] [= <-]. cbn [public_key secret_key].
  set (sd := kx_server_session_keys _ _ _). set (sf := kx_client_session_keys _ _ _). cbv zeta.
  assert (mirrored sd sf) as M by apply kx_mirrored. pose proof (ratchet_mirrored sd sf sid M) as R.
  split; [done|]. split; [done|]. split.
  { intros pid did host. by apply tag_mirrored. }
  assert (∀ base b, length (tx (ratchet_session_keys base sid b)) = 32 ∧
                    length (rx (ratchet_session_keys base sid b)) = 32) as Hlen.
  { intros base b. unfold ratchet_session_keys. destruct (cmp_le _ _), b; cbn;
      split; apply blake2b_256_length. }
  intros p n Hn. destruct R as [R1 R2]. rewrite <-R1, R2. split.
  - destruct (seal_gen_ok p (tx (ratchet_session_keys sd sid true)) None n) as (c & _ & _ & Hs);
      [apply Hlen|done|]. eexists. split; [exact Hs|]. apply open_gen_iff; [apply Hlen|eauto].
  - destruct (seal_gen_ok p (tx (ratchet_session_keys sf sid false)) None n) as (c & _ & _ & Hs);
      [apply Hlen|done|]. eexists. split; [exact Hs|]. apply open_gen_iff; [apply Hlen|eauto].
Qed.
End crypto_facts.

(** ** The confirmation transcript is unambiguous *)

Lemma app_inj_len {A} (a b c d : list A) : length a = length c → a ++ b = c ++ d → a = c ∧ b = d.
Proof. intros H. by apply app_inj_1. Qed.

Lemma as_u8_inj x y : (x < 256)%N → (y < 256)%N → as_u8 x = as_u8 y → x = y.
Proof.
  intros Hx Hy H. apply (f_equal byte_val) in H. rewrite !byte_val_as_u8 in H.
  by rewrite !N.mod_small in H.
Qed.

Lemma len_prefixed_inj a b r r' :
  length a ≤ 255 → length b ≤ 255 → len_prefixed a ++ r = len_prefixed b ++ r' → a = b ∧ r = r'.
Proof.
  intros Ha Hb H. unfold len_prefixed in H. cbn in H. injection H as H1 H2.
  apply as_u8_inj in H1; [|lia|lia]. apply app_inj_len in H2; [done|lia].
Qed.

(** The pairing confirmation tag commits to everything it hashes: two
    transcripts coincide only when pairing id, daemon id, hostname and both
    public keys coincide and the session keys are the same unordered pair. *)
Theorem pct_binding pid did host dpk fpk t r pid' did' host' dpk' fpk' t' r' :
  length pid = 16 → length pid' = 16 → length dpk = 32 → length dpk' = 32 →
  length fpk = 32 → length fpk' = 32 → length t = 32 → length t' = 32 → length r = 32 → length r' = 32 →
  str_len did ≤ 255 → str_len did' ≤ 255 → str_len host ≤ 255 → str_len host' ≤ 255 →
  pct_input pid did host dpk fpk t r = pct_input pid' did' host' dpk' fpk' t' r' →
  pid = pid' ∧ did = did' ∧ host = host' ∧ dpk = dpk' ∧ fpk = fpk' ∧ (t = t' ∧ r = r' ∨ t = r' ∧ r = t').
Proof.
  intros Hp Hp' Hd Hd' Hf Hf' Ht Ht' Hr Hr' Hdid Hdid' Hh Hh'. unfold pct_input.
  rewrite !firstn_all2 by (rewrite str_len_as_bytes; lia).
  assert (∀ a b : bytes, length a = 32 → length b = 32 →
    ∃ k0 k1, (if cmp_le a b then (a, b) else (b, a)) = (k0, k1) ∧ length k0 = 32 ∧
             (k0 = a ∧ k1 = b ∨ k0 = b ∧ k1 = a)) as Hsort.
  { intros a b ? ?. destruct (cmp_le a b); eauto 10. }
  destruct (Hsort t r Ht Hr) as (k0 & k1 & -> & Hk & Hor).
  destruct (Hsort t' r' Ht' Hr') as (k0' & k1' & -> & Hk' & Hor'). intros H.
  apply app_inj_len in H as [_ H]; [|done]. apply app_inj_len in H as [<- H]; [|congruence].
  apply len_prefixed_inj in H as [H1 H]; [|rewrite str_len_as_bytes; lia..].
  apply len_prefixed_inj in H as [H2 H]; [|rewrite str_len_as_bytes; lia..].
  apply app_inj_len in H as [<- H]; [|congruence]. apply app_inj_len in H as [<- H]; [|congruence].
  apply app_inj_len in H as [<- <-]; [|congruence].
  apply (f_equal str_of_bytes) in H1, H2. rewrite !str_of_as_bytes in H1, H2.
  split_and!; try done. destruct Hor as [[-> ->]|[-> ->]], Hor' as [[? ?]|[? ?]]; auto.
Qed.

(** ** The legacy pairing id is a UUIDv8 *)

Lemma stamp_version b : hex_digit (byte_val (stamp 15 b) / 16) = "8"%char.
Proof. destruct b as [[] [] [] [] [] [] [] []]; reflexivity. Qed.

Lemma stamp_variant b : hex_digit (byte_val (stamp 63 b) / 16) ∈ ["8"; "9"; "a"; "b"]%char.
Proof. destruct b as [[] [] [] [] [] [] [] []]; repeat (first [by left | right]). Qed.

Section legacy_id.
Context {C : CryptoCrates} {L : CryptoLaws C}.

(** A legacy pairing id is always a well-formed UUID of version 8 with
    the RFC-4122 variant: 36 characters, dashes at 8, 13, 18 and 23, ['8'] at
    14 and one of [8 9 a b] at 19. *)
Theorem legacy_pairing_id_uuid (daemon_id : string) :
  let id := as_bytes (derive_legacy_pairing_id daemon_id) in
  length id = 36 ∧
  (∀ i, i ∈ [8; 13; 18; 23] → id !! i = Some "-"%char) ∧
  id !! 14 = Some "8"%char ∧
  ∃ c, id !! 19 = Some c ∧ c ∈ ["8"; "9"; "a"; "b"]%char.
Proof.
  unfold derive_legacy_pairing_id. set (digest := generic_hash_32 _).
  assert (length (take 16 digest) = 16) as H16.
  { rewrite length_take. unfold digest, generic_hash_32. rewrite blake2b_256_length. done. }
  revert H16. generalize (take 16 digest). intros raw H16.
  do 16 (destruct raw as [|? raw]; [done|]). destruct raw; [|done]. clear H16.
  unfold alter, list_alter, format_uuid. rewrite !hex_encode_cons, hex_encode_nil. cbn zeta.
  rewrite stamp_version.
  match goal with
  | |- context [stamp 63 ?b] =>
      pose proof (stamp_variant b) as Hv; revert Hv; generalize (hex_digit (byte_val (stamp 63 b) / 16))
  end. intros c Hv.
  split; [reflexivity|]. split; [|split; [reflexivity|exists c; split; [reflexivity|done]]].
  intros i Hi. repeat (apply elem_of_cons in Hi as [->|Hi]; [reflexivity|]). by apply elem_of_nil in Hi.
Qed.
End legacy_id.

(** ** Witnesses *)

Definition demo_tag (k n a m : bytes) : bytes := pad_tag 16 k (n ++ a ++ m).

Fixpoint demo_hex (b : bytes) : string :=
  match b with
  | [] => ""
  | x :: b => String (hex_digit (byte_val x / 16)) (String (hex_digit (byte_val x mod 16)) (demo_hex b))
  end.

Definition demo_crates : CryptoCrates := {|
  blake2b_256 m := pad_tag 32 [] m;
  blake2b_512 m := pad_tag 64 [] m;
  x25519_base := id;
  x25519 a b := if cmp_le a b then a ++ b else b ++ a;
  xchacha_encrypt k n a m := Ok (m ++ demo_tag k n a m);
  xchacha_decrypt k n a c :=
    let m := take (length c - 16) c in
    if decide (16 ≤ length c ∧ drop (length c - 16) c = demo_tag k n a m) then Some m else None;
  b64std_encode := b64_encode;
  b64std_decode s := ok_or (Concrete.b64_decode s) "bad";
  hex_encode := demo_hex
|}.

Lemma demo_crates_laws : CryptoLaws demo_crates.
Proof.
  assert (∀ k n a m, length (demo_tag k n a m) = 16) as Ht by (intros; apply pad_tag_length).
  split; cbn.
  - intros m. apply (pad_tag_length 32 [] m).
  - intros m. apply (pad_tag_length 64 [] m).
  - intros a b. unfold id. unfold cmp_le. rewrite (compare_bytes_antisym a b).
    destruct (compare_bytes a b) eqn:E; cbn; try done. by apply compare_bytes_eq in E as ->.
  - intros k n a m _ _. eexists. split; [done|]. by rewrite length_app, Ht.
  - intros k n a m c _ _. split.
    + case_decide as H; [|done]. destruct H as [Hl Hd]. intros [= <-]. by rewrite <-Hd, take_drop.
    + intros [= <-]. rewrite length_app, Ht.
      replace (length m + 16 - 16) with (length m) by lia. rewrite take_app_length, drop_app_length.
      rewrite decide_True; [done|]. split; [lia|done].
  - intros b. by rewrite Concrete.b64_decode_encode.
  - intros s b. destruct (Concrete.b64_decode s) as [b'|] eqn:E; cbn; [|done]. intros [= <-].
    by apply b64_canonical.
  - intros b E. pose proof (b64_encode_length b) as [H _]. rewrite E in H. destruct b; [done|]. cbn in H.
    pose proof (Nat.Div0.div_le_mono 3 (S (length b) + 2) 3 ltac:(lia)). cbn in *. lia.
  - intros b. by apply b64_encode_no.
  - done.
  - done.
Qed.

Definition demo_key : bytes := replicate 32 "k"%char.
Definition demo_nonce : bytes := replicate 24 "n"%char.

Lemma seal_open_witness :
  ∃ s, seal_with_aad (C := demo_crates) (as_bytes "hello") demo_key (as_bytes "aad") demo_nonce = Ok s ∧
       open_with_aad (C := demo_crates) s demo_key (as_bytes "aad") = Ok (as_bytes "hello").
Proof.
  destruct (seal_open (L := demo_crates_laws) demo_key (as_bytes "aad") [] (as_bytes "hello") eq_refl)
    as (_ & _ & H & _). apply (H demo_nonce). reflexivity.
Defined.

Definition demo_seed (c : ascii) : bytes := replicate 32 c.

Lemma session_agreement_witness :
  ∃ kd kf, kx_seed_keypair (C := demo_crates) (demo_seed "d"%char) = Ok kd ∧
           kx_seed_keypair (C := demo_crates) (demo_seed "f"%char) = Ok kf ∧
    mirrored (kx_server_session_keys (C := demo_crates) (public_key kd) (secret_key kd) (public_key kf))
             (kx_client_session_keys (C := demo_crates) (public_key kf) (secret_key kf) (public_key kd)).
Proof.
  eexists _, _. split; [reflexivity|]. split; [reflexivity|].
  exact (proj1 (session_agreement (L := demo_crates_laws) (demo_seed "d"%char) (demo_seed "f"%char) "s1" _ _
    eq_refl eq_refl)).
Defined.

Lemma pct_binding_witness :
  let k c := replicate 32 c in
  pct_input (replicate 16 "p"%char) "d" "h" (k "1"%char) (k "2"%char) (k "a"%char) (k "b"%char)
  = pct_input (replicate 16 "p"%char) "d" "h" (k "1"%char) (k "2"%char) (k "b"%char) (k "a"%char) ∧
  "d" = "d".
Proof.
  cbv zeta. assert (pct_input (replicate 16 "p"%char) "d" "h" (replicate 32 "1"%char) (replicate 32 "2"%char)
      (replicate 32 "a"%char) (replicate 32 "b"%char)
    = pct_input (replicate 16 "p"%char) "d" "h" (replicate 32 "1"%char) (replicate 32 "2"%char)
      (replicate 32 "b"%char) (replicate 32 "a"%char)) as H by (vm_compute; reflexivity).
  split; [exact H|].
  exact (proj1 (proj2 (pct_binding (replicate 16 "p"%char) "d" "h" (replicate 32 "1"%char)
    (replicate 32 "2"%char) (replicate 32 "a"%char) (replicate 32 "b"%char) (replicate 16 "p"%char) "d" "h"
    (replicate 32 "1"%char) (replicate 32 "2"%char) (replicate 32 "b"%char) (replicate 32 "a"%char)
    eq_refl eq_refl eq_refl eq_refl eq_refl eq_refl eq_refl eq_refl eq_refl eq_refl
    ltac:(vm_compute; lia) ltac:(vm_compute; lia) ltac:(vm_compute; lia) ltac:(vm_compute; lia) H))).
Defined.
