(* ===== verification/Pairing.v ===== *)
(** * Pairing: the [tp://p?d=...] deep link of [rust/tp-core/src/pairing.rs].
    The binary layouts v2, v3 and v4 and the text around them are the source's;
    base64 and hex are the crates of [Crypto]. *)
From stdpp Require Import base list numbers strings.
From Stdlib Require Import Lia NArith Ascii.
From S2P Require Import Prelude Bytes Text Codec Concrete Crypto.

Definition PAIRING_URL_SCHEME : string := "tp://p".
Definition MAX_PAIRING_B64_LEN : nat := 2048.
Definition PAIRING_BINARY_MAGIC : bytes := as_bytes "tp".
Definition PAIRING_BINARY_VERSION : N := 4.
Definition DAEMON_ID_PREFIX : string := "daemon-".
Definition DEFAULT_PAIRING_RELAY_URL : string := "wss://relay.tpmt.dev".

Record PairingData := mkPairing {
  ps : string;
  pk : string;
  relay : string;
  did : string;
  v : N;
  pairing_id : string;
  hostname : string
}.

#[export] Instance PairingData_eq_dec : EqDecision PairingData.
Proof. solve_decision. Defined.

(** [hex::decode]; and lower-casing outside ASCII, which is a table of the
    Unicode standard. *)
Class PairingCrates := {
  hex_decode : string → option bytes;
  unicode_lowercase : string → string
}.

(** [s.trim_start_matches('\u{feff}')] *)
Fixpoint trim_bom (s : string) : string :=
  match s with
  | String a (String b (String c r)) =>
      if (byte_val a =? 0xEF)%N && (byte_val b =? 0xBB)%N && (byte_val c =? 0xBF)%N then trim_bom r else s
  | _ => s
  end.

Definition fmt_error : TpError := Pairing "Invalid pairing data format".
Definition uuid_error : TpError := Pairing "pairing id must be a 16-byte UUID".

(** [?] on an [outcome] of [Result]. *)
Definition obind {A B E} (m : outcome (result A E)) (k : A → outcome (result B E)) : outcome (result B E) :=
  match m with
  | Panic => Panic
  | Ret (Err e) => Ret (Err e)
  | Ret (Ok a) => k a
  end.
Notation "'let?p' x ':=' m 'in' k" := (obind m (fun x => k))
  (at level 10, x pattern, m at level 100, k at level 200) : rust_scope.

(** [buf[i]] *)
Definition index (buf : bytes) (i : nat) : outcome (result byte TpError) :=
  match buf !! i with Some b => Ret (Ok b) | None => Panic end.

(** [if c { return Err(e) }] *)
Definition guard_err (c : bool) (e : TpError) : outcome (result unit TpError) :=
  if c then Ret (Err e) else Ret (Ok tt).

(** [&buf[lo..hi]]: a range that is not inside the buffer stops the program. *)
Definition index_range (buf : bytes) (lo hi : nat) : outcome (result bytes TpError) :=
  if decide (lo ≤ hi ∧ hi ≤ length buf) then Ret (Ok (slice buf lo hi)) else Panic.

Definition utf8_field (b : bytes) : outcome (result string TpError) :=
  Ret (ok_or (from_utf8 b) fmt_error).

Section pairing.
Context {C : CryptoCrates} {P : PairingCrates}.

Definition to_lowercase (s : string) : string :=
  if all_chars (λ c, N_of_ascii c <? 128)%N s then str_ascii_lower s else unicode_lowercase s.

Definition normalize_relay_for_default_match (url : string) : string :=
  to_lowercase (trim_end_char "/"%char (trim url)).

Definition b64_std_encode (b : bytes) : string := b64std_encode b.
Definition b64_std_decode (s : string) : result bytes TpError :=
  match b64std_decode s with Ok b => Ok b | Err _ => Err fmt_error end.

Definition b64url_encode (b : bytes) : string :=
  trim_end_char "="%char (replace_char "/"%char "_"%char (replace_char "+"%char "-"%char (b64_std_encode b))).

Definition b64url_decode (b64url : string) : result bytes TpError :=
  let pad_len := (4 - str_len b64url mod 4) mod 4 in
  b64_std_decode (replace_char "_"%char "/"%char (replace_char "-"%char "+"%char b64url)
                  +:+ repeat_char "="%char pad_len).

Definition parse_uuid_16 (s : string) : result bytes TpError :=
  let hex_only := remove_char "-"%char s in
  if decide (str_len hex_only ≠ 32) then Err uuid_error
  else
    let? raw := ok_or (hex_decode hex_only) uuid_error in
    if decide (length raw = 16) then Ok raw else Err uuid_error.

Definition check (c : bool) (m : string) : result unit TpError := if c then Err (Pairing m) else Ok tt.

(** The body [encode_pairing_data] assembles. *)
Definition layout (version : N) (did relay ps pk tail : bytes) : bytes :=
  PAIRING_BINARY_MAGIC ++ [as_u8 version] ++ [as_u8 (N.of_nat (length did))] ++ did
  ++ [as_u8 (N.of_nat (length relay))] ++ relay ++ ps ++ pk ++ tail.

Definition encode_pairing_data (data : PairingData) : result string TpError :=
  match strip_prefix DAEMON_ID_PREFIX (did data) with
  | None => Err (Pairing ("daemon id must start with " +:+ quoted DAEMON_ID_PREFIX))
  | Some wire_did =>
      let did := as_bytes wire_did in
      let use_default := bool_decide (normalize_relay_for_default_match (relay data)
                                      = normalize_relay_for_default_match DEFAULT_PAIRING_RELAY_URL) in
      let relay := if use_default then [] else as_bytes (relay data) in
      let? ps := b64_std_decode (ps data) in
      let? pk := b64_std_decode (pk data) in
      let? pairing_id := parse_uuid_16 (pairing_id data) in
      let hostname := as_bytes (hostname data) in
      let? _ := check (bool_decide (length did = 0)) "daemon id suffix must not be empty" in
      let? _ := check (bool_decide (255 < length did)) "daemon id exceeds 255 bytes" in
      let? _ := check (bool_decide (255 < length relay)) "relay url exceeds 255 bytes" in
      let? _ := check (bool_decide (255 < length hostname)) "hostname exceeds 255 bytes" in
      let? _ := check (bool_decide (length ps ≠ 32)) "pairing secret must be 32 bytes" in
      let? _ := check (bool_decide (length pk ≠ 32)) "daemon public key must be 32 bytes" in
      let buf := layout PAIRING_BINARY_VERSION did relay ps pk
                   (pairing_id ++ [as_u8 (N.of_nat (length hostname))] ++ hostname) in
      Ok (PAIRING_URL_SCHEME +:+ "?d=" +:+ b64url_encode buf)
  end.

(** The trailing fields, from offset [o]: pairing id and host name. *)
Definition decode_tail (version : N) (buf : bytes) (o : nat) : outcome (result (string * string) TpError) :=
  if decide (version = 2%N) then
    let?p _ := guard_err (bool_decide (length buf ≤ o)) fmt_error in
    let?p label_len := index buf o in
    let o := o + 1 in
    let?p _ := guard_err (bool_decide (length buf < o + N.to_nat (byte_val label_len))) fmt_error in
    Ret (Ok ("", ""))
  else if decide (version = 3%N) then Ret (Ok ("", ""))
  else if decide (version = 4%N) then
    let?p _ := guard_err (bool_decide (length buf < o + 16 + 1)) fmt_error in
    let?p raw := index_range buf o (o + 16) in
    let o := o + 16 in
    let?p host_len := index buf o in
    let o := o + 1 in
    let host_len := N.to_nat (byte_val host_len) in
    let?p _ := guard_err (bool_decide (length buf < o + host_len)) fmt_error in
    let?p hostname := index_range buf o (o + host_len) in
    let?p hostname := utf8_field hostname in
    Ret (Ok (format_uuid raw, hostname))
  else Ret (Err fmt_error).

(** [decode_binary_pairing] from the decoded bytes on. *)
Definition decode_buf (buf : bytes) : outcome (result PairingData TpError) :=
  let?p _ := guard_err (bool_decide (length buf < 2 + 1 + 1 + 1 + 32 + 32)) fmt_error in
  let?p magic := index_range buf 0 2 in
  let?p _ := guard_err (bool_decide (magic ≠ PAIRING_BINARY_MAGIC)) fmt_error in
  let?p version := index buf 2 in
  let version := byte_val version in
  let?p _ := guard_err (negb (bool_decide (2 ≤ version ≤ 4)%N)) fmt_error in
  let?p did_len := index buf 3 in
  let did_len := N.to_nat (byte_val did_len) in
  let o := 4 in
  let?p _ := guard_err (bool_decide (did_len = 0) || bool_decide (length buf < o + did_len)) fmt_error in
  let?p wire_did := index_range buf o (o + did_len) in
  let?p wire_did := utf8_field wire_did in
  let o := o + did_len in
  let did := if decide (version = 2%N) then wire_did else DAEMON_ID_PREFIX +:+ wire_did in
  let?p relay_len := index buf o in
  let relay_len := N.to_nat (byte_val relay_len) in
  let o := o + 1 in
  let?p _ := guard_err (bool_decide (length buf < o + relay_len)) fmt_error in
  let?p relay := (if decide (relay_len = 0) then Ret (Ok DEFAULT_PAIRING_RELAY_URL)
                  else let?p relay := index_range buf o (o + relay_len) in utf8_field relay) in
  let o := o + relay_len in
  let?p _ := guard_err (bool_decide (length buf < o + 32 + 32)) fmt_error in
  let?p ps := index_range buf o (o + 32) in
  let o := o + 32 in
  let?p pk := index_range buf o (o + 32) in
  let o := o + 32 in
  let?p (pairing_id, hostname) := decode_tail version buf o in
  Ret (Ok (mkPairing (b64_std_encode ps) (b64_std_encode pk) relay did version pairing_id hostname)).

Definition decode_binary_pairing (b64 : string) : outcome (result PairingData TpError) :=
  let?p _ := guard_err (bool_decide (MAX_PAIRING_B64_LEN < str_len b64)) fmt_error in
  let?p buf := Ret (b64url_decode b64) in
  decode_buf buf.

(** The value of the first [d=] parameter. *)
Definition d_param (query : string) : option string :=
  snd <$> head (filter (λ kv : string * string, kv.1 = "d") (omap (split_once "="%char) (split_char "&"%char query))).

Definition decode_pairing_data (raw : string) : outcome (result PairingData TpError) :=
  let trimmed := trim_bom (trim raw) in
  if negb (starts_with PAIRING_URL_SCHEME trimmed) then Ret (Err fmt_error)
  else
    match split_once "?"%char trimmed with
    | None => Ret (Err fmt_error)
    | Some (_, query) =>
        match d_param query with
        | None => Ret (Err fmt_error)
        | Some d => decode_binary_pairing d
        end
    end.
End pairing.

(** Documented behaviour of the base64 and hex crates (RFC 4648). *)
Class PairingLaws (C : CryptoCrates) (P : PairingCrates) : Prop := {
  b64std_shape b : ∃ body k, b64std_encode b = body +:+ repeat_char "="%char k ∧
    all_chars is_b64_char body = true ∧ k ≤ 2;
  b64std_length b : str_len (b64std_encode b) = 4 * ((length b + 2) / 3);
  hex_decode_encode b : hex_decode (hex_encode b) = Some b
}.

(** ** The text layer *)

Lemma replace_char_app a b s t : replace_char a b (s +:+ t) = replace_char a b s +:+ replace_char a b t.
Proof. induction s as [|x s IH]; [done|]. rewrite str_append_cons. cbn. by rewrite IH, str_append_cons. Qed.

Lemma replace_char_absent a b s : str_contains a s = false → replace_char a b s = s.
Proof. induction s as [|x s IH]; [done|]. cbn. case_decide; [done|]. intros H'. rewrite IH by done. by rewrite decide_False by congruence. Qed.

Lemma str_contains_repeat c x k : c ≠ x → str_contains c (repeat_char x k) = false.
Proof. intros Hne. induction k as [|k IH]; [done|]. cbn. by rewrite decide_False. Qed.

(** The URL alphabet. *)
Definition url_text (s : string) : string := replace_char "/"%char "_"%char (replace_char "+"%char "-"%char s).
Definition is_url_char (c : ascii) : bool := is_b64_char c || bool_decide (c = "-"%char) || bool_decide (c = "_"%char).

Lemma url_text_chars s : all_chars is_b64_char s = true → all_chars is_url_char (url_text s) = true.
Proof.
  unfold url_text. induction s as [|c s IH]; [done|]. cbn. intros [Hc Hs]%andb_true_iff. rewrite IH, andb_true_r by done.
  unfold is_url_char. repeat case_decide; subst; try done. by rewrite Hc.
Qed.

Lemma url_text_back s :
  all_chars is_b64_char s = true → replace_char "_"%char "/"%char (replace_char "-"%char "+"%char (url_text s)) = s.
Proof.
  unfold url_text. induction s as [|c s IH]; [done|]. cbn. intros [Hc Hs]%andb_true_iff. rewrite IH by done. f_equal.
  assert (c ≠ "-"%char ∧ c ≠ "_"%char) as [? ?] by (split; intros ->; done). repeat case_decide; congruence.
Qed.

Lemma url_chars_graphic s : all_chars is_url_char s = true → all_chars is_graphic s = true.
Proof.
  apply all_chars_impl. intros c. unfold is_url_char, is_b64_char, b64_val, is_graphic.
  rewrite <-orb_assoc. intros [H|H]%orb_true_iff.
  - apply andb_true_iff. rewrite N.leb_le, N.ltb_lt. repeat case_match; simplify_eq;
      repeat match goal with
      | H : (_ && _)%N = true |- _ => apply andb_true_iff in H as [?%N.leb_le ?%N.leb_le]
      | H : (_ =? _)%N = true |- _ => apply N.eqb_eq in H
      end; lia.
  - by apply orb_true_iff in H as [->%bool_decide_eq_true_1| ->%bool_decide_eq_true_1].
Qed.

Section text.
Context {C : CryptoCrates} {L : CryptoLaws C} {P : PairingCrates} {PL : PairingLaws C P}.

(** What [b64url_encode] writes. *)
Lemma b64url_shape b :
  ∃ body k, b64url_encode b = url_text body ∧ b64std_encode b = body +:+ repeat_char "="%char k ∧
    all_chars is_b64_char body = true ∧ all_chars is_url_char (b64url_encode b) = true ∧
    (4 - str_len (b64url_encode b) mod 4) mod 4 = k ∧ str_len (b64url_encode b) ≤ 4 * ((length b + 2) / 3).
Proof.
  destruct (b64std_shape b) as (body & k & E & Hb & Hk). pose proof (b64std_length b) as Hlen.
  exists body, k. assert (b64url_encode b = url_text body) as E'.
  { unfold b64url_encode, b64_std_encode. rewrite E, !replace_char_app.
    rewrite !(replace_char_absent _ _ (repeat_char _ _)) by (rewrite ?(replace_char_absent _ _ (repeat_char _ _));
      by apply str_contains_repeat).
    apply trim_end_char_repeat. eapply all_chars_no_char; [|by apply url_text_chars]. done. }
  rewrite E'. assert (str_len (url_text body) = str_len body) as El by (unfold url_text; by rewrite !replace_char_len).
  rewrite E, str_len_app, repeat_char_len in Hlen. rewrite El. split_and!; try done.
  - by apply url_text_chars.
  - assert (str_len body mod 4 = (4 - k) mod 4) as ->.
    { apply (Nat.mul_cancel_l _ _ 1); [done|]. revert Hlen Hk. generalize (str_len body), ((length b + 2) / 3).
      intros n q Hlen Hk. destruct k as [|[|[|k]]]; [..|lia].
      - replace n with (q * 4) by lia. by rewrite Nat.Div0.mod_mul.
      - replace n with (3 + (q - 1) * 4) by lia. by rewrite Nat.Div0.mod_add.
      - replace n with (2 + (q - 1) * 4) by lia. by rewrite Nat.Div0.mod_add. }
    by destruct k as [|[|[|k]]]; [..|lia].
  - lia.
Qed.

Lemma b64url_roundtrip b : b64url_decode (b64url_encode b) = Ok b.
Proof.
  destruct (b64url_shape b) as (body & k & E & Es & Hb & _ & Hk & _).
  unfold b64url_decode. rewrite Hk, E, url_text_back by done. rewrite <-Es.
  unfold b64_std_decode. by rewrite b64std_decode_encode.
Qed.

(** The link around a payload is read back verbatim. *)
Lemma link_payload b :
  decode_pairing_data (PAIRING_URL_SCHEME +:+ "?d=" +:+ b64url_encode b) = decode_binary_pairing (b64url_encode b).
Proof.
  destruct (b64url_shape b) as (_ & _ & _ & _ & _ & Hu & _). revert Hu. generalize (b64url_encode b). intros d Hu.
  assert (all_chars is_graphic (PAIRING_URL_SCHEME +:+ "?d=" +:+ d) = true) as Hg.
  { rewrite !all_chars_app. cbn. by apply url_chars_graphic. }
  unfold decode_pairing_data. rewrite trim_graphic by done. clear Hg.
  assert (str_contains "&"%char ("d" +:+ String "="%char d) = false) as Hamp.
  { rewrite str_contains_app. cbn. rewrite (all_chars_no_char is_url_char) by done. done. }
  change (PAIRING_URL_SCHEME +:+ "?d=" +:+ d) with (PAIRING_URL_SCHEME +:+ String "?"%char ("d" +:+ String "="%char d)).
  assert (∀ r, trim_bom (PAIRING_URL_SCHEME +:+ r) = PAIRING_URL_SCHEME +:+ r) as -> by reflexivity.
  rewrite starts_with_app, split_once_app by reflexivity. cbn [negb].
  unfold d_param. rewrite split_char_none by done. cbn [omap list_omap].
  rewrite split_once_app by reflexivity. rewrite filter_cons_True by done. done.
Qed.

Lemma payload_fits b : length b ≤ 1500 → str_len (b64url_encode b) ≤ MAX_PAIRING_B64_LEN.
Proof.
  intros H. destruct (b64url_shape b) as (_ & _ & _ & _ & _ & _ & _ & Hl). unfold MAX_PAIRING_B64_LEN.
  assert ((length b + 2) / 3 ≤ 1502 / 3) by (apply Nat.Div0.div_le_mono; lia).
  change (1502 / 3) with 500 in *. lia.
Qed.
End text.

(** ** The binary layer *)

Lemma index_at (a r : bytes) x i : i = length a → index (a ++ x :: r) i = Ret (Ok x).
Proof. intros ->. unfold index. by rewrite list_lookup_middle. Qed.

Lemma index_None buf i : index buf i = Panic ↔ length buf ≤ i.
Proof. unfold index. rewrite <-lookup_ge_None. by destruct (buf !! i). Qed.

Lemma index_range_ok buf lo hi :
  lo ≤ hi → hi ≤ length buf → index_range buf lo hi = Ret (Ok (slice buf lo hi)).
Proof. intros. unfold index_range. by rewrite decide_True. Qed.

Lemma byte_len n : n ≤ 255 → N.to_nat (byte_val (as_u8 (N.of_nat n))) = n.
Proof. intros. rewrite byte_val_as_u8, N.mod_small by lia. apply Nat2N.id. Qed.

Lemma guard_ok c e : c = false → guard_err c e = Ret (Ok tt).
Proof. by intros ->. Qed.

Section binary.
Context {C : CryptoCrates}.

(** The trailing fields do not depend on what precedes them. *)
Lemma decode_tail_app version (pre tail : bytes) o :
  decode_tail version (pre ++ tail) (length pre + o) = decode_tail version tail o.
Proof.
  unfold decode_tail.
  assert (∀ i, index (pre ++ tail) (length pre + i) = index tail i) as Hi.
  { intros i. unfold index. rewrite lookup_app_r by lia. by replace (length pre + i - length pre) with i by lia. }
  assert (∀ i j, index_range (pre ++ tail) (length pre + i) (length pre + j) = index_range tail i j) as Hs.
  { intros i j. unfold index_range, slice. rewrite drop_app_add, length_app.
    replace (length pre + j - (length pre + i)) with (j - i) by lia. repeat case_decide; done || lia. }
  assert (∀ k, bool_decide (length (pre ++ tail) ≤ length pre + k) = bool_decide (length tail ≤ k)) as Hle
    by (intros k; apply bool_decide_ext; rewrite length_app; lia).
  assert (∀ k, bool_decide (length (pre ++ tail) < length pre + k) = bool_decide (length tail < k)) as Hlt
    by (intros k; apply bool_decide_ext; rewrite length_app; lia).
  rewrite <-!Nat.add_assoc, Hle, Hlt, !Hi, Hs.
  destruct (decide (version = 2%N)).
  { destruct (bool_decide (length tail ≤ o)); [done|]. cbn [guard_err obind].
    destruct (index tail o) as [[l|?]|]; [|done..]. cbn [obind]. by rewrite <-!Nat.add_assoc, Hlt. }
  destruct (decide (version = 3%N)); [done|]. destruct (decide (version = 4%N)); [|done].
  destruct (bool_decide (length tail < _)); [done|]. cbn [guard_err obind].
  destruct (index_range tail o (o + 16)) as [[raw|?]|]; [|done..]. cbn [obind].
  destruct (index tail (o + 16)) as [[l|?]|]; [|done..]. cbn [obind]. by rewrite <-!Nat.add_assoc, Hlt, Hs.
Qed.

Definition mk_pairing (version : N) (wire_did : string) (p k : bytes) (relay pid host : string) : PairingData :=
  mkPairing (b64_std_encode p) (b64_std_encode k) relay
    (if decide (version = 2%N) then wire_did else DAEMON_ID_PREFIX +:+ wire_did) version pid host.

(** Where the fields of a layout are. *)
Lemma layout_parts version wire rel p k tail :
  length wire ≤ 255 → length rel ≤ 255 → length p = 32 → length k = 32 →
  let '(n, m, buf) := (length wire, length rel, layout version wire rel p k tail) in
  let o := 4 + n + 1 + m in
  length buf = 69 + n + m + length tail ∧
  index buf 2 = Ret (Ok (as_u8 version)) ∧ index buf 3 = Ret (Ok (as_u8 (N.of_nat n))) ∧
  slice buf 4 (4 + n) = wire ∧ index buf (4 + n) = Ret (Ok (as_u8 (N.of_nat m))) ∧
  slice buf (4 + n + 1) o = rel ∧ slice buf o (o + 32) = p ∧ slice buf (o + 32) (o + 32 + 32) = k ∧
  decode_tail version buf (o + 32 + 32) = decode_tail version tail 0.
Proof.
  intros Hw Hr Hp Hk.
  cbv zeta. set (n := length wire) in *. set (m := length rel) in *.
  set (buf := layout version wire rel p k tail).
  set (h := PAIRING_BINARY_MAGIC ++ [as_u8 version]).
  assert (length h = 3) as Hh by reflexivity.
  assert (buf = h ++ as_u8 (N.of_nat n) :: wire ++ as_u8 (N.of_nat m) :: rel ++ p ++ k ++ tail) as E by reflexivity.
  assert (length buf = 69 + n + m + length tail) as Hl
    by (rewrite E; rewrite length_app; cbn [length]; rewrite !length_app; cbn [length]; rewrite !length_app; lia).
  assert (index buf 2 = Ret (Ok (as_u8 version))) as I2 by reflexivity.
  assert (index buf 3 = Ret (Ok (as_u8 (N.of_nat n)))) as I3 by reflexivity.
  assert (slice buf 4 (4 + n) = wire) as S1.
  { rewrite E. apply (slice_app_at (h ++ [as_u8 (N.of_nat n)])); rewrite length_app; cbn; lia. }
  assert (index buf (4 + n) = Ret (Ok (as_u8 (N.of_nat m)))) as I4.
  { replace buf with ((h ++ as_u8 (N.of_nat n) :: wire) ++ as_u8 (N.of_nat m) :: rel ++ p ++ k ++ tail)
      by (by rewrite E, <-app_assoc). apply index_at. rewrite length_app. cbn. lia. }
  assert (∀ lo hi a q r, wire ++ as_u8 (N.of_nat m) :: rel ++ p ++ k ++ tail = a ++ q ++ r →
            lo = 4 + length a → hi = lo + length q → slice buf lo hi = q) as S.
  { intros lo hi a q r Ea -> ->. rewrite E, Ea. apply (slice_app_at (h ++ as_u8 (N.of_nat n) :: a) q r).
    - rewrite length_app. cbn. lia.
    - rewrite length_app. cbn. lia. }
  assert (slice buf (4 + n + 1) (4 + n + 1 + m) = rel) as S2.
  { apply (S _ _ (wire ++ [as_u8 (N.of_nat m)]) rel (p ++ k ++ tail)); [by rewrite <-app_assoc| |done].
    rewrite length_app. cbn. lia. }
  set (o := 4 + n + 1 + m).
  assert (slice buf o (o + 32) = p) as S3.
  { apply (S _ _ (wire ++ as_u8 (N.of_nat m) :: rel) p (k ++ tail)); [by rewrite <-app_assoc| |lia].
    rewrite length_app. cbn. lia. }
  assert (slice buf (o + 32) (o + 32 + 32) = k) as S4.
  { apply (S _ _ (wire ++ as_u8 (N.of_nat m) :: rel ++ p) k tail).
    - rewrite <-app_assoc. cbn. by rewrite <-app_assoc.
    - rewrite !length_app. cbn. rewrite length_app. lia.
    - lia. }
  assert (decode_tail version buf (o + 32 + 32) = decode_tail version tail 0) as T.
  { replace buf with ((h ++ as_u8 (N.of_nat n) :: wire ++ as_u8 (N.of_nat m) :: rel ++ p ++ k) ++ tail)
      by (rewrite E; repeat (rewrite <-app_assoc || cbn [app]); done).
    rewrite <-(decode_tail_app version (h ++ as_u8 (N.of_nat n) :: wire ++ as_u8 (N.of_nat m) :: rel ++ p ++ k) tail 0).
    f_equal. rewrite length_app. cbn. rewrite !length_app. cbn. rewrite !length_app. lia. }
  split_and!; done.
Qed.

(** A well-formed prefix is decoded field by field. *)
Lemma decode_layout version wire rel p k tail :
  (2 ≤ version ≤ 4)%N → 0 < length wire ≤ 255 → length rel ≤ 255 → length p = 32 → length k = 32 →
  decode_buf (layout version wire rel p k tail) =
    let?p wd := utf8_field wire in
    let?p relay := (if decide (length rel = 0) then Ret (Ok DEFAULT_PAIRING_RELAY_URL) else utf8_field rel) in
    let?p (pid, host) := decode_tail version tail 0 in
    Ret (Ok (mk_pairing version wd p k relay pid host)).
Proof.
  intros Hv Hw Hr Hp Hk. 
  destruct (layout_parts version wire rel p k tail) as (Hl & I2 & I3 & S1 & I4 & S2 & S3 & S4 & T); [lia..|].
  set (n := length wire) in *. set (m := length rel) in *. set (buf := layout version wire rel p k tail) in *.
  unfold decode_buf. rewrite guard_ok by (apply bool_decide_eq_false_2; lia). cbn [obind].
  rewrite (index_range_ok buf 0 2) by lia. cbn [obind].
  rewrite guard_ok by (apply bool_decide_eq_false_2; intros HF; by apply HF). cbn [obind].
  rewrite I2. cbn [obind]. rewrite byte_val_as_u8, N.mod_small by lia.
  rewrite guard_ok by (by rewrite bool_decide_eq_true_2). cbn [obind]. rewrite I3. cbn [obind].
  rewrite byte_len by lia. rewrite guard_ok by (rewrite !bool_decide_eq_false_2 by lia; done). cbn [obind].
  rewrite (index_range_ok buf 4) by lia. cbn [obind].
  rewrite S1. destruct (utf8_field wire) as [[wd|e]|]; [|done..]. cbn [obind]. rewrite I4. cbn [obind].
  rewrite byte_len by lia. rewrite guard_ok by (apply bool_decide_eq_false_2; lia). cbn [obind].
  rewrite (index_range_ok buf (4 + n + 1)) by lia. cbn [obind].
  rewrite S2. destruct (if decide (m = 0) then _ else _) as [[rl|e]|]; [|done..]. cbn [obind].
  rewrite guard_ok by (apply bool_decide_eq_false_2; lia). cbn [obind].
  rewrite !index_range_ok by lia. cbn [obind]. by rewrite S3, S4, T.
Qed.
End binary.

(** ** UUID text *)

Lemma remove_char_app c a b : remove_char c (a +:+ b) = remove_char c a +:+ remove_char c b.
Proof.
  induction a as [|x a IH]; [done|]. rewrite str_append_cons. cbn. rewrite IH. by case_decide.
Qed.

Lemma remove_char_absent c (b : bytes) : c ∉ b → remove_char c (str_of_bytes b) = str_of_bytes b.
Proof.
  induction b as [|x b IH]; [done|]. intros [Hne Hb]%not_elem_of_cons.
  change (str_of_bytes (x :: b)) with (String x (str_of_bytes b)). cbn.
  rewrite decide_False by congruence. by rewrite IH.
Qed.

Lemma hex_digit_not_dash n : (n < 16)%N → "-"%char ≠ hex_digit n.
Proof.
  intros Hn. pose proof (N_lt_cases (λ n, bool_decide ("-"%char ≠ hex_digit n)) 16) as H. cbv beta in H.
  specialize (H ltac:(vm_compute; reflexivity) n Hn). by apply bool_decide_eq_true_1 in H.
Qed.

Section uuid.
Context {C : CryptoCrates} {L : CryptoLaws C} {P : PairingCrates} {PL : PairingLaws C P}.

Lemma hex_encode_facts b : ("-"%char ∉ as_bytes (hex_encode b)) ∧ length (as_bytes (hex_encode b)) = 2 * length b.
Proof.
  induction b as [|x b [IH1 IH2]].
  - rewrite hex_encode_nil. split; [apply not_elem_of_nil|done].
  - rewrite hex_encode_cons. pose proof (byte_val_lt x) as Hx. unfold as_bytes in *. cbn.
    rewrite IH2. split; [|lia]. rewrite !not_elem_of_cons. split_and!; [..|done]; apply hex_digit_not_dash.
    + apply N.Div0.div_lt_upper_bound. lia.
    + by apply N.mod_lt.
Qed.

Lemma parse_format_uuid raw : length raw = 16 → parse_uuid_16 (format_uuid raw) = Ok raw.
Proof.
  intros Hl. destruct (hex_encode_facts raw) as [Hd Hn]. rewrite Hl in Hn.
  assert (remove_char "-"%char (format_uuid raw) = hex_encode raw) as E.
  { unfold format_uuid. set (h := as_bytes (hex_encode raw)) in *.
    assert (∀ lo hi, "-"%char ∉ slice h lo hi) as Hs.
    { intros lo hi Hin. apply Hd. unfold slice in Hin. eapply elem_of_submseteq; [exact Hin|].
      apply sublist_submseteq. etrans; [apply sublist_take|apply sublist_drop]. }
    rewrite !remove_char_app, !remove_char_absent by done. change (remove_char "-"%char "-") with "".
    assert (∀ x, "" +:+ x = x) as Hnil by done. rewrite !Hnil, <-!str_of_bytes_app. rewrite <-(str_of_as_bytes (hex_encode raw)). f_equal.
    fold h. clearbody h. do 32 (destruct h as [|? h]; [done|]). by destruct h. }
  unfold parse_uuid_16. rewrite E. rewrite decide_False.
  2:{ rewrite <-str_len_as_bytes, Hn. lia. }
  rewrite hex_decode_encode. cbn. by rewrite decide_True.
Qed.

Lemma parse_uuid_length s raw : parse_uuid_16 s = Ok raw → length raw = 16.
Proof.
  unfold parse_uuid_16. case_decide; [done|]. destruct (hex_decode _); [|done]. cbn.
  case_decide; [|done]. by intros [= <-].
Qed.
End uuid.

(** ** The properties *)

Section properties.
Context {C : CryptoCrates} {L : CryptoLaws C} {P : PairingCrates} {PL : PairingLaws C P}.

Lemma b64_std_decode_inv s b : b64_std_decode s = Ok b → b64_std_encode b = s.
Proof. unfold b64_std_decode. destruct (b64std_decode s) eqn:E; [|done]. intros [= <-]. by apply b64std_canonical. Qed.

Lemma check_ok c m : check c m = Ok tt ↔ c = false.
Proof. unfold check. by destruct c. Qed.

Definition is_default_relay (url : string) : bool :=
  bool_decide (normalize_relay_for_default_match url = normalize_relay_for_default_match DEFAULT_PAIRING_RELAY_URL).

(** What an accepted [PairingData] is encoded from. *)
Lemma encode_inv data url :
  encode_pairing_data data = Ok url →
  ∃ wire p k raw, did data = DAEMON_ID_PREFIX +:+ wire ∧
    let rel := if is_default_relay (relay data) then [] else as_bytes (relay data) in
    0 < str_len wire ≤ 255 ∧ length rel ≤ 255 ∧ str_len (hostname data) ≤ 255 ∧
    length p = 32 ∧ length k = 32 ∧ b64_std_encode p = ps data ∧ b64_std_encode k = pk data ∧
    parse_uuid_16 (pairing_id data) = Ok raw ∧
    url = PAIRING_URL_SCHEME +:+ "?d=" +:+ b64url_encode (layout 4 (as_bytes wire) rel p k
            (raw ++ [as_u8 (N.of_nat (str_len (hostname data)))] ++ as_bytes (hostname data))).
Proof.
  unfold encode_pairing_data. destruct (strip_prefix _ _) as [wire|] eqn:Ed; [|done].
  apply strip_prefix_Some in Ed. fold (is_default_relay (relay data)).
  destruct (b64_std_decode (ps data)) as [p|] eqn:Ep; [|done]. apply b64_std_decode_inv in Ep.
  destruct (b64_std_decode (pk data)) as [k|] eqn:Ek; [|done]. apply b64_std_decode_inv in Ek.
  destruct (parse_uuid_16 _) as [raw|] eqn:Er; [|done]. cbn [result_bind].
  rewrite !str_len_as_bytes. set (rel := if is_default_relay (relay data) then [] else as_bytes (relay data)).
  repeat match goal with
  | |- result_bind (check (bool_decide ?X) _) _ = _ → _ =>
      destruct (bool_decide X) eqn:?; [done|]; cbn [check result_bind];
      match goal with H : bool_decide X = false |- _ => apply bool_decide_eq_false_1 in H end
  end. intros [= <-]. exists wire, p, k, raw. cbv zeta. fold rel.
  split_and!; first [done | lia].
Qed.

Lemma decode_tail_v4 raw host rest :
  length raw = 16 → is_str host → str_len host ≤ 255 →
  decode_tail 4 (raw ++ as_u8 (N.of_nat (str_len host)) :: as_bytes host ++ rest) 0 = Ret (Ok (format_uuid raw, host)).
Proof.
  intros Hr Hs Hh. unfold decode_tail. rewrite decide_False, decide_False, decide_True by done.
  set (tail := raw ++ _). assert (length tail = 17 + str_len host + length rest) as Hl.
  { unfold tail. rewrite length_app. cbn. rewrite length_app, str_len_as_bytes. lia. }
  rewrite guard_ok by (apply bool_decide_eq_false_2; lia). cbn [obind].
  rewrite (index_range_ok tail 0) by lia. cbn [obind].
  assert (index tail (0 + 16) = Ret (Ok (as_u8 (N.of_nat (str_len host))))) as -> by by apply index_at.
  cbn [obind]. rewrite byte_len by done.
  rewrite guard_ok by (apply bool_decide_eq_false_2; lia). cbn [obind].
  rewrite (index_range_ok tail (0 + 16 + 1)) by lia.
  assert (slice tail (0 + 16 + 1) (0 + 16 + 1 + str_len host) = as_bytes host) as ->.
  { unfold tail. replace (raw ++ as_u8 (N.of_nat (str_len host)) :: as_bytes host ++ rest)
      with ((raw ++ [as_u8 (N.of_nat (str_len host))]) ++ as_bytes host ++ rest) by by rewrite <-app_assoc.
    apply slice_app_at; rewrite length_app, ?str_len_as_bytes; cbn; lia. }
  cbn [obind]. unfold utf8_field. rewrite from_utf8_as_bytes by done. cbn [ok_or obind].
  assert (slice tail 0 (0 + 16) = raw) as -> by by apply (slice_app_at []). done.
Qed.

(** What the spelling of a relay comes back as. *)
Definition relay_back (url : string) : string :=
  if is_default_relay url || bool_decide (url = "") then DEFAULT_PAIRING_RELAY_URL else url.

Lemma decode_encoded data url :
  is_str (did data) → is_str (relay data) → is_str (hostname data) →
  encode_pairing_data data = Ok url →
  ∃ raw, parse_uuid_16 (pairing_id data) = Ok raw ∧ length raw = 16 ∧
    decode_pairing_data url =
    Ret (Ok (mkPairing (ps data) (pk data) (relay_back (relay data)) (did data) 4 (format_uuid raw) (hostname data))).
Proof.
  intros Hd Hr Hh He. pose proof (encode_inv data url He) as (wire & p & k & raw & Ed & Hw & Hrel & Hhl & Hp & Hk & Ep & Ek & Er & ->).
  exists raw. cbv zeta in *. set (rel := if is_default_relay (relay data) then [] else _) in *.
  pose proof (parse_uuid_length _ _ Er) as Hraw. split_and!; [done..|].
  rewrite link_payload. unfold decode_binary_pairing.
  rewrite guard_ok.
  2:{ apply bool_decide_eq_false_2. apply Nat.le_ngt, payload_fits. unfold layout. rewrite !length_app.
      rewrite !str_len_as_bytes. cbn. lia. }
  cbn [obind]. rewrite b64url_roundtrip. cbn [obind].
  rewrite decode_layout by (rewrite ?str_len_as_bytes; done || lia).
  assert (is_str wire) as Hws.
  { unfold is_str in *. rewrite Ed, as_bytes_app in Hd. cbn in Hd. done. }
  unfold utf8_field at 1. rewrite from_utf8_as_bytes by done. cbn [ok_or obind].
  assert ((if decide (length rel = 0) then Ret (Ok DEFAULT_PAIRING_RELAY_URL) else utf8_field rel) =
          Ret (Ok (relay_back (relay data)))) as ->.
  { unfold rel, relay_back. destruct (is_default_relay (relay data)); [done|]. cbn [orb]. rewrite str_len_as_bytes.
    destruct (decide (relay data = "")) as [->|Hne]; [done|]. rewrite bool_decide_eq_false_2 by done.
    rewrite decide_False by by destruct (relay data). unfold utf8_field. by rewrite from_utf8_as_bytes. }
  cbn [obind].
  replace (as_bytes (hostname data)) with (as_bytes (hostname data) ++ []) by apply app_nil_r.
  change ([as_u8 ?x] ++ ?y) with (as_u8 x :: y). rewrite decode_tail_v4 by done. cbn [obind].
  unfold mk_pairing. rewrite decide_False by done. by rewrite Ep, Ek, Ed.
Qed.

(** C30. A pairing link is read back as what was written: the same secret, key,
    daemon id and host name, the pairing id in canonical form, and the relay,
    except that an empty relay or a spelling of the production relay comes back
    as the production URL; and what is read back encodes to the same link. *)
Theorem pairing_roundtrip data url :
  is_str (did data) → is_str (relay data) → is_str (hostname data) →
  encode_pairing_data data = Ok url →
  ∃ raw, parse_uuid_16 (pairing_id data) = Ok raw ∧
    let back := mkPairing (ps data) (pk data) (relay_back (relay data)) (did data) 4 (format_uuid raw) (hostname data) in
    decode_pairing_data url = Ret (Ok back) ∧ encode_pairing_data back = Ok url.
Proof.
  intros Hd Hr Hh He. destruct (decode_encoded data url Hd Hr Hh He) as (raw & Er & Hraw & Hdec). exists raw.
  split; [done|]. cbv zeta. split; [done|].
  unfold relay_back. revert He. unfold encode_pairing_data.
  cbn [did relay ps pk pairing_id hostname]. destruct (strip_prefix _ _); [|done].
  rewrite Er, parse_format_uuid by done. unfold is_default_relay.
  destruct (decide (relay data = "")) as [->|Hne].
  - rewrite (bool_decide_eq_true_2 ("" = "")), orb_true_r by done.
    rewrite (bool_decide_eq_true_2 (_ DEFAULT_PAIRING_RELAY_URL = _)) by done. by destruct (bool_decide _).
  - rewrite (bool_decide_eq_false_2 (relay data = "")), orb_false_r by done.
    destruct (bool_decide (normalize_relay_for_default_match (relay data) = _)) eqn:E; rewrite ?E; [|done].
    rewrite (bool_decide_eq_true_2 (_ DEFAULT_PAIRING_RELAY_URL = _)) by done. done.
Qed.
End properties.

(** ** Hostile input *)

Lemma utf8_field_cases b :
  (utf8_field b = Ret (Err fmt_error) ∧ utf8_valid b = false) ∨
  (utf8_field b = Ret (Ok (str_of_bytes b)) ∧ utf8_valid b = true).
Proof. unfold utf8_field, from_utf8. destruct (utf8_valid b); auto. Qed.

Section hostile.
Context {C : CryptoCrates}.

Definition header (version : N) (wire : bytes) : bytes :=
  PAIRING_BINARY_MAGIC ++ [as_u8 version; as_u8 (N.of_nat (length wire))] ++ wire.

Definition header_ok (version : N) (wire : bytes) : Prop :=
  (2 ≤ version ≤ 4)%N ∧ 0 < length wire ≤ 255 ∧ utf8_valid wire = true.

Lemma byte_val_to_nat (x : byte) : N.to_nat (byte_val x) ≤ 255.
Proof. pose proof (byte_val_lt x). lia. Qed.

Lemma as_u8_to_nat (x : byte) n : N.to_nat (byte_val x) = n → x = as_u8 (N.of_nat n).
Proof. intros <-. by rewrite N2Nat.id, as_u8_byte_val. Qed.

Lemma decode_header buf :
  decode_buf buf = Ret (Err fmt_error) ∨
  ∃ version wire rest, header_ok version wire ∧ 69 ≤ length buf ∧ buf = header version wire ++ rest.
Proof.
  unfold decode_buf. destruct (bool_decide (length buf < _)) eqn:E0; [by left|].
  apply bool_decide_eq_false_1 in E0. cbn [guard_err obind].
  destruct buf as [|b0 [|b1 [|b2 [|b3 body]]]]; try (cbn in E0; lia).
  rewrite index_range_ok by (cbn; lia). cbn [obind].
  destruct (bool_decide (slice _ 0 2 ≠ _)) eqn:E1; [by left|]. apply bool_decide_eq_false_1 in E1.
  apply dec_stable in E1. cbn in E1. injection E1 as -> ->. cbn [guard_err obind index lookup].
  change (index _ 2) with (Ret (Ok (E := TpError) b2)). change (index _ 3) with (Ret (Ok (E := TpError) b3)).
  cbn [obind]. destruct (bool_decide (2 ≤ byte_val b2 ≤ 4)%N) eqn:E2; [|by left].
  apply bool_decide_eq_true_1 in E2. cbn [negb guard_err obind].
  destruct (_ || _) eqn:E3; [by left|]. apply orb_false_iff in E3 as [E3%bool_decide_eq_false_1 E4%bool_decide_eq_false_1].
  cbn [guard_err obind]. set (n := N.to_nat (byte_val b3)) in *. pose proof (byte_val_to_nat b3) as Hb3. fold n in Hb3.
  rewrite index_range_ok by lia. cbn [obind].
  assert (slice ("t"%char :: "p"%char :: b2 :: b3 :: body) 4 (4 + n) = take n body) as ->
    by (unfold slice; by replace (4 + n - 4) with n by lia).
  unfold utf8_field at 1, from_utf8. destruct (utf8_valid (take n body)) eqn:E5; [right|by left].
  cbn [length] in E0, E4. assert (length (take n body) = n) as Hn by (rewrite length_take; lia).
  exists (byte_val b2), (take n body), (drop n body). split; [|split].
  - split_and!; try done; lia.
  - cbn. lia.
  - unfold header. rewrite Hn, as_u8_byte_val, <-(as_u8_to_nat b3 n) by done. cbn. by rewrite take_drop.
Qed.

Lemma header_steps version wire rest :
  header_ok version wire → 69 ≤ length (header version wire ++ rest) →
  let buf := header version wire ++ rest in
  let n := length wire in
  bool_decide (length buf < 2 + 1 + 1 + 1 + 32 + 32) = false ∧ slice buf 0 2 = PAIRING_BINARY_MAGIC ∧
  index buf 2 = Ret (Ok (as_u8 version)) ∧ byte_val (as_u8 version) = version ∧
  index buf 3 = Ret (Ok (as_u8 (N.of_nat n))) ∧ N.to_nat (byte_val (as_u8 (N.of_nat n))) = n ∧
  (bool_decide (n = 0) || bool_decide (length buf < 4 + n)) = false ∧ slice buf 4 (4 + n) = wire ∧
  index buf (4 + n) = index rest 0 ∧ length buf = 4 + n + length rest.
Proof.
  intros (Hv & Hw & Hu) Hl. cbv zeta. set (n := length wire) in *.
  assert (length (header version wire ++ rest) = 4 + n + length rest) as Hlen by (rewrite length_app; done).
  split_and!; try done.
  - apply bool_decide_eq_false_2. lia.
  - rewrite byte_val_as_u8, N.mod_small by lia. done.
  - apply byte_len. lia.
  - rewrite !bool_decide_eq_false_2 by lia. done.
  - unfold header. rewrite <-app_assoc. cbn [app].
    apply (slice_app_at (PAIRING_BINARY_MAGIC ++ [as_u8 version; as_u8 (N.of_nat (length wire))]) wire rest); cbn; lia.
  - unfold index. rewrite lookup_app_r by (unfold header; cbn; lia).
    by replace (4 + n - length (header version wire)) with 0 by (unfold header; cbn; lia).
Qed.

(** The code up to the relay length byte, on a good header. *)
Lemma decode_header_end version wire rest :
  header_ok version wire → 69 ≤ length (header version wire ++ rest) →
  (rest = [] → decode_buf (header version wire ++ rest) = Panic) ∧
  (∀ x rest', rest = x :: rest' → length rest' < N.to_nat (byte_val x) + 64 →
     decode_buf (header version wire ++ rest) = Ret (Err fmt_error)).
Proof.
  intros Hok Hl. destruct (header_steps version wire rest Hok Hl) as (H1 & H2 & H3 & H4 & H5 & H6 & H7 & H8 & H9 & H10).
  assert (utf8_field wire = Ret (Ok (str_of_bytes wire))) as Hu
    by (unfold utf8_field, from_utf8; by rewrite (proj2 (proj2 Hok))).
  assert (bool_decide (slice (header version wire ++ rest) 0 2 ≠ PAIRING_BINARY_MAGIC) = false) as Hm
    by (apply bool_decide_eq_false_2; by intros []).
  assert (negb (bool_decide (2 ≤ version ≤ 4)%N) = false) as Hv by (by rewrite bool_decide_eq_true_2 by apply Hok).
  assert (∃ K, decode_buf (header version wire ++ rest) = obind (index rest 0) K ∧
    ∀ x, length rest < 1 + N.to_nat (byte_val x) + 64 → K x = Ret (Err fmt_error)) as (K & E & HK).
  { unfold decode_buf. rewrite H1. cbn [guard_err obind]. rewrite (index_range_ok _ 0 2) by lia. cbn [obind].
    rewrite Hm. cbn [guard_err obind].
    rewrite H3. cbn [obind]. rewrite H4, Hv. cbn [guard_err obind]. rewrite H5. cbn [obind].
    rewrite H6, H7. cbn [guard_err obind]. rewrite (index_range_ok _ 4) by lia. cbn [obind]. rewrite H8, Hu. cbn [obind]. rewrite H9.
    eexists. split; [reflexivity|]. intros x Hr. cbv beta.
    destruct (bool_decide (_ < 4 + length wire + 1 + N.to_nat (byte_val x))) eqn:Hb; [done|]. cbn [guard_err obind].
    apply bool_decide_eq_false_1 in Hb. rewrite (index_range_ok _ (4 + length wire + 1)) by lia. cbn [obind].
    assert (∀ b : bytes, ∃ r, (if decide (N.to_nat (byte_val x) = 0) then Ret (Ok DEFAULT_PAIRING_RELAY_URL)
              else utf8_field b) = Ret r ∧ ∀ e, r = Err e → e = fmt_error) as Hr'.
    { intros b. destruct (decide (N.to_nat (byte_val x) = 0)); [|destruct (utf8_field_cases b) as [[-> _]|[-> _]]]; eexists; (split; [done|]);
        naive_solver. }
    match goal with |- context [utf8_field ?b] => destruct (Hr' b) as ([rl|e] & -> & Herr) end;
      cbn [obind]; [|by rewrite (Herr e)]. by rewrite bool_decide_eq_true_2 by lia. }
  rewrite E. split; [by intros ->|]. intros x rest' -> Hr. cbn. apply HK. cbn. lia.
Qed.

Lemma decode_tail_total version buf o : decode_tail version buf o ≠ Panic.
Proof.
  assert (∀ c, guard_err c fmt_error = Ret (Err fmt_error) ∨ c = false ∧ guard_err c fmt_error = Ret (Ok tt)) as Hg
    by (intros []; auto).
  unfold decode_tail. destruct (decide (version = 2%N)).
  { destruct (Hg (bool_decide (length buf ≤ o))) as [->|[E%bool_decide_eq_false_1 ->]]; [done|]. cbn [obind].
    destruct (index buf o) as [[l|?]|] eqn:Ei; [|done|apply index_None in Ei; lia]. cbn [obind].
    by destruct (Hg (bool_decide (length buf < o + 1 + N.to_nat (byte_val l)))) as [->|[_ ->]]. }
  destruct (decide (version = 3%N)); [done|]. destruct (decide (version = 4%N)); [|done].
  { destruct (Hg (bool_decide (length buf < o + 16 + 1))) as [->|[E%bool_decide_eq_false_1 ->]]; [done|]. cbn [obind].
    rewrite index_range_ok by lia. cbn [obind].
    destruct (index buf (o + 16)) as [[l|?]|] eqn:Ei; [|done|apply index_None in Ei; lia]. cbn [obind].
    destruct (Hg (bool_decide (length buf < o + 16 + 1 + N.to_nat (byte_val l)))) as [->|[E'%bool_decide_eq_false_1 ->]]; [done|].
    cbn [obind]. rewrite index_range_ok by lia. cbn [obind].
    unfold utf8_field. by destruct (from_utf8 _). }
Qed.

(** Every input is refused, makes the decoder panic, or is a layout. *)
Lemma decode_cases buf :
  decode_buf buf = Ret (Err fmt_error) ∨
  (∃ version wire, header_ok version wire ∧ 65 ≤ length wire ∧ buf = header version wire ∧ decode_buf buf = Panic) ∨
  (∃ version wire rel p k tail, header_ok version wire ∧ length rel ≤ 255 ∧ length p = 32 ∧ length k = 32 ∧
     buf = layout version wire rel p k tail).
Proof.
  destruct (decode_header buf) as [?|(version & wire & rest & Hok & Hl & ->)]; [by left|].
  destruct (decode_header_end version wire rest Hok Hl) as [Hp He].
  destruct rest as [|x rest']; [right; left|].
  { exists version, wire. rewrite app_nil_r in *. split_and!; try done; [|by apply Hp].
    unfold header in Hl. cbn in Hl. lia. }
  destruct (decide (length rest' < N.to_nat (byte_val x) + 64)) as [Hlt|Hge]; [left; by eapply He|right; right].
  set (m := N.to_nat (byte_val x)) in *. pose proof (byte_val_to_nat x) as Hm. fold m in Hm.
  exists version, wire, (take m rest'), (take 32 (drop m rest')), (take 32 (drop 32 (drop m rest'))),
    (drop 32 (drop 32 (drop m rest'))).
  assert (length (take m rest') = m) as Hlm by (rewrite length_take; lia).
  split_and!; try done; try (rewrite ?length_take, ?length_drop; lia).
  unfold layout, header. rewrite Hlm, <-(as_u8_to_nat x m) by done. rewrite !take_drop.
  rewrite <-app_assoc. done.
Qed.

(** C32. The decoder's one hole: on the decoded payload of a link it either answers or
    stops the program with an index or a slice out of range, and it does so exactly
    on the payloads that end with the daemon id, where the relay length should be: the
    magic, a supported version, the id's length, and 65 to 255 bytes of UTF-8. *)
Theorem decode_panics_iff buf :
  decode_buf buf = Panic ↔
  ∃ version wire, header_ok version wire ∧ 65 ≤ length wire ∧ buf = header version wire.
Proof.
  split.
  - intros Hp. destruct (decode_cases buf) as [?|[(version & wire & H1 & H2 & H3 & _)|
      (version & wire & rel & p & k & tail & (Hv & Hw & Hu) & Hr & Hpl & Hkl & ->)]]; [congruence|by exists version, wire|].
    exfalso. rewrite decode_layout in Hp by done. revert Hp.
    destruct (utf8_field_cases wire) as [[-> _]|[-> _]]; [done|]. cbn [obind].
    pose proof (decode_tail_total version tail 0) as Ht.
    destruct (decide (length rel = 0)) as [_|_]; [|destruct (utf8_field_cases rel) as [[-> _]|[-> _]]; [done|]];
      cbn [obind]; by destruct (decode_tail version tail 0) as [[[? ?]|?]|].
  - intros (version & wire & Hok & Hl & ->).
    destruct (decode_header_end version wire [] Hok) as [Hp _].
    + rewrite app_nil_r. unfold header. cbn. lia.
    + rewrite app_nil_r in Hp. by apply Hp.
Qed.

(** Whatever link is accepted, it is one of the three layouts: a supported
    version, a daemon id of 1 to 255 bytes (prefixed with [daemon-] from v3 on),
    a 32-byte secret and a 32-byte key re-encoded in base64, and no pairing id
    or host name before v4. *)
Theorem decode_sound buf d :
  decode_buf buf = Ret (Ok d) →
  ∃ wire rel p k tail, buf = layout (v d) (as_bytes wire) rel p k tail ∧ (2 ≤ v d ≤ 4)%N ∧
    0 < str_len wire ≤ 255 ∧ length p = 32 ∧ length k = 32 ∧
    ps d = b64_std_encode p ∧ pk d = b64_std_encode k ∧
    did d = (if decide (v d = 2%N) then wire else DAEMON_ID_PREFIX +:+ wire) ∧
    relay d = (if decide (rel = []) then DEFAULT_PAIRING_RELAY_URL else str_of_bytes rel) ∧
    is_str (did d) ∧ is_str (relay d) ∧
    (v d ≠ 4%N → pairing_id d = "" ∧ hostname d = "").
Proof.
  intros Hd. destruct (decode_cases buf) as [?|[(version & wire & _ & _ & _ & ?)|
      (version & wire & rel & p & k & tail & (Hv & Hw & Hu) & Hr & Hpl & Hkl & ->)]]; [congruence..|].
  rewrite decode_layout in Hd by done. destruct (utf8_field_cases wire) as [[_ ?]|[E _]]; [congruence|].
  rewrite E in Hd. cbn [obind] in Hd.
  assert (∃ rl, (if decide (length rel = 0) then Ret (Ok DEFAULT_PAIRING_RELAY_URL) else utf8_field rel) = Ret (Ok rl) ∧
            is_str rl ∧ rl = if decide (rel = []) then DEFAULT_PAIRING_RELAY_URL else str_of_bytes rel) as (rl & Er & Hrs & Hrl).
  { destruct rel as [|x rel]; [by eexists|]. rewrite decide_False by done.
    rewrite decide_False in Hd by done. destruct (utf8_field_cases (x :: rel)) as [[Eu _]|[-> Hus]].
    - by rewrite Eu in Hd.
    - eexists. split; [done|]. split; [|by rewrite decide_False]. unfold is_str. by rewrite as_bytes_of_str. }
  rewrite Er in Hd. cbn [obind] in Hd.
  destruct (decode_tail version tail 0) as [[[pid host]|]|] eqn:Et; [|done..]. injection Hd as <-.
  exists (str_of_bytes wire), rel, p, k, tail. cbn [v ps pk did relay pairing_id hostname mk_pairing].
  rewrite as_bytes_of_str, <-str_len_as_bytes, as_bytes_of_str.
  split_and!; try done; try lia.
  - unfold mk_pairing, is_str. destruct (decide (version = 2%N)); cbn [did]; rewrite ?as_bytes_app, as_bytes_of_str; done.
  - intros Hne. revert Et. unfold decode_tail. rewrite (decide_False (P := version = 4%N)) by done.
    destruct (decide (version = 2%N)); [|destruct (decide (version = 3%N)); [by intros [= <- <-]|done]].
    destruct (bool_decide (length tail ≤ 0)); [done|]. cbn [guard_err obind].
    destruct (index tail 0) as [[l|]|]; [|done..]. cbn [obind]. destruct (bool_decide _); [done|]. by intros [= <- <-].
Qed.
End hostile.

(** ** Witnesses: real base64, and the repository's own vectors *)

Module Demo.
Definition hex_val (c : ascii) : option N :=
  let v := N_of_ascii c in
  if ((48 <=? v) && (v <=? 57))%N then Some (v - 48)%N
  else if ((97 <=? v) && (v <=? 102))%N then Some (v - 87)%N
  else if ((65 <=? v) && (v <=? 70))%N then Some (v - 55)%N else None.

Fixpoint hex_dec (s : string) : option bytes :=
  match s with
  | EmptyString => Some []
  | String a (String b r) =>
      let?o x := hex_val a in let?o y := hex_val b in let?o l := hex_dec r in Some (as_u8 (x * 16 + y) :: l)
  | String _ EmptyString => None
  end.

Lemma hex_val_digit n : (n < 16)%N → hex_val (hex_digit n) = Some n.
Proof.
  intros Hn. pose proof (N_lt_cases (λ n, bool_decide (hex_val (hex_digit n) = Some n)) 16) as H.
  cbv beta in H. specialize (H ltac:(vm_compute; reflexivity) n Hn). by apply bool_decide_eq_true_1 in H.
Qed.

#[local] Instance crates : CryptoCrates := demo_crates.
#[local] Instance pairing_crates : PairingCrates := {| hex_decode := hex_dec; unicode_lowercase := id |}.
#[local] Instance laws : CryptoLaws crates := demo_crates_laws.

Lemma pairing_laws : PairingLaws crates pairing_crates.
Proof.
  split; cbn.
  - intros b. exists (b64_body b), (b64_pad b). split; [done|]. split; [apply b64_body_alphabet|apply b64_encode_length].
  - intros b. apply b64_encode_length.
  - intros b. induction b as [|x b IH]; [done|]. cbn [demo_hex hex_dec]. pose proof (byte_val_lt x).
    rewrite !hex_val_digit by (first [by apply N.mod_lt | apply N.Div0.div_lt_upper_bound; lia]). cbn. rewrite IH. cbn.
    do 2 f_equal. rewrite N.mul_comm, <-N.div_mod by lia. apply as_u8_byte_val.
Qed.

Definition key (n : N) : string := b64_std_encode (replicate 32 (as_u8 n)).
Definition sample : PairingData :=
  mkPairing (key 1) (key 2) DEFAULT_PAIRING_RELAY_URL "daemon-abc123" 4 "00010203-0405-0607-0809-0a0b0c0d0e0f" "my-macbook".
Definition v4_link : string :=
  "tp://p?d=dHAEBmFiYzEyMwABAQEBAQEBAQEBAQEBAQEBAQEBAQEBAQEBAQEBAQEBAQICAgICAgICAgICAgICAgICAgICAgICAgICAgICAgICAAECAwQFBgcICQoLDA0ODwpteS1tYWNib29r".

(** The frozen encoding of [tests::v4_encoding_known_answer]. *)
Example v4_encoding_known_answer : encode_pairing_data sample = Ok v4_link.
Proof. vm_compute. reflexivity. Qed.

(** The vector of [tests::decodes_legacy_v3]. *)
Example decodes_legacy_v3 :
  decode_pairing_data "tp://p?d=dHADBmFiYzEyMwABAQEBAQEBAQEBAQEBAQEBAQEBAQEBAQEBAQEBAQEBAQICAgICAgICAgICAgICAgICAgICAgICAgICAgICAgIC"
  = Ret (Ok (mkPairing (key 1) (key 2) DEFAULT_PAIRING_RELAY_URL "daemon-abc123" 3 "" "")).
Proof. vm_compute. reflexivity. Qed.

Lemma pairing_roundtrip_witness : decode_pairing_data v4_link = Ret (Ok sample).
Proof.
  assert (encode_pairing_data sample = Ok v4_link) as E by (vm_compute; reflexivity).
  destruct (pairing_roundtrip (PL := pairing_laws) sample v4_link ltac:(vm_compute; reflexivity)
    ltac:(vm_compute; reflexivity) ltac:(vm_compute; reflexivity) E) as (raw & Er & Hd & _).
  rewrite Hd. revert Er. vm_compute. intros [= <-]. reflexivity.
Defined.

Lemma decode_sound_witness :
  ∃ d, decode_buf (layout 3 (as_bytes "abc") [] (replicate 32 (as_u8 1)) (replicate 32 (as_u8 2)) [])
       = Ret (Ok d) ∧ is_str (did d) ∧ pairing_id d = "".
Proof.
  eexists. assert (decode_buf (layout 3 (as_bytes "abc") [] (replicate 32 (as_u8 1)) (replicate 32 (as_u8 2)) [])
    = Ret (Ok (mkPairing (key 1) (key 2) DEFAULT_PAIRING_RELAY_URL "daemon-abc" 3 "" ""))) as E
    by (vm_compute; reflexivity).
  split; [exact E|].
  destruct (decode_sound _ _ E) as (w & r & p & k & t & _ & _ & _ & _ & _ & _ & _ & _ & _ & Hs & _ & Hn).
  split; [exact Hs|]. apply Hn. discriminate.
Defined.

(** A link that stops the decoder: the daemon id fills the payload. *)
Example hostile_link_panics :
  decode_pairing_data (PAIRING_URL_SCHEME +:+ "?d=" +:+ b64url_encode (header 4 (replicate 65 "a"%char))) = Panic.
Proof. vm_compute. reflexivity. Qed.
End Demo.
