(* ===== verification/Store.v ===== *)
(** * Store: the daemon's tables and session logs.
    [tp-daemon/src/store/store.rs], [session_db.rs] and [pairing_row_guard.rs]:
    the four tables of the metadata database as maps from their primary keys, each
    SQL statement as the update of the map its text describes, the per-session
    databases as files of a directory, and the cache of open handles.  SQLite may
    fail any statement and the file system any unlink. *)
From stdpp Require Import base list numbers strings gmap sorting.
From Stdlib Require Import Lia ZArith NArith Ascii.
From S2P Require Import Prelude Bytes Text Json Label Paths.
From S2P Require Crypto.

(** The engine's freedom: the order of rows whose sort keys are equal, and of rows
    without [ORDER BY]. *)
Class SqlEngine := {
  order_by : ∀ {A}, (A → Z) → list A → list A;
  order_by_perm {A} (key : A → Z) l : order_by key l ≡ₚ l;
  order_by_sorted {A} (key : A → Z) l : StronglySorted (λ a b, key a ≤ key b)%Z (order_by key l);
  scan : ∀ {A}, gmap string A → list (string * A);
  scan_perm {A} (m : gmap string A) : scan m ≡ₚ map_to_list m
}.

(** ** Rows *)

(** A stored value; rusqlite converts it when a column is read. *)
Inductive SqlValue := SNull | SInteger (n : Z) | SReal | SText (s : string) | SBlob (b : bytes).
#[export] Instance SqlValue_eq_dec : EqDecision SqlValue.
Proof. solve_decision. Defined.

Inductive StoreError := Sqlite | InvalidSid (m : string) | Io.
#[export] Instance StoreError_eq_dec : EqDecision StoreError.
Proof. solve_decision. Defined.

Definition get_text (v : SqlValue) : result (option string) StoreError :=
  match v with SNull => Ok None | SText s => Ok (Some s) | _ => Err Sqlite end.
Definition get_blob (v : SqlValue) : result (option bytes) StoreError :=
  match v with SNull => Ok None | SBlob b => Ok (Some b) | _ => Err Sqlite end.
Definition get_int (v : SqlValue) : result (option Z) StoreError :=
  match v with SNull => Ok None | SInteger n => Ok (Some n) | _ => Err Sqlite end.
Definition opt_text (s : option string) : SqlValue := match s with Some s => SText s | None => SNull end.

Record SessionMeta := mkSession {
  sid : string; state : string; worktree_path : option string; cwd : string;
  created_at : Z; updated_at : Z; claude_version : option string; last_seq : Z
}.

(** A row of [pairings], column by column. *)
Record PairingRow := mkPairingRow {
  r_relay_url : SqlValue; r_relay_token : SqlValue; r_registration_proof : SqlValue;
  r_public_key : SqlValue; r_secret_key : SqlValue; r_pairing_secret : SqlValue;
  r_created_at : Z; r_label : SqlValue; r_pairing_id : SqlValue; r_hostname : SqlValue
}.

Record PairingSummary := mkSummary {
  ps_daemon_id : string; ps_relay_url : string; ps_created_at : Z; ps_label : Label
}.

Record SavePairingInput := mkSave {
  i_daemon_id : string; i_relay_url : string; i_relay_token : string; i_registration_proof : string;
  i_public_key : bytes; i_secret_key : bytes; i_pairing_secret : bytes;
  i_label : option Label; i_pairing_id : string; i_hostname : string
}.

Record PairingConfirmation := mkConfirmation { pct : bytes; frontend_pk : bytes; confirmed_at : Z }.

Inductive PushPlatform := Ios | Android.
#[export] Instance PushPlatform_eq_dec : EqDecision PushPlatform.
Proof. solve_decision. Defined.
Definition as_str (p : PushPlatform) : string := match p with Ios => "ios" | Android => "android" end.
Definition parse (s : string) : option PushPlatform :=
  if String.eqb s "ios" then Some Ios else if String.eqb s "android" then Some Android else None.

Record PushRow := mkPushRow { u_daemon_id : SqlValue; u_sealed : SqlValue; u_platform : SqlValue }.
Record PushToken := mkToken { t_frontend_id : string; t_daemon_id : string; t_sealed : string; t_platform : PushPlatform }.

(** *** [pairing_row_guard.rs] *)

Definition PAIRING_KEY_BYTES : nat := 32.

Record StoredPairing := mkStored {
  sp_daemon_id : string; sp_relay_url : string; sp_relay_token : string; sp_registration_proof : string;
  sp_public_key : bytes; sp_secret_key : bytes; sp_pairing_secret : bytes;
  sp_label : Label; sp_pairing_id : string; sp_hostname : string
}.

Record RawPairingRow := mkRaw {
  raw_daemon_id : option string; raw_relay_url : option string; raw_relay_token : option string;
  raw_registration_proof : option string; raw_created_at : option Z;
  raw_public_key : option bytes; raw_secret_key : option bytes; raw_pairing_secret : option bytes;
  raw_label : option string; raw_pairing_id : option string; raw_hostname : option string
}.

Definition is_non_empty (s : option string) : bool :=
  match s with Some v => bool_decide (v ≠ "") | None => false end.

Definition to_key_bytes (value : option bytes) (len : nat) : option bytes :=
  let?o b := value in if decide (length b = len) then Some b else None.

Definition label_of_column (c : option string) : Label :=
  decode_wire_label (match c with Some s => Str s | None => Null end).

Definition parse_stored_pairing (raw : RawPairingRow) : option StoredPairing :=
  if negb (is_non_empty (raw_daemon_id raw)) then None
  else if negb (is_non_empty (raw_relay_url raw)) then None
  else if negb (is_non_empty (raw_relay_token raw)) then None
  else if negb (is_non_empty (raw_registration_proof raw)) then None
  else
    let?o _ := raw_created_at raw in
    let?o public_key := to_key_bytes (raw_public_key raw) PAIRING_KEY_BYTES in
    let?o secret_key := to_key_bytes (raw_secret_key raw) PAIRING_KEY_BYTES in
    let?o pairing_secret := to_key_bytes (raw_pairing_secret raw) PAIRING_KEY_BYTES in
    Some (mkStored (default "" (raw_daemon_id raw)) (default "" (raw_relay_url raw)) (default "" (raw_relay_token raw))
            (default "" (raw_registration_proof raw)) public_key secret_key pairing_secret
            (label_of_column (raw_label raw)) (default "" (raw_pairing_id raw)) (default "" (raw_hostname raw))).

(** [row.get] for each column; a value of another type is an error, not a [None]. *)
Definition row_to_raw_pairing (daemon_id : string) (r : PairingRow) : result RawPairingRow StoreError :=
  let? url := get_text (r_relay_url r) in
  let? token := get_text (r_relay_token r) in
  let? proof := get_text (r_registration_proof r) in
  let? pk := get_blob (r_public_key r) in
  let? sk := get_blob (r_secret_key r) in
  let? secret := get_blob (r_pairing_secret r) in
  let? label := get_text (r_label r) in
  let? pid := get_text (r_pairing_id r) in
  let? host := get_text (r_hostname r) in
  Ok (mkRaw (Some daemon_id) url token proof (Some (r_created_at r)) pk sk secret label pid host).

(** *** [session_db.rs]: a session's records *)

Record StoredRecord := mkRecord {
  seq : Z; kind : string; ts : Z; ns : option string; name : option string; payload : bytes
}.

(** The [records] table and its [AUTOINCREMENT] counter. *)
Record SessionDb := mkDb { records : list StoredRecord; next_seq : Z }.
Definition I64_MAX : Z := (2 ^ 63 - 1)%Z.
Definition db_new : SessionDb := mkDb [] 1.

Definition append (db : SessionDb) (kind : string) (ts : Z) (payload : bytes) (ns name : option string)
  : result (Z * SessionDb) StoreError :=
  if decide (I64_MAX < next_seq db)%Z then Err Sqlite      (* SQLITE_FULL *)
  else Ok (next_seq db, mkDb (records db ++ [mkRecord (next_seq db) kind ts ns name payload]) (next_seq db + 1)).

(** [LIMIT n]: a negative bound is none. *)
Definition sql_limit {A} (n : Z) (l : list A) : list A := if decide (n < 0)%Z then l else take (Z.to_nat n) l.

Definition get_records_from (db : SessionDb) (after limit : Z) : list StoredRecord :=
  sql_limit limit (filter (λ r, after < seq r)%Z (records db)).

Record RecordsFilter := mkFilter { kinds : option (list string); from : option Z; to : option Z; limit : option Z }.

Definition record_matches (opts : RecordsFilter) (r : StoredRecord) : bool :=
  match kinds opts with Some (k :: ks) => bool_decide (kind r ∈ k :: ks) | _ => true end
  && match from opts with Some f => bool_decide (f ≤ ts r)%Z | None => true end
  && match to opts with Some t => bool_decide (ts r ≤ t)%Z | None => true end.

Definition get_records_filtered (db : SessionDb) (opts : RecordsFilter) : list StoredRecord :=
  sql_limit (Z.min (default 50000 (limit opts)) 50000)%Z (filter (λ r, record_matches opts r) (records db)).

(** [MAX(seq)], 0 on the empty table. *)
Definition get_last_seq (db : SessionDb) : Z :=
  match records db with [] => 0 | r :: rs => foldr (λ r m, Z.max (seq r) m) (seq r) rs end.

(** ** The store *)

Definition DEFAULT_MAX_OPEN_SESSION_DBS : nat := 32.

(** A file of the sessions directory. *)
Inductive File := FDb (db : SessionDb) | FSidecar.

Record Store := mkStore {
  sessions : gmap string SessionMeta;
  pairings : gmap string PairingRow;
  confirmations : gmap (string * string) PairingConfirmation;
  push_tokens : gmap string PushRow;
  session_dbs : gset string;
  order : list string;
  max_open_session_dbs : nat;
  dir : gmap string File;
  ticks : nat                          (* calls to the engine and the file system so far *)
}.

Definition set_sessions v s := mkStore v (pairings s) (confirmations s) (push_tokens s) (session_dbs s) (order s)
  (max_open_session_dbs s) (dir s) (ticks s).
Definition set_pairings v s := mkStore (sessions s) v (confirmations s) (push_tokens s) (session_dbs s) (order s)
  (max_open_session_dbs s) (dir s) (ticks s).
Definition set_confirmations v s := mkStore (sessions s) (pairings s) v (push_tokens s) (session_dbs s) (order s)
  (max_open_session_dbs s) (dir s) (ticks s).
Definition set_push_tokens v s := mkStore (sessions s) (pairings s) (confirmations s) v (session_dbs s) (order s)
  (max_open_session_dbs s) (dir s) (ticks s).
Definition set_cache dbs o s := mkStore (sessions s) (pairings s) (confirmations s) (push_tokens s) dbs o
  (max_open_session_dbs s) (dir s) (ticks s).
Definition set_dir v s := mkStore (sessions s) (pairings s) (confirmations s) (push_tokens s) (session_dbs s) (order s)
  (max_open_session_dbs s) v (ticks s).
Definition set_ticks v s := mkStore (sessions s) (pairings s) (confirmations s) (push_tokens s) (session_dbs s) (order s)
  (max_open_session_dbs s) (dir s) v.

Inductive Unlink := Removed | NotFound | BusyOrPerm | OtherErrno.

(** The environment: the clock, which calls fail, what an unlink answers. *)
Record Env := mkEnv { e_now : Z; e_fail : nat → bool; e_unlink : nat → Unlink }.

Definition M (A : Type) : Type := Store → result A StoreError * Store.
#[export] Instance M_ret : MRet M := λ A a s, (Ok a, s).
#[export] Instance M_bind : MBind M := λ A B k m s,
  let '(r, s) := m s in match r with Ok a => k a s | Err e => (Err e, s) end.

Definition err {A} (e : StoreError) : M A := λ s, (Err e, s).
Definition gets {A} (f : Store → A) : M A := λ s, (Ok (f s), s).
Definition modify (f : Store → Store) : M unit := λ s, (Ok tt, f s).
Definition lift {A} (r : result A StoreError) : M A := λ s, (r, s).
(** Go on whatever [m] answers. *)
Definition catch {A} (m : M A) : M (result A StoreError) := λ s, let '(r, s) := m s in (Ok r, s).
Definition tick : M nat := λ s, (Ok (ticks s), set_ticks (S (ticks s)) s).

Fixpoint for_each {A} (l : list A) (f : A → M unit) : M unit :=
  match l with [] => mret tt | x :: l => f x;; for_each l f end.

Section store.
Context {E : SqlEngine}.
Context (env : Env).

(** One statement: it fails and changes nothing, or does what its text says. *)
Definition execute (f : Store → Store) : M unit :=
  k ← tick; if e_fail env k then err Sqlite else modify f.
Definition query {A} (f : Store → A) : M A :=
  k ← tick; if e_fail env k then err Sqlite else gets f.

Definition session_db_path (sid : string) : string := sid +:+ ".sqlite".

(** [SessionDb::open] creates the file when there is none. *)
Definition open_session_db (sid : string) : M unit :=
  k ← tick;
  if e_fail env k then err Sqlite
  else modify (λ s, match dir s !! session_db_path sid with
                    | Some _ => s
                    | None => set_dir (<[session_db_path sid := FDb db_new]> (dir s)) s
                    end).

(** [position], then [remove]. *)
Fixpoint remove_first (sid : string) (o : list string) : list string :=
  match o with
  | [] => []
  | x :: o => if decide (x = sid) then o else x :: remove_first sid o
  end.

(** Move (or add) a sid to the recent end. *)
Definition to_back (sid : string) (o : list string) : list string := remove_first sid o ++ [sid].

Definition touch (sid : string) : M unit := modify (λ s, set_cache (session_dbs s) (to_back sid (order s)) s).

(** The eviction loop. *)
Fixpoint evict (max : nat) (dbs : gset string) (o : list string) : gset string * list string :=
  if decide (max < size dbs) then
    match o with
    | [] => (dbs, o)
    | oldest :: o => evict max (dbs ∖ {[oldest]}) o
    end
  else (dbs, o).

Definition track_session_db (sid : string) : M unit := modify (λ s,
  let dbs := session_dbs s ∪ {[sid]} in
  let o := to_back sid (order s) in
  if decide (max_open_session_dbs s = 0) then set_cache dbs o s
  else let '(dbs, o) := evict (max_open_session_dbs s) dbs o in set_cache dbs o s).

Definition create_session (sid cwd : string) (worktree_path claude_version : option string) : M unit :=
  match assert_safe_sid sid with
  | Err m => err (InvalidSid m)
  | Ok _ =>
      let now := e_now env in
      execute (λ s, set_sessions (<[sid :=
        match sessions s !! sid with
        | Some old => mkSession sid "running" worktree_path cwd (created_at old) now claude_version (last_seq old)
        | None => mkSession sid "running" worktree_path cwd now now claude_version 0
        end]> (sessions s)) s);;
      open_session_db sid;;
      track_session_db sid
  end.

Definition ensure_session_db (sid : string) : M bool :=
  cached ← gets (λ s, bool_decide (sid ∈ session_dbs s));
  if cached : bool then touch sid;; mret true
  else
    opened ← catch (open_session_db sid);
    match opened with
    | Ok _ => track_session_db sid;; mret true
    | Err _ => mret false
    end.

(** [get_session_db], giving the database's content. *)
Definition get_session_db (sid : string) : M (option SessionDb) :=
  ok ← ensure_session_db sid;
  if ok : bool
  then gets (λ s, match dir s !! session_db_path sid with Some (FDb db) => Some db | _ => None end)
  else mret None.

(** A caller's [db.append] on what [get_session_db] gave. *)
Definition append_record (sid kind : string) (ts : Z) (payload : bytes) (ns name : option string) : M (option Z) :=
  db ← get_session_db sid;
  match db with
  | None => mret None
  | Some db =>
      k ← tick;
      if e_fail env k then err Sqlite
      else
        '(seq, db) ← lift (append db kind ts payload ns name);
        modify (λ s, set_dir (<[session_db_path sid := FDb db]> (dir s)) s);;
        mret (Some seq)
  end.

Definition update_session (sid : string) (f : SessionMeta → SessionMeta) : Store → Store :=
  λ s, set_sessions (alter f sid (sessions s)) s.
Definition update_session_state (sid state : string) : M unit :=
  execute (update_session sid (λ r, mkSession (Store.sid r) state (worktree_path r) (cwd r) (created_at r) (e_now env)
                                     (claude_version r) (last_seq r))).
Definition update_last_seq (sid : string) (seq : Z) : M unit :=
  execute (update_session sid (λ r, mkSession (Store.sid r) (state r) (worktree_path r) (cwd r) (created_at r) (e_now env)
                                     (claude_version r) seq)).
Definition get_session (sid : string) : M (option SessionMeta) := query (λ s, sessions s !! sid).
Definition list_sessions : M (list SessionMeta) :=
  query (λ s, order_by (λ r, (- created_at r)%Z) (snd <$> scan (sessions s))).

(** Up to six attempts; a file that stays busy or protected is left behind. *)
Fixpoint unlink_attempts (n : nat) (path : string) : M unit :=
  match n with
  | O => mret tt
  | S n =>
      k ← tick;
      match e_unlink env k with
      | Removed => modify (λ s, set_dir (delete path (dir s)) s)
      | NotFound => mret tt
      | BusyOrPerm => unlink_attempts n path
      | OtherErrno => err Io
      end
  end.
Definition MAX_ATTEMPTS : nat := 6.
Definition unlink_retry (path : string) : M unit := unlink_attempts MAX_ATTEMPTS path.

Definition delete_session (sid : string) : M unit :=
  modify (λ s, if decide (sid ∈ session_dbs s)
               then set_cache (session_dbs s ∖ {[sid]}) (remove_first sid (order s)) s else s);;
  execute (λ s, set_sessions (delete sid (sessions s)) s);;
  unlink_retry (session_db_path sid);;
  unlink_retry (session_db_path sid +:+ "-wal");;
  unlink_retry (session_db_path sid +:+ "-shm").

Definition prune_old_sessions (max_age_ms : Z) : M nat :=
  if decide (max_age_ms ≤ 0)%Z then mret 0
  else
    let cutoff := (e_now env - max_age_ms)%Z in
    sids ← query (λ s, fst <$> filter (λ p : string * SessionMeta,
              state p.2 ≠ "running" ∧ (updated_at p.2 < cutoff)%Z) (scan (sessions s)));
    for_each sids delete_session;;
    mret (length sids).

(** [name.strip_suffix(suf)], as the two length computations of the sweep. *)
Definition strip_suffix (suf name : string) : option string :=
  let n := str_len name - str_len suf in
  if bool_decide (drop n (as_bytes name) = as_bytes suf) then Some (str_of_bytes (take n (as_bytes name))) else None.

(** A sidecar's session, if the name is a sidecar's. *)
Definition sidecar_sid (name : string) : option string :=
  match strip_suffix ".sqlite-wal" name with Some sid => Some sid | None => strip_suffix ".sqlite-shm" name end.

Definition orphaned (s : Store) (name : string) : bool :=
  match sidecar_sid name with
  | None => false
  | Some sid => negb (bool_decide (is_Some (dir s !! session_db_path sid)) || bool_decide (sid ∈ session_dbs s))
  end.

Definition sweep_orphaned_sidecars : M nat :=
  k ← tick;
  if e_fail env k then mret 0                         (* unreadable directory *)
  else
    names ← gets (λ s, filter (λ n, orphaned s n) (fst <$> scan (dir s)));
    for_each names unlink_retry;;
    mret (length names).

(** *** Pairings *)

Definition null_if_empty (s : string) : SqlValue := if decide (s = "") then SNull else SText s.

(** [COALESCE(a, b)] *)
Definition coalesce (a b : SqlValue) : SqlValue := match a with SNull => b | _ => a end.

Definition save_pairing (data : SavePairingInput) : M unit :=
  let label_sql := opt_text (i_label data ≫= label_to_nullable) in
  let pairing_id := null_if_empty (i_pairing_id data) in
  let hostname := null_if_empty (i_hostname data) in
  execute (λ s,
    let row created pid host :=
      mkPairingRow (SText (i_relay_url data)) (SText (i_relay_token data)) (SText (i_registration_proof data))
        (SBlob (i_public_key data)) (SBlob (i_secret_key data)) (SBlob (i_pairing_secret data)) created label_sql pid host in
    set_pairings (<[i_daemon_id data :=
      match pairings s !! i_daemon_id data with
      | None => row (e_now env) pairing_id hostname
      | Some old => row (r_created_at old) (coalesce pairing_id (r_pairing_id old)) (coalesce hostname (r_hostname old))
      end]> (pairings s)) s).

Definition update_pairing_label (daemon_id : string) (label : Label) : M unit :=
  execute (λ s, set_pairings (alter (λ r, mkPairingRow (r_relay_url r) (r_relay_token r) (r_registration_proof r)
    (r_public_key r) (r_secret_key r) (r_pairing_secret r) (r_created_at r) (opt_text (label_to_nullable label))
    (r_pairing_id r) (r_hostname r)) daemon_id (pairings s)) s).

(** The loop over the rows: a conversion error ends it, an invalid row is skipped. *)
Fixpoint parse_rows (rows : list (string * PairingRow)) : result (list StoredPairing) StoreError :=
  match rows with
  | [] => Ok []
  | (daemon_id, r) :: rows =>
      let? raw := row_to_raw_pairing daemon_id r in
      let? rest := parse_rows rows in
      Ok (match parse_stored_pairing raw with Some p => p :: rest | None => rest end)
  end.

Definition load_pairings : M (list StoredPairing) :=
  rows ← query (λ s, order_by (λ p : string * PairingRow, r_created_at p.2) (scan (pairings s)));
  lift (parse_rows rows).

(** The statements of one transaction, its begin and commit included. *)
Definition delete_pairing_rows (daemon_id : string) : M unit :=
  execute id;;
  execute (λ s, set_push_tokens (filter (λ p, u_daemon_id p.2 ≠ SText daemon_id) (push_tokens s)) s);;
  execute (λ s, set_confirmations (filter (λ p, p.1.1 ≠ daemon_id) (confirmations s)) s);;
  execute (λ s, set_pairings (delete daemon_id (pairings s)) s);;
  execute id.

(** A statement or a commit that fails rolls all of it back. *)
Definition delete_pairing (daemon_id : string) : M unit := λ s,
  match delete_pairing_rows daemon_id s with
  | (Ok _, s') => (Ok tt, s')
  | (Err e, s') => (Err e, set_ticks (ticks s') s)
  end.

Definition list_pairings : M (list PairingSummary) :=
  rows ← query (λ s, order_by (λ p : string * PairingRow, r_created_at p.2) (scan (pairings s)));
  lift (foldr (λ '(d, r) acc,
    let? label := get_text (r_label r) in
    let? url := get_text (r_relay_url r) in
    let? url := ok_or url Sqlite in
    let? rest := acc in
    Ok (mkSummary d url (r_created_at r) (label_of_column label) :: rest)) (Ok []) rows).

(** *** Confirmations *)

Definition save_pairing_confirmation (daemon_id frontend_id : string) (data : PairingConfirmation) : M unit :=
  execute (λ s, set_confirmations (<[(daemon_id, frontend_id) := data]> (confirmations s)) s).
Definition get_pairing_confirmation (daemon_id frontend_id : string) : M (option PairingConfirmation) :=
  query (λ s, confirmations s !! (daemon_id, frontend_id)).
Definition count_pairing_confirmations (daemon_id : string) : M nat :=
  query (λ s, size (filter (λ p : (string * string) * PairingConfirmation, p.1.1 = daemon_id) (confirmations s))).
Definition sweep_orphaned_confirmations : M nat :=
  n ← gets (λ s, size (filter (λ p : (string * string) * PairingConfirmation, pairings s !! p.1.1 = None) (confirmations s)));
  execute (λ s, set_confirmations (filter (λ p, is_Some (pairings s !! p.1.1)) (confirmations s)) s);;
  mret n.

(** [pairing_id IS NULL OR pairing_id = ''] *)
Definition lacks_id (r : PairingRow) : bool :=
  match r_pairing_id r with SNull => true | SText s => bool_decide (s = "") | _ => false end.

Definition set_pairing_id (pid : string) (r : PairingRow) : PairingRow :=
  mkPairingRow (r_relay_url r) (r_relay_token r) (r_registration_proof r) (r_public_key r) (r_secret_key r)
    (r_pairing_secret r) (r_created_at r) (r_label r) (SText pid) (r_hostname r).

Definition migrate_pairing_ids `{C : Crypto.CryptoCrates} : M nat :=
  ids ← query (λ s, fst <$> filter (λ p : string * PairingRow, lacks_id p.2) (scan (pairings s)));
  for_each ids (λ d, execute (λ s, set_pairings (alter (set_pairing_id (Crypto.derive_legacy_pairing_id d)) d (pairings s)) s));;
  mret (length ids).

(** *** Push tokens *)

Definition save_push_token (frontend_id daemon_id sealed : string) (platform : PushPlatform) : M unit :=
  execute (λ s, set_push_tokens (<[frontend_id := mkPushRow (SText daemon_id) (SText sealed) (SText (as_str platform))]>
                                   (push_tokens s)) s).

Definition non_empty (s : option string) : option string := s ≫= λ s, if decide (s = "") then None else Some s.

(** The row's columns, or an error when one has another type. *)
Definition read_push_row (r : PushRow) : result (option string * option string * option string) StoreError :=
  let? d := get_text (u_daemon_id r) in
  let? sealed := get_text (u_sealed r) in
  let? platform := get_text (u_platform r) in
  Ok (d, sealed, platform).

Definition valid_push_row (frontend_id : string) (row : option string * option string * option string) : option PushToken :=
  let '(d, sealed, platform) := row in
  let?o frontend_id := non_empty (Some frontend_id) in
  let?o d := non_empty d in
  let?o sealed := non_empty sealed in
  let?o platform := platform ≫= parse in
  Some (mkToken frontend_id d sealed platform).

Fixpoint read_push_rows (rows : list (string * PushRow))
  : result (list (string * (option string * option string * option string))) StoreError :=
  match rows with
  | [] => Ok []
  | (fid, r) :: rows => let? c := read_push_row r in let? rest := read_push_rows rows in Ok ((fid, c) :: rest)
  end.

Definition delete_push_token (frontend_id : string) : M unit :=
  execute (λ s, set_push_tokens (delete frontend_id (push_tokens s)) s).

Definition load_push_tokens : M (list PushToken) :=
  raw ← query (λ s, scan (push_tokens s));
  rows ← lift (read_push_rows raw);
  let result := omap (λ p, valid_push_row p.1 p.2) rows in
  let corrupt := fst <$> filter (λ p, valid_push_row p.1 p.2 = None ∧ p.1 ≠ "") rows in
  for_each corrupt delete_push_token;;
  mret result.

Definition delete_push_tokens_for_daemon (daemon_id : string) : M unit :=
  execute (λ s, set_push_tokens (filter (λ p, u_daemon_id p.2 ≠ SText daemon_id) (push_tokens s)) s).
End store.
