(* ===== verification/StoreLaws.v ===== *)
(** * StoreLaws: what the daemon's store promises.
    The invariant of the cache and the logs under any sequence of operations and
    failures, reading a log by cursor, and the pairings table: saving and loading,
    pruning, unpairing. *)
From stdpp Require Import base list numbers strings gmap sorting.
From Stdlib Require Import Lia ZArith NArith Ascii.
From S2P Require Import Prelude Bytes Text Json Label Paths Store.
From S2P Require Crypto.

(** ** Running a computation *)

Lemma store_bind_run {A B} (m : M A) (k : A → M B) s :
  (m ≫= k) s = match m s with (Ok a, s') => k a s' | (Err e, s') => (Err e, s') end.
Proof. unfold mbind, M_bind. by destruct (m s) as [[]]. Qed.

Lemma execute_run env f s :
  execute env f s = let s := set_ticks (S (ticks s)) s in if e_fail env (ticks s - 1) then (Err Sqlite, s) else (Ok tt, f s).
Proof. unfold execute. rewrite store_bind_run. cbn. rewrite Nat.sub_0_r. by destruct (e_fail _ _). Qed.

Lemma query_run {A} env (f : Store → A) s :
  query env f s = let s := set_ticks (S (ticks s)) s in if e_fail env (ticks s - 1) then (Err Sqlite, s) else (Ok (f s), s).
Proof. unfold query. rewrite store_bind_run. cbn. rewrite Nat.sub_0_r. by destruct (e_fail _ _). Qed.

Definition with_file (sid : string) (s : Store) : Store :=
  match dir s !! session_db_path sid with
  | Some _ => s
  | None => set_dir (<[session_db_path sid := FDb db_new]> (dir s)) s
  end.

Lemma open_run env sid s :
  open_session_db env sid s =
  let s := set_ticks (S (ticks s)) s in if e_fail env (ticks s - 1) then (Err Sqlite, s) else (Ok tt, with_file sid s).
Proof. unfold open_session_db. rewrite store_bind_run. cbn. rewrite Nat.sub_0_r. by destruct (e_fail _ _). Qed.

(** ** Preservation *)

(** [m] keeps [P], whether it succeeds or not. *)
Definition keeps {A} (P : Store → Prop) (m : M A) : Prop := ∀ s, P s → P (m s).2.

Section keeps.
Context (P : Store → Prop).
Hypothesis P_ticks : ∀ s k, P s → P (set_ticks k s).

Lemma keeps_ret {A} (a : A) : keeps P (mret a).
Proof. by intros s. Qed.
Lemma keeps_err {A} e : keeps P (err (A := A) e).
Proof. by intros s. Qed.
Lemma keeps_lift {A} (r : result A StoreError) : keeps P (lift r).
Proof. by intros s. Qed.
Lemma keeps_gets {A} (f : Store → A) : keeps P (gets f).
Proof. by intros s. Qed.
Lemma keeps_modify f : (∀ s, P s → P (f s)) → keeps P (modify f).
Proof. intros H s. apply H. Qed.
Lemma keeps_bind {A B} (m : M A) (k : A → M B) : keeps P m → (∀ a, keeps P (k a)) → keeps P (m ≫= k).
Proof.
  intros Hm Hk s Hs. unfold mbind, M_bind. pose proof (Hm s Hs) as H.
  destruct (m s) as [[a|e] s']; [by apply Hk|done].
Qed.
Lemma keeps_catch {A} (m : M A) : keeps P m → keeps P (catch m).
Proof. intros Hm s Hs. unfold catch. pose proof (Hm s Hs). by destruct (m s). Qed.
Lemma keeps_tick : keeps P tick.
Proof. intros s Hs. by apply P_ticks. Qed.
Lemma keeps_for_each {A} (l : list A) (f : A → M unit) : (∀ x, x ∈ l → keeps P (f x)) → keeps P (for_each l f).
Proof.
  induction l as [|x l IH]; intros H; [apply keeps_ret|]. cbn. apply keeps_bind; [apply H; left|].
  intros _. apply IH. intros y Hy. apply H. by right.
Qed.
Lemma keeps_execute env f : (∀ s, P s → P (f s)) → keeps P (execute env f).
Proof.
  intros H. apply keeps_bind; [apply keeps_tick|]. intros k.
  destruct (e_fail env k); [apply keeps_err|by apply keeps_modify].
Qed.
Lemma keeps_query {A} env (f : Store → A) : keeps P (query env f).
Proof.
  apply keeps_bind; [apply keeps_tick|]. intros k. destruct (e_fail env k); [apply keeps_err|apply keeps_gets].
Qed.
Lemma keeps_unlink_attempts env n path :
  (∀ s, P s → P (set_dir (delete path (dir s)) s)) → keeps P (unlink_attempts env n path).
Proof.
  intros H. induction n as [|n IH]; [apply keeps_ret|]. cbn. apply keeps_bind; [apply keeps_tick|]. intros k.
  destruct (e_unlink env k); [by apply keeps_modify|apply keeps_ret|apply IH|apply keeps_err].
Qed.
End keeps.

Create HintDb store.
#[export] Hint Resolve keeps_ret keeps_err keeps_lift keeps_gets keeps_catch keeps_tick keeps_query : store.

(** Split a computation into its statements. *)
Ltac keep :=
  repeat first
    [ apply keeps_ret | apply keeps_err | apply keeps_lift | apply keeps_gets | apply keeps_catch
    | apply keeps_tick | apply keeps_query | apply keeps_execute | apply keeps_modify
    | apply keeps_for_each; intros ? ? | apply keeps_bind; [|intros ?]
    | match goal with |- keeps _ (if ?b then _ else _) => destruct b
                    | |- keeps _ (match ?x with _ => _ end) => destruct x end ];
  try assumption.

(** ** The cache and the logs *)

Lemma get_last_seq_snoc db r q :
  get_last_seq (mkDb (records db ++ [r]) q) = match records db with [] => seq r | _ => Z.max (get_last_seq db) (seq r) end.
Proof.
  unfold get_last_seq. destruct db as [l q']. cbn. destruct l as [|x l]; [done|]. cbn. rewrite foldr_app. cbn.
  enough (∀ a b, foldr (λ r m, Z.max (seq r) m) (Z.max a b) l = Z.max (foldr (λ r m, Z.max (seq r) m) b l) a) as -> by done.
  intros a b. induction l as [|y l IH]; cbn; [lia|]. rewrite IH. lia.
Qed.

(** A session's log: increasing numbers, all below the counter, which is the next. *)
Definition log_ok (db : SessionDb) : Prop :=
  StronglySorted Z.lt (seq <$> records db) ∧ Forall (λ r, 0 < seq r < next_seq db)%Z (records db) ∧ (0 < next_seq db)%Z ∧
  next_seq db = (get_last_seq db + 1)%Z.

Record inv (s : Store) : Prop := {
  i_order : NoDup (order s);
  i_cached : ∀ x, x ∈ order s ↔ x ∈ session_dbs s;
  i_bound : max_open_session_dbs s = 0 ∨ size (session_dbs s) ≤ max_open_session_dbs s;
  i_open : ∀ x, x ∈ session_dbs s → is_Some (dir s !! session_db_path x);
  i_base : ∀ x f, dir s !! session_db_path x = Some f → ∃ db, f = FDb db ∧ log_ok db;
  i_keyed : ∀ x r, sessions s !! x = Some r → Store.sid r = x
}.

Lemma inv_ticks s k : inv s → inv (set_ticks k s).
Proof. by intros []. Qed.

Lemma db_new_ok : log_ok db_new.
Proof. split_and!; [constructor|constructor|done|done]. Qed.

Lemma session_db_path_inj : Inj (=) (=) session_db_path.
Proof.
  intros x y H. unfold session_db_path in H. apply (f_equal as_bytes) in H. rewrite !as_bytes_app in H.
  apply app_inj_2 in H as [H _]; [|done].
  rewrite <-(str_of_as_bytes x), <-(str_of_as_bytes y). by f_equal.
Qed.

Lemma elem_of_remove_first x y o : NoDup o → y ∈ remove_first x o ↔ y ∈ o ∧ y ≠ x.
Proof.
  induction o as [|z o IH]; intros Hn; cbn; [split; [by intros ?%elem_of_nil|by intros [?%elem_of_nil _]]|].
  apply NoDup_cons in Hn as [Hz Hn]. case_decide as E; rewrite !elem_of_cons; subst.
  - split; [|tauto]. intros Hy. split; [by right|]. by intros ->.
  - rewrite IH by done. naive_solver.
Qed.

Lemma nodup_remove_first x o : NoDup o → NoDup (remove_first x o).
Proof.
  induction o as [|z o IH]; intros Hn; [done|]. cbn. apply NoDup_cons in Hn as [Hz Hn]. case_decide; [done|].
  apply NoDup_cons. split; [|by apply IH]. rewrite elem_of_remove_first by done. tauto.
Qed.

Lemma nodup_to_back x o : NoDup o → NoDup (to_back x o).
Proof.
  intros Hn. unfold to_back. apply NoDup_app. split_and!; [by apply nodup_remove_first| |apply NoDup_singleton].
  intros y Hy. rewrite elem_of_remove_first in Hy by done. rewrite list_elem_of_singleton. tauto.
Qed.

Lemma elem_of_to_back x y o : NoDup o → y ∈ to_back x o ↔ y ∈ o ∨ y = x.
Proof.
  intros Hn. unfold to_back. rewrite elem_of_app, elem_of_remove_first, list_elem_of_singleton by done.
  destruct (decide (y = x)); tauto.
Qed.

(** Eviction keeps a most recent suffix, exactly as long as the bound allows. *)
Lemma evict_spec max dbs o :
  NoDup o → (∀ x, x ∈ o ↔ x ∈ dbs) →
  let '(dbs', o') := evict max dbs o in
  (∃ p, o = p ++ o') ∧ (∀ x, x ∈ o' ↔ x ∈ dbs') ∧ size dbs' = min (size dbs) max.
Proof.
  revert dbs. induction o as [|x o IH]; intros dbs Hn Hi; cbn; case_decide as Hs.
  - assert (size dbs = 0) as Hz; [|lia]. apply size_empty_iff. intros y. rewrite <-Hi. set_solver.
  - split_and!; [by exists []|done|lia].
  - apply NoDup_cons in Hn as [Hx Hn].
    assert (x ∈ dbs) as Hd by (apply Hi; left).
    assert (size (dbs ∖ {[x]}) = size dbs - 1) as Hsz.
    { rewrite size_difference by set_solver. by rewrite size_singleton. }
    specialize (IH (dbs ∖ {[x]}) Hn). destruct (evict max (dbs ∖ {[x]}) o) as [dbs' o'].
    destruct IH as ((p & ->) & Hi' & Hs').
    { intros y. rewrite elem_of_difference, elem_of_singleton, <-Hi, elem_of_cons. split; [|tauto].
      intros Hy. split; [by right|]. by intros ->. }
    split_and!; [by exists (x :: p)|done|lia].
  - split_and!; [by exists []|done|lia].
Qed.

Lemma track_cache s sid :
  inv s → let s' := (track_session_db sid s).2 in
  NoDup (order s') ∧ (∀ x, x ∈ order s' ↔ x ∈ session_dbs s') ∧
  (max_open_session_dbs s' = 0 ∨ size (session_dbs s') ≤ max_open_session_dbs s') ∧
  session_dbs s' ⊆ session_dbs s ∪ {[sid]} ∧ sid ∈ session_dbs s'.
Proof.
  intros [Hn Hc _ _ _ _]. cbv zeta. unfold track_session_db, modify. cbn [snd].
  assert (∀ x, x ∈ to_back sid (order s) ↔ x ∈ session_dbs s ∪ {[sid]}) as Hi.
  { intros x. rewrite elem_of_to_back, Hc by done. set_solver +. }
  pose proof (nodup_to_back sid (order s) Hn) as Hn'. case_decide as Hm.
  { cbn. split_and!; try done; [by left|set_solver +]. }
  pose proof (evict_spec (max_open_session_dbs s) _ _ Hn' Hi) as H.
  destruct (evict _ _ _) as [dbs o] eqn:Ee. destruct H as ((p & Hp) & Hi' & Hs). cbn.
  assert (sid ∈ o) as Hso.
  { destruct o as [|y o] using rev_ind.
    - exfalso. assert (size dbs = 0) as Hz by (apply size_empty_iff; intros y; rewrite <-Hi'; set_solver +).
      assert (size (session_dbs s ∪ {[sid]}) ≠ 0) by (apply size_non_empty_iff; set_solver +). lia.
    - rewrite app_assoc in Hp. unfold to_back in Hp. apply app_inj_tail in Hp as [_ ->]. apply elem_of_app. right. left. }
  rewrite Hp in Hn'. apply NoDup_app in Hn' as (_ & _ & Hno).
  split_and!; [done|done|right; lia| |by apply Hi'].
  intros x Hx%Hi'. apply Hi. rewrite Hp. apply elem_of_app. by right.
Qed.

Lemma dir_with_file sid s : dir (with_file sid s) !! session_db_path sid =
  Some (default (FDb db_new) (dir s !! session_db_path sid)).
Proof. unfold with_file. destruct (dir s !! session_db_path sid) eqn:E; [by rewrite E|]. cbn. by rewrite lookup_insert_eq. Qed.

Lemma dir_with_file_ne sid s x : x ≠ session_db_path sid → dir (with_file sid s) !! x = dir s !! x.
Proof. intros Hx. unfold with_file. destruct (dir s !! session_db_path sid); [done|]. cbn. by rewrite lookup_insert_ne. Qed.

Lemma with_file_rest sid s : ∃ d, with_file sid s = set_dir d s.
Proof. unfold with_file. destruct (dir s !! session_db_path sid); [exists (dir s); by destruct s|by eexists]. Qed.

Lemma inv_with_file sid s : inv s → inv (with_file sid s).
Proof.
  intros [I1 I2 I3 I4 I5 I6]. destruct (with_file_rest sid s) as [d Ed]. pose proof (dir_with_file sid s) as Hd.
  pose proof (dir_with_file_ne sid s) as Hn. rewrite Ed in *. split; cbn in *; try done.
  - intros x Hx. destruct (decide (session_db_path x = session_db_path sid)) as [->|]; [by eexists|rewrite Hn by done; by apply I4].
  - intros x f. destruct (decide (session_db_path x = session_db_path sid)) as [Ex|]; [|rewrite Hn by done; apply I5].
    rewrite Ex, Hd. intros [= <-]. destruct (dir s !! session_db_path sid) eqn:E; cbn; [|exists db_new; split; [done|apply db_new_ok]].
    by apply (I5 sid).
Qed.

(** Tracking touches only the cache. *)
Lemma track_run sid s : ∃ dbs o, track_session_db sid s = (Ok tt, set_cache dbs o s).
Proof. unfold track_session_db, modify. case_decide; [by eexists _, _|]. destruct (evict _ _ _). by eexists _, _. Qed.

Lemma inv_track s sid : inv s → is_Some (dir s !! session_db_path sid) → inv (track_session_db sid s).2.
Proof.
  intros I Hd. pose proof (track_cache s sid I) as (H1 & H2 & H3 & H4 & _). destruct I as [_ _ _ I4 I5 I6].
  destruct (track_run sid s) as (dbs & o & E). rewrite E in *. cbn in *. split; cbn; try done.
  intros x Hx. apply H4 in Hx as [?| ->%elem_of_singleton]%elem_of_union; [by apply I4|done].
Qed.

Lemma keeps_open_track env sid : keeps inv (open_session_db env sid;; track_session_db sid).
Proof.
  intros s I. rewrite store_bind_run, open_run. cbv zeta. destruct (e_fail _ _); [by apply inv_ticks|].
  apply inv_track; [by apply inv_with_file, inv_ticks|]. by rewrite dir_with_file.
Qed.

Lemma inv_touch s sid : inv s → sid ∈ session_dbs s → inv (touch sid s).2.
Proof.
  intros [I1 I2 I3 I4 I5 I6] Hs. split; cbn; try done; [by apply nodup_to_back|].
  intros x. rewrite elem_of_to_back by done. rewrite I2. naive_solver.
Qed.

(** [ensure_session_db] never fails, and answers [true] only with the handle in
    the cache and its file as it was, or new. *)
Lemma ensure_spec env sid s :
  inv s → ∃ b s', ensure_session_db env sid s = (Ok b, s') ∧ inv s' ∧
  (b = false → ∃ k, s' = set_ticks k s) ∧
  (b = true → sid ∈ session_dbs s' ∧ ∃ k dbs o d, s' = set_cache dbs o (set_dir d (set_ticks k s)) ∧
     d !! session_db_path sid = Some (default (FDb db_new) (dir s !! session_db_path sid)) ∧
     ∀ x, x ≠ session_db_path sid → d !! x = dir s !! x).
Proof.
  intros I. unfold ensure_session_db. rewrite store_bind_run. cbn. case_bool_decide as Hc.
  - exists true. eexists. split; [by rewrite store_bind_run|]. split; [by apply inv_touch|]. split; [done|]. intros _. split; [done|].
    destruct (i_open s I sid Hc) as [f Hf]. exists (ticks s). eexists _, _, (dir s). split; [by destruct s|].
    by rewrite Hf.
  - rewrite store_bind_run. unfold catch. rewrite open_run. cbv zeta. destruct (e_fail _ _).
    { exists false. eexists. split; [done|]. split; [by apply inv_ticks|]. split; [by eexists|done]. }
    rewrite store_bind_run. set (s1 := with_file sid _). assert (inv s1) as I1 by by apply inv_with_file, inv_ticks.
    pose proof (track_cache s1 sid I1) as (_ & _ & _ & _ & Hin).
    pose proof (inv_track s1 sid I1 ltac:(unfold s1; by rewrite dir_with_file)) as It.
    destruct (track_run sid s1) as (dbs & o & Et). rewrite Et in *. cbn in It, Hin.
    exists true. eexists. split; [reflexivity|]. split; [done|]. split; [done|]. intros _. split; [done|].
    destruct (with_file_rest sid (set_ticks (S (ticks s)) s)) as [d Hd]. exists (S (ticks s)), dbs, o, d. split; [|split].
    + unfold s1. by rewrite Hd.
    + pose proof (dir_with_file sid (set_ticks (S (ticks s)) s)) as H. by rewrite Hd in H.
    + intros x Hx. pose proof (dir_with_file_ne sid (set_ticks (S (ticks s)) s) x Hx) as H. by rewrite Hd in H.
Qed.

(** The content of a session's file. *)
Definition log_of (s : Store) (sid : string) : SessionDb :=
  match dir s !! session_db_path sid with Some (FDb db) => db | _ => db_new end.

Lemma log_of_ok s sid : inv s → log_ok (log_of s sid).
Proof.
  intros I. unfold log_of. destruct (dir s !! session_db_path sid) as [f|] eqn:Ef; [|apply db_new_ok].
  by destruct (i_base s I sid f Ef) as (db & -> & ?).
Qed.

Lemma append_ok db k t p n m i db' :
  log_ok db → append db k t p n m = Ok (i, db') →
  log_ok db' ∧ i = next_seq db ∧ db' = mkDb (records db ++ [mkRecord i k t n m p]) (i + 1).
Proof.
  intros (H1 & H2 & H3 & H4). unfold append. case_decide; [done|]. intros [= <- <-]. split; [|done].
  split_and!; cbn; [|apply Forall_app; split; [eapply Forall_impl; [done|]; cbn; lia|by repeat constructor; cbn; lia]|lia|].
  2: { rewrite get_last_seq_snoc. cbn. destruct (records db); lia. }
  rewrite fmap_app. cbn. apply StronglySorted_app_2; [|done|by repeat constructor].
  intros x y (r & -> & Hr)%list_elem_of_fmap ->%list_elem_of_singleton. rewrite Forall_forall in H2. apply H2 in Hr; cbn; lia.
Qed.

Lemma get_session_db_spec env sid s :
  inv s → ∃ o s', get_session_db env sid s = (Ok o, s') ∧ inv s' ∧ sessions s' = sessions s ∧
  (∀ x, x ≠ session_db_path sid → dir s' !! x = dir s !! x) ∧
  match o with
  | None => dir s' = dir s
  | Some db => sid ∈ session_dbs s' ∧ dir s' !! session_db_path sid = Some (FDb db) ∧ db = log_of s sid
  end.
Proof.
  intros I. unfold get_session_db. destruct (ensure_spec env sid s I) as (b & s1 & E & I1 & Hf & Ht).
  rewrite store_bind_run, E. destruct b; cbn.
  - destruct (Ht eq_refl) as (Hin & k & dbs & o & d & -> & Hd & Hn). clear Hf Ht.
    eexists _, _. split; [reflexivity|]. split; [done|]. split; [done|]. split; [done|]. cbn. rewrite Hd.
    pose proof (i_base _ I1 sid) as Hb. cbn in Hb. rewrite Hd in Hb. destruct (Hb _ eq_refl) as (db & Edb & _).
    rewrite Edb. split_and!; [done|done|]. unfold log_of.
    destruct (dir s !! session_db_path sid) as [f|]; cbn in Edb; [by subst|congruence].
  - destruct (Hf eq_refl) as [k ->]. by eexists _, _.
Qed.

(** A write to a session's open file. *)
Lemma inv_write s sid db : inv s → log_ok db → inv (set_dir (<[session_db_path sid := FDb db]> (dir s)) s).
Proof.
  intros [I1 I2 I3 I4 I5 I6] Hl. split; cbn; try done.
  - intros x Hx. destruct (decide (session_db_path x = session_db_path sid)) as [->|]; [by rewrite lookup_insert_eq|].
    rewrite lookup_insert_ne by done. by apply I4.
  - intros x f. destruct (decide (session_db_path x = session_db_path sid)) as [->|]; [rewrite lookup_insert_eq|].
    + intros [= <-]. by exists db.
    + rewrite lookup_insert_ne by done. apply I5.
Qed.

Lemma append_record_spec env sid k t p n m s :
  inv s → let '(r, s') := append_record env sid k t p n m s in
  inv s' ∧ sessions s' = sessions s ∧ (∀ x, x ≠ session_db_path sid → dir s' !! x = dir s !! x) ∧
  match r with
  | Ok (Some i) =>
      i = next_seq (log_of s sid) ∧ sid ∈ session_dbs s' ∧
      log_of s' sid = mkDb (records (log_of s sid) ++ [mkRecord i k t n m p]) (i + 1)
  | _ => log_of s' sid = log_of s sid
  end.
Proof.
  intros I. unfold append_record. destruct (get_session_db_spec env sid s I) as (o & s1 & E & I1 & Hs & Hn & Ho).
  rewrite store_bind_run, E. destruct o as [db|]; [|by cbn; split_and!; try done; unfold log_of; rewrite Ho].
  destruct Ho as (Hin & Hd & ->). rewrite store_bind_run. cbn.
  assert (log_of s1 sid = log_of s sid) as Hl by (unfold log_of at 1; by rewrite Hd).
  assert (inv (set_ticks (S (ticks s1)) s1)) as I2 by by apply inv_ticks.
  destruct (e_fail env (ticks s1)); [by split_and!|]. rewrite store_bind_run. unfold lift.
  destruct (append (log_of s sid) k t p n m) as [[i db']|e] eqn:Ea; [|by split_and!].
  destruct (append_ok _ _ _ _ _ _ _ _ (log_of_ok s sid I) Ea) as (Hok & -> & ->). rewrite store_bind_run. cbn.
  split_and!; try done.
  - by apply (inv_write (set_ticks (S (ticks s1)) s1)).
  - intros x Hx. by rewrite lookup_insert_ne, Hn.
  - unfold log_of. cbn. by rewrite lookup_insert_eq.
Qed.

(** The daemon's own tables, and the bound of the cache. *)
Definition tables s := (sessions s, pairings s, confirmations s, push_tokens s, max_open_session_dbs s).

Lemma keeps_tables_append env sid k t p n m v : keeps (λ s, tables s = v) (append_record env sid k t p n m).
Proof.
  set (P := λ s, tables s = v). assert (∀ s k, P s → P (set_ticks k s)) as Ht by done.
  assert (∀ f, (∀ s, tables (f s) = tables s) → keeps P (modify f)) as Hm.
  { intros f Hf. apply keeps_modify. intros s Hs. unfold P in *. by rewrite Hf. }
  assert (keeps P (track_session_db sid)) as Hk.
  { apply Hm. intros s. case_decide; [done|]. cbv zeta. by destruct (evict _ _ _). }
  assert (keeps P (open_session_db env sid)) as Ho.
  { apply keeps_bind; [by apply keeps_tick|intros i]. destruct (e_fail env i); [apply keeps_err|].
    apply Hm. intros s. by destruct (dir s !! session_db_path sid). }
  assert (keeps P (get_session_db env sid)) as Hg.
  { apply keeps_bind; [|intros []; [apply keeps_gets|apply keeps_ret]]. apply keeps_bind; [apply keeps_gets|intros []].
    - apply keeps_bind; [by apply Hm|intros _; apply keeps_ret].
    - apply keeps_bind; [by apply keeps_catch|intros []; [apply keeps_bind; [done|intros _]|]; apply keeps_ret]. }
  apply keeps_bind; [done|intros [db|]; [|apply keeps_ret]]. apply keeps_bind; [by apply keeps_tick|intros i].
  destruct (e_fail env i); [apply keeps_err|]. apply keeps_bind; [apply keeps_lift|intros [q db']].
  apply keeps_bind; [by apply Hm|intros _; apply keeps_ret].
Qed.

Lemma strip_suffix_Some suf name r : strip_suffix suf name = Some r → as_bytes name = as_bytes r ++ as_bytes suf.
Proof.
  unfold strip_suffix. case_bool_decide as H; [|done]. intros [= <-]. rewrite as_bytes_of_str, <-H. by rewrite take_drop.
Qed.

(** A sidecar's name is no database's. *)
Lemma path_not_sidecar x y : sidecar_sid (session_db_path y) = Some x → False.
Proof.
  intros H. unfold sidecar_sid in H.
  assert (∃ r suf, as_bytes (session_db_path y) = r ++ suf ∧ (last suf = Some "l"%char ∨ last suf = Some "m"%char)) as (r & suf & E & Hl).
  { destruct (strip_suffix ".sqlite-wal" _) as [z|] eqn:Ez.
    - apply strip_suffix_Some in Ez. eexists _, _. split; [exact Ez|by left].
    - apply strip_suffix_Some in H. eexists _, _. split; [exact H|by right]. }
  unfold session_db_path in E. rewrite as_bytes_app in E. apply (f_equal last) in E. rewrite !last_app in E. cbn in E.
  destruct Hl as [Hl|Hl]; by rewrite Hl in E.
Qed.

Lemma suffixed_not_path sid y suf :
  last (as_bytes suf) = Some "l"%char ∨ last (as_bytes suf) = Some "m"%char →
  session_db_path y ≠ session_db_path sid +:+ suf.
Proof.
  intros Hl E. apply (f_equal (λ s, last (as_bytes s))) in E. unfold session_db_path in E.
  rewrite !as_bytes_app, !last_app in E. cbn in E. destruct Hl as [Hl|Hl]; by rewrite Hl in E.
Qed.

(** What the daemon does to its store, and what SQLite does to the sidecar files. *)
Inductive Op :=
| OCreateSession (sid cwd : string) (worktree_path claude_version : option string)
| OEnsure (sid : string)
| OAppend (sid kind : string) (ts : Z) (payload : bytes) (ns name : option string)
| OUpdateState (sid state : string) | OUpdateSeq (sid : string) (seq : Z)
| ODeleteSession (sid : string) | OPrune (max_age_ms : Z) | OSweepSidecars
| OSavePairing (data : SavePairingInput) | ORelabel (daemon_id : string) (label : Label)
| ODeletePairing (daemon_id : string)
| OSaveConfirmation (daemon_id frontend_id : string) (data : PairingConfirmation) | OSweepConfirmations
| OMigrate
| OSaveToken (frontend_id daemon_id sealed : string) (platform : PushPlatform)
| OLoadTokens | ODeleteToken (frontend_id : string) | ODeleteTokensFor (daemon_id : string)
| OSidecar (name : string) (present : bool).

Section ops.
Context {E : SqlEngine} `{C : Crypto.CryptoCrates}.

Definition run_op (env : Env) (op : Op) (s : Store) : Store :=
  match op with
  | OCreateSession sid cwd w v => (create_session env sid cwd w v s).2
  | OEnsure sid => (ensure_session_db env sid s).2
  | OAppend sid k t p n m => (append_record env sid k t p n m s).2
  | OUpdateState sid st => (update_session_state env sid st s).2
  | OUpdateSeq sid q => (update_last_seq env sid q s).2
  | ODeleteSession sid => (delete_session env sid s).2
  | OPrune age => (prune_old_sessions env age s).2
  | OSweepSidecars => (sweep_orphaned_sidecars env s).2
  | OSavePairing d => (save_pairing env d s).2
  | ORelabel d l => (update_pairing_label env d l s).2
  | ODeletePairing d => (delete_pairing env d s).2
  | OSaveConfirmation d f c => (save_pairing_confirmation env d f c s).2
  | OSweepConfirmations => (sweep_orphaned_confirmations env s).2
  | OMigrate => (migrate_pairing_ids env s).2
  | OSaveToken f d sealed p => (save_push_token env f d sealed p s).2
  | OLoadTokens => (load_push_tokens env s).2
  | ODeleteToken f => (delete_push_token env f s).2
  | ODeleteTokensFor d => (delete_push_tokens_for_daemon env d s).2
  | OSidecar name present =>
      match sidecar_sid name with
      | Some _ => set_dir (if present then <[name := FSidecar]> (dir s) else delete name (dir s)) s
      | None => s
      end
  end.

Definition store_new (max : nat) : Store := mkStore ∅ ∅ ∅ ∅ ∅ [] max ∅ 0.

Lemma inv_dir_rest s d :
  (∀ x, d !! session_db_path x = dir s !! session_db_path x) → inv s → inv (set_dir d s).
Proof. intros Hd [I1 I2 I3 I4 I5 I6]. split; cbn; try done; intros x; rewrite Hd; [apply I4|apply I5]. Qed.

Lemma inv_unlink_db s sid :
  sid ∉ session_dbs s → inv s → inv (set_dir (delete (session_db_path sid) (dir s)) s).
Proof.
  intros Hs [I1 I2 I3 I4 I5 I6]. split; cbn; try done.
  - intros x Hx. destruct (decide (x = sid)) as [->|Hne]; [done|].
    rewrite lookup_delete_ne by (intros ?%session_db_path_inj; congruence). by apply I4.
  - intros x f Hf. apply lookup_delete_Some in Hf as [_ Hf]. by apply (I5 x).
Qed.

Definition closed (sid : string) (s : Store) : Prop := inv s ∧ sid ∉ session_dbs s.

Lemma closed_ticks sid s k : closed sid s → closed sid (set_ticks k s).
Proof. intros [I ?]. split; [by apply inv_ticks|done]. Qed.

Lemma inv_forget s sid :
  inv s → closed sid (if decide (sid ∈ session_dbs s)
               then set_cache (session_dbs s ∖ {[sid]}) (remove_first sid (order s)) s else s).
Proof.
  intros I. case_decide as H; [|done]. destruct I as [I1 I2 I3 I4 I5 I6]. split; [|cbn; set_solver +].
  split; cbn; try done.
  - by apply nodup_remove_first.
  - intros x. rewrite elem_of_remove_first, I2 by done. set_solver +.
  - destruct I3 as [?|?]; [by left|right]. etrans; [apply (subseteq_size _ (session_dbs s)); set_solver +|done].
  - intros x [Hx _]%elem_of_difference. by apply I4.
Qed.

Lemma keeps_delete_session env sid : keeps inv (delete_session env sid).
Proof.
  intros s I. unfold delete_session. rewrite store_bind_run. cbn [modify].
  pose proof (inv_forget s sid I) as Hc. cbv beta iota. revert Hc. generalize (if decide (sid ∈ session_dbs s) then
    set_cache (session_dbs s ∖ {[sid]}) (remove_first sid (order s)) s else s). clear s I. intros s Hc.
  enough (keeps (closed sid) (execute env (λ s, set_sessions (delete sid (sessions s)) s);;
    unlink_retry env (session_db_path sid);; unlink_retry env (session_db_path sid +:+ "-wal");;
    unlink_retry env (session_db_path sid +:+ "-shm"))) as H by by apply H.
  clear s Hc. apply keeps_bind; [|intros _; apply keeps_bind; [|intros _; apply keeps_bind; [|intros _]]].
  - apply keeps_execute; [apply closed_ticks|]. intros s [[I1 I2 I3 I4 I5 I6] Hs]. split; [|done]. split; cbn; try done.
    intros x r [_ Hr]%lookup_delete_Some. by apply I6.
  - apply keeps_unlink_attempts; [apply closed_ticks|]. intros s [I Hs]. split; [by apply inv_unlink_db|done].
  - apply keeps_unlink_attempts; [apply closed_ticks|]. intros s [I Hs]. split; [|done]. apply inv_dir_rest; [|done].
    intros x. rewrite lookup_delete_ne; [done|]. intros Ex. by eapply (suffixed_not_path sid x "-wal"); [left|].
  - apply keeps_unlink_attempts; [apply closed_ticks|]. intros s [I Hs]. split; [|done]. apply inv_dir_rest; [|done].
    intros x. rewrite lookup_delete_ne; [done|]. intros Ex. by eapply (suffixed_not_path sid x "-shm"); [right|].
Qed.

Lemma keeps_sweep env : keeps inv (sweep_orphaned_sidecars env).
Proof.
  intros s I. unfold sweep_orphaned_sidecars. rewrite store_bind_run. cbn. destruct (e_fail _ _); [by apply inv_ticks|].
  rewrite store_bind_run. cbn [gets]. rewrite store_bind_run. apply (inv_ticks _ (S (ticks s))) in I. revert I. generalize (set_ticks (S (ticks s)) s).
  clear s. intros s I. set (names := filter _ _).
  assert (∀ n, n ∈ names → is_Some (sidecar_sid n)) as Hn.
  { intros n [Ho _]%list_elem_of_filter. unfold orphaned in Ho. by destruct (sidecar_sid n). }
  assert (keeps inv (for_each names (unlink_retry env))) as Hk.
  { apply keeps_for_each. intros n Hin. destruct (Hn n Hin) as [x Hx]. apply keeps_unlink_attempts; [apply inv_ticks|].
    clear s I names Hn Hin. intros s I. apply inv_dir_rest; [|done]. intros y. rewrite lookup_delete_ne; [done|]. intros ->.
    by eapply path_not_sidecar. }
  pose proof (Hk s I) as H. destruct (for_each names (unlink_retry env) s) as [[[]|] s']; done.
Qed.

Lemma inv_set_sessions_alter s sid f :
  (∀ r, Store.sid (f r) = Store.sid r) → inv s → inv (set_sessions (alter f sid (sessions s)) s).
Proof.
  intros Hf [I1 I2 I3 I4 I5 I6]. split; cbn; try done. intros x r Hx. apply lookup_alter_Some in Hx as [(-> & r' & Hr & ->)|[_ Hr]].
  - rewrite Hf. by apply I6.
  - by apply I6.
Qed.

(** One statement on another table. *)
Ltac by_statement := apply keeps_execute; [apply inv_ticks|]; by intros s [].

Lemma keeps_create_session env sid cwd w v : keeps inv (create_session env sid cwd w v).
Proof.
  unfold create_session. destruct (assert_safe_sid sid); [|apply keeps_err].
  apply keeps_bind; [|intros _; apply keeps_open_track].
  apply keeps_execute; [apply inv_ticks|]. intros s [I1 I2 I3 I4 I5 I6]. split; cbn; try done.
  intros x r Hx. apply lookup_insert_Some in Hx as [[-> <-]|[_ Hr]]; [by destruct (sessions s !! x)|by apply I6].
Qed.

Lemma keeps_prune env age : keeps inv (prune_old_sessions env age).
Proof.
  unfold prune_old_sessions. case_decide; [apply keeps_ret|].
  apply keeps_bind; [apply keeps_query, inv_ticks|]. intros sids. apply keeps_bind; [|intros _; apply keeps_ret].
  apply keeps_for_each. intros x _. apply keeps_delete_session.
Qed.

Lemma keeps_delete_pairing env d : keeps inv (delete_pairing env d).
Proof.
  assert (keeps inv (delete_pairing_rows env d)) as H.
  { unfold delete_pairing_rows. repeat (apply keeps_bind; [|intros _]); by_statement. }
  intros s I. unfold delete_pairing. pose proof (H s I) as Hs.
  destruct (delete_pairing_rows env d s) as [[[]|e] s']; [done|by apply inv_ticks].
Qed.

Lemma keeps_migrate env : keeps inv (migrate_pairing_ids env).
Proof.
  unfold migrate_pairing_ids. apply keeps_bind; [apply keeps_query, inv_ticks|]. intros ids.
  apply keeps_bind; [|intros _; apply keeps_ret]. apply keeps_for_each. intros x _. by_statement.
Qed.

Lemma keeps_load_push_tokens env : keeps inv (load_push_tokens env).
Proof.
  unfold load_push_tokens. apply keeps_bind; [apply keeps_query, inv_ticks|]. intros raw.
  apply keeps_bind; [apply keeps_lift|]. intros rows.
  apply keeps_bind; [|intros _; apply keeps_ret]. apply keeps_for_each. intros x _. by_statement.
Qed.

Lemma keeps_sweep_confirmations env : keeps inv (sweep_orphaned_confirmations env).
Proof.
  unfold sweep_orphaned_confirmations. apply keeps_bind; [apply keeps_gets|]. intros n.
  apply keeps_bind; [by_statement|intros _; apply keeps_ret].
Qed.

Lemma inv_run_op env op s : inv s → inv (run_op env op s).
Proof.
  destruct op as [sid cwd w v|sid|sid k t p n m|sid st|sid q|sid|age| |d|d l|d|d f c| | |f d sealed p| |f|d|name present];
    cbn [run_op]; try (revert s; by_statement).
  - by apply keeps_create_session.
  - intros I. by destruct (ensure_spec env sid s I) as (b & s' & -> & I' & _).
  - intros I. pose proof (append_record_spec env sid k t p n m s I) as H. destruct (append_record _ _ _ _ _ _ _ _). apply H.
  - revert s. apply keeps_execute; [apply inv_ticks|]. intros s. by apply inv_set_sessions_alter.
  - revert s. apply keeps_execute; [apply inv_ticks|]. intros s. by apply inv_set_sessions_alter.
  - by apply keeps_delete_session.
  - by apply keeps_prune.
  - by apply keeps_sweep.
  - by apply keeps_delete_pairing.
  - by apply keeps_sweep_confirmations.
  - by apply keeps_migrate.
  - by apply keeps_load_push_tokens.
  - intros I. destruct (sidecar_sid name) as [y|] eqn:Ey; [|done]. apply inv_dir_rest; [|done]. intros x.
    assert (name ≠ session_db_path x) by (intros ->; by eapply path_not_sidecar).
    destruct present; [by rewrite lookup_insert_ne|by rewrite lookup_delete_ne].
Qed.
End ops.

(** ** What the store promises *)

Section claims.
Context {E : SqlEngine} `{C : Crypto.CryptoCrates}.

Definition run_ops (ops : list (Env * Op)) (s : Store) : Store := foldl (λ s p, run_op p.1 p.2 s) s ops.

Lemma store_new_inv max : inv (store_new max).
Proof.
  split; cbn; try done.
  - constructor.
  - intros x. split; [by intros ?%elem_of_nil|by intros ?%elem_of_empty].
  - right. rewrite size_empty. lia.
Qed.

Lemma inv_run_ops max ops : inv (run_ops ops (store_new max)).
Proof.
  unfold run_ops. generalize (store_new_inv max). generalize (store_new max).
  induction ops as [|[env op] ops IH]; intros s I; [done|]. cbn. by apply IH, inv_run_op.
Qed.

(** C8. The store's invariant, from an empty store on and after any sequence of its
    operations in which any statement, open or unlink may have failed: the cache of open
    session databases and its recency list hold the same sessions, each once, never more
    than the bound it was opened with; every open one has its file; and every session's
    log is numbered upwards from one without repetition, below the counter. *)
Theorem store_invariant max ops :
  let s := run_ops ops (store_new max) in
  NoDup (order s) ∧ (∀ x, x ∈ order s ↔ x ∈ session_dbs s) ∧
  (max_open_session_dbs s = 0 ∨ size (session_dbs s) ≤ max_open_session_dbs s) ∧
  (∀ x, x ∈ session_dbs s → is_Some (dir s !! session_db_path x)) ∧
  (∀ x f, dir s !! session_db_path x = Some f → ∃ db, f = FDb db ∧
     StronglySorted Z.lt (seq <$> records db) ∧ Forall (λ r, 0 < seq r < next_seq db)%Z (records db)) ∧
  (∀ x r, sessions s !! x = Some r → Store.sid r = x).
Proof.
  cbv zeta. destruct (inv_run_ops max ops) as [I1 I2 I3 I4 I5 I6]. split_and!; try done.
  intros x f Hf. destruct (I5 x f Hf) as (db & -> & H1 & H2 & _). by exists db.
Qed.

(** *** Reading a log by cursor *)

Lemma sorted_last (l : list StoredRecord) r x :
  StronglySorted Z.lt (seq <$> l) → last l = Some r → x ∈ l → (seq x ≤ seq r)%Z.
Proof.
  intros Hs Hl Hx. destruct l as [|y l] using rev_ind; [done|]. rewrite last_snoc in Hl. injection Hl as ->.
  rewrite fmap_app in Hs. apply elem_of_app in Hx as [Hx|Hx%list_elem_of_singleton]; [|by subst].
  apply StronglySorted_app in Hs as (Hs & _ & _). apply Z.lt_le_incl, Hs; [by apply list_elem_of_fmap_2|by left].
Qed.

Lemma filter_past (l : list StoredRecord) c : (∀ x, x ∈ l → seq x ≤ c)%Z → filter (λ r, c < seq r)%Z l = [].
Proof.
  intros H. apply list_filter_none. intros x Hx Hc. apply H in Hx. lia.
Qed.

Lemma foldr_max_ge (l : list StoredRecord) a : (a ≤ foldr (λ r m, Z.max (seq r) m) a l)%Z ∧
  ∀ x, x ∈ l → (seq x ≤ foldr (λ r m, Z.max (seq r) m) a l)%Z.
Proof.
  induction l as [|y l [IH1 IH2]]; cbn; [split; [lia|by intros x ?%elem_of_nil]|]. split; [lia|].
  intros x [->|Hx]%elem_of_cons; [lia|]. specialize (IH2 x Hx). lia.
Qed.

Lemma foldr_max_in (l : list StoredRecord) a : foldr (λ r m, Z.max (seq r) m) a l = a ∨
  ∃ x, x ∈ l ∧ foldr (λ r m, Z.max (seq r) m) a l = seq x.
Proof.
  induction l as [|y l IH]; cbn; [by left|]. destruct (Z.max_spec (seq y) (foldr (λ r m, Z.max (seq r) m) a l)) as [[_ ->]|[_ ->]].
  - destruct IH as [->|(x & Hx & ->)]; [by left|right]. exists x. split; [by right|done].
  - right. exists y. split; [by left|done].
Qed.

Lemma get_last_seq_spec db :
  log_ok db → (get_last_seq db < next_seq db)%Z ∧ ∀ x, x ∈ records db → (seq x ≤ get_last_seq db)%Z.
Proof.
  intros (_ & Hf & Hp & _). unfold get_last_seq. rewrite Forall_forall in Hf. destruct (records db) as [|r l]; [split; [lia|by intros x ?%elem_of_nil]|].
  destruct (foldr_max_ge l (seq r)) as [H1 H2]. split.
  - destruct (foldr_max_in l (seq r)) as [->|(x & Hx & ->)]; [apply (Hf r); by left|apply (Hf x); by right].
  - intros x [->|Hx]%elem_of_cons; [done|by apply H2].
Qed.

(** A page and the pages after its last record make up the unpaged answer. *)
Lemma page_split db c limit page :
  log_ok db → (0 < limit)%Z → get_records_from db c limit = page →
  match last page with
  | None => get_records_from db c (-1) = []
  | Some r => get_records_from db c (-1) = page ++ get_records_from db (seq r) (-1) ∧ (c < seq r)%Z
  end.
Proof.
  intros (Hs & _ & _) Hl <-. unfold get_records_from, sql_limit. rewrite decide_False, decide_True by lia.
  set (all := filter _ (records db)). assert (StronglySorted Z.lt (seq <$> all)) as Hsa.
  { unfold all. clear all. induction (records db) as [|r l IH]; [constructor|]. cbn in Hs.
    apply StronglySorted_inv in Hs as [Hs Hf]. rewrite filter_cons. case_decide; [|by apply IH]. cbn. constructor; [by apply IH|].
    apply Forall_forall. intros z (y & -> & Hy)%list_elem_of_fmap. rewrite list_elem_of_filter in Hy.
    rewrite Forall_forall in Hf. apply Hf, list_elem_of_fmap_2. tauto. }
  destruct (last (take (Z.to_nat limit) all)) as [r|] eqn:El.
  - assert (r ∈ all) as Hr by (apply last_Some in El as [l' El]; rewrite <-(take_drop (Z.to_nat limit) all), El, !elem_of_app; left; right; by left).
    assert (c < seq r)%Z as Hc by (unfold all in Hr; apply list_elem_of_filter in Hr; tauto).
    split; [|done]. rewrite decide_True by lia.
    rewrite <-(take_drop (Z.to_nat limit) all) at 1. f_equal.
    assert (filter (λ x, seq r < seq x)%Z (records db) = filter (λ x, seq r < seq x)%Z all) as ->.
    { unfold all. rewrite list_filter_filter. apply list_filter_iff. intros x. lia. }
    rewrite <-(take_drop (Z.to_nat limit) all) at 2. rewrite filter_app.
    rewrite <-(take_drop (Z.to_nat limit) all), fmap_app in Hsa. apply StronglySorted_app in Hsa as (Hlt & Ht & _).
    rewrite filter_past by (intros x Hx; by eapply sorted_last). cbn. symmetry. apply list_filter_all. intros x Hx.
    apply Hlt; [|by apply list_elem_of_fmap_2]. apply list_elem_of_fmap_2. apply last_Some in El as [l' ->].
    apply elem_of_app. right. by left.
  - apply last_None in El. destruct all; [done|]. destruct (Z.to_nat limit) eqn:En; [lia|done].
Qed.


(** The cap on a filtered query is a minimum, so a negative bound lifts it. *)
Lemma negative_limit_unbounded db opts l :
  limit opts = Some l → (l < 0)%Z →
  get_records_filtered db opts = filter (λ r, record_matches opts r) (records db).
Proof. intros Ho Hl. unfold get_records_filtered, sql_limit. rewrite Ho. by rewrite decide_True by (cbn; lia). Qed.

(** *** Pairings *)

(** The row converts, and gives this pairing. *)
Definition loads (s : Store) (p : StoredPairing) : Prop :=
  ∃ d r raw, pairings s !! d = Some r ∧ row_to_raw_pairing d r = Ok raw ∧ parse_stored_pairing raw = Some p.

Definition readable (s : Store) : Prop :=
  ∀ d r, pairings s !! d = Some r → ∃ raw, row_to_raw_pairing d r = Ok raw.

Lemma result_bind_Ok {A B X} (m : result A X) (k : A → result B X) b :
  result_bind m k = Ok b → ∃ a, m = Ok a ∧ k a = Ok b.
Proof. destruct m as [a|]; [|done]. by exists a. Qed.

(** The columns of a row that converts. *)
Ltac columns H := do 9 (apply result_bind_Ok in H as (? & ? & H)); injection H as <-.

Lemma row_to_raw_id d r raw : row_to_raw_pairing d r = Ok raw → raw_daemon_id raw = Some d.
Proof. intros H. by columns H. Qed.

Lemma parse_stored_id raw p d : parse_stored_pairing raw = Some p → raw_daemon_id raw = Some d → sp_daemon_id p = d.
Proof.
  unfold parse_stored_pairing. do 4 (destruct (negb _); [done|]). intros H Hd.
  do 4 (apply bind_Some in H as (? & _ & H)). injection H as <-. by rewrite Hd.
Qed.

Lemma parse_rows_spec rows :
  (∀ d r, (d, r) ∈ rows → ∃ raw, row_to_raw_pairing d r = Ok raw) →
  ∃ l, parse_rows rows = Ok l ∧ sp_daemon_id <$> l `sublist_of` fst <$> rows ∧
  ∀ p, p ∈ l ↔ ∃ d r raw, (d, r) ∈ rows ∧ row_to_raw_pairing d r = Ok raw ∧ parse_stored_pairing raw = Some p.
Proof.
  induction rows as [|[d r] rows IH]; intros H; cbn.
  { exists []. split_and!; [done|done|]. intros p. split; [by intros ?%elem_of_nil|by intros (? & ? & ? & ?%elem_of_nil & _)]. }
  destruct (H d r ltac:(by left)) as [raw Hraw]. rewrite Hraw. cbn [result_bind].
  destruct IH as (l & -> & Hs & Hl); [intros d' r' Hin; apply H; by right|]. cbn [result_bind].
  eexists. split; [reflexivity|]. destruct (parse_stored_pairing raw) as [q|] eqn:Eq.
  - split.
    + cbn. rewrite (parse_stored_id raw q d) by (done || by apply (row_to_raw_id d r)). by apply sublist_skip.
    + intros p. rewrite elem_of_cons, Hl. split.
      * intros [->|(d' & r' & raw' & ? & ? & ?)]; [exists d, r, raw; split; [by left|done]|exists d', r', raw'; split; [by right|done]].
      * intros (d' & r' & raw' & [[= -> ->]|Hin]%elem_of_cons & Hr & Hp); [left; congruence|right; by exists d', r', raw'].
  - split; [by apply sublist_cons|]. intros p. rewrite Hl. split.
    + intros (d' & r' & raw' & ? & ? & ?). exists d', r', raw'. split; [by right|done].
    + intros (d' & r' & raw' & [[= -> ->]|Hin]%elem_of_cons & Hr & Hp); [congruence|by exists d', r', raw'].
Qed.

Lemma scan_lookup {A} (m : gmap string A) d r : (d, r) ∈ scan m ↔ m !! d = Some r.
Proof. by rewrite scan_perm, elem_of_map_to_list. Qed.

Lemma scan_keys {A} (m : gmap string A) : NoDup (fst <$> scan m).
Proof. rewrite scan_perm. apply NoDup_fst_map_to_list. Qed.

Lemma filter_size_scan {A} (P : A → Prop) `{!∀ x, Decision (P x)} (m : gmap string A) :
  length (filter (λ p : string * A, P p.2) (scan m)) = size (filter (λ p : string * A, P p.2) m).
Proof.
  rewrite scan_perm, <-length_map_to_list, map_filter_alt, map_to_list_to_map; [done|].
  eapply (sublist_NoDup _ _ (NoDup_fst_map_to_list m)). apply fmap_sublist, sublist_filter.
Qed.

(** Loading a readable table gives each of its valid rows, once. *)
Lemma load_pairings_run env s :
  readable s → e_fail env (ticks s) = false →
  ∃ l, (load_pairings env s).1 = Ok l ∧ NoDup (sp_daemon_id <$> l) ∧ ∀ p, p ∈ l ↔ loads s p.
Proof.
  intros Hr He. unfold load_pairings. rewrite store_bind_run, query_run. cbv zeta. cbn [ticks set_ticks pairings Nat.sub].
  rewrite Nat.sub_0_r, He. cbn. destruct (parse_rows_spec (order_by (λ p : string * PairingRow, r_created_at p.2) (scan (pairings s))))
    as (l & El & Hs & Hl).
  { intros d r. rewrite order_by_perm, scan_lookup. apply Hr. }
  exists l. split; [done|]. split.
  - eapply sublist_NoDup; [|exact Hs]. rewrite order_by_perm. apply scan_keys.
  - intros p. rewrite Hl. unfold loads. by setoid_rewrite order_by_perm; setoid_rewrite scan_lookup.
Qed.

(** What a pairing becomes on disk, given what was there. *)
Definition known (new : string) (old : option SqlValue) : string :=
  if decide (new = "") then match old with Some (SText s) => s | _ => "" end else new.

Definition stored_of (data : SavePairingInput) (old : option PairingRow) : StoredPairing :=
  mkStored (i_daemon_id data) (i_relay_url data) (i_relay_token data) (i_registration_proof data)
    (i_public_key data) (i_secret_key data) (i_pairing_secret data) (default Unset (i_label data))
    (known (i_pairing_id data) (r_pairing_id <$> old)) (known (i_hostname data) (r_hostname <$> old)).

Definition saveable (data : SavePairingInput) : Prop :=
  i_daemon_id data ≠ "" ∧ i_relay_url data ≠ "" ∧ i_relay_token data ≠ "" ∧ i_registration_proof data ≠ "" ∧
  length (i_public_key data) = 32 ∧ length (i_secret_key data) = 32 ∧ length (i_pairing_secret data) = 32 ∧
  (∀ l, i_label data = Some l → canonical l = true).

Lemma label_column (l : option Label) :
  (∀ x, l = Some x → canonical x = true) → label_of_column (l ≫= label_to_nullable) = default Unset l.
Proof.
  destruct l as [l|]; [|done]. intros H. cbn. pose proof (make_label_of_canonical l (H l eq_refl)) as Hm.
  by destruct l.
Qed.

Lemma get_known new old :
  (∀ v, old = Some v → ∃ o, get_text v = Ok o) →
  ∃ o, get_text (match old with Some v => coalesce (null_if_empty new) v | None => null_if_empty new end) = Ok o ∧
       default "" o = known new old.
Proof.
  intros H. unfold known, null_if_empty. case_decide as Hnew; subst.
  - destruct old as [v|]; cbn; [|by eexists]. destruct (H v eq_refl) as [o Ho]. exists o. split; [done|].
    by destruct v; cbn in Ho; try discriminate Ho; injection Ho as <-.
  - exists (Some new). by destruct old.
Qed.

Lemma readable_columns d r raw : row_to_raw_pairing d r = Ok raw →
  (∃ o, get_text (r_pairing_id r) = Ok o) ∧ ∃ o, get_text (r_hostname r) = Ok o.
Proof. intros H. columns H. split; by eexists. Qed.

(** The row [save_pairing] writes reads back as the pairing. *)
Lemma saved_row_loads data old created pid host :
  saveable data →
  (∃ o, get_text pid = Ok o ∧ default "" o = known (i_pairing_id data) (r_pairing_id <$> old)) →
  (∃ o, get_text host = Ok o ∧ default "" o = known (i_hostname data) (r_hostname <$> old)) →
  ∃ raw, row_to_raw_pairing (i_daemon_id data)
    (mkPairingRow (SText (i_relay_url data)) (SText (i_relay_token data)) (SText (i_registration_proof data))
       (SBlob (i_public_key data)) (SBlob (i_secret_key data)) (SBlob (i_pairing_secret data)) created
       (opt_text (i_label data ≫= label_to_nullable)) pid host) = Ok raw ∧
    parse_stored_pairing raw = Some (stored_of data old).
Proof.
  intros (H1 & H2 & H3 & H4 & H5 & H6 & H7 & Hl) (o1 & Hp & Ep) (o2 & Hh & Eh). remember (stored_of data old) as st eqn:Est.
  unfold row_to_raw_pairing. cbn. rewrite Hp, Hh. pose proof (label_column (i_label data) Hl) as Hlab.
  destruct (i_label data ≫= label_to_nullable) as [lab|]; cbn in *; (eexists; split; [reflexivity|]);
    unfold parse_stored_pairing, to_key_bytes; cbn; rewrite !bool_decide_eq_true_2 by done; cbn;
    unfold PAIRING_KEY_BYTES; do 3 rewrite (decide_True (P := length _ = 32)) by done; cbn; by rewrite Hlab, Ep, Eh, Est.
Qed.

Lemma save_pairing_run env data s :
  saveable data → readable s → e_fail env (ticks s) = false →
  let '(r, s1) := save_pairing env data s in
  r = Ok tt ∧ readable s1 ∧ ticks s1 = S (ticks s) ∧
  (∀ p, loads s1 p ↔ p = stored_of data (pairings s !! i_daemon_id data) ∨ sp_daemon_id p ≠ i_daemon_id data ∧ loads s p) ∧
  r_created_at <$> pairings s1 !! i_daemon_id data =
    Some (match pairings s !! i_daemon_id data with Some old => r_created_at old | None => e_now env end).
Proof.
  intros Hd Hr He. unfold save_pairing. rewrite execute_run. cbn [ticks set_ticks Nat.sub]. rewrite Nat.sub_0_r, He.
  set (d := i_daemon_id data) in *. set (old := pairings s !! d). cbv beta zeta.
  match goal with |- context [set_pairings (<[d := ?r]> _) ?s0] => set (row := r); set (s1 := set_pairings (<[d := row]> (pairings s0)) s0) end.
  assert (∃ raw, row_to_raw_pairing d row = Ok raw ∧ parse_stored_pairing raw = Some (stored_of data old)) as (raw & Hraw & Hp).
  { unfold row. cbn [pairings set_ticks]. fold old. pose proof (saved_row_loads data old) as H. fold d in H.
    pose proof (get_known (i_pairing_id data) (r_pairing_id <$> old)) as K1.
    pose proof (get_known (i_hostname data) (r_hostname <$> old)) as K2.
    destruct old as [o|] eqn:Eo; cbn in K1, K2.
    - destruct (Hr d o Eo) as [raw Hraw]. destruct (readable_columns d o raw Hraw) as [C1 C2].
      apply H; [done|apply K1|apply K2]; intros v [= <-]; done.
    - apply H; [done|by apply K1|by apply K2]. }
  assert (pairings s1 = <[d := row]> (pairings s)) as Es by done. split; [done|]. split_and!; [|done| |].
  - intros d' r'. rewrite Es. destruct (decide (d' = d)) as [->|]; [rewrite lookup_insert_eq|rewrite lookup_insert_ne by done; apply Hr].
    intros [= <-]. by exists raw.
  - intros p. unfold loads. rewrite Es. split.
    + intros (d' & r' & raw' & Hlk & Hraw' & Hp'). apply lookup_insert_Some in Hlk as [[<- <-]|[Hne Hlk]].
      * left. congruence.
      * right. split; [|by exists d', r', raw']. by rewrite (parse_stored_id raw' p d' Hp' (row_to_raw_id d' r' raw' Hraw')).
    + intros [->|(Hne & d' & r' & raw' & Hlk & Hraw' & Hp')].
      * exists d, row, raw. by rewrite lookup_insert_eq.
      * exists d', r', raw'. rewrite lookup_insert_ne; [done|]. intros ->. apply Hne.
        by apply (parse_stored_id raw' p), (row_to_raw_id d' r').
  - rewrite Es, lookup_insert_eq. unfold row. cbn. fold old. by destruct old.
Qed.

(** [save_pairing], then [load_pairings]. *)
Lemma save_pairing_loads env env' data s :
  saveable data → readable s → e_fail env (ticks s) = false → e_fail env' (S (ticks s)) = false →
  let '(r, s1) := save_pairing env data s in
  r = Ok tt ∧
  (∃ l, (load_pairings env' s1).1 = Ok l ∧ NoDup (sp_daemon_id <$> l) ∧
     ∀ p, p ∈ l ↔ p = stored_of data (pairings s !! i_daemon_id data) ∨ sp_daemon_id p ≠ i_daemon_id data ∧ loads s p) ∧
  r_created_at <$> pairings s1 !! i_daemon_id data =
    Some (match pairings s !! i_daemon_id data with Some old => r_created_at old | None => e_now env end).
Proof.
  intros Hd Hr He He'. pose proof (save_pairing_run env data s Hd Hr He) as H. destruct (save_pairing env data s) as [r s1].
  destruct H as (Hok & Hr1 & Ht & Hp & Hc). split_and!; [done| |done]. rewrite <-Ht in He'.
  destruct (load_pairings_run env' s1 Hr1 He') as (l & El & Hn & Hl). exists l. split_and!; [done|done|].
  intros p. by rewrite Hl, Hp.
Qed.

Lemma known_again v o : get_text v = Ok o → known (default "" o) (Some v) = default "" o.
Proof. unfold known. destruct v; cbn; intros [= <-]; cbn; by case_decide. Qed.

(** What a row gives is what saving it again would give. *)
Lemma loaded_is_stored s p : loads s p →
  let data := mkSave (sp_daemon_id p) (sp_relay_url p) (sp_relay_token p) (sp_registration_proof p) (sp_public_key p) (sp_secret_key p)
                (sp_pairing_secret p) (Some (sp_label p)) (sp_pairing_id p) (sp_hostname p) in
  saveable data ∧ stored_of data (pairings s !! sp_daemon_id p) = p.
Proof.
  intros (d & r & raw & Hl & Hraw & Hp). rewrite (parse_stored_id raw p d Hp (row_to_raw_id d r raw Hraw)), Hl.
  columns Hraw. unfold parse_stored_pairing in Hp. cbn in Hp. unfold is_non_empty, to_key_bytes in Hp.
  case_bool_decide; [|done].
  destruct x as [url|], x0 as [token|], x1 as [proof|]; cbn in Hp; try done; repeat (case_bool_decide; [|done]; cbn in Hp; try done).
  destruct x2 as [pk|], x3 as [sk|], x4 as [secret|]; simplify_option_eq. split.
  - unfold saveable. cbn. split_and!; try done. intros l [= <-]. apply decode_wire_label_canonical.
  - unfold stored_of. cbn. by rewrite (known_again _ x6), (known_again _ x7).
Qed.

(** C22. Saving a pairing and loading it back, also over an older row of the same
    daemon: exactly the saved keys, secrets, relay and label come back; an identity
    the caller does not know keeps the one stored before; the row's age is kept; the
    other daemons' pairings load as before; and each daemon is loaded once. *)
Theorem pairing_persisted env env' data s :
  saveable data → readable s → e_fail env (ticks s) = false → e_fail env' (S (ticks s)) = false →
  let '(r, s1) := save_pairing env data s in
  r = Ok tt ∧
  (∃ l, (load_pairings env' s1).1 = Ok l ∧ NoDup (sp_daemon_id <$> l) ∧
     ∀ p, p ∈ l ↔ p = stored_of data (pairings s !! i_daemon_id data) ∨ sp_daemon_id p ≠ i_daemon_id data ∧ loads s p) ∧
  r_created_at <$> pairings s1 !! i_daemon_id data =
    Some (match pairings s !! i_daemon_id data with Some old => r_created_at old | None => e_now env end).
Proof. exact (save_pairing_loads env env' data s). Qed.

(** *** Pruning and deleting *)

Definition old (cutoff : Z) (r : SessionMeta) : Prop := state r ≠ "running" ∧ (updated_at r < cutoff)%Z.
#[local] Instance old_dec cutoff r : Decision (old cutoff r).
Proof. unfold old. apply _. Defined.

(** What pruning may have done so far: dropped old sessions and their files. *)
Definition pruned (cutoff : Z) (s0 s : Store) : Prop :=
  (∀ x, sessions s !! x = sessions s0 !! x ∧ dir s !! session_db_path x = dir s0 !! session_db_path x ∨
        ∃ r, sessions s0 !! x = Some r ∧ old cutoff r) ∧
  sessions s ⊆ sessions s0 ∧ pairings s = pairings s0 ∧ confirmations s = confirmations s0 ∧ push_tokens s = push_tokens s0.

Lemma pruned_ticks cutoff s0 s k : pruned cutoff s0 s → pruned cutoff s0 (set_ticks k s).
Proof. done. Qed.

Lemma pruned_unlink cutoff s0 s path :
  (∀ x, path = session_db_path x → ∃ r, sessions s0 !! x = Some r ∧ old cutoff r) →
  pruned cutoff s0 s → pruned cutoff s0 (set_dir (delete path (dir s)) s).
Proof.
  intros Hp (H1 & H2). split; [|done]. intros x. cbn. destruct (decide (path = session_db_path x)) as [->|Hne].
  - right. by apply Hp.
  - rewrite lookup_delete_ne by done. apply H1.
Qed.

Lemma keeps_pruned_delete cutoff s0 env sid r :
  sessions s0 !! sid = Some r → old cutoff r → keeps (pruned cutoff s0) (delete_session env sid).
Proof.
  intros Hr Ho. unfold delete_session. apply keeps_bind; [|intros _; apply keeps_bind; [|intros _]].
  - apply keeps_modify. intros s Hs. by case_decide.
  - apply keeps_execute; [apply pruned_ticks|]. intros s (H1 & H2 & H3). split_and!; try done; cbn; try tauto.
    + intros x. destruct (decide (x = sid)) as [->|]; [right; by exists r|rewrite lookup_delete_ne by done; apply H1].
    + etrans; [apply delete_subseteq|done].
  - repeat (apply keeps_bind; [|intros _]); (apply keeps_unlink_attempts; [apply pruned_ticks|]; intros s; apply pruned_unlink; intros x Hx).
    + apply session_db_path_inj in Hx as <-. by exists r.
    + exfalso. by eapply (suffixed_not_path sid x "-wal"); [left|].
    + exfalso. by eapply (suffixed_not_path sid x "-shm"); [right|].
Qed.

Lemma unlink_sessions env n path s : sessions (unlink_attempts env n path s).2 = sessions s.
Proof.
  assert (keeps (λ s', sessions s' = sessions s) (unlink_attempts env n path)) as H; [|by apply H].
  by apply keeps_unlink_attempts.
Qed.

Lemma delete_session_ok env sid s s' : delete_session env sid s = (Ok tt, s') → sessions s' = delete sid (sessions s).
Proof.
  unfold delete_session, unlink_retry. rewrite store_bind_run. cbn [modify]. rewrite store_bind_run, execute_run. cbv zeta.
  destruct (e_fail _ _); [done|]. rewrite store_bind_run.
  set (s1 := set_sessions _ _). pose proof (unlink_sessions env MAX_ATTEMPTS (session_db_path sid) s1) as H1.
  destruct (unlink_attempts env MAX_ATTEMPTS (session_db_path sid) s1) as [[[]|] s2]; [|done]. rewrite store_bind_run.
  pose proof (unlink_sessions env MAX_ATTEMPTS (session_db_path sid +:+ "-wal") s2) as H2.
  destruct (unlink_attempts env MAX_ATTEMPTS (session_db_path sid +:+ "-wal") s2) as [[[]|] s3]; [|done].
  pose proof (unlink_sessions env MAX_ATTEMPTS (session_db_path sid +:+ "-shm") s3) as H3. intros E3. rewrite E3 in H3.
  cbn [snd] in *. rewrite H3, H2, H1. unfold s1. cbn. by case_decide.
Qed.

Lemma delete_sessions_ok env sids s s' :
  for_each sids (delete_session env) s = (Ok tt, s') → ∀ x, x ∈ sids → sessions s' !! x = None.
Proof.
  enough (∀ x, (x ∈ sids ∨ sessions s !! x = None) → for_each sids (delete_session env) s = (Ok tt, s') → sessions s' !! x = None)
    by naive_solver.
  intros x. revert s. induction sids as [|y sids IH]; intros s Hx; cbn.
  - intros [= <-]. destruct Hx as [Hx|]; [by apply elem_of_nil in Hx|done].
  - rewrite store_bind_run. destruct (delete_session env y s) as [[[]|] s1] eqn:Ed; [|done]. apply IH.
    apply delete_session_ok in Ed. destruct (decide (x = y)) as [->|Hne]; [right; by rewrite Ed, lookup_delete_eq|].
    destruct Hx as [[->|?]%elem_of_cons|Hx]; [done|by left|right]. by rewrite Ed, lookup_delete_ne.
Qed.

(** The sids a prune selects. *)
Definition prune_sids (cutoff : Z) (s : Store) : list string :=
  fst <$> filter (λ p : string * SessionMeta, state p.2 ≠ "running" ∧ (updated_at p.2 < cutoff)%Z) (scan (sessions s)).

Lemma elem_of_prune_sids cutoff s x : x ∈ prune_sids cutoff s ↔ ∃ m, sessions s !! x = Some m ∧ old cutoff m.
Proof.
  unfold prune_sids. rewrite list_elem_of_fmap. split.
  - intros ([y m] & -> & [Ho Hin]%list_elem_of_filter). exists m. split; [by apply scan_lookup|done].
  - intros (m & Hm & Ho). exists (x, m). split; [done|]. apply list_elem_of_filter. split; [done|]. by apply scan_lookup.
Qed.

Lemma prune_run env age s : (0 < age)%Z →
  let s1 := set_ticks (S (ticks s)) s in let sids := prune_sids (e_now env - age) s in
  prune_old_sessions env age s =
    if e_fail env (ticks s) then (Err Sqlite, s1)
    else match for_each sids (delete_session env) s1 with (Ok _, s') => (Ok (length sids), s') | (Err e, s') => (Err e, s') end.
Proof.
  intros Ha s1 sids. unfold prune_old_sessions. rewrite decide_False by lia. rewrite store_bind_run, query_run.
  cbn [ticks set_ticks sessions]. rewrite Nat.sub_succ, Nat.sub_0_r. destruct (e_fail _ _); [done|].
  fold s1. change (fst <$> filter _ (scan (sessions s))) with sids. rewrite store_bind_run. by destruct (for_each sids _ s1) as [[[]|] s'].
Qed.

Lemma prune_pruned env age s : (0 < age)%Z → pruned (e_now env - age) s (prune_old_sessions env age s).2.
Proof.
  intros Ha. rewrite prune_run by done. cbv zeta.
  assert (pruned (e_now env - age) s (set_ticks (S (ticks s)) s)) as H0 by (split_and!; try done; intros x; by left).
  destruct (e_fail _ _); [done|]. set (sids := prune_sids _ s).
  assert (keeps (pruned (e_now env - age) s) (for_each sids (delete_session env))) as Hk.
  { apply keeps_for_each. intros x Hx. apply elem_of_prune_sids in Hx as (m & Hm & Ho). by eapply keeps_pruned_delete. }
  specialize (Hk _ H0). by destruct (for_each sids _ _) as [[[]|] s'].
Qed.

(** Pruning is safe and complete.  Whatever fails on the way, it removes no
    session that runs or was updated since the cutoff, and touches no such
    session's file and no other table; an age that is not positive removes nothing;
    and when it reports success every old stopped session is gone, and the number
    it reports is theirs. *)
Theorem prune_safe env age s :
  let cutoff := (e_now env - age)%Z in
  let '(r, s') := prune_old_sessions env age s in
  sessions s' ⊆ sessions s ∧
  (∀ x m, sessions s !! x = Some m → (age ≤ 0)%Z ∨ ¬ old cutoff m →
     sessions s' !! x = Some m ∧ dir s' !! session_db_path x = dir s !! session_db_path x) ∧
  pairings s' = pairings s ∧ confirmations s' = confirmations s ∧ push_tokens s' = push_tokens s ∧
  (∀ n, r = Ok n → (0 < age)%Z →
     (∀ x m, sessions s' !! x = Some m → ¬ old cutoff m) ∧ n = size (filter (λ p, old cutoff p.2) (sessions s))).
Proof.
  cbv zeta. destruct (decide (age ≤ 0)%Z) as [Ha|Ha].
  { unfold prune_old_sessions. rewrite decide_True by done. cbn. split_and!; try done; intros; lia. }
  assert (0 < age)%Z as Hp by lia. set (cutoff := (e_now env - age)%Z).
  pose proof (prune_pruned env age s Hp) as H. fold cutoff in H. pose proof (prune_run env age s Hp) as Er. cbv zeta in Er.
  destruct (prune_old_sessions env age s) as [r s']. destruct H as (H1 & H2 & H3 & H4 & H5). cbn [snd] in *. split_and!; try done.
  - intros x m Hm [?|Hn]; [lia|]. destruct (H1 x) as [[E1 E2]|(m' & Hr & Ho)]; [by rewrite E1|congruence].
  - intros n -> _. destruct (e_fail _ _); [done|]. fold cutoff in Er. set (sids := prune_sids cutoff s) in *.
    destruct (for_each sids _ _) as [[[]|] s2] eqn:Ef; [|done]. injection Er as -> ->. split.
    + intros x m Hm Ho. assert (sessions s !! x = Some m) as Hm0 by (by eapply lookup_weaken).
      rewrite (delete_sessions_ok env sids _ _ Ef x) in Hm; [done|]. apply elem_of_prune_sids. by exists m.
    + unfold sids, prune_sids. rewrite length_fmap. exact (filter_size_scan (old cutoff) (sessions s)).
Qed.

(** Unpairing is atomic.  Either the pairing goes with every push token and
    confirmation of its daemon and nothing else, or a statement failed and every
    table is as it was. *)
Theorem delete_pairing_atomic env d s :
  let '(r, s') := delete_pairing env d s in
  sessions s' = sessions s ∧ dir s' = dir s ∧ session_dbs s' = session_dbs s ∧
  match r with
  | Ok _ =>
      pairings s' = delete d (pairings s) ∧
      (∀ f u, push_tokens s' !! f = Some u ↔ push_tokens s !! f = Some u ∧ u_daemon_id u ≠ SText d) ∧
      (∀ k c, confirmations s' !! k = Some c ↔ confirmations s !! k = Some c ∧ k.1 ≠ d)
  | Err _ => pairings s' = pairings s ∧ push_tokens s' = push_tokens s ∧ confirmations s' = confirmations s
  end.
Proof.
  unfold delete_pairing, delete_pairing_rows. rewrite store_bind_run, execute_run. cbv zeta. destruct (e_fail _ _); [done|].
  rewrite store_bind_run, execute_run. cbv zeta. destruct (e_fail _ _); [done|].
  rewrite store_bind_run, execute_run. cbv zeta. destruct (e_fail _ _); [done|].
  rewrite store_bind_run, execute_run. cbv zeta. destruct (e_fail _ _); [done|].
  rewrite execute_run. cbv zeta. destruct (e_fail _ _); [done|]. cbn. split_and!; try done.
  - intros f u. by rewrite map_lookup_filter_Some.
  - intros k c. by rewrite map_lookup_filter_Some.
Qed.
End claims.

Module Demo.
#[local] Instance by_dec {A} (key : A → Z) : RelDecision (λ a b, (key a ≤ key b)%Z).
Proof. intros a b. apply _. Defined.

(** An engine that sorts by insertion and scans in the map's order. *)
Fixpoint insert_by {A} (key : A → Z) (x : A) (l : list A) : list A :=
  match l with [] => [x] | y :: l' => if decide (key x ≤ key y)%Z then x :: l else y :: insert_by key x l' end.
Definition sort_by {A} (key : A → Z) (l : list A) : list A := foldr (insert_by key) [] l.

Lemma insert_by_perm {A} (key : A → Z) x l : insert_by key x l ≡ₚ x :: l.
Proof. induction l as [|y l IH]; [done|]. cbn. case_decide; [done|]. rewrite IH. apply perm_swap. Qed.

Lemma sort_by_perm {A} (key : A → Z) l : sort_by key l ≡ₚ l.
Proof. induction l as [|x l IH]; [done|]. cbn. fold (sort_by key l). by rewrite insert_by_perm, IH. Qed.

Lemma sort_by_sorted {A} (key : A → Z) l : StronglySorted (λ a b, key a ≤ key b)%Z (sort_by key l).
Proof.
  induction l as [|x l IH]; [constructor|]. cbn. fold (sort_by key l). revert IH. generalize (sort_by key l). clear l.
  intros l. induction l as [|y l IHl]; intros Hs; cbn; [by repeat constructor|].
  apply StronglySorted_inv in Hs as [Hs Hf]. case_decide as Hd.
  - constructor; [by constructor|]. constructor; [done|]. eapply Forall_impl; [exact Hf|]. cbn. lia.
  - constructor; [by apply IHl|]. rewrite insert_by_perm. constructor; [lia|done].
Qed.

#[local] Instance engine : SqlEngine := {|
  order_by A := sort_by; order_by_perm A := sort_by_perm; order_by_sorted A := sort_by_sorted;
  scan A := map_to_list; scan_perm A m := reflexivity _ |}.

Definition env : Env := mkEnv 5000 (λ _, false) (λ _, Removed).
Definition key (c : ascii) : bytes := replicate 32 c.
Definition pairing : SavePairingInput :=
  mkSave "daemon-a" "wss://r" "tok" "proof" (key "p"%char) (key "s"%char) (key "x"%char) (Some (Set_ "Mac")) "" "host".
Definition before : SavePairingInput :=
  mkSave "daemon-a" "wss://old" "tok0" "proof0" (key "q"%char) (key "r"%char) (key "y"%char) None "uuid" "".
Definition s0 : Store := (save_pairing env before (store_new 32)).2.

Lemma pairing_persisted_witness :
  ∃ l, (load_pairings env (save_pairing env pairing s0).2).1 = Ok l ∧
  mkStored "daemon-a" "wss://r" "tok" "proof" (key "p"%char) (key "s"%char) (key "x"%char) (Set_ "Mac") "uuid" "host" ∈ l.
Proof.
  assert (saveable pairing) as Hs by (unfold saveable; cbn; split_and!; try done; by intros l [= <-]).
  assert (readable s0) as Hr.
  { intros d r H%elem_of_map_to_list. revert H. change (map_to_list (pairings s0)) with
      [("daemon-a", mkPairingRow (SText "wss://old") (SText "tok0") (SText "proof0") (SBlob (key "q"%char))
         (SBlob (key "r"%char)) (SBlob (key "y"%char)) 5000 SNull (SText "uuid") SNull)].
    intros [= -> ->]%list_elem_of_singleton. by eexists. }
  pose proof (pairing_persisted env env pairing s0 Hs Hr eq_refl eq_refl) as H.
  destruct (save_pairing env pairing s0) as [r s1] eqn:E. destruct H as (_ & (l & Hl & _ & Hin) & _).
  exists l. split; [exact Hl|]. apply Hin. left. vm_compute. reflexivity.
Defined.

(** One column of another type, and no pairing at all is loaded. *)
Example corrupt_row_hides_all :
  let bad := mkPairingRow (SText "wss://r") (SText "t") (SText "p") (SInteger 7) (SBlob (key "s"%char)) (SBlob (key "x"%char)) 1 SNull SNull SNull in
  (load_pairings env (set_pairings (<["daemon-b" := bad]> (pairings s0)) s0)).1 = Err Sqlite ∧
  ∃ l, (load_pairings env s0).1 = Ok l ∧ length l = 1.
Proof. split; [vm_compute; reflexivity|]. eexists. split; vm_compute; reflexivity. Qed.

(** Asking for a deleted session's log makes a file that no row owns. *)
Example lookup_creates_file :
  let s := (delete_session env "a" ((create_session env "a" "/" None None (store_new 32)).2)).2 in
  dir s = ∅ ∧ (get_session_db env "a" s).2.(dir) = {["a.sqlite" := FDb db_new]} ∧ (get_session_db env "a" s).2.(sessions) = ∅.
Proof. vm_compute. split_and!; reflexivity. Qed.
End Demo.
