(* ===== verification/Export.v ===== *)
(** * Export: a session as markdown.
    [tp-daemon/src/export_formatter.rs].  [serde_json]'s reader and printers are
    parameters; [esc], [bel], [csi1] and [st] name the control characters, and a back
    quote inside [bq] stands for itself (this file's literals hold no double quote). *)
From stdpp Require Import base list numbers strings.
From Stdlib Require Import Lia ZifyBool ZifyN NArith ZArith Ascii.
From Stdlib.Floats Require Import SpecFloat.
From S2P Require Import Prelude Bytes Text Chars Calendar Json.
From S2P Require Store.

Definition IO_MERGE_GAP_MS : Z := 2000.

Definition esc : string := String (ascii_of_N 27) "".
Definition bel : string := String (ascii_of_N 7) "".
Definition csi1 : string := String (ascii_of_N 194) (String (ascii_of_N 155) "").    (* U+009B *)
Definition st : string := String (ascii_of_N 194) (String (ascii_of_N 156) "").      (* U+009C *)
Definition newline : string := String (ascii_of_N 10) "".

(** ** [strip_ansi] *)

(** The code point of a one-byte character. *)
Definition ascii_of_char (c : string) : option N :=
  match c with String a EmptyString => if (N_of_ascii a <? 128)%N then Some (N_of_ascii a) else None | _ => None end.
Definition char_in (lo hi : N) (c : string) : bool :=
  match ascii_of_char c with Some v => (lo <=? v)%N && (v <=? hi)%N | None => false end.
Definition one_of (cs : string) (c : string) : bool :=
  match ascii_of_char c with Some v => str_contains (ascii_of_N v) cs | None => false end.

Definition is_digit_char : string → bool := char_in 48 57.
Definition is_intermediate : string → bool := one_of "][()#;?".
Definition is_param (c : string) : bool := is_digit_char c || one_of ";:" c.
Definition is_final (c : string) : bool :=
  is_digit_char c || char_in 65 80 c || char_in 82 84 c || one_of "Zc" c || char_in 102 110 c || char_in 113 117 c
  || one_of "y=><~" c.

Fixpoint drop_while (P : string → bool) (cs : list string) : list string :=
  match cs with [] => [] | c :: r => if P c then drop_while P r else cs end.

(** From after [ESC ]]: what is left after the first terminator. *)
Fixpoint osc_end (cs : list string) : option (list string) :=
  match cs with
  | [] => None
  | c :: r =>
      if String.eqb c bel then Some r
      else if String.eqb c esc && match r with d :: _ => String.eqb d "\" | [] => false end then Some (tail r)
      else if String.eqb c st then Some r
      else osc_end r
  end.

Definition osc (c : string) (r : list string) : option (list string) :=
  match r with
  | d :: r => if String.eqb c esc && String.eqb d "]" then osc_end r else None
  | [] => None
  end.

Definition csi (c : string) (r : list string) : option (list string) :=
  if String.eqb c esc || String.eqb c csi1 then
    let r := drop_while is_intermediate r in
    let r := match r with d :: _ => if is_digit_char d then drop_while is_param r else r | [] => r end in
    match r with f :: r => if is_final f then Some r else None | [] => None end
  else None.

(** The loop; every turn takes a character at least. *)
Fixpoint strip_loop (fuel : nat) (cs : list string) : list string :=
  match fuel with
  | O => []
  | S fuel =>
      match cs with
      | [] => []
      | c :: r =>
          match osc c r with
          | Some rest => strip_loop fuel rest
          | None => match csi c r with Some rest => strip_loop fuel rest | None => c :: strip_loop fuel r end
          end
      end
  end.

Definition strip_chars (cs : list string) : list string := strip_loop (S (length cs)) cs.

Definition introducer (c : string) : bool := String.eqb c esc || String.eqb c csi1.

Definition strip_ansi (input : string) : string :=
  let cs := chars input in
  if negb (existsb introducer cs) then input else of_chars (strip_chars cs).

(** ** Records *)

Definition json_block_display_name (name : string) : option string :=
  if String.eqb name "PermissionRequest" then Some "Permission Request"
  else if String.eqb name "Elicitation" then Some "Elicitation"
  else if String.eqb name "ElicitationResult" then Some "Elicitation Result"
  else if String.eqb name "SubagentStart" then Some "Subagent Start"
  else if String.eqb name "SubagentStop" then Some "Subagent Stop"
  else if String.eqb name "SessionStart" then Some "Session Start"
  else if String.eqb name "SessionEnd" then Some "Session End"
  else None.

Section export.
Context (from_str : string → option Value) (to_string to_string_pretty : Value → string).

Definition fence (lang body : string) : string := "```" +:+ lang +:+ newline +:+ body +:+ newline +:+ "```".

Definition json_block (heading : string) (data : Value) : string :=
  "### " +:+ heading +:+ newline +:+ newline +:+ fence "json" (to_string_pretty data).

Definition is_js_truthy (v : Value) : bool :=
  match v with
  | Null => false
  | Bool b => b
  | Num _ => match as_f64 v with Some f => negb (SFeqb f f64_zero) | None => true end
  | Str s => negb (String.eqb s "")
  | Array _ | Object _ => true
  end.

Definition json_display (v : Value) : string := match v with Str s => s | other => to_string other end.

(** [text.replace('\n', "\n> ")] *)
Fixpoint quote_lines (s : string) : string :=
  match s with
  | EmptyString => ""
  | String c r => if decide (c = ascii_of_N 10) then newline +:+ "> " +:+ quote_lines r else String c (quote_lines r)
  end.

Definition format_event_record (rec : Store.StoredRecord) : string :=
  let raw := from_utf8_lossy (Store.payload rec) in
  let plain := "### " +:+ default "Event" (Store.name rec) +:+ newline +:+ newline +:+ raw in
  match from_str raw with
  | None | Some Null => plain
  | Some data =>
      let name := Store.name rec in
      let named n := bool_decide (name = Some n) in
      if named "Stop" then
        match value_get data "last_assistant_message" with
        | Some v => if is_js_truthy v then "### Assistant Response" +:+ newline +:+ newline +:+ json_display v
                    else json_block "Assistant Response" data
        | None => json_block "Assistant Response" data
        end
      else if named "UserPromptSubmit" then
        match value_get data "prompt" with
        | Some v => if is_js_truthy v then "### User" +:+ newline +:+ newline +:+ "> " +:+ quote_lines (json_display v)
                    else json_block "User" data
        | None => json_block "User" data
        end
      else if named "PreToolUse" then
        json_block ("Tool Use: " +:+ default "unknown" (value_get data "tool_name" ≫= as_str))
          (default Null (value_get data "tool_input"))
      else if named "PostToolUse" then
        json_block ("Tool Result: " +:+ default "unknown" (value_get data "tool_name" ≫= as_str))
          (match value_get data "tool_result" with
           | Some v => if is_js_truthy v then v else default Null (value_get data "tool_input")
           | None => default Null (value_get data "tool_input")
           end)
      else
        json_block (match name ≫= json_block_display_name with Some d => d | None => default "Event" name end) data
  end.

Definition terminal_block (current : string) : string := fence "terminal" current.

(** The loop of [format_io_records]: the blocks, the block that grows, the last time. *)
Definition io_step (acc : list string * string * Z) (rec : Store.StoredRecord) : list string * string * Z :=
  let '(blocks, current, last_ts) := acc in
  let text := strip_ansi (from_utf8_lossy (Store.payload rec)) in
  if String.eqb (trim text) "" then acc
  else
    let '(blocks, current) :=
      if (0 <? last_ts)%Z && (IO_MERGE_GAP_MS <? Store.ts rec - last_ts)%Z && negb (String.eqb current "")
      then (blocks ++ [terminal_block current], "") else (blocks, current) in
    (blocks, current +:+ text, Store.ts rec).

Definition format_io_records (records : list Store.StoredRecord) : string :=
  let '(blocks, current, _) := foldl io_step ([], "", 0%Z) records in
  join (newline +:+ newline) (if String.eqb current "" then blocks else blocks ++ [terminal_block current]).

Definition format_meta_record (rec : Store.StoredRecord) : string :=
  let label := "Meta: " +:+ default "unknown" (Store.name rec) in
  let raw := from_utf8_lossy (Store.payload rec) in
  match from_str raw with
  | Some data => json_block label data
  | None => "### " +:+ label +:+ newline +:+ newline +:+ raw
  end.

(** ** The document *)

Record ExportSessionMeta := mkExportMeta { m_sid : string; m_cwd : string; m_state : string; m_created_at_ms : Z }.

Definition civil_from_days (z : Z) : Z * Z * Z :=
  let z := (z + 719468)%Z in
  let era := ((if decide (0 ≤ z)%Z then z else z - 146096) `quot` 146097)%Z in
  let doe := (z - era * 146097)%Z in
  let yoe := ((doe - doe `quot` 1460 + doe `quot` 36524 - doe `quot` 146096) `quot` 365)%Z in
  let y := (yoe + era * 400)%Z in
  let doy := (doe - (365 * yoe + yoe `quot` 4 - yoe `quot` 100))%Z in
  let mp := ((5 * doy + 2) `quot` 153)%Z in
  let d := (doy - (153 * mp + 2) `quot` 5 + 1)%Z in
  let m := if decide (mp < 10)%Z then (mp + 3)%Z else (mp - 9)%Z in
  let year := if decide (m ≤ 2)%Z then (y + 1)%Z else y in
  (year, m, d).

(** [{n:0w}] of a signed integer: the sign counts. *)
Definition pad_signed (w : nat) (n : Z) : string :=
  if decide (0 ≤ n)%Z then pad_zero w n else "-" +:+ pad_zero (w - 1) (- n).

Definition format_iso8601 (ms : Z) : string :=
  let millis := (ms mod 1000)%Z in
  let secs_total := (ms / 1000)%Z in
  let days := (secs_total / 86400)%Z in
  let secs_of_day := (secs_total mod 86400)%Z in
  let hour := (secs_of_day `quot` 3600)%Z in
  let minute := ((secs_of_day `rem` 3600) `quot` 60)%Z in
  let second := (secs_of_day `rem` 60)%Z in
  let '(year, month, day) := civil_from_days days in
  pad_signed 4 year +:+ "-" +:+ pad_zero 2 month +:+ "-" +:+ pad_zero 2 day +:+ "T" +:+ pad_zero 2 hour +:+ ":"
  +:+ pad_zero 2 minute +:+ ":" +:+ pad_zero 2 second +:+ "." +:+ pad_zero 3 millis +:+ "Z".

Fixpoint io_run (records : list Store.StoredRecord) : list Store.StoredRecord * list Store.StoredRecord :=
  match records with
  | [] => ([], [])
  | r :: rest => if String.eqb (Store.kind r) "io" then let '(ios, others) := io_run rest in (r :: ios, others) else ([], records)
  end.

(** The [while] loop over the records. *)
Fixpoint record_lines (fuel : nat) (records : list Store.StoredRecord) : list string :=
  match fuel with
  | O => []
  | S fuel =>
      match records with
      | [] => []
      | rec :: rest =>
          if String.eqb (Store.kind rec) "io" then
            let '(ios, others) := io_run records in
            let formatted := format_io_records ios in
            (if String.eqb formatted "" then [] else [formatted; ""]) ++ record_lines fuel others
          else if String.eqb (Store.kind rec) "event" then [format_event_record rec; ""] ++ record_lines fuel rest
          else if String.eqb (Store.kind rec) "meta" then [format_meta_record rec; ""] ++ record_lines fuel rest
          else record_lines fuel rest
      end
  end.

Definition format_markdown (meta : ExportSessionMeta) (records : list Store.StoredRecord) (truncated : bool) : string :=
  join newline
    (["# Session: " +:+ m_sid meta; "- CWD: " +:+ m_cwd meta; "- State: " +:+ m_state meta;
      "- Created: " +:+ format_iso8601 (m_created_at_ms meta); ""]
     ++ record_lines (length records) records
     ++ (if truncated then ["> **Note:** Export truncated at the configured record limit."; ""] else [])).
End export.

(** ** Stripping *)

Lemma drop_while_suffix P cs : drop_while P cs `suffix_of` cs.
Proof. induction cs as [|c cs IH]; [done|]. cbn. destruct (P c); [by apply suffix_cons_r|done]. Qed.

Lemma osc_end_suffix cs r : osc_end cs = Some r → r `suffix_of` cs.
Proof.
  revert r. induction cs as [|c cs IH]; intros r; cbn; [done|].
  destruct (String.eqb c bel); [intros [= <-]; by apply suffix_cons_r|].
  destruct (String.eqb c esc && _) eqn:E.
  { intros [= <-]. apply suffix_cons_r. destruct cs; cbn; [done|by apply suffix_cons_r]. }
  destruct (String.eqb c st); [intros [= <-]; by apply suffix_cons_r|]. intros H. by apply suffix_cons_r, IH.
Qed.

Lemma osc_suffix c r rest : osc c r = Some rest → rest `suffix_of` r.
Proof.
  unfold osc. destruct r as [|d r]; [done|]. destruct (_ && _); [|done]. intros H%osc_end_suffix. by apply suffix_cons_r.
Qed.

Lemma csi_suffix c r rest : csi c r = Some rest → rest `suffix_of` r.
Proof.
  unfold csi. destruct (_ || _); [|done]. set (r1 := drop_while is_intermediate r).
  assert (r1 `suffix_of` r) as H1 by apply drop_while_suffix.
  set (r2 := match r1 with d :: _ => if is_digit_char d then drop_while is_param r1 else r1 | [] => r1 end).
  assert (r2 `suffix_of` r1) as H2 by (unfold r2; destruct r1 as [|d r1']; [done|]; destruct (is_digit_char d); [apply drop_while_suffix|done]).
  destruct r2 as [|f r3] eqn:E; [done|]. destruct (is_final f); [|done]. intros [= <-].
  transitivity (f :: r3); [by apply suffix_cons_r|]. by transitivity r1.
Qed.

Lemma suffix_length {A} (l k : list A) : l `suffix_of` k → length l ≤ length k.
Proof. intros [x ->]. rewrite length_app. lia. Qed.

Lemma suffix_sublist {A} (l k : list A) : l `suffix_of` k → l `sublist_of` k.
Proof. intros [x ->]. by apply sublist_inserts_l. Qed.

Lemma sublist_Forall {A} (P : A → Prop) l k : l `sublist_of` k → Forall P k → Forall P l.
Proof. induction 1; rewrite ?Forall_cons; naive_solver. Qed.

Lemma strip_loop_sublist fuel cs : strip_loop fuel cs `sublist_of` cs.
Proof.
  revert cs. induction fuel as [|fuel IH]; intros cs; [apply sublist_nil_l|]. destruct cs as [|c r]; [done|]. cbn.
  destruct (osc c r) as [rest|] eqn:Eo; [|destruct (csi c r) as [rest|] eqn:Ec].
  - apply osc_suffix, suffix_sublist in Eo. apply sublist_cons. by transitivity rest.
  - apply csi_suffix, suffix_sublist in Ec. apply sublist_cons. by transitivity rest.
  - by apply sublist_skip.
Qed.

(** The fuel is enough: more changes nothing. *)
Lemma strip_loop_fuel n m cs : length cs < n → length cs < m → strip_loop n cs = strip_loop m cs.
Proof.
  revert m cs. induction n as [|n IH]; intros m cs Hn Hm; [lia|]. destruct m as [|m]; [lia|].
  destruct cs as [|c r]; [done|]. cbn in *. destruct (osc c r) as [rest|] eqn:Eo; [|destruct (csi c r) as [rest|] eqn:Ec].
  - apply osc_suffix, suffix_length in Eo. apply IH; lia.
  - apply csi_suffix, suffix_length in Ec. apply IH; lia.
  - f_equal. apply IH; lia.
Qed.

Definition plain (t : list string) : Prop := existsb introducer t = false.

Lemma not_introducer c r : introducer c = false → osc c r = None ∧ csi c r = None.
Proof.
  unfold introducer, osc, csi. intros H. rewrite H. apply orb_false_iff in H as [-> _]. by destruct r.
Qed.

Lemma strip_chars_cons c r : strip_chars (c :: r) =
  match osc c r with
  | Some rest => strip_chars rest
  | None => match csi c r with Some rest => strip_chars rest | None => c :: strip_chars r end
  end.
Proof.
  unfold strip_chars at 1. cbn [length]. transitivity (match osc c r with
    | Some rest => strip_loop (S (length r)) rest
    | None => match csi c r with Some rest => strip_loop (S (length r)) rest | None => c :: strip_loop (S (length r)) r end
    end); [done|].
  destruct (osc c r) as [rest|] eqn:Eo; [|destruct (csi c r) as [rest|] eqn:Ec]; [| |done].
  - apply osc_suffix, suffix_length in Eo. apply strip_loop_fuel; lia.
  - apply csi_suffix, suffix_length in Ec. apply strip_loop_fuel; lia.
Qed.

Lemma strip_chars_plain t rest : plain t → strip_chars (t ++ rest) = t ++ strip_chars rest.
Proof.
  unfold plain. induction t as [|c t IH]; [done|]. cbn [existsb]. intros [Hc Ht]%orb_false_iff. cbn [app].
  rewrite strip_chars_cons. destruct (not_introducer c (t ++ rest) Hc) as [-> ->]. f_equal. by apply IH.
Qed.

(** A graphic rendition: [ESC [], parameters, [m]. *)
Definition params_ok (ps : list string) : Prop :=
  match ps with [] => True | p :: _ => is_digit_char p = true ∧ forallb is_param ps = true end.
Definition sgr (ps : list string) : list string := [esc; "["] ++ ps ++ ["m"].

Lemma strip_chars_sgr ps rest : params_ok ps → strip_chars (sgr ps ++ rest) = strip_chars rest.
Proof.
  intros Hp. unfold sgr. cbn [app]. rewrite strip_chars_cons.
  replace (osc esc ("[" :: (ps ++ ["m"]) ++ rest)) with (@None (list string)) by reflexivity.
  assert (csi esc ("[" :: (ps ++ ["m"]) ++ rest) = Some rest) as ->.
  { unfold csi. replace (String.eqb esc esc || String.eqb esc csi1) with true by reflexivity. cbn [drop_while].
    replace (is_intermediate "[") with true by reflexivity.
    assert (∀ l, forallb is_param l = true → drop_while is_param ((l ++ ["m"]) ++ rest) = "m" :: rest) as Hd.
    { induction l as [|x l IHl]; [done|]. cbn. intros [-> H]%andb_true_iff. by apply IHl. }
    destruct ps as [|p ps]; [done|]. destruct Hp as [Hp1 Hp2].
    assert (is_intermediate p = false) as Hi.
    { unfold is_intermediate, one_of. unfold is_digit_char, char_in in Hp1. destruct (ascii_of_char p) as [v|]; [|done].
      assert (v ∈ (N.of_nat <$> seq 48 10)) as Hv.
      { apply list_elem_of_fmap. exists (N.to_nat v). rewrite elem_of_seq. lia. }
      clear Hp1. revert v Hv. apply Forall_forall. repeat (constructor; [reflexivity|]). constructor. }
    cbn [app drop_while]. rewrite Hi. cbn [app]. rewrite Hp1. change (p :: (ps ++ ["m"]) ++ rest) with (((p :: ps) ++ ["m"]) ++ rest).
    by rewrite Hd. }
  done.
Qed.

(** A system command: [ESC ]], a body without terminator, [BEL]. *)
Definition terminator (c : string) : bool := introducer c || String.eqb c bel || String.eqb c st.
Definition osc_link (body : list string) : list string := [esc; "]"] ++ body ++ [bel].

Lemma strip_chars_osc body rest : existsb terminator body = false → strip_chars (osc_link body ++ rest) = strip_chars rest.
Proof.
  intros Hb. unfold osc_link. cbn [app]. rewrite strip_chars_cons.
  assert (osc esc ("]" :: (body ++ [bel]) ++ rest) = Some rest) as ->; [|done].
  change (osc_end ((body ++ [bel]) ++ rest) = Some rest). revert Hb. induction body as [|c body IH]; [done|].
  cbn [existsb]. intros [Hc Hb]%orb_false_iff. unfold terminator, introducer in Hc.
  repeat (apply orb_false_iff in Hc as [Hc ?]). cbn. rewrite Hc. destruct (String.eqb c bel), (String.eqb c st); try done.
  by apply IH.
Qed.

(** A styled line: control sequences, with the text after each. *)
Inductive Sequence : Type := Sgr (ps : list string) | Osc (body : list string).
Definition sequence_ok (q : Sequence) : Prop :=
  match q with Sgr ps => params_ok ps | Osc body => existsb terminator body = false end.
Definition sequence_chars (q : Sequence) : list string := match q with Sgr ps => sgr ps | Osc body => osc_link body end.
Definition styled (segments : list (Sequence * list string)) : list string :=
  concat ((λ '(q, text), sequence_chars q ++ text) <$> segments).

Lemma strip_chars_styled segments : Forall (λ '(q, text), sequence_ok q ∧ plain text) segments →
  strip_chars (styled segments) = concat (segments.*2).
Proof.
  unfold styled. induction 1 as [|[q text] segments [Hq Ht] _ IH]; [done|]. rewrite !fmap_cons. cbn [concat].
  rewrite <-app_assoc. destruct q as [ps|body]; cbn [sequence_chars];
    [rewrite strip_chars_sgr by done|rewrite strip_chars_osc by done]; rewrite strip_chars_plain by done; by rewrite IH.
Qed.

(** [strip_ansi] on any text: the result is text and a subsequence of it, without
    characters of its own; text with no escape introducer comes back as it was; and of
    text styled with graphic renditions and hyperlinks exactly the styling goes. *)
Theorem strip_ansi_text s : is_str s →
  is_str (strip_ansi s) ∧ chars (strip_ansi s) `sublist_of` chars s
  ∧ (plain (chars s) → strip_ansi s = s)
  ∧ ∀ segments, chars s = styled segments → Forall (λ '(q, text), sequence_ok q ∧ plain text) segments →
      chars (strip_ansi s) = concat (segments.*2).
Proof.
  intros Hs. pose proof (chars_list s Hs) as Hcs.
  assert (chars (strip_ansi s) = strip_chars (chars s) ∧ is_str (strip_ansi s)) as [Hc Hv].
  { unfold strip_ansi. destruct (existsb introducer (chars s)) eqn:E; cbn [negb].
    - apply and_comm, of_chars_list. eapply sublist_Forall; [apply strip_loop_sublist|done].
    - split; [|done]. symmetry. by rewrite <-(app_nil_r (chars s)), strip_chars_plain. }
  rewrite Hc. repeat split; [done|apply strip_loop_sublist|..].
  - intros Hp. unfold strip_ansi. by rewrite Hp.
  - intros segments -> Hsegs. by apply strip_chars_styled.
Qed.

(** ** Dates *)

Lemma quot_div_signed a b : (0 < b)%Z → ((if decide (0 ≤ a)%Z then a else a - (b - 1)) `quot` b = a / b)%Z.
Proof.
  intros Hb. destruct (decide (0 ≤ a)%Z); [by apply Z.quot_div_nonneg|].
  replace (a - (b - 1))%Z with (- (b - 1 - a))%Z by lia. rewrite Z.quot_opp_l, Z.quot_div_nonneg by lia.
  apply (Z.div_unique _ _ _ (b - 1 - (b - 1 - a) mod b)); [left|]; pose proof (Z.mod_pos_bound (b - 1 - a) b Hb); [lia|].
  pose proof (Z.div_mod (b - 1 - a) b). lia.
Qed.

Lemma civil_of_days_eq days : civil_from_days days = civil_of_days days.
Proof. rewrite <-era_formula_civil. unfold civil_from_days. by rewrite (quot_div_signed _ 146097) by lia. Qed.

(** The date of an export is the civil date: the arithmetic of [civil_from_days]
    agrees, for every day after 1970-01-01 and before it, with counting days one by one
    through months and leap years. *)
Theorem export_dates (n : nat) :
  civil_from_days (Z.of_nat n) = date_after n ∧ Nat.iter n next_day (civil_from_days (- Z.of_nat n)) = (1970, 1, 1)%Z.
Proof. rewrite !civil_of_days_eq. split; [apply civil_after|apply civil_before]. Qed.

Module Demo.
Definition c (s : string) : list string := chars s.

(** A hyperlink, then bold red text, then the reset: the text is left. *)
Definition line : string :=
  esc +:+ "]8;;https://x.dev" +:+ bel +:+ "see " +:+ esc +:+ "[1;31m" +:+ "빌드 ok" +:+ esc +:+ "[m" +:+ "!".
Definition segments : list (Sequence * list string) :=
  [(Osc (c "8;;https://x.dev"), c "see "); (Sgr (c "1;31"), c "빌드 ok"); (Sgr [], c "!")].

Lemma strip_ansi_text_witness :
  is_str line ∧ chars (strip_ansi line) = c "see 빌드 ok!" ∧ strip_ansi "한글 plain" = "한글 plain".
Proof.
  assert (is_str line) as Hl by (vm_compute; reflexivity).
  assert (is_str "한글 plain") as Hp by (vm_compute; reflexivity).
  split; [done|]. destruct (strip_ansi_text line Hl) as (_ & _ & _ & Hs).
  destruct (strip_ansi_text "한글 plain" Hp) as (_ & _ & Hn & _).
  split; [|apply Hn; reflexivity]. rewrite (Hs segments); [reflexivity|vm_compute; reflexivity|].
  repeat (constructor; [split; [first [done | split; reflexivity | reflexivity]|reflexivity]|]). constructor.
Defined.

(** A run of digits is taken whole, and a digit that could have ended the sequence
    with it: [ESC 7] (save cursor) before a character that ends nothing stays, and before
    one that does takes that character along. *)
Example digit_is_final :
  strip_ansi (esc +:+ "7 text") = esc +:+ "7 text" ∧ strip_ansi (esc +:+ "7here") = "ere" ∧ strip_ansi (esc +:+ "8") = esc +:+ "8".
Proof. vm_compute. repeat split. Qed.

Example date : format_iso8601 (-1) = "1969-12-31T23:59:59.999Z" ∧ format_iso8601 1709208000000 = "2024-02-29T12:00:00.000Z".
Proof. vm_compute. split; reflexivity. Qed.
End Demo.
