(* ===== verification/DaemonClient.v ===== *)
(** * DaemonClient: the daemon's side of the relay connection.
    [tp-daemon/src/transport/relay_client.rs]: the state of a [RelayClient] and
    everything its read loop and its owner make it do, one definition per
    method, each a turn of a state monad.  When those turns may happen (sockets,
    timers, reconnects) is [Reconnect]. *)
From stdpp Require Import base list numbers strings gmap fin_maps.
From Stdlib Require Import Lia NArith Ascii.
From Stdlib.Floats Require Import SpecFloat.
From S2P Require Import Prelude Bytes Text Json Messages Label Codec Crypto.

(** ** Constants and pure policy *)

Definition RECONNECT_BASE_MS : N := 1000.
Definition RECONNECT_MAX_MS : N := 30000.
Definition MAX_RECONNECT_ATTEMPT : N := 5.
Definition PEERLESS_RECONNECT_THRESHOLD : N := 3.
Definition PEERLESS_RECONNECT_MS : N := 30 * 60000.
Definition RELAY_CHANNEL_CONTROL : string := "__control__".
Definition CONTROL_UNPAIR : string := "control.unpair".
Definition CONTROL_RENAME : string := "control.rename".
Definition WS_PROTOCOL_VERSION : N := 3.

Record ReconnectPlan := mkPlan { delay_ms : N; next_attempt : N }.

Definition u64_modulus : N := 2 ^ 64.
Definition u32_modulus : N := 2 ^ 32.

(** [2u64.checked_pow(attempt)] and [checked_mul]. *)
Definition checked_pow2 (attempt : N) : option N :=
  if decide (attempt < 64)%N then Some (2 ^ attempt)%N else None.
Definition checked_mul (a b : N) : option N :=
  if decide (a * b < u64_modulus)%N then Some (a * b)%N else None.

Definition compute_reconnect_plan (attempt peerless_reconnects : N) : ReconnectPlan :=
  if decide (PEERLESS_RECONNECT_THRESHOLD ≤ peerless_reconnects)%N then mkPlan PEERLESS_RECONNECT_MS attempt
  else
    let scaled := default RECONNECT_MAX_MS (checked_pow2 attempt ≫= λ p, checked_mul p RECONNECT_BASE_MS) in
    mkPlan (N.min scaled RECONNECT_MAX_MS) (N.min ((attempt + 1) mod u32_modulus) MAX_RECONNECT_ATTEMPT).

Definition next_peerless_reconnects (current : N) (had_peer : bool) : N :=
  if had_peer then 0%N else ((current + 1) mod u32_modulus)%N.

(** [parse_uuid_16]: the local twin of [tp_core::pairing]'s. *)
Definition hex_value (c : ascii) : option N :=
  let v := N_of_ascii c in
  if decide (48 ≤ v ∧ v ≤ 57)%N then Some (v - 48)%N
  else if decide (97 ≤ v ∧ v ≤ 102)%N then Some (v - 87)%N
  else if decide (65 ≤ v ∧ v ≤ 70)%N then Some (v - 55)%N else None.

Fixpoint hex_pairs (s : bytes) : option bytes :=
  match s with
  | [] => Some []
  | [_] => None
  | a :: b :: s =>
      let?o x := hex_value a in let?o y := hex_value b in
      let?o r := hex_pairs s in Some (as_u8 (16 * x + y) :: r)
  end.

Definition parse_uuid_16 (s : string) : option bytes :=
  let hex_only := remove_char "-"%char s in
  if decide (str_len hex_only = 32) then hex_pairs (as_bytes hex_only) else None.

(** ** Data *)

Record FrontendPeer := mkPeer {
  p_public_key : bytes;
  session_keys : SessionKeys;
  protocol_version : f64;
  pct : option bytes;
  pct_b64 : option string
}.

Record RelayClientConfig := mkConfig {
  relay_url : string;
  c_daemon_id : string;
  c_token : string;
  registration_proof : string;
  key_pair : KxKeyPair;
  pairing_secret : bytes;
  c_label : option Label;
  pairing_id : string;
  hostname : string
}.

Inductive InputKind := Chat | Term.

(** A call of one of the owner's callbacks ([RelayClientEvents]; an unset one
    is a call to a function that does nothing). *)
Inductive Event :=
| OnInput (kind : InputKind) (sid data frontend_id : string)
| OnControlMessage (msg : Value) (frontend_id : string)
| OnConnected
| OnDisconnected
| OnRelayThrottled (message : option string)
| OnPresence (online : bool) (sessions : list string)
| OnFrontendJoined (frontend_id : string)
| OnPeerConfirmed (frontend_id : string) (pct frontend_pk : bytes)
| OnPushTokenSealed (frontend_id sealed : string) (platform : Platform)
| OnPushUnsealFailed (frontend_id : string)
| OnPushTokenDead (frontend_id : string)
| OnUnpair (frontend_id : string) (reason : UnpairReason)
| OnRename (frontend_id : string) (label : Label).

(** What a turn does to the outside: a callback, or a message handed to the
    outbound channel of the socket of some generation. *)
Inductive Effect :=
| Call (e : Event)
| Wire (socket : N) (msg : RelayClientMessage).

(** [ConnState]; a live [ws_tx] is named by the generation it was opened in. *)
Record ConnState := mkConn {
  ws_tx : option N;
  authenticated : bool;
  disposed : bool;
  reconnect_attempt : N;
  peerless_reconnects : N;
  had_peer_this_connection : bool;
  resume_token : option string;
  resume_expires_at : f64;
  resuming : bool;
  subscribed_sessions : gset string;
  generation : N
}.

Definition ConnState_new : ConnState := mkConn None false false 0 0 false None f64_zero false ∅ 0.

(** The client: its three locks' contents, the effects so far, and how many of
    the environment's answers have been used. *)
Record Client := mkClient {
  state : ConnState;
  peers : gmap string FrontendPeer;
  kx_key : option bytes;
  trace : list Effect;
  used : nat
}.

Definition Client_new : Client := mkClient ConnState_new ∅ None [] 0.

(** The clock, the outcomes of [try_send], the CSPRNG. *)
Record Env := mkEnv { e_now : N; e_try_send : nat → bool; e_nonce : nat → bytes }.

(** ** The monad of turns *)

Definition M (A : Type) : Type := Client → A * Client.
#[export] Instance M_ret : MRet M := λ A a c, (a, c).
#[export] Instance M_bind : MBind M := λ A B k m c, let '(a, c) := m c in k a c.

Definition gets {A} (f : Client → A) : M A := λ c, (f c, c).
Definition modify (f : Client → Client) : M unit := λ c, (tt, f c).
Definition when (b : bool) (m : M unit) : M unit := if b then m else mret tt.
Definition run {A} (m : M A) (c : Client) : Client := (m c).2.

Definition call (e : Event) : M unit :=
  modify (λ c, mkClient (state c) (peers c) (kx_key c) (trace c ++ [Call e]) (used c)).
Definition with_state (f : ConnState → ConnState) : M unit :=
  modify (λ c, mkClient (f (state c)) (peers c) (kx_key c) (trace c) (used c)).
Definition set_peers (f : gmap string FrontendPeer → gmap string FrontendPeer) : M unit :=
  modify (λ c, mkClient (state c) (f (peers c)) (kx_key c) (trace c) (used c)).
Definition set_kx_key (k : bytes) : M unit :=
  modify (λ c, mkClient (state c) (peers c) (Some k) (trace c) (used c)).
Definition tick : M nat := λ c, (used c, mkClient (state c) (peers c) (kx_key c) (trace c) (S (used c))).

(** The equations of the monad. *)
Lemma client_bind_run {A B} (m : M A) (k : A → M B) c : (m ≫= k) c = k (m c).1 (m c).2.
Proof. unfold mbind, M_bind. by destruct (m c). Qed.
Lemma ret_run {A} (a : A) c : (mret a : M A) c = (a, c).
Proof. done. Qed.
Lemma gets_run {A} (f : Client → A) c : gets f c = (f c, c).
Proof. done. Qed.
Lemma modify_run f c : modify f c = (tt, f c).
Proof. done. Qed.
Create Rewrite HintDb turn.
#[export] Hint Rewrite @client_bind_run @ret_run @gets_run modify_run : turn.

(** Run a turn as far as its equations go. *)
Ltac turn := repeat (progress (autorewrite with turn; cbn [fst snd])).

Fixpoint for_each {A} (l : list A) (f : A → M unit) : M unit :=
  match l with [] => mret tt | a :: l => f a ≫= λ _, for_each l f end.

(** Field updates of [ConnState]. *)
Definition set_ws_tx w s := mkConn w (authenticated s) (disposed s) (reconnect_attempt s) (peerless_reconnects s)
  (had_peer_this_connection s) (resume_token s) (resume_expires_at s) (resuming s) (subscribed_sessions s) (generation s).
Definition set_authenticated b s := mkConn (ws_tx s) b (disposed s) (reconnect_attempt s) (peerless_reconnects s)
  (had_peer_this_connection s) (resume_token s) (resume_expires_at s) (resuming s) (subscribed_sessions s) (generation s).
Definition set_disposed s := mkConn (ws_tx s) (authenticated s) true (reconnect_attempt s) (peerless_reconnects s)
  (had_peer_this_connection s) (resume_token s) (resume_expires_at s) (resuming s) (subscribed_sessions s) (generation s).
Definition set_attempt a s := mkConn (ws_tx s) (authenticated s) (disposed s) a (peerless_reconnects s)
  (had_peer_this_connection s) (resume_token s) (resume_expires_at s) (resuming s) (subscribed_sessions s) (generation s).
Definition set_peerless p s := mkConn (ws_tx s) (authenticated s) (disposed s) (reconnect_attempt s) p
  (had_peer_this_connection s) (resume_token s) (resume_expires_at s) (resuming s) (subscribed_sessions s) (generation s).
Definition set_had_peer b s := mkConn (ws_tx s) (authenticated s) (disposed s) (reconnect_attempt s) (peerless_reconnects s)
  b (resume_token s) (resume_expires_at s) (resuming s) (subscribed_sessions s) (generation s).
Definition set_resume t e s := mkConn (ws_tx s) (authenticated s) (disposed s) (reconnect_attempt s) (peerless_reconnects s)
  (had_peer_this_connection s) t e (resuming s) (subscribed_sessions s) (generation s).
Definition set_resuming b s := mkConn (ws_tx s) (authenticated s) (disposed s) (reconnect_attempt s) (peerless_reconnects s)
  (had_peer_this_connection s) (resume_token s) (resume_expires_at s) b (subscribed_sessions s) (generation s).
Definition set_subs u s := mkConn (ws_tx s) (authenticated s) (disposed s) (reconnect_attempt s) (peerless_reconnects s)
  (had_peer_this_connection s) (resume_token s) (resume_expires_at s) (resuming s) u (generation s).
(** The generation is a [u64] bumped twice per connection attempt; it would wrap after 2^63
    attempts, which is not modelled. *)
Definition bump_generation s := mkConn (ws_tx s) (authenticated s) (disposed s) (reconnect_attempt s) (peerless_reconnects s)
  (had_peer_this_connection s) (resume_token s) (resume_expires_at s) (resuming s) (subscribed_sessions s) (generation s + 1)%N.

(** ** The methods *)

Section client.
Context {C : CryptoCrates} {HIS : HashIter string}.
(** [serde_json]'s text of a value and its reader. *)
Context (to_string : Value → string) (from_slice : bytes → option Value).
Context (cfg : RelayClientConfig) (env : Env).

Definition now_ms : f64 := u64_as_f64 (e_now env).

(** [send]: true exactly when the frame reached a live outbound channel. *)
Definition send (msg : RelayClientMessage) : M bool :=
  tx ← gets (λ c, ws_tx (state c));
  match tx with
  | None => mret false
  | Some socket =>
      k ← tick;
      if e_try_send env k then
        modify (λ c, mkClient (state c) (peers c) (kx_key c) (trace c ++ [Wire socket msg]) (used c));; mret true
      else mret false
  end.

Definition seal_random_nonce (plaintext key : bytes) : M (result string TpError) :=
  k ← tick; mret (seal plaintext key (e_nonce env k)).

Definition close_socket : M unit := with_state (set_ws_tx None).

(** [cleanup] but for the abort of the old tasks.  The abort only takes turns away: here
    a task of an older generation may go on until it looks at the generation, so what
    holds of every interleaving holds of the aborted ones too. *)
Definition cleanup : M unit := with_state (λ s, bump_generation (set_ws_tx None (set_had_peer false s))).

(** [ws.onopen]: resume while the cached token is fresh, else register. *)
Definition on_open : M unit :=
  token ← gets (λ c, resume_token (state c));
  expires ← gets (λ c, resume_expires_at (state c));
  match token with
  | Some token =>
      if SFltb now_ms expires then
        with_state (set_resuming true);; _ ← send (AuthResume token (u64_as_f64 2)); mret tt
      else _ ← send (Register (c_daemon_id cfg) (registration_proof cfg) (c_token cfg) (u64_as_f64 2)); mret tt
  | None => _ ← send (Register (c_daemon_id cfg) (registration_proof cfg) (c_token cfg) (u64_as_f64 2)); mret tt
  end.

(** The object the daemon seals for its frontends (keys in map order). *)
Definition kx_payload : Value :=
  Object [("label", from_option Label_value (Object [("set", Bool false)]) (c_label cfg));
          ("pk", Str (b64std_encode (public_key (key_pair cfg))));
          ("role", Str "daemon");
          ("v", u64_value WS_PROTOCOL_VERSION)].

Definition broadcast_daemon_public_key : M unit :=
  key ← gets kx_key;
  match key with
  | None => mret tt
  | Some key =>
      sealed ← seal_random_nonce (as_bytes (to_string kx_payload)) key;
      match sealed with
      | Ok ct => _ ← send (KeyExchange ct Daemon); mret tt
      | Err _ => mret tt
      end
  end.

Definition handle_auth_ok (ok : AuthOkP) : M unit :=
  with_state (λ s,
    set_resuming false
      (match ao_resume_token ok, ao_resume_expires_at ok with
       | Some t, Some e => set_resume (Some t) e (set_authenticated true s)
       | _, _ => set_authenticated true s
       end));;
  let resumed := default false (ao_resumed ok) in
  call OnConnected;;
  subs ← gets (λ c, set_iter (subscribed_sessions (state c)));
  for_each subs (λ sid, _ ← send (Subscribe sid None); mret tt);;
  peer_count ← gets (λ c, size (peers c));
  when (negb (resumed && bool_decide (0 < peer_count))) broadcast_daemon_public_key.

Definition handle_relay_err (e : RelayErrP) : M unit :=
  if String.eqb (e_e e) "PUSH_UNSEAL_FAILED" then
    match e_frontend_id e with Some fid => call (OnPushUnsealFailed fid) | None => mret tt end
  else if String.eqb (e_e e) "PUSH_TOKEN_DEAD" then
    match e_frontend_id e with Some fid => call (OnPushTokenDead fid) | None => mret tt end
  else if String.eqb (e_e e) "RATE_LIMITED" then call (OnRelayThrottled (e_m e))
  else mret tt.

(** The public key and frontend id a key-exchange plaintext names. *)
Definition kx_identity (data : Value) : option (bytes * string) :=
  let?o pk_b64 := value_get data "pk" ≫= as_str in
  let?o frontend_id := value_get data "frontendId" ≫= as_str in
  if bool_decide (pk_b64 = "") || bool_decide (frontend_id = "") then None
  else
    match b64std_decode pk_b64 with
    | Ok pk => if decide (length pk = 32) then Some (pk, frontend_id) else None
    | Err _ => None
    end.

Definition kx_version (data : Value) : f64 :=
  match value_get data "v" ≫= as_f64 with
  | Some v => if f64_is_finite v then v else u64_as_f64 1
  | None => u64_as_f64 1
  end.

(** The confirmation tag, for pairings that have an id. *)
Definition peer_tag (fpk : bytes) (keys : SessionKeys) : option bytes :=
  if decide (pairing_id cfg = "") then None
  else
    (λ pid, derive_pairing_confirmation_tag pid (c_daemon_id cfg) (hostname cfg)
              (public_key (key_pair cfg)) fpk (tx keys) (rx keys)) <$> parse_uuid_16 (pairing_id cfg).

Definition new_peer (fpk : bytes) (version : f64) : FrontendPeer :=
  let keys := kx_server_session_keys (public_key (key_pair cfg)) (secret_key (key_pair cfg)) fpk in
  let tag := peer_tag fpk keys in
  mkPeer fpk keys version tag (b64std_encode <$> tag).

Definition handle_kx_frame (frame : KeyExchangeFrameP) : M unit :=
  if bool_decide (kx_from frame ≠ Frontend) then mret tt
  else
    key ← gets kx_key;
    match key with
    | None => mret tt
    | Some key =>
        match open (kx_ct frame) key with
        | Err _ => mret tt
        | Ok plaintext =>
            match from_slice plaintext with
            | None => mret tt
            | Some data =>
                match kx_identity data with
                | None => mret tt
                | Some (fpk, frontend_id) =>
                    let peer := new_peer fpk (kx_version data) in
                    set_peers (<[frontend_id := peer]>);;
                    with_state (λ s, set_had_peer true (set_peerless 0 s));;
                    broadcast_daemon_public_key;;
                    match pct peer with
                    | Some tag => call (OnPeerConfirmed frontend_id tag fpk)
                    | None => mret tt
                    end;;
                    call (OnFrontendJoined frontend_id)
                end
            end
        end
    end.

(** What a decrypted frame asks for, if anything. *)
Definition dispatch_event (sid : string) (msg : Value) (frontend_id : string) : option Event :=
  let t := default "" (value_get msg "t" ≫= as_str) in
  if String.eqb sid RELAY_CHANNEL_CONTROL && (String.eqb t CONTROL_UNPAIR || String.eqb t CONTROL_RENAME) then
    match parse_control_message msg with
    | None => None
    | Some (Unpair _ fid reason _) => Some (OnUnpair fid reason)
    | Some (Rename _ fid label _) => Some (OnRename fid label)
    end
  else if String.eqb t "in.chat" || String.eqb t "in.term" then
    let?o sid' := value_get msg "sid" ≫= as_str in
    let?o d := value_get msg "d" ≫= as_str in
    Some (OnInput (if String.eqb t "in.chat" then Chat else Term) sid' d frontend_id)
  else Some (OnControlMessage msg frontend_id).

(** [decrypt_and_dispatch]: false when the frame is not this peer's. *)
Definition decrypt_and_dispatch (frame : Messages.Frame) (frontend_id : string) (rx_key : bytes) : M bool :=
  match open (f_ct frame) rx_key with
  | Err _ => mret false
  | Ok plaintext =>
      match from_slice plaintext with
      | None => mret false
      | Some msg =>
          match dispatch_event (f_sid frame) msg frontend_id with
          | Some e => call e
          | None => mret tt
          end;; mret true
      end
  end.

(** The fallback: each peer in turn, until one can read the frame. *)
Fixpoint try_peers (frame : Messages.Frame) (candidates : list (string * bytes)) : M unit :=
  match candidates with
  | [] => mret tt
  | (fid, key) :: rest =>
      done ← decrypt_and_dispatch frame fid key;
      if done : bool then mret tt else try_peers frame rest
  end.

Definition rx_of (ps : gmap string FrontendPeer) (fid : string) : option bytes :=
  (λ p, rx (session_keys p)) <$> ps !! fid.

Definition candidates (ps : gmap string FrontendPeer) : list (string * bytes) :=
  omap (λ fid, (λ k, (fid, k)) <$> rx_of ps fid) (set_iter (dom ps)).

Definition handle_frame (frame : Messages.Frame) : M unit :=
  if bool_decide (f_from frame ≠ Frontend) then mret tt
  else
    ps ← gets peers;
    match f_frontend_id frame ≫= λ fid, (λ k, (fid, k)) <$> rx_of ps fid with
    | Some (fid, key) => _ ← decrypt_and_dispatch frame fid key; mret tt
    | None => try_peers frame (candidates ps)
    end.

Definition handle_message (msg : RelayServerMessage) : M unit :=
  match msg with
  | RegisterOk _ =>
      _ ← send (Auth Daemon (c_daemon_id cfg) (c_token cfg) (u64_as_f64 2) None); mret tt
  | RegisterErr _ => close_socket
  | AuthOk ok => handle_auth_ok ok
  | AuthErr _ =>
      resuming ← gets (λ c, resuming (state c));
      when resuming (with_state (λ s, set_resume None f64_zero (set_resuming false s)));;
      close_socket
  | KeyExchangeFrame k => handle_kx_frame k
  | FrameMsg f => handle_frame f
  | Presence p => call (OnPresence (pr_online p) (pr_sessions p))
  | Pong _ | Notification _ => mret tt
  | RErr e => handle_relay_err e
  | PushToken p => call (OnPushTokenSealed (pt_frontend_id p) (pt_sealed p) (pt_platform p))
  end.

(** *** What the owner may ask for *)

Definition send_encrypted (frontend_id sid : string) (seq : N) (payload : Value) : M bool :=
  key ← gets (λ c, (λ p, tx (session_keys p)) <$> peers c !! frontend_id);
  match key with
  | None => mret false
  | Some key =>
      sealed ← seal_random_nonce (as_bytes (to_string payload)) key;
      match sealed with
      | Ok ct => send (Publish sid ct seq)
      | Err _ => mret false
      end
  end.

Definition broadcast_encrypted (sid : string) (seq : N) (payload : Value) : M unit :=
  auth ← gets (λ c, authenticated (state c));
  ids ← gets (λ c, set_iter (dom (peers c)));
  if negb auth then mret tt
  else for_each ids (λ fid, _ ← send_encrypted fid sid seq payload; mret tt).

Definition publish_record (sid : string) (seq : N) (rec : Value) : M unit := broadcast_encrypted sid seq rec.
Definition publish_state (sid : string) (msg : Value) : M unit := broadcast_encrypted sid 0 msg.
Definition publish_removed (sid : string) (msg : Value) : M unit := broadcast_encrypted sid 0 msg.

Definition publish_to_peer (frontend_id sid : string) (msg : Value) : M unit :=
  auth ← gets (λ c, authenticated (state c));
  if negb auth then mret tt
  else
    known ← gets (λ c, bool_decide (is_Some (peers c !! frontend_id)));
    if negb known then mret tt else _ ← send_encrypted frontend_id sid 0 msg; mret tt.

Definition send_control (frontend_id : string) (msg : Value) : M bool :=
  auth ← gets (λ c, authenticated (state c));
  if negb auth then mret false
  else
    known ← gets (λ c, bool_decide (is_Some (peers c !! frontend_id)));
    if negb known then mret false else send_encrypted frontend_id RELAY_CHANNEL_CONTROL 0 msg.

(** [serde_json::to_value]: the fields of [control_to_value], in map order. *)
Definition to_map (v : Value) : Value :=
  match v with Object o => Object (foldl (λ m '(k, v), map_insert m k v) [] o) | v => v end.

Definition send_unpair_notice (frontend_id : string) (reason : UnpairReason) : M bool :=
  send_control frontend_id (to_map (control_to_value (Unpair (c_daemon_id cfg) frontend_id reason now_ms))).

Definition send_rename_notice (frontend_id : string) (label : Label) : M bool :=
  send_control frontend_id (to_map (control_to_value (Rename (c_daemon_id cfg) frontend_id label now_ms))).

Definition send_push (frontend_id sealed title body : string) (level : option InterruptionLevel)
    (data : option (string * option string * string)) : M bool :=
  auth ← gets (λ c, authenticated (state c));
  if negb auth then mret false
  else
    let push_data := (λ d, mkPushData d.1.1 (default (c_daemon_id cfg) d.1.2) d.2) <$> data in
    send (Push frontend_id sealed title body level push_data).

Definition subscribe (sid : string) : M unit :=
  with_state (λ s, set_subs ({[sid]} ∪ subscribed_sessions s) s);;
  auth ← gets (λ c, authenticated (state c));
  if auth : bool then _ ← send (Subscribe sid None); mret tt else mret tt.

Definition unsubscribe (sid : string) : M unit :=
  with_state (λ s, set_subs (subscribed_sessions s ∖ {[sid]}) s);;
  auth ← gets (λ c, authenticated (state c));
  if auth : bool then _ ← send (Unsubscribe sid); mret tt else mret tt.

Definition is_connected (c : Client) : bool := authenticated (state c).
Definition get_peer_count (c : Client) : nat := size (peers c).
Definition is_throttled (c : Client) : bool :=
  bool_decide (PEERLESS_RECONNECT_THRESHOLD ≤ peerless_reconnects (state c))%N.
Definition list_peer_frontend_ids (c : Client) : list string := set_iter (dom (peers c)).
Definition peer_pct (c : Client) (fid : string) : option bytes := peers c !! fid ≫= pct.
Definition peer_pct_b64 (c : Client) (fid : string) : option string := peers c !! fid ≫= pct_b64.
End client.

(** ** Facts *)

(** What only the trace and the count of answers record. *)
Definition same_but_trace (c c' : Client) (es : list Effect) : Prop :=
  state c' = state c ∧ peers c' = peers c ∧ kx_key c' = kx_key c ∧ trace c' = trace c ++ es.

Lemma same_trans c1 c2 c3 x y : same_but_trace c1 c2 x → same_but_trace c2 c3 y → same_but_trace c1 c3 (x ++ y).
Proof. intros (H1 & H2 & H3 & H4) (G1 & G2 & G3 & G4). split_and!; try congruence. by rewrite G4, H4, app_assoc. Qed.

Section facts.
Context {C : CryptoCrates} {HIS : HashIter string}.
Context (to_string : Value → string) (from_slice : bytes → option Value).
Context (cfg : RelayClientConfig) (env : Env).

(** The plaintext of a frame under a key, as a value. *)
Definition reads (ct : string) (key : bytes) : option Value :=
  match open ct key with Ok p => from_slice p | Err _ => None end.

Definition effects_of (o : option Event) : list Effect := Call <$> option_list o.

Lemma dispatch_spec frame fid key c :
  decrypt_and_dispatch from_slice frame fid key c =
  match reads (f_ct frame) key with
  | None => (false, c)
  | Some msg => (true, mkClient (state c) (peers c) (kx_key c)
                         (trace c ++ effects_of (dispatch_event (f_sid frame) msg fid)) (used c))
  end.
Proof.
  unfold decrypt_and_dispatch, reads. destruct (open _ key) as [p|]; [|done].
  destruct (from_slice p) as [msg|]; [|done].
  destruct (dispatch_event _ msg fid); [done|]. cbn. rewrite app_nil_r. by destruct c.
Qed.

(** The peer a frame is attributed to: the one it names, if known; otherwise the
    first that can read it. *)
Definition reader (ps : gmap string FrontendPeer) (frame : Messages.Frame) : option (string * Value) :=
  let read '(fid, key) := (λ msg, (fid, msg)) <$> reads (f_ct frame) key in
  if bool_decide (f_from frame ≠ Frontend) then None
  else
    match f_frontend_id frame ≫= λ fid, (λ k, (fid, k)) <$> rx_of ps fid with
    | Some cand => read cand
    | None => head (omap read (candidates ps))
    end.

Lemma try_peers_spec frame cands c :
  try_peers from_slice frame cands c =
  (tt, match head (omap (λ '(fid, key), (λ msg, (fid, msg)) <$> reads (f_ct frame) key) cands) with
       | None => c
       | Some (fid, msg) => mkClient (state c) (peers c) (kx_key c)
                              (trace c ++ effects_of (dispatch_event (f_sid frame) msg fid)) (used c)
       end).
Proof.
  induction cands as [|[fid key] cands IH]; [done|]. cbn [try_peers]. turn. rewrite dispatch_spec.
  destruct (reads (f_ct frame) key) as [msg|] eqn:E; cbn; rewrite E; [done|]. by rewrite IH.
Qed.

Lemma handle_frame_spec frame c :
  run (handle_frame from_slice frame) c =
  match reader (peers c) frame with
  | None => c
  | Some (fid, msg) => mkClient (state c) (peers c) (kx_key c)
                         (trace c ++ effects_of (dispatch_event (f_sid frame) msg fid)) (used c)
  end.
Proof.
  unfold run, handle_frame, reader. destruct (bool_decide (f_from frame ≠ Frontend)); [done|].
  turn. destruct (f_frontend_id frame ≫= _) as [[fid key]|].
  - turn. rewrite dispatch_spec. by destruct (reads _ key).
  - by rewrite try_peers_spec.
Qed.

Lemma elem_of_candidates ps fid key :
  (fid, key) ∈ candidates ps ↔ ∃ peer, ps !! fid = Some peer ∧ key = rx (session_keys peer).
Proof.
  unfold candidates, rx_of. rewrite list_elem_of_omap. split.
  - intros (f & _ & H). destruct (ps !! f) as [p|] eqn:E; [|done]. injection H as <- <-. eauto.
  - intros (p & Hp & ->). exists fid. rewrite elem_of_set_iter, elem_of_dom, Hp. eauto.
Qed.

Lemma reader_sound ps frame fid msg :
  reader ps frame = Some (fid, msg) →
  ∃ peer, ps !! fid = Some peer ∧ reads (f_ct frame) (rx (session_keys peer)) = Some msg ∧
    f_from frame = Frontend ∧
    ∀ named, f_frontend_id frame = Some named → is_Some (ps !! named) → fid = named.
Proof.
  unfold reader. case_bool_decide as Hf; [done|].
  destruct (f_frontend_id frame) as [named|]; cbn [mbind option_bind]; unfold rx_of in *.
  - destruct (ps !! named) as [p|] eqn:Ep; cbn.
    + destruct (reads _ _) as [m|] eqn:Er; [|done]. intros [= <- <-]. exists p. split_and!; try done.
      by intros n [= ->].
    + intros H. apply head_Some_elem_of, list_elem_of_omap in H as ([f k] & Hc & H).
      apply elem_of_candidates in Hc as (p & Hp & ->). destruct (reads _ _) as [m|] eqn:Er; [|done].
      injection H as <- <-. exists p. split_and!; try done. intros n [= <-] [? Hn]. congruence.
  - intros H. apply head_Some_elem_of, list_elem_of_omap in H as ([f k] & Hc & H).
    apply elem_of_candidates in Hc as (p & Hp & ->). destruct (reads _ _) as [m|] eqn:Er; [|done].
    injection H as <- <-. exists p. by split_and!.
Qed.

(** *** Key exchange *)

Lemma send_spec msg c :
  send env msg c =
  match ws_tx (state c) with
  | None => (false, c)
  | Some g =>
      let ok := e_try_send env (used c) in
      (ok, mkClient (state c) (peers c) (kx_key c) (trace c ++ if ok then [Wire g msg] else []) (S (used c)))
  end.
Proof.
  unfold send. turn. destruct (ws_tx (state c)) as [g|]; [|done]. turn. unfold tick. cbn.
  destruct (e_try_send env (used c)); cbn; [done|]. by rewrite app_nil_r.
Qed.

(** What a turn that seals one payload and sends it leaves behind. *)
Definition posted (key : bytes) (text : string) (mk : string → RelayClientMessage) (c c' : Client) (sent : bool) : Prop :=
  state c' = state c ∧ peers c' = peers c ∧ kx_key c' = kx_key c ∧
  ∃ es, trace c' = trace c ++ es ∧
    if sent then ∃ g ct n, ws_tx (state c) = Some g ∧ seal (as_bytes text) key (e_nonce env n) = Ok ct ∧
                           es = [Wire g (mk ct)]
    else es = [].

Lemma posted_seal_send key text mk c :
  let m := sealed ← seal_random_nonce env (as_bytes text) key;
           match sealed with Ok ct => send env (mk ct) | Err _ => mret false end in
  posted key text mk c (m c).2 (m c).1 ∧
  (length key = 32 → (∀ k, length (e_nonce env k) = 24) → (∀ k, e_try_send env k = true) →
   is_Some (ws_tx (state c)) → CryptoLaws C → (m c).1 = true).
Proof.
  cbv zeta. unfold seal_random_nonce. turn. unfold tick. cbn [fst snd].
  destruct (seal _ key _) as [ct|] eqn:E.
  - rewrite send_spec. cbn [state used peers kx_key trace]. destruct (ws_tx (state c)) as [g|] eqn:Eg; cbn.
    + split; [split_and!; [done..|]|].
      * eexists. split; [done|]. destruct (e_try_send _ _); [|done]. eauto 10.
      * intros _ _ -> _ _. done.
    + split; [split_and!; [done..|]; exists []; by rewrite app_nil_r|]. intros _ _ _ [? ?]. done.
  - cbn. split; [split_and!; [done..|]; exists []; by rewrite app_nil_r|].
    intros Hk Hn _ _ L. destruct (seal_then_open (as_bytes text) key (e_nonce env (used c)) Hk (Hn _)) as (e1 & He & _).
    congruence.
Qed.

Lemma broadcast_spec key c :
  kx_key c = Some key →
  ∃ sent, posted key (to_string (kx_payload cfg)) (λ ct, KeyExchange ct Daemon) c
            (run (broadcast_daemon_public_key to_string cfg env) c) sent ∧
  (length key = 32 → (∀ k, length (e_nonce env k) = 24) → (∀ k, e_try_send env k = true) →
   is_Some (ws_tx (state c)) → CryptoLaws C → sent = true).
Proof.
  intros Hk. destruct (posted_seal_send key (to_string (kx_payload cfg)) (λ ct, KeyExchange ct Daemon) c) as [H1 H2].
  eexists. split; [|exact H2]. revert H1. unfold run, broadcast_daemon_public_key. turn. rewrite Hk. turn.
  destruct (seal_random_nonce env _ key c) as [[ct|e] c1]; cbn [fst snd]; turn; done.
Qed.

Lemma handle_kx_spec frame c key plaintext data fpk fid :
  kx_from frame = Frontend → kx_key c = Some key → open (kx_ct frame) key = Ok plaintext →
  from_slice plaintext = Some data → kx_identity data = Some (fpk, fid) →
  let peer := new_peer cfg fpk (kx_version data) in
  let c' := run (handle_kx_frame to_string from_slice cfg env frame) c in
  let mid := mkClient (set_had_peer true (set_peerless 0 (state c))) (<[fid := peer]> (peers c)) (kx_key c) (trace c) (used c) in
  let sent := run (broadcast_daemon_public_key to_string cfg env) mid in
  state c' = state sent ∧ peers c' = peers sent ∧ kx_key c' = kx_key sent ∧
  trace c' = trace sent ++ (match pct peer with Some tag => [Call (OnPeerConfirmed fid tag fpk)] | None => [] end)
                        ++ [Call (OnFrontendJoined fid)].
Proof.
  intros Hf Hk Ho Hd Hi. cbv zeta. unfold run, handle_kx_frame. rewrite bool_decide_eq_false_2 by by intros ?.
  turn. rewrite Hk, Ho, Hd, Hi. unfold set_peers, with_state. turn. cbn [state peers kx_key trace used].
  rewrite <-Hk. destruct (broadcast_daemon_public_key _ _ _ _) as [[] c1]. cbn [fst snd].
  destruct (pct (new_peer cfg fpk (kx_version data))) as [tag|]; unfold call; turn; [|done].
  cbn. by rewrite <-app_assoc.
Qed.
End facts.

Lemma new_peer_agrees {C : CryptoCrates} `{!CryptoLaws C} cfg skd skf version :
  key_pair cfg = mkKeyPair (x25519_base skd) skd →
  let peer := new_peer cfg (x25519_base skf) version in
  let keys_f := kx_client_session_keys (x25519_base skf) skf (x25519_base skd) in
  mirrored (session_keys peer) keys_f ∧
  length (rx (session_keys peer)) = 32 ∧ length (tx (session_keys peer)) = 32 ∧
  (pairing_id cfg ≠ "" → pct peer =
     (λ pid, derive_pairing_confirmation_tag pid (c_daemon_id cfg) (hostname cfg)
               (x25519_base skd) (x25519_base skf) (tx keys_f) (rx keys_f)) <$> parse_uuid_16 (pairing_id cfg)).
Proof.
  intros Hkp. cbv zeta. unfold new_peer. cbn [session_keys pct]. rewrite Hkp. cbn [public_key secret_key].
  pose proof (kx_mirrored skd skf) as M. split; [done|]. split; [apply server_keys_length|].
  split; [apply server_keys_length|]. intros Hp. unfold peer_tag. rewrite decide_False by done. rewrite Hkp.
  cbn [public_key]. destruct (parse_uuid_16 _) as [pid|]; [|done]. cbn [fmap option_fmap option_map].
  f_equal. by apply tag_mirrored.
Qed.

Section claims.
Context {C : CryptoCrates} {HIS : HashIter string}.
Context (to_string : Value → string) (from_slice : bytes → option Value).
Context (cfg : RelayClientConfig) (env : Env).

(** Whose word an event is, by the key that opened its frame. *)
Definition speaks_for (e : Event) (fid sid : string) : Prop :=
  match e with
  | OnInput _ _ _ f | OnControlMessage _ f => f = fid
  | OnUnpair _ _ | OnRename _ _ => sid = RELAY_CHANNEL_CONTROL
  | _ => False
  end.

Lemma event_speaker sid msg fid e : dispatch_event sid msg fid = Some e → speaks_for e fid sid.
Proof.
  unfold dispatch_event. intros He. destruct (_ && _) eqn:Ec.
  - apply andb_true_iff in Ec as [Es _]. apply String.eqb_eq in Es.
    destruct (parse_control_message msg) as [[]|]; try done; by injection He as <-.
  - clear Ec. destruct (_ || _); [|by injection He as <-].
    apply bind_Some in He as (s & _ & He). apply bind_Some in He as (d & _ & He). by injection He as <-.
Qed.

(** A frame reaches the owner at most once, changes nothing of the client, and
    is attributed to a frontend whose session key opens it: the frontend the relay
    names when that one is known, otherwise the first in the peers' order that can
    read it; every callback so fired was asked for by the plaintext.  Frames the
    relay claims a daemon sent are ignored. *)
Theorem frame_attribution frame c :
  let c' := run (handle_frame from_slice frame) c in
  ∃ fired, same_but_trace c c' (effects_of fired) ∧
    (f_from frame ≠ Frontend → fired = None) ∧
    ∀ e, fired = Some e → ∃ fid peer plaintext msg,
      peers c !! fid = Some peer ∧ open (f_ct frame) (rx (session_keys peer)) = Ok plaintext ∧
      from_slice plaintext = Some msg ∧ dispatch_event (f_sid frame) msg fid = Some e ∧
      speaks_for e fid (f_sid frame) ∧
      (∀ named, f_frontend_id frame = Some named → is_Some (peers c !! named) → fid = named).
Proof.
  intros c'. exists (reader from_slice (peers c) frame ≫= λ '(fid, msg), dispatch_event (f_sid frame) msg fid).
  unfold c'. rewrite handle_frame_spec. destruct (reader from_slice (peers c) frame) as [[fid msg]|] eqn:E; cbn.
  - apply reader_sound in E as (peer & Hp & Hr & Hf & Hn). split; [done|]. split; [done|]. intros e He.
    unfold reads in Hr. destruct (open _ _) as [plaintext|] eqn:Eo; [|done].
    exists fid, peer, plaintext, msg. split_and!; try done. by eapply event_speaker.
  - split; [split_and!; try done; by rewrite app_nil_r|]. done.
Qed.

(** The clock aside, an environment in which nothing fails. *)
Definition sound_env : Prop := (∀ k, length (e_nonce env k) = 24) ∧ ∀ k, e_try_send env k = true.

(** What a known frontend seals is dispatched as its word. *)
Lemma peer_heard `{!CryptoLaws C} c fid peer sid seq msg n ct :
  peers c !! fid = Some peer → length (rx (session_keys peer)) = 32 → length n = 24 →
  from_slice (as_bytes (to_string msg)) = Some msg →
  seal (as_bytes (to_string msg)) (rx (session_keys peer)) n = Ok ct →
  trace (run (handle_frame from_slice (mkFrameMsg sid ct seq Frontend (Some fid))) c)
  = trace c ++ effects_of (dispatch_event sid msg fid).
Proof.
  intros Hp Hr Hn Hj Hs. rewrite handle_frame_spec. unfold reader, rx_of.
  cbn [f_from f_frontend_id f_ct f_sid mbind option_bind]. rewrite bool_decide_eq_false_2 by by intros ?.
  rewrite Hp. cbn [fmap option_fmap option_map]. unfold reads. by rewrite (open_sealed ct _ n _ Hr Hn Hs), Hj.
Qed.

(** What is sent to a known frontend leaves, sealed under its key. *)
Lemma peer_told `{!CryptoLaws C} c fid peer socket sid seq payload :
  peers c !! fid = Some peer → length (tx (session_keys peer)) = 32 → ws_tx (state c) = Some socket → sound_env →
  ∃ ct, (send_encrypted to_string env fid sid seq payload c).1 = true ∧
    trace (run (send_encrypted to_string env fid sid seq payload) c) = trace c ++ [Wire socket (Publish sid ct seq)] ∧
    open ct (tx (session_keys peer)) = Ok (as_bytes (to_string payload)).
Proof.
  intros Hp Ht Hw [Henv1 Henv2].
  destruct (posted_seal_send env (tx (session_keys peer)) (to_string payload) (λ ct, Publish sid ct seq) c)
    as [(_ & _ & _ & es & Pt & Pe) Psent].
  assert (send_encrypted to_string env fid sid seq payload c =
          (sealed ← seal_random_nonce env (as_bytes (to_string payload)) (tx (session_keys peer));
           match sealed with Ok ct => send env (Publish sid ct seq) | Err _ => mret false end) c) as Ese.
  { unfold send_encrypted. rewrite client_bind_run, gets_run. cbn [fst snd]. by rewrite Hp. }
  pose proof (Psent Ht Henv1 Henv2 ltac:(by eexists) _) as Ps. unfold run. rewrite Ese, Ps in *.
  destruct Pe as (g & ct & k & Hg & Hs & ->). exists ct. split_and!; [done| |].
  - rewrite Pt. congruence.
  - by apply (open_sealed _ _ (e_nonce env k)).
Qed.

(** C15. Key exchange end to end.  A frontend that knows the pairing secret and
    sends its public key is answered with the daemon's, and from then on the two
    hold mirrored session keys, and, where the pairing has an id, the same
    confirmation tag.  Whatever the frontend seals is opened under its own key and
    dispatched: input and requests under its id, but an unpairing or a renaming on
    the control channel under the id that its payload names, which nobody compares.
    Whatever the daemon sends it opens under the frontend's key; the other
    frontends' keys are untouched and the reconnect throttle is released. *)
Theorem kx_then_talk `{!CryptoLaws C} skd skf fid hello n ct version c socket :
  key_pair cfg = mkKeyPair (x25519_base skd) skd →
  let fpk := x25519_base skf in
  let keys_f := kx_client_session_keys fpk skf (x25519_base skd) in
  let kx := derive_kx_key (pairing_secret cfg) in
  length fpk = 32 → fid ≠ "" →
  value_get hello "pk" = Some (Str (b64std_encode fpk)) → value_get hello "frontendId" = Some (Str fid) →
  kx_version hello = version → from_slice (as_bytes (to_string hello)) = Some hello →
  length n = 24 → seal (as_bytes (to_string hello)) kx n = Ok ct →
  kx_key c = Some kx → ws_tx (state c) = Some socket → sound_env →
  let c1 := run (handle_kx_frame to_string from_slice cfg env (mkKx ct Frontend)) c in
  (∃ peer, peers c1 = <[fid := peer]> (peers c) ∧ mirrored (session_keys peer) keys_f ∧
     (pairing_id cfg ≠ "" → pct peer =
        (λ pid, derive_pairing_confirmation_tag pid (c_daemon_id cfg) (hostname cfg)
                  (x25519_base skd) fpk (tx keys_f) (rx keys_f)) <$> parse_uuid_16 (pairing_id cfg))) ∧
  state c1 = set_had_peer true (set_peerless 0 (state c)) ∧
  (∃ answer, Wire socket (KeyExchange answer Daemon) ∈ trace c1 ∧
     open answer kx = Ok (as_bytes (to_string (kx_payload cfg))) ∧
     value_get (kx_payload cfg) "pk" = Some (Str (b64std_encode (x25519_base skd)))) ∧
  (∀ sid seq msg n' ct', length n' = 24 → from_slice (as_bytes (to_string msg)) = Some msg →
     seal (as_bytes (to_string msg)) (tx keys_f) n' = Ok ct' →
     trace (run (handle_frame from_slice (mkFrameMsg sid ct' seq Frontend (Some fid))) c1)
     = trace c1 ++ effects_of (dispatch_event sid msg fid)) ∧
  (∀ sid seq payload, ∃ ct',
     (send_encrypted to_string env fid sid seq payload c1).1 = true ∧
     trace (run (send_encrypted to_string env fid sid seq payload) c1)
       = trace c1 ++ [Wire socket (Publish sid ct' seq)] ∧
     open ct' (rx keys_f) = Ok (as_bytes (to_string payload))) ∧
  (∀ sid msg e, dispatch_event sid msg fid = Some e → speaks_for e fid sid).
Proof.
  intros Hkp fpk keys_f kx Hfpk Hfid Hpk Hid Hv Hjs Hn Hs Hk Hw [Henv1 Henv2] c1.
  assert (length kx = 32) as Hlk by apply derived_key_length.
  assert (kx_identity hello = Some (fpk, fid)) as Hi.
  { unfold kx_identity. rewrite Hpk, Hid. cbn. rewrite !bool_decide_eq_false_2; [|done|].
    - by rewrite b64std_decode_encode, decide_True.
    - intros E%b64std_nonempty. by rewrite E in Hfpk. }
  pose proof (handle_kx_spec to_string from_slice cfg env (mkKx ct Frontend) c kx _ hello fpk fid eq_refl Hk
                (open_sealed _ _ n _ Hlk Hn Hs) Hjs Hi) as (Es & Ep & Ek & Et). fold c1 in Es, Ep, Ek, Et.
  match type of Es with _ = state (run _ ?m) => set (mid := m) in * end.
  destruct (broadcast_spec to_string cfg env kx mid Hk) as (sent & (Bs & Bp & Bk & es & Bt & Bsent) & Hsent).
  rewrite (Hsent Hlk Henv1 Henv2 ltac:(by eexists) _) in Bsent.
  destruct Bsent as (g & answer & k & Hg & Hseal & ->). assert (g = socket) as -> by (cbn in Hg; congruence).
  set (peer := new_peer cfg fpk (kx_version hello)) in *.
  assert (peers c1 !! fid = Some peer) as Hpeer by (rewrite Ep, Bp; cbn; by rewrite lookup_insert_eq).
  destruct (new_peer_agrees cfg skd skf (kx_version hello) Hkp) as (M & Hr & Ht & Hpct). fold fpk peer keys_f in M, Hr, Ht, Hpct.
  split_and!.
  - exists peer. split; [by rewrite Ep, Bp|]. done.
  - by rewrite Es, Bs.
  - exists answer. split_and!.
    + rewrite Et, Bt, !elem_of_app. left. right. left.
    + by apply (open_sealed _ _ (e_nonce env k)).
    + cbn. by rewrite Hkp.
  - intros sid seq msg n' ct' Hn' Hjs' Hs'. destruct M as [Mt Mr].
    apply (peer_heard c1 fid peer sid seq msg n'); try done. by rewrite Mr.
  - intros sid seq payload. destruct M as [Mt Mr]. rewrite <- Mt.
    apply (peer_told c1 fid peer socket); try done. by rewrite Es, Bs.
  - intros sid msg e. apply event_speaker.
Qed.

(** *** Sending to frontends *)

Lemma send_encrypted_eq fid sid seq payload c :
  send_encrypted to_string env fid sid seq payload c =
  match peers c !! fid with
  | None => (false, c)
  | Some peer =>
      (sealed ← seal_random_nonce env (as_bytes (to_string payload)) (tx (session_keys peer));
       match sealed with Ok ct => send env (Publish sid ct seq) | Err _ => mret false end) c
  end.
Proof. unfold send_encrypted. rewrite client_bind_run, gets_run. cbn [fst snd]. by destruct (peers c !! fid). Qed.

(** The frames of a broadcast: to whom, and the sealed text. *)
Definition sealed_for (ps : gmap string FrontendPeer) (text : string) (post : string * string) : Prop :=
  ∃ peer n, ps !! post.1 = Some peer ∧ seal (as_bytes text) (tx (session_keys peer)) (e_nonce env n) = Ok post.2.

Definition keys_sized (ps : gmap string FrontendPeer) : Prop :=
  map_Forall (λ _ p, length (tx (session_keys p)) = 32) ps.

Lemma broadcast_loop ids sid seq payload c socket :
  ws_tx (state c) = Some socket → (∀ fid, fid ∈ ids → is_Some (peers c !! fid)) →
  let c' := run (for_each ids (λ fid, _ ← send_encrypted to_string env fid sid seq payload; mret tt)) c in
  ∃ posts, same_but_trace c c' ((λ post, Wire socket (Publish sid post.2 seq)) <$> posts) ∧
    posts.*1 `sublist_of` ids ∧ Forall (sealed_for (peers c) (to_string payload)) posts ∧
    (keys_sized (peers c) → sound_env → CryptoLaws C → posts.*1 = ids).
Proof.
  revert c. induction ids as [|fid ids IH]; intros c Hw Hids.
  { exists []. split; [split_and!; try done; cbn; by rewrite app_nil_r|]. by split_and!. }
  cbv zeta. unfold run. cbn [for_each]. rewrite client_bind_run, client_bind_run, ret_run. cbn [fst snd].
  destruct (Hids fid ltac:(left)) as [peer Hp].
  rewrite send_encrypted_eq, Hp.
  destruct (posted_seal_send env (tx (session_keys peer)) (to_string payload) (λ ct, Publish sid ct seq) c)
    as [(Ps & Pp & Pk & es & Pt & Pe) Psent].
  match goal with |- context [?m c] => destruct (m c) as [sent c1] end. cbn [fst snd] in *.
  destruct (IH c1 ltac:(by rewrite Ps) ltac:(intros f Hf; rewrite Pp; apply Hids; by right))
    as (posts & (Ss & Sp & Sk & St) & Hsub & Hall & Hfull). unfold run in *. rewrite Pp in Hall, Hfull.
  destruct sent.
  - destruct Pe as (g & ct & n & Hg & Hct & ->). exists ((fid, ct) :: posts). split_and!; cbn; try congruence.
    + assert (g = socket) as -> by congruence. by apply (same_trans c c1 _ [_]).
    + by apply sublist_skip.
    + constructor; [by exists peer, n|done].
    + intros H1 H2 H3. f_equal. by apply Hfull.
  - subst es. exists posts. split_and!; try congruence.
    + by apply (same_trans c c1 _ []).
    + by apply sublist_cons.
    + intros H1 [H2 H3] H4. enough (false = true) by done. apply Psent; try done. by apply (H1 fid).
Qed.

(** Broadcasting a record is best effort per frontend and says nothing it did
    not do.  It changes no state; every frame it hands to the socket is the record
    sealed under the key of one of the known frontends, each frontend at most
    once; one frontend's failure does not stop the next, so when no send fails
    every frontend gets its own; without a socket or before authentication
    nothing is handed over. *)
Theorem broadcast_best_effort sid seq payload c :
  let c' := run (broadcast_encrypted to_string env sid seq payload) c in
  ∃ posts,
    same_but_trace c c' ((λ post, Wire (default 0%N (ws_tx (state c))) (Publish sid post.2 seq)) <$> posts) ∧
    NoDup posts.*1 ∧ Forall (sealed_for (peers c) (to_string payload)) posts ∧
    (authenticated (state c) = false ∨ ws_tx (state c) = None → posts = []) ∧
    (authenticated (state c) = true → is_Some (ws_tx (state c)) → keys_sized (peers c) → sound_env →
     CryptoLaws C → ∀ fid, fid ∈ posts.*1 ↔ is_Some (peers c !! fid)).
Proof.
  cbv zeta. unfold run, broadcast_encrypted. rewrite client_bind_run, gets_run. cbn [fst snd].
  rewrite client_bind_run, gets_run. cbn [fst snd].
  assert (∀ c1 : Client, same_but_trace c1 c1 []) as Hrefl
    by (intros c1; split_and!; try done; by rewrite app_nil_r).
  destruct (authenticated (state c)) eqn:Ea; cbn [negb].
  2:{ exists []. split_and!; try done; constructor. }
  assert (∀ fid, fid ∈ set_iter (dom (peers c)) ↔ is_Some (peers c !! fid)) as Hids
    by (intros; by rewrite elem_of_set_iter, elem_of_dom).
  destruct (ws_tx (state c)) as [socket|] eqn:Ew.
  - destruct (broadcast_loop (set_iter (dom (peers c))) sid seq payload c socket Ew)
      as (posts & H1 & H2 & H3 & H4); [intros; by apply Hids|].
    exists posts. cbn [default]. split_and!; try done.
    + exact (sublist_NoDup _ _ (nodup_set_iter (dom (peers c))) H2).
    + by intros [?|?].
    + intros _ _ Hk Hs Hl fid. by rewrite (H4 Hk Hs Hl).
  - exists []. split_and!; try done; [|constructor].
    assert (∀ ids c1, ws_tx (state c1) = None →
      same_but_trace c1 (for_each ids (λ fid, _ ← send_encrypted to_string env fid sid seq payload; mret tt) c1).2 []) as H;
      [|by apply H].
    intros ids. induction ids as [|fid ids IH]; intros c1 H1; [apply Hrefl|].
    cbn [for_each]. rewrite client_bind_run, client_bind_run, ret_run. cbn [fst snd]. rewrite send_encrypted_eq.
    destruct (peers c1 !! fid) as [peer|]; [|by apply IH].
    destruct (posted_seal_send env (tx (session_keys peer)) (to_string payload) (λ ct, Publish sid ct seq) c1)
      as [(Ps & Pp & Pk & es & Pt & Pe) _].
    match goal with |- context [?m c1] => destruct (m c1) as [sent c2] end. cbn [fst snd] in *.
    destruct (IH c2 ltac:(congruence)) as (Ss & Sp & Sk & St).
    destruct sent; [destruct Pe as (g & ? & ? & Hg & _); congruence|]. subst es.
    by apply (same_trans c1 c2 _ [] []).
Qed.
End claims.

(** ** A concrete client *)

Module Demo.
#[export] Instance crates : CryptoCrates := demo_crates.
#[export] Instance laws : CryptoLaws demo_crates := demo_crates_laws.
#[export] Instance iter : HashIter string := elements_iter string.

Definition daemon_secret : bytes := replicate 32 "d"%char.
Definition frontend_secret : bytes := replicate 32 "f"%char.
Definition hello : Value :=
  Object [("frontendId", Str "f1"); ("pk", Str (b64std_encode frontend_secret)); ("role", Str "frontend");
          ("v", u64_value 3)].
Definition note : Value := Object [("d", Str "ls"); ("sid", Str "s1"); ("t", Str "in.chat")].

(** A text for each value the demonstration writes. *)
Definition to_string (v : Value) : string :=
  match value_get v "role", value_get v "t" with
  | Some (Str r), _ => r
  | _, Some (Str t) => t
  | _, _ => "{}"
  end.
Definition from_slice (b : bytes) : option Value :=
  let s := str_of_bytes b in
  if String.eqb s "frontend" then Some hello else if String.eqb s "in.chat" then Some note else None.

Definition cfg : RelayClientConfig :=
  mkConfig "wss://r" "d1" "tok" "proof" (mkKeyPair daemon_secret daemon_secret) (as_bytes "secret") None
    "00112233-4455-6677-8899-aabbccddeeff" "host".
Definition env : Env := mkEnv 1000 (λ _, true) (λ _, demo_nonce).

(** An authenticated client on its first socket. *)
Definition client0 : Client :=
  mkClient (mkConn (Some 1%N) true false 0 2 false None f64_zero false ∅ 1) ∅
    (Some (derive_kx_key (pairing_secret cfg))) [] 0.

Definition sealed (v : Value) (key : bytes) : string :=
  match seal (as_bytes (to_string v)) key demo_nonce with Ok s => s | Err _ => "" end.
Definition kx_ct : string := sealed hello (derive_kx_key (pairing_secret cfg)).
Definition client1 : Client := run (handle_kx_frame to_string from_slice cfg env (mkKx kx_ct Frontend)) client0.
Definition frontend_keys : SessionKeys :=
  kx_client_session_keys (x25519_base frontend_secret) frontend_secret (x25519_base daemon_secret).

Lemma kx_then_talk_witness :
  trace (run (handle_frame from_slice (mkFrameMsg "s1" (sealed note (tx frontend_keys)) 1 Frontend (Some "f1"))) client1)
  = trace client1 ++ [Call (OnInput Chat "s1" "ls" "f1")].
Proof.
  pose proof (kx_then_talk to_string from_slice cfg env daemon_secret frontend_secret "f1" hello demo_nonce kx_ct
    (u64_as_f64 3) client0 1 eq_refl eq_refl ltac:(discriminate) eq_refl eq_refl eq_refl eq_refl eq_refl eq_refl
    eq_refl eq_refl ltac:(split; reflexivity)) as (_ & _ & _ & H & _).
  apply (H "s1" 1%N note demo_nonce); reflexivity.
Defined.

Example throttle_released : peerless_reconnects (state client1) = 0%N ∧ get_peer_count client1 = 1.
Proof. vm_compute. done. Qed.
End Demo.
