(* ===== verification/Reconnect.v ===== *)
(** * Reconnect: the life of a relay connection.
    [connect], [run_read_loop], [on_close], [schedule_reconnect], [start_ping] and
    [dispose] of [tp-daemon/src/transport/relay_client.rs] as tasks of a pool.  A
    task's step is what the runtime cannot split: one locked section, one await,
    one handled message (the handlers are the turns of [DaemonClient]). *)
From stdpp Require Import base list numbers strings gmap fin_maps relations well_founded.
From Stdlib Require Import Lia NArith Wellfounded Relation_Operators.
From Stdlib.Floats Require Import SpecFloat.
From S2P Require Import Prelude Bytes Json Messages Label Crypto DaemonClient.

(** What a socket brings: a relay message, a text or frame the loop skips, its end. *)
Inductive Input := IMessage (msg : RelayServerMessage) | INoise | IClosed.

Inductive Task :=
(* [connect], section by section *)
| KConnect | KDerive | KRecheck | KCleanup | KBump
| KDial (g : N) | KChecked (g : N) | KInstall (g : N) | KReset | KOpen
(* [run_read_loop] and [on_close] *)
| KRead (g : N) | KHandle (g : N) (msg : RelayServerMessage) | KClosing (g : N)
(* the task [schedule_reconnect] spawns *)
| KSchedule | KPlan | KSleep (g delay : N)
(* the task [start_ping] spawns *)
| KPing0 | KPing1 | KPing (g : N)
(* [dispose] *)
| KDispose | KDisposeCleanup
| KDone.

(** The environment's answers to one step. *)
Record Choice := mkChoice { ch_env : Env; ch_dial : bool; ch_input : Input }.

(** What the owner calls from other tasks. *)
Inductive OwnerCall :=
| CPublishRecord (sid : string) (seq : N) (rec : Value)
| CPublishState (sid : string) (msg : Value)
| CPublishRemoved (sid : string) (msg : Value)
| CPublishToPeer (frontend_id sid : string) (msg : Value)
| CUnpairNotice (frontend_id : string) (reason : UnpairReason)
| CRenameNotice (frontend_id : string) (label : Label)
| CPush (frontend_id sealed title body : string) (level : option InterruptionLevel)
        (data : option (string * option string * string))
| CSubscribe (sid : string)
| CUnsubscribe (sid : string).

Section reconnect.
Context {C : CryptoCrates} {HIS : HashIter string}.
Context (to_string : Value → string) (from_slice : bytes → option Value) (cfg : RelayClientConfig).

Definition owner_call (env : Env) (o : OwnerCall) : M unit :=
  match o with
  | CPublishRecord sid seq rec => publish_record to_string env sid seq rec
  | CPublishState sid msg => publish_state to_string env sid msg
  | CPublishRemoved sid msg => publish_removed to_string env sid msg
  | CPublishToPeer fid sid msg => publish_to_peer to_string env fid sid msg
  | CUnpairNotice fid reason => _ ← send_unpair_notice to_string cfg env fid reason; mret tt
  | CRenameNotice fid label => _ ← send_rename_notice to_string cfg env fid label; mret tt
  | CPush fid sealed title body level data => _ ← send_push cfg env fid sealed title body level data; mret tt
  | CSubscribe sid => subscribe env sid
  | CUnsubscribe sid => unsubscribe env sid
  end.

(** The section of [schedule_reconnect] that counts and plans. *)
Definition plan_section (st : ConnState) : N * ConnState :=
  let peerless := next_peerless_reconnects (peerless_reconnects st) (had_peer_this_connection st) in
  let plan := compute_reconnect_plan (reconnect_attempt st) peerless in
  (delay_ms plan, set_attempt (next_attempt plan) (set_peerless peerless st)).

Definition derive_section : M unit :=
  key ← gets kx_key;
  match key with
  | None => set_kx_key (derive_kx_key (pairing_secret cfg))
  | Some _ => mret tt
  end.

Definition is_auth_ok (msg : RelayServerMessage) : bool := match msg with AuthOk _ => true | _ => false end.

(** One turn of the read loop. *)
Definition run_read_loop_step (ch : Choice) (c : Client) (g : N) : Client * Task * list Task :=
  let st := state c in
  if bool_decide (generation st ≠ g) then (c, KDone, [])
  else
    match ch_input ch with
    | IMessage msg => (c, KHandle g msg, [])
    | INoise => (c, KRead g, [])
    | IClosed => (c, KClosing g, [])
    end.

(** [on_close]: only the live connection's end schedules a reconnect. *)
Definition on_close_step (c : Client) (g : N) : Client * Task * list Task :=
  let st := state c in
  if bool_decide (generation st ≠ g) then (c, KDone, [])
  else (run (with_state (set_authenticated false);; call OnDisconnected) c, KDone, [KSchedule]).

(** The sleeper wakes: it dials unless the client moved on. *)
Definition wake_step (c : Client) (g : N) : Client * Task * list Task :=
  let st := state c in
  (c, if disposed st || bool_decide (generation st ≠ g) then KDone else KConnect, []).

(** A tick of the ping timer. *)
Definition ping_step (env : Env) (c : Client) (g : N) : Client * Task * list Task :=
  let st := state c in
  if disposed st || bool_decide (generation st ≠ g) then (c, KDone, [])
  else (run (_ ← send env (Ping (Some (now_ms env))); mret tt) c, KPing g, []).

(** A task's next step: the client after it, where the task stands, what it spawned. *)
Definition task_step (ch : Choice) (c : Client) (t : Task) : Client * Task * list Task :=
  let env := ch_env ch in
  let st := state c in
  match t with
  | KConnect => (c, if disposed st then KDone else KDerive, [])
  | KDerive => (run derive_section c, KRecheck, [])
  | KRecheck => (c, if disposed st then KDone else KCleanup, [])
  | KCleanup => (run cleanup c, KBump, [])
  | KBump => (run (with_state bump_generation) c, KDial (generation st + 1), [])
  | KDial g => if ch_dial ch then (c, KChecked g, []) else (c, KDone, [KSchedule])
  | KChecked g => (c, if disposed st || bool_decide (generation st ≠ g) then KDone else KInstall g, [])
  | KInstall g => (run (with_state (set_ws_tx (Some g))) c, KReset, [KRead g])
  | KReset => (run (with_state (set_attempt 0)) c, KOpen, [])
  | KOpen => (run (on_open cfg env) c, KDone, [])
  | KRead g => run_read_loop_step ch c g
  | KHandle g msg =>
      (run (handle_message to_string from_slice cfg env msg) c, KRead g, if is_auth_ok msg then [KPing0] else [])
  | KClosing g => on_close_step c g
  | KSchedule => (c, if disposed st then KDone else KPlan, [])
  | KPlan =>
      let '(delay, st') := plan_section st in
      (run (with_state (λ _, st')) c, KSleep (generation st) delay, [])
  | KSleep g _ => wake_step c g
  | KPing0 => (c, if disposed st then KDone else KPing1, [])
  | KPing1 => (c, KPing (generation st), [])
  | KPing g => ping_step env c g
  | KDispose => (run (with_state set_disposed) c, KDisposeCleanup, [])
  | KDisposeCleanup => (run cleanup c, KDone, [])
  | KDone => (c, KDone, [])
  end.

Record Pool := mkPool { client : Client; tasks : list Task }.

Inductive internal : Pool → Pool → Prop :=
| internal_step c ts i t ch c' t' new :
    ts !! i = Some t → t ≠ KDone → task_step ch c t = (c', t', new) →
    internal (mkPool c ts) (mkPool c' (<[i := t']> ts ++ new)).

(** The owner calls a method, or disposes of the client. *)
Inductive external : Pool → Pool → Prop :=
| external_call env o c ts : external (mkPool c ts) (mkPool (run (owner_call env o) c) ts)
| external_dispose c ts : external (mkPool c ts) (mkPool c (ts ++ [KDispose])).

Inductive pool_step : Pool → Pool → Prop :=
| pool_internal p p' : internal p p' → pool_step p p'
| pool_external p p' : external p p' → pool_step p p'.

(** The owner calls [connect] once ([add_client], [PendingPairing::begin]). *)
Definition pool_init : Pool := mkPool Client_new [KConnect].

(** ** What the turns leave alone *)

(** The part of the state the connection's life is told by. *)
Definition life (st : ConnState) : bool * N := (disposed st, generation st).

(** A turn that neither disposes nor bumps, and opens no socket. *)
Definition tame {A} (m : M A) : Prop :=
  ∀ c, life (state (m c).2) = life (state c) ∧
       ∀ g, ws_tx (state (m c).2) = Some g → ws_tx (state c) = Some g.

Lemma tame_same {A} (m : M A) : (∀ c, state (m c).2 = state c) → tame m.
Proof. intros H c. by rewrite H. Qed.
Lemma tame_ret {A} (a : A) : tame (mret a).
Proof. by apply tame_same. Qed.
Lemma tame_gets {A} (f : Client → A) : tame (gets f).
Proof. by apply tame_same. Qed.
Lemma tame_call e : tame (call e).
Proof. by apply tame_same. Qed.
Lemma tame_set_peers f : tame (set_peers f).
Proof. by apply tame_same. Qed.
Lemma tame_bind {A B} (m : M A) (k : A → M B) : tame m → (∀ a, tame (k a)) → tame (m ≫= k).
Proof.
  intros Hm Hk c. rewrite client_bind_run. destruct (Hm c) as [H1 H2], (Hk (m c).1 (m c).2) as [H3 H4].
  split; [by rewrite H3|eauto].
Qed.
Lemma tame_state f :
  (∀ s, life (f s) = life s ∧ ∀ g, ws_tx (f s) = Some g → ws_tx s = Some g) → tame (with_state f).
Proof. intros H c. cbn. apply H. Qed.
Lemma tame_when b m : tame m → tame (when b m).
Proof. intros H. destruct b; [done|apply tame_ret]. Qed.
Lemma tame_seal env p k : tame (seal_random_nonce env p k).
Proof. by apply tame_same. Qed.
Lemma tame_send env msg : tame (send env msg).
Proof. apply tame_same. intros c. rewrite send_spec. by destruct (ws_tx (state c)). Qed.
Lemma tame_for_each {A} (l : list A) f : (∀ a, tame (f a)) → tame (for_each l f).
Proof. intros H. induction l; [apply tame_ret|by apply tame_bind]. Qed.
Lemma tame_close_socket : tame close_socket.
Proof. by apply tame_state. Qed.

Create HintDb tame.
#[local] Hint Resolve tame_ret tame_gets tame_call tame_set_peers tame_when tame_seal tame_send tame_for_each
  tame_close_socket : tame.

(** Descend through binds and case analyses. *)
Ltac tame :=
  repeat first
    [ progress intros | solve [eauto with tame] | apply tame_bind
    | match goal with
      | |- tame (with_state _) => apply tame_state; intros ?; split_match; done
      | |- tame (for_each _ _) => apply tame_for_each
      | |- tame (when _ _) => apply tame_when
      | |- tame (match ?x with _ => _ end) => destruct x
      end ].

Lemma tame_broadcast env : tame (broadcast_daemon_public_key to_string cfg env).
Proof. unfold broadcast_daemon_public_key. tame. Qed.
#[local] Hint Resolve tame_broadcast : tame.

Lemma tame_handle_frame frame : tame (handle_frame from_slice frame).
Proof.
  intros c. pose proof (handle_frame_spec from_slice frame c) as H. unfold run in H. rewrite H.
  by destruct (reader _ _ _) as [[]|].
Qed.
#[local] Hint Resolve tame_handle_frame : tame.

Lemma tame_handle_message env msg : tame (handle_message to_string from_slice cfg env msg).
Proof.
  destruct msg; cbn [handle_message]; unfold handle_auth_ok, handle_kx_frame, handle_relay_err; tame.
Qed.

Lemma tame_on_open env : tame (on_open cfg env).
Proof. unfold on_open. tame. Qed.

Lemma tame_ping env : tame (_ ← send env (Ping (Some (now_ms env))); mret tt).
Proof. tame. Qed.

Lemma tame_closing : tame (with_state (set_authenticated false);; call OnDisconnected).
Proof. tame. Qed.

Lemma tame_send_encrypted env fid sid seq v : tame (send_encrypted to_string env fid sid seq v).
Proof. unfold send_encrypted. tame. Qed.
#[local] Hint Resolve tame_send_encrypted : tame.

Lemma tame_owner_call env o : tame (owner_call env o).
Proof.
  destruct o; cbn [owner_call]; unfold publish_record, publish_state, publish_removed, broadcast_encrypted,
    publish_to_peer, send_unpair_notice, send_rename_notice, send_control, send_push, subscribe, unsubscribe; tame.
Qed.

(** ** One connection at a time *)

(** The tasks that are, or will lead to, a connection, with the generation of
    those that have one. *)
Definition carrier (t : Task) : option (option N) :=
  match t with
  | KConnect | KDerive | KRecheck | KCleanup | KBump | KSchedule | KPlan => Some None
  | KDial g | KChecked g | KInstall g | KRead g | KHandle g _ | KClosing g | KSleep g _ => Some (Some g)
  | KReset | KOpen | KPing0 | KPing1 | KPing _ | KDispose | KDisposeCleanup | KDone => None
  end.
Definition carriers (ts : list Task) : list (option N) := omap carrier ts.

Definition current (c : Client) (x : option N) : Prop := ∀ g, x = Some g → g = generation (state c).

Lemma life_run {A} (m : M A) c : tame m →
  disposed (state (m c).2) = disposed (state c) ∧ generation (state (m c).2) = generation (state c) ∧
  ∀ g, ws_tx (state (m c).2) = Some g → ws_tx (state c) = Some g.
Proof. intros H. destruct (H c) as [H1 H2]. by injection H1 as -> ->. Qed.

(** What one step does to the connection it carries, if any. *)
Definition step_ok (c : Client) (t : Task) (c' : Client) (t' : Task) (new : list Task) : Prop :=
  (disposed (state c) = true → disposed (state c') = true) ∧
  length (option_list (carrier t') ++ carriers new) ≤ length (option_list (carrier t)) ∧
  (disposed (state c') = false → t ≠ KDisposeCleanup → KDisposeCleanup ∉ t' :: new) ∧
  KBump ∉ new ∧
  match carrier t with
  | Some x =>
      disposed (state c') = false → current c x → (∀ g, ws_tx (state c) = Some g → g = generation (state c) ∧ t ≠ KBump) →
      (∃ y, option_list (carrier t') ++ carriers new = [y] ∧ current c' y) ∧
      (∀ g, ws_tx (state c') = Some g → g = generation (state c') ∧ t' ≠ KBump)
  | None =>
      t ≠ KDisposeCleanup →
      generation (state c') = generation (state c) ∧ t' ≠ KBump ∧
      ∀ g, ws_tx (state c') = Some g → ws_tx (state c) = Some g
  end.

(** A step that leaves the state alone and goes on within the same carrier. *)
Lemma step_stay c t t' x :
  carrier t = Some x → t' ≠ KDisposeCleanup → t' ≠ KBump → length (option_list (carrier t')) ≤ 1 →
  (disposed (state c) = false → current c x → ∃ y, carrier t' = Some y ∧ current c y) →
  step_ok c t c t' [].
Proof.
  intros Ht Hd Hb Hl Hy. unfold step_ok. rewrite Ht, app_nil_r. split_and!; try done; [set_solver|set_solver|].
  intros Hdis Hx Hws. destruct (Hy Hdis Hx) as (y & -> & Hcur). split; [by exists y|].
  intros g Hg. split; [by apply Hws|done].
Qed.

Lemma step_idle c t c' t' new :
  carrier t = None → carrier t' = None → carriers new = [] → KDisposeCleanup ∉ new → KBump ∉ new → t' ≠ KBump →
  t' ≠ KDisposeCleanup → life (state c') = life (state c) →
  (∀ g, ws_tx (state c') = Some g → ws_tx (state c) = Some g) → step_ok c t c' t' new.
Proof.
  intros Ht Ht' Hn Hd Hb Hb' Hd' Hl Hws. injection Hl as Hl1 Hl2. unfold step_ok. rewrite Ht, Ht', Hn.
  split_and!; try done; first [congruence|set_solver].
Qed.

Lemma task_step_ok ch c t : t ≠ KDone → let r := task_step ch c t in step_ok c t r.1.1 r.1.2 r.2.
Proof.
  intros Hd. cbv zeta. destruct t as [ | | | | |g|g|g| | |g|g msg|g| | |g d| | |g| | |]; cbv [task_step run_read_loop_step on_close_step wake_step ping_step]; try done.
  - apply (step_stay c KConnect _ None); try done; destruct (disposed (state c)); cbn; eauto; congruence.
  - unfold run, derive_section. rewrite client_bind_run, gets_run. cbn [fst snd]. destruct (kx_key c); cbn;
      (split_and!; try done; [set_solver|set_solver|]); intros Hdis Hx Hws; (split; [by exists None|]);
      intros g Hg; by destruct (Hws g Hg).
  - apply (step_stay c KRecheck _ None); try done; destruct (disposed (state c)); cbn; eauto; congruence.
  - split_and!; try done; [set_solver|set_solver|]. cbn. intros Hdis Hx Hws. split; [by exists None|done].
  - split_and!; try done; [set_solver|set_solver|]. cbn. intros Hdis Hx Hws. split; [eexists; split; [done|]; by intros g [= <-]|].
    intros g Hg. by destruct (Hws g Hg).
  - destruct (ch_dial ch); cbn.
    + apply (step_stay c (KDial g) _ (Some g)); try done; cbn; eauto.
    + split_and!; try done; [set_solver|set_solver|]. cbn. intros Hdis Hx Hws. split; [by exists None|].
      intros g' Hg. by destruct (Hws g' Hg).
  - apply (step_stay c (KChecked g) _ (Some g)); try done; destruct (disposed (state c) || _) eqn:E; cbn; try lia; try done.
    + intros Hdis Hx. rewrite Hdis in E. cbn in E. apply bool_decide_eq_true_1 in E. by destruct E; rewrite (Hx g).
    + eauto.
  - split_and!; try done; [set_solver|set_solver|]. cbn. intros Hdis Hx Hws. split; [by exists (Some g)|].
    intros g' [= <-]. split; [by apply Hx|done].
  - apply step_idle; try done; set_solver.
  - apply step_idle; try done; [set_solver|set_solver|apply (tame_on_open (ch_env ch) c)|apply (tame_on_open (ch_env ch) c)].
  - case_bool_decide as E; [|destruct (ch_input ch)]; cbn;
      apply (step_stay c (KRead g) _ (Some g)); try done; cbn; eauto. intros _ Hx. by destruct E; rewrite (Hx g).
  - destruct (life_run _ c (tame_handle_message (ch_env ch) msg)) as (Hl1 & Hl2 & Hl3). unfold run.
    set (c' := (handle_message _ _ _ _ msg c).2) in *. clearbody c'.
    destruct (is_auth_ok msg); cbn; (split_and!; [congruence|cbn; lia|intros _ _; set_solver +|set_solver +|]);
      unfold current; rewrite Hl2; intros Hdis Hx Hws; (split; [by exists (Some g)|]); intros g' Hg%Hl3; by destruct (Hws g' Hg).
  - case_bool_decide as E; cbn.
    + apply (step_stay c (KClosing g) _ (Some g)); try done; [cbn; lia|]. intros _ Hx. by destruct E; rewrite (Hx g).
    + split_and!; try done; [set_solver|set_solver|]. cbn. intros Hdis Hx Hws. split; [by exists None|].
      intros g' Hg. by destruct (Hws g' Hg).
  - apply (step_stay c KSchedule _ None); try done; destruct (disposed (state c)); cbn; eauto; congruence.
  - destruct (plan_section (state c)) as [delay st'] eqn:E. injection E as _ <-. cbn.
    split_and!; try done; [set_solver|set_solver|]. cbn. intros Hdis Hx Hws. split; [eexists; split; [done|]; by intros g [= <-]|].
    intros g Hg. by destruct (Hws g Hg).
  - apply (step_stay c (KSleep g d) _ (Some g)); try done; destruct (disposed (state c) || _) eqn:E; cbn; try lia; try done.
    + intros Hdis Hx. rewrite Hdis in E. cbn in E. apply bool_decide_eq_true_1 in E. by destruct E; rewrite (Hx g).
    + intros _ _. by exists None.
  - apply step_idle; try done; destruct (disposed (state c)); set_solver.
  - apply step_idle; try done; set_solver.
  - destruct (disposed (state c) || _); cbn; apply step_idle; try done; try set_solver;
      apply (tame_ping (ch_env ch) c).
  - split_and!; try done. set_solver.
  - split_and!; try done; set_solver.
Qed.

Definition pool_inv (p : Pool) : Prop :=
  let st := state (client p) in
  length (carriers (tasks p)) ≤ 1 ∧
  (disposed st = false →
     KDisposeCleanup ∉ tasks p ∧
     (∃ x, carriers (tasks p) = [x] ∧ current (client p) x) ∧
     ∀ g, ws_tx st = Some g → g = generation st ∧ KBump ∉ tasks p).

Lemma carriers_app l k : carriers (l ++ k) = carriers l ++ carriers k.
Proof. apply omap_app. Qed.
Lemma carriers_cons t l : carriers (t :: l) = option_list (carrier t) ++ carriers l.
Proof. unfold carriers. cbn. by destruct (carrier t). Qed.

Lemma not_bump_of_no_carrier l : carriers l = [] → KBump ∉ l.
Proof.
  intros H Hin. assert (None ∈ carriers l) as Hn by (apply list_elem_of_omap; by exists KBump).
  rewrite H in Hn. by apply not_elem_of_nil in Hn.
Qed.

Lemma pool_inv_internal p p' : internal p p' → pool_inv p → pool_inv p'.
Proof.
  intros H. destruct H as [c ts i t ch c' t' new Hi Ht E]. unfold pool_inv. cbn [client tasks].
  destruct (task_step_ok ch c t Ht) as (Hdis & Hlen & Hcl & Hnb & Hcar). rewrite E in Hdis, Hlen, Hcl, Hnb, Hcar.
  cbn [fst snd] in *. destruct (insert_split ts i t t' Hi) as (l & r & -> & ->).
  rewrite <-app_assoc. cbn [app]. rewrite !carriers_app, !carriers_cons, !carriers_app.
  intros [Hl H0]. rewrite !length_app in *. split; [lia|]. intros Hd'.
  destruct (disposed (state c)) eqn:Hd; [by rewrite Hdis in Hd'|]. destruct (H0 eq_refl) as (Hnc & (x & Hx & Hcur) & Hws).
  assert (t ≠ KDisposeCleanup) as Htc by (intros ->; apply Hnc; set_solver). specialize (Hcl Hd' Htc).
  split; [set_solver|]. destruct (carrier t) as [y|] eqn:Ey.
  - apply (f_equal length) in Hx as Hx'. rewrite !length_app in Hx'. cbn in Hx'.
    assert (carriers l = []) as Hcl' by (apply nil_length_inv; lia). assert (carriers r = []) as Hcr by (apply nil_length_inv; lia).
    rewrite Hcl', Hcr in *. cbn in Hx. injection Hx as ->.
    destruct (Hcar Hd' Hcur ltac:(intros g Hg; split; [by apply Hws|]; intros ->; apply (Hws g Hg); set_solver))
      as ((z & Hz & Hcz) & Hws'). rewrite !app_nil_l. split; [by exists z|].
    intros g Hg. destruct (Hws' g Hg) as [-> Hb]. split; [done|].
    pose proof (not_bump_of_no_carrier l Hcl'). pose proof (not_bump_of_no_carrier r Hcr). set_solver.
  - destruct (Hcar Htc) as (Hg & Hb & Hw). cbn in Hlen.
    assert (option_list (carrier t') = [] ∧ carriers new = []) as [-> ->] by (split; apply nil_length_inv; lia).
    cbn in *. rewrite app_nil_r. split; [exists x; split; [done|]; intros g ->; by rewrite Hg; apply Hcur|].
    intros g Hws'%Hw. destruct (Hws g Hws') as [-> Hk]. split; [done|]. set_solver.
Qed.

Lemma pool_inv_external p p' : external p p' → pool_inv p → pool_inv p'.
Proof.
  intros H. destruct H as [env o c ts|c ts]; unfold pool_inv; cbn [client tasks]; intros [Hl H0].
  - destruct (life_run _ c (tame_owner_call env o)) as (H1 & H2 & H3). unfold run, current in *. rewrite H1, H2.
    split; [done|]. intros Hd. destruct (H0 Hd) as (Hn & Hx & Hws). split_and!; try done. intros g Hg%H3. by apply Hws.
  - rewrite carriers_app, app_nil_r. split; [done|]. intros Hd. destruct (H0 Hd) as (Hn & Hx & Hws).
    split_and!; [set_solver|done|]. intros g Hg. destruct (Hws g Hg). split; [done|set_solver].
Qed.

Lemma pool_inv_step p p' : pool_step p p' → pool_inv p → pool_inv p'.
Proof. intros [? ? H|? ? H]; [by apply pool_inv_internal|by apply pool_inv_external]. Qed.

Lemma pool_inv_init : pool_inv pool_init.
Proof. split; [cbn; lia|]. intros _. split; [set_solver|]. split; [by exists None|done]. Qed.

Lemma pool_inv_reach p : rtc pool_step pool_init p → pool_inv p.
Proof.
  intros H. assert (pool_inv pool_init) as H0 by apply pool_inv_init. revert H0.
  induction H as [|p1 p2 p3 H12 _ IH]; [done|]. intros H1. apply IH. by apply (pool_inv_step p1).
Qed.

(** C6. One connection at a time, and never none.  Under every interleaving of
    sockets, dials, timers, handled messages and the owner's calls, a client that
    is not disposed of has exactly one task that dials, reads, or waits to
    reconnect, and that one belongs to the current generation; the outbound
    channel, when there is one, feeds the current socket.  So no two sockets of a
    pairing are ever open together, and the reconnect loop cannot die. *)
Theorem single_flight p :
  rtc pool_step pool_init p →
  length (carriers (tasks p)) ≤ 1 ∧
  (disposed (state (client p)) = false →
     (∃ x, carriers (tasks p) = [x] ∧ ∀ g, x = Some g → g = generation (state (client p))) ∧
     ∀ g, ws_tx (state (client p)) = Some g → g = generation (state (client p))).
Proof.
  intros H. destruct (pool_inv_reach p H) as [Hl H0]. split; [done|]. intros Hd.
  destruct (H0 Hd) as (_ & Hx & Hws). split; [done|]. intros g Hg. by apply Hws.
Qed.

(** ** A lost connection comes back *)

(** How many steps of its carrier a client is from an open socket, when the
    network answers. *)
Definition rank (t : Task) : nat :=
  match t with
  | KHandle _ _ => 13 | KRead _ => 12 | KClosing _ => 11 | KSchedule => 10 | KPlan => 9 | KSleep _ _ => 8
  | KConnect => 7 | KDerive => 6 | KRecheck => 5 | KCleanup => 4 | KBump => 3 | KDial _ => 2 | KChecked _ => 1
  | _ => 0
  end.
Definition bumps (t : Task) : N := match t with KCleanup | KBump => 1 | _ => 0 end.
Definition is_install (t : Task) : bool := match t with KInstall _ => true | _ => false end.

Ltac advance := cbn; rewrite ?N.add_0_r; split_and!; [by left|by eexists|done..].

Lemma carrier_advance c t x :
  carrier t = Some x → current c x → disposed (state c) = false → is_install t = false →
  ∃ ch t', let r := task_step ch c t in
    (t' = r.1.2 ∨ t' ∈ r.2) ∧ is_Some (carrier t') ∧ rank t = S (rank t') ∧
    disposed (state r.1.1) = false ∧ generation (state r.1.1) = (generation (state c) + bumps t)%N.
Proof.
  intros Hc Hx Hd Hi.
  set (ch i := mkChoice (mkEnv 0 (λ _, true) (λ _, [])) true i).
  assert (∀ g, x = Some g → bool_decide (generation (state c) ≠ g) = false) as Hg
    by (intros g Eg; rewrite (Hx g Eg); apply bool_decide_eq_false_2; intros H; by apply H).
  destruct t; try done; injection Hc as <-; cbv [task_step run_read_loop_step on_close_step wake_step ping_step]; rewrite ?Hd, ?(Hg _ eq_refl); cbn [bumps rank].
  - exists (ch INoise), KDerive. advance.
  - exists (ch INoise), KRecheck. unfold run, derive_section. rewrite client_bind_run, gets_run. cbn [fst snd].
    destruct (kx_key c); advance.
  - exists (ch INoise), KCleanup. advance.
  - exists (ch INoise), KBump. advance.
  - exists (ch INoise), (KDial (generation (state c) + 1)). advance.
  - exists (ch INoise), (KChecked g). advance.
  - exists (ch INoise), (KInstall g). advance.
  - exists (ch IClosed), (KClosing g). advance.
  - exists (ch INoise), (KRead g). destruct (life_run _ c (tame_handle_message (ch_env (ch INoise)) msg)) as (H1 & H2 & _).
    unfold run. cbn [fst snd]. rewrite H1, H2. advance.
  - exists (ch INoise), KSchedule. cbn. rewrite N.add_0_r. split_and!; [right; left|by eexists|done..].
  - exists (ch INoise), KPlan. advance.
  - destruct (plan_section (state c)) as [delay st'] eqn:E. injection E as _ <-.
    eexists (ch INoise), _. cbn. rewrite N.add_0_r. split_and!; [by left|by eexists|done..].
  - exists (ch INoise), KConnect. advance.
Qed.

(** The same, within a pool. *)
Lemma pool_advance p t :
  pool_inv p → disposed (state (client p)) = false → t ∈ tasks p → is_Some (carrier t) → is_install t = false →
  ∃ p' t', internal p p' ∧ pool_inv p' ∧ disposed (state (client p')) = false ∧ t' ∈ tasks p' ∧
    is_Some (carrier t') ∧ rank t = S (rank t') ∧
    generation (state (client p')) = (generation (state (client p)) + bumps t)%N.
Proof.
  intros I Hd Hin [x Hx] Hi. destruct p as [c ts]. cbn [client tasks] in *.
  pose proof I as [_ H0]. destruct (H0 Hd) as (_ & (y & Hy & Hcur) & _). cbn [client tasks] in *.
  assert (x = y) as <-.
  { assert (x ∈ carriers ts) as Hxc by (apply list_elem_of_omap; eauto). rewrite Hy in Hxc. set_solver. }
  destruct (carrier_advance c t x Hx Hcur Hd Hi) as (ch & t' & Ht' & Hc' & Hr & Hd' & Hg').
  destruct (task_step ch c t) as [[c' t1] new] eqn:E. cbn [fst snd] in *.
  apply list_elem_of_lookup in Hin as [i Hi']. assert (t ≠ KDone) as Hnd by by intros ->.
  assert (internal (mkPool c ts) (mkPool c' (<[i := t1]> ts ++ new))) as Hs by by eapply internal_step.
  exists (mkPool c' (<[i := t1]> ts ++ new)), t'. split_and!; try done; [by apply (pool_inv_internal (mkPool c ts))|].
  cbn. apply elem_of_app. destruct Ht' as [->|?]; [left|by right].
  apply (list_elem_of_lookup_2 _ i). apply list_lookup_insert_eq. by eapply lookup_lt_Some.
Qed.

Lemma reach_install n p t :
  pool_inv p → disposed (state (client p)) = false → t ∈ tasks p → is_Some (carrier t) → rank t = n →
  ∃ p' g, nsteps internal n p p' ∧ pool_inv p' ∧ disposed (state (client p')) = false ∧ KInstall g ∈ tasks p' ∧
    (generation (state (client p)) + (if bool_decide (2 < n)%nat then 1 else 0) ≤ generation (state (client p')))%N.
Proof.
  revert p t. induction n as [|n IH]; intros p t I Hd Hin Hc Hr.
  { destruct Hc as [x Hx]. destruct t as [ | | | | |g|g|g| | |g|g msg|g| | |g d| | |g| | |]; try done.
    exists p, g. split_and!; try done; [constructor|]. case_bool_decide; cbn in *; lia. }
  destruct (pool_advance p t I Hd Hin Hc) as (p1 & t1 & Hs & I1 & Hd1 & Hin1 & Hc1 & Hr1 & Hg1); [by destruct t|].
  destruct (IH p1 t1) as (p' & g & Hs' & I' & Hd' & Hin' & Hg'); [done..|lia|].
  exists p', g. split_and!; try done; [by eapply nsteps_l|].
  repeat case_bool_decide; try lia. assert (n = 2) as -> by lia.
  destruct t; cbn in Hr; try lia; cbn in Hg1; lia.
Qed.

(** C18. A lost connection comes back.  Whatever has happened to a client that is not
    disposed of, at most fourteen steps of its own carrier, with a timer that
    fires and a relay that accepts, lead to an open socket of the current
    generation with its reader running and the outbound channel feeding it; and
    the socket is a new one unless a dial was already under way. *)
Theorem reconnects p :
  rtc pool_step pool_init p → disposed (state (client p)) = false →
  ∃ n p', n ≤ 14 ∧ nsteps internal n p p' ∧
    let st' := state (client p') in
    disposed st' = false ∧ ws_tx st' = Some (generation st') ∧ KRead (generation st') ∈ tasks p' ∧
    (generation (state (client p)) ≤ generation st')%N ∧
    ((∀ g, KDial g ∉ tasks p ∧ KChecked g ∉ tasks p ∧ KInstall g ∉ tasks p) →
     (generation (state (client p)) < generation st')%N).
Proof.
  intros Hp Hd. pose proof (pool_inv_reach p Hp) as I. pose proof I as [_ H0].
  destruct (H0 Hd) as (_ & (x & Hx & _) & _).
  assert (x ∈ carriers (tasks p)) as (t & Hin & Ht)%list_elem_of_omap by (rewrite Hx; set_solver).
  destruct (reach_install (rank t) p t I Hd Hin ltac:(by eexists) eq_refl) as (p1 & g & Hs & I1 & Hd1 & Hin1 & Hg1).
  destruct p1 as [c ts]. cbn [client tasks] in *. pose proof I1 as [_ H1]. cbn [client tasks] in H1.
  destruct (H1 Hd1) as (_ & (y & Hy & Hcy) & _).
  assert (Some g ∈ carriers ts) as Hg by (apply list_elem_of_omap; by exists (KInstall g)).
  rewrite Hy in Hg. apply list_elem_of_singleton in Hg as <-. pose proof (Hcy g eq_refl) as ->.
  apply list_elem_of_lookup in Hin1 as [i Hi].
  exists (S (rank t)), (mkPool (run (with_state (set_ws_tx (Some (generation (state c))))) c)
                          (<[i := KReset]> ts ++ [KRead (generation (state c))])).
  split; [destruct t; cbn; lia|]. split.
  { eapply nsteps_r; [done|]. by eapply (internal_step c ts i _ (mkChoice (mkEnv 0 (λ _, true) (λ _, [])) true INoise)). }
  cbn. split_and!; try done; [set_solver|lia|]. intros Hnd. rewrite bool_decide_eq_true_2 in Hg1; [lia|].
  destruct (decide (2 < rank t)) as [|Hr]; [done|]. exfalso.
  destruct t as [ | | | | |g|g|g| | |g|g msg|g| | |g d| | |g| | |]; cbn in Hr; try lia; try done;
    by destruct (Hnd g) as (? & ? & ?).
Qed.

(** ** A disposed client goes quiet *)

(** The tasks past the last check of a dial, with their generation. *)
Definition past (t : Task) : option N :=
  match t with KInstall g | KRead g | KHandle g _ | KClosing g => Some g | _ => None end.

Definition stale (c : Client) (ts : list Task) : Prop :=
  ∀ t g, t ∈ ts → past t = Some g → (g < generation (state c))%N.

Definition dispose_inv (p : Pool) : Prop :=
  (∀ t g, t ∈ tasks p → past t = Some g → (g ≤ generation (state (client p)))%N) ∧
  (disposed (state (client p)) = true → KDisposeCleanup ∈ tasks p ∨ stale (client p) (tasks p)).

Lemma handle_life env msg c :
  life (state (run (handle_message to_string from_slice cfg env msg) c)) = life (state c).
Proof. apply (tame_handle_message env msg c). Qed.

(** Generations only grow, and a task gets past the check only with the current
    one of a client that is not disposed of. *)
Ltac past_tac :=
  cbn; split_and!;
  [ lia
  | let g := fresh in let H := fresh in intros g H; cbn in H;
    first [by apply elem_of_nil in H | apply list_elem_of_singleton in H as ->; auto]
  | auto
  | try done; try (intros; lia) ].

Lemma task_step_past ch c t :
  let r := task_step ch c t in
  (generation (state c) ≤ generation (state r.1.1))%N ∧
  (∀ g, g ∈ omap past (r.1.2 :: r.2) → past t = Some g ∨ disposed (state c) = false ∧ g = generation (state c)) ∧
  (disposed (state r.1.1) = disposed (state c) ∨ t = KDispose ∧ r.1.2 = KDisposeCleanup) ∧
  (t = KDisposeCleanup → (generation (state c) < generation (state r.1.1))%N).
Proof.
  cbv zeta. destruct t as [ | | | | |g|g|g| | |g|g msg|g| | |g d| | |g| | |]; cbv [task_step run_read_loop_step on_close_step wake_step ping_step].
  - destruct (disposed (state c)) eqn:Hds; past_tac.
  - unfold run, derive_section. rewrite client_bind_run, gets_run. cbn [fst snd]. destruct (kx_key c); past_tac.
  - destruct (disposed (state c)) eqn:Hds; past_tac.
  - past_tac.
  - past_tac.
  - destruct (ch_dial ch); past_tac.
  - destruct (disposed (state c)) eqn:Hd; [past_tac|]. cbn [orb]. case_bool_decide as Hg; [past_tac|].
    assert (g = generation (state c)) as -> by (destruct (decide (generation (state c) = g)); done). past_tac.
  - past_tac.
  - past_tac.
  - destruct (life_run _ c (tame_on_open (ch_env ch))) as (H1 & H2 & _). unfold run. cbn. rewrite H1, H2. past_tac.
  - case_bool_decide; [|destruct (ch_input ch)]; past_tac.
  - pose proof (handle_life (ch_env ch) msg c) as H. injection H as H1 H2. cbn [fst snd]. rewrite H1, H2.
    destruct (is_auth_ok msg); past_tac.
  - case_bool_decide; [past_tac|]. destruct (life_run _ c tame_closing) as (H1 & H2 & _). unfold run. cbn [fst snd].
    rewrite H1, H2. past_tac.
  - destruct (disposed (state c)) eqn:Hds; past_tac.
  - destruct (plan_section (state c)) as [delay st'] eqn:E. injection E as _ <-. past_tac.
  - destruct (disposed (state c) || _); past_tac.
  - destruct (disposed (state c)) eqn:Hds; past_tac.
  - past_tac.
  - destruct (disposed (state c) || _); cbn [fst snd]; [past_tac|].
    destruct (life_run _ c (tame_ping (ch_env ch))) as (H1 & H2 & _). unfold run. rewrite H1, H2. past_tac.
  - past_tac.
  - past_tac.
  - past_tac.
Qed.

Lemma dispose_inv_step p p' : pool_step p p' → dispose_inv p → dispose_inv p'.
Proof.
  intros H [Hb Hq]. destruct H as [? ? [c ts i t ch c' t' new Hi Ht E]|? ? [env o c ts|c ts]];
    unfold dispose_inv, stale in *; cbn [client tasks] in *.
  - pose proof (task_step_past ch c t) as (Hg & Hp & Hd & Hc). rewrite E in Hg, Hp, Hd, Hc. cbn [fst snd] in *.
    destruct (insert_split ts i t t' Hi) as (l & r & -> & ->).
    assert (∀ u g, u ∈ (l ++ t' :: r) ++ new → past u = Some g →
              (∃ v, v ∈ l ++ t :: r ∧ past v = Some g) ∨ disposed (state c) = false ∧ g = generation (state c)) as Hold.
    { intros u g Hu Hpu.
      assert (u ∈ l ++ r ∨ u ∈ t' :: new) as [Hu'|Hu'] by (rewrite !elem_of_app, !elem_of_cons in *; tauto).
      - left. exists u. split; [|done]. rewrite !elem_of_app, !elem_of_cons in *. tauto.
      - destruct (Hp g) as [?|?]; [apply list_elem_of_omap; eauto|left|by right]. exists t. split; [|done].
        apply elem_of_app. right. left. }
    split.
    + intros u g Hu Hpu. destruct (Hold u g Hu Hpu) as [(v & Hv & Hpv)|[_ ->]]; [|done].
      pose proof (Hb v g Hv Hpv). lia.
    + intros Hd'. destruct Hd as [Hd|[-> Hd]].
      * rewrite Hd in Hd'. assert (t = KDisposeCleanup ∨ t ≠ KDisposeCleanup) as [->|Hne] by (destruct t; auto).
        -- right. intros u g Hu Hpu. destruct (Hold u g Hu Hpu) as [(v & Hv & Hpv)|[? _]]; [|congruence].
           pose proof (Hb v g Hv Hpv). specialize (Hc eq_refl). lia.
        -- destruct (Hq Hd') as [Hin|Hs].
           { left. rewrite !elem_of_app, !elem_of_cons in *. destruct Hin as [?|[?|?]]; [tauto|congruence|tauto]. }
           right. intros u g Hu Hpu. destruct (Hold u g Hu Hpu) as [(v & Hv & Hpv)|[? _]]; [|congruence].
           pose proof (Hs v g Hv Hpv). lia.
      * left. rewrite Hd, !elem_of_app, !elem_of_cons. tauto.
  - destruct (life_run _ c (tame_owner_call env o)) as (H1 & H2 & _). unfold run. by rewrite H1, H2.
  - split; [|intros Hd; destruct (Hq Hd) as [?|Hs]; [left; set_solver|right]];
      intros u g Hu Hpu; apply elem_of_app in Hu as [Hu|Hu]; eauto; apply list_elem_of_singleton in Hu as ->; done.
Qed.

Lemma dispose_inv_reach p : rtc pool_step pool_init p → dispose_inv p.
Proof.
  intros H. assert (dispose_inv pool_init) as H0.
  { split; [|done]. intros t g Ht. by apply list_elem_of_singleton in Ht as ->. }
  revert H0. induction H as [|p1 p2 p3 H12 _ IH]; [done|]. intros H1. apply IH. by apply (dispose_inv_step p1).
Qed.

(** How many steps a task of a quiet client may still take, its offspring included. *)
Definition weight (t : Task) : nat :=
  match t with
  | KConnect => 11 | KDerive => 10 | KRecheck => 9 | KCleanup => 8 | KBump => 7 | KDial _ => 6 | KChecked _ => 5
  | KInstall _ => 4 | KReset => 2 | KOpen => 1
  | KRead _ => 1 | KHandle _ _ => 5 | KClosing _ => 1
  | KSchedule => 3 | KPlan => 2 | KSleep _ _ => 1
  | KPing0 => 3 | KPing1 => 2 | KPing _ => 1
  | KDispose => 2 | KDisposeCleanup => 1
  | KDone => 0
  end.

Lemma quiet_step ch c t :
  disposed (state c) = true → (∀ g, past t = Some g → (g < generation (state c))%N) → t ≠ KDone →
  let r := task_step ch c t in weight r.1.2 + sum_list_with weight r.2 < weight t.
Proof.
  intros Hd Hp Ht. cbv zeta.
  assert (∀ g, past t = Some g → bool_decide (generation (state c) ≠ g) = true) as Hs
    by (intros g Hg%Hp; apply bool_decide_eq_true_2; lia).
  destruct t as [ | | | | |g|g|g| | |g|g msg|g| | |g d| | |g| | |]; cbv [task_step run_read_loop_step on_close_step wake_step ping_step]; rewrite ?Hd; try done;
    cbn [past] in Hs; rewrite ?(Hs _ eq_refl); cbn; try lia.
  - destruct (ch_dial ch); cbn; lia.
  - destruct (is_auth_ok msg); cbn; lia.
Qed.

Definition total (p : Pool) : nat := sum_list_with weight (tasks p).

Lemma quiet_internal p p' :
  internal p p' → disposed (state (client p)) = true → stale (client p) (tasks p) →
  total p' < total p ∧ disposed (state (client p')) = true ∧ stale (client p') (tasks p').
Proof.
  intros H Hd Hs. destruct H as [c ts i t ch c' t' new Hi Ht E]. unfold total. cbn [client tasks] in *.
  pose proof (list_elem_of_lookup_2 _ _ _ Hi) as Hin.
  pose proof (quiet_step ch c t Hd (λ g, Hs t g Hin) Ht) as Hw.
  pose proof (task_step_past ch c t) as (Hg & Hp & Hdd & _). rewrite E in Hw, Hg, Hp, Hdd. cbn [fst snd] in *.
  destruct (insert_split ts i t t' Hi) as (l & r & -> & ->). split_and!.
  - rewrite !sum_list_with_app. cbn. lia.
  - destruct Hdd as [->|[-> _]]; [done|]. cbn in E. by injection E as <- _ _.
  - intros u g Hu Hpu.
    assert (u ∈ l ++ r ∨ u ∈ t' :: new) as [Hu'|Hu'] by (rewrite !elem_of_app, !elem_of_cons in *; tauto).
    + enough (g < generation (state c))%N by lia. apply (Hs u); [|done]. rewrite !elem_of_app, !elem_of_cons in *. tauto.
    + destruct (Hp g) as [?|[? _]]; [apply list_elem_of_omap; eauto| |congruence].
      pose proof (Hs t g Hin ltac:(done)). lia.
Qed.

(** A disposed client goes quiet.  Once [dispose] has run, whatever was in
    flight (a dial, a handshake, a message being handled, timers, pings) ends
    after a bounded number of steps, and the client is never revived: every
    run of its tasks has at most eleven steps per task and leaves it disposed. *)
Theorem disposed_quiesces p :
  rtc pool_step pool_init p → disposed (state (client p)) = true → KDisposeCleanup ∉ tasks p →
  ∀ n p', nsteps internal n p p' →
    n ≤ 11 * length (tasks p) ∧ disposed (state (client p')) = true.
Proof.
  intros Hp Hd Hn. destruct (dispose_inv_reach p Hp) as [_ Hq]. destruct (Hq Hd) as [?|Hs]; [done|].
  assert (total p ≤ 11 * length (tasks p)) as Ht.
  { unfold total. generalize (tasks p). intros ts. induction ts as [|t ts IH]; [done|]. cbn.
    assert (weight t ≤ 11) by (destruct t; cbn; lia). lia. }
  intros n p' H. enough (n ≤ total p ∧ disposed (state (client p')) = true) by (split; [lia|tauto]).
  clear Hp Hn Hq Ht. induction H as [p|n p p1 p' Hs1 _ IH]; [split; [lia|done]|].
  destruct (quiet_internal p p1 Hs1 Hd Hs) as (Hlt & Hd1 & Hs'). destruct (IH Hd1 Hs'). split; [lia|done].
Qed.

(** ** How long a lost connection stays away *)

(** Any plan: half an hour when throttled, else doubling from one second up to
    thirty, the attempt capped. *)
Lemma plan_bounds a p :
  let plan := compute_reconnect_plan a p in
  (3 ≤ p → delay_ms plan = 1800000 ∧ next_attempt plan = a)%N ∧
  (p < 3 → delay_ms plan = N.min (1000 * 2 ^ a) 30000 ∧ next_attempt plan ≤ 5)%N.
Proof.
  unfold compute_reconnect_plan, PEERLESS_RECONNECT_THRESHOLD. case_decide as H; (split; [|]); try lia; intros _; [done|].
  cbn [delay_ms next_attempt]. unfold MAX_RECONNECT_ATTEMPT, RECONNECT_MAX_MS, RECONNECT_BASE_MS, checked_pow2, checked_mul.
  split; [|lia]. case_decide as Ha; cbn.
  - case_decide as Hm; cbn; [f_equal; lia|]. unfold u64_modulus in Hm. lia.
  - assert (2 ^ 64 ≤ 2 ^ a)%N by (apply N.pow_le_mono_r; lia). lia.
Qed.

(** The delays between [n] dials that all fail: each plan, then the [cleanup] and
    the bump of the next [connect]. *)
Fixpoint outage (n : nat) (st : ConnState) : list N :=
  match n with
  | 0 => []
  | S n => let '(d, st) := plan_section st in
           d :: outage n (bump_generation (bump_generation (set_ws_tx None (set_had_peer false st))))
  end.

Lemma outage_throttled n st :
  had_peer_this_connection st = false → (2 ≤ peerless_reconnects st)%N →
  (peerless_reconnects st + N.of_nat n < u32_modulus)%N → outage n st = replicate n PEERLESS_RECONNECT_MS.
Proof.
  revert st. induction n as [|n IH]; intros st Hp H2 Hw; [done|]. cbn [outage]. unfold plan_section. rewrite Hp.
  unfold next_peerless_reconnects. rewrite N.mod_small by lia.
  destruct (plan_bounds (reconnect_attempt st) (peerless_reconnects st + 1)) as [H _].
  destruct (H ltac:(lia)) as [-> _]. cbn [replicate]. f_equal. apply IH; cbn; [done|lia|lia].
Qed.

(** The dead-pairing throttle counts failed dials.  A pairing whose frontend was
    connected when the relay went away waits one, two and four seconds between
    its dials, and from the fourth on half an hour each; the exponential
    backoff's cap of thirty seconds is never reached. *)
Theorem outage_delays n st :
  had_peer_this_connection st = true → reconnect_attempt st = 0%N → (N.of_nat n < u32_modulus)%N →
  outage n st = take n ([1000; 2000; 4000]%N ++ replicate n PEERLESS_RECONNECT_MS).
Proof.
  intros Hp Ha Hn. destruct n as [|n]; [done|]. cbn [outage app]. unfold plan_section at 1. rewrite Hp, Ha.
  destruct n as [|n]; [done|]. destruct n as [|n]; [done|]. cbn [outage plan_section]. rewrite !firstn_cons.
  repeat f_equal. rewrite (outage_throttled n); [|done|vm_compute; discriminate|change (2 + N.of_nat n < u32_modulus)%N; lia].
  rewrite take_replicate. f_equal. lia.
Qed.
End reconnect.

(** ** Concrete runs *)

Inductive move := MStep (i : nat) (ch : Choice) | MCall (env : Env) (o : OwnerCall) | MDispose.

Section exec.
Context {C : CryptoCrates} {HIS : HashIter string}.
Context (to_string : Value → string) (from_slice : bytes → option Value) (cfg : RelayClientConfig).

Definition exec (p : Pool) (m : move) : Pool :=
  match m with
  | MStep i ch =>
      match tasks p !! i with
      | None | Some KDone => p
      | Some t =>
          let '((c, t'), new) := task_step to_string from_slice cfg ch (client p) t in
          mkPool c (<[i := t']> (tasks p) ++ new)
      end
  | MCall env o => mkPool (run (owner_call to_string cfg env o) (client p)) (tasks p)
  | MDispose => mkPool (client p) (tasks p ++ [KDispose])
  end.

Lemma play_step p m : rtc (pool_step to_string from_slice cfg) p (exec p m).
Proof.
  destruct p as [c ts], m as [i ch|env o|]; cbn [exec client tasks].
  - destruct (ts !! i) as [t|] eqn:Ei; [|done].
    assert (t = KDone ∨ t ≠ KDone) as [->|Ht] by (destruct t; auto); [done|].
    destruct (task_step _ _ _ ch c t) as [[c' t'] new] eqn:E.
    replace (match t with KDone => _ | _ => _ end) with (mkPool c' (<[i := t']> ts ++ new)) by by destruct t.
    apply rtc_once, pool_internal. by apply (internal_step _ _ _ c ts i t ch).
  - apply rtc_once, pool_external, external_call.
  - apply rtc_once, pool_external, external_dispose.
Qed.

Lemma play_reach p ms : rtc (pool_step to_string from_slice cfg) p (foldl exec p ms).
Proof. revert p. induction ms as [|m ms IH]; intros p; [done|]. eapply rtc_trans; [apply play_step|apply IH]. Qed.
End exec.

Module Demo.
Export DaemonClient.Demo.

Definition input (i : Input) : Choice := mkChoice env true i.
Definition go (i : nat) : move := MStep i (input INoise).
Definition schedule (ms : list move) : Pool := foldl (exec to_string from_slice cfg) pool_init ms.

(** The first connection: ten steps of [connect], the reader at index 1. *)
Definition open : list move := replicate 10 (go 0).
Definition up : Pool := schedule open.

Lemma single_flight_witness :
  let p := schedule (open ++ [MStep 1 (input IClosed); go 1; go 2; go 2]) in
  carriers (tasks p) = [Some 2%N] ∧ generation (state (client p)) = 2%N.
Proof.
  cbv zeta. set (p := schedule _).
  destruct (single_flight to_string from_slice cfg p (play_reach _ _ _ _ _)) as [_ H].
  destruct (H ltac:(vm_compute; reflexivity)) as ((x & Hx & Hg) & _).
  assert (carriers (tasks p) = [Some 2%N]) as Hc by (vm_compute; reflexivity).
  split; [exact Hc|]. rewrite Hc in Hx. injection Hx as <-. symmetry. by apply Hg.
Defined.

Lemma reconnects_witness :
  ∃ p', ws_tx (state (client p')) = Some (generation (state (client p'))).
Proof.
  destruct (reconnects to_string from_slice cfg (schedule (open ++ [MStep 1 (input IClosed); go 1]))
              (play_reach _ _ _ _ _) ltac:(vm_compute; reflexivity)) as (n & p' & _ & _ & _ & H & _).
  exists p'. exact H.
Defined.

Lemma disposed_quiesces_witness :
  let p := schedule (open ++ [MDispose; go 2; go 2]) in
  let p' := mkPool (client p) [KDone; KDone; KDone] in
  tasks p = [KDone; KRead 2; KDone] ∧ nsteps (internal to_string from_slice cfg) 1 p p' ∧ 1 ≤ 33 ∧
  disposed (state (client p')) = true.
Proof.
  set (p := schedule _). cbv zeta.
  assert (tasks p = [KDone; KRead 2; KDone]) as Hl by (vm_compute; reflexivity).
  assert (disposed (state (client p)) = true) as Hd by (vm_compute; reflexivity).
  assert (bool_decide (generation (state (client p)) ≠ 2%N) = true) as Hg by (vm_compute; reflexivity).
  pose proof (play_reach to_string from_slice cfg pool_init (open ++ [MDispose; go 2; go 2])) as Hr.
  change (rtc (pool_step to_string from_slice cfg) pool_init p) in Hr. clearbody p.
  assert (nsteps (internal to_string from_slice cfg) 1 p (mkPool (client p) [KDone; KDone; KDone])) as Hs.
  { destruct p as [c ts]. cbn [client tasks] in *. subst ts. eapply nsteps_l; [|constructor].
    apply (internal_step to_string from_slice cfg c [KDone; KRead 2; KDone] 1 (KRead 2) (input INoise) c KDone []);
      [done|done|]. cbn [task_step]. unfold run_read_loop_step. by rewrite Hg. }
  split; [exact Hl|]. split; [exact Hs|].
  pose proof (disposed_quiesces to_string from_slice cfg p Hr Hd ltac:(rewrite Hl; set_solver +) 1 _ Hs) as Hn.
  rewrite Hl in Hn. exact Hn.
Defined.

Lemma outage_delays_witness :
  outage 5 (set_had_peer true ConnState_new) = [1000; 2000; 4000; 1800000; 1800000]%N.
Proof. exact (outage_delays 5 (set_had_peer true ConnState_new) eq_refl eq_refl eq_refl). Defined.

(** [dispose] between [connect]'s last check and the installation of its channel
    leaves the disposed client with a live channel, on which it registers. *)
Definition leaked : Pool := schedule (replicate 7 (go 0) ++ [MDispose; go 1; go 1] ++ replicate 3 (go 0)).

Example dispose_race_leaks_socket :
  disposed (state (client leaked)) = true ∧ ws_tx (state (client leaked)) = Some 2%N ∧
  trace (client leaked) = [Wire 2 (Register "d1" "proof" "tok" (u64_as_f64 2))].
Proof. vm_compute. done. Qed.
End Demo.
