(* ===== verification/Link.v ===== *)
(** * Link: the daemon's client against the relay's handshake.
    The turns of [DaemonClient] composed with the handlers of [Handshake]: what
    the one sends is what the other answers, through registration,
    authentication, resumption and its fallback. *)
From stdpp Require Import base list numbers strings gmap.
From Stdlib Require Import Lia NArith Ascii.
From Stdlib.Floats Require Import SpecFloat.
From S2P Require Import Prelude Bytes Json Messages Label Crypto DaemonClient.
From S2P Require Registry ResumeToken Handshake.

Section link.
Context {C : CryptoCrates} {HIS : HashIter string} {RC : ResumeToken.ResumeCrypto}.
Context (to_string : Value → string) (from_slice : bytes → option Value).
Context (cfg : RelayClientConfig).

(** The relay's answer to a handshake message ([finish_auth] and the register
    arm of [dispatch_locked] send just this back). *)
Definition relay_answer (now : N) (signer : ResumeToken.ResumeTokenSigner) (r : Registry.Registry)
    (msg : RelayClientMessage) : option (RelayServerMessage * Registry.Registry) :=
  match msg with
  | Register d p t _ => Some (Handshake.handle_register d t p now r)
  | Auth role d t _ fid => Some (Handshake.handle_auth d t (bool_decide (role = Daemon)) fid now r signer)
  | AuthResume t _ =>
      let '((reply, _), r) := Handshake.handle_auth_resume t now r signer in Some (reply, r)
  | _ => None
  end.

Definition register_msg : RelayClientMessage :=
  Register (c_daemon_id cfg) (registration_proof cfg) (c_token cfg) (u64_as_f64 2).
Definition auth_msg : RelayClientMessage := Auth Daemon (c_daemon_id cfg) (c_token cfg) (u64_as_f64 2) None.

(** The cached token, if the client would use it now. *)
Definition fresh_token (env : Env) (c : Client) : option string :=
  if SFltb (now_ms env) (resume_expires_at (state c)) then resume_token (state c) else None.

(** A client that differs at most in its trace and its count of answers. *)
Definition talks (c c' : Client) (socket : N) (msgs : list RelayClientMessage) : Prop :=
  same_but_trace c c' (Wire socket <$> msgs).

Lemma send_talks env msg c socket :
  ws_tx (state c) = Some socket → (∀ k, e_try_send env k = true) →
  talks c (run (_ ← send env msg; mret tt) c) socket [msg].
Proof. intros Hw He. unfold run. rewrite client_bind_run, send_spec, Hw. cbn. by rewrite He. Qed.

Lemma on_open_register env c socket :
  ws_tx (state c) = Some socket → (∀ k, e_try_send env k = true) → fresh_token env c = None →
  talks c (run (on_open cfg env) c) socket [register_msg].
Proof.
  intros Hw He Hf. pose proof (send_talks env register_msg c socket Hw He) as H. revert H.
  unfold run, on_open, fresh_token in *. turn. destruct (SFltb _ _) eqn:E.
  - rewrite Hf. by turn.
  - destruct (resume_token (state c)); by turn.
Qed.

Lemma on_open_resume env c socket token :
  ws_tx (state c) = Some socket → (∀ k, e_try_send env k = true) → fresh_token env c = Some token →
  let c' := run (on_open cfg env) c in
  state c' = set_resuming true (state c) ∧ peers c' = peers c ∧ kx_key c' = kx_key c ∧
  trace c' = trace c ++ [Wire socket (AuthResume token (u64_as_f64 2))].
Proof.
  intros Hw He Hf. unfold run, on_open, fresh_token in *. turn. destruct (SFltb _ _) eqn:E; [|done].
  rewrite Hf. unfold with_state. turn. rewrite send_spec. cbn. rewrite Hw. cbn. by rewrite He.
Qed.

Lemma subscribe_all env sids c socket :
  ws_tx (state c) = Some socket → (∀ k, e_try_send env k = true) →
  talks c (run (for_each sids (λ sid, _ ← send env (Subscribe sid None); mret tt)) c) socket
    ((λ sid, Subscribe sid None) <$> sids).
Proof.
  intros Hw He. revert c Hw. induction sids as [|sid sids IH]; intros c Hw; [split_and!; try done; cbn; by rewrite app_nil_r|].
  unfold run. cbn [for_each]. rewrite client_bind_run. pose proof (send_talks env (Subscribe sid None) c socket Hw He) as H1.
  unfold run in H1. destruct ((_ ← send env (Subscribe sid None); mret tt) c) as [[] c1]. cbn [fst snd] in *.
  assert (ws_tx (state c1) = Some socket) as Hw1 by (destruct H1 as (-> & _); done).
  exact (same_trans c c1 _ [_] _ H1 (IH c1 Hw1)).
Qed.

(** The state after a successful authentication. *)
Definition authed_state (ok : AuthOkP) (st : ConnState) : ConnState :=
  set_resuming false
    (match ao_resume_token ok, ao_resume_expires_at ok with
     | Some t, Some e => set_resume (Some t) e (set_authenticated true st)
     | _, _ => set_authenticated true st
     end).

Lemma auth_ok_spec env ok c socket :
  ws_tx (state c) = Some socket → (∀ k, e_try_send env k = true) →
  let c' := run (handle_message to_string from_slice cfg env (AuthOk ok)) c in
  ∃ kx, state c' = authed_state ok (state c) ∧ peers c' = peers c ∧
    trace c' = trace c ++ [Call OnConnected]
                 ++ (Wire socket <$> ((λ sid, Subscribe sid None) <$> set_iter (subscribed_sessions (state c)))) ++ kx ∧
    (ao_resumed ok = Some true → peers c ≠ ∅ → kx = []) ∧
    Forall (λ e, ∃ ct, e = Wire socket (KeyExchange ct Daemon)) kx.
Proof.
  intros Hw He. unfold run. cbn [handle_message]. unfold handle_auth_ok, with_state, call. turn.
  cbn [state peers kx_key trace used].
  set (st := set_resuming false _). assert (st = authed_state ok (state c)) as Est by done.
  assert (subscribed_sessions st = subscribed_sessions (state c) ∧ ws_tx st = Some socket) as [Esub Ews].
  { rewrite Est. unfold authed_state. destruct (ao_resume_token ok), (ao_resume_expires_at ok); done. }
  clearbody st. rewrite Esub.
  set (c1 := mkClient st (peers c) (kx_key c) (trace c ++ [Call OnConnected]) (used c)).
  pose proof (subscribe_all env (set_iter (subscribed_sessions (state c))) c1 socket Ews He) as Hs. unfold run in Hs.
  destruct (for_each _ _ c1) as [[] c2]. cbn [fst snd] in *. destruct Hs as (S1 & S2 & S3 & S4).
  destruct (default false (ao_resumed ok) && bool_decide (0 < size (peers c2))) eqn:Er; cbn [negb when].
  - exists []. cbn. rewrite app_nil_r, S1, S2, S4. cbn. by rewrite <-app_assoc, Est.
  - assert (ao_resumed ok = Some true → peers c ≠ ∅ → False) as Hno.
    { intros E Hp. rewrite E, S2 in Er. cbn in Er. apply bool_decide_eq_false_1 in Er.
      apply Hp, map_size_empty_inv. cbn in Er. lia. }
    destruct (kx_key c2) as [key|] eqn:Ek.
    + destruct (broadcast_spec to_string cfg env key c2 Ek) as (sent & (B1 & B2 & _ & es & B4 & Bs) & _).
      unfold run in *. exists es. rewrite B1, B2, B4, S1, S2, S4. cbn. rewrite Est, <-!app_assoc.
      split_and!; try done; [tauto|]. destruct sent; [|by rewrite Bs].
      destruct Bs as (g & ct & n & Hg & _ & ->). rewrite S1 in Hg. cbn in Hg. rewrite Ews in Hg. injection Hg as <-.
      repeat constructor. by exists ct.
    + exists []. unfold broadcast_daemon_public_key. turn. rewrite Ek. turn. rewrite S1, S2, S4, app_nil_r. cbn.
      rewrite Est, <-app_assoc. by split_and!.
Qed.

Lemma register_ok env c msg socket :
  ws_tx (state c) = Some socket → (∀ k, e_try_send env k = true) →
  talks c (run (handle_message to_string from_slice cfg env (RegisterOk msg)) c) socket [auth_msg].
Proof. apply send_talks. Qed.

Lemma relay_registers now signer r :
  Registry.capacity_reached r (c_daemon_id cfg) = false →
  Registry.proof_conflict r (c_daemon_id cfg) (registration_proof cfg) = false →
  ∃ r1, relay_answer now signer r register_msg = Some (RegisterOk (c_daemon_id cfg), r1) ∧
    Registry.valid_tokens r1 !! c_token cfg = Some (c_daemon_id cfg) ∧
    is_Some (Registry.registrations r1 !! c_daemon_id cfg).
Proof.
  intros Hc Hp. eexists. split; [|split].
  - cbn. unfold Handshake.handle_register. rewrite Registry.register_cases, Hc, Hp. reflexivity.
  - apply lookup_insert_eq.
  - cbn. rewrite lookup_insert_eq. by eexists.
Qed.

Lemma relay_authenticates now signer r :
  Registry.valid_tokens r !! c_token cfg = Some (c_daemon_id cfg) →
  ∃ issued r2, relay_answer now signer r auth_msg
      = Some (Handshake.auth_ok_reply (c_daemon_id cfg) issued false, r2) ∧
    issued = ResumeToken.issue signer (ResumeToken.PDaemon (c_daemon_id cfg) 0) now None ∧
    Registry.online <$> Registry.daemon_states r2 !! c_daemon_id cfg = Some true.
Proof.
  intros Hv. eexists _, (Registry.handle_auth r (c_daemon_id cfg) (c_token cfg) true now).2.
  unfold relay_answer, auth_msg, Handshake.handle_auth. rewrite bool_decide_eq_true_2 by done.
  cbn [Handshake.frontend_id_missing negb andb]. unfold Registry.handle_auth. rewrite decide_True by done.
  split_and!; [reflexivity|done|]. cbn [snd andb].
  assert (Registry.online <$> Registry.daemon_states
            (Registry.upsert_daemon_state r (c_daemon_id cfg) true (Some (c_token cfg)) now) !! c_daemon_id cfg = Some true) as H.
  { unfold Registry.upsert_daemon_state. cbn. rewrite lookup_insert_eq. cbn. unfold Registry.state_or_seed.
    by destruct (Registry.daemon_states r !! _) as [[? ? ? ? []]|]. }
  by destruct (bool_decide _).
Qed.

(** The daemon always gets through.  On an open socket and without a fresh
    resume token, a client whose credentials the relay accepts (its id is free and
    there is room, or it is registered with the same proof) completes the
    handshake in two round trips, whatever its own history: each of its messages
    is answered by what its next turn expects, at the end it is authenticated,
    online at the relay, holds the issued resume token, and has subscribed again
    to every session it was subscribed to. *)
Theorem link_up env now signer r c socket :
  ws_tx (state c) = Some socket → (∀ k, e_try_send env k = true) → fresh_token env c = None →
  Registry.capacity_reached r (c_daemon_id cfg) = false →
  Registry.proof_conflict r (c_daemon_id cfg) (registration_proof cfg) = false →
  let react := λ reply c, run (handle_message to_string from_slice cfg env reply) c in
  let c1 := run (on_open cfg env) c in
  ∃ reply1 r1 reply2 r2,
    trace c1 = trace c ++ [Wire socket register_msg] ∧
    relay_answer now signer r register_msg = Some (reply1, r1) ∧
    let c2 := react reply1 c1 in
    trace c2 = trace c1 ++ [Wire socket auth_msg] ∧
    relay_answer now signer r1 auth_msg = Some (reply2, r2) ∧
    let c3 := react reply2 c2 in
    authenticated (state c3) = true ∧ ws_tx (state c3) = Some socket ∧
    (let issued := ResumeToken.issue signer (ResumeToken.PDaemon (c_daemon_id cfg) 0) now None in
     resume_token (state c3) = Some issued.1 ∧ resume_expires_at (state c3) = u64_as_f64 issued.2) ∧
    Call OnConnected ∈ trace c3 ∧
    (∀ sid, sid ∈ subscribed_sessions (state c) → Wire socket (Subscribe sid None) ∈ trace c3) ∧
    Registry.online <$> Registry.daemon_states r2 !! c_daemon_id cfg = Some true.
Proof.
  intros Hw He Hf Hc Hp react c1.
  destruct (relay_registers now signer r Hc Hp) as (r1 & A1 & Hv & _).
  destruct (relay_authenticates now signer r1 Hv) as (issued & r2 & A2 & -> & Hon).
  destruct (on_open_register env c socket Hw He Hf) as (O1 & O2 & O3 & O4). fold c1 in O1, O2, O3, O4.
  eexists _, r1, _, r2. split; [done|]. split; [done|]. cbv zeta.
  assert (ws_tx (state c1) = Some socket) as Hw1 by by rewrite O1.
  destruct (register_ok env c1 (c_daemon_id cfg) socket Hw1 He) as (T1 & T2 & T3 & T4). fold (react (RegisterOk (c_daemon_id cfg)) c1) in *.
  set (c2 := react _ c1) in *. split; [done|]. split; [exact A2|].
  assert (ws_tx (state c2) = Some socket) as Hw2 by by rewrite T1.
  set (issued := ResumeToken.issue _ _ _ _).
  destruct (auth_ok_spec env (mkAuthOk (c_daemon_id cfg) (Some issued.1) (Some (u64_as_f64 issued.2)) (Some false))
              c2 socket Hw2 He) as (kx & S1 & S2 & S3 & _).
  change (AuthOk _) with (Handshake.auth_ok_reply (c_daemon_id cfg) issued false) in S1, S2, S3.
  fold (react (Handshake.auth_ok_reply (c_daemon_id cfg) issued false) c2) in S1, S2, S3. rewrite S1, S3. cbn. rewrite Hw2. split_and!; try done.
  - set_solver.
  - intros sid Hsid. rewrite T1, O1. apply elem_of_app. right. apply elem_of_cons. right. apply elem_of_app. left.
    apply list_elem_of_fmap. exists (Subscribe sid None). split; [done|]. apply list_elem_of_fmap. exists sid. split; [done|].
    by apply elem_of_set_iter.
Qed.

(** The relay honours a resume token: it verifies, and its daemon is registered. *)
Definition honoured (now : N) (signer : ResumeToken.ResumeTokenSigner) (r : Registry.Registry) (token : string) : bool :=
  match ResumeToken.verify signer token now with
  | Some p => bool_decide (is_Some (Registry.registrations r !! ResumeToken.daemon_id p))
  | None => false
  end.

Lemma relay_resumes now signer r token v :
  ∃ reply r', relay_answer now signer r (AuthResume token v) = Some (reply, r') ∧
    if honoured now signer r token then ∃ ok, reply = AuthOk ok ∧ ao_resumed ok = Some true
    else (∃ e, reply = AuthErr e) ∧ r' = r.
Proof.
  cbn. unfold Handshake.handle_auth_resume, honoured. destruct (ResumeToken.verify signer token now) as [p|].
  - unfold Registry.handle_auth_resume. destruct (Registry.registrations r !! ResumeToken.daemon_id p) as [g|] eqn:E.
    + rewrite bool_decide_eq_true_2 by by eexists. eexists _, _. split; [reflexivity|]. by eexists.
    + rewrite bool_decide_eq_false_2 by by intros []. eexists _, _. split; [reflexivity|]. eauto.
  - eexists _, _. split; [reflexivity|]. eauto.
Qed.

(** C14. Resumption and its fallback. A client with a fresh token offers it first. If the
    relay honours it, one round trip authenticates the client, and the frontends it had
    are kept without a new key exchange. If not (the relay restarted with another secret,
    the daemon was evicted, the token expired there), the client forgets the token and
    gives up the socket, and on any later socket it opens with the full registration, so
    one rejected token costs one connection and is never offered twice. (The outboxes are
    taken to have room.) *)
Theorem resume_or_fall_back env now signer r c socket token :
  ws_tx (state c) = Some socket → (∀ k, e_try_send env k = true) → fresh_token env c = Some token →
  let c1 := run (on_open cfg env) c in
  ∃ reply r',
    trace c1 = trace c ++ [Wire socket (AuthResume token (u64_as_f64 2))] ∧
    relay_answer now signer r (AuthResume token (u64_as_f64 2)) = Some (reply, r') ∧
    let c2 := run (handle_message to_string from_slice cfg env reply) c1 in
    if honoured now signer r token then
      authenticated (state c2) = true ∧ ws_tx (state c2) = Some socket ∧ peers c2 = peers c ∧
      (peers c ≠ ∅ → ∀ ct, Wire socket (KeyExchange ct Daemon) ∈ trace c2 → Wire socket (KeyExchange ct Daemon) ∈ trace c)
    else
      r' = r ∧ trace c2 = trace c1 ∧ ws_tx (state c2) = None ∧ resuming (state c2) = false ∧
      ∀ env' c' socket', ws_tx (state c') = Some socket' → resume_token (state c') = resume_token (state c2) →
        (∀ k, e_try_send env' k = true) →
        trace (run (on_open cfg env') c') = trace c' ++ [Wire socket' register_msg].
Proof.
  intros Hw He Hf c1. destruct (on_open_resume env c socket token Hw He Hf) as (O1 & O2 & O3 & O4). fold c1 in O1, O2, O3, O4.
  destruct (relay_resumes now signer r token (u64_as_f64 2)) as (reply & r' & A & Hh).
  exists reply, r'. split; [done|]. split; [done|]. cbv zeta. destruct (honoured now signer r token).
  - destruct Hh as (ok & -> & Hres). assert (ws_tx (state c1) = Some socket) as Hw1 by by rewrite O1.
    destruct (auth_ok_spec env ok c1 socket Hw1 He) as (kx & S1 & S2 & S3 & S4 & _). rewrite S1, S2, S3. split_and!.
    + unfold authed_state. by destruct (ao_resume_token ok), (ao_resume_expires_at ok).
    + unfold authed_state. rewrite O1. by destruct (ao_resume_token ok), (ao_resume_expires_at ok).
    + done.
    + intros Hp ct. rewrite S4, O4 by (done || by rewrite O2). rewrite app_nil_r.
      intros [[?|Hin]%elem_of_app|[?|Hin]%elem_of_app]%elem_of_app; [done|set_solver|set_solver|].
      apply list_elem_of_fmap in Hin as (m & [= <-] & Hm). apply list_elem_of_fmap in Hm as (sid & ? & _). done.
  - destruct Hh as [[e ->] ->]. unfold run. cbn [handle_message]. unfold with_state, close_socket. turn. rewrite O1. cbn.
    split_and!; try done. intros env' c' socket' Hw' Ht' He'.
    assert (fresh_token env' c' = None) as Hf' by (unfold fresh_token; rewrite Ht'; by destruct (SFltb _ _)).
    destruct (on_open_register env' c' socket' Hw' He' Hf') as (_ & _ & _ & Ht4). exact Ht4.
Qed.
End link.

Module Demo.
Export DaemonClient.Demo.
#[export] Instance resume_crates : ResumeToken.ResumeCrypto := ResumeToken.demo_crypto.

Definition signer : ResumeToken.ResumeTokenSigner := ResumeToken.new (Some (replicate 32 "s"%char)) (Some 5000%N) [].
Definition empty : Registry.Registry := Registry.with_max_registrations 4.

Lemma link_up_witness :
  ∃ reply1 r1 reply2 r2,
    relay_answer 1000 signer empty (register_msg cfg) = Some (reply1, r1) ∧
    relay_answer 1000 signer r1 (auth_msg cfg) = Some (reply2, r2) ∧
    Registry.online <$> Registry.daemon_states r2 !! "d1" = Some true.
Proof.
  destruct (link_up to_string from_slice cfg env 1000 signer empty client0 1 eq_refl ltac:(done) eq_refl
              eq_refl eq_refl) as (a & r1 & b & r2 & _ & H1 & _ & H2 & _ & _ & _ & _ & _ & H3).
  exists a, r1, b, r2. auto.
Defined.

(** A client with a token of another relay's secret. *)
Definition client_stale : Client :=
  mkClient (set_resume (Some "token") (u64_as_f64 9000) (state client0)) ∅ (kx_key client0) [] 0.

Lemma resume_or_fall_back_witness :
  let c1 := run (on_open cfg env) client_stale in
  ∃ reply, relay_answer 1000 signer empty (AuthResume "token" (u64_as_f64 2)) = Some (reply, empty) ∧
    ws_tx (state (run (handle_message to_string from_slice cfg env reply) c1)) = None.
Proof.
  cbv zeta.
  destruct (resume_or_fall_back to_string from_slice cfg env 1000 signer empty client_stale 1 "token" eq_refl
              ltac:(done) eq_refl) as (reply & r' & _ & H1 & H2).
  assert (honoured 1000 signer empty "token" = false) as E by (vm_compute; reflexivity). rewrite E in H2.
  destruct H2 as (-> & _ & H2 & _). exists reply. split; [exact H1|exact H2].
Defined.
End Demo.
