(* ===== verification/Pending.v ===== *)
(** * Pending: one pairing, from the bundle to its outcome.
    [tp-daemon/src/pairing/random_pairing_bundle.rs] and [pending_pairing.rs]; the
    relay client a pairing owns is named by its index, its configuration is the
    one [DaemonClient] runs with. *)
From stdpp Require Import base list numbers strings.
From Stdlib Require Import Lia NArith Ascii.
From S2P Require Import Prelude Bytes Text Codec Crypto Pairing Label DaemonClient.
From S2P Require Store.

Definition RELAY_CHANNEL_META : string := "__meta__".

(** What the operating system's generator and clock give to one [begin]. *)
Record Entropy := mkEntropy {
  ent_secret_key : bytes; ent_pairing_secret : bytes; ent_uuid : bytes; ent_suffix : N; ent_now_ms : N
}.
Definition entropy_ok (e : Entropy) : Prop :=
  length (ent_secret_key e) = 32 ∧ length (ent_pairing_secret e) = 32 ∧ length (ent_uuid e) = 16.

(** [format!("{n:x}")] *)
Fixpoint lower_hex_go (fuel : nat) (n : N) : string :=
  match fuel with
  | O => ""
  | S fuel => (if decide (n < 16)%N then "" else lower_hex_go fuel (n / 16)) +:+ String (hex_digit (n mod 16)) ""
  end.
Definition lower_hex (n : N) : string := lower_hex_go (S (N.size_nat n)) n.

(** [TpError::to_string] *)
Definition error_text (e : TpError) : string :=
  match e with
  | Codec.Frame m => "frame error: " +:+ m
  | Codec.Codec m => "codec error: " +:+ m
  | Codec.InvalidInput m => "invalid input: " +:+ m
  | Codec.Crypto m => "crypto error: " +:+ m
  | Codec.Pairing m => "pairing error: " +:+ m
  end.

Record PairingBundle := mkBundle {
  b_qr_string : string; b_key_pair : KxKeyPair; b_pairing_secret : bytes;
  b_relay_token : string; b_pairing_id : string; b_hostname : string
}.

Record PendingPairingOptions := mkOpts { o_relay_url : string; o_daemon_id : string; o_label : Label; o_hostname : string }.

Record PendingPairingCompleted := mkCompleted {
  pc_frontend_id : string; pc_daemon_id : string; pc_relay_url : string; pc_relay_token : string;
  pc_registration_proof : string; pc_key_pair : KxKeyPair; pc_pairing_secret : bytes; pc_label : Label;
  pc_pairing_id : string; pc_hostname : string
}.

Inductive PendingPairingResult := Completed (c : PendingPairingCompleted) | Cancelled.

Record PendingPairing := mkPending {
  pp_pairing_id : string;                    (* the slot's own id, for cancellation *)
  pp_opts : PendingPairingOptions;
  pp_relay : option nat;
  pp_key_pair : option KxKeyPair;
  pp_pairing_secret : option bytes;
  pp_relay_token : string;
  pp_registration_proof : string;
  pp_qr_string : string;
  pp_wire_pairing_id : string;
  pp_wire_hostname : string;
  pp_settled : bool;
  pp_resolved : option PendingPairingResult
}.

Record BeginOutcome := mkOutcome { bo_pairing_id : string; bo_qr_string : string; bo_daemon_id : string }.

Section pending.
Context {C : CryptoCrates} {P : PairingCrates}.

Definition kx_random_keypair (sk : bytes) : KxKeyPair := mkKeyPair (x25519_base sk) sk.

Definition random_uuid_string (raw : bytes) : string :=
  let h := as_bytes (hex_encode raw) in
  let part lo hi := str_of_bytes (slice h lo hi) in
  part 0 8 +:+ "-" +:+ part 8 12 +:+ "-" +:+ part 12 16 +:+ "-" +:+ part 16 20 +:+ "-" +:+ part 20 32.

Definition random_pairing_bundle (ent : Entropy) (relay_url daemon_id hostname : string) : result PairingBundle TpError :=
  let key_pair := kx_random_keypair (ent_secret_key ent) in
  let pairing_secret := ent_pairing_secret ent in
  let relay_token := derive_relay_token pairing_secret in
  let pairing_id := random_uuid_string (ent_uuid ent) in
  let? qr_string := encode_pairing_data
    (mkPairing (b64std_encode pairing_secret) (b64std_encode (public_key key_pair)) relay_url daemon_id 4 pairing_id hostname) in
  Ok (mkBundle qr_string key_pair pairing_secret relay_token pairing_id hostname).

Definition pending_new (ent : Entropy) (opts : PendingPairingOptions) : PendingPairing :=
  mkPending ("pp-" +:+ lower_hex (ent_now_ms ent) +:+ "-" +:+ lower_hex (ent_suffix ent)) opts None None None "" "" "" "" ""
    false None.

(** The configuration of the client it creates ([CreateRelayClientArgs], then
    [build_relay_client_for_pairing]). *)
Definition client_config (pp : PendingPairing) (key_pair : KxKeyPair) (pairing_secret : bytes) : RelayClientConfig :=
  mkConfig (o_relay_url (pp_opts pp)) (o_daemon_id (pp_opts pp)) (pp_relay_token pp) (pp_registration_proof pp)
    key_pair pairing_secret (Some (o_label (pp_opts pp))) (pp_wire_pairing_id pp) (pp_wire_hostname pp).

(** [begin] up to the creation of the relay client, with its configuration. *)
Definition begin_bundle (ent : Entropy) (pp : PendingPairing) : result (PendingPairing * RelayClientConfig) string :=
  match random_pairing_bundle ent (o_relay_url (pp_opts pp)) (o_daemon_id (pp_opts pp)) (o_hostname (pp_opts pp)) with
  | Err e => Err (error_text e)
  | Ok b =>
      let pp := mkPending (pp_pairing_id pp) (pp_opts pp) (pp_relay pp) (Some (b_key_pair b)) (Some (b_pairing_secret b))
        (b_relay_token b) (derive_registration_proof (b_pairing_secret b)) (b_qr_string b) (b_pairing_id b) (b_hostname b)
        (pp_settled pp) (pp_resolved pp) in
      if pp_settled pp then Err "pairing cancelled before relay creation"
      else Ok (pp, client_config pp (b_key_pair b) (b_pairing_secret b))
  end.

Definition set_relay (k : option nat) (pp : PendingPairing) : PendingPairing :=
  mkPending (pp_pairing_id pp) (pp_opts pp) k (pp_key_pair pp) (pp_pairing_secret pp) (pp_relay_token pp)
    (pp_registration_proof pp) (pp_qr_string pp) (pp_wire_pairing_id pp) (pp_wire_hostname pp) (pp_settled pp) (pp_resolved pp).

(** [begin] after [connect] has returned; the client is then subscribed to the
    meta and control channels. *)
Definition begin_finish (pp : PendingPairing) : result BeginOutcome string :=
  if pp_settled pp then Err "pairing cancelled during relay connect"
  else Ok (mkOutcome (pp_pairing_id pp) (pp_qr_string pp) (o_daemon_id (pp_opts pp))).

Definition mark_completed (frontend_id : string) (pp : PendingPairing) : PendingPairing :=
  if pp_settled pp then pp
  else
    match pp_key_pair pp, pp_pairing_secret pp with
    | Some key_pair, Some pairing_secret =>
        mkPending (pp_pairing_id pp) (pp_opts pp) (pp_relay pp) (pp_key_pair pp) (pp_pairing_secret pp) (pp_relay_token pp)
          (pp_registration_proof pp) (pp_qr_string pp) (pp_wire_pairing_id pp) (pp_wire_hostname pp) true
          (Some (Completed (mkCompleted frontend_id (o_daemon_id (pp_opts pp)) (o_relay_url (pp_opts pp)) (pp_relay_token pp)
             (pp_registration_proof pp) key_pair pairing_secret (o_label (pp_opts pp)) (pp_wire_pairing_id pp)
             (pp_wire_hostname pp))))
    | _, _ => pp
    end.

Definition completed (pp : PendingPairing) : bool :=
  match pp_resolved pp with Some (Completed _) => true | _ => false end.

(** [cancel]: the pairing, and the client it disposes of. *)
Definition cancel (pp : PendingPairing) : PendingPairing * option nat :=
  if pp_settled pp then (pp, None)
  else (mkPending (pp_pairing_id pp) (pp_opts pp) None None None (pp_relay_token pp) (pp_registration_proof pp)
          (pp_qr_string pp) (pp_wire_pairing_id pp) (pp_wire_hostname pp) true (Some Cancelled), pp_relay pp).

Definition release_relay (pp : PendingPairing) : PendingPairing * option nat := (set_relay None pp, pp_relay pp).

(** [SavePairingInput] of a completed pairing ([DaemonOrchDeps::save_pairing]). *)
Definition save_input (c : PendingPairingCompleted) : Store.SavePairingInput :=
  Store.mkSave (pc_daemon_id c) (pc_relay_url c) (pc_relay_token c) (pc_registration_proof c)
    (public_key (pc_key_pair c)) (secret_key (pc_key_pair c)) (pc_pairing_secret c) (Some (pc_label c))
    (pc_pairing_id c) (pc_hostname c).

(** [to_array_32]: cut or padded with zeros. *)
Definition to_array_32 (b : bytes) : bytes := take 32 b ++ replicate (32 - length b) zero.

(** The configuration [reconnect_saved] builds from a stored pairing. *)
Definition saved_config (p : Store.StoredPairing) : RelayClientConfig :=
  mkConfig (Store.sp_relay_url p) (Store.sp_daemon_id p) (Store.sp_relay_token p) (Store.sp_registration_proof p)
    (mkKeyPair (to_array_32 (Store.sp_public_key p)) (to_array_32 (Store.sp_secret_key p)))
    (Store.sp_pairing_secret p) (Some (Store.sp_label p)) (Store.sp_pairing_id p) (Store.sp_hostname p).

(** ** Facts *)

Lemma uuid_is_formatted raw : random_uuid_string raw = format_uuid raw.
Proof. done. Qed.

Lemma to_array_32_id b : length b = 32 → to_array_32 b = b.
Proof. intros H. unfold to_array_32. rewrite H. cbn. rewrite app_nil_r. by apply take_ge; lia. Qed.

Lemma cancel_spec pp :
  let '(pp', k) := cancel pp in
  pp_settled pp' = true ∧ (pp_settled pp = false → k = pp_relay pp ∧ pp_relay pp' = None ∧ pp_resolved pp' = Some Cancelled) ∧
  (pp_settled pp = true → pp' = pp ∧ k = None).
Proof. unfold cancel. by destruct (pp_settled pp) eqn:E. Qed.
End pending.

(** ** What the link tells a frontend *)

Section link.
Context {C : CryptoCrates} {L : CryptoLaws C} {P : PairingCrates} {PL : PairingLaws C P}.

(** What a frontend that scanned the link knows. *)
Record Scanned := mkScanned { sc_secret : bytes; sc_daemon_pk : bytes; sc_relay : string; sc_daemon_id : string;
  sc_pairing_id : string; sc_hostname : string }.

Definition scan_link (url : string) : option Scanned :=
  match decode_pairing_data url with
  | Ret (Ok d) =>
      match b64std_decode (ps d), b64std_decode (pk d) with
      | Ok s, Ok k => Some (mkScanned s k (relay d) (did d) (Pairing.pairing_id d) (Pairing.hostname d))
      | _, _ => None
      end
  | _ => None
  end.

Lemma begin_bundle_inv ent pp pp' cfg :
  begin_bundle ent pp = Ok (pp', cfg) →
  let kp := kx_random_keypair (ent_secret_key ent) in
  pp_settled pp = false ∧
  encode_pairing_data (mkPairing (b64std_encode (ent_pairing_secret ent)) (b64std_encode (public_key kp))
    (o_relay_url (pp_opts pp)) (o_daemon_id (pp_opts pp)) 4 (random_uuid_string (ent_uuid ent)) (o_hostname (pp_opts pp)))
    = Ok (pp_qr_string pp') ∧
  pp' = mkPending (pp_pairing_id pp) (pp_opts pp) (pp_relay pp) (Some kp) (Some (ent_pairing_secret ent))
    (derive_relay_token (ent_pairing_secret ent)) (derive_registration_proof (ent_pairing_secret ent)) (pp_qr_string pp')
    (random_uuid_string (ent_uuid ent)) (o_hostname (pp_opts pp)) false (pp_resolved pp) ∧
  cfg = client_config pp' kp (ent_pairing_secret ent).
Proof.
  unfold begin_bundle, random_pairing_bundle. destruct (encode_pairing_data _) as [qr|] eqn:Eq; [|done]. cbn.
  destruct (pp_settled pp) eqn:Es; [done|]. by intros [= <- <-].
Qed.

(** The link is the configuration.  Whoever scans the link of a pairing that
    began learns exactly what the daemon's client runs with: the pairing secret (and
    so the relay token, the registration proof and the key-exchange key derived
    from it), the daemon's public key, its id, the pairing id that enters the
    confirmation tag and the host name; and the relay, the production relay's
    spellings becoming its canonical URL. *)
Theorem link_is_config ent pp pp' cfg :
  is_str (o_daemon_id (pp_opts pp)) → is_str (o_relay_url (pp_opts pp)) → is_str (o_hostname (pp_opts pp)) →
  entropy_ok ent → begin_bundle ent pp = Ok (pp', cfg) →
  scan_link (pp_qr_string pp') =
    Some (mkScanned (pairing_secret cfg) (public_key (key_pair cfg)) (relay_back (relay_url cfg)) (c_daemon_id cfg)
            (pairing_id cfg) (hostname cfg)) ∧
  derive_relay_token (pairing_secret cfg) = c_token cfg ∧
  derive_registration_proof (pairing_secret cfg) = registration_proof cfg ∧
  public_key (key_pair cfg) = x25519_base (secret_key (key_pair cfg)).
Proof.
  intros Hd Hr Hh (_ & _ & Hu) Hb. destruct (begin_bundle_inv ent pp pp' cfg Hb) as (_ & He & Hpp & ->). clear Hb.
  destruct pp'. cbn in Hpp, He. injection Hpp as -> -> -> -> -> -> -> -> -> -> ->.
  pose proof (λ a b c, decode_encoded _ _ a b c He) as D. destruct (D Hd Hr Hh) as (raw & Hraw & Hlen & Hdec). split; [|done].
  unfold scan_link. cbn [pp_qr_string]. rewrite Hdec. cbn [ps pk relay did Pairing.pairing_id Pairing.hostname].
  rewrite !b64std_decode_encode. cbn [Pairing.pairing_id] in Hraw. rewrite uuid_is_formatted, parse_format_uuid in Hraw by done.
  injection Hraw as <-. done.
Qed.
End link.

(** ** A concrete pairing *)

Module Demo.
#[local] Existing Instance Pairing.Demo.crates.
#[local] Existing Instance Pairing.Demo.pairing_crates.
#[local] Existing Instance Pairing.Demo.laws.
#[local] Existing Instance Pairing.Demo.pairing_laws.

Definition ent : Entropy :=
  mkEntropy (replicate 32 "s"%char) (replicate 32 "p"%char) (replicate 16 "u"%char) 255 1000.
Definition opts : PendingPairingOptions := mkOpts "wss://relay.example" "daemon-1" (Set_ "Mac") "host".

Lemma link_is_config_witness :
  ∃ pp cfg, begin_bundle ent (pending_new ent opts) = Ok (pp, cfg) ∧
    scan_link (pp_qr_string pp) =
      Some (mkScanned (replicate 32 "p"%char) (public_key (key_pair cfg)) "wss://relay.example" "daemon-1" (pairing_id cfg) "host").
Proof.
  destruct (begin_bundle ent (pending_new ent opts)) as [[pp cfg]|m] eqn:Eb; [|by vm_compute in Eb].
  exists pp, cfg. split; [reflexivity|].
  destruct (link_is_config ent (pending_new ent opts) pp cfg) as [Hl _];
    [vm_compute; reflexivity..|by split_and!|exact Eb|].
  rewrite Hl. apply begin_bundle_inv in Eb as (_ & _ & Epp & ->). rewrite Epp. vm_compute. reflexivity.
Defined.
End Demo.
