(* ===== verification/PairRuntime.v ===== *)
(** * PairRuntime: the single pairing slot and the tasks around it.
    [tp-daemon/src/pairing/orchestrator.rs] and [PairingRuntime] of
    [tp-daemon/src/daemon.rs].  The orchestrator sits behind an asynchronous lock
    that [begin] holds while its relay client connects; every other holder is done
    in one section.  A task's step is such a section, or what it does between two
    of them.  [remove_pairing] of the relay manager is one step here. *)
From stdpp Require Import base list numbers strings gmap relations.
From Stdlib Require Import Lia NArith ZArith Ascii.
From S2P Require Import Prelude Bytes Text Codec Crypto Pairing Label DaemonClient Pending.
From S2P Require Ipc Store StoreLaws.

Inductive BeginPairingError := AlreadyPending | DaemonIdTaken | RelayUnreachable (message : string).

Definition reason (e : BeginPairingError) : string :=
  match e with
  | AlreadyPending => "already-pending" | DaemonIdTaken => "daemon-id-taken" | RelayUnreachable _ => "relay-unreachable"
  end.
Definition begin_error_text (e : BeginPairingError) : string :=
  match e with RelayUnreachable m => "relay-unreachable: " +:+ m | _ => reason e end.
Definition ipc_reason (e : BeginPairingError) : Ipc.IpcPairBeginErrReason :=
  match e with
  | AlreadyPending => Ipc.BeginAlreadyPending
  | DaemonIdTaken => Ipc.BeginDaemonIdTaken
  | RelayUnreachable _ => Ipc.BeginRelayUnreachable
  end.

(** [safe_hostname]: what the system answers, unless it is too long for the link. *)
Definition safe_hostname (os : option string) : string :=
  match os with Some h => if decide (str_len h ≤ 255) then h else "" | None => "" end.

Definition generated_daemon_id (now_ms : N) : string := "daemon-" +:+ lower_hex now_ms.

Inductive Effect :=
| Sent (runner : N) (m : Ipc.IpcMessage)
| Connected (client : nat) | Subscribed (client : nat) (sid : string) | Disposed (client : nat) | Pooled (client : nat).

(** The orchestrator, its deps, and what the handlers share.  Relay clients are
    numbered as they are created; the join signal a client's wrapped
    [on_frontend_joined] records into has the client's number. *)
Record World := mkWorld {
  pending : option PendingPairing;
  join_signal : option nat;
  lock : bool;                              (* held by a [begin] that is connecting *)
  owner : option N;
  clients : list RelayClientConfig;
  signals : gmap nat string;
  disposed : gset nat;
  pool : list nat;
  store : Store.Store;
  last_save_error : option Store.StoreError;
  trace : list Effect
}.

Definition set_slot p j w := mkWorld p j (lock w) (owner w) (clients w) (signals w) (disposed w) (pool w) (store w)
  (last_save_error w) (trace w).
Definition set_lock b w := mkWorld (pending w) (join_signal w) b (owner w) (clients w) (signals w) (disposed w) (pool w) (store w)
  (last_save_error w) (trace w).
Definition set_owner o w := mkWorld (pending w) (join_signal w) (lock w) o (clients w) (signals w) (disposed w) (pool w) (store w)
  (last_save_error w) (trace w).
Definition add_client cfg w := mkWorld (pending w) (join_signal w) (lock w) (owner w) (clients w ++ [cfg]) (signals w) (disposed w)
  (pool w) (store w) (last_save_error w) (trace w).
Definition set_signals g w := mkWorld (pending w) (join_signal w) (lock w) (owner w) (clients w) g (disposed w) (pool w) (store w)
  (last_save_error w) (trace w).
Definition set_pool l w := mkWorld (pending w) (join_signal w) (lock w) (owner w) (clients w) (signals w) (disposed w) l (store w)
  (last_save_error w) (trace w).
Definition set_store st b w := mkWorld (pending w) (join_signal w) (lock w) (owner w) (clients w) (signals w) (disposed w) (pool w) st
  b (trace w).
Definition emit es w := mkWorld (pending w) (join_signal w) (lock w) (owner w) (clients w) (signals w) (disposed w) (pool w) (store w)
  (last_save_error w) (trace w ++ es).
Definition dispose (k : option nat) (w : World) : World :=
  match k with
  | Some k => mkWorld (pending w) (join_signal w) (lock w) (owner w) (clients w) (signals w) (disposed w ∪ {[k]}) (pool w) (store w)
                (last_save_error w) (trace w ++ [Disposed k])
  | None => w
  end.

Definition world_new (st : Store.Store) : World := mkWorld None None false None [] ∅ ∅ [] st None [].

Inductive Task :=
| TBegin (runner : N) (relay_url : string) (daemon_id : option string) (label : option Label)
| TConnecting (runner : N) (pp : PendingPairing) (client : nat)
| TBegun (runner : N) (info : BeginOutcome)
| TWatch (runner : N) (pairing_id daemon_id : string)
| TPromoted (runner : N) (pairing_id daemon_id : string) (completed : PendingPairingCompleted)
| TUnwind (runner : N) (pairing_id : string)
| TCancel (pairing_id : option string)
| TStop
| TDone.

Record Choice := mkChoice { ch_ent : Entropy; ch_hostname : option string; ch_store : Store.Env }.

Section runtime.
Context {C : CryptoCrates} {P : PairingCrates} {E : Store.SqlEngine}.
Context (save_error_text : string).       (* what SQLite says of a failed save *)

(** [JoinSignal::record]: the first one stays. *)
Definition record (client : nat) (frontend_id : string) (w : World) : World :=
  match signals w !! client with
  | Some _ => w
  | None => set_signals (<[client := frontend_id]> (signals w)) w
  end.

(** [daemon_id_taken]; a query that fails counts as an empty table. *)
Definition daemon_id_taken (env : Store.Env) (daemon_id : string) (w : World) : bool * World :=
  let '(r, st) := Store.list_pairings env (store w) in
  let l := match r with Ok l => l | Err _ => [] end in
  (existsb (λ p, String.eqb (Store.ps_daemon_id p) daemon_id) l, set_store st (last_save_error w) w).

(** [orchestrator.begin] up to the await: refused, or a client that connects. *)
Definition begin_section (ch : Choice) (relay_url : string) (daemon_id : option string) (label : option Label) (w : World)
  : result (PendingPairing * nat) BeginPairingError * World :=
  match pending w with
  | Some _ => (Err AlreadyPending, w)
  | None =>
      let daemon_id := match daemon_id with Some d => d | None => generated_daemon_id (ent_now_ms (ch_ent ch)) end in
      let '(taken, w) := daemon_id_taken (ch_store ch) daemon_id w in
      if taken : bool then (Err DaemonIdTaken, w)
      else
        let pp := pending_new (ch_ent ch)
          (mkOpts relay_url daemon_id (match label with Some l => l | None => Unset end) (safe_hostname (ch_hostname ch))) in
        match begin_bundle (ch_ent ch) pp with
        | Err m => (Err (RelayUnreachable m), dispose (cancel pp).2 w)
        | Ok (pp, cfg) =>
            let k := length (clients w) in
            (Ok (set_relay (Some k) pp, k), emit [Connected k] (add_client cfg w))
        end
  end.

(** [orchestrator.begin] from the end of the await on. *)
Definition begun_section (pp : PendingPairing) (k : nat) (w : World) : result BeginOutcome BeginPairingError * World :=
  match begin_finish pp with
  | Ok info =>
      (Ok info, set_slot (Some pp) (Some k)
         (emit [Subscribed k RELAY_CHANNEL_META; Subscribed k RELAY_CHANNEL_CONTROL] w))
  | Err m => (Err (RelayUnreachable m), dispose (cancel pp).2 w)
  end.

(** One window of [wait_for_join]. *)
Definition wait_for_join (w : World) : World :=
  match join_signal w with
  | None => w
  | Some k =>
      match signals w !! k with
      | Some frontend_id => set_slot (mark_completed frontend_id <$> pending w) (join_signal w) w
      | None => w
      end
  end.

Definition resolved (w : World) : option PendingPairingResult := pending w ≫= pp_resolved.

Definition orch_cancel (pairing_id : option string) (w : World) : World :=
  match pending w with
  | None => w
  | Some pp =>
      if match pairing_id with Some pid => bool_decide (pp_pairing_id pp ≠ pid) | None => false end then w
      else if completed pp then w
      else let '(_, k) := cancel pp in set_slot None None (dispose k w)
  end.

Definition save_pairing (env : Store.Env) (c : PendingPairingCompleted) (w : World) : World :=
  let '(r, st) := Store.save_pairing env (save_input c) (store w) in
  set_store st (match r with Ok _ => last_save_error w | Err e => Some e end) w.

Definition register_client (k : nat) (w : World) : World := emit [Pooled k] (set_pool (pool w ++ [k]) w).

Definition promote (env : Store.Env) (c : PendingPairingCompleted) (w : World) : World :=
  let w := save_pairing env c w in
  let w := match pending w with
           | Some pp => match (release_relay pp).2 with Some k => register_client k w | None => w end
           | None => w
           end in
  set_slot None None w.

Definition clear_pending (w : World) : World :=
  match pending w with
  | None => set_slot None None w
  | Some pp => set_slot None None (dispose (release_relay pp).2 w)
  end.

Definition stop (w : World) : World :=
  match pending w with
  | None => set_slot None None w
  | Some pp =>
      let '(pp', k) := cancel pp in
      set_slot None None (dispose (release_relay pp').2 (dispose k w))
  end.

(** The relay manager's [remove_pairing] without notice: the row first, then the client. *)
Definition remove_pairing (env : Store.Env) (daemon_id : string) (w : World) : World :=
  let client := head (filter (λ k, c_daemon_id <$> clients w !! k = Some daemon_id) (pool w)) in
  let w := set_store (Store.delete_pairing env daemon_id (store w)).2 (last_save_error w) w in
  match client with
  | Some k => set_pool (filter (λ j, j ≠ k) (pool w)) (dispose (Some k) w)
  | None => w
  end.

Definition clear_owner_if (runner : N) (w : World) : World :=
  if decide (owner w = Some runner) then set_owner None w else w.

Inductive WatchOutcome := Promoted (c : PendingPairingCompleted) | CancelledOurs | StillPending.

(** The locked part of one tick of [watch_pending]. *)
Definition watch_section (env : Store.Env) (w : World) : WatchOutcome * World :=
  let w := wait_for_join w in
  match resolved w with
  | Some (Completed c) => (Promoted c, promote env c w)
  | Some Cancelled => (CancelledOurs, w)
  | None => (match pending w with Some _ => StillPending | None => CancelledOurs end, w)
  end.

(** *** Tasks *)

(** A task's next step; [None] while the lock it needs is held. *)
Definition task_step (ch : Choice) (w : World) (t : Task) : option (World * Task) :=
  match t with
  | TBegin runner relay_url daemon_id label =>
      if lock w then None
      else
        Some (match begin_section ch relay_url daemon_id label w with
              | (Ok (pp, k), w) => (set_lock true w, TConnecting runner pp k)
              | (Err e, w) => (emit [Sent runner (Ipc.PairBeginErr (ipc_reason e) (Some (begin_error_text e)))] w, TDone)
              end)
  | TConnecting runner pp k =>
      let '(r, w) := begun_section pp k w in
      let w := set_lock false w in
      Some (match r with
            | Ok info => (w, TBegun runner info)
            | Err e => (emit [Sent runner (Ipc.PairBeginErr (ipc_reason e) (Some (begin_error_text e)))] w, TDone)
            end)
  | TBegun runner info =>
      Some (emit [Sent runner (Ipc.PairBeginOk (bo_pairing_id info) (bo_qr_string info) (bo_daemon_id info))]
              (set_owner (Some runner) w),
            TWatch runner (bo_pairing_id info) (bo_daemon_id info))
  | TWatch runner pairing_id daemon_id =>
      if lock w then None
      else
        Some (match watch_section (ch_store ch) w with
              | (StillPending, w) => (w, t)
              | (CancelledOurs, w) => (emit [Sent runner (Ipc.PairCancelled pairing_id)] (clear_owner_if runner w), TDone)
              | (Promoted c, w) => (w, TPromoted runner pairing_id daemon_id c)
              end)
  | TPromoted runner pairing_id daemon_id c =>
      let w := clear_owner_if runner w in
      Some (match last_save_error w with
            | Some _ => (remove_pairing (ch_store ch) daemon_id (set_store (store w) None w), TUnwind runner pairing_id)
            | None => (emit [Sent runner (Ipc.PairCompleted pairing_id daemon_id (pc_label c))] w, TDone)
            end)
  | TUnwind runner pairing_id =>
      if lock w then None
      else Some (emit [Sent runner (Ipc.PairError pairing_id Ipc.PairInternal (Some save_error_text))] (clear_pending w), TDone)
  | TCancel pairing_id => if lock w then None else Some (orch_cancel pairing_id w, TDone)
  | TStop => if lock w then None else Some (stop w, TDone)
  | TDone => None
  end.

(** What reaches the daemon: IPC messages, a runner's disconnect, a frontend that
    completed its key exchange with a client, shutdown. *)
Inductive Event :=
| EPairBegin (runner : N) (relay_url : string) (daemon_id : option string) (label : option Label)
| EPairCancel (runner : N) (pairing_id : string)
| EDisconnect (runner : N)
| EJoined (client : nat) (frontend_id : string)
| EStop.

(** [handle_pair_cancel], [handle_cli_disconnect] and the callback. *)
Definition on_event (e : Event) (w : World) : World * list Task :=
  match e with
  | EPairBegin runner relay_url daemon_id label => (w, [TBegin runner relay_url daemon_id label])
  | EPairCancel runner pairing_id =>
      (w, match owner w with
          | Some o => if decide (o = runner) then [TCancel (Some pairing_id)] else []
          | None => [TCancel (Some pairing_id)]
          end)
  | EDisconnect runner => if decide (owner w = Some runner) then (set_owner None w, [TCancel None]) else (w, [])
  | EJoined client frontend_id => (if decide (client < length (clients w)) then record client frontend_id w else w, [])
  | EStop => (w, [TStop])
  end.

Inductive pool_step : World * list Task → World * list Task → Prop :=
| step_task w ts i t ch w' t' :
    ts !! i = Some t → task_step ch w t = Some (w', t') → pool_step (w, ts) (w', <[i := t']> ts)
| step_event w ts e : pool_step (w, ts) ((on_event e w).1, ts ++ (on_event e w).2).
End runtime.

(** ** Custody of the relay clients *)

Section custody.
Context {C : CryptoCrates} {P : PairingCrates} {E : Store.SqlEngine} (save_error_text : string).
Local Abbreviation task_step := (task_step save_error_text).
Local Abbreviation pool_step := (pool_step save_error_text).

(** The begins that are connecting. *)
Definition connecting (ts : list Task) : list (PendingPairing * nat) :=
  omap (λ t, match t with TConnecting _ pp k => Some (pp, k) | _ => None end) ts.
#[local] Arguments connecting : simpl never.

(** A pairing under way owns a live client, outside the pool, that runs with its
    configuration. *)
Definition owns (w : World) (pp : PendingPairing) (k : nat) : Prop :=
  pp_relay pp = Some k ∧ pp_settled pp = false ∧ pp_resolved pp = None ∧ k ∉ disposed w ∧ k ∉ pool w ∧
  ∃ kp secret, pp_key_pair pp = Some kp ∧ pp_pairing_secret pp = Some secret ∧
    clients w !! k = Some (client_config pp kp secret).

Record inv (s : World * list Task) : Prop := mkInv {
  i_lock : connecting s.2 = [] ∧ lock s.1 = false ∨
    ∃ pp k, connecting s.2 = [(pp, k)] ∧ lock s.1 = true ∧ pending s.1 = None ∧ owns s.1 pp k;
  i_slot : match pending s.1 with
           | Some pp => ∃ k, join_signal s.1 = Some k ∧ owns s.1 pp k
           | None => join_signal s.1 = None
           end;
  i_cover : ∀ k, k < length (clients s.1) → k ∈ disposed s.1 ∨ k ∈ pool s.1 ∨
    (pending s.1 ≫= pp_relay) = Some k ∨ k ∈ snd <$> connecting s.2;
  i_pool : NoDup (pool s.1) ∧ ∀ k, k ∈ pool s.1 → k < length (clients s.1) ∧ k ∉ disposed s.1;
  i_disposed : ∀ k, k ∈ disposed s.1 → k < length (clients s.1)
}.

(** What the invariant reads of the world. *)
Definition same_core (w w' : World) : Prop :=
  pending w' = pending w ∧ join_signal w' = join_signal w ∧ lock w' = lock w ∧ clients w' = clients w ∧
  disposed w' = disposed w ∧ pool w' = pool w.

Lemma inv_frame w ts w' ts' :
  same_core w w' → connecting ts' = connecting ts → inv (w, ts) → inv (w', ts').
Proof.
  intros (E1 & E2 & E3 & E4 & E5 & E6) Ec [I1 I2 I3 I4 I5]. cbn in *.
  split; cbn; rewrite ?E1, ?E2, ?E3, ?E4, ?E5, ?E6, ?Ec; unfold owns in *; rewrite ?E4, ?E5, ?E6; done.
Qed.

Lemma connecting_insert ts i t t' :
  ts !! i = Some t → ∃ l r, ts = l ++ t :: r ∧ connecting ts = connecting l ++ connecting [t] ++ connecting r ∧
    connecting (<[i := t']> ts) = connecting l ++ connecting [t'] ++ connecting r.
Proof.
  intros Hi. destruct (insert_split ts i t t' Hi) as (l & r & -> & Er). rewrite Er. exists l, r. split; [done|].
  unfold connecting. rewrite !omap_app. cbn. split; [by destruct t|by destruct t'].
Qed.

Lemma connecting_same ts i t t' :
  ts !! i = Some t → connecting [t'] = connecting [t] → connecting (<[i := t']> ts) = connecting ts.
Proof. intros Hi Ht. destruct (connecting_insert ts i t t' Hi) as (l & r & _ & -> & ->). by rewrite Ht. Qed.

(** The slot's client goes: into the pool, or out of life. *)
Lemma owns_lt w pp k : owns w pp k → k < length (clients w).
Proof. intros (_ & _ & _ & _ & _ & kp & s & _ & _ & H). by eapply lookup_lt_Some. Qed.

Lemma inv_slot_disposed w w' ts ts' pp k :
  inv (w, ts) → pending w = Some pp → owns w pp k → connecting ts' = connecting ts →
  pending w' = None → join_signal w' = None → lock w' = lock w → clients w' = clients w →
  disposed w' = disposed w ∪ {[k]} → pool w' = pool w → inv (w', ts').
Proof.
  intros [I1 I2 I3 I4 I5] Hp Ho Ec E1 E2 E3 E4 E5 E6. pose proof (owns_lt w pp k Ho) as Hk.
  destruct Ho as (Hr & _ & _ & Hd & Hpl & _). cbn in *. split; cbn; rewrite ?E1, ?E2, ?E3, ?E4, ?E5, ?E6, ?Ec.
  - destruct I1 as [?|(pp' & k' & _ & _ & ? & _)]; [by left|congruence].
  - done.
  - intros j Hj. rewrite Hp in I3. cbn in I3. destruct (I3 j Hj) as [?|[?|[Ej|?]]]; [set_solver|tauto|set_solver|tauto].
  - split; [apply I4|]. intros j Hj. split; [by apply I4|]. apply I4 in Hj as Hj'. set_solver.
  - intros j [?| ->%elem_of_singleton]%elem_of_union; [by apply I5|done].
Qed.

Lemma inv_slot_pooled w w' ts ts' pp k :
  inv (w, ts) → pending w = Some pp → owns w pp k → connecting ts' = connecting ts →
  pending w' = None → join_signal w' = None → lock w' = lock w → clients w' = clients w →
  disposed w' = disposed w → pool w' = pool w ++ [k] → inv (w', ts').
Proof.
  intros [I1 I2 I3 I4 I5] Hp Ho Ec E1 E2 E3 E4 E5 E6. pose proof (owns_lt w pp k Ho) as Hk.
  destruct Ho as (Hr & _ & _ & Hd & Hpl & _). cbn in *. split; cbn; rewrite ?E1, ?E2, ?E3, ?E4, ?E5, ?E6, ?Ec.
  - destruct I1 as [?|(pp' & k' & _ & _ & ? & _)]; [by left|congruence].
  - done.
  - intros j Hj. rewrite Hp in I3. cbn in I3. rewrite elem_of_app, list_elem_of_singleton.
    destruct (I3 j Hj) as [?|[?|[Ej|?]]]; [tauto|tauto|right; left; right; congruence|tauto].
  - destruct I4 as [I4 I4']. split.
    + apply NoDup_app. split_and!; [done| |apply NoDup_singleton]. intros j Hj ->%list_elem_of_singleton. done.
    + intros j [Hj| ->%list_elem_of_singleton]%elem_of_app; [by apply I4'|done].
  - done.
Qed.

Ltac frame_core := split_and!; cbn; done.

Lemma same_core_trans w1 w2 w3 : same_core w1 w2 → same_core w2 w3 → same_core w1 w3.
Proof. unfold same_core. intuition congruence. Qed.

Lemma daemon_id_taken_core env d w : same_core w (daemon_id_taken env d w).2.
Proof. unfold daemon_id_taken. by destruct (Store.list_pairings env (store w)) as [[] ?]. Qed.

(** [begin]'s first section: refused with nothing created, or one more client,
    which runs with the new pairing's configuration. *)
Lemma begin_section_spec ch url did label w :
  let '(r, w') := begin_section ch url did label w in
  match r with
  | Err e => same_core w w'
  | Ok (pp, k) => pending w = None ∧ k = length (clients w) ∧ pp_relay pp = Some k ∧ pp_settled pp = false ∧ pp_resolved pp = None ∧
      ∃ kp secret w0, pp_key_pair pp = Some kp ∧ pp_pairing_secret pp = Some secret ∧ same_core w w0 ∧
        w' = emit [Connected k] (add_client (client_config pp kp secret) w0)
  end.
Proof.
  unfold begin_section. destruct (pending w) eqn:Ep; [done|].
  set (d := match did with Some d => d | None => _ end).
  destruct (daemon_id_taken (ch_store ch) d w) as [taken w0] eqn:Et.
  assert (same_core w w0) as Hw by (pose proof (daemon_id_taken_core (ch_store ch) d w) as H; by rewrite Et in H).
  destruct taken; [done|].
  destruct (begin_bundle _ _) as [[pp cfg]|m] eqn:Eb; [|by destruct w0].
  apply begin_bundle_inv in Eb as (_ & _ & Epp & ->). assert (clients w0 = clients w) as -> by apply Hw.
  rewrite Epp. split_and!; try done. eexists _, _, w0. by split_and!.
Qed.

Lemma owns_core w w' pp k : same_core w w' → owns w pp k → owns w' pp k.
Proof. intros (_ & _ & _ & E4 & E5 & E6). unfold owns. by rewrite E4, E5, E6. Qed.

Lemma inv_begin ch w ts i runner url did label pp k w' :
  inv (w, ts) → ts !! i = Some (TBegin runner url did label) → lock w = false →
  begin_section ch url did label w = (Ok (pp, k), w') →
  inv (set_lock true w', <[i := TConnecting runner pp k]> ts).
Proof.
  intros [I1 I2 I3 I4 I5] Hi Hl Hb. pose proof (begin_section_spec ch url did label w) as H. rewrite Hb in H.
  destruct H as (Ep & -> & Er & Es & Eres & kp & sec & w0 & Ek & Ec & (E1 & E2 & E3 & E4 & E5 & E6) & ->).
  destruct (connecting_insert ts i _ (TConnecting runner pp (length (clients w))) Hi) as (l & r & _ & El & Er').
  cbn in I1, I2, I3, I4, I5. destruct I1 as [[Ecn _]|(?&?&_&?&_)]; [|congruence].
  change (connecting [TBegin runner url did label]) with (@nil (PendingPairing * nat)) in El.
  change (connecting [TConnecting runner pp (length (clients w))]) with [(pp, length (clients w))] in Er'.
  rewrite El in Ecn. apply app_nil in Ecn as [Ecl Ecr]. cbn in Ecr. rewrite Ecl, Ecr in Er', El. cbn in Er', El.
  split; cbn; rewrite ?E1, ?E2, ?E3, ?E4, ?E5, ?E6, ?Er', ?Ep.
  - right. exists pp, (length (clients w)). split_and!; try done. unfold owns. cbn. rewrite E4, E5, E6. split_and!; try done.
    + intros H%I5. lia.
    + intros H%I4. lia.
    + exists kp, sec. split_and!; try done. rewrite lookup_app_r by lia. by rewrite Nat.sub_diag.
  - by rewrite Ep in I2.
  - intros j. rewrite length_app. cbn. intros Hj. rewrite Ep in I3. cbn in I3. rewrite El in I3.
    destruct (decide (j = length (clients w))) as [->|]; [right; right; right; by left|].
    destruct (I3 j ltac:(lia)) as [?|[?|[?|Hx]]]; [tauto|tauto|done|cbn in Hx; by apply not_elem_of_nil in Hx].
  - split; [apply I4|]. intros j [? ?]%I4. rewrite length_app. split; [lia|done].
  - intros j Hj%I5. rewrite length_app. lia.
Qed.

Lemma inv_begun w ts i runner pp k :
  inv (w, ts) → ts !! i = Some (TConnecting runner pp k) →
  ∃ info w', begun_section pp k w = (Ok info, w') ∧ inv (set_lock false w', <[i := TBegun runner info]> ts).
Proof.
  intros [I1 I2 I3 I4 I5] Hi. cbn in I1, I2, I3, I4, I5.
  destruct (connecting_insert ts i _ (TBegun runner (mkOutcome (pp_pairing_id pp) (pp_qr_string pp) (o_daemon_id (pp_opts pp)))) Hi)
    as (l & r & _ & El & Er).
  change (connecting [TBegun _ _]) with (@nil (PendingPairing * nat)) in Er.
  change (connecting [TConnecting runner pp k]) with [(pp, k)] in El.
  destruct I1 as [[Ecn _]|(pp' & k' & Ecn & Hl & Ep & Ho)]; [by rewrite El in Ecn; destruct (connecting l)|].
  rewrite Ecn in El. symmetry in El.
  assert (connecting l = [] ∧ connecting r = [] ∧ pp' = pp ∧ k' = k) as (Ecl & Ecr & -> & ->).
  { destruct (connecting l) as [|? [|]]; [|done|done]. by injection El as -> -> ->. }
  rewrite Ecl, Ecr in Er. cbn in Er. destruct Ho as (Hr & Hs & Hres & Hd & Hp & Hc).
  unfold begun_section, begin_finish. rewrite Hs. eexists _, _. split; [done|].
  split; cbn; rewrite ?Er.
  - by left.
  - exists k. by split_and!.
  - intros j Hj. rewrite Ep, Ecn in I3. cbn in I3. destruct (I3 j Hj) as [?|[?|[?|Hx]]]; [tauto|tauto|done|].
    apply list_elem_of_singleton in Hx as ->. right; right; left. done.
  - done.
  - done.
Qed.

(** What one tick of the watcher finds, and does. *)
Lemma watch_cases env w ts :
  inv (w, ts) →
  (pending w = None ∧ watch_section env w = (CancelledOurs, w)) ∨
  (∃ pp k, pending w = Some pp ∧ signals w !! k = None ∧ join_signal w = Some k ∧ watch_section env w = (StillPending, w)) ∨
  (∃ pp k f c w', pending w = Some pp ∧ join_signal w = Some k ∧ owns w pp k ∧ signals w !! k = Some f ∧
     pp_resolved (mark_completed f pp) = Some (Completed c) ∧ watch_section env w = (Promoted c, w') ∧
     w' = set_slot None None (register_client k (save_pairing env c (set_slot (Some (mark_completed f pp)) (Some k) w)))).
Proof.
  intros [_ I2 _ _ _]. cbn in I2. unfold watch_section, wait_for_join, resolved.
  destruct (pending w) as [pp|] eqn:Ep.
  - destruct I2 as (k & Ej & Ho). rewrite Ej. pose proof Ho as (Hr & Hs & Hres & _ & _ & kp & sec & Ek & Ec & _).
    destruct (signals w !! k) as [f|] eqn:Ef.
    + right; right. set (w1 := set_slot (mark_completed f <$> Some pp) (Some k) w).
      assert (∃ c, pp_resolved (mark_completed f pp) = Some (Completed c)) as [c Hc]
        by (unfold mark_completed; rewrite Hs, Ek, Ec; by eexists).
      assert (pp_relay (mark_completed f pp) = Some k) as Hr' by (unfold mark_completed; by rewrite Hs, Ek, Ec).
      eexists pp, k, f, c, _. split_and!; [done..| |reflexivity].
      cbn. rewrite Hc. unfold promote. f_equal.
      assert (pending (save_pairing env c w1) = Some (mark_completed f pp)) as Hp
        by (unfold save_pairing; by destruct (Store.save_pairing env (save_input c) (store w1)) as [[] ?]).
      cbn in Hp. rewrite Hp. unfold release_relay. cbn. by rewrite Hr'.
    + right; left. exists pp, k. rewrite Ep. cbn. rewrite Hres. by split_and!.
  - left. rewrite I2, Ep. by split.
Qed.

Lemma inv_promoted env c w ts ts' pp pp' k :
  inv (w, ts) → pending w = Some pp → owns w pp k → connecting ts' = connecting ts →
  inv (set_slot None None (register_client k (save_pairing env c (set_slot pp' (Some k) w))), ts').
Proof.
  intros Hi Hp Ho Ec. eapply inv_slot_pooled; try done;
    unfold save_pairing; by destruct (Store.save_pairing env (save_input c) _) as [[] ?].
Qed.

Lemma owns_removed st b w pp j k :
  owns w pp j → j ≠ k → owns (set_pool (filter (λ i, i ≠ k) (pool w)) (dispose (Some k) (set_store st b w))) pp j.
Proof.
  intros (? & ? & ? & Hd & Hp & ?) Hne. unfold owns. cbn. split_and!; try done.
  - intros [?| ->%elem_of_singleton]%elem_of_union; done.
  - by intros [_ ?]%list_elem_of_filter.
Qed.

Lemma inv_removed env d w ts ts' :
  inv (w, ts) → connecting ts' = connecting ts → inv (remove_pairing env d w, ts').
Proof.
  intros Hi Ec. unfold remove_pairing. destruct (head _) as [k|] eqn:Eh; [|by apply (inv_frame w ts)].
  assert (k ∈ pool w) as Hk.
  { apply head_Some in Eh as [l El].
    assert (k ∈ filter (λ k, c_daemon_id <$> clients w !! k = Some d) (pool w)) as Hk%list_elem_of_filter
      by (rewrite El; left). by destruct Hk. }
  destruct Hi as [I1 I2 I3 [I4 I4'] I5]. pose proof (I4' k Hk) as [Hlt Hnd].
  assert (∀ pp j, owns w pp j → j ≠ k) as Hne by (intros pp j (_ & _ & _ & _ & Hj & _) ->; done).
  split; cbn; rewrite ?Ec; cbn in *.
  - destruct I1 as [?|(pp & j & ? & ? & ? & Ho)]; [by left|]. right. exists pp, j. split_and!; try done.
    exact (owns_removed (store w) (last_save_error w) w pp j k Ho (Hne _ _ Ho)).
  - destruct (pending w) as [pp|]; [|done]. destruct I2 as (j & ? & Ho). exists j. split; [done|].
    exact (owns_removed (store w) (last_save_error w) w pp j k Ho (Hne _ _ Ho)).
  - intros j Hj. destruct (decide (j = k)) as [->|Hjk]; [left; set_solver +|].
    rewrite list_elem_of_filter. destruct (I3 j Hj) as [?|[?|[?|?]]]; [left; set_solver|tauto..].
  - split; [by apply NoDup_filter|]. intros j [? Hj]%list_elem_of_filter. destruct (I4' j Hj). split; [done|]. set_solver.
  - intros j [?| ->%elem_of_singleton]%elem_of_union; [by apply I5|done].
Qed.

(** Cancelling, clearing and stopping all dispose of the slot's client. *)
Lemma inv_released ts' w ts (f : World → World) :
  inv (w, ts) → connecting ts' = connecting ts →
  (pending w = None → same_core w (f w)) →
  (∀ pp k, pending w = Some pp → owns w pp k →
     same_core w (f w) ∨
     pending (f w) = None ∧ join_signal (f w) = None ∧ lock (f w) = lock w ∧ clients (f w) = clients w ∧
       disposed (f w) = disposed w ∪ {[k]} ∧ pool (f w) = pool w) →
  inv (f w, ts').
Proof.
  intros Hi Ec Hn Hs. pose proof Hi as [_ I2 _ _ _]. cbn in I2. destruct (pending w) as [pp|] eqn:Ep.
  - destruct I2 as (k & _ & Ho). destruct (Hs pp k eq_refl Ho) as [?|(?&?&?&?&?&?)]; [by apply (inv_frame w ts)|].
    by apply (inv_slot_disposed w (f w) ts ts' pp k).
  - apply (inv_frame w ts); auto.
Qed.

Lemma inv_cancelled pid w ts ts' : inv (w, ts) → connecting ts' = connecting ts → inv (orch_cancel pid w, ts').
Proof.
  intros Hi Ec. apply (inv_released ts' w ts (orch_cancel pid) Hi Ec); unfold orch_cancel; [by intros ->|].
  intros pp k -> (Hr & Hs & Hres & _). case_match; [by left|]. unfold completed, cancel. rewrite Hres, Hs, Hr. by right.
Qed.

Lemma inv_cleared w ts ts' : inv (w, ts) → connecting ts' = connecting ts → inv (clear_pending w, ts').
Proof.
  intros Hi Ec. apply (inv_released ts' w ts clear_pending Hi Ec); unfold clear_pending.
  - intros Ep. rewrite Ep. pose proof (i_slot _ Hi) as Hj. cbn in Hj. rewrite Ep in Hj. split_and!; cbn; congruence.
  - intros pp k -> (Hr & _). unfold release_relay. cbn. rewrite Hr. by right.
Qed.

Lemma inv_stopped w ts ts' : inv (w, ts) → connecting ts' = connecting ts → inv (stop w, ts').
Proof.
  intros Hi Ec. apply (inv_released ts' w ts stop Hi Ec); unfold stop.
  - intros Ep. rewrite Ep. pose proof (i_slot _ Hi) as Hj. cbn in Hj. rewrite Ep in Hj. split_and!; cbn; congruence.
  - intros pp k -> (Hr & Hs & _). unfold cancel. rewrite Hs. cbn. rewrite Hr. by right.
Qed.

Lemma inv_owner runner w ts : inv (w, ts) → inv (clear_owner_if runner w, ts).
Proof. intros Hi. apply (inv_frame w ts); [|done..]. unfold clear_owner_if. by case_decide. Qed.

Lemma inv_task_step ch w ts i t w' t' :
  inv (w, ts) → ts !! i = Some t → task_step ch w t = Some (w', t') → inv (w', <[i := t']> ts).
Proof.
  intros Hi Ht Hs. destruct t as [runner url did label|runner pp k|runner info|runner pid did|runner pid did c|runner pid|pid| |];
    cbn in Hs.
  - destruct (lock w) eqn:El; [done|]. destruct (begin_section ch url did label w) as [[[pp k]|e] w0] eqn:Eb.
    + injection Hs as <- <-. by eapply inv_begin.
    + injection Hs as <- <-. apply (inv_frame w ts); [|by apply (connecting_same _ _ _ _ Ht)|done].
      pose proof (begin_section_spec ch url did label w) as H. rewrite Eb in H. apply (same_core_trans w w0); [done|by split_and!].
  - destruct (inv_begun w ts i runner pp k Hi Ht) as (info & w0 & Eb & Hinv). rewrite Eb in Hs. by injection Hs as <- <-.
  - injection Hs as <- <-. apply (inv_frame w ts); [done|by apply (connecting_same _ _ _ _ Ht)|done].
  - destruct (lock w) eqn:El; [done|]. destruct (watch_cases (ch_store ch) w ts Hi) as [[_ Ew]|[(?&?&_&_&_&Ew)|H]].
    + rewrite Ew in Hs. injection Hs as <- <-. apply (inv_frame (clear_owner_if runner w) ts); [done| |by apply inv_owner].
      by apply (connecting_same _ _ _ _ Ht).
    + rewrite Ew in Hs. injection Hs as <- <-. by rewrite list_insert_id.
    + destruct H as (pp & k & f & c & w1 & Ep & Ej & Ho & _ & _ & Ew & Ew'). rewrite Ew in Hs. injection Hs as <- <-. rewrite Ew'.
      by apply (inv_promoted _ _ _ ts _ pp); [| | |apply (connecting_same _ _ _ _ Ht)].
  - assert (connecting (<[i := t']> ts) = connecting ts) as Ec
      by (apply (connecting_same _ _ _ _ Ht); by destruct (last_save_error _); injection Hs as <- <-).
    assert (inv (clear_owner_if runner w, ts)) as Ho by by apply inv_owner.
    destruct (last_save_error _); injection Hs as <- <-.
    + apply (inv_removed _ _ _ ts); [|done]. by apply (inv_frame (clear_owner_if runner w) ts).
    + by apply (inv_frame (clear_owner_if runner w) ts).
  - destruct (lock w); [done|]. injection Hs as <- <-. apply (inv_frame (clear_pending w) ts); [done..| |].
    + by apply (connecting_same _ _ _ _ Ht).
    + by apply (inv_cleared w ts).
  - destruct (lock w); [done|]. injection Hs as <- <-. by apply (inv_cancelled _ w ts); [|apply (connecting_same _ _ _ _ Ht)].
  - destruct (lock w); [done|]. injection Hs as <- <-. by apply (inv_stopped w ts); [|apply (connecting_same _ _ _ _ Ht)].
  - done.
Qed.

Lemma inv_pool_step s s' : pool_step s s' → inv s → inv s'.
Proof.
  intros [w ts i t ch w' t' Ht Hs|w ts e] Hi; [by eapply inv_task_step|].
  assert (∀ w' ts', same_core w w' → connecting ts' = [] → inv (w', ts ++ ts')) as Hf.
  { intros w' ts' Hw Ec. apply (inv_frame w ts); [done| |done]. unfold connecting in *. by rewrite omap_app, Ec, app_nil_r. }
  destruct e as [runner url did label|runner pid|runner|k f|]; cbn.
  - by apply Hf.
  - destruct (owner w); [case_decide|]; by apply Hf.
  - case_decide; by apply Hf.
  - apply Hf; [|done]. case_decide; [|done]. unfold record. by case_match.
  - by apply Hf.
Qed.

Lemma pairing_inv_reachable st s : rtc pool_step (world_new st, []) s → inv s.
Proof.
  intros H.
  assert (inv (world_new st, [])) as H0.
  { split; cbn; try done; [by left|intros k Hk; lia|split; [apply NoDup_nil_2|intros k Hk; by apply not_elem_of_nil in Hk]]. }
  revert H0. remember (world_new st, []) as s0. clear Heqs0. induction H; [done|]. intros ?. by eapply IHrtc, inv_pool_step.
Qed.

(** Who answers for a relay client. *)
Inductive Role := Gone | InPool | InSlot | Connecting.
Definition holds (s : World * list Task) (k : nat) (r : Role) : Prop :=
  match r with
  | Gone => k ∈ disposed s.1
  | InPool => k ∈ pool s.1
  | InSlot => (pending s.1 ≫= pp_relay) = Some k
  | Connecting => k ∈ snd <$> connecting s.2
  end.

Lemma holds_unique s k r1 r2 : inv s → holds s k r1 → holds s k r2 → r1 = r2.
Proof.
  destruct s as [w ts]. intros [I1 I2 _ [_ I4] _]. cbn in *.
  assert (k ∈ disposed w → k ∈ pool w → False) as A by (intros ? Hp%I4; tauto).
  assert (pending w ≫= pp_relay = Some k → k ∉ disposed w ∧ k ∉ pool w) as B.
  { destruct (pending w) as [pp|]; [|done]. destruct I2 as (k' & _ & Hr & _ & _ & ? & ? & _). cbn. rewrite Hr. by intros [= ->]. }
  assert (k ∈ snd <$> connecting ts → k ∉ disposed w ∧ k ∉ pool w ∧ pending w = None) as D.
  { destruct I1 as [[-> _]|(pp & k' & -> & _ & Ep & Ho)]; cbn; [by intros ?%not_elem_of_nil|].
    intros ->%list_elem_of_singleton. destruct Ho as (_ & _ & _ & ? & ? & _). done. }
  destruct r1, r2; cbn; intros H1 H2; try done; exfalso;
    repeat match goal with H : _ ≫= pp_relay = Some _ |- _ => apply B in H as ? ; revert H
                         | H : _ ∈ snd <$> _ |- _ => apply D in H as (? & ? & Ep); rewrite ?Ep in * ; clear H end; naive_solver.
Qed.

(** C7. Every relay client has one holder.  However pairings, cancellations,
    disconnects, joins and shutdown interleave: each client ever created is disposed,
    or in the relay manager's pool, or held by the pairing slot, or being connected by
    a begin, and only one of these, so none leaks and none is closed under its user;
    one pairing is under way at most; and the slot's client runs with the slot's own
    configuration. *)
Theorem custody st w ts :
  rtc pool_step (world_new st, []) (w, ts) →
  (∀ k, k < length (clients w) ↔ ∃ r, holds (w, ts) k r) ∧
  (∀ k r1 r2, holds (w, ts) k r1 → holds (w, ts) k r2 → r1 = r2) ∧
  NoDup (pool w) ∧
  length (connecting ts) + length (option_list (pending w)) ≤ 1 ∧
  (∀ pp, pending w = Some pp → pp_settled pp = false ∧ ∃ k kp secret, pp_relay pp = Some k ∧ join_signal w = Some k ∧
     pp_key_pair pp = Some kp ∧ pp_pairing_secret pp = Some secret ∧ clients w !! k = Some (client_config pp kp secret)).
Proof.
  intros H%pairing_inv_reachable. split_and!.
  - intros k. split.
    + intros Hk. destruct (i_cover _ H k Hk) as [?|[?|[?|?]]];
        [by exists Gone|by exists InPool|by exists InSlot|by exists Connecting].
    + destruct H as [I1 I2 _ [_ I4] I5]. cbn in *. intros [[] Hr]; cbn in Hr; [by apply I5|by apply I4| |].
      * destruct (pending w) as [pp|]; [|done]. destruct I2 as (k' & _ & Ho). pose proof Ho as (Hr' & _). cbn in Hr.
        rewrite Hr' in Hr. injection Hr as ->. by eapply owns_lt.
      * destruct I1 as [[Ec _]|(pp & k' & Ec & _ & _ & Ho)]; rewrite Ec in Hr; cbn in Hr; [by apply not_elem_of_nil in Hr|].
        apply list_elem_of_singleton in Hr as ->. by eapply owns_lt.
  - intros k r1 r2. by apply holds_unique.
  - apply H.
  - destruct (i_lock _ H) as [[Ec _]|(pp & k & Ec & _ & Ep & _)]; cbn in Ec; cbn; try rewrite Ec; [by destruct (pending w); cbn; lia|].
    cbn in Ep. by rewrite Ep.
  - intros pp Ep. pose proof (i_slot _ H) as I2. cbn in I2. rewrite Ep in I2.
    destruct I2 as (k & ? & ? & ? & _ & _ & _ & kp & sec & ? & ? & ?). split; [done|]. by exists k, kp, sec.
Qed.

(** A join is never lost.  Once a frontend has completed its key exchange with the
    slot's client, the waiting watcher can always take its step, and the step hands
    over: the slot is free, the client is in the pool, alive, what is saved names the
    first frontend that joined and is otherwise the configuration the client runs
    with; and no joining frontend, no cancellation and no disconnect before the step
    changes that frontend. *)
Theorem join_promotes st w ts i runner pid did pp k f ch :
  rtc pool_step (world_new st, []) (w, ts) → ts !! i = Some (TWatch runner pid did) →
  pending w = Some pp → pp_relay pp = Some k → signals w !! k = Some f →
  (∀ f', record k f' w = w) ∧
  ∃ c w' cfg, task_step ch w (TWatch runner pid did) = Some (w', TPromoted runner pid did c) ∧
    pending w' = None ∧ pool w' = pool w ++ [k] ∧ k ∉ disposed w' ∧ clients w' !! k = Some cfg ∧
    store w' = (Store.save_pairing (ch_store ch) (save_input c) (store w)).2 ∧
    pc_frontend_id c = f ∧
    mkConfig (pc_relay_url c) (pc_daemon_id c) (pc_relay_token c) (pc_registration_proof c) (pc_key_pair c)
      (pc_pairing_secret c) (Some (pc_label c)) (pc_pairing_id c) (pc_hostname c) = cfg.
Proof.
  intros H%pairing_inv_reachable Hi Ep Er Ef. split; [intros f'; unfold record; by rewrite Ef|].
  pose proof (i_slot _ H) as I2. cbn in I2. rewrite Ep in I2. destruct I2 as (k' & Ej & Ho).
  assert (k' = k) as -> by (destruct Ho as (Hr & _); congruence).
  assert (lock w = false) as Hl by (destruct (i_lock _ H) as [[_ ?]|(? & ? & _ & _ & ? & _)]; [done|cbn in *; congruence]).
  destruct (watch_cases (ch_store ch) w ts H) as [[? _]|[(?&?&?&?&?&_)|(pp' & k' & f' & c & w' & Ep' & Ej' & _ & Ef' & Ec & Ew & Ew')]];
    [congruence|simplify_eq; congruence|].
  simplify_eq. destruct Ho as (_ & Hs & Hres & Hd & Hp & kp & sec & Ek & Esec & Ecl).
  eexists c, _, (client_config pp kp sec). cbn. rewrite Hl, Ew. split; [done|].
  unfold mark_completed in Ec. rewrite Hs, Ek, Esec in Ec. injection Ec as <-. cbn.
  unfold save_pairing. by destruct (Store.save_pairing _ _ _) as [[] st'].
Qed.

(** A refused pairing leaves nothing behind: with a pairing under way or the daemon
    id paired already, the caller gets that reason and no pairing, client, owner or
    pool entry changes.  (The id is looked up in the store the environment shows.) *)
Theorem begin_refused ch w runner url did label :
  lock w = false →
  (∃ pp, pending w = Some pp) ∨
  (∃ env d l st, did = Some d ∧ ch_store ch = env ∧ Store.list_pairings env (store w) = (Ok l, st) ∧ d ∈ Store.ps_daemon_id <$> l) →
  ∃ w' m, task_step ch w (TBegin runner url did label) = Some (w', TDone) ∧ same_core w w' ∧ owner w' = owner w ∧
    trace w' = trace w ++ [Sent runner (Ipc.PairBeginErr
      (if bool_decide (is_Some (pending w)) then Ipc.BeginAlreadyPending else Ipc.BeginDaemonIdTaken) (Some m))].
Proof.
  intros Hl Hc. cbn. rewrite Hl. unfold begin_section. destruct (pending w) as [pp|] eqn:Ep.
  - eexists _, _. by split_and!.
  - destruct Hc as [[? ?]|(env & d & l & st & -> & <- & Hlp & Hin)]; [done|].
    unfold daemon_id_taken. rewrite Hlp.
    assert (existsb (λ p, String.eqb (Store.ps_daemon_id p) d) l = true) as ->.
    { apply existsb_exists. apply list_elem_of_fmap in Hin as (p & -> & Hp). exists p. split; [by apply list_elem_of_In|].
      by apply String.eqb_eq. }
    eexists _, _. by split_and!.
Qed.
End custody.

(** ** After a restart *)

Section restart.
Context {C : CryptoCrates} {L : CryptoLaws C} {P : PairingCrates} {E : Store.SqlEngine}.

Lemma hex_encode_nonempty b : b ≠ [] → hex_encode b ≠ "".
Proof. destruct b; [done|]. by rewrite hex_encode_cons. Qed.

Lemma derived_nonempty secret : derive_relay_token secret ≠ "" ∧ derive_registration_proof secret ≠ "".
Proof.
  split; apply hex_encode_nonempty; intros H%(f_equal length); unfold derive_blake2b in H; by rewrite blake2b_256_length in H.
Qed.

(** A restarted daemon talks as the same daemon.  A pairing that began, was
    completed by a frontend and was saved is loaded back as the very configuration
    its first client ran with: same keys, same secret, token and proof, same relay
    and identity. *)
Theorem restart_same_client ent opts pp cfg f c env env' st :
  entropy_ok ent → length (x25519_base (ent_secret_key ent)) = 32 →
  o_daemon_id opts ≠ "" → o_relay_url opts ≠ "" → canonical (o_label opts) = true →
  begin_bundle ent (pending_new ent opts) = Ok (pp, cfg) →
  pp_resolved (mark_completed f pp) = Some (Completed c) →
  StoreLaws.readable st → Store.pairings st !! o_daemon_id opts = None →
  Store.e_fail env (Store.ticks st) = false → Store.e_fail env' (S (Store.ticks st)) = false →
  ∃ l p, (Store.load_pairings env' (Store.save_pairing env (save_input c) st).2).1 = Ok l ∧ p ∈ l ∧ saved_config p = cfg.
Proof.
  intros (Hsk & Hsec & Hu) Hpk Hd Hr Hlab Hb Hc Hread Hnew He He'.
  apply begin_bundle_inv in Hb as (_ & _ & Epp & ->). rewrite Epp in Hc |- *. cbn in Hc |- *. injection Hc as <-.
  set (c := mkCompleted _ _ _ _ _ _ _ _ _ _). destruct (derived_nonempty (ent_pairing_secret ent)) as [Ht Hp].
  assert (StoreLaws.saveable (save_input c)) as Hs by (unfold StoreLaws.saveable; cbn; split_and!; try done; by intros l [= <-]).
  pose proof (StoreLaws.save_pairing_loads env env' (save_input c) st Hs Hread He He') as H.
  destruct (Store.save_pairing env (save_input c) st) as [r s1]. destruct H as (_ & (l & Hl & _ & Hin) & _).
  change (Store.i_daemon_id (save_input c)) with (o_daemon_id opts) in Hin. rewrite Hnew in Hin.
  eexists l, _. split; [exact Hl|]. split; [by apply Hin; left|].
  assert (∀ s, StoreLaws.known s None = s) as Hk by (intros s; unfold StoreLaws.known; by case_decide).
  unfold saved_config, StoreLaws.stored_of, client_config. rewrite !to_array_32_id by done. cbn. by rewrite !Hk.
Qed.
End restart.

(** ** Concrete runs *)

Module Demo.
#[local] Existing Instance Pairing.Demo.crates.
#[local] Existing Instance Pairing.Demo.pairing_crates.
#[local] Existing Instance Pairing.Demo.laws.
#[local] Existing Instance StoreLaws.Demo.engine.

Definition env_ok : Store.Env := StoreLaws.Demo.env.
Definition ent (n : N) : Entropy :=
  mkEntropy (replicate 32 (as_u8 n)) (replicate 32 (as_u8 (n + 1))) (replicate 16 "u"%char) 255 n.
Definition ch (n : N) : Choice := mkChoice (ent n) (Some "host") env_ok.
Definition st0 : Store.Store := StoreLaws.store_new 32.

(** A schedule: events, and steps of tasks by their index. *)
Inductive Move := Happens (e : Event) | Runs (i : nat) (ch : Choice).

Definition move (s : World * list Task) (m : Move) : option (World * list Task) :=
  match m with
  | Happens e => Some ((on_event e s.1).1, s.2 ++ (on_event e s.1).2)
  | Runs i ch =>
      let?o t := s.2 !! i in
      let?o r := task_step "disk full" ch s.1 t in
      Some (r.1, <[i := r.2]> s.2)
  end.
Definition run (ms : list Move) : option (World * list Task) :=
  foldl (λ s m, let?o s := s in move s m) (Some (world_new st0, [])) ms.

Lemma run_reachable ms s : run ms = Some s → rtc (pool_step "disk full") (world_new st0, []) s.
Proof.
  unfold run. assert (∀ s0, rtc (pool_step "disk full") (world_new st0, []) s0 →
    foldl (λ s m, let?o s := s in move s m) (Some s0) ms = Some s → rtc (pool_step "disk full") (world_new st0, []) s) as H;
    [|by apply H].
  induction ms as [|m ms IH]; intros s0 H0; cbn; [by intros [= <-]|].
  destruct (move s0 m) as [s1|] eqn:Em; [|intros H; exfalso; clear -H; induction ms; done].
  apply IH. eapply rtc_r; [exact H0|]. destruct s0 as [w ts], m as [e|i c]; cbn in Em.
  - injection Em as <-. apply step_event.
  - destruct (ts !! i) as [t|] eqn:Et; [|done]. cbn in Em. destruct (task_step _ c w t) as [[w' t']|] eqn:Es; [|done].
    injection Em as <-. by eapply step_task.
Qed.

Definition url : string := "wss://relay.example".
Definition begun : list Move :=
  [Happens (EPairBegin 1 url (Some "daemon-1") (Some (Set_ "Mac"))); Runs 0 (ch 7); Runs 0 (ch 7); Runs 0 (ch 7)].
Definition joined : list Move := begun ++ [Happens (EJoined 0 "phone")].
Definition final (ms : list Move) : World * list Task := default (world_new st0, []) (run ms).

Lemma custody_witness :
  (∀ k, k < length (clients (final joined).1) ↔ ∃ r, holds (final joined) k r) ∧
  is_Some (pending (final joined).1) ∧ length (clients (final joined).1) = 1.
Proof.
  assert (run joined = Some (final joined)) as Hr by (vm_compute; reflexivity).
  pose proof (run_reachable joined (final joined) Hr) as H. split.
  - destruct (final joined) as [w ts] eqn:E. exact (proj1 (custody "disk full" st0 w ts H)).
  - split; [by eexists|]; vm_compute; reflexivity.
Defined.

Lemma join_promotes_witness :
  ∃ c w' pid, task_step "disk full" (ch 7) (final joined).1 (TWatch 1 pid "daemon-1") = Some (w', TPromoted 1 pid "daemon-1" c) ∧
    pc_frontend_id c = "phone" ∧ pool w' = [0].
Proof.
  assert (run joined = Some (final joined)) as Hr by (vm_compute; reflexivity).
  pose proof (run_reachable joined (final joined) Hr) as H.
  assert (pool (final joined).1 = []) as Hpool by (vm_compute; reflexivity).
  assert (∃ pp pid, (final joined).2 !! 0 = Some (TWatch 1 pid "daemon-1") ∧ pending (final joined).1 = Some pp ∧
    pp_relay pp = Some 0 ∧ signals (final joined).1 !! 0 = Some "phone") as (pp & pid & Ht & Hp & Hrel & Hs)
    by (eexists _, _; vm_compute; split_and!; reflexivity).
  revert H Hpool Ht Hp Hs. clear Hr. destruct (final joined) as [w ts]. cbn [fst snd]. intros H Hpool Ht Hp Hs.
  destruct (join_promotes "disk full" st0 w ts 0 1 pid "daemon-1" pp 0 "phone" (ch 7) H Ht Hp Hrel Hs)
    as (_ & c & w' & cfg & Hstep & _ & Hpl & _ & _ & _ & Hf & _).
  exists c, w', pid. split; [exact Hstep|]. split; [exact Hf|]. by rewrite Hpl, Hpool.
Defined.

Lemma begin_refused_witness :
  ∃ w' m, task_step "disk full" (ch 9) (final joined).1 (TBegin 2 url None None) = Some (w', TDone) ∧
    trace w' = trace (final joined).1 ++ [Sent 2 (Ipc.PairBeginErr Ipc.BeginAlreadyPending (Some m))].
Proof.
  assert (lock (final joined).1 = false) as Hl by (vm_compute; reflexivity).
  assert (∃ pp, pending (final joined).1 = Some pp) as Hp by (eexists; vm_compute; reflexivity).
  assert (bool_decide (is_Some (pending (final joined).1)) = true) as Hb by (vm_compute; reflexivity).
  revert Hl Hp Hb. destruct (final joined) as [w ts]. cbn [fst]. intros Hl Hp Hb.
  destruct (begin_refused "disk full" (ch 9) w 2 url None None Hl (or_introl Hp)) as (w' & m & Hs & _ & _ & Ht).
  exists w', m. split; [exact Hs|]. by rewrite Hb in Ht.
Defined.

Lemma restart_same_client_witness :
  ∃ c l p cfg, (Store.load_pairings env_ok (Store.save_pairing env_ok (save_input c) st0).2).1 = Ok l ∧ p ∈ l ∧
    saved_config p = cfg ∧ c_daemon_id cfg = "daemon-1".
Proof.
  set (opts := mkOpts url "daemon-1" (Set_ "Mac") "host").
  destruct (begin_bundle (ent 7) (pending_new (ent 7) opts)) as [[pp cfg]|m] eqn:Eb; [|by vm_compute in Eb].
  assert (∃ c, pp_resolved (mark_completed "phone" pp) = Some (Completed c)) as [c Hc].
  { apply begin_bundle_inv in Eb as (_ & _ & -> & _). by eexists. }
  destruct (restart_same_client (ent 7) opts pp cfg "phone" c env_ok env_ok st0) as (l & p & Hl & Hp & Hcfg);
    [by split_and!|reflexivity|done|done|reflexivity|exact Eb|exact Hc| |reflexivity..|].
  { intros d r. change (Store.pairings st0) with (∅ : gmap string Store.PairingRow). by rewrite lookup_empty. }
  exists c, l, p, cfg. split; [exact Hl|]. split; [exact Hp|]. split; [exact Hcfg|].
  by apply begin_bundle_inv in Eb as (_ & _ & -> & ->).
Defined.

Definition sent_to (runner : N) (w : World) : list Ipc.IpcMessage :=
  omap (λ e, match e with Sent r m => if decide (r = runner) then Some m else None | _ => None end) (trace w).

(** A watcher whose own pairing was cancelled and has not looked since reports the
    completion of the next one as its own, and the next one's runner hears that its
    pairing was cancelled. *)
Definition successor : list Move :=
  begun ++ [Happens (EPairCancel 1 (match pending (final begun).1 with Some pp => pp_pairing_id pp | None => "" end)); Runs 1 (ch 7);
    Happens (EPairBegin 2 url (Some "daemon-2") None); Runs 2 (ch 8); Runs 2 (ch 8); Runs 2 (ch 8);
    Happens (EJoined 1 "phone"); Runs 0 (ch 8); Runs 0 (ch 8); Runs 2 (ch 8)].
Example watcher_takes_successor :
  pool (final successor).1 = [1] ∧
  (∃ pid q, sent_to 1 (final successor).1 = [Ipc.PairBeginOk pid q "daemon-1"; Ipc.PairCompleted pid "daemon-1" Unset]) ∧
  (∃ pid q, sent_to 2 (final successor).1 = [Ipc.PairBeginOk pid q "daemon-2"; Ipc.PairCancelled pid]).
Proof. split_and!; [|eexists _, _|eexists _, _]; vm_compute; reflexivity. Qed.

(** A runner that disconnects while its pairing is connecting becomes the slot's
    owner all the same: the next begin is refused and its cancellation ignored. *)
Definition gone : list Move :=
  [Happens (EPairBegin 1 url (Some "daemon-1") None); Runs 0 (ch 7); Happens (EDisconnect 1); Runs 0 (ch 7); Runs 0 (ch 7);
   Happens (EPairBegin 2 url None None); Runs 1 (ch 8); Happens (EPairCancel 2 "pp")].
Example disconnected_owner_keeps_slot :
  owner (final gone).1 = Some 1%N ∧ is_Some (pending (final gone).1) ∧ length (final gone).2 = 2 ∧
  sent_to 2 (final gone).1 = [Ipc.PairBeginErr Ipc.BeginAlreadyPending (Some "already-pending")].
Proof. split_and!; [|eexists| |]; vm_compute; reflexivity. Qed.
End Demo.
