(* ===== verification/Notifier.v ===== *)
(** * Notifier: which hook events become push notifications.
    [tp-daemon/src/push/notifier.rs], with the deps the relay manager gives it
    ([StorePushNotifierDeps]): the tokens in memory, the tokens in the store, and
    what one record makes it send. *)
From stdpp Require Import base list numbers strings gmap fin_maps.
From Stdlib Require Import Lia NArith ZArith Ascii.
From S2P Require Import Prelude Bytes Text Chars Json Messages Ipc.
From S2P Require Store StoreLaws.

Definition NOTIFY_EVENTS : list string := ["Notification"; "PermissionRequest"; "Elicitation"].
Definition TIME_SENSITIVE_EVENTS : list string := ["Notification"; "PermissionRequest"; "Elicitation"].

Definition is_notify_event (event_name : string) : bool := bool_decide (event_name ∈ NOTIFY_EVENTS).

Definition interruption_level_for (event_name : string) : InterruptionLevel :=
  if bool_decide (event_name ∈ TIME_SENSITIVE_EVENTS) then TimeSensitive else Active.

Record PushMessage := mkPushMessage { title : string; body : string }.

Record RecordInfo := mkRecordInfo { ri_sid : string; ri_kind : RecordKind; ri_name : option string; ri_payload : option Value }.

Record TokenEntry := mkTokenEntry { te_sealed : string; te_platform : string; te_daemon_id : string }.

(** [str::to_lowercase], as far as an ASCII pattern can see it: ASCII letters, and
    the two other characters whose lower case holds an ASCII letter, U+0130 and
    U+212A; what it does to the rest stays outside ASCII. *)
Fixpoint lowercase_ascii (s : bytes) : bytes :=
  match s with
  | [] => []
  | a :: r =>
      match r with
      | b :: r2 =>
          if decide (byte_val a = 0xC4 ∧ byte_val b = 0xB0)%N then "i"%char :: as_u8 0xCC :: as_u8 0x87 :: lowercase_ascii r2
          else
            match r2 with
            | c :: r3 =>
                if decide (byte_val a = 0xE2 ∧ byte_val b = 0x84 ∧ byte_val c = 0xAA)%N then "k"%char :: lowercase_ascii r3
                else ascii_lower a :: lowercase_ascii r
            | [] => ascii_lower a :: lowercase_ascii r
            end
      | [] => [ascii_lower a]
      end
  end.

(** [str::contains] of a pattern. *)
Fixpoint contains (p s : string) : bool :=
  starts_with p s || match s with String _ r => contains p r | EmptyString => false end.

Definition to_lowercase (s : string) : string := str_of_bytes (lowercase_ascii (as_bytes s)).
Definition regex_permission (s : string) : bool := contains "permission" (to_lowercase s).
Definition regex_wait_idle (s : string) : bool :=
  let lower := to_lowercase s in contains "wait" lower || contains "idle" lower.

Definition truncate (s : string) (max : nat) : string :=
  let cs := chars s in
  if decide (length cs ≤ max) then s else of_chars (take (max - 1) cs) +:+ "…".

Definition build_push_message (event_name : string) (payload : option Value) : PushMessage :=
  let get_str key := payload ≫= λ p, value_get p key ≫= as_str in
  if String.eqb event_name "Notification" then
    let trimmed := trim (default "" (get_str "message")) in
    if String.eqb trimmed "" then mkPushMessage "Claude needs attention" "Tap to open the session"
    else
      mkPushMessage
        (if regex_permission trimmed then "Permission needed"
         else if regex_wait_idle trimmed then "Waiting for input" else "Claude needs attention")
        (truncate trimmed 178)
  else if String.eqb event_name "PermissionRequest" then
    mkPushMessage "Permission needed"
      (match get_str "tool_name" with
       | Some t => "Approve " +:+ truncate t 160 +:+ " to continue"
       | None => "Tool permission approval required"
       end)
  else if String.eqb event_name "Elicitation" then
    let question := match get_str "message" with Some q => q | None => default "" (get_str "question") end in
    let trimmed := trim question in
    mkPushMessage "Response needed" (if String.eqb trimmed "" then "Claude is waiting for your answer" else truncate trimmed 178)
  else mkPushMessage "Claude needs attention" "Tap to open the session".

(** A call of [deps.send_push]. *)
Record SendPush := mkSendPush {
  sp_frontend_id : string; sp_sealed : string; sp_title : string; sp_body : string;
  sp_level : InterruptionLevel; sp_sid : string; sp_event : string; sp_daemon_id : string
}.

Abbreviation Tokens := (gmap string TokenEntry).

Section notifier.
Context {HIS : HashIter string} {E : Store.SqlEngine} (env : Store.Env).

(** *** [StorePushNotifierDeps] *)

Definition persist_token (frontend_id daemon_id sealed platform : string) (s : Store.Store) : Store.Store :=
  match Store.parse platform with
  | None => s
  | Some p => (Store.save_push_token env frontend_id daemon_id sealed p s).2
  end.

Definition load_tokens (s : Store.Store) : list Store.PushToken * Store.Store :=
  let '(r, s) := Store.load_push_tokens env s in (match r with Ok l => l | Err _ => [] end, s).

Definition delete_token (frontend_id : string) (s : Store.Store) : Store.Store := (Store.delete_push_token env frontend_id s).2.

(** *** [PushNotifier] *)

Definition notifier_new (s : Store.Store) : Tokens * Store.Store :=
  let '(l, s) := load_tokens s in
  (foldl (λ m t, <[Store.t_frontend_id t := mkTokenEntry (Store.t_sealed t) (Store.as_str (Store.t_platform t)) (Store.t_daemon_id t)]> m)
     ∅ l, s).

Definition register_sealed_token (frontend_id daemon_id sealed platform : string) (n : Tokens * Store.Store)
  : Tokens * Store.Store :=
  (<[frontend_id := mkTokenEntry sealed platform daemon_id]> n.1, persist_token frontend_id daemon_id sealed platform n.2).

Definition unregister_token (frontend_id : string) (n : Tokens * Store.Store) : Tokens * Store.Store :=
  (delete frontend_id n.1, delete_token frontend_id n.2).

Definition handle_unseal_failed (frontend_id : string) (n : Tokens * Store.Store) : Tokens * Store.Store :=
  match n.1 !! frontend_id with None => n | Some _ => unregister_token frontend_id n end.

Definition handle_token_dead (frontend_id : string) (n : Tokens * Store.Store) : Tokens * Store.Store :=
  match n.1 !! frontend_id with None => n | Some _ => unregister_token frontend_id n end.

Definition token_count (tokens : Tokens) : nat := size tokens.

Definition push_for (rec : RecordInfo) (name : string) (msg : PushMessage) (level : InterruptionLevel) (fid : string) (e : TokenEntry)
  : SendPush := mkSendPush fid (te_sealed e) (title msg) (body msg) level (ri_sid rec) name (te_daemon_id e).

Definition on_record (rec : RecordInfo) (tokens : Tokens) : list SendPush :=
  match ri_kind rec, ri_name rec with
  | Event, Some name =>
      if negb (is_notify_event name) then []
      else if bool_decide (tokens = ∅) then []
      else
        let msg := build_push_message name (ri_payload rec) in
        let level := interruption_level_for name in
        omap (λ fid, (λ e, push_for rec name msg level fid e) <$> tokens !! fid) (set_iter (dom tokens))
  | _, _ => []
  end.
End notifier.

(** ** The copy *)

Lemma truncate_spec s max : is_str s → 1 ≤ max →
  is_str (truncate s max) ∧ chars_count (truncate s max) ≤ max ∧ (s ≠ "" → truncate s max ≠ "") ∧
  (chars_count s ≤ max → truncate s max = s) ∧
  (max < chars_count s → chars (truncate s max) = take (max - 1) (chars s) ++ ["…"]).
Proof.
  intros Hs Hm. unfold truncate, chars_count. case_decide as Hl; [split_and!; try done; lia|].
  destruct (take_chars s (max - 1) Hs) as [Hv Hc].
  destruct (chars_app _ "…" Hv ltac:(vm_compute; reflexivity)) as [Hc' Hv']. rewrite Hc in Hc'.
  change (chars "…") with ["…"] in Hc'. split_and!; try done.
  - rewrite Hc', length_app, length_take. cbn. lia.
  - intros _ He. by rewrite He in Hc'; destruct (take (max - 1) (chars s)).
Qed.

(** A payload as parsed from JSON holds well-formed strings. *)
Definition payload_ok (payload : option Value) : Prop :=
  ∀ key s, payload ≫= (λ p, value_get p key ≫= as_str) = Some s → is_str s.

Definition message_ok (m : PushMessage) : Prop :=
  is_str (title m) ∧ title m ≠ "" ∧ is_str (body m) ∧ body m ≠ "" ∧ chars_count (body m) ≤ 180.

Lemma fixed_copy t b : is_str t → is_str b → bool_decide (t ≠ "" ∧ b ≠ "" ∧ chars_count b ≤ 180) = true →
  message_ok (mkPushMessage t b).
Proof. intros Ht Hb (?&?&?)%bool_decide_eq_true_1. by split_and!. Qed.

Lemma trimmed_copy t s : is_str t → t ≠ "" → is_str s → trim s ≠ "" → message_ok (mkPushMessage t (truncate (trim s) 178)).
Proof.
  intros Ht Hne Hs Htr. destruct (truncate_spec (trim s) 178 (trim_str s Hs) ltac:(lia)) as (H1 & H2 & H3 & _).
  split_and!; cbn; [done..|by apply H3|lia].
Qed.

Ltac fixed := by apply fixed_copy; vm_compute.

Lemma build_push_message_ok name payload : payload_ok payload → message_ok (build_push_message name payload).
Proof.
  intros Hp. unfold build_push_message.
  assert (∀ key, is_str (default "" (payload ≫= (λ p, value_get p key ≫= as_str)))) as Hd.
  { intros key. pose proof (Hp key) as H. destruct (payload ≫= _); [by apply H|done]. }
  destruct (String.eqb name "Notification").
  { destruct (String.eqb_spec (trim (default "" (payload ≫= (λ p, value_get p "message" ≫= as_str)))) ""); [fixed|].
    apply trimmed_copy; [|by repeat case_match|apply Hd|done]. by repeat case_match; vm_compute. }
  destruct (String.eqb name "PermissionRequest").
  { pose proof (Hp "tool_name") as H. destruct (payload ≫= _) as [t|]; [|fixed]. specialize (H t eq_refl).
    destruct (truncate_spec t 160 H ltac:(lia)) as (H1 & H2 & _).
    destruct (chars_app (truncate t 160) " to continue" H1 ltac:(by vm_compute)) as [C1 V1].
    destruct (chars_app "Approve " (truncate t 160 +:+ " to continue") ltac:(by vm_compute) V1) as [C2 V2].
    split_and!; [by vm_compute|done|done|done|]. unfold chars_count in *. cbn [body]. rewrite C2, C1, !length_app.
    change (length (chars "Approve ")) with 8. change (length (chars " to continue")) with 12. lia. }
  destruct (String.eqb name "Elicitation"); [|fixed].
  set (q := match payload ≫= (λ p, value_get p "message" ≫= as_str) with Some q => q | None => _ end).
  assert (is_str q) as Hq by (unfold q; pose proof (Hp "message") as H; destruct (payload ≫= _); [by apply H|apply Hd]).
  destruct (String.eqb_spec (trim q) ""); [fixed|]. by apply trimmed_copy; vm_compute.
Qed.

Section fanout.
Context {HIS : HashIter string}.

Lemma omap_lookup_ids (g : string → TokenEntry → SendPush) (tokens : Tokens) (l : list string) :
  (∀ fid e, sp_frontend_id (g fid e) = fid) → (∀ x, x ∈ l → x ∈ dom tokens) →
  sp_frontend_id <$> omap (λ fid, g fid <$> tokens !! fid) l = l.
Proof.
  intros Hg. induction l as [|x l IH]; [done|]. intros Hx. destruct (proj1 (elem_of_dom tokens x) (Hx x ltac:(left))) as [e He].
  cbn. rewrite He. cbn. rewrite Hg. f_equal. apply IH. intros y Hy. apply Hx. by right.
Qed.

(** One push per phone, and only when it matters.  A record makes the notifier
    send exactly when it is a hook event of the notify set and some phone is
    registered; then every registered phone gets one push, with its own sealed token
    and the daemon that sealed it, at the time-sensitive level; and whatever the
    hook's payload, the copy is well-formed text with a title and a body of at most
    180 characters. *)
Theorem notify_fanout rec tokens :
  payload_ok (ri_payload rec) →
  let out := on_record rec tokens in
  (out = [] ↔ ri_kind rec ≠ Event ∨ tokens = ∅ ∨ ∀ name, ri_name rec = Some name → is_notify_event name = false) ∧
  (out ≠ [] → sp_frontend_id <$> out ≡ₚ elements (dom tokens)) ∧
  ∀ p, p ∈ out → ∃ e name, tokens !! sp_frontend_id p = Some e ∧ sp_sealed p = te_sealed e ∧ sp_daemon_id p = te_daemon_id e ∧
    ri_name rec = Some name ∧ sp_event p = name ∧ sp_sid p = ri_sid rec ∧ sp_level p = TimeSensitive ∧
    message_ok (mkPushMessage (sp_title p) (sp_body p)).
Proof.
  intros Hp. cbv zeta. unfold on_record.
  destruct (ri_kind rec) eqn:Ek; [split_and!; [naive_solver|done|by intros p ?%not_elem_of_nil]| |
    split_and!; [naive_solver|done|by intros p ?%not_elem_of_nil]].
  destruct (ri_name rec) as [name|] eqn:En; [|split_and!; [naive_solver|done|by intros p ?%not_elem_of_nil]].
  destruct (is_notify_event name) eqn:Eg; cbn [negb];
    [|split_and!; [naive_solver|done|by intros p ?%not_elem_of_nil]].
  case_bool_decide as Et; [split_and!; [naive_solver|done|by intros p ?%not_elem_of_nil]|].
  set (f := λ fid, push_for rec name (build_push_message name (ri_payload rec)) (interruption_level_for name) fid <$> tokens !! fid).
  assert (sp_frontend_id <$> omap f (set_iter (dom tokens)) = set_iter (dom tokens)) as Hids.
  { apply omap_lookup_ids; [|intros x; apply elem_of_set_iter]. by intros fid e. }
  split_and!.
  - split; [|intros [?|[?|Hn]]; [done|done|by rewrite (Hn name eq_refl) in Eg]]. intros E. rewrite E in Hids. destruct Et. apply dom_empty_iff_L. apply set_eq. intros x.
    rewrite <-elem_of_set_iter, <-Hids. set_solver.
  - intros _. by rewrite Hids, set_iter_perm.
  - intros p (fid & _ & Hf)%list_elem_of_omap. unfold f in Hf. destruct (tokens !! fid) as [e|] eqn:Ef; [|done].
    injection Hf as <-. exists e, name. cbn. split_and!; try done; [|by apply (build_push_message_ok name (ri_payload rec))].
    unfold interruption_level_for. unfold is_notify_event in Eg. change TIME_SENSITIVE_EVENTS with NOTIFY_EVENTS. by rewrite Eg.
Qed.
End fanout.

(** ** Memory and disk *)

Section restart.
Context {HIS : HashIter string} {E : Store.SqlEngine} (env : Store.Env).
Context (no_failure : ∀ k, Store.e_fail env k = false).

(** The token a stored row is. *)
Definition entry_of (fid : string) (r : Store.PushRow) : option TokenEntry :=
  match Store.read_push_row r with
  | Ok c => (λ t, mkTokenEntry (Store.t_sealed t) (Store.as_str (Store.t_platform t)) (Store.t_daemon_id t)) <$> Store.valid_push_row fid c
  | Err _ => None
  end.

Definition readable_tokens (s : Store.Store) : Prop :=
  ∀ fid r, Store.push_tokens s !! fid = Some r → ∃ c, Store.read_push_row r = Ok c.

Definition agrees (n : Tokens * Store.Store) : Prop :=
  (∀ fid, n.1 !! fid = Store.push_tokens n.2 !! fid ≫= entry_of fid) ∧ readable_tokens n.2.

Lemma read_rows_spec raw : (∀ fid r, (fid, r) ∈ raw → ∃ c, Store.read_push_row r = Ok c) →
  ∃ rows, Store.read_push_rows raw = Ok rows ∧ rows.*1 = raw.*1 ∧
    ∀ fid c, (fid, c) ∈ rows ↔ ∃ r, (fid, r) ∈ raw ∧ Store.read_push_row r = Ok c.
Proof.
  induction raw as [|[fid r] raw IH]; intros Hr.
  { exists []. split_and!; try done. intros fid c. split; [by intros ?%not_elem_of_nil|by intros (? & ?%not_elem_of_nil & _)]. }
  destruct (Hr fid r ltac:(left)) as [c Hc]. destruct IH as (rows & E1 & E2 & E3); [intros f r' H; apply (Hr f r'); by right|].
  exists ((fid, c) :: rows). cbn. rewrite Hc. cbn. rewrite E1. split_and!; [done|by rewrite E2|]. intros f c'.
  rewrite elem_of_cons, E3. split.
  - intros [[= -> ->]|(r' & ? & ?)]; [exists r; split; [left|done]|exists r'; split; [by right|done]].
  - intros (r' & [[= -> ->]|?]%elem_of_cons & ?); [left; congruence|right; by exists r'].
Qed.

Lemma delete_tokens_run ids s :
  ∃ k, Store.for_each ids (Store.delete_push_token env) s =
    (Ok tt, Store.set_ticks k (Store.set_push_tokens (foldl (λ m fid, delete fid m) (Store.push_tokens s) ids) s)).
Proof.
  revert s. induction ids as [|x ids IH]; intros s; [exists (Store.ticks s); by destruct s|].
  cbn [Store.for_each]. rewrite StoreLaws.store_bind_run. unfold Store.delete_push_token at 1. rewrite StoreLaws.execute_run. cbv zeta.
  rewrite no_failure. destruct (IH (Store.set_push_tokens (delete x (Store.push_tokens s)) (Store.set_ticks (S (Store.ticks s)) s))) as [k Hk].
  exists k. exact Hk.
Qed.

Lemma foldl_delete_lookup {A} ids (m : gmap string A) fid :
  foldl (λ m x, delete x m) m ids !! fid = if decide (fid ∈ ids) then None else m !! fid.
Proof.
  revert m. induction ids as [|x ids IH]; intros m; [by rewrite decide_False by apply not_elem_of_nil|].
  cbn. rewrite IH. destruct (decide (fid = x)) as [->|].
  - rewrite lookup_delete_eq. rewrite (decide_True (P := x ∈ x :: ids)) by left. by case_decide.
  - rewrite lookup_delete_ne by done. by repeat case_decide; set_solver.
Qed.

Lemma foldl_insert_lookup {A B} (k : A → string) (v : A → B) l (m : gmap string B) fid :
  NoDup (k <$> l) →
  foldl (λ m t, <[k t := v t]> m) m l !! fid = match list_find (λ t, k t = fid) l with Some (_, t) => Some (v t) | None => m !! fid end.
Proof.
  revert m. induction l as [|x l IH]; intros m Hn; [done|]. cbn in Hn |- *. apply NoDup_cons in Hn as [Hx Hn].
  rewrite IH by done. case_decide as Hk.
  - rewrite (proj2 (list_find_None _ _)); [by rewrite <-Hk, lookup_insert_eq|].
    apply Forall_forall. intros y Hy Hky. apply Hx, list_elem_of_fmap. exists y. split; [congruence|done].
  - rewrite lookup_insert_ne by done. by destruct (list_find _ l) as [[]|].
Qed.

Lemma valid_row_id fid c t : Store.valid_push_row fid c = Some t → Store.t_frontend_id t = fid.
Proof.
  unfold Store.valid_push_row. destruct c as [[d sealed] p].
  intros (f & Hf & (d' & _ & (sl & _ & (pl & _ & [= <-])%bind_Some)%bind_Some)%bind_Some)%bind_Some.
  unfold Store.non_empty in Hf. cbn in *. by case_decide; simplify_eq.
Qed.

(** The rows as read: those kept, and those purged. *)
Lemma load_tokens_spec s :
  readable_tokens s →
  ∃ l s', load_tokens env s = (l, s') ∧ NoDup (Store.t_frontend_id <$> l) ∧
    (∀ t, t ∈ l ↔ ∃ r c, Store.push_tokens s !! Store.t_frontend_id t = Some r ∧ Store.read_push_row r = Ok c ∧
       Store.valid_push_row (Store.t_frontend_id t) c = Some t) ∧
    (∀ fid, Store.push_tokens s' !! fid ≫= entry_of fid = Store.push_tokens s !! fid ≫= entry_of fid) ∧ readable_tokens s'.
Proof.
  intros Hr. unfold load_tokens, Store.load_push_tokens. rewrite StoreLaws.store_bind_run, StoreLaws.query_run. cbv zeta. rewrite no_failure.
  set (s1 := Store.set_ticks (S (Store.ticks s)) s). change (Store.push_tokens s1) with (Store.push_tokens s).
  destruct (read_rows_spec (Store.scan (Store.push_tokens s))) as (rows & E1 & E2 & E3).
  { intros fid r H%StoreLaws.scan_lookup. by apply (Hr fid r). }
  rewrite StoreLaws.store_bind_run. unfold Store.lift. rewrite E1, StoreLaws.store_bind_run.
  destruct (delete_tokens_run (filter (λ p, Store.valid_push_row p.1 p.2 = None ∧ p.1 ≠ "") rows).*1 s1) as [k ->].
  eexists _, _. split; [done|]. split_and!.
  - assert (Store.t_frontend_id <$> omap (λ p, Store.valid_push_row p.1 p.2) rows `sublist_of` rows.*1) as Hsub.
    { clear. induction rows as [|[fid c] rows IH]; [done|]. cbn. destruct (Store.valid_push_row fid c) as [t|] eqn:Et; cbn.
      - rewrite (valid_row_id _ _ _ Et). by constructor.
      - by constructor. }
    apply (sublist_NoDup _ _ (eq_ind_r NoDup (StoreLaws.scan_keys (Store.push_tokens s)) E2) Hsub).
  - intros t. rewrite list_elem_of_omap. split.
    + intros ([fid c] & (r & Hin & Hc)%E3 & Hv). cbn in Hv. rewrite (valid_row_id _ _ _ Hv). exists r, c.
      by apply StoreLaws.scan_lookup in Hin.
    + intros (r & c & Hl & Hc & Hv). exists (Store.t_frontend_id t, c). split; [|exact Hv]. apply E3. exists r.
      by rewrite StoreLaws.scan_lookup.
  - intros fid. cbn. rewrite foldl_delete_lookup. case_decide as Hin; [|done].
    apply list_elem_of_fmap in Hin as ([fid' c] & -> & [[Hv _] (r & Hin & Hc)%E3]%list_elem_of_filter).
    apply StoreLaws.scan_lookup in Hin. cbn in Hin, Hv |- *. rewrite Hin. cbn. unfold entry_of. by rewrite Hc, Hv.
  - intros fid r. cbn. rewrite foldl_delete_lookup. case_decide; [done|]. apply Hr.
Qed.

Lemma notifier_new_spec s :
  readable_tokens s → agrees (notifier_new env s) ∧ ∀ fid, (notifier_new env s).1 !! fid = Store.push_tokens s !! fid ≫= entry_of fid.
Proof.
  intros Hr. destruct (load_tokens_spec s Hr) as (l & s' & E1 & Hn & Hl & Hs & Hr'). unfold notifier_new. rewrite E1.
  assert (∀ fid, foldl (λ m t, <[Store.t_frontend_id t := mkTokenEntry (Store.t_sealed t) (Store.as_str (Store.t_platform t))
    (Store.t_daemon_id t)]> m) (∅ : Tokens) l !! fid = Store.push_tokens s !! fid ≫= entry_of fid) as Hm.
  { intros fid. rewrite foldl_insert_lookup by done. destruct (list_find _ l) as [[i t]|] eqn:Ef.
    - apply list_find_Some in Ef as (Hi & Hid & _). apply list_elem_of_lookup_2, Hl in Hi as (r & c & Hr1 & Hc & Hv).
      rewrite Hid in Hr1, Hv. rewrite Hr1. cbn. unfold entry_of. by rewrite Hc, Hv.
    - rewrite lookup_empty. apply list_find_None in Ef. destruct (Store.push_tokens s !! fid) as [r|] eqn:Er; [|done].
      cbn. unfold entry_of. destruct (Hr fid r Er) as [c Hc]. rewrite Hc.
      destruct (Store.valid_push_row fid c) as [t|] eqn:Hv; [|done]. exfalso.
      pose proof (valid_row_id _ _ _ Hv) as Hid. rewrite Forall_forall in Ef. apply (Ef t); [|done].
      apply Hl. exists r, c. by rewrite Hid. }
  split; [|exact Hm]. split; [|done]. intros fid. cbn. by rewrite Hm, Hs.
Qed.

(** What the relay clients' callbacks ask of the notifier. *)
Inductive Op :=
| ORegister (frontend_id daemon_id sealed : string) (platform : Store.PushPlatform)
| OUnregister (frontend_id : string) | OUnsealFailed (frontend_id : string) | OTokenDead (frontend_id : string).

Definition run_op (o : Op) (n : Tokens * Store.Store) : Tokens * Store.Store :=
  match o with
  | ORegister fid d sealed p => register_sealed_token env fid d sealed (Store.as_str p) n
  | OUnregister fid => unregister_token env fid n
  | OUnsealFailed fid => handle_unseal_failed env fid n
  | OTokenDead fid => handle_token_dead env fid n
  end.

Definition op_ok (o : Op) : Prop :=
  match o with ORegister fid d sealed _ => fid ≠ "" ∧ d ≠ "" ∧ sealed ≠ "" | _ => True end.

Lemma agrees_unregister fid n : agrees n → agrees (unregister_token env fid n).
Proof.
  intros [Ha Hr]. unfold unregister_token, delete_token, Store.delete_push_token. rewrite StoreLaws.execute_run. cbv zeta.
  rewrite no_failure. split; cbn.
  - intros f. destruct (decide (f = fid)) as [->|]; [by rewrite !lookup_delete_eq|by rewrite !lookup_delete_ne].
  - intros f r. cbn. destruct (decide (f = fid)) as [->|]; [by rewrite lookup_delete_eq|rewrite lookup_delete_ne by done; apply Hr].
Qed.

Lemma agrees_op o n : op_ok o → agrees n → agrees (run_op o n).
Proof.
  intros Ho Hn. destruct o as [fid d sealed p|fid|fid|fid]; cbn.
  - destruct Ho as (Hf & Hd & Hs), Hn as [Ha Hr]. unfold register_sealed_token, persist_token.
    assert (Store.parse (Store.as_str p) = Some p) as -> by by destruct p.
    unfold Store.save_push_token. rewrite StoreLaws.execute_run. cbv zeta. rewrite no_failure. split; cbn.
    + intros f. destruct (decide (f = fid)) as [->|]; [rewrite !lookup_insert_eq|by rewrite !lookup_insert_ne].
      cbn. unfold entry_of, Store.read_push_row, Store.valid_push_row, Store.non_empty. cbn.
      rewrite !decide_False by done. cbn. by destruct p.
    + intros f r. cbn. destruct (decide (f = fid)) as [->|]; [rewrite lookup_insert_eq|rewrite lookup_insert_ne by done; apply Hr].
      intros [= <-]. by eexists.
  - by apply agrees_unregister.
  - unfold handle_unseal_failed. case_match; [by apply agrees_unregister|done].
  - unfold handle_token_dead. case_match; [by apply agrees_unregister|done].
Qed.
End restart.

(** A restart forgets no phone and revives none.  While the database works, after
    any registrations, removals, unseal failures and dead tokens since a start, a
    notifier started on the store it leaves behind has exactly the tokens the running
    one has: those registered last and not dropped since. *)
Theorem restart_keeps_tokens {HIS : HashIter string} {E : Store.SqlEngine} env s ops :
  (∀ k, Store.e_fail env k = false) → readable_tokens s → Forall op_ok ops →
  let n := foldl (λ n o, run_op env o n) (notifier_new env s) ops in
  (notifier_new env n.2).1 = n.1.
Proof.
  intros Hf Hr Hops. cbv zeta.
  assert (agrees (foldl (λ n o, run_op env o n) (notifier_new env s) ops)) as [Ha Hr'].
  { assert (agrees (notifier_new env s)) as H0 by by apply notifier_new_spec. revert H0. generalize (notifier_new env s).
    induction Hops as [|o ops Ho Hops IH]; intros n H0; [done|]. cbn. apply IH. by apply agrees_op. }
  apply map_eq. intros fid. destruct (notifier_new_spec env Hf _ Hr') as [_ Hl]. by rewrite Hl, Ha.
Qed.

(** ** A concrete notifier *)

Module Demo.
#[local] Existing Instance StoreLaws.Demo.engine.
#[local] Instance iter : HashIter string := elements_iter string.

Definition env : Store.Env := StoreLaws.Demo.env.
Definition s0 : Store.Store := StoreLaws.store_new 32.
Definition ops : list Op :=
  [ORegister "phone" "daemon-a" "tpps1.1.aa" Store.Ios; ORegister "pad" "daemon-a" "tpps1.1.bb" Store.Ios; OTokenDead "pad"].
Definition tokens : Tokens := (foldl (λ n o, run_op env o n) (notifier_new env s0) ops).1.
Definition rec : RecordInfo :=
  mkRecordInfo "s1" Event (Some "Notification") (Some (Object [("message", Str "  Claude needs your PERMISSION  ")])).

Lemma notify_fanout_witness :
  let out := on_record rec tokens in sp_frontend_id <$> out = ["phone"] ∧
  ∀ p, p ∈ out → message_ok (mkPushMessage (sp_title p) (sp_body p)).
Proof.
  assert (payload_ok (ri_payload rec)) as Hp.
  { intros key s H. unfold rec in H. cbn [ri_payload mbind option_bind value_get get] in H.
    destruct (String.eqb "message" key); [|done]. injection H as <-. reflexivity. }
  destruct (notify_fanout rec tokens Hp) as (_ & _ & Hout). cbv zeta. split; [vm_compute; reflexivity|].
  intros p Hin. destruct (Hout p Hin) as (e & name & _ & _ & _ & _ & _ & _ & _ & Hok). exact Hok.
Defined.

Lemma restart_keeps_tokens_witness :
  let n := foldl (λ n o, run_op env o n) (notifier_new env s0) ops in
  (notifier_new env n.2).1 = n.1 ∧ dom n.1 = {["phone"]}.
Proof.
  split; [|vm_compute; reflexivity]. apply (restart_keeps_tokens env s0 ops).
  - reflexivity.
  - intros fid r. change (Store.push_tokens s0) with (∅ : gmap string Store.PushRow). by rewrite lookup_empty.
  - repeat constructor; done.
Defined.

(** Removing a pairing deletes its tokens from the store, not from memory: until the
    daemon restarts, the removed pairing's phones are still sent every event. *)
Example removed_pairing_still_notified :
  let n := foldl (λ n o, run_op env o n) (notifier_new env s0) [ORegister "phone" "daemon-a" "tpps1.1.aa" Store.Ios] in
  let s := (Store.delete_pairing env "daemon-a" n.2).2 in
  Store.push_tokens s = ∅ ∧ length (on_record rec n.1) = 1 ∧ (notifier_new env s).1 = ∅.
Proof. split_and!; vm_compute; reflexivity. Qed.

Example copy :
  let m := build_push_message "Notification" (ri_payload rec) in
  title m = "Permission needed" ∧ body m = "Claude needs your PERMISSION".
Proof. vm_compute. by split. Qed.
End Demo.
