(* ===== verification/Runners.v ===== *)
(** * Runners: the supervisor of runner processes.
    [tp-daemon/src/session/manager.rs]: the map of runners, how one is spawned, and
    the task that waits for its exit.  A tracked child is named by its index among
    the children ever spawned (pointer identity in the source); what the system
    answers (the clock, the located command, the new process's pid, a child's exit)
    comes with each event. *)
From stdpp Require Import base list numbers strings gmap fin_maps relations.
From Stdlib Require Import Lia NArith ZArith.
From S2P Require Import Prelude Text.

Record RunnerInfo := mkRunner {
  r_sid : string; r_pid : N; r_cwd : string; r_worktree_path : option string; r_claude_version : option string;
  r_connected_at : N;
  r_process : option nat                     (* the tracked child, when this daemon spawned it *)
}.

Record SpawnRunnerOptions := mkSpawnOptions {
  o_socket_path : option string; o_worktree_path : option string; o_cols : option N; o_rows : option N;
  o_claude_args : option (list string); o_env : option (list (string * string))
}.
Definition default_options : SpawnRunnerOptions := mkSpawnOptions None None None None None None.

(** A spawned process: its pid, and its exit status once it has exited ([None] when a
    signal ended it). *)
Record Child := mkChild { c_pid : N; c_status : option (option Z) }.

Record Manager := mkManager { runners : gmap string RunnerInfo; children : list Child }.
Definition manager_new : Manager := mkManager ∅ [].

Definition register_runner (now : N) (sid : string) (pid : N) (cwd : string) (worktree_path claude_version : option string)
    (m : Manager) : Manager :=
  let existing_process := runners m !! sid ≫= r_process in
  mkManager (<[sid := mkRunner sid pid cwd worktree_path claude_version now existing_process]> (runners m)) (children m).

Definition unregister_runner (sid : string) (m : Manager) : Manager := mkManager (delete sid (runners m)) (children m).
Definition get_runner (sid : string) (m : Manager) : option RunnerInfo := runners m !! sid.
Definition list_runners {HIS : HashIter string} (m : Manager) : list RunnerInfo :=
  omap (λ sid, runners m !! sid) (set_iter (dom (runners m))).
Definition active_count (m : Manager) : nat := size (runners m).

Definition flag (name : string) (v : option string) : list string := match v with Some v => [name; v] | None => [] end.

(** The argument vector. *)
Definition runner_args (base_cmd : list string) (sid cwd : string) (opts : SpawnRunnerOptions) : list string :=
  base_cmd ++ ["--sid"; sid; "--cwd"; cwd] ++
  flag "--socket-path" (o_socket_path opts) ++ flag "--worktree-path" (o_worktree_path opts) ++
  flag "--cols" (print_dec <$> o_cols opts) ++ flag "--rows" (print_dec <$> o_rows opts) ++
  match o_claude_args opts with
  | Some args => match args with [] => [] | _ => "--" :: args end
  | None => []
  end.

(** What the system answers: to one spawn, and to one [try_wait]. *)
Record SpawnEnv := mkSpawnEnv {
  se_now : N;
  se_injected : option (list string);                (* [RUNNER_COMMAND] *)
  se_located : result string string;                 (* [locate_tp_runner] *)
  se_spawn : result (option N) string;               (* the child's pid *)
  se_wait_err : bool                                 (* [try_wait] fails *)
}.

Definition default_runner_command (env : SpawnEnv) : result (list string) string :=
  let? p := se_located env in Ok [p].

(** [spawn_runner]: the pid, the manager, and the child its exit monitor waits for. *)
Definition spawn_runner (env : SpawnEnv) (sid cwd : string) (opts : SpawnRunnerOptions) (m : Manager)
  : result (N * nat) string * Manager :=
  match match se_injected env with Some cmd => Ok cmd | None => default_runner_command env end with
  | Err e => (Err e, m)
  | Ok base_cmd =>
      match runner_args base_cmd sid cwd opts with
      | [] => (Err "empty runner command", m)
      | _ =>
          match se_spawn env with
          | Err e => (Err e, m)
          | Ok None => (Err "spawned child has no pid", m)
          | Ok (Some pid) =>
              let p := length (children m) in
              (Ok (pid, p),
               mkManager (<[sid := mkRunner sid pid cwd (o_worktree_path opts) None (se_now env) (Some p)]> (runners m))
                 (children m ++ [mkChild pid None]))
          end
      end
  end.

(** [kill_runner]: whether a process is tracked, and the pid that is signalled. *)
Definition kill_runner (sid : string) (m : Manager) : bool * option N :=
  match runners m !! sid ≫= r_process with
  | None => (false, None)
  | Some p => (true, match children m !! p with Some (mkChild pid None) => Some pid | _ => None end)
  end.

(** [wait_for_exit] has nothing left to wait for, an error of [try_wait] included. *)
Definition has_exited (wait_err : bool) (sid : string) (m : Manager) : bool :=
  match runners m !! sid ≫= r_process with
  | None => true
  | Some p => wait_err || match children m !! p with Some (mkChild _ None) => false | _ => true end
  end.

(** [try_wait], as the exit monitor reads it: an error and a status without a code
    both count as 0. *)
Definition exit_code (wait_err : bool) (p : nat) (m : Manager) : option Z :=
  if wait_err then Some 0%Z
  else match children m !! p with Some (mkChild _ (Some code)) => Some (default 0%Z code) | _ => None end.

(** The monitor's section once its wait is over: does it notify, and what is left. *)
Definition exit_section (sid : string) (p : nat) (m : Manager) : bool * Manager :=
  match runners m !! sid with
  | Some current =>
      match r_process current with
      | Some q => if decide (q ≠ p) then (false, m) else (true, unregister_runner sid m)
      | None => (true, unregister_runner sid m)
      end
  | None => (false, m)
  end.

(** ** The supervisor at work *)

Record Sup := mkSup {
  mgr : Manager;
  monitors : list (string * nat);            (* exit monitors that still wait *)
  exits : list (string * nat * Z);           (* calls of [on_runner_exit] *)
  given_up : list nat                        (* history: children whose monitor could not wait *)
}.

Inductive Event :=
| EvRegister (now : N) (sid : string) (pid : N) (cwd : string) (wt ver : option string)
| EvUnregister (sid : string)
| EvSpawn (env : SpawnEnv) (sid cwd : string) (opts : SpawnRunnerOptions)
| EvExit (p : nat) (code : option Z)          (* a child exits *)
| EvMonitor (i : nat) (wait_err : bool).      (* a monitor polls *)

Definition remove_nth {A} (i : nat) (l : list A) : list A := take i l ++ drop (S i) l.

Definition sup_step (e : Event) (s : Sup) : Sup :=
  match e with
  | EvRegister now sid pid cwd wt ver => mkSup (register_runner now sid pid cwd wt ver (mgr s)) (monitors s) (exits s) (given_up s)
  | EvUnregister sid => mkSup (unregister_runner sid (mgr s)) (monitors s) (exits s) (given_up s)
  | EvSpawn env sid cwd opts =>
      match spawn_runner env sid cwd opts (mgr s) with
      | (Ok (_, p), m) => mkSup m (monitors s ++ [(sid, p)]) (exits s) (given_up s)
      | (Err _, m) => mkSup m (monitors s) (exits s) (given_up s)
      end
  | EvExit p code =>
      match children (mgr s) !! p with
      | Some (mkChild pid None) =>
          mkSup (mkManager (runners (mgr s)) (<[p := mkChild pid (Some code)]> (children (mgr s)))) (monitors s) (exits s) (given_up s)
      | _ => s
      end
  | EvMonitor i wait_err =>
      match monitors s !! i with
      | None => s
      | Some (sid, p) =>
          match exit_code wait_err p (mgr s) with
          | None => s
          | Some code =>
              let '(notify, m) := exit_section sid p (mgr s) in
              mkSup m (remove_nth i (monitors s)) (if notify then exits s ++ [(sid, p, code)] else exits s)
                (if wait_err then given_up s ++ [p] else given_up s)
          end
      end
  end.

Definition sup_new : Sup := mkSup manager_new [] [] [].
Definition run_events (es : list Event) : Sup := foldl (λ s e, sup_step e s) sup_new es.

(** ** Facts *)

Lemma remove_nth_perm {A} i (l : list A) x : l !! i = Some x → l ≡ₚ x :: remove_nth i l.
Proof. intros H. rewrite <-(take_drop_middle l i x H) at 1. unfold remove_nth. by rewrite Permutation_middle. Qed.

Lemma elem_of_remove_nth {A} i (l : list A) x y : l !! i = Some x → y ∈ l ↔ y = x ∨ y ∈ remove_nth i l.
Proof. intros H%remove_nth_perm. rewrite <-elem_of_cons. by apply elem_of_Permutation_proper. Qed.

(** Every tracked child has a monitor that still waits; every child is waited for, or
    has been answered for, once; a live one is waited for unless its monitor gave up. *)
Record sup_inv (s : Sup) : Prop := mkSupInv {
  si_tracked : ∀ sid e p, runners (mgr s) !! sid = Some e → r_process e = Some p → (sid, p) ∈ monitors s;
  si_monitors : NoDup (monitors s).*2 ∧ ∀ sid p, (sid, p) ∈ monitors s → p < length (children (mgr s));
  si_exits : NoDup (exits s).*1.*2 ∧
    ∀ sid p code, (sid, p, code) ∈ exits s → p < length (children (mgr s)) ∧ p ∉ (monitors s).*2;
  si_live : ∀ p pid, children (mgr s) !! p = Some (mkChild pid None) → p ∈ (monitors s).*2 ∨ p ∈ given_up s
}.

Lemma sup_inv_spawn env sid cwd opts s : sup_inv s → sup_inv (sup_step (EvSpawn env sid cwd opts) s).
Proof.
  intros [Ht [Hm1 Hm2] [He1 He2] Hl]. cbn. destruct (spawn_runner env sid cwd opts (mgr s)) as [r m] eqn:E.
  assert (match r with
          | Ok (pid, p) => p = length (children (mgr s)) ∧ m = mkManager (<[sid := mkRunner sid pid cwd (o_worktree_path opts) None
              (se_now env) (Some p)]> (runners (mgr s))) (children (mgr s) ++ [mkChild pid None])
          | Err _ => m = mgr s end) as H by (revert E; unfold spawn_runner; repeat case_match; by intros; simplify_eq).
  destruct r as [[pid p]|]; [|by subst m]. destruct H as [Hp ->]. split; cbn.
  - intros sid' e q Hq Hpr. rewrite elem_of_app, list_elem_of_singleton. apply lookup_insert_Some in Hq as [[<- <-]|[_ Hq]].
    + right. cbn in Hpr. congruence.
    + left. by eapply Ht.
  - rewrite fmap_app, length_app. cbn. split.
    + apply NoDup_app. split_and!; [done| |apply NoDup_singleton]. intros x ([sid' q] & -> & Hin)%list_elem_of_fmap.
      apply Hm2 in Hin. rewrite list_elem_of_singleton. cbn. lia.
    + intros sid' q [Hin%Hm2|[= -> ->]%list_elem_of_singleton]%elem_of_app; lia.
  - split; [done|]. intros sid' q code Hin. destruct (He2 _ _ _ Hin) as [Hc Hn].
    rewrite length_app. split; [lia|]. rewrite fmap_app. cbn.
    intros [?| ->%list_elem_of_singleton]%elem_of_app; [done|lia].
  - intros q pid'. rewrite fmap_app, elem_of_app. cbn. intros [Hq|[Hle Hq]]%lookup_app_Some.
    + destruct (Hl _ _ Hq); tauto.
    + left. right. apply list_elem_of_singleton. apply list_lookup_singleton_Some in Hq as [? _]. lia.
Qed.

Lemma sup_inv_exit p code s : sup_inv s → sup_inv (sup_step (EvExit p code) s).
Proof.
  intros I. cbn. destruct (children (mgr s) !! p) as [[pid [st|]]|] eqn:Ep; [done| |done].
  destruct I as [Ht [Hm1 Hm2] [He1 He2] Hl]. split; cbn; [done| | |].
  - split; [done|]. intros sid q Hin. rewrite length_insert. by eapply Hm2.
  - split; [done|]. intros sid q c Hin. destruct (He2 _ _ _ Hin) as [Hc Hn]. split; [|done].
    by rewrite length_insert.
  - intros q pid' Hq. destruct (decide (q = p)) as [->|Hne]; [|rewrite list_lookup_insert_ne in Hq by done; by eapply Hl].
    rewrite list_lookup_insert_eq in Hq by by eapply lookup_lt_Some. done.
Qed.

Lemma exit_section_spec sid p m :
  let '(notify, m') := exit_section sid p m in
  children m' = children m ∧
  runners m' = (if notify : bool then delete sid (runners m) else runners m) ∧
  (notify = true ↔ ∃ e, runners m !! sid = Some e ∧ ∀ q, r_process e = Some q → q = p).
Proof.
  unfold exit_section. destruct (runners m !! sid) as [e|] eqn:E; [|split_and!; try done; naive_solver].
  destruct (r_process e) as [q|] eqn:Eq; [case_decide as Hq|]; (split_and!; [done..|]); split; try done.
  - intros (e' & [= <-] & H). destruct Hq. by apply H.
  - intros _. exists e. split; [done|]. intros q' Hq'. congruence.
  - intros _. exists e. split; [done|]. congruence.
Qed.

Lemma sup_inv_monitor i err s : sup_inv s → sup_inv (sup_step (EvMonitor i err) s).
Proof.
  intros I. cbn. destruct (monitors s !! i) as [[sid p]|] eqn:Ei; [|done]. destruct (exit_code err p (mgr s)) as [code|] eqn:Ec; [|done].
  pose proof (exit_section_spec sid p (mgr s)) as Hx. destruct (exit_section sid p (mgr s)) as [notify m]. destruct Hx as (Hc & Hr & Hn).
  destruct I as [Ht [Hm1 Hm2] [He1 He2] Hl]. pose proof (λ y, elem_of_remove_nth i (monitors s) (sid, p) y Ei) as Hrm.
  pose proof (remove_nth_perm i (monitors s) _ Ei) as Hp.
  apply (fmap_Permutation snd) in Hp. cbn in Hp. set (rest := remove_nth i (monitors s)) in *.
  assert (NoDup (p :: rest.*2)) as [Hnp Hnd]%NoDup_cons by (by rewrite Hp in Hm1).
  assert (∀ q, q ∈ (monitors s).*2 ↔ q = p ∨ q ∈ rest.*2) as Hrm2.
  { intros q. rewrite <-elem_of_cons. by apply elem_of_Permutation_proper. }
  assert (∀ sid' q c, (sid', q, c) ∈ (if notify then exits s ++ [(sid, p, code)] else exits s) →
    (sid', q, c) ∈ exits s ∨ sid' = sid ∧ q = p ∧ c = code) as Hex.
  { intros sid' q c. destruct notify; [|by left]. rewrite elem_of_app, list_elem_of_singleton. intros [?|[= -> -> ->]]; auto. }
  split; cbn.
  - intros sid' e q He Hq. rewrite Hr in He. assert (runners (mgr s) !! sid' = Some e) as He'.
    { destruct notify; [|done]. by apply lookup_delete_Some in He as [_ ?]. }
    destruct (proj1 (Hrm _) (Ht _ _ _ He' Hq)) as [[= -> ->]|?]; [|done]. exfalso.
    destruct notify; [by rewrite lookup_delete_eq in He|]. assert (false = true) as Hf; [|done].
    apply Hn. exists e. split; [done|]. congruence.
  - split; [done|]. intros sid' q Hin. rewrite Hc. apply (Hm2 sid'), Hrm. by right.
  - split.
    + destruct notify; [|done]. rewrite !fmap_app. apply NoDup_app. split_and!; [done| |apply NoDup_singleton].
      intros q ([sid' q'] & -> & ([[sid'' q''] c] & [= -> ->] & Hin)%list_elem_of_fmap)%list_elem_of_fmap.
      cbn. intros ->%list_elem_of_singleton. destruct (He2 _ _ _ Hin) as [_ Hno]. apply Hno, Hrm2. by left.
    + intros sid' q c [Hin|(-> & -> & ->)]%Hex; rewrite Hc; [|split; [by apply (Hm2 sid), Hrm; left|done]].
      destruct (He2 _ _ _ Hin) as [? Hno]. split; [done|]. intros ?. apply Hno, Hrm2. by right.
  - intros q pid. rewrite Hc. intros Hq. destruct (Hl _ _ Hq) as [[->|?]%Hrm2|?]; [|by left|right; destruct err; [apply elem_of_app; by left|done]].
    right. unfold exit_code in Ec. destruct err; [apply elem_of_app; right; by left|]. by rewrite Hq in Ec.
Qed.

Lemma sup_inv_step e s : sup_inv s → sup_inv (sup_step e s).
Proof.
  destruct e as [now sid pid cwd wt ver|sid|env sid cwd opts|p code|i err]; intros I.
  - destruct I as [Ht Hm He Hl]. split; cbn; try done. intros sid' e p. intros [[<- <-]|[_ H]]%lookup_insert_Some; [|by eapply Ht].
    cbn. intros (e' & He' & Hp)%bind_Some. by eapply Ht.
  - destruct I as [Ht Hm He Hl]. split; cbn; try done. intros sid' e p [_ H]%lookup_delete_Some. by eapply Ht.
  - by apply sup_inv_spawn.
  - by apply sup_inv_exit.
  - by apply sup_inv_monitor.
Qed.

Lemma sup_inv_run es : sup_inv (run_events es).
Proof.
  unfold run_events. assert (sup_inv sup_new) as H.
  { split; cbn.
    - done.
    - split; [apply NoDup_nil_2|]. by intros sid p ?%not_elem_of_nil.
    - split; [apply NoDup_nil_2|]. by intros sid p code ?%not_elem_of_nil.
    - intros p pid. by rewrite lookup_nil. }
  revert H. generalize sup_new. induction es as [|e es IH]; intros s H; [done|]. cbn. by apply IH, sup_inv_step.
Qed.

(** ** The supervisor's contract *)

(** C26. Every runner the map tracks a child for is watched.  However registrations,
    spawns, exits, polls and failures of [try_wait] interleave: each tracked runner is
    still waited for; each live child is, unless its monitor's [try_wait] failed; no
    child is waited for twice or answered for twice.  A monitor answers when its child
    has exited or cannot be waited for, then stops, and that answer removes and reports
    the session exactly when the map still holds this child for it, or an entry that
    tracks no child (such an entry may be of a newer runner); it leaves every other
    session alone, and leaves the map alone when a newer child has taken the place. *)
Theorem supervised es :
  let s := run_events es in
  (∀ sid e p, runners (mgr s) !! sid = Some e → r_process e = Some p → (sid, p) ∈ monitors s) ∧
  (∀ p pid, children (mgr s) !! p = Some (mkChild pid None) → p ∈ (monitors s).*2 ∨ p ∈ given_up s) ∧
  NoDup ((monitors s).*2 ++ (exits s).*1.*2) ∧
  ∀ i err sid p, monitors s !! i = Some (sid, p) →
    let s' := sup_step (EvMonitor i err) s in
    (err = false ∧ (∃ pid, children (mgr s) !! p = Some (mkChild pid None)) ∧ s' = s) ∨
    ∃ code, (err = true ∧ code = 0%Z ∨ ∃ pid status, children (mgr s) !! p = Some (mkChild pid (Some status)) ∧ code = default 0%Z status) ∧
    monitors s ≡ₚ (sid, p) :: monitors s' ∧ given_up s' = given_up s ++ (if err then [p] else []) ∧
    (∀ sid', sid' ≠ sid → runners (mgr s') !! sid' = runners (mgr s) !! sid') ∧
    match runners (mgr s) !! sid with
    | Some e => if decide (r_process e = Some p ∨ r_process e = None)
                then runners (mgr s') !! sid = None ∧ exits s' = exits s ++ [(sid, p, code)]
                else runners (mgr s') = runners (mgr s) ∧ exits s' = exits s
    | None => runners (mgr s') = runners (mgr s) ∧ exits s' = exits s
    end.
Proof.
  cbv zeta. destruct (sup_inv_run es) as [Ht [Hm1 Hm2] [He1 He2] Hl]. split_and!; [done|done| |].
  - apply NoDup_app. split_and!; [done| |done]. intros p Hp ([sid q] & -> & ([[sid' q'] c] & [= -> ->] & Hin)%list_elem_of_fmap)%list_elem_of_fmap.
    by destruct (He2 _ _ _ Hin).
  - intros i err sid p Hi. destruct (lookup_lt_is_Some_2 (children (mgr (run_events es))) p) as [[pid status] Ep].
    { apply (Hm2 sid). by eapply list_elem_of_lookup_2. }
    cbn. rewrite Hi. destruct (exit_code err p (mgr (run_events es))) as [code|] eqn:Hc.
    2: { left. unfold exit_code in Hc. rewrite Ep in Hc. destruct err; [done|]. destruct status; [done|]. by split_and!; [|exists pid|]. }
    right. exists code. split.
    { unfold exit_code in Hc. rewrite Ep in Hc. destruct err; [left; by injection Hc as <-|right].
      destruct status as [st|]; [|done]. exists pid, st. by injection Hc as <-. }
    pose proof (exit_section_spec sid p (mgr (run_events es))) as Hx.
    destruct (exit_section sid p _) as [notify m]. destruct Hx as (_ & Hr & Hn). cbn. rewrite Hr.
    split; [by apply remove_nth_perm|]. split; [by destruct err; [|rewrite app_nil_r]|].
    split; [intros sid' Hne; destruct notify; [by rewrite lookup_delete_ne|done]|].
    destruct (runners (mgr (run_events es)) !! sid) as [e|] eqn:Ee.
    + case_decide as Hd.
      * assert (notify = true) as ->.
        { apply Hn. exists e. split; [done|]. intros q Hq. destruct Hd; congruence. }
        by rewrite lookup_delete_eq.
      * destruct notify; [|done]. destruct (proj1 Hn eq_refl) as (e' & [= <-] & H). exfalso. apply Hd.
        destruct (r_process e) as [q|]; [left; f_equal; by apply H|by right].
    + destruct notify; [|done]. destruct (proj1 Hn eq_refl) as (e' & ? & _). done.
Qed.

(** ** Concrete runs *)

Module Demo.
Definition env : SpawnEnv := mkSpawnEnv 5 (Some ["tp-runner"]) (Err "") (Ok (Some 100%N)) false.
Definition env2 : SpawnEnv := mkSpawnEnv 6 (Some ["tp-runner"]) (Err "") (Ok (Some 200%N)) false.

(** A restart: the old child's exit leaves the new one's entry alone. *)
Definition restart : list Event :=
  [EvSpawn env "s" "/w" default_options; EvSpawn env2 "s" "/w" default_options; EvExit 0 None; EvMonitor 0 false].
Example restart_keeps_new :
  r_pid <$> runners (mgr (run_events restart)) !! "s" = Some 200%N ∧ exits (run_events restart) = [] ∧
  monitors (run_events restart) = [("s", 1)].
Proof. split_and!; vm_compute; reflexivity. Qed.

(** A runner this daemon did not spawn has no child to tell it apart: when it took the
    place of one that has said bye, the old child's exit removes and reports it. *)
Definition taken_over : list Event :=
  [EvSpawn env "s" "/w" default_options; EvUnregister "s"; EvRegister 7 "s" 300 "/w" None None; EvExit 0 (Some 0%Z); EvMonitor 0 false].
Example registered_only_torn_down :
  runners (mgr (run_events taken_over)) !! "s" = None ∧ exits (run_events taken_over) = [("s", 0, 0%Z)].
Proof. split; vm_compute; reflexivity. Qed.

(** A monitor that cannot wait reports its child as gone while it lives. *)
Example live_child_given_up :
  let s := run_events [EvSpawn env "s" "/w" default_options; EvMonitor 0 true] in
  runners (mgr s) !! "s" = None ∧ exits s = [("s", 0, 0%Z)] ∧ children (mgr s) = [mkChild 100 None] ∧ monitors s = [].
Proof. vm_compute. split_and!; reflexivity. Qed.

Example args :
  runner_args ["tp-runner"] "s" "/w" (mkSpawnOptions None (Some "/t") (Some 80%N) None (Some ["-p"]) None) =
  ["tp-runner"; "--sid"; "s"; "--cwd"; "/w"; "--worktree-path"; "/t"; "--cols"; "80"; "--"; "-p"].
Proof. reflexivity. Qed.
End Demo.
