(* ===== verification/IpcServer.v ===== *)
(** * IpcServer: the daemon's local socket.
    [tp-daemon/src/ipc/server.rs]: one record per connection ever accepted, the
    registry of those that count as connected, the reading tasks with their frame
    decoders, and the outbound queues.  The owner's callbacks are parameters; a
    handler may send on any connection, and may panic.  Binding, re-binding and the
    heal timer's file-system checks are not modelled. *)
From stdpp Require Import base list numbers strings gmap fin_maps.
From Stdlib Require Import Lia NArith.
From S2P Require Import Prelude Bytes Text Json Codec Ipc.

Definition OUTBOUND_CAPACITY : nat := 4096.

(** [ConnectedRunner] and the other end of its channel. *)
Record ConnectedRunner := mkRunner { sid : option string; queue : list bytes; writer_open : bool }.

Record Server (W : Type) := mkServer {
  conns : gmap N ConnectedRunner;
  registry : gset N;
  readers : gmap N FrameDecoder;
  next_conn_id : N;
  owner : W
}.
Arguments mkServer {W}. Arguments conns {W}. Arguments registry {W}. Arguments readers {W}.
Arguments next_conn_id {W}. Arguments owner {W}.

Section server.
Context {W : Type} {HIN : HashIter N}.
Context (from_slice : bytes → option Value).

(** The callbacks; [on_message] answers whether it returned ([false]: it panicked). *)
Context (on_message : N → IpcMessage → option bytes → Server W → bool * Server W).
Context (on_connect on_disconnect : N → Server W → Server W).

Definition server_new (w : W) : Server W := mkServer ∅ ∅ ∅ 1 w.

Definition set_conns c (s : Server W) := mkServer c (registry s) (readers s) (next_conn_id s) (owner s).
Definition set_registry r (s : Server W) := mkServer (conns s) r (readers s) (next_conn_id s) (owner s).
Definition set_readers d (s : Server W) := mkServer (conns s) (registry s) d (next_conn_id s) (owner s).

(** [IpcServer::send]: [try_send] of the encoded frame. *)
Definition send (id : N) (json : bytes) (binary : option bytes) (s : Server W) : bool * Server W :=
  match conns s !! id with
  | Some c =>
      if writer_open c && bool_decide (length (queue c) < OUTBOUND_CAPACITY)
      then (true, set_conns (<[id := mkRunner (sid c) (queue c ++ [encode_frame json binary]) (writer_open c)]> (conns s)) s)
      else (false, s)
  | None => (false, s)
  end.

Definition find_runner_by_sid (target : string) (s : Server W) : option N :=
  head (filter (λ id, conns s !! id ≫= sid = Some target) (set_iter (registry s))).

Definition connected_runners (s : Server W) : list N := set_iter (registry s).

(** [stop]: the registry is emptied; the tasks of the open connections go on. *)
Definition server_stop (s : Server W) : Server W := set_registry ∅ s.

(** [handle_conn], up to its loop. *)
Definition accept (s : Server W) : Server W :=
  let id := next_conn_id s in
  on_connect id (mkServer (<[id := mkRunner None [] true]> (conns s)) (registry s ∪ {[id]}) (<[id := Codec.new]> (readers s))
                   (id + 1)%N (owner s)).

Definition track_sid (id : N) (msg : IpcMessage) (s : Server W) : Server W :=
  match msg with
  | Hello hsid _ _ _ _ =>
      set_conns (alter (λ c, mkRunner (Some hsid) (queue c) (writer_open c)) id (conns s)) s
  | _ => s
  end.

(** The [for] over the frames of one read: a malformed frame is skipped, a panic
    leaves the loop. *)
Fixpoint dispatch_frames (id : N) (frames : list DecodedFrame) (s : Server W) : Server W :=
  match frames with
  | [] => s
  | f :: frames =>
      match from_slice (json f) ≫= parse_ipc_message with
      | None => dispatch_frames id frames s
      | Some msg =>
          let '(returned, s) := on_message id msg (binary f) (track_sid id msg s) in
          if returned : bool then dispatch_frames id frames s else s
      end
  end.

(** After the loop: the writer is aborted, the connection leaves the registry. *)
Definition teardown (id : N) (s : Server W) : Server W :=
  let s := mkServer (alter (λ c, mkRunner (sid c) (queue c) false) id (conns s)) (registry s) (delete id (readers s))
             (next_conn_id s) (owner s) in
  if decide (id ∈ registry s) then on_disconnect id (set_registry (registry s ∖ {[id]}) s) else s.

(** One read of the loop; an empty one is the end of the stream. *)
Definition on_read (id : N) (chunk : bytes) (s : Server W) : Server W :=
  match readers s !! id with
  | None => s
  | Some d =>
      match chunk with
      | [] => teardown id s
      | _ =>
          let '(r, d) := decode d chunk in
          let s := set_readers (<[id := d]> (readers s)) s in
          match r with
          | Err _ => teardown id s
          | Ok frames => dispatch_frames id frames s
          end
      end
  end.

Definition on_read_error (id : N) (s : Server W) : Server W :=
  match readers s !! id with None => s | Some _ => teardown id s end.

(** The writer takes a frame; a failed write ends it. *)
Definition writer_step (id : N) (write_ok : bool) (s : Server W) : Server W :=
  match conns s !! id with
  | Some (mkRunner c (_ :: q) true) => set_conns (<[id := mkRunner c q write_ok]> (conns s)) s
  | _ => s
  end.

Definition reads (id : N) (chunks : list bytes) (s : Server W) : Server W := foldl (λ s c, on_read id c s) s chunks.

(** ** One connection's stream *)

(** A handler that returns and leaves the reading tasks alone. *)
Definition steady : Prop := ∀ id msg b s, (on_message id msg b s).1 = true ∧ readers (on_message id msg b s).2 = readers s.
(** ... and does not look at them. *)
Definition blind : Prop := ∀ id msg b s d,
  on_message id msg b (set_readers d s) = ((on_message id msg b s).1, set_readers d (on_message id msg b s).2).

Lemma set_readers_id (s : Server W) : set_readers (readers s) s = s.
Proof. by destruct s. Qed.

Lemma track_set_readers id msg d s : track_sid id msg (set_readers d s) = set_readers d (track_sid id msg s).
Proof. by destruct msg. Qed.

Lemma track_readers id msg s : readers (track_sid id msg s) = readers s.
Proof. by destruct msg. Qed.

Lemma dispatch_set_readers id frames d s : blind →
  dispatch_frames id frames (set_readers d s) = set_readers d (dispatch_frames id frames s).
Proof.
  intros B. revert s. induction frames as [|f frames IH]; intros s; [done|]. cbn.
  destruct (from_slice (json f) ≫= parse_ipc_message) as [msg|]; [|apply IH].
  rewrite track_set_readers, B. destruct (on_message id msg (binary f) (track_sid id msg s)) as [[] s']; cbn; [apply IH|done].
Qed.

Lemma dispatch_readers id frames s : steady → readers (dispatch_frames id frames s) = readers s.
Proof.
  intros H. revert s. induction frames as [|f frames IH]; intros s; [done|]. cbn.
  destruct (from_slice (json f) ≫= parse_ipc_message) as [msg|]; [|apply IH].
  destruct (H id msg (binary f) (track_sid id msg s)) as [H1 H2].
  destruct (on_message id msg (binary f) (track_sid id msg s)) as [r s']. cbn in H1, H2. subst r. by rewrite IH, H2, track_readers.
Qed.

Lemma dispatch_app id f1 f2 s : steady → dispatch_frames id (f1 ++ f2) s = dispatch_frames id f2 (dispatch_frames id f1 s).
Proof.
  intros H. revert s. induction f1 as [|f f1 IH]; intros s; [done|]. cbn.
  destruct (from_slice (json f) ≫= parse_ipc_message) as [msg|]; [|apply IH].
  destruct (H id msg (binary f) (track_sid id msg s)) as [H1 _].
  destruct (on_message id msg (binary f) (track_sid id msg s)) as [r s']. cbn in H1. by subst r.
Qed.

(** The reads of a connection dispatch exactly the frames its decoder is fed. *)
Lemma reads_feed id chunks s d frames d' : steady → blind → Forall (λ c, c ≠ []) chunks →
  readers s !! id = Some d → feed d chunks = (Ok frames, d') →
  reads id chunks s = set_readers (<[id := d']> (readers s)) (dispatch_frames id frames s).
Proof.
  intros Hs Hb Hc. revert s d frames d'. induction Hc as [|c chunks Hne Hc IH]; intros s d frames d' Hd Hf.
  { cbn in Hf. injection Hf as <- <-. cbn. by rewrite insert_id, set_readers_id. }
  cbn in Hf. destruct (decode d c) as [[fs|e] d1] eqn:Ed; [|done]. destruct (feed d1 chunks) as [[gs|e] d2] eqn:Ef; [|done].
  injection Hf as <- <-. cbn [reads foldl]. unfold on_read at 2. rewrite Hd. destruct c as [|b c]; [done|]. rewrite Ed.
  rewrite dispatch_set_readers by done. fold (reads id chunks).
  change (foldl _ ?x chunks) with (reads id chunks x).
  rewrite (IH _ d1 gs d2); [|by cbn; rewrite lookup_insert_eq|done].
  rewrite dispatch_set_readers by done. rewrite dispatch_app by done. cbn. by rewrite insert_insert_eq.
Qed.

(** However the socket cuts what a runner or a command sends, the daemon acts on it
    as if the frames came one by one: the reads of a connection leave the same server,
    registry, queues and owner alike, as the handler run on each frame in order, with
    nothing left in the decoder. *)
Theorem reads_are_frames id frames chunks s :
  steady → blind → Forall sendable frames → Forall (λ c, c ≠ []) chunks →
  readers s !! id = Some Codec.new → concat chunks = concat (map enc frames) →
  reads id chunks s = dispatch_frames id (map norm frames) s.
Proof.
  intros Hs Hb Hf Hc Hr Hcat. pose proof (enc_parse frames Hf) as HP. rewrite <-Hcat in HP.
  destruct (feed_new _ _ _ _ HP) as [E1 E2]. specialize (E2 eq_refl).
  destruct (feed Codec.new chunks) as [r d] eqn:Ef. cbn in E1, E2. subst r d.
  rewrite (reads_feed id chunks s _ _ _ Hs Hb Hc Hr Ef). rewrite insert_id by done.
  rewrite <-dispatch_set_readers by done. by rewrite set_readers_id.
Qed.
End server.

(** ** A concrete server *)

Module Demo.
#[local] Instance iter : HashIter N := elements_iter N.

(** A reader of one shape of message, enough to tell frames apart. *)
Definition from_slice (b : bytes) : option Value :=
  match b with
  | [] => None
  | _ => Some (Object [("t", Str "hello"); ("sid", Str (str_of_bytes b)); ("cwd", Str "/"); ("pid", Num (PosInt 7))])
  end.

(** The owner records the sids of the hellos; it panics on the sid "boom". *)
Definition on_message (panics : bool) (id : N) (msg : IpcMessage) (b : option bytes) (s : Server (list string))
  : bool * Server (list string) :=
  match msg with
  | Hello hsid _ _ _ _ =>
      if panics && String.eqb hsid "boom" then (false, s)
      else (true, mkServer (conns s) (registry s) (readers s) (next_conn_id s) (owner s ++ [hsid]))
  | _ => (true, s)
  end.
Definition read := reads from_slice (on_message true) (λ _ s, s).
Definition one : Server (list string) := accept (λ _ s, s) (server_new []).
Definition frame (t : string) : DecodedFrame := mkFrame (as_bytes t) None.

Lemma reads_are_frames_witness :
  let e := concat (map enc [frame "a"; frame "bc"]) in
  owner (reads from_slice (on_message false) (λ _ s, s) 1 [take 3 e; drop 3 e] one) = ["a"; "bc"].
Proof.
  cbv zeta. assert (∀ chunks, concat chunks = concat (map enc [frame "a"; frame "bc"]) → Forall (λ c, c ≠ []) chunks →
    owner (reads from_slice (on_message false) (λ _ s, s) 1 chunks one) = ["a"; "bc"]) as H.
  { intros chunks Hc Hne. pose proof (reads_are_frames from_slice (on_message false) (λ _ s, s) 1 [frame "a"; frame "bc"] chunks one) as H.
    rewrite H; [vm_compute; reflexivity| | | |exact Hne|vm_compute; reflexivity|exact Hc].
    - intros id msg b s. by destruct msg.
    - intros id msg b s d. by destruct msg.
    - repeat constructor; unfold sendable; vm_compute; discriminate. }
  apply H; [reflexivity|]. repeat constructor; vm_compute; discriminate.
Defined.

(** After a panic the frames left of that read are dropped; the connection stays. *)
Example panic_keeps_socket :
  let s := read 1 [enc (frame "boom") ++ enc (frame "lost"); enc (frame "later")] one in
  owner s = ["later"] ∧ registry s = {[1%N]} ∧ is_Some (readers s !! 1%N).
Proof. split_and!; [vm_compute; reflexivity..|by eexists]. Qed.

(** A frame in the same read as a poisoned header is dropped with it. *)
Example poison_drops_its_read :
  let bad := repeat (as_u8 255) 8 in
  owner (read 1 [enc (frame "a") ++ bad] one) = [] ∧ owner (read 1 [enc (frame "a"); bad] one) = ["a"].
Proof. split; vm_compute; reflexivity. Qed.

(** Of two connections that said hello for one session, either may be found. *)
Example found_by_sid :
  find_runner_by_sid "a" (reads from_slice (on_message true) (λ _ s, s) 1 [enc (frame "a")] one) = Some 1%N.
Proof. vm_compute. reflexivity. Qed.
End Demo.
