(* ===== verification/Worktree.v ===== *)
(** * Worktree: git worktrees, inside their base directory.
    [tp-daemon/src/worktree/manager.rs].  [git] and the file system are parameters:
    the answer to each [git] call, [std::fs::canonicalize], and whether a directory
    may be written to. *)
From stdpp Require Import base list numbers strings.
From Stdlib Require Import Lia NArith ZArith Ascii.
From S2P Require Import Prelude Bytes Text Chars.

(** ** Paths, component by component *)

Record Path := mkPath { absolute : bool; parts : list string }.
#[export] Instance Path_eq_dec : EqDecision Path.
Proof. solve_decision. Defined.

(** [Path::components]: empty components and [.] are dropped. *)
Definition components (s : string) : Path :=
  mkPath (match s with String c _ => bool_decide (c = "/"%char) | EmptyString => false end)
    (filter (λ p, p ≠ "" ∧ p ≠ ".") (split_char "/"%char s)).

Definition display (p : Path) : string := (if absolute p then "/" else "") +:+ join "/" (parts p).

Definition push (p : Path) (c : string) : Path := mkPath (absolute p) (parts p ++ [c]).

(** One component of [lexically_normalize]. *)
Definition normalize_step (out : Path) (c : string) : Path :=
  if String.eqb c ".." then
    match parts out with
    | [] => if absolute out then out else push out ".."
    | _ => mkPath (absolute out) (removelast (parts out))
    end
  else push out c.
Definition lexically_normalize (p : Path) : Path := foldl normalize_step (mkPath (absolute p) []) (parts p).

Definition resolve_against (repo_root : Path) (path : string) : Path :=
  let candidate := components path in
  lexically_normalize (if absolute candidate then candidate else mkPath (absolute repo_root) (parts repo_root ++ parts candidate)).

Definition parent (p : Path) : option Path :=
  match parts p with [] => None | _ => Some (mkPath (absolute p) (removelast (parts p))) end.
Definition root : Path := mkPath true [].

(** ** Worktrees *)

Record WorktreeInfo := mkWorktree { wt_path : string; wt_branch : option string; wt_head : string; wt_is_main : bool }.

(** The record under construction: [branch] is set when the record opens. *)
Record PartialWorktree := mkPartial { pw_path : option string; pw_branch : option (option string); pw_head : option string; pw_is_main : bool }.
Definition partial_new : PartialWorktree := mkPartial None None None false.

Definition into_worktree_info (p : PartialWorktree) : option WorktreeInfo :=
  match p with
  | mkPartial (Some path) (Some branch) (Some head) is_main => Some (mkWorktree path branch head is_main)
  | _ => None
  end.

(** A line of [git worktree list --porcelain]. *)
Definition porcelain_line (acc : list WorktreeInfo * PartialWorktree) (line : string) : list WorktreeInfo * PartialWorktree :=
  let '(worktrees, current) := acc in
  match strip_prefix "worktree " line with
  | Some path => (worktrees ++ option_list (into_worktree_info current), mkPartial (Some path) (Some None) None false)
  | None =>
      match strip_prefix "HEAD " line with
      | Some head => (worktrees, mkPartial (pw_path current) (pw_branch current) (Some head) (pw_is_main current))
      | None =>
          match strip_prefix "branch " line with
          | Some reference =>
              let branch := default reference (strip_prefix "refs/heads/" reference) in
              (worktrees, mkPartial (pw_path current) (Some (Some branch)) (pw_head current) (pw_is_main current))
          | None =>
              if String.eqb line "detached" then acc
              else if String.eqb line "bare" then (worktrees, mkPartial (pw_path current) (pw_branch current) (pw_head current) true)
              else if String.eqb line "" then (worktrees ++ option_list (into_worktree_info current), partial_new)
              else acc
          end
      end
  end.

Definition mark_first_main (l : list WorktreeInfo) : list WorktreeInfo :=
  match l with
  | w :: r => if existsb wt_is_main l then l else mkWorktree (wt_path w) (wt_branch w) (wt_head w) true :: r
  | [] => []
  end.

Definition parse_porcelain (out : string) : list WorktreeInfo :=
  let '(worktrees, current) := foldl porcelain_line ([], partial_new) (split_char (ascii_of_N 10) out) in
  mark_first_main (worktrees ++ option_list (into_worktree_info current)).

(** ** The manager *)

(** What a [git] child answers; no status code when a signal ended it. *)
Inductive GitAnswer := CouldNotRun (msg : string) | Exited (status : option Z) (stdout stderr : bytes).

(** The repository, and the git commands run so far with their directories. *)
Record Manager := mkManager { repo_root : Path; calls : list (list string * option Path) }.

Definition M (A : Type) : Type := Manager → A * Manager.
#[export] Instance M_ret : MRet M := λ A a m, (a, m).
#[export] Instance M_bind : MBind M := λ A B k f m, let '(a, m) := f m in k a m.

(** [f]'s error ends the whole. *)
Definition try_then {A B} (f : M (result A string)) (k : A → M (result B string)) : M (result B string) :=
  r ← f; match r with Ok a => k a | Err e => mret (Err e) end.
Notation "'try' x ← m ; k" := (try_then m (λ x, k)) (at level 20, x pattern, m at level 100, k at level 200, right associativity).

(** The system: the answer to the [n]-th command, [canonicalize], and whether a
    directory exists and is not read-only. *)
Record System := mkSystem { git : nat → GitAnswer; fs_canonicalize : Path → option Path; writable_dir : Path → bool }.

Definition signed_dec (z : Z) : string := if decide (0 ≤ z)%Z then print_dec (Z.to_N z) else "-" +:+ print_dec (Z.to_N (- z)).

Section worktree.
Context (sys : System).

Definition git_command (args : list string) (cwd : option Path) : M GitAnswer :=
  λ m, (git sys (length (calls m)), mkManager (repo_root m) (calls m ++ [(args, cwd)])).

Definition git_output (args : list string) (cwd : option Path) : M (result string string) :=
  answer ← git_command args cwd;
  let arg0 := default "" (head args) in
  mret match answer with
  | CouldNotRun e => Err ("git " +:+ arg0 +:+ " could not run: " +:+ e)
  | Exited (Some 0%Z) stdout _ => Ok (from_utf8_lossy stdout)
  | Exited status _ stderr =>
      let stderr := trim (from_utf8_lossy stderr) in
      let status := match status with Some c => signed_dec c | None => "null" end in
      Err ("git " +:+ arg0 +:+ " exited " +:+ status +:+ (if decide (stderr = "") then "" else ": " +:+ stderr))
  end.

Definition git_run (args : list string) (cwd : option Path) : M (result unit string) :=
  answer ← git_command args cwd;
  let arg0 := default "" (head args) in
  mret match answer with
  | CouldNotRun e => Err ("git " +:+ arg0 +:+ " could not run: " +:+ e)
  | Exited (Some 0%Z) _ _ => Ok tt
  | Exited _ _ stderr => Err ("git " +:+ arg0 +:+ " failed: " +:+ trim (from_utf8_lossy stderr))
  end.

Definition validate_branch_name (branch : string) : M (result unit string) :=
  answer ← git_command ["check-ref-format"; "--branch"; branch] None;
  mret match answer with
  | CouldNotRun e => Err ("cannot validate branch name (git could not run): " +:+ e)
  | Exited (Some 0%Z) _ _ => Ok tt
  | Exited _ _ _ => Err ("Invalid branch name: '" +:+ branch +:+ "'. Branch names cannot contain spaces, '..', '~', '^', ':', control characters, or start/end with '.' or '/'.")
  end.

Definition validate_path_permissions (path : Path) : M (result unit string) :=
  let dir := default (mkPath false []) (parent path) in
  mret (if writable_dir sys dir then Ok tt
        else Err ("Cannot create worktree at '" +:+ display path +:+ "': parent directory '" +:+ display dir
                  +:+ "' does not exist or is not writable.")).

Definition list_worktrees : M (list WorktreeInfo) := λ m,
  let '(r, m) := git_output ["worktree"; "list"; "--porcelain"] (Some (repo_root m)) m in
  (match r with
   | Err _ => []
   | Ok out => if String.eqb (trim out) "" then [] else parse_porcelain out
   end, m).

(** The parent's real path and the leaf as it stands; the path itself when the
    parent does not exist. *)
Definition canonicalize_leaf_lexical (path : Path) : Path :=
  match fs_canonicalize sys (default root (parent path)) with
  | Some real_parent => mkPath (absolute real_parent) (parts real_parent ++ option_list (last (parts path)))
  | None => path
  end.

Definition base_dir (repo_root : Path) : Path := default repo_root (parent repo_root).

Definition contained (repo_root : Path) (path : string) : bool :=
  let resolved := canonicalize_leaf_lexical (resolve_against repo_root path) in
  bool_decide (resolved = base_dir repo_root) || String.prefix (display (base_dir repo_root) +:+ "/") (display resolved).

Definition validate_path_containment (path : string) : M (result unit string) := λ m,
  (if contained (repo_root m) path then Ok tt
   else Err ("Refusing to create worktree at '" +:+ path +:+ "': resolved path '"
             +:+ display (canonicalize_leaf_lexical (resolve_against (repo_root m) path))
             +:+ "' is outside the worktree base directory '" +:+ display (base_dir (repo_root m)) +:+ "'."), m).

Definition canonicalize (m : Manager) (path : string) : string :=
  display (canonicalize_leaf_lexical (resolve_against (repo_root m) path)).

Definition add (path branch : string) (base_branch : option string) : M (result WorktreeInfo string) := λ m,
  let cwd := Some (repo_root m) in
  let absolute_path := resolve_against (repo_root m) path in
  (try _ ← validate_branch_name branch;
   try _ ← match base_branch with Some base => validate_branch_name base | None => mret (Ok tt) end;
   try _ ← validate_path_containment path;
   try _ ← validate_path_permissions absolute_path;
   branch_exists ← git_output ["rev-parse"; "--verify"; branch] cwd;
   try _ ← git_run (match branch_exists, base_branch with
                    | Ok _, _ => ["worktree"; "add"; "--"; path; branch]
                    | Err _, Some base => ["worktree"; "add"; "-b"; branch; "--"; path; base]
                    | Err _, None => ["worktree"; "add"; "-b"; branch; "--"; path]
                    end) cwd;
   try head ← git_output ["rev-parse"; "HEAD"] (Some absolute_path);
   mret (Ok (mkWorktree (display absolute_path) (Some branch) (trim head) false))) m.

Definition remove (path : string) (force : bool) : M (result unit string) := λ m,
  (try _ ← validate_path_containment path;
   git_run (["worktree"; "remove"] ++ (if force then ["--force"] else []) ++ ["--"; path]) (Some (repo_root m))) m.

Definition prune : M (result unit string) := λ m, git_run ["worktree"; "prune"] (Some (repo_root m)) m.
End worktree.

(** [WorktreeManager::new] *)
Definition manager_new (sys : System) (repo_root : Path) : option Manager :=
  (λ p, mkManager p []) <$> fs_canonicalize sys repo_root.

(** ** Paths that are lexically resolved *)

Definition name_ok (c : string) : Prop := c ≠ "" ∧ c ≠ "." ∧ str_contains "/"%char c = false.
Definition clean (p : Path) : Prop := absolute p = true ∧ Forall (λ c, name_ok c ∧ c ≠ "..") (parts p).

Lemma components_ok s : Forall name_ok (parts (components s)).
Proof.
  apply Forall_forall. intros c [[H1 H2] H3]%list_elem_of_filter. split_and!; [done|done|]. by eapply split_char_parts.
Qed.

Lemma normalize_clean p : absolute p = true → Forall name_ok (parts p) → clean (lexically_normalize p).
Proof.
  unfold lexically_normalize. intros -> Hp. assert (clean (mkPath true [])) as Hc by (split; [done|constructor]).
  revert Hc. generalize (mkPath true []). induction Hp as [|c cs Hc _ IH]; intros out Ho; [done|]. cbn. apply IH.
  destruct Ho as [Ha Hf]. unfold normalize_step. destruct (String.eqb_spec c "..") as [->|Hd].
  - destruct (parts out) eqn:E; rewrite ?Ha; [by split; rewrite ?E|]. split; [done|]. cbn [parts]. rewrite <-E in *.
    rewrite removelast_firstn_len. by apply Forall_take.
  - split; [done|]. cbn. apply Forall_app. split; [done|]. by repeat constructor; try apply Hc.
Qed.

Lemma resolve_clean r path : clean r → clean (resolve_against r path).
Proof.
  intros [Ha Hr]. unfold resolve_against. destruct (absolute (components path)) eqn:E; apply normalize_clean; try done.
  - apply components_ok.
  - cbn. apply Forall_app. split; [|apply components_ok]. eapply Forall_impl; [exact Hr|]. by intros c [].
Qed.

Lemma normalize_id p : clean p → lexically_normalize p = p.
Proof.
  intros [Ha Hp]. unfold lexically_normalize. destruct p as [a ps]. cbn in *. subst a.
  assert (∀ acc, foldl normalize_step (mkPath true acc) ps = mkPath true (acc ++ ps)) as H; [|by rewrite (H [])].
  induction Hp as [|c cs [_ Hc] _ IH]; intros acc; cbn; [by rewrite app_nil_r|].
  unfold normalize_step at 2. destruct (String.eqb_spec c ".."); [done|]. unfold push. cbn. by rewrite IH, <-app_assoc.
Qed.

Lemma components_display p : clean p → components (display p) = p.
Proof.
  intros [Ha Hp]. destruct p as [a ps]. cbn in *. subst a. unfold components, display. cbn [absolute parts].
  change ("/" +:+ join "/" ps) with (String "/" (join "/" ps)). cbv beta iota. rewrite bool_decide_eq_true_2 by done. f_equal.
  change (split_char "/" (String "/" (join "/" ps))) with (split_char "/" ("" +:+ String "/" (join "/" ps))).
  rewrite split_char_app by done. rewrite filter_cons_False by (by intros [? _]).
  destruct ps as [|c cs]; [done|]. rewrite split_join; [|done|intros q Hq; rewrite Forall_forall in Hp; by apply Hp].
  apply list_filter_all. intros q Hq. rewrite Forall_forall in Hp. by destruct (Hp q Hq) as [(? & ? & _) _].
Qed.

Lemma join_empty l : Forall (λ c, name_ok c ∧ c ≠ "..") l → join "/" l = "" → l = [].
Proof. intros [|c cs [(Hc & _) _] _]; [done|]. cbn. destruct cs; [done|]. by destruct c. Qed.

(** A text prefix up to a separator is a prefix of the components. *)
Lemma prefix_inside base p : clean base → clean p → String.prefix (display base +:+ "/") (display p) = true →
  ∃ s, s ≠ [] ∧ parts p = parts base ++ s.
Proof.
  intros [Hb Hbs] [Hp Hps] [r Hr]%prefix_app. unfold display in Hr. rewrite Hb, Hp, !str_append_assoc in Hr.
  change ("/" +:+ ?x) with (String "/" x) in Hr. injection Hr as Hr.
  assert (∀ l, Forall (λ c, name_ok c ∧ c ≠ "..") l → ∀ c, c ∈ l → str_contains "/" c = false) as Hno.
  { intros l Hl c Hc. rewrite Forall_forall in Hl. by apply Hl. }
  destruct (parts p) as [|c cs] eqn:Ep.
  { cbn in Hr. by destruct (join "/" (parts base)). }
  pose proof (split_join "/" (c :: cs) ltac:(done) (Hno _ Hps)) as Hsplit. rewrite Hr in Hsplit.
  destruct (parts base) as [|b bs] eqn:Eb.
  - exists (c :: cs). done.
  - change ("/" +:+ r) with (String "/" r) in Hsplit. rewrite split_join_app in Hsplit; [|done|by apply Hno].
    exists (split_char "/" r). split; [apply split_char_ne|done].
Qed.

(** [resolved] is the base directory or inside it. *)
Definition inside (base resolved : Path) : Prop := resolved = base ∨ ∃ s, s ≠ [] ∧ parts resolved = parts base ++ s.

Section facts.
Context (sys : System).
(** The system's real paths are absolute and resolved. *)
Context (real_clean : ∀ p q, fs_canonicalize sys p = Some q → clean q).

Lemma leaf_clean p : clean p → clean (canonicalize_leaf_lexical sys p).
Proof.
  intros [Ha Hp]. unfold canonicalize_leaf_lexical. destruct (fs_canonicalize sys _) as [q|] eqn:E; [|done].
  destruct (real_clean _ _ E) as [Hq Hqs]. split; [done|]. cbn. apply Forall_app. split; [done|].
  destruct (last (parts p)) as [c|] eqn:El; [|constructor]. constructor; [|constructor]. apply last_Some_elem_of in El.
  rewrite Forall_forall in Hp. by apply Hp.
Qed.

Lemma base_clean r : clean r → clean (base_dir r).
Proof.
  intros [Ha Hr]. unfold base_dir, parent. destruct (parts r) as [|c cs] eqn:E; [cbn; split; [done|by rewrite E]|]. split; [done|].
  cbn [from_option id parts]. rewrite removelast_firstn_len. by apply Forall_take.
Qed.

Lemma contained_inside r path : clean r → contained sys r path = true →
  inside (base_dir r) (canonicalize_leaf_lexical sys (resolve_against r path)).
Proof.
  intros Hr [He|Hp]%orb_true_iff; [left; by apply bool_decide_eq_true in He|right].
  apply prefix_inside in Hp; [done|by apply base_clean|]. by apply leaf_clean, resolve_clean.
Qed.
(** A command, as it leaves the manager: what [git] answered decides. *)
Lemma try_run {A B} (f : M (result A string)) (k : A → M (result B string)) m :
  try_then f k m = match f m with (Ok a, m) => k a m | (Err e, m) => (Err e, m) end.
Proof. unfold try_then, mbind, M_bind. by destruct (f m) as [[]]. Qed.
Lemma git_bind_run {A B} (f : M A) (k : A → M B) m : (f ≫= k) m = k (f m).1 (f m).2.
Proof. unfold mbind, M_bind. by destruct (f m). Qed.

(** A manager after [new] commands. *)
Definition ran (new : list (list string * option Path)) (m : Manager) : Manager := mkManager (repo_root m) (calls m ++ new).
Lemma ran_ran a b m : ran b (ran a m) = ran (a ++ b) m.
Proof. unfold ran. cbn. by rewrite app_assoc. Qed.
Lemma git_command_ran args cwd m : (git_command sys args cwd m).2 = ran [(args, cwd)] m.
Proof. done. Qed.
Lemma git_output_ran args cwd m : (git_output sys args cwd m).2 = ran [(args, cwd)] m.
Proof. done. Qed.
Lemma git_run_ran args cwd m : (git_run sys args cwd m).2 = ran [(args, cwd)] m.
Proof. done. Qed.
Lemma branch_ran b m : (validate_branch_name sys b m).2 = ran [(["check-ref-format"; "--branch"; b], None)] m.
Proof. done. Qed.

(** Commands that touch no worktree, and one that adds the worktree at [path]. *)
Definition looks (args : list string) : Prop := head args ≠ Some "worktree".
Definition adds (path : string) (args : list string) : Prop :=
  ∃ pre post, args = ["worktree"; "add"] ++ pre ++ ["--"; path] ++ post ∧ (pre = [] ∨ ∃ branch, pre = ["-b"; branch]) ∧ length post ≤ 1.

Lemma canonicalize_display r p : clean p → resolve_against r (display p) = p.
Proof.
  intros Hp. unfold resolve_against. rewrite components_display by done. destruct Hp as [Ha Hs]. rewrite Ha. by apply normalize_id.
Qed.

(** What [add] may have done: nothing but looks; or, between looks of which the first
    had [git] accept the branch name, one command that adds the worktree at [path],
    which resolves to the base directory or into it. *)
Definition careful (m : Manager) (path branch : string) (new : list (list string * option Path)) : Prop :=
  Forall (λ c, looks c.1) new ∨
  ∃ before args after, new = before ++ (args, Some (repo_root m)) :: after ∧ adds path args ∧
    Forall (λ c, looks c.1) before ∧ Forall (λ c, looks c.1) after ∧
    head before = Some (["check-ref-format"; "--branch"; branch], None) ∧
    (∃ out err, git sys (length (calls m)) = Exited (Some 0%Z) out err) ∧
    inside (base_dir (repo_root m)) (canonicalize_leaf_lexical sys (resolve_against (repo_root m) path)).

Lemma branch_accepted b m : (validate_branch_name sys b m).1 = Ok tt → ∃ out err, git sys (length (calls m)) = Exited (Some 0%Z) out err.
Proof.
  unfold validate_branch_name, mbind, M_bind, git_command. cbn.
  destruct (git sys _) as [msg|[[|p|p]|] out err]; intros [=]. by exists out, err.
Qed.

(** The tail of [add], once the path is known to be inside. *)
Definition add_tail (path branch : string) (base_branch : option string) (m0 : Manager) : M (result WorktreeInfo string) :=
  branch_exists ← git_output sys ["rev-parse"; "--verify"; branch] (Some (repo_root m0));
  try _ ← git_run sys (match branch_exists, base_branch with
                   | Ok _, _ => ["worktree"; "add"; "--"; path; branch]
                   | Err _, Some base => ["worktree"; "add"; "-b"; branch; "--"; path; base]
                   | Err _, None => ["worktree"; "add"; "-b"; branch; "--"; path]
                   end) (Some (repo_root m0));
  try head ← git_output sys ["rev-parse"; "HEAD"] (Some (resolve_against (repo_root m0) path));
  mret (Ok (mkWorktree (display (resolve_against (repo_root m0) path)) (Some branch) (trim head) false)).

Lemma add_tail_spec path branch base m0 m :
  ∃ r args before after, add_tail path branch base m0 m = (r, ran (before ++ (args, Some (repo_root m0)) :: after) m) ∧
    adds path args ∧ Forall (λ c, looks c.1) before ∧ Forall (λ c, looks c.1) after ∧
    ∀ wt, r = Ok wt → wt_branch wt = Some branch ∧ wt_path wt = display (resolve_against (repo_root m0) path).
Proof.
  unfold add_tail. rewrite git_bind_run, git_output_ran. set (b := (git_output sys _ _ m).1). clearbody b.
  set (args := match b with Ok _ => _ | Err _ => _ end).
  assert (adds path args) as Ha.
  { destruct b; [|destruct base]; [exists [], [branch]|exists ["-b"; branch], [s]|exists ["-b"; branch], []]; split_and!; eauto. }
  rewrite try_run, (surjective_pairing (git_run sys args _ _)), git_run_ran. destruct (git_run sys args _ _).1 as [u|e].
  - rewrite try_run, (surjective_pairing (git_output sys _ _ _)), git_output_ran.
    destruct (git_output sys _ _ _).1 as [head|e]; rewrite !ran_ran;
      (eexists _, args, [_], [_]; split; [reflexivity|]; split; [done|]; split; [by repeat constructor|]; split; [by repeat constructor|]);
      by intros wt [= <-].
  - rewrite ran_ran. eexists _, args, [_], []. split; [reflexivity|]. split; [done|]. split; [by repeat constructor|]. by split; [constructor|].
Qed.

Lemma base_check_run base m :
  ∃ r l, match base with Some b => validate_branch_name sys b | None => mret (Ok tt) end m = (r, ran l m) ∧ Forall (λ c, looks c.1) l.
Proof.
  destruct base.
  - eexists (validate_branch_name sys s m).1, [_]. split; [reflexivity|]. by repeat constructor.
  - exists (Ok tt), []. split; [|constructor]. unfold ran. rewrite app_nil_r. by destruct m.
Qed.

(** All of [add]: what it ran, and that a worktree it returns is inside. *)
Lemma add_spec m path branch base : clean (repo_root m) →
  ∃ r new, add sys path branch base m = (r, ran new m) ∧ careful m path branch new ∧
  (∀ wt, r = Ok wt → wt_branch wt = Some branch ∧ (∃ args, (args, Some (repo_root m)) ∈ new ∧ adds path args) ∧
     contained sys (repo_root m) path = true ∧ wt_path wt = display (resolve_against (repo_root m) path)).
Proof.
  intros Hc. unfold add. rewrite try_run, (surjective_pairing (validate_branch_name sys branch m)), branch_ran.
  destruct (validate_branch_name sys branch m).1 as [[]|e] eqn:E1; [apply branch_accepted in E1|].
  2:{ eexists _, _. split; [reflexivity|]. split; [|done]. left. by repeat constructor. }
  rewrite try_run. destruct (base_check_run base (ran [(["check-ref-format"; "--branch"; branch], None)] m)) as (r & l & -> & Hl).
  rewrite ran_ran. set (checks := _ ++ l).
  assert (Forall (λ c, looks c.1) checks) as Hl' by (by repeat constructor).
  assert (careful m path branch checks) as Hch by by left.
  destruct r as [[]|e]; [|by eexists _, _]. rewrite try_run. unfold validate_path_containment. cbn [repo_root ran].
  destruct (contained sys (repo_root m) path) eqn:Ein; [|by eexists _, _]. rewrite try_run. unfold validate_path_permissions. cbn [mret M_ret].
  destruct (writable_dir sys _); [|by eexists _, _].
  change ((_ ← git_output sys ["rev-parse"; "--verify"; branch] _; _) ?m1) with (add_tail path branch base m m1).
  destruct (add_tail_spec path branch base m (ran checks m)) as (r & args & before & after & -> & Hadds & Hb & Ha & Hok).
  rewrite ran_ran, app_assoc. eexists _, _. split; [reflexivity|]. split.
  - right. exists (checks ++ before), args, after. split; [done|]. split; [done|]. split; [by apply Forall_app|]. split; [done|].
    split; [done|]. split; [done|]. by apply contained_inside.
  - intros wt Hwt. destruct (Hok wt Hwt) as [Hw Hp]. split; [done|]. split; [|done].
    exists args. split; [apply elem_of_app; right; left|done].
Qed.
(** A path without [..] is taken as it is written. *)
Lemma resolve_plain r path : clean r → ".." ∉ parts (components path) →
  resolve_against r path =
    (if absolute (components path) then components path else mkPath true (parts r ++ parts (components path))).
Proof.
  intros [Ha Hr] Hd. pose proof (components_ok path) as Hok. unfold resolve_against. rewrite Ha.
  assert (Forall (λ c, name_ok c ∧ c ≠ "..") (parts (components path))) as Hp.
  { rewrite Forall_forall in *. intros c Hc. split; [by apply Hok|]. by intros ->. }
  destruct (absolute (components path)) eqn:Ea; apply normalize_id; [by split|]. split; [done|]. by apply Forall_app.
Qed.

(** C28. [WorktreeManager::add] asks for no worktree that its own check puts outside the
    base directory, the one beside the repository.  Whatever [git] and the file system
    answer, it runs only checks that touch no worktree and, at most once, a
    [git worktree add] at the requested path, after [git] accepted the branch name and
    when the path, first rid of [..] as text and then with its parent's links followed,
    is the base directory or below it.  A path without [..] is checked as [git] gets it;
    one that climbs out of a link by [..] is not (the text and the file system then name
    different places), and no containment is claimed for it.  A worktree it returns was
    made by such a command, for the requested branch, and its absolute path resolves to
    where the request pointed. *)
Theorem add_contained m path branch base : clean (repo_root m) →
  ∃ r new, add sys path branch base m = (r, ran new m) ∧ careful m path branch new ∧
  (".." ∉ parts (components path) → resolve_against (repo_root m) path =
     if absolute (components path) then components path else mkPath true (parts (repo_root m) ++ parts (components path))) ∧
  (∀ wt, r = Ok wt → wt_branch wt = Some branch ∧ (∃ args, (args, Some (repo_root m)) ∈ new ∧ adds path args) ∧
     canonicalize sys m (wt_path wt) = canonicalize sys m path).
Proof.
  intros Hc. destruct (add_spec m path branch base Hc) as (r & new & E & Hnew & Hok). exists r, new. split; [done|]. split; [done|].
  split; [by apply resolve_plain|].
  intros wt Hwt. destruct (Hok wt Hwt) as (Hb & Ha & _ & Hp). split; [done|]. split; [done|].
  unfold canonicalize. by rewrite Hp, canonicalize_display by by apply resolve_clean.
Qed.

(** The worktree just made can be taken back. *)
Lemma remove_run m path force : contained sys (repo_root m) path = true →
  (remove sys path force m).2 = ran [(["worktree"; "remove"] ++ (if force then ["--force"] else []) ++ ["--"; path], Some (repo_root m))] m.
Proof. intros H. unfold remove. rewrite try_run. unfold validate_path_containment. by rewrite H. Qed.

Lemma contained_display m path : clean (repo_root m) →
  contained sys (repo_root m) (display (resolve_against (repo_root m) path)) = contained sys (repo_root m) path.
Proof. intros Hc. unfold contained. by rewrite canonicalize_display by by apply resolve_clean. Qed.

Lemma remove_refused m path force : contained sys (repo_root m) path = false → (remove sys path force m).2 = m.
Proof. intros H. unfold remove. rewrite try_run. unfold validate_path_containment. by rewrite H. Qed.
End facts.

(** ** The porcelain format *)

Definition nl : string := String (ascii_of_N 10) "".

(** What [git worktree list --porcelain] prints for a worktree with a commit. *)
Definition porcelain_record (w : WorktreeInfo) : list string :=
  ["worktree " +:+ wt_path w; "HEAD " +:+ wt_head w;
   match wt_branch w with Some b => "branch refs/heads/" +:+ b | None => "detached" end; ""].
Definition porcelain (ws : list WorktreeInfo) : string := join nl (concat (porcelain_record <$> ws)) +:+ nl.

Definition one_line (s : string) : Prop := str_contains (ascii_of_N 10) s = false.
Definition printable (w : WorktreeInfo) : Prop :=
  one_line (wt_path w) ∧ one_line (wt_head w) ∧ (∀ b, wt_branch w = Some b → one_line b) ∧ wt_is_main w = false.

Lemma one_line_app a b : one_line a → one_line b → one_line (a +:+ b).
Proof.
  unfold one_line. intros Ha Hb. induction a as [|x a IH]; [done|]. cbn in Ha. case_decide; [done|].
  rewrite str_append_cons. cbn. rewrite decide_False by done. by apply IH.
Qed.

Lemma record_lines w : printable w → ∀ l, l ∈ porcelain_record w → one_line l.
Proof.
  intros (Hp & Hh & Hb & _) l Hl. unfold porcelain_record in Hl.
  repeat (apply elem_of_cons in Hl as [->|Hl]); [by apply one_line_app|by apply one_line_app| |done|by apply elem_of_nil in Hl].
  destruct (wt_branch w) as [b|]; [apply one_line_app; [done|by apply Hb]|done].
Qed.

Lemma record_parsed w acc : printable w → foldl porcelain_line (acc, partial_new) (porcelain_record w) = (acc ++ [w], partial_new).
Proof.
  intros (_ & _ & _ & Hm). destruct w as [path branch head main]. cbn in Hm. subst main. unfold porcelain_record. cbn [foldl wt_path wt_head wt_branch].
  unfold porcelain_line at 4. rewrite strip_prefix_app. cbn [into_worktree_info partial_new option_list]. rewrite app_nil_r.
  unfold porcelain_line at 3. change (strip_prefix "worktree " ("HEAD " +:+ head)) with (@None string). rewrite strip_prefix_app. cbn [pw_path pw_branch pw_is_main].
  destruct branch as [b|]; [|reflexivity]. unfold porcelain_line at 2.
  change (strip_prefix "worktree " ("branch refs/heads/" +:+ b)) with (@None string).
  change (strip_prefix "HEAD " ("branch refs/heads/" +:+ b)) with (@None string).
  change ("branch refs/heads/" +:+ b) with ("branch " +:+ ("refs/heads/" +:+ b)). rewrite strip_prefix_app, strip_prefix_app. reflexivity.
Qed.

(** [list] reads what [git worktree list --porcelain] prints: for any worktrees
    whose paths, commits and branches are single lines, the parser gives them back in
    order, with their branches or none when detached, and marks the first one, and
    only it, as the main worktree. *)
Theorem porcelain_roundtrip ws : Forall printable ws → parse_porcelain (porcelain ws) = mark_first_main ws.
Proof.
  intros Hw. unfold parse_porcelain, porcelain. destruct ws as [|w0 ws0]; [reflexivity|].
  unfold nl. rewrite (split_join_app (ascii_of_N 10) _ "").
  2:{ done. }
  2:{ intros p Hp. apply list_elem_of_In, in_concat in Hp as (l & Hl & Hp). apply list_elem_of_In, list_elem_of_fmap in Hl as (w & -> & Hw').
      apply list_elem_of_In in Hp. rewrite Forall_forall in Hw. eapply record_lines; [by apply Hw|done]. }
  rewrite foldl_app. assert (∀ acc, foldl porcelain_line (acc, partial_new) (concat (porcelain_record <$> w0 :: ws0)) = (acc ++ w0 :: ws0, partial_new)) as ->.
  { induction Hw as [|w ws Hw _ IH]; intros acc; [by rewrite app_nil_r|]. rewrite fmap_cons. cbn [concat].
    rewrite foldl_app, record_parsed, IH by done. by rewrite <-app_assoc. }
  cbn. by rewrite !app_nil_r.
Qed.

Module Demo.
Definition repo : Path := mkPath true ["w"; "repo"].
(** A file system where [/w/repo/link] points to [/etc/conf]. *)
Definition real (p : Path) : option Path :=
  if decide (p = repo ∨ p = mkPath true ["w"]) then Some p
  else if decide (p = mkPath true ["w"; "repo"; "link"]) then Some (mkPath true ["etc"; "conf"])
  else if decide (p = mkPath true ["w"; "repo"; "link"; ".."]) then Some (mkPath true ["etc"])
  else if decide (p = mkPath true ["srv"]) then Some p
  else if decide (p = root) then Some root else None.
Definition answers (n : nat) : GitAnswer := if decide (n = 1) then Exited (Some 128%Z) [] [] else Exited (Some 0%Z) (as_bytes ("c0ffee" +:+ nl)) [].
Definition sys : System := mkSystem answers real (λ p, bool_decide (is_Some (real p))).

Ltac clean_path := split; [done|]; cbn; repeat (apply Forall_cons; split; [by repeat split|]); by apply Forall_nil.

Lemma add_contained_witness :
  (add sys "../repo-wt-x" "topic/x" None (mkManager repo [])).1 = Ok (mkWorktree "/w/repo-wt-x" (Some "topic/x") "c0ffee" false) ∧
  canonicalize sys (mkManager repo []) "/w/repo-wt-x" = canonicalize sys (mkManager repo []) "../repo-wt-x".
Proof.
  assert ((add sys "../repo-wt-x" "topic/x" None (mkManager repo [])).1 = Ok (mkWorktree "/w/repo-wt-x" (Some "topic/x") "c0ffee" false)) as Hr
    by (vm_compute; reflexivity).
  split; [exact Hr|]. assert (∀ p q, fs_canonicalize sys p = Some q → clean q) as Hreal.
  { intros p q. cbn. unfold real. repeat (case_decide as Hd; [intros [= E]; try (destruct Hd as [Hd|Hd]); subst; clean_path|clear Hd]). done. }
  destruct (add_contained sys Hreal (mkManager repo []) "../repo-wt-x" "topic/x" None) as (r & new & Ha & _ & _ & Hok); [clean_path|].
  rewrite Ha in Hr. exact (proj2 (proj2 (Hok _ Hr))).
Defined.

Lemma porcelain_roundtrip_witness :
  parse_porcelain (porcelain [mkWorktree "/w/repo" (Some "main") "c0ffee" false; mkWorktree "/w/x" None "beef" false])
  = [mkWorktree "/w/repo" (Some "main") "c0ffee" true; mkWorktree "/w/x" None "beef" false].
Proof. rewrite porcelain_roundtrip; [reflexivity|]. repeat constructor; try done; by intros b [= <-]. Defined.

(** Escapes are refused... *)
Example refused : contained sys repo "/etc/evil" = false ∧ contained sys repo "../../evil" = false ∧ contained sys repo "link/evil" = false.
Proof. vm_compute. repeat split. Qed.

(** ... but [..] is collapsed before links are followed, and [git] gets the path as it
    came: [link/../evil] passes, and names a directory in [/etc]. *)
Example dotdot_after_link : contained sys repo "link/../evil" = true ∧ fs_canonicalize sys (mkPath true ["w"; "repo"; "link"; ".."]) = Some (mkPath true ["etc"]).
Proof. vm_compute. split; reflexivity. Qed.

(** A repository right under the root has no sibling it accepts. *)
Example repo_under_root : contained sys (mkPath true ["srv"]) "../wt" = false ∧ contained sys (mkPath true ["srv"]) "/wt" = false.
Proof. vm_compute. split; reflexivity. Qed.
End Demo.
