(* ===== verification/RelayManager.v ===== *)
(** * RelayManager: the daemon's pool of relay clients.
    [tp-daemon/src/transport/relay_manager.rs], with the push closure of
    [tp-daemon/src/daemon.rs].  The daemon's shared objects are one [Core]; what
    [tokio::spawn] starts is a list of steps, one per section between two awaits.
    A client is its index among the clients ever made (its [Arc]) and lives as
    [Reconnect] says; its callbacks fire as it runs.  [D] names the continuations of
    the command dispatcher ([Dispatcher]). *)
From stdpp Require Import base list numbers strings gmap fin_maps relations.
From Stdlib Require Import Lia NArith ZArith Ascii.
From Stdlib.Floats Require Import SpecFloat.
From S2P Require Import Prelude Bytes Text Json Messages Label Codec Crypto Ipc DaemonClient.
From S2P Require Store StoreLaws Notifier Runners IpcServer Reconnect Pending Worktree.

Definition RELAY_CHANNEL_META : string := "__meta__".

Definition i64_value (z : Z) : Value := Num (if decide (0 ≤ z)%Z then PosInt (Z.to_N z) else NegInt z).

Definition platform_as_str (p : Platform) : string := match p with Ios => "ios" | Android => "android" end.

Definition wire_state (state : string) : string :=
  if bool_decide (state ∈ ["running"; "stopped"; "error"]) then state else "error".

Definition to_wire_session_meta (meta : Store.SessionMeta) : Value :=
  Object (match Store.claude_version meta with Some v => [("claudeVersion", Str v)] | None => [] end
    ++ [("createdAt", i64_value (Store.created_at meta)); ("cwd", Str (Store.cwd meta));
        ("lastSeq", i64_value (Store.last_seq meta)); ("sid", Str (Store.sid meta));
        ("state", Str (wire_state (Store.state meta))); ("updatedAt", i64_value (Store.updated_at meta))]
    ++ match Store.worktree_path meta with Some w => [("worktreePath", Str w)] | None => [] end).

Definition error_frame (e m : string) : Value := Object [("e", Str e); ("m", Str m); ("t", Str "err")].
Definition no_runner (sid : string) : Value := error_frame "NO_RUNNER" ("No runner for session " +:+ sid).

Definition hello_frame (sessions : list Value) (label : option Label) (pct : option string) : Value :=
  Object [("d", Object (match label with Some l => [("daemonLabel", Label_value l)] | None => [] end
                        ++ match pct with Some p => [("pct", Str p)] | None => [] end
                        ++ [("sessions", Array sessions)]));
          ("t", Str "hello"); ("v", u64_value 1)].

(** ** The daemon's objects *)

Record Entry := mkEntry { e_cfg : RelayClientConfig; e_life : Reconnect.Pool }.
Definition e_client (e : Entry) : Client := Reconnect.client (e_life e).

(** Who asks for the client of a frontend. *)
Inductive Found := FNoRunner (sid : string) | FControl (msg : Value) | FJoined (label : option Label).

Inductive Step (D : Type) : Type :=
| SCall (k : nat) (o : Reconnect.OwnerCall)                (* a method of a client *)
| SNotice (k : nat) (o : Reconnect.OwnerCall)              (* one whose success is counted *)
| SSubscribeSessions (k : nat)
(* [add_client] *)
| SAdd (cfg : RelayClientConfig) | SConnected (k : nat) | SSave (k : nat)
| SDispose (k : nat) | SDisposed (k : nat)
(* [remove_pairing], [rename_pairing] *)
| SRemove (daemon_id : string) (notify : bool) | SUnpairPeers (k : nat)
| SDelete (daemon_id : string) (client : option nat) | SDrop (daemon_id : string) (k : nat)
| SRename (daemon_id : string) (label : Label) | SRenamePeers (k : nat) (label : Label)
(* [find_client_by_frontend] and what follows it *)
| SFind (fid : string) (next : Found) | SProbe (candidates : list nat) (fid : string) (next : Found)
| SHello (k : nat) (fid : string) (label : option Label) (sessions : list Value)
| SPush (p : Notifier.SendPush)
| SReconnectSaved | SStop
| SDispatch (d : D).
Arguments SCall {D}. Arguments SNotice {D}. Arguments SSubscribeSessions {D}. Arguments SAdd {D}. Arguments SConnected {D}.
Arguments SSave {D}. Arguments SDispose {D}. Arguments SDisposed {D}. Arguments SRemove {D}. Arguments SUnpairPeers {D}.
Arguments SDelete {D}. Arguments SDrop {D}. Arguments SRename {D}. Arguments SRenamePeers {D}. Arguments SFind {D}.
Arguments SProbe {D}. Arguments SHello {D}. Arguments SPush {D}. Arguments SReconnectSaved {D}. Arguments SStop {D}.
Arguments SDispatch {D}.

(** A spawned task: its count of successes (peers notified, clients added) and the
    sections it still has to run. *)
Record Run (D : Type) := mkRun { count : N; todo : list (Step D) }.
Arguments mkRun {D}. Arguments count {D}. Arguments todo {D}.

Record Core (D : Type) := mkCore {
  heap : list Entry;                       (* every client made *)
  clients : list nat;                      (* the manager's pool *)
  removing_daemon_ids : gset string;
  store : Store.Store;
  tokens : Notifier.Tokens;
  session_manager : Runners.Manager;
  worktree_manager : option Worktree.Manager;
  socket_path : option string;             (* once the local socket is bound *)
  signalled : list N;                      (* the pids sent a termination signal *)
  tasks : list (Run D)
}.
Arguments mkCore {D}. Arguments heap {D}. Arguments clients {D}. Arguments removing_daemon_ids {D}.
Arguments store {D}. Arguments tokens {D}. Arguments session_manager {D}. Arguments tasks {D}.
Arguments worktree_manager {D}. Arguments socket_path {D}. Arguments signalled {D}.

(** The daemon: its local socket, and the rest. *)
Abbreviation World D := (IpcServer.Server (Core D)).

(** What the outside answers during one section. *)
Record Choice := mkChoice {
  ch_client : DaemonClient.Env; ch_store : Store.Env; ch_spawn : Runners.SpawnEnv;
  ch_worktree : Worktree.System
}.

Section world.
Context {D : Type}.
Implicit Types (w : World D) (c : Core D).

Definition upd (f : Core D → Core D) w : World D :=
  IpcServer.mkServer (IpcServer.conns w) (IpcServer.registry w) (IpcServer.readers w) (IpcServer.next_conn_id w)
    (f (IpcServer.owner w)).
Definition core w : Core D := IpcServer.owner w.

Definition set_heap v c :=
  mkCore v (clients c) (removing_daemon_ids c) (store c) (tokens c) (session_manager c) (worktree_manager c) (socket_path c) (signalled c) (tasks c).
Definition set_clients v c :=
  mkCore (heap c) v (removing_daemon_ids c) (store c) (tokens c) (session_manager c) (worktree_manager c) (socket_path c) (signalled c) (tasks c).
Definition set_removing v c :=
  mkCore (heap c) (clients c) v (store c) (tokens c) (session_manager c) (worktree_manager c) (socket_path c) (signalled c) (tasks c).
Definition set_store v c :=
  mkCore (heap c) (clients c) (removing_daemon_ids c) v (tokens c) (session_manager c) (worktree_manager c) (socket_path c) (signalled c) (tasks c).
Definition set_notifier (n : Notifier.Tokens * Store.Store) c :=
  mkCore (heap c) (clients c) (removing_daemon_ids c) n.2 n.1 (session_manager c) (worktree_manager c) (socket_path c) (signalled c) (tasks c).
Definition set_sessions v c :=
  mkCore (heap c) (clients c) (removing_daemon_ids c) (store c) (tokens c) v (worktree_manager c) (socket_path c) (signalled c) (tasks c).
Definition set_worktrees v c :=
  mkCore (heap c) (clients c) (removing_daemon_ids c) (store c) (tokens c) (session_manager c) v (socket_path c) (signalled c) (tasks c).
Definition set_signalled v c :=
  mkCore (heap c) (clients c) (removing_daemon_ids c) (store c) (tokens c) (session_manager c) (worktree_manager c) (socket_path c) v (tasks c).
Definition set_tasks (v : list (Run D)) c :=
  mkCore (heap c) (clients c) (removing_daemon_ids c) (store c) (tokens c) (session_manager c) (worktree_manager c) (socket_path c) (signalled c) v.

Definition spawn (steps : list (Step D)) w : World D := upd (λ c, set_tasks (tasks c ++ [mkRun 0 steps]) c) w.

(** A call of the store: its answer, and the world after it. *)
Definition with_store {A} (m : Store.M A) w : result A Store.StoreError * World D :=
  let '(r, s) := m (store (core w)) in (r, upd (set_store s) w).
Definition ok_or_default {A} (d : A) (r : result A Store.StoreError) : A := match r with Ok a => a | Err _ => d end.

Definition client_of w (k : nat) : option Client := e_client <$> heap (core w) !! k.
Definition config_of w (k : nat) : option RelayClientConfig := e_cfg <$> heap (core w) !! k.
Definition on_life (f : Reconnect.Pool → Reconnect.Pool) (k : nat) w : World D :=
  upd (λ c, set_heap (alter (λ e, mkEntry (e_cfg e) (f (e_life e))) k (heap c)) c) w.

(** The first client of the pool with this daemon id. *)
Definition client_for w (daemon_id : string) : option nat :=
  head (filter (λ k, c_daemon_id <$> config_of w k = Some daemon_id) (clients (core w))).
End world.

(** ** The manager *)

Section manager.
Context {CC : CryptoCrates} {HIS : HashIter string} {HIN : HashIter N} {SE : Store.SqlEngine}.
Context (to_string : Value → string).
Context {D : Type}.

(** The dispatcher: the section a continuation runs, and what it does with a control
    message that arrived for a client. *)
Context (dispatch_step : Choice → N → D → World D → option (World D * list (Step D))).
Context (dispatch_relay_control : nat → Value → string → D).

Implicit Types w : World D.

Definition send_ipc (runner : N) (msg : IpcMessage) w : World D :=
  (IpcServer.send runner (as_bytes (to_string (ipc_to_value msg))) None w).2.

(** *** [build_events] *)

Definition on_input (kind : InputKind) (sid data frontend_id : string) w : World D :=
  match IpcServer.find_runner_by_sid sid w with
  | Some runner =>
      match kind with
      | Chat => send_ipc runner (Input sid (b64std_encode (as_bytes (data +:+ String (ascii_of_N 13) "")))) w
      | Term => send_ipc runner (Input sid data) w
      end
  | None => if decide (frontend_id = "") then w else spawn [SFind frontend_id (FNoRunner sid)] w
  end.

Definition on_peer_confirmed (ch : Choice) (daemon_id frontend_id : string) (pct frontend_pk : bytes) w : World D :=
  if decide (daemon_id = "") then w
  else (with_store (Store.save_pairing_confirmation (ch_store ch) daemon_id frontend_id
          (Store.mkConfirmation pct frontend_pk (Store.e_now (ch_store ch)))) w).2.

Definition with_notifier (f : Notifier.Tokens * Store.Store → Notifier.Tokens * Store.Store) w : World D :=
  upd (λ c, set_notifier (f (tokens c, store c)) c) w.

(** A callback of a client whose event bag was built for [cfg]. *)
Definition on_event (ch : Choice) (cfg : RelayClientConfig) (e : Event) w : World D :=
  match e with
  | OnInput kind sid data fid => on_input kind sid data fid w
  | OnControlMessage msg fid => spawn [SFind fid (FControl msg)] w
  | OnPeerConfirmed fid pct pk => on_peer_confirmed ch (c_daemon_id cfg) fid pct pk w
  | OnFrontendJoined fid => spawn [SFind fid (FJoined (c_label cfg))] w
  | OnPushTokenSealed fid sealed platform =>
      with_notifier (Notifier.register_sealed_token (ch_store ch) fid (c_daemon_id cfg) sealed (platform_as_str platform)) w
  | OnPushUnsealFailed fid => with_notifier (Notifier.handle_unseal_failed (ch_store ch) fid) w
  | OnPushTokenDead fid => with_notifier (Notifier.handle_token_dead (ch_store ch) fid) w
  | OnUnpair fid _ => spawn [SRemove (c_daemon_id cfg) false] w
  | OnRename _ label => (with_store (Store.update_pairing_label (ch_store ch) (c_daemon_id cfg) label) w).2
  | OnConnected | OnDisconnected | OnRelayThrottled _ | OnPresence _ _ => w
  end.

(** *** The sections *)

Definition session_ids (ch : Choice) w : list string * World D :=
  let '(r, w) := with_store (Store.list_sessions (ch_store ch)) w in (Store.sid <$> ok_or_default [] r, w).
Definition session_list (ch : Choice) w : list Value * World D :=
  let '(r, w) := with_store (Store.list_sessions (ch_store ch)) w in (to_wire_session_meta <$> ok_or_default [] r, w).

Definition connect_steps (k : nat) : list (Step D) :=
  [SCall k (Reconnect.CSubscribe RELAY_CHANNEL_META); SCall k (Reconnect.CSubscribe RELAY_CHANNEL_CONTROL); SSubscribeSessions k].

Definition call (ch : Choice) (k : nat) (o : Reconnect.OwnerCall) w : World D :=
  match config_of w k with
  | Some cfg =>
      on_life (λ p, Reconnect.mkPool (run (Reconnect.owner_call to_string cfg (ch_client ch) o) (Reconnect.client p))
                      (Reconnect.tasks p)) k w
  | None => w
  end.

(** Whether a notice would reach its socket. *)
Definition notice_sent (ch : Choice) (cfg : RelayClientConfig) (o : Reconnect.OwnerCall) (c : Client) : bool :=
  match o with
  | Reconnect.CUnpairNotice fid reason => (send_unpair_notice to_string cfg (ch_client ch) fid reason c).1
  | Reconnect.CRenameNotice fid label => (send_rename_notice to_string cfg (ch_client ch) fid label c).1
  | _ => false
  end.

(** What is saved of a configuration. *)
Definition config_input (cfg : RelayClientConfig) (label : Label) : Store.SavePairingInput :=
  Store.mkSave (c_daemon_id cfg) (relay_url cfg) (c_token cfg) (registration_proof cfg) (public_key (key_pair cfg))
    (secret_key (key_pair cfg)) (pairing_secret cfg) (Some label) (pairing_id cfg) (hostname cfg).

(** [add_client] from its store calls on. *)
Definition save_config (ch : Choice) (cfg : RelayClientConfig) w : result unit Store.StoreError * World D :=
  let '(r, w) := with_store (Store.list_pairings (ch_store ch)) w in
  let existing_label :=
    default Unset (Store.ps_label <$> head (filter (λ p, Store.ps_daemon_id p = c_daemon_id cfg) (ok_or_default [] r))) in
  with_store (Store.save_pairing (ch_store ch) (config_input cfg (default existing_label (c_label cfg)))) w.

Definition delete_row (ch : Choice) (daemon_id : string) w : World D :=
  (with_store (Store.delete_pairing (ch_store ch) daemon_id) w).2.

Definition release (daemon_id : string) w : World D :=
  upd (λ c, set_removing (removing_daemon_ids c ∖ {[daemon_id]}) c) w.

Definition peers_of w (k : nat) : list string := default [] (list_peer_frontend_ids <$> client_of w k).

(** What is done with the client found. *)
Definition found (ch : Choice) (k : nat) (fid : string) (next : Found) w : World D * list (Step D) :=
  match next with
  | FNoRunner sid => (w, [SCall k (Reconnect.CPublishToPeer fid sid (no_runner sid))])
  | FControl msg => (spawn [SDispatch (dispatch_relay_control k msg fid)] w, [])
  | FJoined label =>
      let '(sessions, w) := session_list ch w in (w, [SHello k fid label sessions])
  end.

(** [dispatch_push]: the owner of the token, or everyone. *)
Definition push_targets (owner : option string) w : list nat :=
  match owner with
  | Some did => match client_for w did with Some k => [k] | None => clients (core w) end
  | None => clients (core w)
  end.
Definition push_owner (daemon_id : string) : option string := if decide (daemon_id = "") then None else Some daemon_id.

Definition push_steps (p : Notifier.SendPush) w : list (Step D) :=
  let owner := push_owner (Notifier.sp_daemon_id p) in
  (λ k, SCall k (Reconnect.CPush (Notifier.sp_frontend_id p) (Notifier.sp_sealed p) (Notifier.sp_title p) (Notifier.sp_body p)
     (Some (Notifier.sp_level p)) (Some (Notifier.sp_sid p, owner, Notifier.sp_event p)))) <$> push_targets owner w.

Definition quiet (p : Reconnect.Pool) : bool :=
  forallb (λ t, match t with Reconnect.KDispose | Reconnect.KDisposeCleanup => false | _ => true end) (Reconnect.tasks p).
Definition connected (p : Reconnect.Pool) : bool :=
  match Reconnect.tasks p with Reconnect.KDone :: _ => true | _ => false end.

(** Whether something holds of a client's life; a client that does not exist is no obstacle. *)
Definition life_is (f : Reconnect.Pool → bool) (k : nat) w : bool :=
  match heap (core w) !! k with Some e => f (e_life e) | None => true end.

(** One section of a task that has counted [n] successes: [None] while it cannot run;
    else the world after it, whether it counts, and the sections it goes on with. *)
Definition step (ch : Choice) (n : N) (s : Step D) w : option (World D * bool * list (Step D)) :=
  match s with
  | SCall k o => Some (call ch k o w, false, [])
  | SNotice k o =>
      let sent := match config_of w k, client_of w k with Some cfg, Some c => notice_sent ch cfg o c | _, _ => false end in
      Some (call ch k o w, sent, [])
  | SSubscribeSessions k =>
      let '(sids, w) := session_ids ch w in Some (w, false, (λ sid, SCall k (Reconnect.CSubscribe sid)) <$> sids)
  | SAdd cfg =>
      let k := length (heap (core w)) in
      Some (upd (λ c, set_heap (heap c ++ [mkEntry cfg Reconnect.pool_init]) c) w, false,
            SConnected k :: connect_steps k ++ [SSave k])
  | SConnected k => if life_is connected k w then Some (w, false, []) else None
  | SSave k =>
      match config_of w k with
      | None => Some (w, false, [])
      | Some cfg =>
          match save_config ch cfg w with
          | (Err _, w) => Some (w, false, [SDispose k; SDisposed k])
          | (Ok _, w) => Some (upd (λ c, set_clients (clients c ++ [k]) c) w, true, [])
          end
      end
  | SDispose k => Some (on_life (λ p, Reconnect.mkPool (Reconnect.client p) (Reconnect.tasks p ++ [Reconnect.KDispose])) k w, false, [])
  | SDisposed k => if life_is quiet k w then Some (w, false, []) else None
  | SRemove did notify =>
      if decide (did ∈ removing_daemon_ids (core w)) then Some (delete_row ch did w, false, [])
      else
        let client := client_for w did in
        Some (upd (λ c, set_removing (removing_daemon_ids c ∪ {[did]}) c) w, false,
              match client with Some k => if notify then [SUnpairPeers k] else [] | None => [] end ++ [SDelete did client])
  | SUnpairPeers k => Some (w, false, (λ fid, SNotice k (Reconnect.CUnpairNotice fid UserInitiated)) <$> peers_of w k)
  | SDelete did client =>
      let w := delete_row ch did w in
      match client with
      | None => Some (release did w, false, [])
      | Some k => Some (w, false, [SDispose k; SDisposed k; SDrop did k])
      end
  | SDrop did k => Some (release did (upd (λ c, set_clients (filter (λ j, j ≠ k) (clients c)) c) w), false, [])
  | SRename did label =>
      let w := (with_store (Store.update_pairing_label (ch_store ch) did label) w).2 in
      Some (w, false, match client_for w did with Some k => [SRenamePeers k label] | None => [] end)
  | SRenamePeers k label => Some (w, false, (λ fid, SNotice k (Reconnect.CRenameNotice fid label)) <$> peers_of w k)
  | SFind fid next => Some (w, false, [SProbe (clients (core w)) fid next])
  | SProbe [] fid next => Some (w, false, [])
  | SProbe (k :: candidates) fid next =>
      if decide (fid ∈ peers_of w k) then let '(w, steps) := found ch k fid next w in Some (w, false, steps)
      else Some (w, false, [SProbe candidates fid next])
  | SHello k fid label sessions =>
      let pct := client_of w k ≫= λ c, peer_pct_b64 c fid in
      Some (w, false, [SCall k (Reconnect.CPublishToPeer fid RELAY_CHANNEL_META
                         (hello_frame sessions (Some (default Unset label)) pct)); SSubscribeSessions k])
  | SPush p => Some (w, false, push_steps p w)
  | SReconnectSaved =>
      let '(r, w) := with_store (Store.load_pairings (ch_store ch)) w in
      Some (w, false, (λ p, SAdd (Pending.saved_config p)) <$> ok_or_default [] r)
  | SStop =>
      Some (upd (set_clients []) w, false, clients (core w) ≫= λ k, [SDispose k; SDisposed k])
  | SDispatch d => match dispatch_step ch n d w with Some (w, steps) => Some (w, false, steps) | None => None end
  end.

(** Task [i] runs its next section. *)
Definition run_task (ch : Choice) (i : nat) w : option (World D) :=
  match tasks (core w) !! i with
  | Some (mkRun n (s :: rest)) =>
      match step ch n s w with
      | Some (w, counted, more) =>
          Some (upd (λ c, set_tasks (<[i := mkRun (if counted : bool then n + 1 else n)%N (more ++ rest)]> (tasks c)) c) w)
      | None => None
      end
  | _ => None
  end.

(** [register_client]: the orchestrator hands over a client it made. *)
Definition register_client (k : nat) w : World D :=
  spawn (connect_steps k) (upd (λ c, set_clients (clients c ++ [k]) c) w).

(** The calls a client made while it ran. *)
Definition new_events (p p' : Reconnect.Pool) : list Event :=
  omap (λ e, match e with Call e => Some e | Wire _ _ => None end)
    (drop (length (trace (Reconnect.client p))) (trace (Reconnect.client p'))).

(** Client [k] goes from one state of its life to the next, and calls back. *)
Definition client_moves (ch : Choice) (k : nat) (p' : Reconnect.Pool) w : World D :=
  match heap (core w) !! k with
  | Some e => foldl (λ w ev, on_event ch (e_cfg e) ev w) (on_life (λ _, p') k w) (new_events (e_life e) p')
  | None => w
  end.

Context (from_slice : bytes → option Value).
(** What else changes the daemon: its socket, its owner, the dispatcher's callbacks. *)
Context (other : World D → World D → Prop).

Inductive world_step : World D → World D → Prop :=
| step_task ch i w w' : run_task ch i w = Some w' → world_step w w'
| step_client ch k e p' w :
    heap (core w) !! k = Some e → Reconnect.internal to_string from_slice (e_cfg e) (e_life e) p' →
    world_step w (client_moves ch k p' w)
| step_request steps w :
    Forall (λ s, match s with SAdd _ | SRemove _ _ | SRename _ _ | SReconnectSaved | SStop => True | _ => False end) steps →
    world_step w (spawn steps w)
| step_register cfg p w :
    world_step w (register_client (length (heap (core w))) (upd (λ c, set_heap (heap c ++ [mkEntry cfg p]) c) w))
| step_other w w' : other w w' → world_step w w'.

Definition core_new (st : Store.Store) : Core D := mkCore [] [] ∅ st ∅ Runners.manager_new None None [] [].
Definition world_new (st : Store.Store) : World D := IpcServer.server_new (core_new st).
End manager.

(** ** Custody *)

(** Disposed of, or about to be. *)
Definition doomed (p : Reconnect.Pool) : Prop :=
  disposed (state (Reconnect.client p)) = true ∨ Reconnect.KDispose ∈ Reconnect.tasks p.

Section custody.
Context {CC : CryptoCrates} {HIS : HashIter string} {HIN : HashIter N} {SE : Store.SqlEngine}.
Context (to_string : Value → string) (from_slice : bytes → option Value).
Context {D : Type}.
Context (dispatch_step : Choice → N → D → World D → option (World D * list (Step D))).
Context (dispatch_relay_control : nat → Value → string → D).
Context (other : World D → World D → Prop).
Implicit Types w : World D.

(** The client a step puts in the pool; the daemon id whose removal it ends. *)
Definition pooled (s : Step D) : option nat := match s with SSave k => Some k | _ => None end.
Definition released (s : Step D) : option string := match s with SDelete did _ | SDrop did _ => Some did | _ => None end.
Definition condemned (s : Step D) : option nat := match s with SDelete _ k => k | SDrop _ k => Some k | _ => None end.
Definition harmless (s : Step D) : Prop := pooled s = None ∧ released s = None.

Definition all w : list (Step D) := tasks (core w) ≫= todo.

Definition heap_le (h h' : list Entry) : Prop :=
  length h = length h' ∧ ∀ k e', h' !! k = Some e' → ∃ e, h !! k = Some e ∧ (doomed (e_life e) → doomed (e_life e')).

(** Nothing of the manager's own changes but for clients that go on living, and
    tasks of others that start. *)
Definition mild w w' : Prop :=
  clients (core w') = clients (core w) ∧ removing_daemon_ids (core w') = removing_daemon_ids (core w) ∧
  heap_le (heap (core w)) (heap (core w')) ∧
  ∃ new, tasks (core w') = tasks (core w) ++ new ∧ Forall harmless (new ≫= todo).

Context (dispatch_mild : ∀ ch n d w w' more, dispatch_step ch n d w = Some (w', more) → mild w w' ∧ Forall harmless more).
Context (other_mild : ∀ w w', other w w' → mild w w').

Lemma heap_le_refl h : heap_le h h.
Proof. split; [done|]. intros k e ->. by exists e. Qed.

Lemma mild_trans w1 w2 w3 : mild w1 w2 → mild w2 w3 → mild w1 w3.
Proof.
  intros (Hc1 & Hr1 & [Hl1 Hh1] & n1 & Ht1 & Hn1) (Hc2 & Hr2 & [Hl2 Hh2] & n2 & Ht2 & Hn2).
  split_and!; [congruence|congruence|split; [congruence|]|].
  - intros k e' H'. destruct (Hh2 k e' H') as (e2 & H2 & D2). destruct (Hh1 k e2 H2) as (e1 & H1 & D1). exists e1. auto.
  - exists (n1 ++ n2). split; [by rewrite Ht2, Ht1, app_assoc|]. rewrite bind_app. by apply Forall_app.
Qed.

Lemma mild_refl w : mild w w.
Proof. split_and!; [done|done|apply heap_le_refl|]. exists []. by rewrite app_nil_r. Qed.

Lemma mild_upd f w : (∀ c, clients (f c) = clients c ∧ removing_daemon_ids (f c) = removing_daemon_ids c ∧
    heap (f c) = heap c ∧ tasks (f c) = tasks c) → mild w (upd f w).
Proof.
  intros H. destruct (H (core w)) as (H1 & H2 & H3 & H4). unfold mild, core, upd in *. cbn.
  rewrite H1, H2, H3, H4. apply mild_refl.
Qed.

Lemma mild_spawn steps w : Forall harmless steps → mild w (spawn steps w).
Proof.
  intros H. split_and!; [done|done|apply heap_le_refl|]. exists [mkRun 0 steps]. split; [done|]. cbn. by rewrite app_nil_r.
Qed.

Lemma mild_store {A} (m : Store.M A) w : mild w (with_store m w).2.
Proof. unfold with_store. destruct (m (store (core w))) as [r s]. by apply mild_upd. Qed.

Lemma mild_send runner json b w : mild w (IpcServer.send runner json b w).2.
Proof.
  unfold IpcServer.send. destruct (IpcServer.conns w !! runner); [|apply mild_refl]. destruct (_ && _); [|apply mild_refl].
  split_and!; [done|done|apply heap_le_refl|]. exists []. by rewrite app_nil_r.
Qed.

Lemma mild_life f k w : (∀ p, doomed p → doomed (f p)) → mild w (on_life f k w).
Proof.
  intros Hf. split_and!; [done|done| |exists []; by rewrite app_nil_r]. split; [cbn; by rewrite length_alter|].
  intros j e'. cbn. rewrite list_lookup_alter. case_decide; subst; [|intros Hj; by exists e'].
  destruct (heap (IpcServer.owner w) !! j) as [e|] eqn:E; cbn; [|done]. intros [= <-]. exists e. split; [exact E|apply Hf].
Qed.

Lemma mild_call ch k o w : mild w (call to_string ch k o w).
Proof.
  unfold call. destruct (config_of w k) as [cfg|]; [|apply mild_refl]. apply mild_life. intros p [H|H]; [left|by right]. cbn.
  destruct (Reconnect.life_run (Reconnect.owner_call to_string cfg (ch_client ch) o) (Reconnect.client p)) as (Hd & _ & _);
    [apply Reconnect.tame_owner_call|]. unfold run. by rewrite Hd.
Qed.

Lemma mild_event ch cfg e w : mild w (on_event to_string ch cfg e w).
Proof.
  destruct e; cbn [on_event]; try apply mild_refl.
  - unfold on_input. destruct (IpcServer.find_runner_by_sid sid w) as [r|]; [destruct kind; apply mild_send|].
    destruct (decide _); [apply mild_refl|]. apply mild_spawn. by repeat constructor.
  - apply mild_spawn. by repeat constructor.
  - apply mild_spawn. by repeat constructor.
  - unfold on_peer_confirmed. destruct (decide _); [apply mild_refl|apply mild_store].
  - by apply mild_upd.
  - by apply mild_upd.
  - by apply mild_upd.
  - apply mild_spawn. by repeat constructor.
  - apply mild_store.
Qed.

Lemma doomed_internal cfg p p' : Reconnect.internal to_string from_slice cfg p p' → doomed p → doomed p'.
Proof.
  intros [c ts i t ch c' t' new Hi Ht Hstep] [H|H]; cbn in H.
  - left. cbn. pose proof (Reconnect.task_step_ok to_string from_slice cfg ch c t Ht) as Ho. rewrite Hstep in Ho. by apply Ho.
  - assert (t = Reconnect.KDispose ∨ t ≠ Reconnect.KDispose) as [->|Hne] by (destruct t; (by left) || by right).
    + left. cbn in Hstep. injection Hstep as <- <- <-. done.
    + right. cbn. apply elem_of_app. left. apply list_elem_of_lookup in H as [j Hj]. apply list_elem_of_lookup. exists j.
      rewrite list_lookup_insert_ne; [done|]. intros ->. rewrite Hi in Hj. congruence.
Qed.

Lemma mild_moves ch k e p' w : heap (core w) !! k = Some e → Reconnect.internal to_string from_slice (e_cfg e) (e_life e) p' →
  mild w (client_moves to_string ch k p' w).
Proof.
  intros He Hp. unfold client_moves. rewrite He.
  assert (mild w (on_life (λ _, p') k w)) as H0.
  { split_and!; [done|done| |exists []; by rewrite app_nil_r]. split; [cbn; by rewrite length_alter|].
    intros j e'. cbn. rewrite list_lookup_alter. case_decide; subst; [|intros Hj; by exists e'].
    unfold core in He. rewrite He. cbn. intros [= <-]. exists e. split; [done|]. by apply (doomed_internal (e_cfg e)). }
  revert H0. generalize (on_life (λ _, p') k w). induction (new_events (e_life e) p') as [|ev evs IH]; intros w1 H1; [done|].
  cbn. apply IH. eapply mild_trans; [exact H1|apply mild_event].
Qed.

(** *** The invariant *)

Record inv_of (cl : list nat) (rm : gset string) (h : list Entry) (l : list (Step D)) : Prop := mkInv {
  inv_lt : ∀ k, k ∈ cl ++ omap pooled l → k < length h;
  inv_nodup : NoDup (cl ++ omap pooled l);
  inv_held : ∀ k e, h !! k = Some e → k ∈ cl ∨ k ∈ omap pooled l ∨ SDispose k ∈ l ∨ doomed (e_life e);
  inv_drop : ∀ did k, SDrop did k ∈ l → SDispose k ∈ l ∨ ∀ e, h !! k = Some e → doomed (e_life e);
  inv_ref : ∀ k, k ∈ omap condemned l → k < length h;
  inv_rel : NoDup (omap released l);
  inv_removing : ∀ did, did ∈ rm ↔ did ∈ omap released l
}.
Definition inv w : Prop := inv_of (clients (core w)) (removing_daemon_ids (core w)) (heap (core w)) (all w).

Lemma inv_perm cl rm h l l' : l ≡ₚ l' → inv_of cl rm h l → inv_of cl rm h l'.
Proof.
  intros Hp [H1 H2 H3 H4 H4' H5 H6]. assert (omap pooled l ≡ₚ omap pooled l') as Ep by by rewrite Hp.
  assert (omap condemned l ≡ₚ omap condemned l') as Ec by by rewrite Hp.
  assert (omap released l ≡ₚ omap released l') as Er by by rewrite Hp.
  split.
  - intros k. rewrite <-Ep. apply H1.
  - by rewrite <-Ep.
  - intros k e. rewrite <-Ep, <-Hp. apply H3.
  - intros did k. rewrite <-Hp. apply H4.
  - intros k. rewrite <-Ec. apply H4'.
  - by rewrite <-Er.
  - intros did. by rewrite <-Er.
Qed.

Lemma harmless_condemned s : harmless s → condemned s = None.
Proof. by intros [_ H]; destruct s. Qed.

Lemma omap_harmless l : Forall harmless l → omap pooled l = [] ∧ omap released l = [] ∧ omap condemned l = [].
Proof.
  induction 1 as [|s l Hs _ (IH1 & IH2 & IH3)]; [done|]. cbn. rewrite (harmless_condemned s Hs). destruct Hs as [-> ->].
  by rewrite IH1, IH2, IH3.
Qed.

Lemma drop_not_harmless did k l : Forall harmless l → SDrop did k ∉ l.
Proof. intros H Hin. rewrite Forall_forall in H. by destruct (H _ Hin). Qed.

(** A harmless section that is no disposal leaves the manager's part as it is. *)
Lemma inv_mild cl rm h h' l r new :
  harmless r → (∀ k, r ≠ SDispose k) → Forall harmless new → heap_le h h' →
  inv_of cl rm h (r :: l) → inv_of cl rm h' (l ++ new).
Proof.
  intros Hs Hd Hnew [Hlen Hle] [H1 H2 H3 H4 H4' H5 H6]. destruct (omap_harmless new Hnew) as (Np & Nr & Nc).
  pose proof (harmless_condemned r Hs) as Hc. destruct Hs as [Hp Hr].
  cbn in *. rewrite Hp in *. rewrite Hr in *. rewrite Hc in *.
  split; rewrite ?omap_app, ?Np, ?Nr, ?Nc, ?app_nil_r; [| | | |by rewrite <-Hlen|done|done].
  - intros k Hk. rewrite <-Hlen. by apply H1.
  - done.
  - intros k e' He'. destruct (Hle k e' He') as (e & He & Hdoom). destruct (H3 k e He) as [?|[?|[Hin|?]]]; auto.
    apply elem_of_cons in Hin as [Hin|Hin]; [by destruct (Hd k)|]. right. right. left. apply elem_of_app. by left.
  - intros did k Hin. apply elem_of_app in Hin as [Hin|Hin]; [|by apply (drop_not_harmless did k) in Hin].
    destruct (H4 did k) as [Hs|Hs]; [by apply elem_of_cons; right| |].
    + apply elem_of_cons in Hs as [Hs|Hs]; [by destruct (Hd k)|]. left. apply elem_of_app. by left.
    + right. intros e' He'. destruct (Hle k e' He') as (e & He & Hdoom). by apply Hdoom, Hs.
Qed.

Abbreviation pinv w := (inv_of (clients (core w)) (removing_daemon_ids (core w)) (heap (core w))).
Abbreviation goes_on w w1 R more := (∃ new, tasks (core w1) = tasks (core w) ++ new ∧ pinv w1 (more ++ R ++ (new ≫= todo))).

Lemma goes_mild s w w1 R more : harmless s → (∀ k, s ≠ SDispose k) → mild w w1 → Forall harmless more →
  pinv w (s :: R) → goes_on w w1 R more.
Proof.
  intros Hs Hd (Hc & Hr & Hh & new & Ht & Hnew) Hmore Hinv. exists new. split; [done|]. rewrite Hc, Hr.
  apply (inv_perm _ _ _ (R ++ (more ++ (new ≫= todo)))); [solve_Permutation|].
  apply (inv_mild _ _ (heap (core w)) _ _ s); [done..|by apply Forall_app|done|done].
Qed.

Lemma inv_grow cl rm h h' l new : Forall harmless new → heap_le h h' → inv_of cl rm h l → inv_of cl rm h' (l ++ new).
Proof.
  intros Hn Hh [H1 H2 H3 H4 H4' H5 H6]. apply (inv_mild _ _ h _ _ (SConnected 0)); [done..|]. split; cbn; try done.
  - intros k e He. destruct (H3 k e He) as [?|[?|[?|?]]]; auto. right. right. left. by right.
  - intros did k [?|Hin]%elem_of_cons; [done|]. destruct (H4 did k Hin); [left; by right|by right].
Qed.

(** The same tasks go on. *)
Lemma goes_same w w1 R more : tasks (core w1) = tasks (core w) → pinv w1 (more ++ R) → goes_on w w1 R more.
Proof. intros Ht H. exists []. rewrite !app_nil_r. by split. Qed.

Lemma found_mild ch k fid next w : mild w (found dispatch_relay_control ch k fid next w).1 ∧
  Forall harmless (found dispatch_relay_control ch k fid next w).2.
Proof.
  destruct next; cbn [found].
  - split; [apply mild_refl|by repeat constructor].
  - split; [|constructor]. apply mild_spawn. by repeat constructor.
  - unfold session_list. pose proof (mild_store (Store.list_sessions (ch_store ch)) w) as H.
    destruct (with_store _ w) as [r w1]. cbn in *. split; [done|by repeat constructor].
Qed.

Lemma save_config_mild ch cfg w : mild w (save_config ch cfg w).2.
Proof.
  unfold save_config. pose proof (mild_store (Store.list_pairings (ch_store ch)) w) as H.
  destruct (with_store _ w) as [r w1]. eapply mild_trans; [exact H|apply mild_store].
Qed.

Lemma inv_add cl rm h l cfg e0 more : Forall harmless more →
  inv_of cl rm h (SAdd cfg :: l) → inv_of cl rm (h ++ [e0]) (more ++ SSave (length h) :: l).
Proof.
  intros Hm [H1 H2 H3 H4 H4' H5 H6]. destruct (omap_harmless more Hm) as (Mp & Mr & Mc). cbn in *.
  split; rewrite ?omap_app, ?Mp, ?Mr, ?Mc; cbn; [| | | | |done|done].
  - intros k Hk. rewrite length_app. cbn. apply elem_of_app in Hk as [Hk|Hk%elem_of_cons].
    + assert (k < length h) by (apply H1, elem_of_app; by left). lia.
    + destruct Hk as [->|Hk]; [lia|]. assert (k < length h) by (apply H1, elem_of_app; by right). lia.
  - apply NoDup_app. apply NoDup_app in H2 as (N1 & N2 & N3). split; [done|].
    assert (∀ k, k ∈ cl ∨ k ∈ omap pooled l → k ≠ length h) as Hne.
    { intros k Hk ->. assert (length h < length h); [apply H1, elem_of_app; naive_solver|lia]. }
    split; [intros k Hk [->|Hk']%elem_of_cons; [by apply (Hne (length h)); [left|]|by apply (N2 k)]|].
    constructor; [|done]. intros Hk. by apply (Hne (length h)); [right|].
  - intros k e. rewrite lookup_app_Some. intros [He|[Hk He]].
    + destruct (H3 k e He) as [?|[?|[Hin%elem_of_cons|?]]]; auto; [right; left; by right|].
      destruct Hin as [?|?]; [done|]. right. right. left. apply elem_of_app. right. by right.
    + apply list_lookup_singleton_Some in He as [Hz _]. right. left.
      assert (k = length h) as -> by lia. left.
  - intros did k Hin. apply elem_of_app in Hin as [Hin|[?|Hin]%elem_of_cons]; [by apply (drop_not_harmless did k) in Hin|done|].
    destruct (H4 did k) as [[?|Hs]%elem_of_cons|Hs]; [by right|done|left; apply elem_of_app; right; by right|].
    right. intros e. rewrite lookup_app_Some. intros [He|[Hk He]]; [by apply Hs|].
    apply list_lookup_singleton_Some in He as [Hz _].
    assert (k < length h); [|lia]. apply H4', list_elem_of_omap. exists (SDrop did k). by split.
  - intros k Hk. rewrite length_app. cbn. specialize (H4' k Hk). lia.
Qed.

Lemma inv_save_ok cl rm h l k : inv_of cl rm h (SSave k :: l) → inv_of (cl ++ [k]) rm h l.
Proof.
  intros [H1 H2 H3 H4 H4' H5 H6]. cbn in *. split; rewrite <-?app_assoc; [done|done| | |done..].
  - intros x e Hx. destruct (H3 x e Hx) as [?|[[->|?]%elem_of_cons|[[?|?]%elem_of_cons|?]]]; auto; [left|left|done].
    + apply elem_of_app. by left.
    + apply elem_of_app. right. left.
  - intros did x Hx. destruct (H4 did x) as [[?|?]%elem_of_cons|?]; [by right|done|by left|by right].
Qed.

Lemma inv_save_failed cl rm h l k : inv_of cl rm h (SSave k :: l) → inv_of cl rm h ([SDispose k; SDisposed k] ++ l).
Proof.
  intros [H1 H2 H3 H4 H4' H5 H6]. cbn in *.
  assert (∀ x, x ∈ cl ++ omap pooled l → x ∈ cl ++ k :: omap pooled l) as Hsub.
  { intros x. rewrite !elem_of_app. intros [?|?]; [by left|right; by right]. }
  split; cbn; [auto| | | |done..].
  - apply NoDup_app in H2 as (N1 & N2 & [_ N3]%NoDup_cons). apply NoDup_app. split_and!; [done| |done].
    intros x Hx Hl. apply (N2 x Hx). by right.
  - intros x e Hx. destruct (H3 x e Hx) as [?|[[->|?]%elem_of_cons|[[?|?]%elem_of_cons|?]]]; auto; [|done|]; right; right; left.
    + left.
    + do 2 right. done.
  - intros did x Hx. apply elem_of_cons in Hx as [?|[?|Hx]%elem_of_cons]; [done..|].
    destruct (H4 did x) as [[?|?]%elem_of_cons|?]; [by right|done|left; do 2 right; done|by right].
Qed.

Lemma inv_dispose cl rm h l k : inv_of cl rm h (SDispose k :: l) →
  inv_of cl rm (alter (λ e, mkEntry (e_cfg e)
    (Reconnect.mkPool (Reconnect.client (e_life e)) (Reconnect.tasks (e_life e) ++ [Reconnect.KDispose]))) k h) l.
Proof.
  intros [H1 H2 H3 H4 H4' H5 H6]. cbn in *. set (f := λ e, _). split; rewrite ?length_alter; [done|done| | |done..].
  - intros x e. rewrite list_lookup_alter. case_decide as Hk; subst.
    + destruct (h !! x); cbn; [|done]. intros [= <-]. right. right. right. right. cbn. apply elem_of_app. right. left.
    + intros Hx. destruct (H3 x e Hx) as [?|[?|[[Heq|?]%elem_of_cons|?]]]; auto. congruence.
  - intros did x Hx. destruct (decide (k = x)) as [->|Hne].
    + right. intros e. rewrite list_lookup_alter, decide_True by done.
      destruct (h !! x); cbn; [|done]. intros [= <-]. right. cbn. apply elem_of_app. right. left.
    + destruct (H4 did x) as [[Heq|?]%elem_of_cons|He]; [by right|congruence|by left|right].
      intros e. rewrite list_lookup_alter, decide_False by done. apply He.
Qed.

Lemma inv_remove cl rm h l did b c more :
  did ∉ rm → Forall harmless more → (∀ k, c = Some k → k ∈ cl) →
  inv_of cl rm h (SRemove did b :: l) → inv_of cl (rm ∪ {[did]}) h ((more ++ [SDelete did c]) ++ l).
Proof.
  intros Hd Hm Hc [H1 H2 H3 H4 H4' H5 H6]. destruct (omap_harmless more Hm) as (Mp & Mr & Mc). cbn in *.
  split; rewrite ?omap_app, ?Mp, ?Mr, ?Mc; cbn; [done|done| | | | |].
  - intros x e Hx. destruct (H3 x e Hx) as [?|[?|[[?|?]%elem_of_cons|?]]]; auto; [done|]. right. right. left. apply elem_of_app. by right.
  - intros did' x Hx. apply elem_of_app in Hx as [Hx|Hx].
    { apply elem_of_app in Hx as [Hx|[?|Hx]%elem_of_cons]; [by apply (drop_not_harmless did' x) in Hx|done|by apply elem_of_nil in Hx]. }
    destruct (H4 did' x) as [[?|?]%elem_of_cons|?]; [by right|done|left; apply elem_of_app; by right|by right].
  - intros k. destruct c as [k'|]; cbn; [|apply H4']. intros [->|Hk]%elem_of_cons; [|by apply H4'].
    apply H1, elem_of_app. left. by apply Hc.
  - constructor; [|done]. by rewrite <-H6.
  - intros x. rewrite elem_of_union, elem_of_singleton, elem_of_cons, H6. tauto.
Qed.

Lemma inv_delete cl rm h l did c : inv_of cl rm h (SDelete did c :: l) →
  match c with
  | None => inv_of cl (rm ∖ {[did]}) h l
  | Some k => inv_of cl rm h ([SDispose k; SDisposed k; SDrop did k] ++ l)
  end.
Proof.
  intros [H1 H2 H3 H4 H4' H5 H6]. cbn in *. apply NoDup_cons in H5 as [N1 N2].
  assert (∀ x e, h !! x = Some e → x ∈ cl ∨ x ∈ omap pooled l ∨ SDispose x ∈ l ∨ doomed (e_life e)) as H3'.
  { intros x e Hx. destruct (H3 x e Hx) as [?|[?|[[?|?]%elem_of_cons|?]]]; auto; done. }
  assert (∀ d x, SDrop d x ∈ l → SDispose x ∈ l ∨ ∀ e, h !! x = Some e → doomed (e_life e)) as H4''.
  { intros d x Hx. destruct (H4 d x) as [[?|?]%elem_of_cons|?]; [by right|done|by left|by right]. }
  destruct c as [k|]; split; cbn in *; try done.
  - intros x e Hx. destruct (H3' x e Hx) as [?|[?|[?|?]]]; auto. right. right. left. do 3 right. done.
  - intros d x Hx. repeat (apply elem_of_cons in Hx as [Heq|Hx]); [done|done| |].
    + injection Heq as -> ->. left. left.
    + destruct (H4'' d x Hx) as [?|?]; [left; by do 3 right|by right].
  - by constructor.
  - intros x. rewrite elem_of_difference, elem_of_singleton, H6, elem_of_cons. split; [naive_solver|]. intros Hx. split; [by right|]. by intros ->.
Qed.

Lemma inv_dropped cl rm h l did k : inv_of cl rm h (SDrop did k :: l) → inv_of (filter (λ j, j ≠ k) cl) (rm ∖ {[did]}) h l.
Proof.
  intros [H1 H2 H3 H4 H4' H5 H6]. cbn in *. apply NoDup_cons in H5 as [N1 N2].
  assert (∀ x, x ∈ filter (λ j, j ≠ k) cl ++ omap pooled l → x ∈ cl ++ omap pooled l) as Hsub.
  { intros x. rewrite !elem_of_app, list_elem_of_filter. tauto. }
  assert (∀ d x, SDrop d x ∈ SDrop did k :: l → SDispose x ∈ l ∨ ∀ e, h !! x = Some e → doomed (e_life e)) as H4''.
  { intros d x Hx. destruct (H4 d x Hx) as [[?|?]%elem_of_cons|?]; [done|by left|by right]. }
  split; [auto| | | | |done|].
  - apply NoDup_app in H2 as (M1 & M2 & M3). apply NoDup_app. split_and!; [by apply NoDup_filter| |done].
    intros x [_ Hx]%list_elem_of_filter. by apply M2.
  - intros x e Hx. destruct (decide (x = k)) as [->|Hne].
    + destruct (H4'' did k) as [?|Hd]; [left|auto|]. do 3 right. by apply Hd.
    + destruct (H3 x e Hx) as [?|[?|[[?|?]%elem_of_cons|?]]]; auto; [|done]. left. by apply list_elem_of_filter.
  - intros d x Hx. apply (H4'' d x). by right.
  - intros x Hx. apply H4'. by right.
  - intros x. rewrite elem_of_difference, elem_of_singleton, H6, elem_of_cons. split; [naive_solver|]. intros Hx. split; [by right|]. by intros ->.
Qed.

Definition disposals (cl : list nat) : list (Step D) := cl ≫= λ k, [SDispose k; SDisposed k].

Lemma inv_stop cl rm h l : inv_of cl rm h (SStop :: l) → inv_of [] rm h (disposals cl ++ l).
Proof.
  intros [H1 H2 H3 H4 H4' H5 H6]. cbn in *.
  assert (Forall harmless (disposals cl)) as Hh.
  { apply Forall_forall. intros s Hs. apply list_elem_of_bind in Hs as (k & Hs & _). by repeat (apply elem_of_cons in Hs as [->|Hs]); [..|by apply elem_of_nil in Hs]. }
  destruct (omap_harmless _ Hh) as (Mp & Mr & Mc). apply NoDup_app in H2 as (M1 & M2 & M3).
  split; cbn; rewrite ?omap_app, ?Mp, ?Mr, ?Mc; cbn; [| |  | |done..].
  - intros k Hk. apply H1, elem_of_app. by right.
  - done.
  - intros x e Hx. destruct (H3 x e Hx) as [?|[?|[[?|?]%elem_of_cons|?]]]; auto; [|done|]; right; right; left; apply elem_of_app; [left|by right].
    apply list_elem_of_bind. exists x. split; [left|done].
  - intros did x Hx. apply elem_of_app in Hx as [Hx|Hx]; [by apply (drop_not_harmless did x) in Hx|].
    destruct (H4 did x) as [[?|?]%elem_of_cons|?]; [by right|done|left; apply elem_of_app; by right|by right].
Qed.
Lemma client_for_in w did k : client_for w did = Some k → k ∈ clients (core w).
Proof. unfold client_for. intros H. apply head_Some_elem_of in H. by apply list_elem_of_filter in H as [_ H]. Qed.

Lemma life_kept w1 w k : heap (core w1) = heap (core w) → config_of w1 k = config_of w k.
Proof. unfold config_of. by intros ->. Qed.

Lemma save_inv ch n k w w1 b more R :
  step to_string dispatch_step dispatch_relay_control ch n (SSave k) w = Some (w1, b, more) → pinv w (SSave k :: R) → goes_on w w1 R more.
Proof.
  intros Hs Hinv. cbn [step] in Hs. destruct (config_of w k) as [cfg|] eqn:Ec.
  2:{ exfalso. unfold config_of in Ec. assert (k < length (heap (core w))) as Hk%lookup_lt_is_Some.
      { apply (inv_lt _ _ _ _ Hinv), elem_of_app. right. left. }
      destruct Hk as [e He]. by rewrite He in Ec. }
  pose proof (save_config_mild ch cfg w) as (Hc & Hr & Hh & new & Ht & Hn).
  destruct (save_config ch cfg w) as [[[]|err] w2]; simplify_eq; cbn [snd] in *; exists new; (split; [done|]).
  - cbn [app]. change (inv_of (clients (core w2) ++ [k]) (removing_daemon_ids (core w2)) (heap (core w2)) (R ++ (new ≫= todo))).
    rewrite Hc, Hr. apply (inv_grow _ _ (heap (core w))); [done..|]. by apply inv_save_ok.
  - rewrite Hc, Hr, app_assoc. apply (inv_grow _ _ (heap (core w))); [done..|]. by apply inv_save_failed.
Qed.

Lemma delete_inv ch n did c w w1 b more R :
  step to_string dispatch_step dispatch_relay_control ch n (SDelete did c) w = Some (w1, b, more) →
  pinv w (SDelete did c :: R) → goes_on w w1 R more.
Proof.
  intros Hs Hinv. cbn [step] in Hs. pose proof (mild_store (Store.delete_pairing (ch_store ch) did) w) as (Hc & Hr & Hh & new & Ht & Hn).
  fold (delete_row ch did w) in *. apply inv_delete in Hinv. destruct c as [k|]; simplify_eq; exists new; (split; [done|]).
  - rewrite Hc, Hr, app_assoc. by apply (inv_grow _ _ (heap (core w))).
  - change (inv_of (clients (core (delete_row ch did w))) (removing_daemon_ids (core (delete_row ch did w)) ∖ {[did]})
      (heap (core (delete_row ch did w))) (R ++ (new ≫= todo))). rewrite Hc, Hr. by apply (inv_grow _ _ (heap (core w))).
Qed.

Lemma step_inv ch n s w w1 b more R :
  step to_string dispatch_step dispatch_relay_control ch n s w = Some (w1, b, more) → pinv w (s :: R) → goes_on w w1 R more.
Proof.
  intros Hs Hinv. destruct s; cbn [step] in Hs; simplify_eq.
  - eapply goes_mild; [| |apply mild_call| |exact Hinv]; by repeat constructor.
  - eapply goes_mild; [| |apply mild_call| |exact Hinv]; by repeat constructor.
  - unfold session_ids in Hs. pose proof (mild_store (Store.list_sessions (ch_store ch)) w) as Hm.
    destruct (with_store _ w) as [r w2]. simplify_eq. eapply goes_mild; [| |exact Hm| |exact Hinv]; try done.
    apply Forall_fmap, Forall_forall. by repeat constructor.
  - apply goes_same; [done|].
    exact (inv_add _ _ _ R cfg _ (SConnected (length (heap (core w))) :: connect_steps (length (heap (core w))))
             ltac:(by repeat constructor) Hinv).
  - destruct (life_is connected k w); simplify_eq. eapply goes_mild; [| |apply mild_refl| |exact Hinv]; by repeat constructor.
  - exact (save_inv ch n k w w1 b more R Hs Hinv).
  - apply goes_same; [done|]. by apply inv_dispose.
  - destruct (life_is quiet k w); simplify_eq. eapply goes_mild; [| |apply mild_refl| |exact Hinv]; by repeat constructor.
  - destruct (decide _) as [Hin|Hin]; simplify_eq.
    + eapply goes_mild; [| |apply mild_store| |exact Hinv]; by repeat constructor.
    + apply goes_same; [done|]. eapply inv_remove; [done| | |exact Hinv].
      * destruct (client_for w daemon_id); [|by constructor]. destruct notify; by repeat constructor.
      * apply client_for_in.
  - eapply goes_mild; [| |apply mild_refl| |exact Hinv]; try done. apply Forall_fmap, Forall_forall. by repeat constructor.
  - exact (delete_inv ch n daemon_id client w w1 b more R Hs Hinv).
  - apply goes_same; [done|]. by apply inv_dropped.
  - eapply goes_mild; [| |apply mild_store| |exact Hinv]; try done. destruct (client_for _ _); by repeat constructor.
  - eapply goes_mild; [| |apply mild_refl| |exact Hinv]; try done. apply Forall_fmap, Forall_forall. by repeat constructor.
  - eapply goes_mild; [| |apply mild_refl| |exact Hinv]; by repeat constructor.
  - destruct candidates as [|k cands]; simplify_eq; [eapply goes_mild; [| |apply mild_refl| |exact Hinv]; by repeat constructor|].
    destruct (decide _); simplify_eq; [|eapply goes_mild; [| |apply mild_refl| |exact Hinv]; by repeat constructor].
    destruct (found_mild ch k fid next w) as [Hm Hf]. destruct (found _ ch k fid next w) as [w2 more2]. simplify_eq.
    by eapply goes_mild; [| |exact Hm| |exact Hinv].
  - eapply goes_mild; [| |apply mild_refl| |exact Hinv]; by repeat constructor.
  - eapply goes_mild; [| |apply mild_refl| |exact Hinv]; try done. apply Forall_fmap, Forall_forall. by repeat constructor.
  - pose proof (mild_store (Store.load_pairings (ch_store ch)) w) as Hm. destruct (with_store _ w) as [r w2]. simplify_eq.
    eapply goes_mild; [| |exact Hm| |exact Hinv]; try done. apply Forall_fmap, Forall_forall. by repeat constructor.
  - apply goes_same; [done|]. by apply inv_stop.
  - destruct (dispatch_step ch n d w) as [[w2 more2]|] eqn:Ed; simplify_eq. destruct (dispatch_mild _ _ _ _ _ _ Ed).
    by eapply goes_mild; [| |done| |exact Hinv].
Qed.
Lemma inv_mild_world w w' : mild w w' → inv w → inv w'.
Proof.
  intros (Hc & Hr & Hh & new & Ht & Hn) H. unfold inv, all. rewrite Hc, Hr, Ht, bind_app. by apply (inv_grow _ _ (heap (core w))).
Qed.

Lemma inv_run_task ch i w w' : run_task to_string dispatch_step dispatch_relay_control ch i w = Some w' → inv w → inv w'.
Proof.
  unfold run_task. destruct (tasks (core w) !! i) as [[n [|s rest]]|] eqn:Ei; [done| |done].
  destruct (step _ _ _ ch n s w) as [[[w1 b] more]|] eqn:Es; [|done]. intros [= <-] Hinv.
  apply list_elem_of_split_length in Ei as (l1 & l2 & El & ->).
  apply (inv_perm _ _ _ _ (s :: rest ++ (l1 ≫= todo) ++ (l2 ≫= todo))) in Hinv.
  2:{ unfold all. rewrite El, bind_app, bind_cons. cbn [todo]. solve_Permutation. }
  destruct (step_inv _ _ _ _ _ _ _ _ Es Hinv) as (new & Ht & Hinv').
  eapply inv_perm; [|exact Hinv'].
  unfold all. cbn [core upd set_tasks tasks IpcServer.owner]. fold (core w1). rewrite Ht, El, <-(app_assoc l1).
  rewrite insert_app_r_alt, Nat.sub_diag by lia. cbn [app insert list_insert]. rewrite bind_app, bind_cons, bind_app. cbn [todo]. solve_Permutation.
Qed.

Lemma inv_step w w' :
  world_step to_string dispatch_step dispatch_relay_control from_slice other w w' → inv w → inv w'.
Proof.
  intros [ch i ? ? Ht|ch k e p' ? He Hp|steps ? Hs|cfg p ?|? ? Ho] Hinv.
  - by eapply inv_run_task.
  - eapply inv_mild_world; [|exact Hinv]. by eapply mild_moves.
  - eapply inv_mild_world; [|exact Hinv]. apply mild_spawn. eapply Forall_impl; [exact Hs|]. by intros [].
  - apply (inv_mild_world (upd (λ c, set_clients (clients c ++ [length (heap c)]) (set_heap (heap c ++ [mkEntry cfg p]) c)) w0)).
    + apply mild_spawn. by repeat constructor.
    + apply (inv_save_ok _ _ _ (all w0) (length (heap (core w0)))).
      apply (inv_add _ _ _ (all w0) cfg (mkEntry cfg p) []); [done|].
      rewrite <-(app_nil_r (all w0)). apply (inv_perm _ _ _ (all w0 ++ [SAdd cfg])); [rewrite app_nil_r; solve_Permutation|].
      apply (inv_grow _ _ (heap (core w0))); [by repeat constructor|apply heap_le_refl|done].
  - eapply inv_mild_world; [|exact Hinv]. by apply other_mild.
Qed.
Lemma inv_new st : inv (world_new st).
Proof.
  unfold inv, all. cbn. split; cbn; [by intros k Hk%elem_of_nil|constructor|done|by intros did k Hk%elem_of_nil
    |by intros k Hk%elem_of_nil|constructor|set_solver].
Qed.

Lemma manager_inv_reachable st w :
  rtc (world_step to_string dispatch_step dispatch_relay_control from_slice other) (world_new st) w → inv w.
Proof. apply (rtc_ind_r inv); [apply inv_new|]. intros w1 w2 _ Hs Hi. by eapply inv_step. Qed.

(** Custody, for any dispatcher that leaves the pool alone. *)
Theorem pool_custody st w :
  rtc (world_step to_string dispatch_step dispatch_relay_control from_slice other) (world_new st) w →
  (∀ k e, heap (core w) !! k = Some e → k ∈ clients (core w) ∨ SSave k ∈ all w ∨ SDispose k ∈ all w ∨ doomed (e_life e)) ∧
  NoDup (clients (core w)) ∧ (∀ k, k ∈ clients (core w) → is_Some (heap (core w) !! k) ∧ SSave k ∉ all w) ∧
  NoDup (omap released (all w)) ∧ (∀ did, did ∈ removing_daemon_ids (core w) ↔ did ∈ omap released (all w)) ∧
  (∀ did k, SDrop did k ∈ all w → SDispose k ∈ all w ∨ ∃ e, heap (core w) !! k = Some e ∧ doomed (e_life e)).
Proof.
  intros [H1 H2 H3 H4 H4' H5 H6]%manager_inv_reachable. apply NoDup_app in H2 as (N1 & N2 & N3).
  assert (∀ k, k ∈ omap pooled (all w) ↔ SSave k ∈ all w) as Hp.
  { intros k. rewrite list_elem_of_omap. split; [intros (s & Hs & Hk); by destruct s; simplify_eq/=|intros Hk; by exists (SSave k)]. }
  split_and!; try done.
  - intros k e He. rewrite <-Hp. by eapply H3.
  - intros k Hk. split; [apply lookup_lt_is_Some, H1, elem_of_app; by left|]. rewrite <-Hp. by apply N2.
  - intros did k Hk. destruct (H4 did k Hk) as [?|Hd]; [by left|right].
    assert (k < length (heap (core w))) as [e He]%lookup_lt_is_Some; [apply H4', list_elem_of_omap; by exists (SDrop did k)|].
    exists e. auto.
Qed.
End custody.

(** ** Coming back after a restart *)

Section restart.
Context {CC : CryptoCrates} {HIS : HashIter string} {HIN : HashIter N} {SE : Store.SqlEngine}.
Context (to_string : Value → string).
Context {D : Type}.
Context (dispatch_step : Choice → N → D → World D → option (World D * list (Step D))).
Context (dispatch_relay_control : nat → Value → string → D).
Implicit Types w : World D.

Lemma saved_config_input s p : StoreLaws.loads s p → config_input (Pending.saved_config p) (Store.sp_label p) =
  Store.mkSave (Store.sp_daemon_id p) (Store.sp_relay_url p) (Store.sp_relay_token p) (Store.sp_registration_proof p) (Store.sp_public_key p)
    (Store.sp_secret_key p) (Store.sp_pairing_secret p) (Some (Store.sp_label p)) (Store.sp_pairing_id p) (Store.sp_hostname p).
Proof.
  intros H. destruct (StoreLaws.loaded_is_stored s p H) as [(_ & _ & _ & _ & Hk1 & Hk2 & _) _]. cbn in Hk1, Hk2.
  unfold config_input, Pending.saved_config. cbn. by rewrite !Pending.to_array_32_id.
Qed.

Definition same_pairings (s s' : Store.Store) : Prop := StoreLaws.readable s' ∧ ∀ q, StoreLaws.loads s' q ↔ StoreLaws.loads s q.

Context (ch : Choice) (no_failure : ∀ k, Store.e_fail (ch_store ch) k = false).

Lemma list_pairings_same w : let w' := (with_store (Store.list_pairings (ch_store ch)) w).2 in
  Store.pairings (store (core w')) = Store.pairings (store (core w)).
Proof.
  unfold with_store, Store.list_pairings. rewrite StoreLaws.store_bind_run, StoreLaws.query_run. cbv zeta. rewrite no_failure. done.
Qed.

Lemma resave w p : StoreLaws.readable (store (core w)) → StoreLaws.loads (store (core w)) p →
  ∃ w', save_config ch (Pending.saved_config p) w = (Ok tt, w') ∧ same_pairings (store (core w)) (store (core w')).
Proof.
  intros Hr Hl. unfold save_config. pose proof (list_pairings_same w) as Hs. destruct (with_store _ w) as [r w1]. cbn in Hs.
  change (c_label (Pending.saved_config p)) with (Some (Store.sp_label p)). cbn [from_option id].
  rewrite (saved_config_input (store (core w)) p) by done. set (data := Store.mkSave _ _ _ _ _ _ _ _ _ _).
  destruct (StoreLaws.loaded_is_stored (store (core w)) p Hl) as [Hsave Hst]. fold data in Hsave, Hst.
  assert (StoreLaws.readable (store (core w1))) as Hr1 by (unfold StoreLaws.readable; by rewrite Hs).
  pose proof (StoreLaws.save_pairing_run (ch_store ch) data (store (core w1)) Hsave Hr1 (no_failure _)) as H.
  unfold with_store. destruct (Store.save_pairing (ch_store ch) data (store (core w1))) as [r' s']. destruct H as (-> & Hr' & _ & Hq & _).
  eexists. split; [reflexivity|]. split; [done|]. cbn. intros q. rewrite Hq, Hs.
  change (Store.i_daemon_id data) with (Store.sp_daemon_id p). rewrite Hst. unfold StoreLaws.loads at 1. rewrite Hs. fold (StoreLaws.loads (store (core w)) q).
  split; [intros [->|[_ ?]]; done|]. intros Hlq. destruct (decide (Store.sp_daemon_id q = Store.sp_daemon_id p)) as [He|He]; [left|by right].
  destruct Hl as (d1 & r1 & raw1 & L1 & R1 & P1), Hlq as (d2 & r2 & raw2 & L2 & R2 & P2).
  rewrite (StoreLaws.parse_stored_id _ _ _ P1 (StoreLaws.row_to_raw_id _ _ _ R1)), (StoreLaws.parse_stored_id _ _ _ P2 (StoreLaws.row_to_raw_id _ _ _ R2)) in He.
  subst. congruence.
Qed.
(** The saves of the clients that connect one after the other. *)
Fixpoint save_all (cfgs : list RelayClientConfig) w : option (World D) :=
  match cfgs with
  | [] => Some w
  | cfg :: cfgs => match save_config ch cfg w with (Ok _, w) => save_all cfgs w | (Err _, _) => None end
  end.

Lemma save_all_same l w : StoreLaws.readable (store (core w)) → (∀ p, p ∈ l → StoreLaws.loads (store (core w)) p) →
  ∃ w', save_all (Pending.saved_config <$> l) w = Some w' ∧ same_pairings (store (core w)) (store (core w')).
Proof.
  revert w. induction l as [|p l IH]; intros w Hr Hl; [by exists w|].
  destruct (resave w p Hr) as (w1 & E1 & Hr1 & Hs1); [apply Hl; left|].
  destruct (IH w1 Hr1) as (w2 & E2 & Hr2 & Hs2). { intros q Hq. apply Hs1, Hl. by right. }
  exists w2. rewrite fmap_cons. cbn. rewrite E1. split; [done|]. split; [done|]. intros q. by rewrite Hs2.
Qed.

(** After a restart the daemon dials exactly its saved pairings.  When the store can
    be read and nothing fails, [reconnect_saved] adds one client for each pairing that
    loads, each daemon id once, and saving them again as they connect leaves every
    pairing as it was. *)
Theorem restart_reconnects w n : StoreLaws.readable (store (core w)) →
  ∃ l w1 w2, step to_string dispatch_step dispatch_relay_control ch n SReconnectSaved w =
      Some (w1, false, SAdd <$> (Pending.saved_config <$> l)) ∧
    NoDup (Store.sp_daemon_id <$> l) ∧ (∀ p, p ∈ l ↔ StoreLaws.loads (store (core w)) p) ∧
    save_all (Pending.saved_config <$> l) w1 = Some w2 ∧ same_pairings (store (core w)) (store (core w2)).
Proof.
  intros Hr. cbn [step]. destruct (StoreLaws.load_pairings_run (ch_store ch) (store (core w)) Hr (no_failure _)) as (l & El & Hn & Hl).
  assert (Store.pairings (Store.load_pairings (ch_store ch) (store (core w))).2 = Store.pairings (store (core w))) as Hp.
  { unfold Store.load_pairings. rewrite StoreLaws.store_bind_run, StoreLaws.query_run. cbv zeta. by rewrite no_failure. }
  unfold with_store. destruct (Store.load_pairings (ch_store ch) (store (core w))) as [r s1]. cbn in El, Hp. subst r.
  set (w1 := upd (set_store s1) w). assert (∀ p, StoreLaws.loads (store (core w1)) p ↔ StoreLaws.loads (store (core w)) p) as Hl1.
  { intros p. unfold StoreLaws.loads. cbn. by rewrite Hp. }
  destruct (save_all_same l w1) as (w2 & E2 & Hr2 & Hs2).
  - unfold StoreLaws.readable. cbn. by rewrite Hp.
  - intros p Hin. by apply Hl1, Hl.
  - exists l, w1, w2. split; [by rewrite <-list_fmap_compose|]. split; [done|]. split; [done|]. split; [done|]. split; [done|].
    intros q. by rewrite Hs2, Hl1.
Qed.
End restart.

(** ** Concrete runs *)

Module Demo.
#[local] Existing Instance DaemonClient.Demo.crates.
#[local] Existing Instance DaemonClient.Demo.iter.
#[local] Existing Instance StoreLaws.Demo.engine.
#[local] Instance iter_n : HashIter N := elements_iter N.

Definition to_string := DaemonClient.Demo.to_string.
Definition from_slice := DaemonClient.Demo.from_slice.
(** A dispatcher with nothing to do. *)
Definition idle (_ : Choice) (_ : N) (_ : unit) (w : World unit) : option (World unit * list (Step unit)) := Some (w, []).
Definition control (_ : nat) (_ : Value) (_ : string) : unit := tt.
Definition nothing (_ _ : World unit) : Prop := False.

Definition ch : Choice := mkChoice DaemonClient.Demo.env StoreLaws.Demo.env (Runners.mkSpawnEnv 0 None (Err "") (Err "") false) Worktree.Demo.sys.
Definition dead_dial : Reconnect.Choice := Reconnect.mkChoice DaemonClient.Demo.env false Reconnect.IClosed.
Definition key : bytes := replicate 32 "k"%char.
Definition cfg (did label : string) : RelayClientConfig :=
  mkConfig "wss://r" did "tok" "proof" (mkKeyPair key key) key (Some (Set_ label)) "id" "host".

Section moves.
Context {D : Type} (dispatch : Choice → N → D → World D → option (World D * list (Step D))) (ctl : nat → Value → string → D).
Context (other : World D → World D → Prop).

(** A schedule: requests, sections of task [i], a step of a task of client [k]. *)
Inductive Move := Ask (steps : list (Step D)) | Sec (i : nat) | Life (k j : nat) | Register (cfg : RelayClientConfig) (c : Client).

Definition requests (steps : list (Step D)) : bool :=
  forallb (λ s, match s with SAdd _ | SRemove _ _ | SRename _ _ | SReconnectSaved | SStop => true | _ => false end) steps.

Definition move (w : World D) (m : Move) : option (World D) :=
  match m with
  | Ask steps => if requests steps then Some (spawn steps w) else None
  | Sec i => run_task to_string dispatch ctl ch i w
  | Life k j =>
      match heap (core w) !! k with
      | Some (mkEntry cfg (Reconnect.mkPool c ts)) =>
          match ts !! j with
          | None | Some Reconnect.KDone => None
          | Some t =>
              let '(c', t', new) := Reconnect.task_step to_string from_slice cfg dead_dial c t in
              Some (client_moves to_string ch k (Reconnect.mkPool c' (<[j := t']> ts ++ new)) w)
          end
      | None => None
      end
  | Register cfg c =>
      Some (register_client (length (heap (core w)))
        (upd (λ o, set_heap (heap o ++ [mkEntry cfg (Reconnect.mkPool c [])]) o) w))
  end.
Definition moves (ms : list Move) (w : World D) : option (World D) :=
  foldl (λ w m, let?o w := w in move w m) (Some w) ms.

Lemma move_step w m w' : move w m = Some w' → world_step to_string dispatch ctl from_slice other w w'.
Proof.
  destruct m as [steps|i|k j|c cl]; cbn.
  - destruct (requests steps) eqn:Er; [|done]. intros [= <-]. apply step_request. unfold requests in Er.
    apply Forall_forall. intros s Hs. rewrite forallb_forall in Er. apply list_elem_of_In in Hs. specialize (Er s Hs). by destruct s.
  - apply step_task.
  - destruct (heap (core w) !! k) as [[cf [c ts]]|] eqn:Ek; [|done]. destruct (ts !! j) as [t|] eqn:Ej; [|done].
    destruct (Reconnect.task_step _ _ cf dead_dial c t) as [[c' t'] new] eqn:Et. intros H.
    assert (t ≠ Reconnect.KDone ∧ client_moves to_string ch k (Reconnect.mkPool c' (<[j := t']> ts ++ new)) w = w') as [Hn <-]
      by (destruct t; by simplify_eq). eapply step_client; [exact Ek|]. by econstructor.
  - intros [= <-]. apply step_register.
Qed.

Lemma moves_reachable ms w w' : moves ms w = Some w' → rtc (world_step to_string dispatch ctl from_slice other) w w'.
Proof.
  revert w. induction ms as [|m ms IH]; intros w; cbn; [by intros [= <-]|]. unfold moves in *. cbn.
  destruct (move w m) as [w1|] eqn:Em; [|intros H; exfalso; clear -H; induction ms; done].
  intros H. eapply rtc_l; [by eapply move_step|by apply IH].
Qed.
End moves.
Arguments Ask {D}. Arguments Sec {D}. Arguments Life {D}. Arguments Register {D}.

(** The row of [d1] is on disk; its client connects (no relay answers). *)
Definition st0 : Store.Store := (Store.save_pairing StoreLaws.Demo.env (config_input (cfg "d1" "Mac") (Set_ "Mac")) (StoreLaws.store_new 32)).2.
Definition dialled : list (Move (D := unit)) := (λ _, Life 0 0) <$> seq 0 6.
Definition added : list (Move (D := unit)) := [Ask [SAdd (cfg "d1" "Mac")]; Sec 0] ++ dialled ++ [Sec 0; Sec 0; Sec 0; Sec 0; Sec 0].
Definition removed : list (Move (D := unit)) := added ++ [Ask [SRemove "d1" true]; Sec 1; Sec 1; Sec 1; Sec 1].

Definition final (ms : list Move) : World unit := default (world_new st0) (moves idle control ms (world_new st0)).

Lemma pool_custody_run :
  clients (core (final removed)) = [0] ∧ (∃ e, heap (core (final removed)) !! 0 = Some e ∧ doomed (e_life e)) ∧
  "d1" ∈ removing_daemon_ids (core (final removed)).
Proof.
  assert (moves idle control removed (world_new st0) = Some (final removed)) as Hr by (vm_compute; reflexivity).
  assert (all (final removed) = [SDisposed 0; SDrop "d1" 0] ∧ clients (core (final removed)) = [0]) as [Ha Hc]
    by (vm_compute; split; reflexivity).
  revert Hr Ha Hc. generalize (final removed). intros w Hr%(moves_reachable idle control nothing) Ha Hc.
  assert (∀ c n d w0 w' more, idle c n d w0 = Some (w', more) → mild w0 w' ∧ Forall harmless more) as Hi.
  { intros c n d w0 w' more [= <- <-]. split; [apply mild_refl|constructor]. }
  destruct (pool_custody to_string from_slice idle control nothing Hi (λ _ _ F, match F with end) st0 w Hr) as (_ & _ & _ & _ & Hrel & Hdrop).
  split; [done|]. split.
  - destruct (Hdrop "d1" 0) as [H|H]; [rewrite Ha; right; left| |done]. rewrite Ha in H.
    by repeat (apply elem_of_cons in H as [H|H]); [..|apply elem_of_nil in H].
  - apply Hrel, list_elem_of_omap. exists (SDrop "d1" 0). rewrite Ha. split; [right; left|done].
Defined.

Definition p1 : Store.StoredPairing := Store.mkStored "d1" "wss://r" "tok" "proof" key key key (Set_ "Mac") "id" "host".

Lemma st0_row : map_to_list (Store.pairings st0) = [("d1", Store.mkPairingRow (Store.SText "wss://r") (Store.SText "tok")
  (Store.SText "proof") (Store.SBlob key) (Store.SBlob key) (Store.SBlob key) 5000 (Store.SText "Mac") (Store.SText "id") (Store.SText "host"))].
Proof. vm_compute. reflexivity. Qed.

Lemma st0_loads : StoreLaws.readable st0 ∧ StoreLaws.loads st0 p1.
Proof.
  split.
  - intros d r H%elem_of_map_to_list. rewrite st0_row in H. apply list_elem_of_singleton in H. injection H as -> ->. by eexists.
  - eexists "d1", _, _. rewrite <-elem_of_map_to_list, st0_row. split; [left|]. by split.
Qed.

Lemma restart_reconnects_witness :
  ∃ l w1 w2, step to_string idle control ch 0 SReconnectSaved (world_new st0) =
    Some (w1, false, SAdd <$> (Pending.saved_config <$> l)) ∧ p1 ∈ l ∧ save_all ch (Pending.saved_config <$> l) w1 = Some w2.
Proof.
  pose proof st0_loads as [Hr Hl]. revert Hr Hl. generalize st0 as st. intros st Hr Hl.
  destruct (restart_reconnects to_string idle control ch (λ _, eq_refl) (world_new st) 0 Hr) as (l & w1 & w2 & Hs & _ & Hin & Hsave & _).
  exists l, w1, w2. split; [exact Hs|]. split; [by apply Hin|exact Hsave].
Defined.

(** A pairing removed while its client still connects comes back: [add_client] saves the
    row again and pools the client. *)
Example removed_while_connecting :
  let gone := [Ask [SAdd (cfg "d1" "Mac")]; Sec 0; Ask [SRemove "d1" true]; Sec 1; Sec 1] in
  let row ms := Store.pairings (store (core (final ms))) !! "d1" in
  row gone = None ∧ todo <$> tasks (core (final gone)) !! 1 = Some [] ∧
  (let later := gone ++ dialled ++ [Sec 0; Sec 0; Sec 0; Sec 0; Sec 0] in is_Some (row later) ∧ clients (core (final later)) = [0]).
Proof. vm_compute. split_and!; [reflexivity|reflexivity|by eexists|reflexivity]. Qed.

(** One phone on two pairings: the greeting of the second goes out on the first. *)
Example first_client_answers :
  let two := [Register (cfg "d1" "first") DaemonClient.Demo.client1; Register (cfg "d2" "second") DaemonClient.Demo.client1] in
  let w := on_event to_string ch (cfg "d2" "second") (OnFrontendJoined "f1") (final two) in
  option_map (λ w, todo <$> tasks (core w) !! 2) (moves idle control [Sec 2; Sec 2] w) = Some (Some [SHello 0 "f1" (Some (Set_ "second")) []]).
Proof. vm_compute. reflexivity. Qed.
End Demo.
