(* ===== verification/Dispatcher.v ===== *)
(** * Dispatcher: the commands of runners, the command line and frontends.
    [tp-daemon/src/ipc/command_dispatcher.rs], over the daemon of [RelayManager] and
    the closures [tp-daemon/src/daemon.rs] hands it.  A handler is the section that
    runs when its message arrives; what it spawns or goes on with after an await is a
    continuation.  [serde_json]'s texts, the text of a store error, and the pairing
    handlers ([PairRuntime]) are parameters; the local record observer, which the
    daemon does not look at, is left out. *)
From stdpp Require Import base list numbers strings gmap fin_maps.
From Stdlib Require Import Lia NArith ZArith Ascii.
From Stdlib.Floats Require Import SpecFloat.
From S2P Require Import Prelude Bytes Text Json Messages Label Codec Crypto Ipc DaemonClient Paths RelayManager.
From S2P Require Store StoreLaws Notifier Runners IpcServer Reconnect Worktree Export.

Definition NO_REPO_MESSAGE : string := "No repository configured for worktree management".

(** [Number.toString(36)], least digit last; the fuel is the number of bits. *)
Definition base36_digit (n : N) : ascii := ascii_of_N (if decide (n < 10)%N then 48 + n else 87 + n)%N.
Fixpoint base36_digits (fuel : nat) (n : N) (acc : string) : string :=
  match fuel with
  | O => acc
  | S fuel => if decide (n = 0)%N then acc else base36_digits fuel (n / 36) (String (base36_digit (n mod 36)) acc)
  end.
Definition to_base36 (n : N) : string := if decide (n = 0)%N then "0" else base36_digits (N.to_nat (N.size n)) n "".

Definition to_namespace (value : option string) : option string :=
  match value with
  | Some v => if bool_decide (v ∈ ["claude"; "tp"; "runner"; "daemon"]) then Some v else None
  | None => None
  end.

(** [n as i64] *)
Definition u64_as_i64 (n : N) : Z := if decide (n < 2 ^ 63)%N then Z.of_N n else Z.of_N n - 2 ^ 64.
(** [f as i64]: truncate, then saturate; NaN is 0. *)
Definition f64_as_i64 (f : f64) : Z :=
  match f with
  | S754_finite sign m e =>
      let a := if decide (0 ≤ e)%Z then (Z.pos m * 2 ^ e)%Z else (Z.pos m / 2 ^ (- e))%Z in
      if sign then Z.max (- 2 ^ 63) (- a) else Z.min (2 ^ 63 - 1) a
  | S754_infinity sign => if sign then - 2 ^ 63 else 2 ^ 63 - 1
  | _ => 0
  end%Z.
(** [Value::as_i64] *)
Definition as_i64 (v : Value) : option Z :=
  match v with
  | Num (PosInt n) => if decide (n < 2 ^ 63)%N then Some (Z.of_N n) else None
  | Num (NegInt z) => Some z
  | _ => None
  end.

Definition get_str (msg : Value) (k : string) : option string := value_get msg k ≫= as_str.
Definition sid_of (msg : Value) : string := default "" (get_str msg "sid").
(** [as_u64().and_then(u32::try_from)] *)
Definition get_u32 (msg : Value) (k : string) : option N :=
  (value_get msg k ≫= as_u64) ≫= λ n, if decide (n < 2 ^ 32)%N then Some n else None.

(** ** Frames *)

(** A record as frontends see it: live, and when a session is replayed. *)
Definition record_frame (sid : string) (seq : Z) (kind : string) (ns name : option string) (d : string) (ts : Value) : Value :=
  Object ([("d", Str d); ("k", Str kind)]
    ++ match name with Some n => [("n", Str n)] | None => [] end
    ++ match ns with Some n => [("ns", Str n)] | None => [] end
    ++ [("seq", i64_value seq); ("sid", Str sid); ("t", Str "rec"); ("ts", ts)]).

Definition state_frame (sid : string) (meta : Store.SessionMeta) : Value :=
  Object [("d", to_wire_session_meta meta); ("sid", Str sid); ("t", Str "state")].
Definition removed_frame (sid : string) : Value := Object [("sid", Str sid); ("t", Str "session.removed")].

Definition opt_value (s : option string) : Value := match s with Some s => Str s | None => Null end.

Definition worktree_info_json (wt : Worktree.WorktreeInfo) : Value :=
  Object [("branch", opt_value (Worktree.wt_branch wt)); ("head", Str (Worktree.wt_head wt));
          ("isMain", Bool (Worktree.wt_is_main wt)); ("path", Str (Worktree.wt_path wt))].

(** [Map] from index to byte, in the order of its textual keys. *)
Definition payload_json (payload : bytes) : Value :=
  Object (foldl (λ m '(i, b), map_insert m (print_dec (N.of_nat i)) (u64_value (N_of_ascii b))) [] (zip (seq 0 (length payload)) payload)).
Definition stored_record_json (r : Store.StoredRecord) : Value :=
  Object [("kind", Str (Store.kind r)); ("name", opt_value (Store.name r)); ("ns", opt_value (Store.ns r));
          ("payload", payload_json (Store.payload r)); ("seq", i64_value (Store.seq r)); ("ts", i64_value (Store.ts r))].

Section frames.
Context {CC : CryptoCrates}.
Definition to_session_rec (sid : string) (r : Store.StoredRecord) : Value :=
  record_frame sid (Store.seq r) (Store.kind r) (to_namespace (Store.ns r)) (Store.name r) (b64std_encode (Store.payload r))
    (i64_value (Store.ts r)).
End frames.

(** ** Continuations *)

Record Blocker := mkBlocker { b_sid : string; b_has_process : bool }.

Inductive Cont :=
| CRemoved (runner : N) (daemon_id : string) | CRenamed (runner : N) (daemon_id : string) (label : Label)
| CBroadcastState (sid : string) | CBroadcastRemoved (sid : string) | CUnsubscribeAll (sids : list string)
| CHealth (runner : N) (rest : list nat) (read : list DoctorRelayStatus)
| CControl (k : nat) (msg : Value) (fid : string)
| CHello (k : nat) (fid : string) (sessions : list Value)
| CWaitExit (sid : string)
| CRespawn (k : nat) (fid sid : string) (session : Store.SessionMeta)
| CReconcile (b : Blocker) (rest blockers : list Blocker) (k : nat) (fid path : string)
| CRemoveWorktree (k : nat) (fid path : string) (force : bool)
| CMonitor (sid : string) (p : nat).                       (* the exit monitor of a spawned runner *)

Section dispatcher.
Context {CC : CryptoCrates} {HIS : HashIter string} {HIN : HashIter N} {SE : Store.SqlEngine}.
Context (to_string to_string_pretty : Value → string) (from_str : string → option Value) (from_slice : bytes → option Value).
Context (error_text : Store.StoreError → string).
Abbreviation W := (World Cont).
Context (on_pair_begin on_pair_cancel : N → IpcMessage → W → W) (on_cli_disconnect : N → W → W).
Implicit Types w : W.

Definition now_ms (ch : Choice) : N := Z.to_N (Store.e_now (ch_store ch)).
Abbreviation send_ipc := (RelayManager.send_ipc to_string).

Definition get_session (ch : Choice) (sid : string) w : option Store.SessionMeta * W :=
  let '(r, w) := with_store (Store.get_session (ch_store ch) sid) w in (ok_or_default None r, w).

(** Something for every client of the pool as it is now. *)
Definition for_clients (f : nat → list (Step Cont)) w : list (Step Cont) := clients (core w) ≫= f.
Definition unsubscribes (sid : string) w : list (Step Cont) := for_clients (λ k, [SCall k (Reconnect.CUnsubscribe sid)]) w.
Definition subscribes (sid : string) w : list (Step Cont) := for_clients (λ k, [SCall k (Reconnect.CSubscribe sid)]) w.

Definition kill_runner (sid : string) w : bool * W :=
  let '(killed, pid) := Runners.kill_runner sid (session_manager (core w)) in
  (killed, upd (λ c, set_signalled (signalled c ++ option_list pid) c) w).
Definition unregister_runner (sid : string) w : W :=
  upd (λ c, set_sessions (Runners.unregister_runner sid (session_manager c)) c) w.

(** [create_session]: a runner on the daemon's own socket, and its exit monitor. *)
Definition create_session (ch : Choice) (sid cwd : string) (opts : Runners.SpawnRunnerOptions) w : result unit string * W :=
  let opts := Runners.mkSpawnOptions (socket_path (core w)) (Runners.o_worktree_path opts) (Runners.o_cols opts)
                (Runners.o_rows opts) (Runners.o_claude_args opts) (Runners.o_env opts) in
  match Runners.spawn_runner (ch_spawn ch) sid cwd opts (session_manager (core w)) with
  | (Ok (_, p), m) => (Ok tt, spawn [SDispatch (CMonitor sid p)] (upd (set_sessions m) w))
  | (Err e, m) => (Err e, upd (set_sessions m) w)
  end.

(** ** Messages of the local socket *)

Definition guard_pairing_exists (ch : Choice) (runner : N) (daemon_id : string) (not_found : IpcMessage) w : bool * W :=
  let '(r, w) := with_store (Store.list_pairings (ch_store ch)) w in
  if bool_decide (daemon_id ∈ Store.ps_daemon_id <$> ok_or_default [] r) then (true, w) else (false, send_ipc runner not_found w).

Definition handle_pair_remove (ch : Choice) (runner : N) (daemon_id : string) w : W :=
  let '(exists_, w) := guard_pairing_exists ch runner daemon_id (PairRemoveErr daemon_id RemoveNotFound None) w in
  if exists_ : bool then spawn [SRemove daemon_id true; SDispatch (CRemoved runner daemon_id)] w else w.

Definition handle_pair_rename (ch : Choice) (runner : N) (daemon_id : string) (label : Label) w : W :=
  let '(exists_, w) := guard_pairing_exists ch runner daemon_id (PairRenameErr daemon_id RenameNotFound None) w in
  if exists_ : bool then spawn [SRename daemon_id label; SDispatch (CRenamed runner daemon_id label)] w else w.

(** A running session loses its runner first; then its row and its files go. *)
Definition kill_and_delete (ch : Choice) (sid state : string) w : result unit Store.StoreError * W :=
  let w := if bool_decide (state = "running") then unregister_runner sid (kill_runner sid w).2 else w in
  with_store (Store.delete_session (ch_store ch) sid) w.

(** The frontends are told before the clients unsubscribe. *)
Definition spawn_removed (sid : string) w : W := spawn (SDispatch (CBroadcastRemoved sid) :: unsubscribes sid w) w.

Definition handle_session_delete (ch : Choice) (runner : N) (sid : string) w : W :=
  let '(meta, w) := get_session ch sid w in
  match meta with
  | None => send_ipc runner (SessionDeleteErr sid DeleteNotFound None) w
  | Some meta =>
      let was_running := bool_decide (Store.state meta = "running") in
      match kill_and_delete ch sid (Store.state meta) w with
      | (Err e, w) => send_ipc runner (SessionDeleteErr sid DeleteInternal (Some (error_text e))) w
      | (Ok _, w) => send_ipc runner (SessionDeleteOk sid was_running) (spawn_removed sid w)
      end
  end.

Definition prune_candidate (cutoff : option Z) (include_running : bool) (s : Store.SessionMeta) : bool :=
  if bool_decide (Store.state s = "running") && negb include_running then false
  else match cutoff with None => true | Some c => bool_decide (Store.updated_at s < c)%Z end.

(** The loop over the candidates; an error reports what is already gone. *)
Fixpoint prune_loop (ch : Choice) (runner : N) (candidates : list Store.SessionMeta) (deleted : list string) (killed : N) w : W :=
  match candidates with
  | [] => send_ipc runner (SessionPruneOk deleted killed false) w
  | s :: candidates =>
      let killed := if bool_decide (Store.state s = "running") then (killed + 1)%N else killed in
      match kill_and_delete ch (Store.sid s) (Store.state s) w with
      | (Err e, w) => send_ipc runner (SessionPruneErr PruneInternal (Some (error_text e)) deleted killed) w
      | (Ok _, w) => prune_loop ch runner candidates (deleted ++ [Store.sid s]) killed (spawn_removed (Store.sid s) w)
      end
  end.

Definition prune_cutoff (ch : Choice) (age : AgeFilter) : option Z :=
  match age with OlderThan ms => Some (u64_as_i64 (now_ms ch - ms)) | All => None end.

Definition handle_session_prune (ch : Choice) (runner : N) (age : AgeFilter) (include_running dry_run : bool) w : W :=
  let '(r, w) := with_store (Store.list_sessions (ch_store ch)) w in
  let candidates := filter (λ s, prune_candidate (prune_cutoff ch age) include_running s = true) (ok_or_default [] r) in
  if dry_run then send_ipc runner (SessionPruneOk (Store.sid <$> candidates) 0 true) w
  else prune_loop ch runner candidates [] 0 w.

Definition handle_doctor_probe (runner : N) w : W := spawn [SDispatch (CHealth runner (clients (core w)) [])] w.

Definition u32_max : N := 4294967295.

Definition handle_hello (ch : Choice) (sid cwd : string) (worktree_path claude_version : option string) (pid : N) w : W :=
  match with_store (Store.create_session (ch_store ch) sid cwd worktree_path claude_version) w with
  | (Err _, w) => w
  | (Ok _, w) =>
      let w := upd (λ c, set_sessions (Runners.register_runner (now_ms ch) sid (N.min pid u32_max) cwd worktree_path claude_version
                                         (session_manager c)) c) w in
      spawn (subscribes sid w ++ [SDispatch (CBroadcastState sid)]) w
  end.

(** The record's bytes, and their text on the wire. *)
Definition record_payload (payload : string) (binary : option bytes) : bytes * string :=
  match binary with
  | Some b => (b, b64std_encode b)
  | None => (match b64std_decode payload with Ok b => b | Err _ => [] end, payload)
  end.

Definition handle_rec (ch : Choice) (runner : N) (sid : string) (kind : RecordKind) (ts : f64) (ns : option Namespace)
    (name : option string) (payload : string) (binary : option bytes) w : W :=
  let '(bytes, text) := record_payload payload binary in
  match with_store (Store.append_record (ch_store ch) sid (RecordKind_to_str kind) (f64_as_i64 ts) bytes
                      (Namespace_to_str <$> ns) name) w with
  | (Err _, w) | (Ok None, w) => w
  | (Ok (Some seq), w) =>
      let w := (with_store (Store.update_last_seq (ch_store ch) sid seq) w).2 in
      let w := send_ipc runner (Ack sid (Z.to_N seq)) w in
      let rec_msg := record_frame sid seq (RecordKind_to_str kind) (Namespace_to_str <$> ns) name text (f64_value ts) in
      let w := spawn (for_clients (λ k, [SCall k (Reconnect.CPublishRecord sid (Z.to_N seq) rec_msg)]) w) w in
      let parsed := match kind, bytes with
                    | Event, _ :: _ => let?o v := from_slice bytes in match v with Object _ => Some v | _ => None end
                    | _, _ => None
                    end in
      foldl (λ w p, spawn [SPush p] w) w (Notifier.on_record (Notifier.mkRecordInfo sid kind name parsed) (tokens (core w)))
  end.

Definition f64_is_zero (f : f64) : bool := match f with S754_zero _ => true | _ => false end.

Definition bye_state (exit_code : f64) (reason : option ByeReason) : string :=
  if match reason with Some Signal => true | _ => false end || f64_is_zero exit_code then "stopped" else "error".

(** A farewell that names another process than the registered one is of an older runner. *)
Definition stale_bye (sid : string) (pid : option N) w : bool :=
  match pid, Runners.get_runner sid (session_manager (core w)) with
  | Some bye_pid, Some current => negb (N.eqb (Runners.r_pid current) bye_pid)
  | _, _ => false
  end.

Definition handle_bye (ch : Choice) (sid : string) (exit_code : f64) (pid : option N) (reason : option ByeReason) w : W :=
  if stale_bye sid pid w then w
  else
    let w := (with_store (Store.update_session_state (ch_store ch) sid (bye_state exit_code reason)) w).2 in
    spawn [SDispatch (CBroadcastState sid)] (unregister_runner sid w).

Definition dispatch_ipc (ch : Choice) (runner : N) (msg : IpcMessage) (binary : option bytes) w : W :=
  match msg with
  | PairBegin _ _ _ => on_pair_begin runner msg w
  | PairCancel _ => on_pair_cancel runner msg w
  | PairRemove daemon_id => handle_pair_remove ch runner daemon_id w
  | PairRename daemon_id label => handle_pair_rename ch runner daemon_id label w
  | SessionDelete sid => handle_session_delete ch runner sid w
  | SessionPrune age include_running dry_run => handle_session_prune ch runner age include_running dry_run w
  | DoctorProbe => handle_doctor_probe runner w
  | Ipc.Hello sid cwd worktree_path claude_version pid => handle_hello ch sid cwd worktree_path claude_version pid w
  | Rec sid kind ts ns name payload => handle_rec ch runner sid kind ts ns name payload binary w
  | Bye sid exit_code pid reason => handle_bye ch sid exit_code pid reason w
  | Input sid _ | Resize sid _ _ =>
      match IpcServer.find_runner_by_sid sid w with Some target => send_ipc target msg w | None => w end
  | _ => w
  end.

Definition handle_runner_disconnect (runner : N) w : W := on_cli_disconnect runner w.

(** ** Control messages of frontends *)

Definition reply (k : nat) (fid sid : string) (msg : Value) : Step Cont := SCall k (Reconnect.CPublishToPeer fid sid msg).
Definition reply_error (k : nat) (fid sid e m : string) : Step Cont := reply k fid sid (error_frame e m).
Definition not_found (k : nat) (fid sid : string) : Step Cont := reply_error k fid sid "NOT_FOUND" ("Session " +:+ sid +:+ " not found").
(** [if message.is_empty() { fallback }] *)
Definition message_or (fallback m : string) : string := if decide (m = "") then fallback else m.

Definition relay_attach (ch : Choice) (k : nat) (fid sid : string) w : W * list (Step Cont) :=
  let '(meta, w) := get_session ch sid w in
  (w, [match meta with Some meta => reply k fid sid (state_frame sid meta) | None => not_found k fid sid end]).

Definition relay_resume (ch : Choice) (k : nat) (fid sid : string) (cursor : Z) w : W * list (Step Cont) :=
  let '(r, w) := with_store (Store.get_session_db (ch_store ch) sid) w in
  (w, [match ok_or_default None r with
       | None => not_found k fid sid
       | Some db => reply k fid sid (Object [("d", Array (to_session_rec sid <$> Store.get_records_from db cursor 1000)); ("sid", Str sid); ("t", Str "batch")])
       end]).

Definition relay_resize (k : nat) (fid sid : string) (cols rows : N) w : W * list (Step Cont) :=
  match IpcServer.find_runner_by_sid sid w with
  | Some target => (send_ipc target (Resize sid cols rows) w, [])
  | None => (w, [reply_error k fid sid "NO_RUNNER" ("No runner for session " +:+ sid)])
  end.

Definition relay_session_create (ch : Choice) (k : nat) (fid : string) (msg : Value) w : W * list (Step Cont) :=
  let sid := default ("session-" +:+ to_base36 (now_ms ch)) (get_str msg "sid") in
  let cwd := default "" (get_str msg "cwd") in
  let opts := Runners.mkSpawnOptions None None (get_u32 msg "cols") (get_u32 msg "rows") None None in
  let '(r, w) := match assert_safe_sid sid with
                 | Err e => (Err e, w)
                 | Ok _ => create_session ch sid cwd opts w
                 end in
  match r with
  | Ok _ => (w, subscribes sid w ++ [reply k fid sid (Object [("sid", Str sid); ("t", Str "session.create.ok")])])
  | Err m => (w, [reply_error k fid sid "SESSION_ERROR" (message_or "Failed to create session" m)])
  end.

Definition relay_session_stop (k : nat) (fid sid : string) w : W * list (Step Cont) :=
  let '(killed, w) := kill_runner sid w in
  (w, if killed then [] else [reply_error k fid sid "NO_RUNNER" ("No runner for session " +:+ sid)]).

Definition unmanaged (sid : string) : string :=
  "Cannot restart session " +:+ sid +:+ ": it is not managed by this daemon (passthrough/registered-only) and cannot be safely killed before respawning.".

(** [session.restart], up to the wait for the old process. *)
Definition relay_session_restart (ch : Choice) (k : nat) (fid sid : string) w : W * list (Step Cont) :=
  let '(session, w) := get_session ch sid w in
  match session with
  | None => (w, [not_found k fid sid])
  | Some session =>
      match Runners.r_process <$> Runners.get_runner sid (session_manager (core w)) with
      | Some None => (w, [reply_error k fid sid "SESSION_ERROR" (unmanaged sid)])
      | _ => ((kill_runner sid w).2, [SDispatch (CWaitExit sid);
                SDispatch (CRespawn k fid sid session)])
      end
  end.

Definition respawn (ch : Choice) (k : nat) (fid sid : string) (session : Store.SessionMeta) w : W * list (Step Cont) :=
  let w := unregister_runner sid w in
  let opts := Runners.mkSpawnOptions None (Store.worktree_path session) None None None None in
  match create_session ch sid (Store.cwd session) opts w with
  | (Ok _, w) => (w, [])
  | (Err m, w) => (w, [reply_error k fid sid "SESSION_ERROR" (message_or "Failed to restart session" m)])
  end.

Definition delete_err (sid reason : string) (message : option string) : Value :=
  Object (match message with Some m => [("message", Str m)] | None => [] end
    ++ [("reason", Str reason); ("sid", Str sid); ("t", Str "session.delete.err")]).

Definition relay_session_delete (ch : Choice) (k : nat) (fid sid : string) w : W * list (Step Cont) :=
  let '(meta, w) := get_session ch sid w in
  match meta with
  | None => (w, [reply k fid sid (delete_err sid "not-found" None)])
  | Some meta =>
      let was_running := bool_decide (Store.state meta = "running") in
      match kill_and_delete ch sid (Store.state meta) w with
      | (Err e, w) => (w, [reply k fid sid (delete_err sid "internal" (Some (error_text e)))])
      | (Ok _, w) =>
          (w, [SDispatch (CBroadcastRemoved sid); SDispatch (CUnsubscribeAll [sid]);
               reply k fid sid (Object [("sid", Str sid); ("t", Str "session.delete.ok"); ("wasRunning", Bool was_running)])])
      end
  end.

(** *** Export *)

Definition string_list (v : Value) : option (list string) :=
  match v with Array l => Some (omap as_str l) | _ => None end.

Definition EXPORT_CAP : Z := 50000.

(** The records of an export, and whether some are missing. *)
Definition export_records (db : Store.SessionDb) (kinds : option (list string)) (from to limit : option Z) : list Store.StoredRecord * bool :=
  let effective_limit := Z.min (default EXPORT_CAP limit) EXPORT_CAP in
  let fetched := Store.get_records_filtered db (Store.mkFilter kinds from to (Some (effective_limit + 1)%Z)) in
  let truncated := bool_decide (effective_limit < Z.of_nat (length fetched))%Z in
  (if truncated then take (Z.to_nat effective_limit) fetched else fetched, truncated).

Definition export_frame (session : Store.SessionMeta) (sid format : string) (records : list Store.StoredRecord) (truncated : bool) : Value :=
  let '(format, d) :=
    if String.eqb format "json"
    then ("json", to_string (Object [("meta", to_wire_session_meta session); ("records", Array (stored_record_json <$> records));
                                      ("truncated", Bool truncated)]))
    else ("markdown", Export.format_markdown from_str to_string to_string_pretty
            (Export.mkExportMeta (Store.sid session) (Store.cwd session) (Store.state session) (Store.created_at session)) records truncated) in
  Object [("d", Str d); ("format", Str format); ("sid", Str sid); ("t", Str "session.exported")].

Definition signed_dec (z : Z) : string := Worktree.signed_dec z.

Definition relay_session_export (ch : Choice) (k : nat) (fid : string) (msg : Value) w : W * list (Step Cont) :=
  let sid := sid_of msg in
  let format := default "markdown" (get_str msg "format") in
  let kinds := value_get msg "recordTypes" ≫= string_list in
  let range key := ((value_get msg "timeRange" ≫= λ tr, value_get tr key) ≫= as_i64) in
  let limit := value_get msg "limit" ≫= as_i64 in
  if match limit with Some l => bool_decide (l ≤ 0)%Z | None => false end
  then (w, [reply_error k fid sid "BAD_REQUEST" ("limit must be a positive integer, got " +:+ signed_dec (default 0%Z limit))])
  else
    let '(session, w) := get_session ch sid w in
    match session with
    | None => (w, [not_found k fid sid])
    | Some session =>
        let '(r, w) := with_store (Store.get_session_db (ch_store ch) sid) w in
        match ok_or_default None r with
        | None => (w, [reply_error k fid sid "NOT_FOUND" ("Session DB for " +:+ sid +:+ " not found")])
        | Some db =>
            let '(records, truncated) := export_records db kinds (range "from") (range "to") limit in
            (w, [reply k fid sid (export_frame session sid format records truncated)])
        end
    end.

(** *** Worktrees *)

Definition worktree_error (k : nat) (fid fallback m : string) : Step Cont :=
  reply k fid RELAY_CHANNEL_CONTROL (error_frame "WORKTREE_ERROR" (message_or fallback m)).

Definition with_worktree_manager (k : nat) (fid : string) (run : Worktree.Manager → W * list (Step Cont)) w : W * list (Step Cont) :=
  match worktree_manager (core w) with
  | None => (w, [reply k fid RELAY_CHANNEL_CONTROL (error_frame "NO_REPO" NO_REPO_MESSAGE)])
  | Some m => run m
  end.

Definition set_worktree (m : Worktree.Manager) w : W := upd (set_worktrees (Some m)) w.

Definition relay_worktree_list (ch : Choice) (k : nat) (fid : string) w : W * list (Step Cont) :=
  with_worktree_manager k fid (λ m,
    let '(l, m) := Worktree.list_worktrees (ch_worktree ch) m in
    (set_worktree m w, [reply k fid RELAY_CHANNEL_CONTROL (Object [("d", Array (worktree_info_json <$> l)); ("t", Str "worktree.list")])])) w.

(** The worktree is made, then its session; a session that cannot be made takes the
    worktree back. *)
Definition relay_worktree_create (ch : Choice) (k : nat) (fid branch : string) (base_branch path : option string) w : W * list (Step Cont) :=
  with_worktree_manager k fid (λ m,
    let sid := sanitize_for_sid branch +:+ "-" +:+ to_base36 (now_ms ch) in
    match Worktree.add (ch_worktree ch) (default sid path) branch base_branch m with
    | (Err e, m) => (set_worktree m w, [worktree_error k fid "Failed to create worktree" e])
    | (Ok wt, m) =>
        let opts := Runners.mkSpawnOptions None (Some (Worktree.wt_path wt)) None None None None in
        match create_session ch sid (Worktree.wt_path wt) opts (set_worktree m w) with
        | (Err e, w) =>
            let '(_, m) := Worktree.remove (ch_worktree ch) (Worktree.wt_path wt) true m in
            (set_worktree m w, [worktree_error k fid "Failed to create worktree" e])
        | (Ok _, w) =>
            (w, subscribes sid w ++ [reply k fid RELAY_CHANNEL_CONTROL
                  (Object [("d", worktree_info_json wt); ("sid", Str sid); ("t", Str "worktree.created")])])
        end
    end) w.

(** The runner's own worktree, or the one its row names. *)
Definition runner_worktree (ch : Choice) (r : Runners.RunnerInfo) w : option string * W :=
  match Runners.r_worktree_path r with
  | Some p => (Some p, w)
  | None => let '(s, w) := get_session ch (Runners.r_sid r) w in (s ≫= Store.worktree_path, w)
  end.

Fixpoint blockers_of (ch : Choice) (m : Worktree.Manager) (target : string) (l : list Runners.RunnerInfo) w : list Blocker * W :=
  match l with
  | [] => ([], w)
  | r :: l =>
      let '(p, w) := runner_worktree ch r w in
      let '(bs, w) := blockers_of ch m target l w in
      (match p with
       | Some p => if String.eqb (Worktree.canonicalize (ch_worktree ch) m p) target
                   then mkBlocker (Runners.r_sid r) (bool_decide (is_Some (Runners.r_process r))) :: bs else bs
       | None => bs
       end, w)
  end.

Definition sids_text (bs : list Blocker) : string := join ", " (b_sid <$> bs).

Definition remove_worktree (ch : Choice) (k : nat) (fid path : string) (force : bool) w : W * list (Step Cont) :=
  with_worktree_manager k fid (λ m,
    match Worktree.remove (ch_worktree ch) path force m with
    | (Err e, m) => (set_worktree m w, [worktree_error k fid "Failed to remove worktree" e])
    | (Ok _, m) => (set_worktree m w, [reply k fid RELAY_CHANNEL_CONTROL (Object [("path", Str path); ("t", Str "worktree.removed")])])
    end) w.

(** The loop that kills the blockers, one exit awaited after the other; then every
    client unsubscribes, and the worktree goes. *)
Definition kill_next (rest blockers : list Blocker) (k : nat) (fid path : string) w : W * list (Step Cont) :=
  match rest with
  | b :: rest => ((kill_runner (b_sid b) w).2, [SDispatch (CWaitExit (b_sid b)); SDispatch (CReconcile b rest blockers k fid path)])
  | [] => (w, for_clients (λ j, (λ b, SCall j (Reconnect.CUnsubscribe (b_sid b))) <$> blockers) w
              ++ [SDispatch (CRemoveWorktree k fid path true)])
  end.

Definition relay_worktree_remove (ch : Choice) (k : nat) (fid path : string) (force : bool) w : W * list (Step Cont) :=
  with_worktree_manager k fid (λ m,
    let target := Worktree.canonicalize (ch_worktree ch) m path in
    let '(blockers, w) := blockers_of ch m target (Runners.list_runners (session_manager (core w))) w in
    let unkillable := filter (λ b, b_has_process b = false) blockers in
    match blockers with
    | [] => remove_worktree ch k fid path force w
    | _ =>
        if negb force then
          (w, [worktree_error k fid "Failed to remove worktree"
                 ("Cannot remove worktree: " +:+ print_dec (N.of_nat (length blockers)) +:+ " running session(s) (" +:+ sids_text blockers
                  +:+ "). Use force to kill and remove.")])
        else match unkillable with
             | [] => kill_next blockers blockers k fid path w
             | _ => (w, [worktree_error k fid "Failed to remove worktree"
                           ("Cannot force-remove worktree: session(s) (" +:+ sids_text unkillable
                            +:+ ") are not managed by this daemon and cannot be killed.")])
             end
    end) w.

Definition dispatch_relay_control (ch : Choice) (k : nat) (msg : Value) (fid : string) w : W * list (Step Cont) :=
  let t := default "" (get_str msg "t") in
  let sid := sid_of msg in
  let is_ s := String.eqb t s in
  if is_ "hello" then
    let '(sessions, w) := session_list ch w in (w, [SDispatch (CHello k fid sessions)])
  else if is_ "attach" then relay_attach ch k fid sid w
  else if is_ "resume" then relay_resume ch k fid sid (default 0%Z (value_get msg "c" ≫= as_i64)) w
  else if is_ "resize" then
    relay_resize k fid sid (default 0%N (value_get msg "cols" ≫= as_u64)) (default 0%N (value_get msg "rows" ≫= as_u64)) w
  else if is_ "ping" then (w, [reply k fid RELAY_CHANNEL_CONTROL (Object [("t", Str "pong")])])
  else if is_ "session.create" then relay_session_create ch k fid msg w
  else if is_ "session.stop" then relay_session_stop k fid sid w
  else if is_ "session.restart" then relay_session_restart ch k fid sid w
  else if is_ "session.delete" then relay_session_delete ch k fid sid w
  else if is_ "session.export" then relay_session_export ch k fid msg w
  else if is_ "worktree.list" then relay_worktree_list ch k fid w
  else if is_ "worktree.create" then
    relay_worktree_create ch k fid (default "" (get_str msg "branch")) (get_str msg "baseBranch") (get_str msg "path") w
  else if is_ "worktree.remove" then
    relay_worktree_remove ch k fid (default "" (get_str msg "path")) (default false (value_get msg "force" ≫= as_bool)) w
  else (w, []).

(** ** The continuations *)

(** [on_runner_exit]: a session still marked running is not. *)
Definition on_runner_exit (ch : Choice) (sid : string) w : W :=
  let '(meta, w) := get_session ch sid w in
  match meta with
  | Some meta =>
      if bool_decide (Store.state meta = "running")
      then spawn [SDispatch (CBroadcastState sid)] (with_store (Store.update_session_state (ch_store ch) sid "stopped") w).2
      else w
  | None => w
  end.

Definition health_of (c : Client) (cfg : RelayClientConfig) : DoctorRelayStatus :=
  mkRelayStatus (c_daemon_id cfg) (relay_url cfg) (is_connected c) (N.of_nat (get_peer_count c)) (Some (is_throttled c)).

Definition dispatch_step (ch : Choice) (n : N) (d : Cont) w : option (W * list (Step Cont)) :=
  match d with
  | CRemoved runner did => Some (send_ipc runner (PairRemoveOk did n) w, [])
  | CRenamed runner did label => Some (send_ipc runner (PairRenameOk did label n) w, [])
  | CBroadcastState sid =>
      let '(meta, w) := get_session ch sid w in
      Some (w, match meta with
               | Some meta => for_clients (λ k, [SCall k (Reconnect.CPublishState RELAY_CHANNEL_META (state_frame sid meta))]) w
               | None => []
               end)
  | CBroadcastRemoved sid => Some (w, for_clients (λ k, [SCall k (Reconnect.CPublishRemoved sid (removed_frame sid))]) w)
  | CUnsubscribeAll sids => Some (w, for_clients (λ k, (λ sid, SCall k (Reconnect.CUnsubscribe sid)) <$> sids) w)
  | CHealth runner [] read => Some (send_ipc runner (DoctorProbeOk read) w, [])
  | CHealth runner (k :: rest) read =>
      let status := match client_of w k, config_of w k with Some c, Some cfg => [health_of c cfg] | _, _ => [] end in
      Some (w, [SDispatch (CHealth runner rest (read ++ status))])
  | CControl k msg fid => Some (dispatch_relay_control ch k msg fid w)
  | CHello k fid sessions =>
      Some (w, [reply k fid RELAY_CHANNEL_META (hello_frame sessions (config_of w k ≫= c_label) (client_of w k ≫= λ c, peer_pct_b64 c fid))])
  | CWaitExit sid => if Runners.has_exited (Runners.se_wait_err (ch_spawn ch)) sid (session_manager (core w)) then Some (w, []) else None
  | CRespawn k fid sid session => Some (respawn ch k fid sid session w)
  | CReconcile b rest blockers k fid path =>
      let w := unregister_runner (b_sid b) w in
      let w := (with_store (Store.update_session_state (ch_store ch) (b_sid b) "stopped") w).2 in
      Some (kill_next rest blockers k fid path w)
  | CRemoveWorktree k fid path force => Some (remove_worktree ch k fid path force w)
  | CMonitor sid p =>
      match Runners.exit_code (Runners.se_wait_err (ch_spawn ch)) p (session_manager (core w)) with
      | None => None
      | Some _ =>
          let '(notify, m) := Runners.exit_section sid p (session_manager (core w)) in
          let w := upd (set_sessions m) w in
          Some (if notify then on_runner_exit ch sid w else w, [])
      end
  end.
End dispatcher.

(** ** The dispatcher and the manager *)

(** What a section may do to the manager's own: nothing, but for tasks that start. *)
Definition benign (w : World Cont) (r : World Cont * list (Step Cont)) : Prop := mild w r.1 ∧ Forall harmless r.2.

Section mild.
Context {CC : CryptoCrates} {HIS : HashIter string} {HIN : HashIter N} {SE : Store.SqlEngine}.
Context (to_string to_string_pretty : Value → string) (from_str : string → option Value) (from_slice : bytes → option Value).
Context (error_text : Store.StoreError → string).
Implicit Types w : World Cont.

Lemma mild_get_session ch sid w : mild w (get_session ch sid w).2.
Proof.
  unfold get_session. pose proof (mild_store (Store.get_session (ch_store ch) sid) w) as H. by destruct (with_store _ w).
Qed.

Lemma mild_session_list ch w : mild w (session_list ch w).2.
Proof. unfold session_list. pose proof (mild_store (Store.list_sessions (ch_store ch)) w) as H. by destruct (with_store _ w). Qed.

Lemma mild_kill sid w : mild w (kill_runner sid w).2.
Proof. unfold kill_runner. destruct (Runners.kill_runner _ _). by apply mild_upd. Qed.

Lemma mild_unregister sid w : mild w (unregister_runner sid w).
Proof. by apply mild_upd. Qed.

Lemma mild_send_ipc runner msg w : mild w (send_ipc to_string runner msg w).
Proof. apply mild_send. Qed.

Lemma mild_create ch sid cwd opts w : mild w (create_session ch sid cwd opts w).2.
Proof.
  unfold create_session. destruct (Runners.spawn_runner _ _ _ _ _) as [[[pid p]|e] m]; [|by apply mild_upd].
  eapply mild_trans; [|apply mild_spawn; by repeat constructor]. by apply mild_upd.
Qed.

Lemma mild_kill_and_delete ch sid state w : mild w (kill_and_delete ch sid state w).2.
Proof.
  unfold kill_and_delete. eapply mild_trans; [|apply mild_store]. case_bool_decide; [|apply mild_refl].
  eapply mild_trans; [apply mild_kill|apply mild_unregister].
Qed.

Lemma harmless_clients (f : nat → list (Step Cont)) w : (∀ k, Forall harmless (f k)) → Forall harmless (for_clients f w).
Proof. intros H. unfold for_clients. induction (clients (core w)) as [|k l IH]; [constructor|]. cbn. apply Forall_app. by split. Qed.

Lemma harmless_calls {A} (l : list A) (f : A → Step Cont) : (∀ a, harmless (f a)) → Forall harmless (f <$> l).
Proof. intros H. apply Forall_fmap, Forall_forall. intros a _. apply H. Qed.

Create HintDb mild.
#[local] Hint Resolve mild_refl mild_store mild_get_session mild_session_list mild_kill mild_unregister mild_send_ipc mild_create
  mild_kill_and_delete mild_upd mild_spawn : mild.

(** Name the world after a call, and that it is mild. *)
Ltac step_world := match goal with
  | |- context [let '(_, _) := ?e in _] =>
      let H := fresh "Hm" in assert (mild _ e.2) as H by (solve [eauto with mild]); destruct e; cbn [snd] in H
  end.
Ltac harmless := repeat first [apply Forall_app; split | apply harmless_clients; intros ? | apply harmless_calls; intros ? | constructor]; try done.

Lemma benign_trans w w1 r : mild w w1 → benign w1 r → benign w r.
Proof. intros H [H1 H2]. split; [by eapply mild_trans|done]. Qed.

Lemma mild_worktree m w : mild w (set_worktree m w).
Proof. by apply mild_upd. Qed.

Lemma benign_remove_worktree ch k fid path force w : benign w (remove_worktree ch k fid path force w).
Proof.
  unfold remove_worktree, with_worktree_manager. destruct (worktree_manager (core w)) as [m|]; [|split; [apply mild_refl|harmless]].
  destruct (Worktree.remove _ path force m) as [[[]|e] m']; split; try apply mild_worktree; harmless.
Qed.

Lemma benign_kill_next rest bs k fid path w : benign w (kill_next rest bs k fid path w).
Proof. destruct rest; split; cbn [fst snd kill_next]; [apply mild_refl|harmless|apply mild_kill|harmless]. Qed.

Lemma mild_blockers ch m target l w : mild w (blockers_of ch m target l w).2.
Proof.
  revert w. induction l as [|r l IH]; intros w; [apply mild_refl|]. cbn. unfold runner_worktree.
  destruct (Runners.r_worktree_path r).
  - specialize (IH w). destruct (blockers_of _ _ _ l w). exact IH.
  - pose proof (mild_get_session ch (Runners.r_sid r) w) as H. destruct (get_session _ _ w) as [s w1]. cbn [snd] in H.
    specialize (IH w1). destruct (blockers_of _ _ _ l w1). by eapply mild_trans.
Qed.

Lemma benign_worktree_remove ch k fid path force w : benign w (relay_worktree_remove ch k fid path force w).
Proof.
  unfold relay_worktree_remove, with_worktree_manager. destruct (worktree_manager (core w)) as [m|]; [|split; [apply mild_refl|harmless]].
  pose proof (mild_blockers ch m (Worktree.canonicalize (ch_worktree ch) m path) (Runners.list_runners (session_manager (core w))) w) as Hm.
  destruct (blockers_of _ _ _ _ w) as [bs w1]. cbn [snd] in Hm. apply (benign_trans w w1); [done|].
  destruct bs; [apply benign_remove_worktree|]. destruct (negb force); [split; [apply mild_refl|harmless]|].
  destruct (filter _ _); [apply benign_kill_next|split; [apply mild_refl|harmless]].
Qed.

Lemma benign_worktree_create ch k fid branch base path w : benign w (relay_worktree_create ch k fid branch base path w).
Proof.
  unfold relay_worktree_create, with_worktree_manager. destruct (worktree_manager (core w)) as [m|]; [|split; [apply mild_refl|harmless]].
  destruct (Worktree.add _ _ _ _ m) as [[wt|e] m1]; [|split; [apply mild_worktree|harmless]].
  apply (benign_trans w (set_worktree m1 w)); [apply mild_worktree|]. step_world. destruct r as [[]|e].
  - split; [done|harmless].
  - destruct (Worktree.remove _ _ true m1) as [x m2]. split; [|harmless]. eapply mild_trans; [exact Hm|apply mild_worktree].
Qed.
Lemma benign_restart ch k fid sid w : benign w (relay_session_restart ch k fid sid w).
Proof.
  unfold relay_session_restart. step_world. destruct o as [session|]; [|split; [done|harmless]].
  destruct (Runners.r_process <$> _) as [[p|]|]; (split; [|harmless]); cbn [fst]; try done; (eapply mild_trans; [exact Hm|apply mild_kill]).
Qed.

Lemma benign_respawn ch k fid sid session w : benign w (respawn ch k fid sid session w).
Proof.
  unfold respawn. apply (benign_trans w (unregister_runner sid w)); [apply mild_unregister|]. step_world.
  destruct r as [[]|e]; (split; [done|harmless]).
Qed.

Lemma benign_delete ch k fid sid w : benign w (relay_session_delete error_text ch k fid sid w).
Proof.
  unfold relay_session_delete. step_world. destruct o as [meta|]; [|split; [done|harmless]]. apply (benign_trans w s); [done|].
  pose proof (mild_kill_and_delete ch sid (Store.state meta) s) as H. destruct (kill_and_delete _ _ _ s) as [[[]|e] w2]; (split; [done|harmless]).
Qed.

Lemma benign_create ch k fid msg w : benign w (relay_session_create ch k fid msg w).
Proof.
  unfold relay_session_create. set (sid := default _ (get_str msg "sid")). clearbody sid.
  destruct (assert_safe_sid sid) as [[]|e]; [|split; [apply mild_refl|harmless]]. step_world.
  destruct r as [[]|e]; (split; [done|harmless]).
Qed.

Lemma benign_export ch k fid msg w : benign w (relay_session_export to_string to_string_pretty from_str ch k fid msg w).
Proof.
  unfold relay_session_export. destruct (match value_get msg "limit" ≫= as_i64 with Some _ => _ | None => _ end); [split; [apply mild_refl|harmless]|].
  step_world. destruct o as [session|]; [|split; [done|harmless]]. apply (benign_trans w s); [done|]. step_world.
  destruct (ok_or_default None r) as [db|]; [|split; [done|harmless]].
  destruct (export_records _ _ _ _ _) as [records truncated]. split; [done|harmless].
Qed.

Lemma benign_control ch k msg fid w : benign w (dispatch_relay_control to_string to_string_pretty from_str error_text ch k msg fid w).
Proof.
  unfold dispatch_relay_control. generalize (sid_of msg) as sid. intros sid.
  repeat match goal with |- benign w (if ?b then _ else _) => destruct b end.
  - step_world. split; [done|harmless].
  - unfold relay_attach. step_world. split; [done|]. destruct o; harmless.
  - unfold relay_resume. step_world. split; [done|]. destruct (ok_or_default None r); harmless.
  - unfold relay_resize. destruct (IpcServer.find_runner_by_sid sid w); split; cbn [fst snd]; eauto using mild_send_ipc, mild_refl; harmless.
  - split; [apply mild_refl|harmless].
  - apply benign_create.
  - unfold relay_session_stop. pose proof (mild_kill sid w) as H. destruct (kill_runner sid w) as [[] w1]; split; try done; harmless.
  - apply benign_restart.
  - apply benign_delete.
  - apply benign_export.
  - unfold relay_worktree_list, with_worktree_manager. destruct (worktree_manager (core w)) as [m|]; [|split; [apply mild_refl|harmless]].
    destruct (Worktree.list_worktrees _ m) as [l m1]. split; [apply mild_worktree|harmless].
  - apply benign_worktree_create.
  - apply benign_worktree_remove.
  - split; [apply mild_refl|constructor].
Qed.

Lemma mild_exit ch sid w : mild w (on_runner_exit ch sid w).
Proof.
  unfold on_runner_exit. step_world. destruct o as [meta|]; [|done]. case_bool_decide; [|done].
  eapply mild_trans; [exact Hm|]. eapply mild_trans; [|apply mild_spawn; by repeat constructor]. apply mild_store.
Qed.

Lemma dispatch_benign ch n d w w' more :
  dispatch_step to_string to_string_pretty from_str error_text ch n d w = Some (w', more) → mild w w' ∧ Forall harmless more.
Proof.
  assert (∀ r, benign w r → Some r = Some (w', more) → mild w w' ∧ Forall harmless more) as Hb by (by intros r H [= ->]).
  destruct d; cbn [dispatch_step].
  - apply Hb. split; [apply mild_send_ipc|harmless].
  - apply Hb. split; [apply mild_send_ipc|harmless].
  - step_world. apply Hb. split; [done|]. destruct o; harmless.
  - apply Hb. split; [apply mild_refl|harmless].
  - apply Hb. split; [apply mild_refl|harmless].
  - destruct rest; apply Hb; split; cbn [fst snd]; eauto using mild_send_ipc, mild_refl; harmless.
  - apply Hb, benign_control.
  - apply Hb. split; [apply mild_refl|harmless].
  - destruct (Runners.has_exited _ _ _); [|done]. apply Hb. split; [apply mild_refl|harmless].
  - apply Hb, benign_respawn.
  - apply Hb. eapply benign_trans; [|apply benign_kill_next]. eapply mild_trans; [apply mild_unregister|apply mild_store].
  - apply Hb, benign_remove_worktree.
  - destruct (Runners.exit_code _ _ _); [|done]. destruct (Runners.exit_section _ _ _) as [notify m]. apply Hb. split; [|harmless].
    cbn [fst]. destruct notify; [eapply mild_trans; [|apply mild_exit]|]; by apply mild_upd.
Qed.

(** *** The local socket's messages *)

Context (on_pair_begin on_pair_cancel : N → IpcMessage → World Cont → World Cont).
Context (pair_begin_mild : ∀ r m w, mild w (on_pair_begin r m w)) (pair_cancel_mild : ∀ r m w, mild w (on_pair_cancel r m w)).

Lemma mild_spawn_removed sid w : mild w (spawn_removed sid w).
Proof. apply mild_spawn. constructor; [done|]. harmless. Qed.

Lemma mild_guard ch runner did m w : mild w (guard_pairing_exists to_string ch runner did m w).2.
Proof.
  unfold guard_pairing_exists. step_world. case_bool_decide; [done|]. eapply mild_trans; [exact Hm|apply mild_send_ipc].
Qed.

Lemma mild_prune_loop ch runner l deleted killed w : mild w (prune_loop to_string error_text ch runner l deleted killed w).
Proof.
  revert deleted killed w. induction l as [|s l IH]; intros deleted killed w; [apply mild_send_ipc|]. cbn.
  pose proof (mild_kill_and_delete ch (Store.sid s) (Store.state s) w) as H. destruct (kill_and_delete _ _ _ w) as [[[]|e] w1]; cbn [snd] in H.
  - eapply mild_trans; [exact H|]. eapply mild_trans; [|apply IH]. apply mild_spawn_removed.
  - eapply mild_trans; [exact H|apply mild_send_ipc].
Qed.

Lemma mild_pushes ps w : mild w (foldl (λ w p, spawn [SPush p] w) w ps).
Proof.
  revert w. induction ps as [|p ps IH]; intros w; [apply mild_refl|]. cbn. eapply mild_trans; [|apply IH]. apply mild_spawn. by repeat constructor.
Qed.

Lemma mild_ipc ch runner msg binary w :
  mild w (dispatch_ipc to_string from_slice error_text on_pair_begin on_pair_cancel ch runner msg binary w).
Proof.
  destruct msg; cbn [dispatch_ipc]; try apply mild_refl.
  - unfold handle_hello. pose proof (mild_store (Store.create_session (ch_store ch) sid cwd worktree_path claude_version) w) as H.
    destruct (with_store _ w) as [[[]|e] w1]; [|done]. eapply mild_trans; [exact H|]. eapply mild_trans; [|apply mild_spawn; harmless]. by apply mild_upd.
  - unfold handle_rec. destruct (record_payload payload binary) as [bytes text].
    set (app := Store.append_record _ _ _ _ _ _ _). pose proof (mild_store app w) as H. destruct (with_store app w) as [[[seq|]|e] w1]; try done.
    eapply mild_trans; [exact H|]. eapply mild_trans; [|apply mild_pushes]. eapply mild_trans; [|apply mild_spawn; harmless].
    eapply mild_trans; [|apply mild_send_ipc]. apply mild_store.
  - unfold handle_bye. destruct (stale_bye sid pid w); [apply mild_refl|]. eapply mild_trans; [|apply mild_spawn; by repeat constructor].
    eapply mild_trans; [|apply mild_unregister]. apply mild_store.
  - destruct (IpcServer.find_runner_by_sid sid w); [apply mild_send_ipc|apply mild_refl].
  - destruct (IpcServer.find_runner_by_sid sid w); [apply mild_send_ipc|apply mild_refl].
  - apply pair_begin_mild.
  - apply pair_cancel_mild.
  - unfold handle_pair_remove. pose proof (mild_guard ch runner daemon_id (PairRemoveErr daemon_id RemoveNotFound None) w) as H.
    destruct (guard_pairing_exists _ _ _ _ _ w) as [[] w1]; [|done]. eapply mild_trans; [exact H|]. apply mild_spawn. by repeat constructor.
  - unfold handle_pair_rename. pose proof (mild_guard ch runner daemon_id (PairRenameErr daemon_id RenameNotFound None) w) as H.
    destruct (guard_pairing_exists _ _ _ _ _ w) as [[] w1]; [|done]. eapply mild_trans; [exact H|]. apply mild_spawn. by repeat constructor.
  - unfold handle_session_delete. step_world. destruct o as [meta|]; [|eapply mild_trans; [exact Hm|apply mild_send_ipc]].
    pose proof (mild_kill_and_delete ch sid (Store.state meta) s) as H. destruct (kill_and_delete _ _ _ s) as [[[]|e] w2]; cbn [snd] in H;
      (eapply mild_trans; [exact Hm|]); (eapply mild_trans; [exact H|]); [eapply mild_trans; [apply mild_spawn_removed|]|]; apply mild_send_ipc.
  - unfold handle_session_prune. step_world. destruct dry_run; (eapply mild_trans; [exact Hm|]); [apply mild_send_ipc|apply mild_prune_loop].
  - unfold handle_doctor_probe. apply mild_spawn. by repeat constructor.
Qed.
End mild.
