(* ===== verification/DispatcherLaws.v ===== *)
(** * DispatcherLaws: what the command dispatcher promises.
    A record reaches live frontends and later ones alike, deletion and pruning leave
    nothing behind, a restart cannot be undone by the runner it replaced, an export
    says when it is cut, and worktrees are guarded.  The theorems are about
    [Dispatcher]'s handlers over any daemon. *)
From stdpp Require Import base list numbers strings gmap fin_maps.
From Stdlib Require Import Lia NArith ZArith Ascii.
From Stdlib.Floats Require Import SpecFloat.
From S2P Require Import Prelude Bytes Text Json Messages Label Codec Crypto Ipc DaemonClient Paths RelayManager Dispatcher.
From S2P Require Store StoreLaws Notifier Runners IpcServer Reconnect Worktree.

Section frames.
Context {CC : CryptoCrates} {HIS : HashIter string} {HIN : HashIter N} {SE : Store.SqlEngine}.
Context (to_string : Value → string).
Implicit Types w : World Cont.

(** ** What a section leaves alone *)

Lemma core_send runner msg w : core (RelayManager.send_ipc to_string runner msg w) = core w.
Proof.
  unfold RelayManager.send_ipc, IpcServer.send. destruct (IpcServer.conns w !! runner); [|done]. by destruct (_ && _).
Qed.

Lemma with_store_run {A} (m : Store.M A) w :
  with_store m w = ((m (store (core w))).1, upd (set_store (m (store (core w))).2) w).
Proof. unfold with_store. by destruct (m (store (core w))). Qed.

Lemma core_pushes ps w :
  store (core (foldl (λ w p, spawn [SPush p] w) w ps)) = store (core w) ∧
  tasks (core (foldl (λ w p, spawn [SPush p] w) w ps)) = tasks (core w) ++ ((λ p, mkRun 0 [SPush p]) <$> ps).
Proof.
  revert w. induction ps as [|p ps IH]; intros w; cbn; [by rewrite app_nil_r|].
  destruct (IH (spawn [SPush p] w)) as [-> ->]. cbn. by rewrite <-app_assoc.
Qed.

End frames.

(** ** Records *)

Abbreviation log w sid := (StoreLaws.log_of (store (core w)) sid).

Section records.
Context {CC : CryptoCrates} {HIS : HashIter string} {HIN : HashIter N} {SE : Store.SqlEngine}.
Context (to_string : Value → string) (from_slice : bytes → option Value).
Implicit Types w : World Cont.

Lemma namespace_kept ns : to_namespace (Namespace_to_str <$> ns) = Namespace_to_str <$> ns.
Proof. by destruct ns as [[]|]. Qed.

Lemma update_last_seq_log ch sid i w x :
  StoreLaws.inv (store (core w)) →
  let w' := (with_store (Store.update_last_seq (ch_store ch) sid i) w).2 in
  StoreLaws.inv (store (core w')) ∧ log w' x = log w x ∧ tasks (core w') = tasks (core w) ∧ clients (core w') = clients (core w).
Proof.
  intros I. rewrite with_store_run. unfold Store.update_last_seq. rewrite StoreLaws.execute_run. cbn.
  destruct (Store.e_fail _ _); cbn; [by split; [apply StoreLaws.inv_ticks|]|]. split; [|done].
  apply (StoreLaws.inv_set_sessions_alter (Store.set_ticks _ (store (core w)))); [done|by apply StoreLaws.inv_ticks].
Qed.

(** What the clients are handed for a record. *)
Definition published (sid : string) (i : Z) (live : Value) w : Run Cont :=
  mkRun 0 ((λ k, SCall k (Reconnect.CPublishRecord sid (Z.to_N i) live)) <$> clients (core w)).

(** [handle_rec], in terms of the log. *)
Lemma handle_rec_spec ch runner sid kind ts ns name payload binary w :
  StoreLaws.inv (store (core w)) →
  let w' := handle_rec to_string from_slice ch runner sid kind ts ns name payload binary w in
  StoreLaws.inv (store (core w')) ∧
  (log w' sid = log w sid ∧ tasks (core w') = tasks (core w) ∨
   let i := Store.next_seq (log w sid) in
   let '(bytes, text) := record_payload payload binary in
   Store.records (log w' sid) = Store.records (log w sid)
     ++ [Store.mkRecord i (RecordKind_to_str kind) (f64_as_i64 ts) (Namespace_to_str <$> ns) name bytes] ∧
   ∃ pushes, tasks (core w') = tasks (core w) ++
     published sid i (record_frame sid i (RecordKind_to_str kind) (Namespace_to_str <$> ns) name text (f64_value ts)) w ::
     ((λ p, mkRun 0 [SPush p]) <$> pushes)).
Proof.
  intros I w'. subst w'. unfold handle_rec. destruct (record_payload payload binary) as [bytes text].
  set (app := Store.append_record _ _ _ _ _ _ _). pose proof (StoreLaws.append_record_spec (ch_store ch) sid
    (RecordKind_to_str kind) (f64_as_i64 ts) bytes (Namespace_to_str <$> ns) name (store (core w)) I) as H. fold app in H.
  rewrite with_store_run. destruct (app (store (core w))) as [[[i|]|e] s1]; cbn [fst snd] in *;
    destruct H as (I1 & _ & _ & H); [|by split; [|left]..].
  destruct H as (-> & _ & Hl). set (w1 := upd (set_store s1) w).
  destruct (update_last_seq_log ch sid (Store.next_seq (log w sid)) w1 sid) as (I2 & Hl2 & Ht2 & Hc2); [done|].
  set (w2 := (with_store _ w1).2) in *. set (ps := Notifier.on_record _ _). cbv zeta.
  match goal with |- context [foldl _ ?w3 ps] => destruct (core_pushes ps w3) as [-> Et] end.
  change (store (core (spawn ?l ?x))) with (store (core x)). rewrite core_send. split; [done|]. right. split; [by rewrite Hl2; unfold w1; cbn; rewrite Hl|].
  exists ps. rewrite Et. change (tasks (core (spawn ?l ?x))) with (tasks (core x) ++ [mkRun 0 l]). unfold for_clients.
  rewrite !core_send, Ht2, Hc2, <-app_assoc. cbn. unfold published. by do 3 f_equal.
Qed.

(** A page is a prefix of what is past the cursor; a new record comes last. *)
Lemma get_records_snoc db r q c limit :
  (Z.of_nat (length (Store.get_records_from db c limit)) < limit)%Z → (c < Store.seq r)%Z →
  Store.get_records_from (Store.mkDb (Store.records db ++ [r]) q) c limit = Store.get_records_from db c limit ++ [r].
Proof.
  unfold Store.get_records_from, Store.sql_limit. cbn [Store.records]. intros Hl Hc. rewrite !decide_False in * by lia.
  rewrite filter_app, filter_cons_True, filter_nil by done. rewrite length_take in Hl.
  rewrite !take_ge by (rewrite ?length_app; cbn; lia). done.
Qed.


End records.

(** ** Deletion *)

Section deletion.
Context {CC : CryptoCrates} {HIS : HashIter string} {HIN : HashIter N} {SE : Store.SqlEngine}.
Context (to_string : Value → string) (error_text : Store.StoreError → string).
Implicit Types w : World Cont.

(** The daemon's own of a runner that loses its session. *)
Definition runner_gone (sid state : string) w w' : Prop :=
  let m := session_manager (core w) in
  if bool_decide (state = "running")
  then session_manager (core w') = Runners.unregister_runner sid m ∧
       signalled (core w') = signalled (core w) ++ option_list (Runners.kill_runner sid m).2
  else session_manager (core w') = m ∧ signalled (core w') = signalled (core w).

Lemma delete_session_rows env sid s :
  let s' := (Store.delete_session env sid s).2 in
  Store.sessions s' = Store.sessions s ∨ Store.sessions s' = delete sid (Store.sessions s).
Proof.
  assert (StoreLaws.keeps (λ s', Store.sessions s' = Store.sessions s ∨ Store.sessions s' = delete sid (Store.sessions s))
    (Store.delete_session env sid)) as H; [|by apply H; left].
  unfold Store.delete_session. repeat (apply StoreLaws.keeps_bind; [|intros _]).
  - apply StoreLaws.keeps_modify. intros s'. by case_decide.
  - apply StoreLaws.keeps_execute; [done|]. cbn. intros s' [->| ->]; right; [done|]. by rewrite delete_delete_eq.
  - by apply StoreLaws.keeps_unlink_attempts.
  - by apply StoreLaws.keeps_unlink_attempts.
  - by apply StoreLaws.keeps_unlink_attempts.
Qed.

Lemma delete_session_sessions env sid s x : x ≠ sid →
  Store.sessions (Store.delete_session env sid s).2 !! x = Store.sessions s !! x.
Proof. intros Hx. destruct (delete_session_rows env sid s) as [->| ->]; [done|by rewrite lookup_delete_ne]. Qed.

Lemma kill_and_delete_spec ch sid state w :
  let '(r, w') := kill_and_delete ch sid state w in
  IpcServer.conns w' = IpcServer.conns w ∧ tasks (core w') = tasks (core w) ∧ clients (core w') = clients (core w) ∧
  runner_gone sid state w w' ∧
  (∀ x, x ≠ sid → Store.sessions (store (core w')) !! x = Store.sessions (store (core w)) !! x) ∧
  (r = Ok tt → Store.sessions (store (core w')) !! sid = None).
Proof.
  unfold kill_and_delete. set (w1 := if bool_decide (state = "running") then _ else w).
  assert (IpcServer.conns w1 = IpcServer.conns w ∧ tasks (core w1) = tasks (core w) ∧ clients (core w1) = clients (core w) ∧
    runner_gone sid state w w1 ∧ store (core w1) = store (core w)) as (E1 & E2 & E3 & E4 & E5).
  { unfold w1, runner_gone. case_bool_decide; [|by split_and!]. unfold kill_runner.
    by destruct (Runners.kill_runner sid (session_manager (core w))). }
  clearbody w1. rewrite with_store_run, E5. pose proof (delete_session_sessions (ch_store ch) sid (store (core w))) as Hd.
  pose proof (StoreLaws.delete_session_ok (ch_store ch) sid (store (core w))) as Ho.
  destruct (Store.delete_session (ch_store ch) sid (store (core w))) as [r s']. cbn [fst snd] in *. split_and!; try done.
  intros ->. cbn. rewrite (Ho s' eq_refl). by rewrite lookup_delete_eq.
Qed.

(** The session's own row stays or goes; a session that did not run costs no runner. *)
Lemma kill_and_delete_own ch sid state w :
  let w' := (kill_and_delete ch sid state w).2 in
  (Store.sessions (store (core w')) !! sid = Store.sessions (store (core w)) !! sid ∨
   Store.sessions (store (core w')) !! sid = None) ∧
  (state ≠ "running" → session_manager (core w') = session_manager (core w) ∧ signalled (core w') = signalled (core w)).
Proof.
  split.
  - unfold kill_and_delete. set (w1 := if bool_decide (state = "running") then _ else w).
    assert (store (core w1) = store (core w)) as E.
    { unfold w1. case_bool_decide; [|done]. unfold kill_runner. by destruct (Runners.kill_runner sid _). }
    rewrite with_store_run, E. cbn. destruct (delete_session_rows (ch_store ch) sid (store (core w))) as [->| ->];
      [by left|right]. by rewrite lookup_delete_eq.
  - intros Hs. pose proof (kill_and_delete_spec ch sid state w) as H.
    destruct (kill_and_delete ch sid state w) as [r w']. destruct H as (_ & _ & _ & H & _). unfold runner_gone in H.
    by rewrite bool_decide_eq_false_2 in H.
Qed.

(** The frontends of every client are told; then the clients unsubscribe. *)
Definition announces (sid : string) w : Run Cont :=
  mkRun 0 (SDispatch (CBroadcastRemoved sid) :: ((λ k, SCall k (Reconnect.CUnsubscribe sid)) <$> clients (core w))).

Lemma tasks_spawn_removed sid w : tasks (core (spawn_removed sid w)) = tasks (core w) ++ [announces sid w].
Proof. done. Qed.

Lemma get_session_run ch sid w :
  (get_session ch sid w).2 = upd (λ c, set_store (Store.set_ticks (S (Store.ticks (store c))) (store c)) c) w ∧
  (get_session ch sid w).1 = if Store.e_fail (ch_store ch) (Store.ticks (store (core w))) then None else Store.sessions (store (core w)) !! sid.
Proof.
  unfold get_session. rewrite with_store_run. unfold Store.get_session. rewrite StoreLaws.query_run. cbn. rewrite Nat.sub_0_r.
  by destruct (Store.e_fail _ _).
Qed.

(** C17. Deleting a session that exists, from the command line or from a frontend: a
    running one first loses its runner and only it is signalled; no other session is
    touched. On success the row is gone, the caller learns whether it ran, and the
    frontends are told of the removal before any client unsubscribes; when the store fails
    the caller is told so and nothing is announced. (Looking the session up is taken not
    to fail.) *)
Theorem session_deleted ch runner k fid sid meta w :
  Store.sessions (store (core w)) !! sid = Some meta → Store.e_fail (ch_store ch) (Store.ticks (store (core w))) = false →
  let running := bool_decide (Store.state meta = "running") in
  ∃ w1, runner_gone sid (Store.state meta) w w1 ∧
  (∀ x, x ≠ sid → Store.sessions (store (core w1)) !! x = Store.sessions (store (core w)) !! x) ∧
  IpcServer.conns w1 = IpcServer.conns w ∧ tasks (core w1) = tasks (core w) ∧ clients (core w1) = clients (core w) ∧
  (Store.sessions (store (core w1)) !! sid = None ∧
   handle_session_delete to_string error_text ch runner sid w =
     RelayManager.send_ipc to_string runner (SessionDeleteOk sid running) (spawn (todo (announces sid w)) w1) ∧
   relay_session_delete error_text ch k fid sid w =
     (w1, [SDispatch (CBroadcastRemoved sid); SDispatch (CUnsubscribeAll [sid]);
           reply k fid sid (Object [("sid", Str sid); ("t", Str "session.delete.ok"); ("wasRunning", Bool running)])]) ∨
   ∃ e,
   handle_session_delete to_string error_text ch runner sid w =
     RelayManager.send_ipc to_string runner (SessionDeleteErr sid DeleteInternal (Some (error_text e))) w1 ∧
   relay_session_delete error_text ch k fid sid w = (w1, [reply k fid sid (delete_err sid "internal" (Some (error_text e)))])).
Proof.
  intros Hm He running. unfold handle_session_delete, relay_session_delete. destruct (get_session_run ch sid w) as [E2 E1].
  rewrite He, Hm in E1. destruct (get_session ch sid w) as [o w0]. cbn [fst snd] in E1, E2. subst o.
  pose proof (kill_and_delete_spec ch sid (Store.state meta) w0) as H. destruct (kill_and_delete ch sid (Store.state meta) w0) as [r w1].
  subst w0. destruct H as (H1 & H2 & H3 & H4 & H5 & H6). exists w1. split; [exact H4|]. split; [exact H5|]. split_and!; [done..|].
  destruct r as [[]|e]; [left|right; by exists e]. split; [by apply H6|]. split; [|done]. do 2 f_equal.
  unfold spawn_removed, unsubscribes, for_clients. by rewrite H3.
Qed.

(** ** Pruning *)

Definition rows w : gmap string Store.SessionMeta := Store.sessions (store (core w)).
Definition is_running (m : Store.SessionMeta) : bool := bool_decide (Store.state m = "running").
Definition count_running (l : list Store.SessionMeta) : N := N.of_nat (length (filter (λ m, is_running m = true) l)).

Lemma count_running_cons s l : count_running (s :: l) = ((if is_running s then 1 else 0) + count_running l)%N.
Proof. unfold count_running. rewrite filter_cons. case_decide; destruct (is_running s); try done; cbn [length]; lia. Qed.

Lemma announces_same sid w w' : clients (core w') = clients (core w) → announces sid w' = announces sid w.
Proof. unfold announces. by intros ->. Qed.

(** What a prune of [l] from [w] on leaves, when it stopped in the middle of [at_]. *)
Definition pruned (l : list Store.SessionMeta) (at_ : option Store.SessionMeta) w w' : Prop :=
  (∀ x, Some x ≠ Store.sid <$> at_ → rows w' !! x = if bool_decide (x ∈ Store.sid <$> l) then None else rows w !! x) ∧
  (∀ m, at_ = Some m → rows w' !! Store.sid m = rows w !! Store.sid m ∨ rows w' !! Store.sid m = None) ∧
  tasks (core w') = tasks (core w) ++ ((λ m, announces (Store.sid m) w) <$> l) ∧
  (Forall (λ m, is_running m = false) (l ++ option_list at_) →
   session_manager (core w') = session_manager (core w) ∧ signalled (core w') = signalled (core w)).

Lemma pruned_nil w : pruned [] None w w.
Proof. split_and!; [done|done|cbn; by rewrite app_nil_r|done]. Qed.

Lemma pruned_cons ch s l at_ w w' :
  Store.sid s ∉ Store.sid <$> l ++ option_list at_ →
  (kill_and_delete ch (Store.sid s) (Store.state s) w).1 = Ok tt →
  pruned l at_ (spawn_removed (Store.sid s) (kill_and_delete ch (Store.sid s) (Store.state s) w).2) w' →
  pruned (s :: l) at_ w w'.
Proof.
  intros Hs Hr (H1 & H2 & H3 & H4). pose proof (kill_and_delete_spec ch (Store.sid s) (Store.state s) w) as H.
  pose proof (kill_and_delete_own ch (Store.sid s) (Store.state s) w) as [_ Ho].
  destruct (kill_and_delete ch (Store.sid s) (Store.state s) w) as [r w1]. cbn [fst snd] in *. subst r.
  destruct H as (_ & Ht & Hc & _ & Hx & Hd). specialize (Hd eq_refl). set (w2 := spawn_removed (Store.sid s) w1) in *.
  change (Store.sessions (store (core w1))) with (rows w2) in Hx, Hd. fold (rows w) in Hx.
  rewrite fmap_app, elem_of_app in Hs.
  assert (∀ x, announces x w2 = announces x w) as Ha by (intros x; by apply announces_same).
  split_and!.
  - intros x Hne. rewrite H1 by done. cbn [fmap list_fmap].
    case_bool_decide as E1; case_bool_decide as E2; rewrite elem_of_cons in E2; [done|tauto| |apply Hx; tauto].
    destruct E2 as [->|?]; done.
  - intros m ->. assert (Store.sid m ≠ Store.sid s) as Hne.
    { intros E. apply Hs. right. cbn. rewrite E. by left. }
    rewrite <-(Hx _ Hne). by apply H2.
  - rewrite H3. assert (tasks (core w2) = tasks (core w) ++ [announces (Store.sid s) w]) as ->.
    { unfold w2. by rewrite tasks_spawn_removed, Ht, (announces_same _ w w1 Hc). }
    rewrite <-app_assoc. cbn. by setoid_rewrite Ha.
  - intros [Hn Hl]%Forall_cons. destruct (H4 Hl) as [-> ->]. apply Ho. unfold is_running in Hn. by apply bool_decide_eq_false_1 in Hn.
Qed.

Lemma pruned_stop ch s w : pruned [] (Some s) w (kill_and_delete ch (Store.sid s) (Store.state s) w).2.
Proof.
  pose proof (kill_and_delete_spec ch (Store.sid s) (Store.state s) w) as H.
  pose proof (kill_and_delete_own ch (Store.sid s) (Store.state s) w) as [Hrow Ho].
  destruct (kill_and_delete ch (Store.sid s) (Store.state s) w) as [r w1]. cbn [fst snd] in *.
  destruct H as (_ & Ht & _ & _ & Hx & _). split_and!.
  - intros x Hne. rewrite bool_decide_eq_false_2 by apply not_elem_of_nil. apply Hx. cbn in Hne. congruence.
  - by intros m [= <-].
  - cbn. by rewrite app_nil_r.
  - intros [Hn _]%Forall_cons. apply Ho. unfold is_running in Hn. by apply bool_decide_eq_false_1 in Hn.
Qed.

(** The loop either gets through, or stops at the first error with what is gone so far. *)
Lemma prune_loop_spec ch runner l : ∀ deleted killed w, NoDup (Store.sid <$> l) →
  (∃ w1, prune_loop to_string error_text ch runner l deleted killed w =
     RelayManager.send_ipc to_string runner (SessionPruneOk (deleted ++ (Store.sid <$> l)) (killed + count_running l) false) w1 ∧
     pruned l None w w1) ∨
  (∃ done_ s rest e w1, l = done_ ++ s :: rest ∧ prune_loop to_string error_text ch runner l deleted killed w =
     RelayManager.send_ipc to_string runner
       (SessionPruneErr PruneInternal (Some (error_text e)) (deleted ++ (Store.sid <$> done_)) (killed + count_running (done_ ++ [s]))) w1 ∧
     pruned done_ (Some s) w w1).
Proof.
  induction l as [|s l IH]; intros deleted killed w Hn.
  - left. exists w. cbn. rewrite app_nil_r, N.add_0_r. split; [done|apply pruned_nil].
  - cbn [prune_loop]. fold (is_running s). set (killed' := if is_running s then (killed + 1)%N else killed).
    assert (∀ l, killed' + count_running l = killed + count_running (s :: l))%N as Hk.
    { intros l'. rewrite count_running_cons. unfold killed'. destruct (is_running s); lia. }
    cbn in Hn. apply NoDup_cons in Hn as [Hs Hn]. pose proof (pruned_cons ch s) as Hcons. pose proof (pruned_stop ch s w) as Hstop.
    specialize (Hcons) with (w := w). destruct (kill_and_delete ch (Store.sid s) (Store.state s) w) as [[[]|e] w1]; cbn [fst snd] in *.
    + destruct (IH (deleted ++ [Store.sid s]) killed' (spawn_removed (Store.sid s) w1) Hn)
        as [(w3 & -> & Hp)|(d & s' & rest & e & w3 & -> & -> & Hp)].
      * left. exists w3. rewrite Hk, <-app_assoc. split; [done|]. apply Hcons; [by rewrite app_nil_r|done..].
      * right. exists (s :: d), s', rest, e, w3. split; [done|]. rewrite Hk, <-app_assoc. split; [done|].
        apply Hcons; [|done..]. rewrite fmap_app in *. cbn in *. rewrite elem_of_app, elem_of_cons in *.
        rewrite elem_of_nil. tauto.
    + right. exists [], s, l, e, w1. cbn [app fmap list_fmap]. rewrite app_nil_r. split; [done|]. split; [by rewrite <-Hk, N.add_0_r|done].
Qed.

(** How many of these sessions run, by their rows. *)
Definition running_among w (sids : list string) : N :=
  N.of_nat (length (filter (λ x, match rows w !! x with Some m => is_running m | None => false end = true) sids)).

Lemma count_running_rows w l : (∀ m, m ∈ l → rows w !! Store.sid m = Some m) → count_running l = running_among w (Store.sid <$> l).
Proof.
  unfold count_running, running_among. intros H. f_equal. induction l as [|m l IH]; [done|]. cbn [fmap list_fmap].
  rewrite !filter_cons, (H m) by by left. assert (∀ m, m ∈ l → rows w !! Store.sid m = Some m) as Hl by (intros; apply H; by right).
  case_decide; cbn [length]; by rewrite (IH Hl).
Qed.

(** The candidates are the rows that match, each once. *)
Lemma candidates_spec (P : Store.SessionMeta → Prop) `{!∀ m, Decision (P m)} key w : StoreLaws.inv (store (core w)) →
  let l := filter P (Store.order_by key (snd <$> Store.scan (rows w))) in
  NoDup (Store.sid <$> l) ∧ (∀ m, m ∈ l ↔ rows w !! Store.sid m = Some m ∧ P m) ∧
  (∀ x, x ∈ Store.sid <$> l ↔ ∃ m, rows w !! x = Some m ∧ P m).
Proof.
  intros I l. assert (∀ m, m ∈ l ↔ rows w !! Store.sid m = Some m ∧ P m) as Hl.
  { intros m. unfold l. rewrite list_elem_of_filter, Store.order_by_perm. split.
    - intros [Hc ([x m'] & -> & Hx%StoreLaws.scan_lookup)%list_elem_of_fmap]. cbn in *. split; [|done].
      by rewrite (StoreLaws.i_keyed _ I x m' Hx).
    - intros [Hm Hc]. split; [done|]. apply list_elem_of_fmap. exists (Store.sid m, m). split; [done|]. by apply StoreLaws.scan_lookup. }
  split; [|split; [exact Hl|]].
  - apply NoDup_fmap_2_strong; [intros m m' [Hm _]%Hl [Hm' _]%Hl E; rewrite E in Hm; congruence|].
    apply NoDup_filter. rewrite Store.order_by_perm. apply NoDup_fmap_2_strong; [|apply (NoDup_fmap_1 fst), StoreLaws.scan_keys].
    intros [x m] [y m'] Hx%StoreLaws.scan_lookup Hy%StoreLaws.scan_lookup E. cbn in *. subst m'.
    apply (StoreLaws.i_keyed _ I) in Hx, Hy. congruence.
  - intros x. rewrite list_elem_of_fmap. split.
    + intros (m & -> & Hm%Hl). by exists m.
    + intros (m & Hm & Hc). assert (Store.sid m = x) as Ex by (by apply (StoreLaws.i_keyed _ I)). exists m. split; [done|]. apply Hl. by rewrite Ex.
Qed.

(** C23. A dry run names exactly the sessions the real prune deletes: those that match the
    age and, unless asked for, do not run, each once and in the same order.  The real
    run removes their rows and no others and announces each; or it stops at the first
    session the store fails on, and reports the ones before it, whose rows are gone and
    which are all announced, while the row of that one stays as it was or is gone
    unreported, and all others stay.  What is reported killed are the running ones among
    those it came to; unless running sessions were asked for that is none, and no runner
    is signalled or forgotten. *)
Theorem prune_exact ch runner age include_running w :
  StoreLaws.inv (store (core w)) → Store.e_fail (ch_store ch) (Store.ticks (store (core w))) = false →
  let candidate m := prune_candidate (prune_cutoff ch age) include_running m = true in
  ∃ sids w0 w1, NoDup sids ∧ (∀ x, x ∈ sids ↔ ∃ m, rows w !! x = Some m ∧ candidate m) ∧
  rows w0 = rows w ∧ tasks (core w0) = tasks (core w) ∧
  handle_session_prune to_string error_text ch runner age include_running true w =
    RelayManager.send_ipc to_string runner (SessionPruneOk sids 0 true) w0 ∧
  (include_running = false →
     running_among w sids = 0%N ∧ session_manager (core w1) = session_manager (core w) ∧ signalled (core w1) = signalled (core w)) ∧
  (handle_session_prune to_string error_text ch runner age include_running false w =
     RelayManager.send_ipc to_string runner (SessionPruneOk sids (running_among w sids) false) w1 ∧
   (∀ x, rows w1 !! x = if bool_decide (x ∈ sids) then None else rows w !! x) ∧
   tasks (core w1) = tasks (core w) ++ ((λ x, announces x w) <$> sids) ∨
   ∃ gone x rest e, sids = gone ++ x :: rest ∧
     handle_session_prune to_string error_text ch runner age include_running false w =
     RelayManager.send_ipc to_string runner
       (SessionPruneErr PruneInternal (Some (error_text e)) gone (running_among w (gone ++ [x]))) w1 ∧
     (∀ y, y ≠ x → rows w1 !! y = if bool_decide (y ∈ gone) then None else rows w !! y) ∧
     (rows w1 !! x = rows w !! x ∨ rows w1 !! x = None) ∧
     tasks (core w1) = tasks (core w) ++ ((λ y, announces y w) <$> gone)).
Proof.
  intros I He candidate. unfold handle_session_prune. rewrite with_store_run. unfold Store.list_sessions.
  rewrite StoreLaws.query_run. cbn [Store.ticks Store.set_ticks Store.sessions fst snd]. rewrite Nat.sub_succ, Nat.sub_0_r, He. cbn [fst snd ok_or_default].
  set (w0 := upd _ w). set (l := filter _ _).
  destruct (candidates_spec (λ m, candidate m) (λ r, (- Store.created_at r)%Z) w I) as (Hn & Hl & Hin). fold l in Hn, Hl, Hin.
  assert (∀ m, m ∈ l → rows w !! Store.sid m = Some m) as Hrows by (by intros m [? _]%Hl).
  assert (∀ m, include_running = false → m ∈ l → is_running m = false) as Hquiet.
  { intros m Ei [_ Hc]%Hl. unfold candidate, prune_candidate in Hc. fold (is_running m) in Hc. rewrite Ei in Hc.
    by destruct (is_running m). }
  assert (include_running = false → running_among w (Store.sid <$> l) = 0%N) as Hnone.
  { intros Ei. rewrite <-count_running_rows by done. unfold count_running. rewrite list_filter_none; [done|].
    intros m Hm. by rewrite (Hquiet m Ei Hm). }
  assert (∀ at_ d rest w1, l = d ++ option_list at_ ++ rest → pruned d at_ w w1 → include_running = false →
    running_among w (Store.sid <$> l) = 0%N ∧ session_manager (core w1) = session_manager (core w) ∧
    signalled (core w1) = signalled (core w)) as Hq.
  { intros at_ d rest w1 El (_ & _ & _ & H) Ei. split; [by apply Hnone|]. apply H, Forall_forall. intros m Hm.
    apply Hquiet; [done|]. rewrite El, app_assoc. apply elem_of_app. by left. }
  destruct (prune_loop_spec ch runner l [] 0 w0 Hn) as [(w1 & -> & Hp)|(d & s & rest & e & w1 & El & -> & Hp)];
    change (pruned ?a ?b w0 ?c) with (pruned a b w c) in Hp; exists (Store.sid <$> l), w0, w1; split_and!; try done.
  - by apply (Hq None l []); [rewrite app_nil_r|].
  - left. rewrite <-count_running_rows by done. split; [done|]. destruct Hp as (H1 & _ & H3 & _).
    split; [intros x; by apply H1|]. by rewrite H3, <-list_fmap_compose.
  - by apply (Hq (Some s) d rest).
  - right. exists (Store.sid <$> d), (Store.sid s), (Store.sid <$> rest), e. rewrite El, fmap_app. split; [done|].
    change ([Store.sid s]) with (Store.sid <$> [s]). rewrite <-fmap_app, <-count_running_rows.
    2: { intros m Hm. apply Hrows. rewrite El. rewrite elem_of_app in *. destruct Hm as [?|Hm]; [by left|].
         apply list_elem_of_singleton in Hm as ->. right. by left. }
    destruct Hp as (H1 & H2 & H3 & _). split; [done|]. split; [intros y Hy; apply H1; cbn; congruence|].
    split; [by apply H2|]. by rewrite H3, <-list_fmap_compose.
Qed.

End deletion.

(** ** Restarting *)

Section control.
Context {CC : CryptoCrates} {HIS : HashIter string} {HIN : HashIter N} {SE : Store.SqlEngine}.
Context (to_string to_string_pretty : Value → string) (from_str : string → option Value).
Context (error_text : Store.StoreError → string).
Implicit Types w : World Cont.

Definition registered (sid : string) w : option Runners.RunnerInfo := Runners.get_runner sid (session_manager (core w)).

Lemma set_sessions_same w : upd (set_sessions (session_manager (core w))) w = w.
Proof. by destruct w as [? ? ? ? []]. Qed.

(** C24. A restarted session cannot be undone by the runner it replaced.  The respawn
    either fails, with an error reply and no registration, or registers a fresh process
    with the session's directory and worktree; and then, for as long as that
    registration stands, a farewell from any other pid and the end of any other process
    (or a failing wait for it) change nothing at all. *)
Theorem restart_is_safe ch k fid sid session w :
  let '(w', more) := respawn ch k fid sid session w in
  (∃ m, more = [reply_error k fid sid "SESSION_ERROR" m] ∧ registered sid w' = None ∧ tasks (core w') = tasks (core w)) ∨
  (∃ r pid p, more = [] ∧ registered sid w' = Some r ∧ Runners.r_pid r = pid ∧ Runners.r_process r = Some p ∧
     Runners.r_cwd r = Store.cwd session ∧ Runners.r_worktree_path r = Store.worktree_path session ∧
     p = length (Runners.children (session_manager (core w))) ∧
     tasks (core w') = tasks (core w) ++ [mkRun 0 [SDispatch (CMonitor sid p)]] ∧
     ∀ w2, registered sid w2 = Some r →
       (∀ ch2 code reason old, old ≠ pid → handle_bye ch2 sid code (Some old) reason w2 = w2) ∧
       (∀ ch2 n q, q ≠ p → is_Some (Runners.exit_code (Runners.se_wait_err (ch_spawn ch2)) q (session_manager (core w2))) →
          dispatch_step to_string to_string_pretty from_str error_text ch2 n (CMonitor sid q) w2 = Some (w2, []))).
Proof.
  unfold respawn, create_session. set (w1 := unregister_runner sid w). set (opts := Runners.mkSpawnOptions _ _ _ _ _ _).
  unfold Runners.spawn_runner.
  assert (registered sid w1 = None) as Hn by (cbn; apply lookup_delete_eq).
  destruct (match Runners.se_injected _ with Some _ => _ | None => _ end) as [base|e].
  2: left; eexists; split; [reflexivity|]; by split.
  destruct (Runners.runner_args _ _ _ _) as [|a args] eqn:Ea; [left; eexists; split; [reflexivity|]; by split|].
  destruct (Runners.se_spawn _) as [[pid|]|e]; [|left; eexists; split; [reflexivity|]; by split..].
  right. eexists _, pid, _. split; [done|]. split; [cbn; apply lookup_insert_eq|]. split_and!; [done..|]. intros w2 Hr. split.
  - intros ch2 code reason old Ho. unfold handle_bye, stale_bye. unfold registered in Hr. rewrite Hr. cbn.
    by destruct (N.eqb_spec pid old) as [->|].
  - intros ch2 n q Hq [c Hc]. cbn [dispatch_step]. rewrite Hc. unfold Runners.exit_section.
    unfold registered, Runners.get_runner in Hr. rewrite Hr. cbn [Runners.r_process]. rewrite decide_True by congruence.
    f_equal. f_equal. apply set_sessions_same.
Qed.

(** ** Worktrees *)

Definition git_log w : list (list string * option Worktree.Path) := match worktree_manager (core w) with Some m => Worktree.calls m | None => [] end.
Definition session_sid (ch : Choice) (branch : string) : string := sanitize_for_sid branch +:+ "-" +:+ to_base36 (now_ms ch).

Lemma spawn_failed env sid cwd opts m e m' : Runners.spawn_runner env sid cwd opts m = (Err e, m') → m' = m.
Proof.
  unfold Runners.spawn_runner. destruct (match Runners.se_injected env with Some _ => _ | None => _ end); [|by intros [= _ <-]].
  destruct (Runners.runner_args _ _ _ _); [by intros [= _ <-]|]. destruct (Runners.se_spawn env) as [[pid|]|e']; [done|by intros [= _ <-]..].
Qed.

Lemma spawn_done env sid cwd opts m pid p m' : Runners.spawn_runner env sid cwd opts m = (Ok (pid, p), m') →
  p = length (Runners.children m) ∧
  Runners.get_runner sid m' = Some (Runners.mkRunner sid pid cwd (Runners.o_worktree_path opts) None (Runners.se_now env) (Some p)).
Proof.
  unfold Runners.spawn_runner. destruct (match Runners.se_injected env with Some _ => _ | None => _ end); [|done].
  destruct (Runners.runner_args _ _ _ _); [done|]. destruct (Runners.se_spawn env) as [[pid'|]|e']; [|done..]. intros [= -> <- <-].
  split; [done|]. cbn. apply lookup_insert_eq.
Qed.

(** A worktree and its session are made together or not at all.  If the worktree
    cannot be added, the caller gets the error and no runner is touched; if its session
    cannot be spawned, the one further command is the forced removal of the worktree
    just made, accepted by the containment check, and no runner is touched; otherwise a
    runner is registered in the worktree, watched, and the frontends subscribe to it. *)
Theorem worktree_create_atomic ch k fid branch base path w m :
  (∀ p q, Worktree.fs_canonicalize (ch_worktree ch) p = Some q → Worktree.clean q) →
  worktree_manager (core w) = Some m → Worktree.clean (Worktree.repo_root m) →
  let sid := session_sid ch branch in
  let '(w', more) := relay_worktree_create ch k fid branch base path w in
  ∃ r new, Worktree.add (ch_worktree ch) (default sid path) branch base m = (r, Worktree.ran new m) ∧
  match r with
  | Err e =>
      more = [worktree_error k fid "Failed to create worktree" e] ∧ git_log w' = Worktree.calls m ++ new ∧
      session_manager (core w') = session_manager (core w) ∧ tasks (core w') = tasks (core w)
  | Ok wt =>
      (∃ e, more = [worktree_error k fid "Failed to create worktree" e] ∧
         git_log w' = Worktree.calls m ++ new ++ [(["worktree"; "remove"; "--force"; "--"; Worktree.wt_path wt], Some (Worktree.repo_root m))] ∧
         session_manager (core w') = session_manager (core w) ∧ tasks (core w') = tasks (core w)) ∨
      (∃ r p, more = subscribes sid w ++ [reply k fid RELAY_CHANNEL_CONTROL
                (Object [("d", worktree_info_json wt); ("sid", Str sid); ("t", Str "worktree.created")])] ∧
         git_log w' = Worktree.calls m ++ new ∧ registered sid w' = Some r ∧ Runners.r_process r = Some p ∧
         Runners.r_cwd r = Worktree.wt_path wt ∧ Runners.r_worktree_path r = Some (Worktree.wt_path wt) ∧
         tasks (core w') = tasks (core w) ++ [mkRun 0 [SDispatch (CMonitor sid p)]])
  end.
Proof.
  intros Hreal Hm Hc sid. unfold relay_worktree_create, with_worktree_manager. rewrite Hm. fold (session_sid ch branch). fold sid.
  destruct (Worktree.add_spec (ch_worktree ch) Hreal m (default sid path) branch base Hc) as (r & new & E & _ & Hok). rewrite E.
  destruct r as [wt|e]; [|by exists (Err e), new]. destruct (Hok wt eq_refl) as (_ & _ & Hin & Hp).
  unfold create_session. destruct (Runners.spawn_runner _ sid _ _ _) as [[[pid p]|e] sm] eqn:Es.
  - exists (Ok wt), new. split; [done|]. right. apply spawn_done in Es as [_ Hr]. eexists _, p. split; [done|]. split; [done|].
    split; [exact Hr|]. by split_and!.
  - apply spawn_failed in Es as ->. set (m1 := Worktree.ran new m).
    destruct (Worktree.remove (ch_worktree ch) (Worktree.wt_path wt) true m1) as [x m2] eqn:Er. exists (Ok wt), new. split; [done|]. left. exists e.
    split; [done|]. assert (m2 = (Worktree.remove (ch_worktree ch) (Worktree.wt_path wt) true m1).2) as -> by (by rewrite Er).
    rewrite Hp in Er |- *. rewrite Worktree.remove_run by (unfold m1; cbn; by rewrite Worktree.contained_display). split_and!; [|done..].
    cbn. by rewrite <-app_assoc.
Qed.

(** The sections of a task, each in whatever world it finds. *)
Inductive task_trace : list (Step Cont) → list (World Cont * Step Cont) → Prop :=
| trace_stop steps : task_trace steps []
| trace_step ch n s rest w w' counted more tr :
    step to_string (dispatch_step to_string to_string_pretty from_str error_text) CControl ch n s w = Some (w', counted, more) →
    task_trace (more ++ rest) tr → task_trace (s :: rest) ((w, s) :: tr).

(** The wait for [sid]'s process was over before the end of [tr]: it had exited, or
    [try_wait] failed. *)
Definition awaited (sid : string) (tr : list (World Cont * Step Cont)) : Prop :=
  ∃ w err, (w, SDispatch (CWaitExit sid)) ∈ tr ∧ Runners.has_exited err sid (session_manager (core w)) = true.

Abbreviation step_of := (step to_string (dispatch_step to_string to_string_pretty from_str error_text) CControl).

(** A trace that goes on has run the task's first section. *)
Lemma trace_cons s rest tr1 e tr2 : task_trace (s :: rest) (tr1 ++ e :: tr2) →
  ∃ ch n w w' counted more, step_of ch n s w = Some (w', counted, more) ∧
  (tr1 = [] ∧ e = (w, s) ∨ ∃ tr, tr1 = (w, s) :: tr ∧ task_trace (more ++ rest) (tr ++ e :: tr2)).
Proof.
  intros H. inversion H as [steps E1 E2|ch n s' r w w' counted more tr' Hs Ht E1 E2]; [by destruct tr1|].
  exists ch, n, w, w', counted, more. split; [done|]. destruct tr1 as [|e1 tr1]; injection E2 as <- Er; [by left|right]. subst. by exists tr1.
Qed.

Lemma kill_next_trace rest bs k fid path : ∀ w tr1 tr2 w',
  task_trace (kill_next rest bs k fid path w).2 (tr1 ++ (w', SDispatch (CRemoveWorktree k fid path true)) :: tr2) →
  ∀ b, b ∈ rest → awaited (b_sid b) tr1.
Proof.
  induction rest as [|b rest IH]; intros w tr1 tr2 w' H b' Hb; [by apply elem_of_nil in Hb|]. cbn [kill_next snd] in H.
  apply trace_cons in H as (ch & n & w1 & w1' & c1 & more1 & Hs1 & [[_ [=]]|(tr & -> & H)]). cbn [step dispatch_step] in Hs1.
  destruct (Runners.has_exited _ (b_sid b) (session_manager (core w1))) eqn:Hx; [|done]. injection Hs1 as <- _ <-.
  apply trace_cons in H as (ch' & n' & w2 & w2' & c2 & more2 & Hs2 & [[_ [=]]|(tr' & -> & H)]). cbn [step dispatch_step] in Hs2.
  set (w3 := (with_store _ _).2) in Hs2. destruct (kill_next rest bs k fid path w3) as [w4 more'] eqn:Ek. injection Hs2 as _ _ <-.
  rewrite app_nil_r in H. assert (more' = (kill_next rest bs k fid path w3).2) as -> by (by rewrite Ek).
  apply elem_of_cons in Hb as [->|Hb]; [eexists w1, _; split; [left|exact Hx]|].
  destruct (IH _ _ _ _ H b' Hb) as (w5 & e5 & Hin & H5). exists w5, e5. split; [by do 2 right|done].
Qed.

Lemma runner_worktree_same ch r w : git_log (runner_worktree ch r w).2 = git_log w ∧ session_manager (core (runner_worktree ch r w).2) = session_manager (core w).
Proof.
  unfold runner_worktree. destruct (Runners.r_worktree_path r); [done|]. destruct (get_session_run ch (Runners.r_sid r) w) as [E _].
  destruct (get_session ch (Runners.r_sid r) w) as [o w1]. cbn in E. by subst w1.
Qed.

Lemma blockers_spec ch m target l : ∀ w,
  let '(bs, w') := blockers_of ch m target l w in
  git_log w' = git_log w ∧ session_manager (core w') = session_manager (core w) ∧
  (∀ r p, r ∈ l → Runners.r_worktree_path r = Some p → Worktree.canonicalize (ch_worktree ch) m p = target →
     mkBlocker (Runners.r_sid r) (bool_decide (is_Some (Runners.r_process r))) ∈ bs).
Proof.
  induction l as [|r l IH]; intros w; cbn [blockers_of].
  - split_and!; [done|done|]. by intros r p ?%elem_of_nil.
  - destruct (runner_worktree_same ch r w) as [E1 E2]. destruct (runner_worktree ch r w) as [p w1] eqn:Ep. cbn in E1, E2.
    specialize (IH w1). destruct (blockers_of ch m target l w1) as [bs w2]. destruct IH as (E3 & E4 & H1).
    split; [by rewrite E3|]. split; [by rewrite E4|]. intros r' p' [->|Hr]%elem_of_cons Hp Ht.
    + unfold runner_worktree in Ep. rewrite Hp in Ep. injection Ep as <- _. rewrite Ht, String.eqb_refl. left.
    + pose proof (H1 r' p' Hr Hp Ht) as Hb. destruct p; [destruct (String.eqb _ _); [by right|]|]; done.
Qed.

Lemma no_removal k o tr1 w2 k' fid path tr2 :
  task_trace [SCall k o] (tr1 ++ (w2, SDispatch (CRemoveWorktree k' fid path true)) :: tr2) → False.
Proof.
  intros H. apply trace_cons in H as (ch & n & w & w' & c & more & Hs & [[_ [=]]|(tr & -> & H)]). injection Hs as _ _ <-.
  inversion H as [steps E1 E2|]. by destruct tr.
Qed.

(** No worktree is removed under a running session.  If the request itself makes
    [git] run, no registered runner's own worktree is the one named; and if it leads to a
    removal later, it was forced, every runner with that worktree is a process of this
    daemon, and each one's exit was seen before, whatever happens between the sections
    of the task. *)
Theorem worktree_remove_guarded ch k fid path force w m :
  worktree_manager (core w) = Some m →
  let target := Worktree.canonicalize (ch_worktree ch) m path in
  let '(w', more) := relay_worktree_remove ch k fid path force w in
  (git_log w' ≠ git_log w → ∀ sid r p, registered sid w = Some r → Runners.r_worktree_path r = Some p →
     Worktree.canonicalize (ch_worktree ch) m p ≠ target) ∧
  (git_log w' = git_log w → ∀ tr1 w2 tr2, task_trace more (tr1 ++ (w2, SDispatch (CRemoveWorktree k fid path true)) :: tr2) →
     force = true ∧ ∀ sid r p, registered sid w = Some r → Runners.r_worktree_path r = Some p →
       Worktree.canonicalize (ch_worktree ch) m p = target → Runners.r_process r ≠ None ∧ awaited (Runners.r_sid r) tr1).
Proof.
  intros Hm target. unfold relay_worktree_remove, with_worktree_manager. rewrite Hm. fold target.
  set (l := Runners.list_runners _). pose proof (blockers_spec ch m target l w) as Hb.
  assert (∀ sid r, registered sid w = Some r → r ∈ l) as Hl.
  { intros sid r Hr. apply list_elem_of_omap. exists sid. split; [|exact Hr]. by apply elem_of_set_iter, elem_of_dom_2 with r. }
  destruct (blockers_of ch m target l w) as [bs w1]. destruct Hb as (Hg & Hs & H1).
  destruct bs as [|b bs].
  - unfold remove_worktree, with_worktree_manager.
    destruct (worktree_manager (core w1)); [destruct (Worktree.remove _ _ _ _) as [[[]|e] m1]|]; (split;
      [intros _ sid r p Hr Hp Ht; pose proof (H1 r p (Hl sid r Hr) Hp Ht) as Hb; by apply elem_of_nil in Hb
      |intros _ tr1 w2 tr2 Ht; exfalso; by eapply no_removal]).
  - destruct force; cbn [negb]; [|split; [by rewrite Hg|intros _ tr1 w2 tr2 Ht; exfalso; by eapply no_removal]].
    destruct (filter _ _) as [|u us] eqn:Ef; [|split; [by rewrite Hg|intros _ tr1 w2 tr2 Ht; exfalso; by eapply no_removal]].
    destruct (kill_next (b :: bs) (b :: bs) k fid path w1) as [w' more] eqn:Ek. split.
    + intros Hne. exfalso. apply Hne. cbn [kill_next] in Ek. injection Ek as <- _. rewrite <-Hg. unfold kill_runner.
      by destruct (Runners.kill_runner _ _).
    + intros _ tr1 w2 tr2 Ht. split; [done|]. intros sid r p Hr Hp Hc. pose proof (H1 r p (Hl sid r Hr) Hp Hc) as Hb. split.
      * intros Hn. assert (mkBlocker (Runners.r_sid r) false ∈ filter (λ b, b_has_process b = false) (b :: bs)) as Hu.
        { apply list_elem_of_filter. split; [done|]. by rewrite Hn in Hb. }
        rewrite Ef in Hu. by apply elem_of_nil in Hu.
      * assert (more = (kill_next (b :: bs) (b :: bs) k fid path w1).2) as -> by (by rewrite Ek).
        exact (kill_next_trace _ _ _ _ _ _ _ _ _ Ht _ Hb).
Qed.

(** ** Export *)

(** An export holds exactly the first matching records up to the limit, itself at
    most 50,000, and says it is truncated exactly when records are missing, except at
    the cap, where it never says so. *)
Theorem export_is_prefix db kinds from to limit :
  (match limit with Some l => (0 < l)%Z | None => True end) →
  let matching := filter (λ r, Store.record_matches (Store.mkFilter kinds from to None) r) (Store.records db) in
  let cap := Z.min (default EXPORT_CAP limit) EXPORT_CAP in
  export_records db kinds from to limit =
    (take (Z.to_nat cap) matching, bool_decide (cap < EXPORT_CAP ∧ cap < Z.of_nat (length matching))%Z).
Proof.
  intros Hl matching cap. unfold export_records. fold cap. unfold Store.get_records_filtered. cbn [Store.limit from_option default].
  change (filter (λ r, Store.record_matches (Store.mkFilter kinds from to (Some (cap + 1)%Z)) r) (Store.records db)) with matching.
  assert (0 < cap ≤ 50000)%Z as Hc by (unfold cap, EXPORT_CAP; destruct limit; cbn; lia). unfold EXPORT_CAP, Store.sql_limit.
  cbn [from_option id]. rewrite decide_False by lia. rewrite length_take.
  destruct (decide (cap = 50000)%Z) as [->|Hn].
  - rewrite Z.min_r by lia. rewrite !bool_decide_eq_false_2 by lia. done.
  - rewrite Z.min_l by lia. destruct (decide (cap < Z.of_nat (length matching))%Z) as [Hm|Hm].
    + rewrite !bool_decide_eq_true_2 by lia. rewrite take_take. do 2 f_equal. lia.
    + rewrite !bool_decide_eq_false_2 by lia. rewrite !take_ge by lia. done.
Qed.

(** ** Sessions that begin and end *)

(** A frontend's [session.create] either answers with an error and changes neither
    the runners, nor the store, nor the tasks, always so for a session id that is not
    safe as a file name; or it registers a spawned process in the requested directory,
    watches it, subscribes every client and only then confirms. *)
Theorem create_is_checked ch k fid msg w :
  let sid := default ("session-" +:+ to_base36 (now_ms ch)) (get_str msg "sid") in
  let '(w', more) := relay_session_create ch k fid msg w in
  (∃ m, more = [reply_error k fid sid "SESSION_ERROR" m] ∧ session_manager (core w') = session_manager (core w) ∧
     store (core w') = store (core w) ∧ tasks (core w') = tasks (core w)) ∨
  (is_safe_sid sid = true ∧ ∃ r p, registered sid w' = Some r ∧ Runners.r_process r = Some p ∧
     Runners.r_cwd r = default "" (get_str msg "cwd") ∧ store (core w') = store (core w) ∧
     tasks (core w') = tasks (core w) ++ [mkRun 0 [SDispatch (CMonitor sid p)]] ∧
     more = subscribes sid w ++ [reply k fid sid (Object [("sid", Str sid); ("t", Str "session.create.ok")])]).
Proof.
  intros sid. unfold relay_session_create. fold sid. unfold assert_safe_sid. destruct (is_safe_sid sid) eqn:Es; [|left; by eexists].
  unfold create_session. destruct (Runners.spawn_runner _ sid _ _ _) as [[[pid p]|e] sm] eqn:Er.
  - right. split; [done|]. apply spawn_done in Er as [_ Hr]. eexists _, p. split; [exact Hr|]. by split_and!.
  - left. apply spawn_failed in Er as ->. by eexists.
Qed.

Definition state_of w (sid : string) : option string := Store.state <$> rows w !! sid.

Lemma update_state_rows ch sid st w :
  let w' := (with_store (Store.update_session_state (ch_store ch) sid st) w).2 in
  (state_of w' sid = (if Store.e_fail (ch_store ch) (Store.ticks (store (core w))) then Store.state <$> rows w !! sid else (λ _, st) <$> rows w !! sid)) ∧
  (∀ x, x ≠ sid → rows w' !! x = rows w !! x) ∧ session_manager (core w') = session_manager (core w) ∧ tasks (core w') = tasks (core w).
Proof.
  cbv zeta. rewrite with_store_run. unfold Store.update_session_state. rewrite StoreLaws.execute_run.
  cbn [Store.ticks Store.set_ticks]. rewrite Nat.sub_succ, Nat.sub_0_r. destruct (Store.e_fail _ _); [by split_and!|].
  unfold state_of, rows. cbn. split_and!; [|intros x Hx; by rewrite lookup_alter_ne|done|done].
  rewrite lookup_alter_eq. by destruct (Store.sessions _ !! sid).
Qed.

(** A session that ended is not left running.  A farewell that is not stale removes
    the runner, sets the session's state by how it ended and announces it; the exit of
    the registered process (or a failing wait for it) removes the runner and leaves no running session, announcing
    the change exactly when there was one; no other session or runner is touched. *)
Theorem ends_are_recorded ch sid w : (∀ n, Store.e_fail (ch_store ch) n = false) →
  (∀ code pid reason, let w' := handle_bye ch sid code pid reason w in
     (stale_bye sid pid w = true ∧ w' = w) ∨
     (registered sid w' = None ∧ state_of w' sid = (λ _, bye_state code reason) <$> rows w !! sid ∧
      (∀ x, x ≠ sid → rows w' !! x = rows w !! x ∧ registered x w' = registered x w) ∧
      tasks (core w') = tasks (core w) ++ [mkRun 0 [SDispatch (CBroadcastState sid)]])) ∧
  (∀ n p r, registered sid w = Some r → Runners.r_process r = Some p → is_Some (Runners.exit_code (Runners.se_wait_err (ch_spawn ch)) p (session_manager (core w))) →
     ∃ w', dispatch_step to_string to_string_pretty from_str error_text ch n (CMonitor sid p) w = Some (w', []) ∧
     registered sid w' = None ∧ (∀ st, state_of w' sid = Some st → st ≠ "running") ∧
     (∀ x, x ≠ sid → rows w' !! x = rows w !! x ∧ registered x w' = registered x w) ∧
     tasks (core w') = tasks (core w) ++
       (if bool_decide (state_of w sid = Some "running") then [mkRun 0 [SDispatch (CBroadcastState sid)]] else [])).
Proof.
  intros He. split.
  - intros code pid reason. cbv zeta. unfold handle_bye. destruct (stale_bye sid pid w) eqn:Est; [by left|right].
    destruct (update_state_rows ch sid (bye_state code reason) w) as (H1 & H2 & H3 & H4). rewrite He in H1. set (w1 := (with_store _ w).2) in *.
    split; [cbn; apply lookup_delete_eq|]. split; [exact H1|]. split; [|cbn; by rewrite <-H4].
    intros x Hx. split; [by apply H2|]. unfold registered, Runners.get_runner. cbn. rewrite lookup_delete_ne by done. by rewrite <-H3.
  - intros n p r Hr Hp [c Hc]. cbn [dispatch_step]. rewrite Hc. unfold Runners.exit_section. unfold registered, Runners.get_runner in Hr.
    rewrite Hr, Hp, decide_False by congruence. set (w1 := upd (set_sessions (Runners.unregister_runner sid _)) w).
    eexists. split; [reflexivity|]. unfold on_runner_exit. destruct (get_session_run ch sid w1) as [E2 E1]. rewrite He in E1.
    destruct (get_session ch sid w1) as [o w2]. cbn [fst snd] in E1, E2. fold (rows w1) in E1. change (rows w1) with (rows w) in E1. subst o.
    assert (∀ w3, session_manager (core w3) = session_manager (core w1) → registered sid w3 = None ∧
      ∀ x, x ≠ sid → registered x w3 = registered x w) as Hreg.
    { intros w3 E. unfold registered, Runners.get_runner. rewrite E. cbn. split; [apply lookup_delete_eq|].
      intros x Hx. by rewrite lookup_delete_ne. }
    assert (rows w2 = rows w ∧ tasks (core w2) = tasks (core w) ∧ session_manager (core w2) = session_manager (core w1)) as (Er & Et & Em) by by subst w2.
    unfold state_of. destruct (rows w !! sid) as [meta|] eqn:Em0; cbn [fmap option_fmap option_map].
    + case_bool_decide as Hrun.
      * destruct (update_state_rows ch sid "stopped" w2) as (H1 & H2 & H3 & H4). rewrite He in H1. set (w3 := (with_store _ w2).2) in *.
        destruct (Hreg w3) as [Hn Hx]; [by rewrite H3|]. split; [exact Hn|]. unfold state_of in H1. split; [|split].
        -- intros st Hst. change (rows (spawn ?l w3)) with (rows w3) in Hst. rewrite H1, Er, Em0 in Hst. by injection Hst as <-.
        -- intros x Hne. split; [change (rows (spawn ?l w3)) with (rows w3); rewrite (H2 x Hne); by rewrite Er|by apply Hx].
        -- rewrite bool_decide_eq_true_2 by by rewrite Hrun. cbn. by rewrite <-Et, <-H4.
      * destruct (Hreg w2 Em) as [Hn Hx]. rewrite Er, Em0, Et, bool_decide_eq_false_2, app_nil_r by by intros [= ?].
        split_and!; [done|by intros st [= <-]|intros x Hne; split; [done|by apply Hx]|done].
    + destruct (Hreg w2 Em) as [Hn Hx]. rewrite Er, Em0, Et, app_nil_r. split_and!; [done|done|intros x Hne; split; [done|by apply Hx]|done].
Qed.
End control.

(** ** Concrete runs *)

Module Demo.
#[local] Existing Instance DaemonClient.Demo.crates.
#[local] Existing Instance DaemonClient.Demo.iter.
#[local] Existing Instance StoreLaws.Demo.engine.
#[local] Instance iter_n : HashIter N := elements_iter N.

Definition to_string := DaemonClient.Demo.to_string.
Definition from_slice := DaemonClient.Demo.from_slice.
Definition from_str (s : string) : option Value := from_slice (as_bytes s).
Definition error_text (_ : Store.StoreError) : string := "failed".
Definition ch : Choice := mkChoice DaemonClient.Demo.env StoreLaws.Demo.env (Runners.mkSpawnEnv 7 (Some ["tp-runner"]) (Err "") (Ok (Some 42%N)) false)
  Worktree.Demo.sys.

(** Session [s1] runs in the worktree [/w/repo-s1]; a runner of this daemon serves it. *)
Definition nine : f64 := S754_finite false 9 0.
Definition repo : Worktree.Manager := Worktree.mkManager Worktree.Demo.repo [].
Definition s1 : Store.SessionMeta := Store.mkSession "s1" "running" (Some "/w/repo-s1") "/w/repo-s1" 4000 4000 None 0.
Definition st : Store.Store := Store.set_sessions {["s1" := s1]} (StoreLaws.store_new 32).
Definition runner1 : Runners.RunnerInfo := Runners.mkRunner "s1" 41 "/w/repo-s1" (Some "/w/repo-s1") None 7 (Some 0).
Definition sm (status : option (option Z)) : Runners.Manager := Runners.mkManager {["s1" := runner1]} [Runners.mkChild 41 status].
Definition w0 : World Cont := upd (λ c, set_worktrees (Some repo) (set_sessions (sm None) (set_clients [0; 1] c))) (world_new st).

Lemma st_inv : StoreLaws.inv st.
Proof.
  split; cbn; [constructor|by intros x; rewrite elem_of_nil; set_solver +|right; rewrite size_empty; lia|set_solver +|done|].
  intros x r H. apply lookup_singleton_Some in H as [<- <-]. done.
Qed.


Lemma session_deleted_witness :
  ∃ w1, registered "s1" w1 = None ∧ signalled (core w1) = [41%N] ∧ rows w1 !! "s1" = None.
Proof.
  assert (∀ w1 e, handle_session_delete to_string error_text ch 1 "s1" w0 ≠
    RelayManager.send_ipc to_string 1 (SessionDeleteErr "s1" DeleteInternal (Some (error_text e))) w1 ∨
    (relay_session_delete error_text ch 0 "f1" "s1" w0).2 ≠ [reply 0 "f1" "s1" (delete_err "s1" "internal" (Some (error_text e)))]) as Hne.
  { intros w1 e. right. vm_compute. discriminate. }
  destruct (session_deleted to_string error_text ch 1 0 "f1" "s1" s1 w0 eq_refl eq_refl) as (w1 & Hg & _ & _ & _ & _ & [(Hr & _)|(e & H1 & H2)]).
  - exists w1. unfold runner_gone in Hg. cbn in Hg. destruct Hg as [Hm Hs]. split; [|split; [exact Hs|exact Hr]].
    unfold registered, Runners.get_runner. rewrite Hm. vm_compute. reflexivity.
  - exfalso. destruct (Hne w1 e) as [H|H]; apply H; [exact H1|rewrite H2; reflexivity].
Defined.

(** Everything goes when running sessions may; nothing does otherwise. *)
Lemma prune_exact_witness :
  (∃ w1, handle_session_prune to_string error_text ch 1 All false true w0 = RelayManager.send_ipc to_string 1 (SessionPruneOk [] 0 true) w1) ∧
  ∃ sids w1, "s1" ∈ sids ∧ handle_session_prune to_string error_text ch 1 All true true w0 =
    RelayManager.send_ipc to_string 1 (SessionPruneOk sids 0 true) w1.
Proof.
  split.
  - destruct (prune_exact to_string error_text ch 1 All false w0 st_inv eq_refl) as (sids & w1 & _ & _ & Hin & _ & _ & E & _). exists w1.
    destruct sids as [|x sids]; [exact E|]. exfalso. destruct (proj1 (Hin x)) as (m & Hm & Hc); [left|].
    change ((({["s1" := s1]} : gmap string Store.SessionMeta) !! x) = Some m) in Hm. apply lookup_singleton_Some in Hm as [_ <-]. discriminate.
  - destruct (prune_exact to_string error_text ch 1 All true w0 st_inv eq_refl) as (sids & w1 & _ & _ & Hin & _ & _ & E & _). exists sids, w1.
    split; [|exact E]. apply Hin. exists s1. split; reflexivity.
Defined.

Lemma restart_is_safe_witness :
  let w2 := (respawn ch 0 "f1" "s1" s1 w0).1 in
  handle_bye ch "s1" nine (Some 41%N) None w2 = w2 ∧ registered "s1" w2 ≠ None.
Proof.
  cbv zeta.
  assert (∃ r, registered "s1" (respawn ch 0 "f1" "s1" s1 w0).1 = Some r ∧ Runners.r_pid r = 42%N) as (r0 & Hr0 & Hp0)
    by (eexists; vm_compute; split; reflexivity).
  pose proof (restart_is_safe to_string to_string from_str error_text ch 0 "f1" "s1" s1 w0) as H.
  destruct (respawn ch 0 "f1" "s1" s1 w0) as [w' more]. cbn [fst] in *.
  destruct H as [(m & _ & Hn & _)|(r & pid & p & _ & Hr & Hp & _ & _ & _ & _ & _ & H)]; [congruence|].
  rewrite Hr in Hr0. injection Hr0 as ->. subst pid. destruct (H w' Hr) as [Hb _]. split; [|congruence]. apply Hb. by rewrite Hp0.
Defined.

Lemma real_paths (p q : Worktree.Path) : Worktree.fs_canonicalize (ch_worktree ch) p = Some q → Worktree.clean q.
Proof.
  cbn. unfold Worktree.Demo.real.
  repeat (case_decide as Hd; [intros [= E]; try (destruct Hd as [Hd|Hd]); subst; Worktree.Demo.clean_path|clear Hd]). done.
Qed.

Definition no_spawn : Choice := mkChoice DaemonClient.Demo.env StoreLaws.Demo.env (Runners.mkSpawnEnv 7 None (Err "no runner") (Err "") false) Worktree.Demo.sys.

Lemma worktree_create_atomic_witness :
  last (git_log (relay_worktree_create no_spawn 0 "f1" "topic/x" None (Some "../repo-wt-x") w0).1) =
    Some (["worktree"; "remove"; "--force"; "--"; "/w/repo-wt-x"], Some Worktree.Demo.repo).
Proof.
  assert ((Worktree.add Worktree.Demo.sys "../repo-wt-x" "topic/x" None repo).1 = Ok (Worktree.mkWorktree "/w/repo-wt-x" (Some "topic/x") "c0ffee" false)) as Ha
    by (vm_compute; reflexivity).
  assert (session_manager (core (relay_worktree_create no_spawn 0 "f1" "topic/x" None (Some "../repo-wt-x") w0).1) = sm None) as Hs
    by (vm_compute; reflexivity).
  pose proof (worktree_create_atomic no_spawn 0 "f1" "topic/x" None (Some "../repo-wt-x") w0 repo real_paths eq_refl) as H.
  cbv zeta in H. destruct (relay_worktree_create no_spawn 0 "f1" "topic/x" None (Some "../repo-wt-x") w0) as [w' more]. cbn [fst] in *.
  destruct H as (r & new & E & H); [Worktree.Demo.clean_path|]. cbn [default from_option id ch_worktree no_spawn] in E. rewrite E in Ha. cbn in Ha. subst r.
  destruct H as [(e & _ & -> & _)|(r & p & _ & _ & Hr & _ & _ & _ & Ht)].
  - rewrite app_assoc. apply last_snoc.
  - exfalso. unfold registered, Runners.get_runner in Hr. rewrite Hs in Hr. cbn in Hr. vm_compute in Hr. discriminate.
Defined.

(** [s1]'s runner lives in [/w/repo-s1]: unforced, nothing is run and nothing will be. *)
Lemma worktree_remove_guarded_witness :
  git_log (relay_worktree_remove ch 0 "f1" "../repo-s1" false w0).1 = [] ∧
  ∀ tr1 w2 tr2, ¬ task_trace to_string to_string from_str error_text (relay_worktree_remove ch 0 "f1" "../repo-s1" false w0).2
    (tr1 ++ (w2, SDispatch (CRemoveWorktree 0 "f1" "../repo-s1" true)) :: tr2).
Proof.
  assert (git_log (relay_worktree_remove ch 0 "f1" "../repo-s1" false w0).1 = []) as Hl by (vm_compute; reflexivity).
  split; [exact Hl|]. intros tr1 w2 tr2 Ht.
  pose proof (worktree_remove_guarded to_string to_string from_str error_text ch 0 "f1" "../repo-s1" false w0 repo eq_refl) as H.
  cbv zeta in H. destruct (relay_worktree_remove ch 0 "f1" "../repo-s1" false w0) as [w' more]. cbn [fst snd] in *.
  destruct H as [_ H]. destruct (H Hl _ _ _ Ht) as [[=] _].
Defined.

Definition io (i t : Z) : Store.StoredRecord := Store.mkRecord i "io" t None None [].
Definition three : Store.SessionDb := Store.mkDb [io 1 10; io 2 20; io 3 30] 4.

Lemma export_is_prefix_witness :
  export_records three None (Some 10%Z) None (Some 2%Z) = ([io 1 10; io 2 20], true) ∧
  export_records three None (Some 10%Z) None (Some 3%Z) = ([io 1 10; io 2 20; io 3 30], false).
Proof. split; (rewrite export_is_prefix; [vm_compute; reflexivity|lia]). Defined.

(** The process is gone, and says so; then the session is stopped. *)
Definition exited : World Cont := upd (set_sessions (sm (Some (Some 0%Z)))) w0.

Lemma ends_are_recorded_witness :
  ∃ w', dispatch_step to_string to_string from_str error_text ch 0 (CMonitor "s1" 0) exited = Some (w', []) ∧
    registered "s1" w' = None ∧ state_of w' "s1" ≠ Some "running" ∧ tasks (core w') = [mkRun 0 [SDispatch (CBroadcastState "s1")]].
Proof.
  destruct (ends_are_recorded to_string to_string from_str error_text ch "s1" exited (λ _, eq_refl)) as [_ H].
  destruct (H 0%N 0 runner1) as (w' & E & Hr & Hs & _ & Ht); [reflexivity|reflexivity|by eexists|].
  exists w'. split; [exact E|]. split; [exact Hr|]. split; [|exact Ht]. intros Hst. by apply (Hs _ Hst).
Defined.

(** A file that cannot be unlinked: the row is gone, the caller is told of an error, and
    the frontends are told nothing. *)
Definition stuck : Choice :=
  mkChoice DaemonClient.Demo.env (Store.mkEnv 5000 (λ _, false) (λ _, Store.OtherErrno)) (ch_spawn ch) Worktree.Demo.sys.
Example half_deleted :
  let '(w', more) := relay_session_delete error_text stuck 0 "f1" "s1" w0 in
  rows w' !! "s1" = None ∧ tasks (core w') = [] ∧ more = [reply 0 "f1" "s1" (delete_err "s1" "internal" (Some "failed"))].
Proof. vm_compute. repeat split. Qed.

(** A payload that is not base64 goes out as it is, and is stored empty. *)
Example bad_payload :
  let w' := handle_rec to_string from_slice ch 1 "s1" Io nine None None "!" None w0 in
  Store.records (StoreLaws.log_of (store (core w')) "s1") = [io 1 9] ∧
  tasks (core w') = [published "s1" 1 (record_frame "s1" 1 "io" None None "!" (f64_value nine)) w0].
Proof. vm_compute. split; reflexivity. Qed.

(** The records of a session deleted under its runner make its file anew. *)
Example deleted_file_returns :
  let w' := (relay_session_delete error_text ch 0 "f1" "s1" w0).1 in
  let w2 := handle_rec to_string from_slice ch 1 "s1" Io nine None None "" None w' in
  rows w2 !! "s1" = None ∧ Store.dir (store (core w')) !! "s1.sqlite" = None ∧
  Store.dir (store (core w2)) !! "s1.sqlite" = Some (Store.FDb (Store.mkDb [io 1 9] 2)).
Proof. vm_compute. repeat split. Qed.

(** Creating a session that runs already replaces its registration: the first process
    lives on, is not signalled, and no command reaches it any more. *)
Example created_twice :
  let w' := (relay_session_create ch 0 "f1" (Object [("sid", Str "s1"); ("cwd", Str "/w")]) w0).1 in
  Runners.r_pid <$> registered "s1" w' = Some 42%N ∧ signalled (core w') = [] ∧
  Runners.children (session_manager (core w')) = [Runners.mkChild 41 None; Runners.mkChild 42 None] ∧
  (Runners.kill_runner "s1" (session_manager (core w'))).2 = Some 42%N.
Proof. vm_compute. repeat split. Qed.
End Demo.
