(* ===== verification/Daemon.v ===== *)
(** * Daemon: the daemon put together.
    [tp-daemon/src/daemon.rs]: start-up, the cleanup of old sessions, the thin calls of
    its interface, shutdown; and everything that can change the daemon as one step
    relation, for which the pool of relay clients stays accounted for.  The pairing
    handlers only start tasks of [PairRuntime]; what those tasks do to the daemon (a
    pairing saved or read, a client handed over, a message sent) are steps here. *)
From stdpp Require Import base list numbers strings gmap fin_maps relations.
From Stdlib Require Import Lia NArith ZArith Ascii.
From Stdlib.Floats Require Import SpecFloat.
From S2P Require Import Prelude Bytes Text Json Messages Label Codec Crypto Ipc DaemonClient Paths RelayManager Dispatcher DispatcherLaws.
From S2P Require Store StoreLaws Runners IpcServer Reconnect Worktree.

(** ** How long sessions are kept *)

Definition DEFAULT_PRUNE_TTL_DAYS : f64 := u64_as_f64 7.
Definition PRUNE_INTERVAL_MS : N := 24 * 60 * 60 * 1000.

(** [str::parse::<f64>]: a sign, then [inf], [infinity], [nan], or digits with an
    optional point and exponent; the nearest double. *)
Definition parse_nat (s : string) : option N :=
  if decide (s = "") then None else N.of_uint <$> DecimalString.NilEmpty.uint_of_string s.

Fixpoint split_digits (s : string) : string * string :=
  match s with
  | String c r => if is_ascii_digit c then let '(d, t) := split_digits r in (String c d, t) else ("", s)
  | EmptyString => ("", "")
  end.

(** [digits × 10^e] *)
Definition scaled (neg : bool) (digits : N) (e : Z) : f64 :=
  match digits with
  | N0 => S754_zero neg
  | Npos m =>
      if decide (0 ≤ e)%Z then binary_normalize 53 1024 (if neg then Z.neg (m * Z.to_pos (10 ^ e)) else Z.pos (m * Z.to_pos (10 ^ e))) 0 neg
      else SFdiv 53 1024 (S754_finite neg m 0) (S754_finite false (Z.to_pos (10 ^ (- e))) 0)
  end.

Definition parse_exponent (s : string) : option Z :=
  match s with
  | EmptyString => Some 0%Z
  | String c r =>
      if bool_decide (c = "e"%char ∨ c = "E"%char) then
        match r with
        | String "-" r => (λ n, - Z.of_N n)%Z <$> parse_nat r
        | String "+" r => Z.of_N <$> parse_nat r
        | _ => Z.of_N <$> parse_nat r
        end
      else None
  end.

Definition parse_decimal (neg : bool) (s : string) : option f64 :=
  let '(int, rest) := split_digits s in
  let '(frac, rest) := match rest with String "." r => split_digits r | _ => ("", rest) end in
  let digits := int +:+ frac in
  let?o e := parse_exponent rest in
  let?o n := parse_nat digits in
  Some (scaled neg n (e - Z.of_nat (str_len frac))).

Definition parse_f64 (s : string) : option f64 :=
  let '(neg, t) := match s with String "-" r => (true, r) | String "+" r => (false, r) | _ => (false, s) end in
  let lower := str_ascii_lower t in
  if bool_decide (lower = "inf" ∨ lower = "infinity") then Some (S754_infinity neg)
  else if bool_decide (lower = "nan") then Some S754_nan
  else parse_decimal neg t.

Definition js_number (raw : string) : f64 :=
  let t := trim raw in
  if decide (t = "") then S754_zero false else default S754_nan (parse_f64 t).

(** [show] is how a double prints. *)
Definition resolve_prune_ttl_days (show : f64 → string) (ttl_days : option f64) (env_val : option string) : result f64 string :=
  match ttl_days, env_val with
  | None, (None | Some EmptyString) => Ok DEFAULT_PRUNE_TTL_DAYS
  | _, _ =>
      let days := match ttl_days with Some d => d | None => js_number (default "" env_val) end in
      if negb (f64_is_finite days) || SFleb days (S754_zero false)
      then Err match ttl_days with Some d => show d | None => default "" env_val end
      else Ok days
  end.

(** [(days * 24.0 * 60.0 * 60.0 * 1000.0) as i64] *)
Definition f64_mul (a b : f64) : f64 := SFmul 53 1024 a b.
Definition max_age_of (days : f64) : Z :=
  f64_as_i64 (f64_mul (f64_mul (f64_mul (f64_mul days (u64_as_f64 24)) (u64_as_f64 60)) (u64_as_f64 60)) (u64_as_f64 1000)).

Example parses : parse_f64 "7" = Some DEFAULT_PRUNE_TTL_DAYS ∧ parse_f64 "70e-1" = parse_f64 "+7.0" ∧
  parse_f64 "0.1" = Some (S754_finite false 7205759403792794 (-56)) ∧ parse_f64 "." = None ∧ parse_f64 "1e" = None ∧
  parse_f64 "-.5" = Some (SFopp (SFdiv 53 1024 (u64_as_f64 1) (u64_as_f64 2))) ∧ parse_f64 "7d" = None.
Proof. vm_compute. split_and!; reflexivity. Qed.

Example week : max_age_of DEFAULT_PRUNE_TTL_DAYS = 604800000%Z.
Proof. vm_compute. reflexivity. Qed.

(** ** The daemon *)

#[local] Existing Instances Store.M_ret Store.M_bind.

Record Daemon := mkDaemon {
  world : World Cont;
  prune_task : option Z              (* the scheduled periodic prune, and its age *)
}.

Section daemon.
Context {CC : CryptoCrates} {HIS : HashIter string} {HIN : HashIter N} {SE : Store.SqlEngine}.
Context (to_string to_string_pretty : Value → string) (from_str : string → option Value) (from_slice : bytes → option Value).
Context (error_text : Store.StoreError → string).
Implicit Types w : World Cont.

(** [on_pair_begin], [on_pair_cancel] and [on_cli_disconnect] change the pairing
    slot, its owner and its pending client, which are not part of this world but of
    [PairRuntime.World], where the three handlers are ([PairRuntime.on_event] and the
    tasks it starts).  What they do to this world is a step of its own here, at any
    time: a promoted client joins the pool ([RelayManager.step_register]), the store
    is written ([o_pair_store]), a frame goes to the client ([o_pair_send]). *)
Definition pair_handler (_ : N) (_ : IpcMessage) w : World Cont := w.
Definition cli_handler (_ : N) w : World Cont := w.

Definition on_message (ch : Choice) (runner : N) (msg : IpcMessage) (binary : option bytes) w : bool * World Cont :=
  (true, dispatch_ipc to_string from_slice error_text pair_handler pair_handler ch runner msg binary w).
Definition on_connect (_ : N) w : World Cont := w.
Definition on_disconnect (runner : N) w : World Cont := handle_runner_disconnect cli_handler runner w.

Definition run_startup_cleanup (ch : Choice) (max_age_ms : Z) w : World Cont :=
  (with_store (_ ← Store.prune_old_sessions (ch_store ch) max_age_ms;
               _ ← Store.sweep_orphaned_sidecars (ch_store ch);
               Store.sweep_orphaned_confirmations (ch_store ch)) w).2.

Definition run_periodic_prune (ch : Choice) (max_age_ms : Z) w : World Cont :=
  (with_store (Store.prune_old_sessions (ch_store ch) max_age_ms) w).2.

Definition daemon_new (st : Store.Store) : Daemon := mkDaemon (world_new st) None.

(** What a previous daemon left running is marked stopped, one statement each. *)
Definition mark_stopped (ch : Choice) (sid : string) w : World Cont :=
  (with_store (Store.update_session_state (ch_store ch) sid "stopped") w).2.
Definition mark_stale (ch : Choice) w : World Cont :=
  let '(r, w) := with_store (Store.list_sessions (ch_store ch)) w in
  foldl (λ w sid, mark_stopped ch sid w) w (Store.sid <$> filter (λ s, Store.state s = "running") (ok_or_default [] r)).

(** [bound] is what binding the socket answers. *)
Definition start (ch : Choice) (bound : result string string) w : result string string * World Cont :=
  let w := mark_stale ch w in
  match bound with
  | Ok path => (Ok path, upd (λ c, mkCore (heap c) (clients c) (removing_daemon_ids c) (store c) (tokens c) (session_manager c)
                                     (worktree_manager c) (Some path) (signalled c) (tasks c)) w)
  | Err e => (Err e, w)
  end.

Definition start_auto_cleanup (show : f64 → string) (ch : Choice) (ttl_days : option f64) (env_val : option string) (d : Daemon) : Daemon :=
  let days := match resolve_prune_ttl_days show ttl_days env_val with Ok days => days | Err _ => DEFAULT_PRUNE_TTL_DAYS end in
  mkDaemon (run_startup_cleanup ch (max_age_of days) (world d)) (Some (max_age_of days)).
Definition stop_auto_cleanup (d : Daemon) : Daemon := mkDaemon (world d) None.
Definition auto_cleanup_scheduled (d : Daemon) : bool := bool_decide (is_Some (prune_task d)).

(** The interval's tick. *)
Definition prune_tick (ch : Choice) (d : Daemon) : Daemon :=
  match prune_task d with Some age => mkDaemon (run_periodic_prune ch age (world d)) (prune_task d) | None => d end.

(** The backfill, whatever comes of it; then every saved pairing. *)
Definition reconnect_saved_relays (ch : Choice) w : World Cont :=
  spawn [SReconnectSaved] (with_store (Store.migrate_pairing_ids (ch_store ch)) w).2.

Definition send_input (sid : string) (data : bytes) w : World Cont :=
  match IpcServer.find_runner_by_sid sid w with
  | Some runner => RelayManager.send_ipc to_string runner (Input sid (b64std_encode data)) w
  | None => w
  end.
Definition resize_session (sid : string) (cols rows : N) w : World Cont :=
  match IpcServer.find_runner_by_sid sid w with
  | Some runner => RelayManager.send_ipc to_string runner (Resize sid cols rows) w
  | None => w
  end.

Definition set_repo_root (ch : Choice) (repo_root : Worktree.Path) w : bool * World Cont :=
  match Worktree.manager_new (ch_worktree ch) repo_root with
  | Some m => (true, upd (set_worktrees (Some m)) w)
  | None => (false, w)
  end.

Definition get_records_since (ch : Choice) (sid : string) (after_seq limit : Z) w : list Store.StoredRecord * World Cont :=
  let '(r, w) := with_store (Store.get_session_db (ch_store ch) sid) w in
  (match ok_or_default None r with Some db => Store.get_records_from db after_seq limit | None => [] end, w).

Definition get_active_pairing_ids w : list string := omap (λ k, c_daemon_id <$> config_of w k) (clients (core w)).

(** Shutdown, up to the sections of the relay manager; [stop_sockets] is the end. *)
Definition kill_all w : World Cont :=
  foldl (λ w r, (kill_runner (Runners.r_sid r) w).2) w (Runners.list_runners (session_manager (core w))).
Definition stop (d : Daemon) : Daemon := mkDaemon (spawn [SStop] (kill_all (world d))) None.
Definition stop_sockets w : World Cont := IpcServer.server_stop w.

(** ** Steps *)

(** A tracked child exits. *)
Definition child_exits (p : nat) (code : option Z) w : World Cont :=
  let m := session_manager (core w) in
  match Runners.children m !! p with
  | Some (Runners.mkChild pid None) =>
      upd (set_sessions (Runners.mkManager (Runners.runners m) (<[p := Runners.mkChild pid (Some code)]> (Runners.children m)))) w
  | _ => w
  end.

(** What is not the relay manager's own: the socket, the children, the daemon's
    interface, and the pairing tasks' effects. *)
Inductive other : World Cont → World Cont → Prop :=
| o_accept w : other w (IpcServer.accept on_connect w)
| o_read ch id chunk w : other w (IpcServer.on_read from_slice (on_message ch) on_disconnect id chunk w)
| o_read_error id w : other w (IpcServer.on_read_error on_disconnect id w)
| o_written id ok w : other w (IpcServer.writer_step id ok w)
| o_child p code w : other w (child_exits p code w)
| o_start ch bound w : other w (start ch bound w).2
| o_cleanup ch age w : other w (run_startup_cleanup ch age w)
| o_prune ch age w : other w (run_periodic_prune ch age w)
| o_migrate ch w : other w (with_store (Store.migrate_pairing_ids (ch_store ch)) w).2
| o_create ch sid cwd opts w : other w (create_session ch sid cwd opts w).2
| o_input sid data w : other w (send_input sid data w)
| o_resize sid cols rows w : other w (resize_session sid cols rows w)
| o_repo ch p w : other w (set_repo_root ch p w).2
| o_kill_all w : other w (kill_all w)
| o_stopped w : other w (stop_sockets w)
| o_pair_store {A} (m : Store.M A) w : other w (with_store m w).2
| o_pair_send runner msg w : other w (RelayManager.send_ipc to_string runner msg w).

Definition reachable (st : Store.Store) : World Cont → Prop :=
  rtc (world_step to_string (dispatch_step to_string to_string_pretty from_str error_text) CControl from_slice other) (world_new st).
End daemon.

(** ** Custody of the relay clients *)

Section accounted.
Context {CC : CryptoCrates} {HIS : HashIter string} {HIN : HashIter N} {SE : Store.SqlEngine}.
Context (to_string to_string_pretty : Value → string) (from_str : string → option Value) (from_slice : bytes → option Value).
Context (error_text : Store.StoreError → string).
Implicit Types w : World Cont.

Lemma mild_same w w' : core w' = core w → mild w w'.
Proof. intros E. unfold mild. rewrite E. apply mild_refl. Qed.

Lemma mild_teardown id w : mild w (IpcServer.teardown on_disconnect id w).
Proof. unfold IpcServer.teardown. case_decide; by apply mild_same. Qed.

Lemma mild_frames ch id frames w : mild w (IpcServer.dispatch_frames from_slice (on_message to_string from_slice error_text ch) id frames w).
Proof.
  revert w. induction frames as [|f frames IH]; intros w; [apply mild_refl|]. cbn.
  destruct (from_slice (json f) ≫= parse_ipc_message) as [msg|]; [|apply IH].
  eapply mild_trans; [|apply IH]. eapply mild_trans; [|apply mild_ipc; intros; apply mild_refl]. apply mild_same. by destruct msg.
Qed.

Lemma mild_read ch id chunk w : mild w (IpcServer.on_read from_slice (on_message to_string from_slice error_text ch) on_disconnect id chunk w).
Proof.
  unfold IpcServer.on_read. destruct (IpcServer.readers w !! id) as [d|]; [|apply mild_refl]. destruct chunk; [apply mild_teardown|].
  destruct (decode d _) as [[frames|e] d'].
  - eapply mild_trans; [|apply mild_frames]. by apply mild_same.
  - eapply mild_trans; [|apply mild_teardown]. by apply mild_same.
Qed.

Lemma mild_foldl {A} (f : World Cont → A → World Cont) l w : (∀ w a, mild w (f w a)) → mild w (foldl f w l).
Proof. intros H. revert w. induction l as [|a l IH]; intros w; [apply mild_refl|]. cbn. eapply mild_trans; [apply H|apply IH]. Qed.

Lemma mild_mark_stale ch w : mild w (mark_stale ch w).
Proof.
  unfold mark_stale. rewrite with_store_run. eapply mild_trans; [|apply mild_foldl; intros; apply mild_store]. by apply mild_upd.
Qed.

Lemma mild_other w w' : other to_string from_slice error_text w w' → mild w w'.
Proof.
  destruct 1; try apply mild_store; try (apply mild_same; done).
  - apply mild_read.
  - unfold IpcServer.on_read_error. destruct (IpcServer.readers w !! id); [apply mild_teardown|apply mild_refl].
  - unfold IpcServer.writer_step. destruct (IpcServer.conns w !! id) as [[c [|? q] []]|]; by apply mild_same.
  - unfold child_exits. destruct (Runners.children _ !! p) as [[pid [|]]|]; try apply mild_refl. by apply mild_upd.
  - unfold start. destruct bound; [|apply mild_mark_stale]. eapply mild_trans; [apply mild_mark_stale|]. by apply mild_upd.
  - apply mild_create.
  - unfold send_input. destruct (IpcServer.find_runner_by_sid sid w); [apply mild_send_ipc|apply mild_refl].
  - unfold resize_session. destruct (IpcServer.find_runner_by_sid sid w); [apply mild_send_ipc|apply mild_refl].
  - unfold set_repo_root. destruct (Worktree.manager_new _ p); [by apply mild_upd|apply mild_refl].
  - apply mild_foldl. intros. apply mild_kill.
  - apply mild_send_ipc.
Qed.

(** C2. Every relay client made for the daemon's pool stays accounted for, whatever
    runs in whatever order: socket reads of any bytes, every command of runners and
    frontends, relay clients that dial, drop and call back, store failures, pairings
    added, removed, renamed and reconnected, start-up, cleanup and shutdown.  In every
    reachable state of the daemon each such client is in the pool, is about to be
    saved there, or is disposed of or about to be; the pool has no client twice and
    none that is still waiting to be saved; a daemon id is marked as being removed
    exactly while one removal of it is under way; and a removal only drops a client
    that is disposed of or about to be.  (A client of the pairing slot, until it is
    promoted, is held by the pairing runtime: [PairRuntime.custody].) *)
Theorem clients_accounted st w :
  reachable to_string to_string_pretty from_str from_slice error_text st w →
  (∀ k e, heap (core w) !! k = Some e → k ∈ clients (core w) ∨ SSave k ∈ all w ∨ SDispose k ∈ all w ∨ doomed (e_life e)) ∧
  NoDup (clients (core w)) ∧ (∀ k, k ∈ clients (core w) → is_Some (heap (core w) !! k) ∧ SSave k ∉ all w) ∧
  NoDup (omap released (all w)) ∧ (∀ did, did ∈ removing_daemon_ids (core w) ↔ did ∈ omap released (all w)) ∧
  (∀ did k, SDrop did k ∈ all w → SDispose k ∈ all w ∨ ∃ e, heap (core w) !! k = Some e ∧ doomed (e_life e)).
Proof.
  apply pool_custody; [|apply mild_other]. intros ch n d w1 w2 more. apply dispatch_benign.
Qed.
End accounted.

(** ** Starting, cleaning, stopping *)

Section life.
Context {CC : CryptoCrates} {HIS : HashIter string} {HIN : HashIter N} {SE : Store.SqlEngine}.
Implicit Types w : World Cont.

Lemma mark_stopped_all ch sids : ∀ w,
  let w' := foldl (λ w sid, mark_stopped ch sid w) w sids in
  (∀ x, x ∉ sids → rows w' !! x = rows w !! x) ∧ session_manager (core w') = session_manager (core w) ∧ tasks (core w') = tasks (core w) ∧
  (∀ x, is_Some (rows w !! x) → is_Some (rows w' !! x)) ∧
  ((∀ n, Store.e_fail (ch_store ch) n = false) → ∀ x m, x ∈ sids → rows w' !! x = Some m → Store.state m = "stopped").
Proof.
  induction sids as [|sid sids IH]; intros w; cbn [foldl].
  - split_and!; [done|done|done|done|by intros _ x m ?%elem_of_nil].
  - destruct (update_state_rows ch sid "stopped" w) as (H1 & H2 & H3 & H4). fold (mark_stopped ch sid w) in *.
    destruct (IH (mark_stopped ch sid w)) as (I1 & I2 & I3 & I4 & I5). split_and!; [|by rewrite I2|by rewrite I3| |].
    + intros x [Hx Hs]%not_elem_of_cons. by rewrite I1, H2.
    + intros x Hx. apply I4. destruct (decide (x = sid)) as [->|Hne]; [|by rewrite (H2 x Hne)]. destruct Hx as [m Hm].
      unfold state_of in H1. rewrite Hm in H1. destruct (rows (mark_stopped ch sid w) !! sid); [done|]. by destruct (Store.e_fail _ _).
    + intros He x m Hx Hm. destruct (decide (x ∈ sids)) as [Hs|Hs]; [by eapply I5|]. apply elem_of_cons in Hx as [->|]; [|done].
      rewrite I1 in Hm by done. rewrite He in H1. unfold state_of in H1. rewrite Hm in H1. destruct (rows w !! sid); [|done]. by injection H1.
Qed.

(** After [start] no session of an earlier daemon is taken for a running one.  When
    the store answers, every session that was marked running is marked stopped and none
    runs; whatever fails, sessions that were not running, the runners and the tasks are
    untouched, and the socket path is recorded exactly when the bind succeeded. *)
Theorem starts_clean ch bound w : StoreLaws.inv (store (core w)) →
  let '(r, w') := start ch bound w in
  r = bound ∧ tasks (core w') = tasks (core w) ∧ session_manager (core w') = session_manager (core w) ∧
  (∀ path, bound = Ok path → socket_path (core w') = Some path) ∧
  (∀ x, state_of w x ≠ Some "running" → rows w' !! x = rows w !! x) ∧
  ((∀ n, Store.e_fail (ch_store ch) n = false) → ∀ x, state_of w' x ≠ Some "running" ∧ (state_of w x = Some "running" → state_of w' x = Some "stopped")).
Proof.
  intros I. unfold start, mark_stale. rewrite with_store_run. unfold Store.list_sessions. rewrite StoreLaws.query_run.
  cbn [Store.ticks Store.set_ticks]. rewrite Nat.sub_succ, Nat.sub_0_r. set (ans := if Store.e_fail _ _ then _ else _).
  assert (ans.2 = Store.set_ticks (S (Store.ticks (store (core w)))) (store (core w))) as -> by (unfold ans; by destruct (Store.e_fail _ _)).
  set (w1 := upd _ w). set (sids := Store.sid <$> filter _ _).
  assert (∀ x, x ∈ sids → state_of w x = Some "running") as H1.
  { intros x (m & -> & [Hr Hm]%list_elem_of_filter)%list_elem_of_fmap. unfold ans in Hm. destruct (Store.e_fail _ _); [by apply elem_of_nil in Hm|].
    cbn in Hm. rewrite Store.order_by_perm in Hm. apply list_elem_of_fmap in Hm as ([x m'] & -> & Hx%StoreLaws.scan_lookup). cbn in *.
    unfold state_of, rows. rewrite (StoreLaws.i_keyed _ I x m' Hx), Hx. cbn. by rewrite Hr. }
  assert ((∀ n, Store.e_fail (ch_store ch) n = false) → ∀ x, state_of w x = Some "running" → x ∈ sids) as H2.
  { intros He x Hx. unfold state_of in Hx. destruct (rows w !! x) as [m|] eqn:Em; [|done]. injection Hx as Hx.
    apply list_elem_of_fmap. exists m. split; [symmetry; by apply (StoreLaws.i_keyed _ I)|]. apply list_elem_of_filter. split; [done|].
    unfold ans. rewrite He. cbn. rewrite Store.order_by_perm. apply list_elem_of_fmap. exists (x, m). split; [done|]. by apply StoreLaws.scan_lookup. }
  destruct (mark_stopped_all ch sids w1) as (I1 & I2 & I3 & I4 & I5). set (w2 := foldl _ w1 sids) in *.
  change (rows w1) with (rows w) in I1, I4.
  assert (∀ x, state_of w x ≠ Some "running" → rows w2 !! x = rows w !! x) as H3 by (intros x Hx; apply I1; by intros ?%H1).
  assert ((∀ n, Store.e_fail (ch_store ch) n = false) → ∀ x, state_of w2 x ≠ Some "running" ∧
    (state_of w x = Some "running" → state_of w2 x = Some "stopped")) as H4.
  { intros He x. unfold state_of at 1 3. destruct (decide (x ∈ sids)) as [Hx|Hx].
    - destruct (I4 x) as [m Em]; [apply H1 in Hx; unfold state_of in Hx; by destruct (rows w !! x)|].
      rewrite Em. cbn. by rewrite (I5 He x m Hx Em).
    - rewrite I1 by done. fold (state_of w x). split; [by intros ?%(H2 He)|by intros ?%(H2 He)]. }
  destruct bound as [path|e]; split_and!; try done. by intros p [= ->].
Qed.

(** What a cleanup must leave: sessions that run or are recent, their files, every
    pairing, push token and confirmation of a pairing. *)
Definition spares (cutoff : Z) (s0 s : Store.Store) : Prop :=
  (∀ x m, Store.sessions s0 !! x = Some m → Store.state m = "running" ∨ (cutoff ≤ Store.updated_at m)%Z →
     Store.sessions s !! x = Some m ∧ Store.dir s !! Store.session_db_path x = Store.dir s0 !! Store.session_db_path x) ∧
  Store.pairings s = Store.pairings s0 ∧ Store.push_tokens s = Store.push_tokens s0 ∧
  (∀ k c, Store.confirmations s0 !! k = Some c → is_Some (Store.pairings s0 !! k.1) → Store.confirmations s !! k = Some c).

Lemma spares_refl cutoff s : spares cutoff s s.
Proof. by split_and!. Qed.

Lemma spares_prune ch age s : spares (Store.e_now (ch_store ch) - age) s (Store.prune_old_sessions (ch_store ch) age s).2.
Proof.
  destruct (decide (0 < age)%Z) as [Ha|Ha].
  - destruct (StoreLaws.prune_pruned (ch_store ch) age s Ha) as (H1 & _ & H3 & H4 & H5). split; [|by rewrite H3, H4, H5].
    intros x m Hm Hk. destruct (H1 x) as [[E1 E2]|(m' & Hr & Ho1 & Ho2)]; [by rewrite E1|].
    assert (m' = m) as -> by congruence. destruct Hk; [done|lia].
  - unfold Store.prune_old_sessions. rewrite decide_True by lia. apply spares_refl.
Qed.

Lemma spares_sidecars cutoff s0 ch : StoreLaws.keeps (spares cutoff s0) (Store.sweep_orphaned_sidecars (ch_store ch)).
Proof.
  unfold Store.sweep_orphaned_sidecars. apply StoreLaws.keeps_bind; [by apply StoreLaws.keeps_tick|]. intros n.
  destruct (Store.e_fail _ _); [apply StoreLaws.keeps_ret|]. intros s H. rewrite StoreLaws.store_bind_run. cbn [Store.gets].
  set (names := filter _ _). revert s H names. intros s H names.
  assert (StoreLaws.keeps (spares cutoff s0) (Store.for_each names (Store.unlink_retry (ch_store ch));; mret (length names))) as Hk; [|by apply Hk].
  apply StoreLaws.keeps_bind; [|intros _; apply StoreLaws.keeps_ret]. apply StoreLaws.keeps_for_each. intros name Hin.
  apply list_elem_of_filter in Hin as [Ho _]. unfold Store.orphaned in Ho. destruct (Store.sidecar_sid name) as [y|] eqn:Ey; [|done].
  apply StoreLaws.keeps_unlink_attempts; [done|]. clear -Ey. intros s (H1 & H2 & H3 & H4). split_and!; try done.
  intros x m Hm Hk. destruct (H1 x m Hm Hk) as [E1 E2]. split; [done|]. cbn. rewrite lookup_delete_ne; [done|]. intros ->.
  by eapply StoreLaws.path_not_sidecar.
Qed.

Lemma spares_confirmations cutoff s0 ch : StoreLaws.keeps (spares cutoff s0) (Store.sweep_orphaned_confirmations (ch_store ch)).
Proof.
  unfold Store.sweep_orphaned_confirmations. apply StoreLaws.keeps_bind; [by apply StoreLaws.keeps_gets|]. intros n.
  apply StoreLaws.keeps_bind; [|intros _; apply StoreLaws.keeps_ret]. apply StoreLaws.keeps_execute; [done|].
  intros s (H1 & H2 & H3 & H4). split_and!; try done. intros k c Hc Hp. cbn. apply map_lookup_filter_Some. split; [by apply H4|].
  cbn. destruct k. by rewrite H2.
Qed.

Lemma cleanup_spares ch age w : spares (Store.e_now (ch_store ch) - age) (store (core w)) (store (core (run_startup_cleanup ch age w))).
Proof.
  unfold run_startup_cleanup. rewrite with_store_run, StoreLaws.store_bind_run. cbn [snd core]. pose proof (spares_prune ch age (store (core w))) as H.
  change (store (core (upd (set_store ?s) w))) with s.
  destruct (Store.prune_old_sessions _ _ _) as [[n|e] s1]; [|done]. cbn [snd] in *.
  assert (StoreLaws.keeps (spares (Store.e_now (ch_store ch) - age) (store (core w)))
    (_ ← Store.sweep_orphaned_sidecars (ch_store ch); Store.sweep_orphaned_confirmations (ch_store ch))) as Hk; [|by apply Hk].
  apply StoreLaws.keeps_bind; [apply spares_sidecars|intros _; apply spares_confirmations].
Qed.

(** No double below zero comes of a product of positive ones. *)
Definition not_negative (f : f64) : Prop := match f with S754_finite true _ _ | S754_infinity true => False | _ => True end.

Lemma mul_not_negative a b : not_negative a → (∃ m e, b = S754_finite false m e) → not_negative (f64_mul a b).
Proof.
  intros Ha (m & e & ->). unfold f64_mul, SFmul. destruct a as [s|[]| |[] ma ea]; try done.
  cbn [xorb]. unfold binary_round_aux. destruct (shr_fexp _ _ _ _ _) as [mrs' e']. destruct (shr_fexp _ _ _ _ _) as [mrs'' e''].
  destruct (shr_m mrs''); try done. by destruct (_ <=? _)%Z.
Qed.

Lemma as_i64_not_negative f : not_negative f → (0 ≤ f64_as_i64 f)%Z.
Proof.
  destruct f as [|[]| |[] m e]; try done. intros _. cbn. apply Z.min_glb; [done|]. case_decide; [|by apply Z.div_pos; [|apply Z.pow_pos_nonneg; lia]].
  apply Z.mul_nonneg_nonneg; [done|by apply Z.pow_nonneg].
Qed.

Lemma max_age_not_negative days : not_negative days → (0 ≤ max_age_of days)%Z.
Proof.
  intros H. apply as_i64_not_negative. repeat (apply mul_not_negative; [|eexists _, _; vm_compute; reflexivity]). done.
Qed.

(** What happens after the cleanup was started and before it is stopped: anything at
    all to the world, and ticks. *)
Inductive goes_on : Daemon → Daemon → Prop :=
| go_world w d : goes_on d (mkDaemon w (prune_task d))
| go_tick ch d : goes_on d (prune_tick ch d).

Lemma goes_on_task d d2 : rtc goes_on d d2 → prune_task d2 = prune_task d.
Proof.
  intros H. induction H as [|d1 d2 d3 H12 _ IH]; [done|]. rewrite IH. destruct H12 as [w' d'|ch d']; [done|].
  unfold prune_tick. destruct (prune_task d') eqn:E; by rewrite ?E.
Qed.

(** C25. No setting of the time to live makes the cleanup dangerous.  Whatever the
    argument and the environment say (nothing, rubbish, zero, negative, infinite or not
    a number), the age used is that of a finite positive number of days, the given one
    when it is valid and seven otherwise, and is not negative.  Until the cleanup is
    stopped, whatever happens meanwhile, that age stays the one in use; and whatever
    fails on the way, the cleanup at start-up and every later tick, from the state it
    finds, spare each session that runs or was updated since the cutoff and its log,
    every pairing and push token, and the confirmations of pairings that exist. *)
Theorem cleanup_is_sane show ch ttl_days env_val d :
  let d' := start_auto_cleanup show ch ttl_days env_val d in
  ∃ days, f64_is_finite days = true ∧ SFleb days (S754_zero false) = false ∧
  match resolve_prune_ttl_days show ttl_days env_val with Ok r => days = r | Err _ => days = DEFAULT_PRUNE_TTL_DAYS end ∧
  (0 ≤ max_age_of days)%Z ∧
  spares (Store.e_now (ch_store ch) - max_age_of days) (store (core (world d))) (store (core (world d'))) ∧
  ∀ d2, rtc goes_on d' d2 → prune_task d2 = Some (max_age_of days) ∧
    ∀ ch2, spares (Store.e_now (ch_store ch2) - max_age_of days) (store (core (world d2))) (store (core (world (prune_tick ch2 d2)))).
Proof.
  intros d'. unfold start_auto_cleanup in d'. set (days := match resolve_prune_ttl_days show ttl_days env_val with Ok _ => _ | Err _ => _ end) in d'.
  assert (f64_is_finite days = true ∧ SFleb days (S754_zero false) = false) as [H1 H2].
  { unfold days, resolve_prune_ttl_days.
    assert (∀ f (e : string), let r := match (if negb (f64_is_finite f) || SFleb f (S754_zero false) then Err e else Ok f) with Ok d => d | Err _ => DEFAULT_PRUNE_TTL_DAYS end in
      f64_is_finite r = true ∧ SFleb r (S754_zero false) = false) as Hf.
    { intros f e. destruct (f64_is_finite f) eqn:E1; [destruct (SFleb f (S754_zero false)) eqn:E2|]; by vm_compute. }
    destruct ttl_days; [apply Hf|]. destruct env_val as [[|c s]|]; [by vm_compute|apply Hf|by vm_compute]. }
  exists days. split; [done|]. split; [done|]. split; [unfold days; by destruct (resolve_prune_ttl_days show ttl_days env_val)|].
  split; [|split; [apply cleanup_spares|]].
  - apply max_age_not_negative. by destruct days as [|[]| |[] m e].
  - intros d2 H. pose proof (goes_on_task _ _ H) as E. cbn in E. split; [done|]. intros ch2.
    unfold prune_tick, run_periodic_prune. rewrite E. cbn [world]. rewrite with_store_run. apply spares_prune.
Qed.

Lemma kill_run sid w : (kill_runner sid w).2 =
  upd (λ c, set_signalled (signalled c ++ option_list (Runners.kill_runner sid (session_manager (core w))).2) c) w.
Proof. unfold kill_runner. by destruct (Runners.kill_runner sid (session_manager (core w))). Qed.

(** The pids shutdown signals. *)
Definition to_signal (m : Runners.Manager) : list N :=
  omap (λ r, (Runners.kill_runner (Runners.r_sid r) m).2) (Runners.list_runners m).

Lemma kill_all_run w : kill_all w = upd (λ c, set_signalled (signalled c ++ to_signal (session_manager (core w))) c) w.
Proof.
  unfold kill_all, to_signal. remember (session_manager (core w)) as m eqn:Em.
  assert (∀ l w, session_manager (core w) = m → foldl (λ w r, (kill_runner (Runners.r_sid r) w).2) w l =
    upd (λ c, set_signalled (signalled c ++ omap (λ r, (Runners.kill_runner (Runners.r_sid r) m).2) l) c) w) as H; [|by apply H].
  clear w Em. induction l as [|r l IH]; intros w E; cbn [foldl omap list_omap].
  - destruct w as [? ? ? ? []]. unfold upd. cbn. by rewrite app_nil_r.
  - rewrite kill_run, E. rewrite IH by done. destruct w as [? ? ? ? []]. unfold upd. cbn. rewrite <-app_assoc.
    by destruct (Runners.kill_runner (Runners.r_sid r) m).2.
Qed.

(** [stop] signals the process of every runner it tracks that still lives and no
    other process, stops the periodic prune, and hands the pool to a task that empties
    it and disposes of each client that was in it. *)
Theorem stops_everything to_string dispatch ch d n :
  let w := world d in
  let d' := stop d in
  (∀ sid r p pid, registered sid w = Some r → Runners.r_sid r = sid → Runners.r_process r = Some p →
     Runners.children (session_manager (core w)) !! p = Some (Runners.mkChild pid None) → pid ∈ signalled (core (world d'))) ∧
  (∀ pid, pid ∈ signalled (core (world d')) → pid ∈ signalled (core w) ∨
     ∃ p, Runners.children (session_manager (core w)) !! p = Some (Runners.mkChild pid None)) ∧
  auto_cleanup_scheduled d' = false ∧ (∀ ch2, prune_tick ch2 d' = d') ∧
  tasks (core (world d')) = tasks (core w) ++ [mkRun 0 [SStop]] ∧
  ∀ w2, step to_string dispatch CControl ch n SStop w2 =
    Some (upd (set_clients []) w2, false, clients (core w2) ≫= λ k, [SDispose k; SDisposed k]) ∧
    clients (core (upd (set_clients []) w2)) = [] ∧
    ∀ k e, heap (core w2) !! k = Some e →
      ∃ w3, step to_string dispatch CControl ch n (SDispose k) w2 = Some (w3, false, []) ∧
        ∃ e', heap (core w3) !! k = Some e' ∧ doomed (e_life e').
Proof.
  intros w d'. unfold d', stop. cbn [world]. fold w. rewrite kill_all_run. split_and!; [| |done|done|done|].
  - intros sid r p pid Hr Hs Hp Hc. cbn. apply elem_of_app. right. apply list_elem_of_omap. exists r. split.
    + apply list_elem_of_omap. exists sid. split; [|exact Hr]. by apply elem_of_set_iter, elem_of_dom_2 with r.
    + unfold Runners.kill_runner. unfold registered, Runners.get_runner in Hr. rewrite Hs, Hr. cbn. rewrite Hp. cbn. by rewrite Hc.
  - intros pid. cbn. intros [H|(r & _ & Hr)%list_elem_of_omap]%elem_of_app; [by left|right]. unfold Runners.kill_runner in Hr.
    destruct (_ ≫= Runners.r_process) as [p|]; [|done]. exists p. cbn in Hr.
    destruct (Runners.children _ !! p) as [[pid' [|]]|]; try done. by injection Hr as ->.
  - intros w2. split; [done|]. split; [done|]. intros k e He. eexists. split; [reflexivity|].
    eexists. split; [cbn; rewrite list_lookup_alter, decide_True by done; unfold core in He; by rewrite He|].
    right. cbn. apply elem_of_app. right. left.
Qed.
End life.

Module Demo.
#[local] Existing Instance DaemonClient.Demo.crates.
#[local] Existing Instance DaemonClient.Demo.iter.
#[local] Existing Instance StoreLaws.Demo.engine.
#[local] Instance iter_n : HashIter N := elements_iter N.
Import RelayManager.Demo.

Definition dispatch := dispatch_step to_string to_string DispatcherLaws.Demo.from_str DispatcherLaws.Demo.error_text.
Abbreviation run ms := (moves dispatch CControl ms (world_new st0)).

(** The saved pairing's client connects; the pairing is removed while the client is
    disposed of. *)
Definition schedule : list (Move (D := Cont)) :=
  [Ask [SAdd (cfg "d1" "Mac")]; Sec 0] ++ ((λ _, Life 0 0) <$> seq 0 6) ++ [Sec 0; Sec 0; Sec 0; Sec 0; Sec 0] ++
  [Ask [SRemove "d1" true]; Sec 1; Sec 1; Sec 1; Sec 1].
Definition last_world : World Cont := default (world_new st0) (run schedule).

Lemma clients_accounted_witness :
  clients (core last_world) = [0] ∧ (∃ e, heap (core last_world) !! 0 = Some e ∧ doomed (e_life e)) ∧
  "d1" ∈ removing_daemon_ids (core last_world).
Proof.
  assert (run schedule = Some last_world) as Hr by (vm_compute; reflexivity).
  assert (all last_world = [SDisposed 0; SDrop "d1" 0] ∧ clients (core last_world) = [0]) as [Ha Hc] by (vm_compute; split; reflexivity).
  revert Hr Ha Hc. generalize last_world. intros w Hr Ha Hc.
  apply (moves_reachable dispatch CControl (other to_string from_slice DispatcherLaws.Demo.error_text)) in Hr.
  destruct (clients_accounted to_string to_string DispatcherLaws.Demo.from_str from_slice DispatcherLaws.Demo.error_text st0 w Hr)
    as (_ & _ & _ & _ & Hrel & Hdrop).
  split; [done|]. split.
  - destruct (Hdrop "d1" 0) as [H|H]; [rewrite Ha; right; left| |done]. rewrite Ha in H.
    by repeat (apply elem_of_cons in H as [H|H]); [..|apply elem_of_nil in H].
  - apply Hrel, list_elem_of_omap. exists (SDrop "d1" 0). rewrite Ha. split; [right; left|done].
Defined.

(** Two sessions of a previous daemon: the running one is stopped. *)
Lemma starts_clean_witness :
  let '(r, w') := start ch (Ok "/run/tp.sock") DispatcherLaws.Demo.w0 in
  r = Ok "/run/tp.sock" ∧ socket_path (core w') = Some "/run/tp.sock" ∧ state_of w' "s1" = Some "stopped".
Proof.
  pose proof (starts_clean ch (Ok "/run/tp.sock") DispatcherLaws.Demo.w0 DispatcherLaws.Demo.st_inv) as H.
  destruct (start ch (Ok "/run/tp.sock") DispatcherLaws.Demo.w0) as [r w']. destruct H as (Hr & _ & _ & Hp & _ & Hs).
  split; [exact Hr|]. split; [by apply Hp|]. apply Hs; [intros n; reflexivity|reflexivity].
Defined.
End Demo.
