(* ===== verification/DaemonLock.v ===== *)
(** * DaemonLock: the daemon's singleton lock.
    [tp-daemon/src/daemon_lock.rs]: a file that holds the pid of the one daemon.  Each
    system call is one step, so that start-ups and shutdowns of several processes
    interleave; a file is named by its inode, since a removed file may still be written
    to by who opened it. *)
From stdpp Require Import base list numbers strings gmap fin_maps relations.
From Stdlib Require Import Lia NArith ZArith Ascii.
From S2P Require Import Prelude Bytes Text.

(** [str::parse::<i32>] and [str::parse::<u32>] *)
Definition parse_i32 (s : string) : option Z :=
  match s with
  | String "-" (String "+" _) => None
  | String "-" r => (λ n, - Z.of_N n)%Z <$> parse_uint 2147483648 r
  | _ => Z.of_N <$> parse_uint 2147483647 s
  end.
Definition parse_u32 (s : string) : option N := parse_uint u32_max s.

(** [n as i32] *)
Definition u32_as_i32 (n : N) : Z := if decide (n < 2 ^ 31)%N then Z.of_N n else Z.of_N n - 2 ^ 32.

(** The lock's directory entry, the contents of the files ever made, and the processes
    that exist (of whatever user). *)
Record Sys := mkSys { entry : option nat; files : list string; alive : gset N }.

(** [is_pid_alive] *)
Definition is_pid_alive (pid : Z) (s : Sys) : bool := bool_decide (0 < pid)%Z && bool_decide (Z.to_N pid ∈ alive s).

Definition pid_line (pid : N) : string := print_dec pid +:+ String (ascii_of_N 10) "".

(** [fs::read_to_string] *)
Definition read_lock (s : Sys) : option string := entry s ≫= λ i, files s !! i.

(** Where a process is; each constructor but the last four is followed by one call. *)
Inductive Phase :=
| Opening (allow_retry : bool)                      (* about to open, [O_CREAT|O_EXCL] *)
| Reading (allow_retry : bool)                      (* the file exists; about to read it *)
| Probing (allow_retry : bool) (existing : Z)       (* about to signal the pid read *)
| Removing                                          (* the file is stale; about to remove it *)
| Writing (i : nat)                                 (* created; about to write our pid *)
| ReleaseRead | ReleaseRemove                       (* releasing *)
| Held | Refused | Failed | Out.

(** [try_acquire] and [release_daemon_lock], call by call; [ok]: whether a call that can
    fail otherwise succeeds. *)
Definition advance (ok : bool) (pid : N) (p : Phase) (s : Sys) : Phase * Sys :=
  match p with
  | Opening retry =>
      match entry s with
      | Some _ => (Reading retry, s)
      | None => if ok then (Writing (length (files s)), mkSys (Some (length (files s))) (files s ++ [""]) (alive s)) else (Failed, s)
      end
  | Reading retry =>
      match (if ok then read_lock s else None) ≫= λ t, parse_i32 (trim t) with
      | Some existing => (Probing retry existing, s)
      | None => (if retry then Removing else Refused, s)
      end
  | Probing retry existing => (if is_pid_alive existing s then Refused else if retry then Removing else Refused, s)
  | Removing => (Opening false, if ok then mkSys None (files s) (alive s) else s)
  | Writing i => if ok then (Held, mkSys (entry s) (<[i := pid_line pid]> (files s)) (alive s)) else (Failed, s)
  | ReleaseRead =>
      match (if ok then read_lock s else None) ≫= λ t, parse_u32 (trim t) with
      | Some p => (if decide (p = pid) then ReleaseRemove else Out, s)
      | None => (Out, s)
      end
  | ReleaseRemove => (Out, if ok then mkSys None (files s) (alive s) else s)
  | Held | Refused | Failed | Out => (p, s)
  end.

Definition read_daemon_lock_pid (s : Sys) : option N := read_lock s ≫= λ t, parse_u32 (trim t).
Definition check_daemon_lock_alive (s : Sys) : option N :=
  let?o pid := read_daemon_lock_pid s in if is_pid_alive (u32_as_i32 pid) s then Some pid else None.

(** A start-up that nobody interleaves with: at most nine calls. *)
Fixpoint run_phase (fuel : nat) (pid : N) (p : Phase) (s : Sys) : Phase * Sys :=
  match fuel with
  | O => (p, s)
  | S fuel => let '(p, s) := advance true pid p s in run_phase fuel pid p s
  end.
Definition acquire_daemon_lock (pid : N) (s : Sys) : Phase * Sys := run_phase 9 pid (Opening true) s.
Definition release_daemon_lock (pid : N) (s : Sys) : Sys := (run_phase 2 pid ReleaseRead s).2.

(** ** Several processes *)

Record World := mkWorld { sys : Sys; procs : gmap N Phase }.

(** Labelled with whether a [read] of the existing file failed. *)
Definition failed_read (ok : bool) (p : Phase) : bool := match p with Reading _ => negb ok | _ => false end.

Inductive lock_step : bool → World → World → Prop :=
| l_start pid s ps : ps !! pid = None → lock_step false (mkWorld s ps)
    (mkWorld (mkSys (entry s) (files s) (alive s ∪ {[pid]})) (<[pid := Opening true]> ps))
| l_call ok pid p s ps : ps !! pid = Some p →
    lock_step (failed_read ok p) (mkWorld s ps) (mkWorld (advance ok pid p s).2 (<[pid := (advance ok pid p s).1]> ps))
| l_release pid s ps : ps !! pid = Some Held → lock_step false (mkWorld s ps) (mkWorld s (<[pid := ReleaseRead]> ps))
| l_exit pid s ps : lock_step false (mkWorld s ps) (mkWorld (mkSys (entry s) (files s) (alive s ∖ {[pid]})) (delete pid ps)).

(** ** Facts *)

Lemma digits_graphic s : all_digits s = true → all_chars is_graphic s = true.
Proof.
  induction s as [|c s IH]; [done|]. cbn. intros [Hc Hs]%andb_true_iff. rewrite IH by done. rewrite andb_true_r.
  unfold is_ascii_digit in Hc. unfold is_graphic. apply andb_true_iff in Hc as [H1 H2].
  apply andb_true_iff. rewrite N.leb_le in *. rewrite N.ltb_lt. lia.
Qed.

Lemma trim_pid_line n : trim (pid_line n) = print_dec n.
Proof. apply trim_line; [apply print_dec_nonempty|apply digits_graphic, digits_print_dec]. Qed.

Lemma parse_i32_print n : (n < 2 ^ 31)%N → parse_i32 (print_dec n) = Some (Z.of_N n).
Proof.
  intros Hn. assert (parse_uint 2147483647 (print_dec n) = Some n) as Hp by (apply parse_print_dec; lia).
  pose proof (digits_print_dec n) as Hd. destruct (print_dec n) as [|c r]; [by vm_compute in Hp|].
  unfold parse_i32. cbn in Hd. apply andb_true_iff in Hd as [Hd _].
  assert (c ≠ "-"%char) as Hc by (by intros ->). rewrite Hp.
  destruct c as [[] [] [] [] [] [] [] []]; done.
Qed.

Lemma parse_u32_print n : (n < 2 ^ 31)%N → parse_u32 (print_dec n) = Some n.
Proof. intros Hn. apply parse_print_dec. unfold u32_max. lia. Qed.

(** The lock is the live process [h]'s. *)
Definition held_by (h : N) (s : Sys) : Prop :=
  (0 < h < 2 ^ 31)%N ∧ h ∈ alive s ∧ read_lock s = Some (pid_line h).

Lemma held_alive h s : held_by h s → check_daemon_lock_alive s = Some h.
Proof.
  intros (Hh & Ha & Hr). unfold check_daemon_lock_alive, read_daemon_lock_pid. rewrite Hr. cbn. rewrite trim_pid_line, parse_u32_print by lia.
  cbn. unfold u32_as_i32, is_pid_alive. rewrite decide_True, N2Z.id by lia. rewrite !bool_decide_eq_true_2; [done|done|lia].
Qed.

(** Where the start-up or shutdown of another process does no harm: it has not decided
    that the file is stale. *)
Definition harmless (h q : N) (p : Phase) : Prop :=
  match p with
  | Opening _ | Reading _ | ReleaseRead | Refused | Failed | Out => True
  | Probing _ e => e = Z.of_N h
  | Removing | Writing _ | ReleaseRemove | Held => False
  end.

(** ... and every call keeps it so, when reading the file does not fail. *)
Lemma advance_harmless h q p s ok : held_by h s → q ≠ h → harmless h q p → failed_read ok p = false →
  harmless h q (advance ok q p s).1 ∧ (advance ok q p s).2 = s.
Proof.
  intros (Hh & Ha & Hr) Hq Hp Hok. assert (is_Some (entry s)) as [i Hi].
  { unfold read_lock in Hr. destruct (entry s); [by eexists|done]. }
  destruct p as [retry|retry|retry e| |j| | | | | |]; cbn in Hp |- *; try done.
  - by rewrite Hi.
  - destruct ok; [|discriminate Hok]. rewrite Hr. cbn. rewrite trim_pid_line, parse_i32_print by lia. done.
  - subst e. unfold is_pid_alive. by rewrite N2Z.id, (bool_decide_eq_true_2 (0 < Z.of_N h)%Z), (bool_decide_eq_true_2 (h ∈ alive s)) by (done || lia).
  - rewrite Hr. destruct ok; cbn; [|done]. rewrite trim_pid_line, parse_u32_print by lia. cbn. by rewrite decide_False by done.
Qed.

Record exclusive (h : N) (w : World) : Prop := mkExclusive {
  x_held : held_by h (sys w);
  x_self : procs w !! h = Some Held;
  x_others : ∀ q p, procs w !! q = Some p → q ≠ h → harmless h q p
}.

Lemma exclusive_step h w w' : exclusive h w → lock_step false w w' → procs w' !! h = Some Held →
  exclusive h w' ∧ entry (sys w') = entry (sys w).
Proof.
  intros [Hh Hs Ho] Hstep Hs'. remember false as b eqn:Hb. destruct Hstep as [pid s ps Hp|ok pid p s ps Hp|pid s ps Hp|pid s ps]; cbn in *.
  - split; [split; cbn; [|done|]|done].
    + destruct Hh as (H1 & H2 & H3). split; [done|]. split; [set_solver|exact H3].
    + intros q p Hq Hne. destruct (decide (q = pid)) as [->|]; [rewrite lookup_insert_eq in Hq; by injection Hq as <-|].
      rewrite lookup_insert_ne in Hq by done. by eapply Ho.
  - destruct (decide (pid = h)) as [->|Hne].
    + rewrite Hs in Hp. injection Hp as <-. cbn in *. split; [|done]. split; cbn; [done|done|]. intros q p Hq Hne. rewrite lookup_insert_ne in Hq by done. by eapply Ho.
    + destruct (advance_harmless h pid p s ok Hh Hne (Ho _ _ Hp Hne) Hb) as [H1 H2]. rewrite H2. split; [|done]. split; cbn; [done|done|].
      intros q p' Hq Hqh. destruct (decide (q = pid)) as [->|]; [rewrite lookup_insert_eq in Hq; by injection Hq as <-|].
      rewrite lookup_insert_ne in Hq by done. by eapply Ho.
  - assert (pid ≠ h) as Hne by (intros ->; by rewrite lookup_insert_eq in Hs'). by destruct (Ho _ _ Hp Hne).
  - assert (pid ≠ h) as Hne by (intros ->; by rewrite lookup_delete_eq in Hs'). split; [split; cbn; [|done|]|done].
    + destruct Hh as (H1 & H2 & H3). split; [done|]. split; [set_solver|exact H3].
    + intros q p Hq Hqh. apply lookup_delete_Some in Hq as [_ Hq]. by eapply Ho.
Qed.

(** While a live daemon holds the lock nobody else gets it.  From any state in which
    the file holds its pid and no other process has already judged the file stale, and
    through any interleaving of the calls of other start-ups, shutdowns and deaths, as
    long as it goes on holding the lock and no read of the file fails, the file stays
    its own, readers find its pid and see it alive, and no other process creates the
    file or holds the lock. *)
Theorem lock_is_exclusive h w w' : exclusive h w →
  rtc (λ a b, lock_step false a b ∧ procs b !! h = Some Held) w w' →
  check_daemon_lock_alive (sys w') = Some h ∧ entry (sys w') = entry (sys w) ∧
  ∀ q p, procs w' !! q = Some p → q ≠ h → p ≠ Held ∧ ∀ i, p ≠ Writing i.
Proof.
  intros Hx Hr. assert (exclusive h w' ∧ entry (sys w') = entry (sys w)) as [[Hh _ Ho] He].
  { induction Hr as [|w1 w2 w3 [Hs Hp] _ IH]; [done|]. destruct (exclusive_step h w1 w2 Hx Hs Hp) as [Hx2 E2]. destruct (IH Hx2) as [H3 E3].
    split; [done|]. by rewrite E3. }
  split; [by apply held_alive|]. split; [done|]. intros q p Hq Hne. specialize (Ho q p Hq Hne). by destruct p.
Qed.

(** Creating the file when there is none. *)
Lemma create_run fuel retry pid s : entry s = None → (0 < pid < 2 ^ 31)%N → pid ∈ alive s →
  ∃ s', run_phase (S (S fuel)) pid (Opening retry) s = (Held, s') ∧ held_by pid s' ∧ alive s' = alive s.
Proof.
  intros He Hp Ha. cbn [run_phase advance]. rewrite He. cbn [run_phase advance].
  assert (∀ n s, run_phase n pid Held s = (Held, s)) as Hstay by (intros n; induction n; intros s0; [done|cbn; done]).
  rewrite Hstay. eexists. split; [reflexivity|]. split; [|done]. split; [done|]. split; [done|]. unfold read_lock. cbn.
  by rewrite list_lookup_insert_eq by (rewrite length_app; cbn; lia).
Qed.

Lemma run_S fuel pid p s : run_phase (S fuel) pid p s = let '(p, s) := advance true pid p s in run_phase fuel pid p s.
Proof. done. Qed.

Lemma refused_run fuel pid s : run_phase fuel pid Refused s = (Refused, s).
Proof. by induction fuel. Qed.

Lemma release_run q h s : held_by h s →
  entry (release_daemon_lock q s) = (if decide (q = h) then None else entry s) ∧ (q ≠ h → release_daemon_lock q s = s).
Proof.
  intros (Hh & _ & Hr). unfold release_daemon_lock. cbn. rewrite Hr. cbn. rewrite trim_pid_line, parse_u32_print by lia. cbn.
  destruct (decide (h = q)) as [->|Hne]; cbn; [by rewrite decide_True|]. by rewrite decide_False by done.
Qed.

(** A start-up that nobody interleaves with gets the lock exactly when the file
    names no live process: it then holds it with its pid readable and alive in it, its
    release removes the file, and no other process's release does; otherwise it is
    refused and changes nothing. *)
Theorem acquire_alone pid s : (0 < pid < 2 ^ 31)%N → pid ∈ alive s →
  let holder := read_lock s ≫= λ t, parse_i32 (trim t) in
  let '(p, s') := acquire_daemon_lock pid s in
  (∃ e, holder = Some e ∧ is_pid_alive e s = true ∧ p = Refused ∧ s' = s) ∨
  ((∀ e, holder = Some e → is_pid_alive e s = false) ∧ p = Held ∧ held_by pid s' ∧ alive s' = alive s ∧
   check_daemon_lock_alive s' = Some pid ∧ entry (release_daemon_lock pid s') = None ∧
   ∀ q, q ≠ pid → release_daemon_lock q s' = s').
Proof.
  intros Hp Ha holder. unfold acquire_daemon_lock.
  assert (∀ s', held_by pid s' → check_daemon_lock_alive s' = Some pid ∧ entry (release_daemon_lock pid s') = None ∧
    ∀ q, q ≠ pid → release_daemon_lock q s' = s') as Hrel.
  { intros s' Hs'. split; [by apply held_alive|]. split; [by rewrite (proj1 (release_run pid pid s' Hs')), decide_True|].
    intros q. by apply release_run. }
  destruct (entry s) as [i|] eqn:Ei.
  - rewrite !(run_S _ pid (Opening true)). cbn [advance]. rewrite Ei, run_S. cbn [advance]. fold holder.
    set (s0 := mkSys None (files s) (alive s)).
    destruct holder as [e|]; cbv beta iota.
    + rewrite run_S. cbn [advance]. destruct (is_pid_alive e s) eqn:Ea; [rewrite refused_run; left; by exists e|]. rewrite run_S. cbn [advance]. fold s0.
      destruct (create_run 3 false pid s0) as (s' & -> & Hs & Hal); [done..|].
      right. split; [by intros e' [= <-]|]. split_and!; try done; by apply Hrel.
    + rewrite run_S. cbn [advance]. fold s0. destruct (create_run 4 false pid s0) as (s' & -> & Hs & Hal); [done..|].
      right. split; [done|]. split_and!; try done; by apply Hrel.
  - destruct (create_run 7 true pid s Ei Hp Ha) as (s' & -> & Hs & Hal). right. assert (holder = None) as -> by (unfold holder, read_lock; by rewrite Ei).
    split; [done|]. split_and!; try done; by apply Hrel.
Qed.

Module Demo.
Definition empty : Sys := mkSys None [] ∅.

(** A daemon that crashed left its pid behind. *)
Definition crashed : Sys := mkSys (Some 0) [pid_line 41] {[7%N]}.
Lemma acquire_alone_witness : (acquire_daemon_lock 7 crashed).1 = Held ∧ check_daemon_lock_alive (acquire_daemon_lock 7 crashed).2 = Some 7%N.
Proof.
  pose proof (acquire_alone 7 crashed ltac:(lia) ltac:(set_solver +)) as H. destruct (acquire_daemon_lock 7 crashed) as [p s'].
  destruct H as [(e & He & Ha & _)|(_ & -> & _ & _ & H & _)]; [|by split]. exfalso. revert He Ha.
  assert (read_lock crashed ≫= (λ t, parse_i32 (trim t)) = Some 41%Z) as -> by (vm_compute; reflexivity). intros [= <-]. vm_compute. discriminate.
Defined.

(** Calls in order: who, and whether the call succeeds. *)
Definition call (w : World) (c : N * bool) : World :=
  match procs w !! c.1 with
  | Some p => mkWorld (advance c.2 c.1 p (sys w)).2 (<[c.1 := (advance c.2 c.1 p (sys w)).1]> (procs w))
  | None => mkWorld (mkSys (entry (sys w)) (files (sys w)) (alive (sys w) ∪ {[c.1]})) (<[c.1 := Opening true]> (procs w))
  end.
Definition calls (cs : list (N * bool)) : World := foldl call (mkWorld empty ∅) cs.

(** Process 7 starts and holds the lock; process 9 is turned away. *)
Definition first : World := calls [(7, true); (7, true); (7, true)]%N.
Definition second : World := calls [(7, true); (7, true); (7, true); (9, true); (9, true); (9, true); (9, true)]%N.

Lemma call_step w c : (∀ r, procs w !! c.1 = Some (Reading r) → c.2 = true) → lock_step false w (call w c).
Proof.
  destruct w as [s ps], c as [q ok]. unfold call. cbn. intros Hr. destruct (ps !! q) as [p|] eqn:Ep; [|by apply l_start].
  assert (failed_read ok p = false) as Hf by (destruct p; cbn; try done; rewrite (Hr _ eq_refl); done).
  pose proof (l_call ok q p s ps Ep) as H. by rewrite Hf in H.
Qed.

Lemma lock_is_exclusive_witness : check_daemon_lock_alive (sys second) = Some 7%N ∧ procs second !! 9%N = Some Refused.
Proof.
  split; [|vm_compute; reflexivity]. assert (exclusive 7 first) as Hx.
  { split; [split; [lia|]; split; [vm_compute; reflexivity|vm_compute; reflexivity]|vm_compute; reflexivity|].
    intros q p Hq Hne. exfalso. revert Hq. change (procs first) with (<[7%N := Held]> (<[7%N := Writing 0]> (<[7%N := Opening true]> (∅ : gmap N Phase)))).
    by rewrite !lookup_insert_ne, lookup_empty by done. }
  refine (proj1 (lock_is_exclusive 7 first second Hx _)).
  change second with (foldl call first [(9, true); (9, true); (9, true); (9, true)]%N). cbn [foldl].
  do 4 (match goal with |- rtc _ ?w _ => apply (rtc_l _ _ (call w (9%N, true))); [split; [apply call_step; done|vm_compute; reflexivity]|] end).
  apply rtc_refl.
Defined.

(** Two daemons that start together can both hold the lock: the file exists before it
    has a pid in it, and is then taken for a stale one. *)
Example two_holders :
  let w := calls [(7, true); (9, true); (7, true); (9, true); (9, true); (9, true); (9, true); (9, true); (7, true)]%N in
  procs w !! 7%N = Some Held ∧ procs w !! 9%N = Some Held ∧ alive (sys w) = {[7; 9]}%N.
Proof. vm_compute. split_and!; reflexivity. Qed.

(** ... and the second of two that find a stale file can remove the first one's. *)
Example two_stale :
  let start := mkWorld (mkSys (Some 0) [pid_line 41] ∅) ∅ in
  let look p := [(p, true); (p, true); (p, true); (p, true)]%N in
  let take p := [(p, true); (p, true); (p, true)]%N in
  let w := foldl call start (look 7%N ++ look 9%N ++ take 7%N ++ take 9%N) in
  procs w !! 7%N = Some Held ∧ procs w !! 9%N = Some Held.
Proof. vm_compute. split; reflexivity. Qed.
End Demo.
