(* ===== verification/PushSeal.v ===== *)
(** * PushSeal: the push-token sealer of [rust/tp-relay/src/push_seal.rs].
    Blobs are ["tpps1.<version>.<base64(nonce || ct)>"], the prefix being the
    associated data; keys are derived per version and cached. *)
From stdpp Require Import base list numbers strings gmap fin_maps.
From Stdlib Require Import Lia NArith Ascii.
From S2P Require Import Prelude Bytes Text Codec Concrete Crypto.

Definition BLOB_PREFIX : string := "tpps1.".
Definition SECRET_MIN_CHARS : nat := 32.
Definition DEFAULT_VERSION : N := 1.

Inductive UnsealResult :=
| Unsealed (token : string)        (* [Ok] *)
| Legacy
| ParseError
| UnsealFailed.

Record PushSealer := mkSealer {
  current_secret : bytes;
  prev_secret : option bytes;
  version : N;
  ephemeral : bool;
  key_cache : gmap N bytes
}.

(** The three [TP_RELAY_PUSH_SEAL_*] variables are arguments ([""] when unset),
    as are the 32 bytes [OsRng] would supply. *)
Definition new (secret secret_prev : option string) (ver : option N)
    (env_secret env_prev env_version : string) (random : bytes) : PushSealer :=
  let provided := default env_secret secret in
  let '(cur, eph) :=
    if decide (SECRET_MIN_CHARS ≤ str_len provided) then (as_bytes provided, false) else (random, true) in
  let raw := match secret_prev with
             | Some s => Some s
             | None => if decide (env_prev = "") then None else Some env_prev
             end in
  let prev := match raw with
              | Some s => if decide (SECRET_MIN_CHARS ≤ str_len s) then Some (as_bytes s) else None
              | None => None
              end in
  let resolved :=
    match ver with
    | Some v => if decide (0 < v)%N then v else DEFAULT_VERSION
    | None =>
        if decide (env_version = "") then DEFAULT_VERSION
        else match parse_uint u32_max env_version with
             | Some v => if decide (0 < v)%N then v else DEFAULT_VERSION
             | None => DEFAULT_VERSION
             end
    end in
  mkSealer cur prev resolved eph ∅.

Definition blob_prefix (v : N) : string := BLOB_PREFIX +:+ print_dec v.

(** Display of [TpError] (error.rs). *)
Definition tp_error_to_string (e : TpError) : string :=
  match e with
  | Frame m => "frame error: " +:+ m
  | Codec m => "codec error: " +:+ m
  | InvalidInput m => "invalid input: " +:+ m
  | Crypto m => "crypto error: " +:+ m
  | Pairing m => "pairing error: " +:+ m
  end.

(** Which raw secret covers a key version ([wrapping_sub] on u32). *)
Definition raw_secret (self : PushSealer) (v : N) : option bytes :=
  if decide (v = version self) then Some (current_secret self)
  else if decide (v = (version self + u32_max) mod 2 ^ 32 ∧ 0 < version self)%N then prev_secret self
  else None.

Section sealer.
Context {C : CryptoCrates}.

Definition get_key (self : PushSealer) (v : N) : option bytes * PushSealer :=
  match key_cache self !! v with
  | Some k => (Some k, self)
  | None =>
      match raw_secret self v with
      | None => (None, self)
      | Some raw =>
          let k := derive_push_seal_key raw in
          (Some k, mkSealer (current_secret self) (prev_secret self) (version self) (ephemeral self)
                     (<[v := k]> (key_cache self)))
      end
  end.

Definition seal (self : PushSealer) (token : string) (nonce : bytes) : result string string * PushSealer :=
  match get_key self (version self) with
  | (None, self) => (Err "PushSealer: could not derive current key", self)
  | (Some k, self) =>
      let prefix := blob_prefix (version self) in
      (match seal_with_aad (as_bytes token) k (as_bytes prefix) nonce with
       | Ok b64 => Ok (prefix +:+ "." +:+ b64)
       | Err e => Err ("PushSealer: seal_with_aad failed: " +:+ tp_error_to_string e)
       end, self)
  end.

Definition unseal (self : PushSealer) (blob : string) : UnsealResult * PushSealer :=
  match strip_prefix BLOB_PREFIX blob with
  | None => (Legacy, self)
  | Some after_magic =>
      match split_once "."%char after_magic with
      | None => (ParseError, self)
      | Some (version_str, b64) =>
          match parse_uint u32_max version_str with
          | None => (ParseError, self)
          | Some v =>
              if decide (print_dec v ≠ version_str) then (ParseError, self)
              else
                match get_key self v with
                | (None, self) => (UnsealFailed, self)
                | (Some k, self) =>
                    (match open_with_aad b64 k (as_bytes (blob_prefix v)) with
                     | Ok plaintext => match from_utf8 plaintext with
                                       | Some t => Unsealed t
                                       | None => UnsealFailed
                                       end
                     | Err _ => UnsealFailed
                     end, self)
                end
          end
      end
  end.
End sealer.

(** ** Facts *)

Section sealer_facts.
Context {C : CryptoCrates} {L : CryptoLaws C}.

(** The cache only ever holds derived keys, so it is unobservable. *)
Definition coherent (s : PushSealer) : Prop :=
  ∀ v k, key_cache s !! v = Some k → derive_push_seal_key <$> raw_secret s v = Some k.

(** Two sealers that differ only in their caches. *)
Definition same_secrets (s s' : PushSealer) : Prop :=
  current_secret s = current_secret s' ∧ prev_secret s = prev_secret s' ∧ version s = version s'.

Lemma raw_secret_same s s' v : same_secrets s s' → raw_secret s v = raw_secret s' v.
Proof. intros (H1 & H2 & H3). unfold raw_secret. by rewrite H1, H2, H3. Qed.

Lemma get_key_spec s v :
  coherent s →
  (get_key s v).1 = derive_push_seal_key <$> raw_secret s v ∧
  coherent (get_key s v).2 ∧ same_secrets s (get_key s v).2.
Proof.
  intros Hs. unfold get_key. destruct (key_cache s !! v) as [k|] eqn:E; [by rewrite (Hs v k E)|].
  destruct (raw_secret s v) as [raw|] eqn:Er; [|done]. split; [done|]. split; [|done].
  intros v' k'. cbn. rewrite lookup_insert. case_decide as Hv.
  - subst v'. intros [= <-]. unfold raw_secret in *. cbn. by rewrite Er.
  - apply Hs.
Qed.

Lemma derived_length s v k : derive_push_seal_key <$> raw_secret s v = Some k → length k = 32.
Proof. destruct (raw_secret s v); cbn; [|done]. intros [= <-]. apply derived_key_length. Qed.

(** What [seal] returns, without the cache. *)
Lemma seal_spec s token nonce :
  coherent s → length nonce = 24 →
  ∃ b64, (seal s token nonce).1 = Ok (blob_prefix (version s) +:+ "." +:+ b64) ∧
    seal_with_aad (as_bytes token) (derive_push_seal_key (current_secret s))
      (as_bytes (blob_prefix (version s))) nonce = Ok b64 ∧
    coherent (seal s token nonce).2 ∧ same_secrets s (seal s token nonce).2.
Proof.
  intros Hs Hn. destruct (get_key_spec s (version s) Hs) as (Hk & Hc & Hsame).
  unfold seal. destruct (get_key s (version s)) as [k s'] eqn:E. cbn [fst snd] in *.
  unfold raw_secret in Hk. rewrite decide_True in Hk by done. cbn in Hk. subst k.
  assert (version s' = version s) as Hv by (symmetry; apply Hsame). rewrite Hv.
  destruct (seal_gen_ok (as_bytes token) (derive_push_seal_key (current_secret s))
    (Some (as_bytes (blob_prefix (version s)))) nonce) as (c & _ & _ & Hg); [apply derived_key_length|done|].
  unfold seal_with_aad. rewrite Hg. by eexists.
Qed.

(** What [unseal] returns, without the cache. *)
Lemma unseal_spec s blob :
  coherent s →
  coherent (unseal s blob).2 ∧ same_secrets s (unseal s blob).2 ∧
  ∀ s', coherent s' → same_secrets s s' → (unseal s' blob).1 = (unseal s blob).1.
Proof.
  intros Hs. unfold unseal. destruct (strip_prefix BLOB_PREFIX blob) as [r|]; [|done].
  destruct (split_once _ r) as [[vs b64]|]; [|done]. destruct (parse_uint u32_max vs) as [v|]; [|done].
  case_decide; [done|]. destruct (get_key_spec s v Hs) as (Hk & Hc & Hsame).
  destruct (get_key s v) as [k s1]. cbn [fst snd] in *.
  split; [by destruct k|]. split; [by destruct k|]. intros s' Hs' Hss.
  destruct (get_key_spec s' v Hs') as (Hk' & _ & _). destruct (get_key s' v) as [k' s1'].
  cbn [fst] in Hk'. rewrite <-(raw_secret_same s s' v Hss), <-Hk in Hk'. subst k'. by destruct k.
Qed.

Lemma unseal_body s v b64 :
  coherent s → (v ≤ u32_max)%N →
  (unseal s (blob_prefix v +:+ "." +:+ b64)).1 =
  match raw_secret s v with
  | None => UnsealFailed
  | Some raw =>
      match open_with_aad b64 (derive_push_seal_key raw) (as_bytes (blob_prefix v)) with
      | Ok plaintext => match from_utf8 plaintext with Some t => Unsealed t | None => UnsealFailed end
      | Err _ => UnsealFailed
      end
  end.
Proof.
  intros Hs Hv. unfold unseal, blob_prefix at 1. rewrite str_append_assoc, strip_prefix_app.
  change ("." +:+ b64) with (String "."%char b64).
  rewrite split_once_app by (apply all_digits_no_char; [done|apply digits_print_dec]).
  rewrite parse_print_dec by done. rewrite decide_False by auto.
  destruct (get_key_spec s v Hs) as (Hk & _ & _). destruct (get_key s v) as [k s']. cbn [fst] in Hk.
  subst k. destruct (raw_secret s v); done.
Qed.

(** Rotation: a token sealed by one configuration is recovered by every
    configuration, whatever its cache, that maps the blob's version to the same
    secret: the same one, or the next version with the old secret as previous;
    it is refused by every configuration that does not cover the version. *)
Theorem seal_rotation (s s' : PushSealer) (token blob : string) (nonce : bytes) :
  coherent s → coherent s' → is_str token → length nonce = 24 → (version s ≤ u32_max)%N →
  (seal s token nonce).1 = Ok blob →
  (same_secrets s s' ∨
   (version s' = version s + 1 ∧ prev_secret s' = Some (current_secret s) ∧ version s < u32_max)%N →
   (unseal s' blob).1 = Unsealed token) ∧
  (version s' ≠ version s → version s ≠ (version s' + u32_max) mod 2 ^ 32 →
   (unseal s' blob).1 = UnsealFailed)%N.
Proof.
  intros Hs Hs' Ht Hn Hv Hseal. destruct (seal_spec s token nonce Hs Hn) as (b64 & H1 & H2 & _ & _).
  rewrite H1 in Hseal. injection Hseal as <-. split.
  - intros Hcov. rewrite unseal_body by done.
    assert (raw_secret s' (version s) = Some (current_secret s)) as ->.
    { unfold raw_secret. destruct Hcov as [(Hc & _ & Hver)|(Hver & Hprev & Hlt)].
      - rewrite decide_True by done. by rewrite <-Hc.
      - rewrite decide_False by lia. rewrite decide_True; [done|]. rewrite Hver. split; [|lia].
        replace (version s + 1 + u32_max)%N with (version s + 1 * 2 ^ 32)%N by (unfold u32_max; lia).
        rewrite N.Div0.mod_add, N.mod_small by (unfold u32_max in *; lia). done. }
    assert (open_with_aad b64 (derive_push_seal_key (current_secret s)) (as_bytes (blob_prefix (version s)))
            = Ok (as_bytes token)) as ->.
    { apply open_gen_iff; [apply derived_key_length|]. exists nonce. done. }
    by rewrite from_utf8_as_bytes.
  - intros Hne Hne'. rewrite unseal_body by done. unfold raw_secret.
    rewrite decide_False by congruence. by rewrite decide_False by (intros [? _]; congruence).
Qed.

(** Soundness of unsealing: from any cache, an accepted blob is one that
    [seal] writes for exactly this token, under a covered version bound into
    both the prefix and the associated data; a blob is passed through as legacy
    exactly when it lacks the prefix. *)
Theorem unseal_sound (s : PushSealer) (blob : string) :
  coherent s →
  (∀ token, (unseal s blob).1 = Unsealed token →
     ∃ v raw nonce b64, raw_secret s v = Some raw ∧ length nonce = 24 ∧
       blob = blob_prefix v +:+ "." +:+ b64 ∧
       seal_with_aad (as_bytes token) (derive_push_seal_key raw) (as_bytes (blob_prefix v)) nonce = Ok b64) ∧
  ((unseal s blob).1 = Legacy ↔ strip_prefix BLOB_PREFIX blob = None).
Proof.
  intros Hs. unfold unseal. destruct (strip_prefix BLOB_PREFIX blob) as [r|] eqn:Ep; [|done].
  destruct (split_once _ r) as [[vs b64]|] eqn:Es; [|done].
  destruct (parse_uint u32_max vs) as [v|] eqn:Ev; [|done]. case_decide as Hvs; [done|].
  destruct (get_key_spec s v Hs) as (Hk & _ & _). destruct (get_key s v) as [k s']. cbn [fst] in *.
  destruct (raw_secret s v) as [raw|] eqn:Er; cbn in Hk; subst k; [|done]. cbn [fst].
  destruct (open_with_aad b64 _ _) as [p|e] eqn:Eo; [|done]. destruct (from_utf8 p) as [t|] eqn:Et; [|done].
  split; [|done]. intros token [= <-]. apply from_utf8_Some in Et as [_ Hp].
  apply open_gen_iff in Eo as (n & Hn & Hseal); [|apply derived_key_length].
  exists v, raw, n, b64. split; [done|]. split; [done|].
  split; [|by rewrite Hp].
  apply strip_prefix_Some in Ep as ->. apply split_once_Some in Es as ->.
  unfold blob_prefix. rewrite Hvs, str_append_assoc. done.
Qed.
End sealer_facts.

(** ** The interface the relay's push path relies on *)

(** Sealing may fail (dropped silently by the caller); a sealed token unseals to
    itself, for good. *)
Class TokenSealer := {
  seal_token : string → bytes → option string;
  unseal_token : string → UnsealResult
}.

Class TokenSealerLaws (T : TokenSealer) : Prop := {
  unseal_seal_token tok nonce blob :
    is_str tok → length nonce = 24 → seal_token tok nonce = Some blob → unseal_token blob = Unsealed tok;
  seal_token_total tok nonce : length nonce = 24 → is_Some (seal_token tok nonce)
}.

(** A sealer, seen through the interface: its cache is unobservable
    ([unseal_spec]), so the two operations are functions. *)
Definition sealer_api {C : CryptoCrates} (s : PushSealer) : TokenSealer := {|
  seal_token tok nonce := match (seal s tok nonce).1 with Ok b => Some b | Err _ => None end;
  unseal_token blob := (unseal s blob).1
|}.

Lemma sealer_api_laws {C : CryptoCrates} {L : CryptoLaws C} (s : PushSealer) :
  coherent s → (version s ≤ u32_max)%N → TokenSealerLaws (sealer_api s).
Proof.
  intros Hs Hv. split; cbn; intros tok nonce.
  - intros blob Ht Hn. destruct (seal_spec s tok nonce Hs Hn) as (b64 & -> & Ho & _ & _).
    intros [= <-]. rewrite unseal_body by done. unfold raw_secret. rewrite decide_True by done.
    assert (open_with_aad b64 (derive_push_seal_key (current_secret s)) (as_bytes (blob_prefix (version s)))
            = Ok (as_bytes tok)) as ->.
    { apply open_gen_iff; [apply derived_key_length|]. by exists nonce. }
    by rewrite from_utf8_as_bytes.
  - intros Hn. destruct (seal_spec s tok nonce Hs Hn) as (b64 & -> & _). by eexists.
Qed.

Lemma coherent_new {C : CryptoCrates} secret secret_prev ver e1 e2 e3 rnd :
  coherent (new secret secret_prev ver e1 e2 e3 rnd).
Proof.
  unfold new. destruct (if decide (SECRET_MIN_CHARS ≤ _) then _ else _) as [cur eph].
  intros v k. cbn. by rewrite lookup_empty.
Qed.

(** The constructor never yields version 0. *)
Lemma new_version_positive secret secret_prev ver e1 e2 e3 rnd :
  (0 < version (new secret secret_prev ver e1 e2 e3 rnd))%N.
Proof. unfold new, DEFAULT_VERSION. repeat case_match; simplify_eq; cbn; lia. Qed.

(** ** Witnesses *)

Definition demo_old : PushSealer :=
  new (Some "0123456789abcdef0123456789abcdef") None (Some 4%N) "" "" "" [].
Definition demo_new : PushSealer :=
  new (Some "fedcba9876543210fedcba9876543210") (Some "0123456789abcdef0123456789abcdef") (Some 5%N) "" "" "" [].

Definition demo_blob : string :=
  match (seal (C := demo_crates) demo_old "tok" demo_nonce).1 with Ok b => b | Err _ => "" end.

Lemma seal_rotation_witness :
  (seal (C := demo_crates) demo_old "tok" demo_nonce).1 = Ok demo_blob ∧
  (unseal (C := demo_crates) demo_new demo_blob).1 = Unsealed "tok".
Proof.
  assert ((seal (C := demo_crates) demo_old "tok" demo_nonce).1 = Ok demo_blob) as H by (vm_compute; reflexivity).
  split; [exact H|].
  apply (seal_rotation (L := demo_crates_laws) demo_old demo_new "tok" demo_blob demo_nonce);
    [apply coherent_new|apply coherent_new|vm_compute; reflexivity|reflexivity|vm_compute; discriminate|exact H|].
  right. vm_compute. repeat split.
Defined.

Lemma unseal_sound_witness :
  (unseal (C := demo_crates) demo_new demo_blob).1 = Unsealed "tok" ∧
  (unseal (C := demo_crates) demo_new "abcdef").1 = Legacy.
Proof.
  split; [vm_compute; reflexivity|].
  apply (unseal_sound (L := demo_crates_laws) demo_new "abcdef" (coherent_new _ _ _ _ _ _ _)).
  reflexivity.
Defined.
