(* ===== verification/Push.v ===== *)
(** * Push: the push-or-deliver orchestrator of [rust/tp-relay/src/push.rs].
    One [send_or_deliver] is a guard phase under the mutex, an APNs call with the
    mutex released, and a commit phase; the model keeps the three apart so that
    concurrent sends interleave between them. *)
From stdpp Require Import base list numbers strings gmap fin_maps.
From Stdlib Require Import Lia NArith.
From S2P Require Import Prelude.

Definition DEFAULT_RATE_LIMIT_PER_MINUTE : N := 5.
Definition DEFAULT_DEDUP_WINDOW_MS : N := 60000.
Definition DEDUP_CLEANUP_INTERVAL_MS : N := 30000.
Definition RATE_LIMIT_WINDOW_MS : N := 60000.

Inductive DeliveryResult := Ws | Push | RateLimited | Deduped | Error | DeadToken.
#[export] Instance DeliveryResult_eq_dec : EqDecision DeliveryResult.
Proof. solve_decision. Defined.

Record PushData := mkPushData { sid : string; data_daemon_id : string; event : string }.

Record PushRequest := mkPushRequest {
  frontend_id : string;
  daemon_id : string;
  token : string;
  title : string;
  body : string;
  is_frontend_connected : bool;
  interruption_level : option string;
  data : option PushData
}.

(** [apns.rs]: the payload and the outcome of a delivery. *)
Record ApnsPayload := mkApnsPayload {
  device_token : string;
  ap_title : string;
  ap_body : string;
  ap_interruption_level : option string;
  ap_data : option (gmap string string)
}.

Inductive ApnsDeliveryResult :=
| ApnsOk
| ApnsErr (dead_token : bool) (reason : string).

Record RateLimitEntry := mkRate { count : N; window_start : N }.

Record Inner := mkInner {
  dedup_seen : gmap string N;
  rate_limits : gmap string RateLimitEntry
}.
Definition Inner_new : Inner := mkInner ∅ ∅.

Record PushService := mkPushService {
  rate_limit_per_minute : N;
  dedup_window_ms : N;
  rate_limit_window_ms : N;
  apns_configured : bool
}.

Definition PushServiceConfig_default : PushService :=
  mkPushService DEFAULT_RATE_LIMIT_PER_MINUTE DEFAULT_DEDUP_WINDOW_MS RATE_LIMIT_WINDOW_MS false.

(** [format!("{}:{}", daemon_id, frontend_id)] and [format!("{}:{}:{}", ...)] *)
Definition rate_limit_key (req : PushRequest) : string := daemon_id req +:+ ":" +:+ frontend_id req.
Definition dedup_key (req : PushRequest) (d : PushData) : string :=
  frontend_id req +:+ ":" +:+ sid d +:+ ":" +:+ event d.

(** Step 2. [N] subtraction truncates at zero, as [saturating_sub] does. *)
Definition deduped (self : PushService) (inner : Inner) (req : PushRequest) (now : N) : bool :=
  match data req with
  | Some d =>
      match dedup_seen inner !! dedup_key req d with
      | Some seen_at => bool_decide (now - seen_at < dedup_window_ms self)%N
      | None => false
      end
  | None => false
  end.

(** Step 3: restart an expired window in place. *)
Definition reset_expired (self : PushService) (inner : Inner) (key : string) (now : N) : Inner :=
  mkInner (dedup_seen inner)
    (alter (λ rl, if decide (rate_limit_window_ms self ≤ now - window_start rl)%N
                  then mkRate 0 now else rl) key (rate_limits inner)).

Definition over_limit (self : PushService) (inner : Inner) (key : string) : bool :=
  match rate_limits inner !! key with
  | Some rl => bool_decide (rate_limit_per_minute self ≤ count rl)%N
  | None => false
  end.

(** Steps 2-4: [Some r] is an early return, [None] goes on to APNs. *)
Definition guard_phase (self : PushService) (inner : Inner) (req : PushRequest) (now : N)
  : option DeliveryResult * Inner :=
  if deduped self inner req now then (Some Deduped, inner)
  else
    let inner := reset_expired self inner (rate_limit_key req) now in
    if over_limit self inner (rate_limit_key req) then (Some RateLimited, inner)
    else if apns_configured self then (None, inner) else (Some Error, inner).

Definition apns_payload (req : PushRequest) : ApnsPayload :=
  mkApnsPayload (token req) (title req) (body req) (interruption_level req)
    ((λ d, <["event" := event d]> (<["daemonId" := data_daemon_id d]> (<["sid" := sid d]> ∅))) <$> data req).

(** Step 6, at the guard phase's [now]. *)
Definition commit_phase (inner : Inner) (req : PushRequest) (now : N) : Inner :=
  let seen := match data req with
              | Some d => <[dedup_key req d := now]> (dedup_seen inner)
              | None => dedup_seen inner
              end in
  let rl := default (mkRate 0 now) (rate_limits inner !! rate_limit_key req) in
  mkInner seen
    (<[rate_limit_key req := mkRate ((count rl + 1) mod 2 ^ 64) (window_start rl)]> (rate_limits inner)).

Definition apns_outcome (r : ApnsDeliveryResult) : DeliveryResult :=
  match r with ApnsOk => Push | ApnsErr true _ => DeadToken | ApnsErr false _ => Error end.

(** Step 5's result, and the commit when it is a success. *)
Definition finish_phase (inner : Inner) (req : PushRequest) (now : N) (r : ApnsDeliveryResult)
  : DeliveryResult * Inner :=
  (apns_outcome r, match r with ApnsOk => commit_phase inner req now | ApnsErr _ _ => inner end).

(** One uninterrupted call. *)
Definition send_or_deliver (self : PushService) (apns : ApnsPayload → ApnsDeliveryResult)
    (inner : Inner) (req : PushRequest) (now : N) : DeliveryResult * Inner :=
  if is_frontend_connected req then (Ws, inner)
  else
    match guard_phase self inner req now with
    | (Some r, inner) => (r, inner)
    | (None, inner) => finish_phase inner req now (apns (apns_payload req))
    end.

Definition run_cleanup (self : PushService) (inner : Inner) (now : N) : Inner :=
  mkInner
    (filter (λ '(_, seen_at), now - seen_at < dedup_window_ms self)%N (dedup_seen inner))
    (filter (λ '(_, rl), now - window_start rl < rate_limit_window_ms self)%N (rate_limits inner)).

Definition rate_limit_entry_count (inner : Inner) : nat := size (rate_limits inner).
Definition dedup_entry_count (inner : Inner) : nat := size (dedup_seen inner).

(** ** Histories of uninterrupted calls *)

Inductive push_event :=
| Send (req : PushRequest) (now : N) (r : ApnsDeliveryResult)
| Cleanup (now : N).

Definition event_time (e : push_event) : N := match e with Send _ now _ => now | Cleanup now => now end.

Definition push_step (self : PushService) (st : Inner * list (PushRequest * N * DeliveryResult))
    (e : push_event) : Inner * list (PushRequest * N * DeliveryResult) :=
  match e with
  | Send req now r =>
      let '(res, inner) := send_or_deliver self (λ _, r) st.1 req now in
      (inner, st.2 ++ [(req, now, res)])
  | Cleanup now => (run_cleanup self st.1 now, st.2)
  end.

Definition push_run (self : PushService) (es : list push_event)
  : Inner * list (PushRequest * N * DeliveryResult) :=
  foldl (push_step self) (Inner_new, []) es.

(** The times of the deliveries selected by [P], in order. *)
Definition pushes (P : PushRequest → bool) (log : list (PushRequest * N * DeliveryResult)) : list N :=
  omap (λ '(req, t, r), if P req && bool_decide (r = Push) then Some t else None) log.

Definition for_key (k : string) (req : PushRequest) : bool := bool_decide (rate_limit_key req = k).

(** How many of the times [ts] satisfy [P]. *)
Definition occurs (P : N → Prop) `{!∀ t, Decision (P t)} (ts : list N) : nat := length (filter P ts).

(** ** Facts *)

(** A call that does not end in a delivery records nothing; all it may do is
    restart an expired window. *)
Lemma send_commits_nothing self apns inner req now :
  let '(r, inner') := send_or_deliver self apns inner req now in
  r ≠ Push → inner' = inner ∨ inner' = reset_expired self inner (rate_limit_key req) now.
Proof.
  unfold send_or_deliver, guard_phase. destruct (is_frontend_connected req); [by left|].
  destruct (deduped self inner req now); [by left|].
  destruct (over_limit _ _ _); [by right|]. destruct (apns_configured self); [|by right].
  unfold finish_phase. destruct (apns _) as [|[] ?]; cbn; [done|by right|by right].
Qed.

(** What holds when a call delivers. *)
Lemma send_push_inv self apns inner req now inner' :
  send_or_deliver self apns inner req now = (Push, inner') →
  is_frontend_connected req = false ∧ deduped self inner req now = false ∧
  over_limit self (reset_expired self inner (rate_limit_key req) now) (rate_limit_key req) = false ∧
  inner' = commit_phase (reset_expired self inner (rate_limit_key req) now) req now.
Proof.
  unfold send_or_deliver, guard_phase. destruct (is_frontend_connected req); [done|].
  destruct (deduped self inner req now); [done|].
  destruct (over_limit _ _ _); [done|]. destruct (apns_configured self); [|done].
  unfold finish_phase. destruct (apns _) as [|[] ?]; cbn; [by intros [= <-]|done|done].
Qed.

Section occurs_facts.
Implicit Types (P Q R : N → Prop) (ts : list N).

Lemma occurs_mono P Q `{!∀ t, Decision (P t), !∀ t, Decision (Q t)} ts :
  (∀ t, t ∈ ts → P t → Q t) → occurs P ts ≤ occurs Q ts.
Proof.
  unfold occurs. induction ts as [|t ts IH]; intros HPQ; [done|]. rewrite !filter_cons.
  pose proof (HPQ t ltac:(by left)). specialize (IH ltac:(intros; apply HPQ; [by right|done])).
  do 2 case_decide; cbn; try lia. tauto.
Qed.

Lemma occurs_split P Q R
    `{!∀ t, Decision (P t), !∀ t, Decision (Q t), !∀ t, Decision (R t)} ts :
  (∀ t, t ∈ ts → P t → Q t ∨ R t) → occurs P ts ≤ occurs Q ts + occurs R ts.
Proof.
  unfold occurs. induction ts as [|t ts IH]; intros HPQ; [cbn; lia|]. rewrite !filter_cons.
  pose proof (HPQ t ltac:(by left)). specialize (IH ltac:(intros; apply HPQ; [by right|done])).
  repeat case_decide; cbn; try lia. tauto.
Qed.

Lemma occurs_app P `{!∀ t, Decision (P t)} ts ts' : occurs P (ts ++ ts') = occurs P ts + occurs P ts'.
Proof. unfold occurs. by rewrite filter_app, length_app. Qed.

Lemma occurs_one P `{!∀ t, Decision (P t)} t : occurs P [t] = if decide (P t) then 1 else 0.
Proof. unfold occurs. rewrite filter_cons. by case_decide. Qed.

Lemma occurs_none P `{!∀ t, Decision (P t)} ts : (∀ t, t ∈ ts → ¬ P t) → occurs P ts = 0.
Proof.
  intros HPQ. unfold occurs. induction ts as [|t ts IH]; [done|]. rewrite filter_cons.
  rewrite decide_False by (apply HPQ; by left). apply IH. intros t' Ht'. apply HPQ. by right.
Qed.
End occurs_facts.

(** *** The rate-limit window invariant, for one key *)

Definition in_window (W t : N) : N → Prop := λ p, (t ≤ p < t + W)%N.
#[export] Instance in_window_dec W t p : Decision (in_window W t p).
Proof. unfold in_window. apply _. Defined.

Record rate_inv (limit W now : N) (e : option RateLimitEntry) (ts : list N) : Prop := {
  ri_two t : occurs (in_window W t) ts ≤ 2 * N.to_nat limit;
  ri_cur :
    match e with
    | Some rl =>
        (window_start rl ≤ now)%N ∧
        count rl = N.of_nat (occurs (λ p, window_start rl ≤ p)%N ts) ∧
        (count rl ≤ limit)%N ∧
        (∀ p, p ∈ ts → (p < window_start rl + W)%N) ∧
        occurs (λ p, window_start rl < p + W ∧ p < window_start rl)%N ts ≤ N.to_nat limit
    | None =>
        (∀ p, p ∈ ts → (p < now)%N) ∧ occurs (λ p, now < p + W)%N ts ≤ N.to_nat limit
    end
}.

Section rate.
Context (limit W : N) (Hl : (0 < limit < 2 ^ 64)%N) (HW : (0 < W)%N).

Lemma rate_inv_init now : rate_inv limit W now None [].
Proof. split; cbn; [lia|]. split; [by intros p ?%elem_of_nil|lia]. Qed.

Lemma rate_inv_later now now' e ts :
  (now ≤ now')%N → rate_inv limit W now e ts → rate_inv limit W now' e ts.
Proof.
  intros H [I1 I2]. split; [done|]. destruct e as [rl|].
  - destruct I2 as (? & ? & ? & ? & ?). split_and!; try done. lia.
  - destruct I2 as [H1 H2]. split; [intros p Hp; specialize (H1 p Hp); lia|].
    etrans; [|exact H2]. apply occurs_mono. intros; lia.
Qed.

Lemma rate_inv_restart now c ws ts :
  (ws + W ≤ now)%N → rate_inv limit W now (Some (mkRate c ws)) ts →
  rate_inv limit W now (Some (mkRate 0 now)) ts.
Proof.
  intros He [I1 (H1 & H2 & H3 & H4 & H5)]. cbn in *. split; [done|]. cbn. split_and!.
  - lia.
  - rewrite occurs_none; [done|]. intros p Hp. specialize (H4 p Hp). lia.
  - lia.
  - intros p Hp. specialize (H4 p Hp). lia.
  - transitivity (occurs (λ p, ws ≤ p)%N ts); [|lia]. apply occurs_mono. intros; lia.
Qed.

Lemma rate_inv_evict now c ws ts :
  (ws + W ≤ now)%N → rate_inv limit W now (Some (mkRate c ws)) ts → rate_inv limit W now None ts.
Proof.
  intros He [I1 (H1 & H2 & H3 & H4 & H5)]. cbn in *. split; [done|]. split.
  - intros p Hp. specialize (H4 p Hp). lia.
  - transitivity (occurs (λ p, ws ≤ p)%N ts); [|lia]. apply occurs_mono. intros; lia.
Qed.

Lemma rate_inv_push_some now c ws ts :
  (c < limit)%N → (now < ws + W)%N → rate_inv limit W now (Some (mkRate c ws)) ts →
  rate_inv limit W now (Some (mkRate (c + 1) ws)) (ts ++ [now]).
Proof.
  intros Hc Hn [I1 (H1 & H2 & H3 & H4 & H5)]. cbn in *. split.
  - intros t. rewrite occurs_app, occurs_one. unfold in_window at 2. case_decide as Hd.
    2:{ specialize (I1 t). lia. }
    pose proof (occurs_split (in_window W t) (λ p, ws < p + W ∧ p < ws)%N (λ p, ws ≤ p)%N ts) as Hs.
    unfold in_window in *. specialize (Hs ltac:(intros; lia)). lia.
  - cbn. rewrite !occurs_app, !occurs_one. rewrite decide_True by lia.
    rewrite (decide_False (P := (ws < now + W ∧ now < ws)%N)) by lia. split_and!; try lia.
    intros p [Hp| ->%list_elem_of_singleton]%elem_of_app; [by apply H4|done].
Qed.

Lemma rate_inv_push_none now ts :
  rate_inv limit W now None ts → rate_inv limit W now (Some (mkRate 1 now)) (ts ++ [now]).
Proof.
  intros [I1 [H1 H2]]. split.
  - intros t. rewrite occurs_app, occurs_one. unfold in_window at 2. case_decide as Hd.
    2:{ specialize (I1 t). lia. }
    pose proof (occurs_mono (in_window W t) (λ p, now < p + W)%N ts) as Hs.
    unfold in_window in *. specialize (Hs ltac:(intros; lia)). lia.
  - cbn. rewrite !occurs_app, !occurs_one. rewrite decide_True by lia.
    rewrite (decide_False (P := (now < now + W ∧ now < now)%N)) by lia.
    rewrite (occurs_none (λ p, now ≤ p)%N) by (intros p Hp; specialize (H1 p Hp); lia).
    split_and!; try lia.
    + intros p [Hp| ->%list_elem_of_singleton]%elem_of_app; [specialize (H1 p Hp); lia|lia].
    + rewrite Nat.add_0_r. etrans; [|exact H2]. apply occurs_mono. intros; lia.
Qed.
End rate.

(** *** Lifting to histories *)

Lemma pushes_snoc P log req t r :
  pushes P (log ++ [(req, t, r)]) =
  pushes P log ++ (if P req && bool_decide (r = Push) then [t] else []).
Proof. unfold pushes. rewrite omap_app. cbn. by destruct (P req && _). Qed.

Lemma lookup_reset_expired self inner k k' now :
  rate_limits (reset_expired self inner k now) !! k' =
  if decide (k = k') then
    (λ rl, if decide (rate_limit_window_ms self ≤ now - window_start rl)%N then mkRate 0 now else rl)
      <$> rate_limits inner !! k'
  else rate_limits inner !! k'.
Proof.
  cbn. case_decide; [subst; by rewrite lookup_alter_eq|by rewrite lookup_alter_ne].
Qed.

Lemma lookup_cleanup_rate self inner k now :
  rate_limits (run_cleanup self inner now) !! k =
  rate_limits inner !! k ≫= λ rl,
    if decide (now - window_start rl < rate_limit_window_ms self)%N then Some rl else None.
Proof.
  cbn. rewrite map_lookup_filter. destruct (rate_limits inner !! k) as [rl|]; [|done]. cbn.
  case_decide; [by rewrite option_guard_True|by rewrite option_guard_False].
Qed.

Lemma lookup_cleanup_dedup self inner k now :
  dedup_seen (run_cleanup self inner now) !! k =
  dedup_seen inner !! k ≫= λ t, if decide (now - t < dedup_window_ms self)%N then Some t else None.
Proof.
  cbn. rewrite map_lookup_filter. destruct (dedup_seen inner !! k) as [t|]; [|done]. cbn.
  case_decide; [by rewrite option_guard_True|by rewrite option_guard_False].
Qed.

Definition valid_config (self : PushService) : Prop :=
  (0 < rate_limit_per_minute self < 2 ^ 64)%N ∧ (0 < rate_limit_window_ms self)%N.

(** A clock that never goes back. *)
Fixpoint clock_from (now : N) (es : list push_event) : Prop :=
  match es with
  | [] => True
  | e :: es => (now ≤ event_time e)%N ∧ clock_from (event_time e) es
  end.

Section histories.
Context (self : PushService) (Hc : valid_config self).

Definition key_inv (k : string) (now : N) (st : Inner * list (PushRequest * N * DeliveryResult)) : Prop :=
  rate_inv (rate_limit_per_minute self) (rate_limit_window_ms self) now
    (rate_limits st.1 !! k) (pushes (for_key k) st.2).

Lemma key_inv_reset k now inner log key :
  key_inv k now (inner, log) → key_inv k now (reset_expired self inner key now, log).
Proof.
  destruct Hc as [Hl HW]. unfold key_inv. cbn [fst snd]. rewrite lookup_reset_expired. intros I.
  case_decide; [subst|done]. destruct (rate_limits inner !! k) as [[c ws]|] eqn:E; cbn; [|done].
  case_decide as He; [|done]. cbn in He. apply (rate_inv_restart _ _ Hl HW now c ws); [|done].
  pose proof (ri_cur _ _ _ _ _ I) as (? & _). cbn in *. lia.
Qed.

Lemma key_inv_commit k now inner log req :
  let inner1 := reset_expired self inner (rate_limit_key req) now in
  over_limit self inner1 (rate_limit_key req) = false →
  key_inv k now (inner1, log) →
  key_inv k now (commit_phase inner1 req now, log ++ [(req, now, Push)]).
Proof.
  destruct Hc as [Hl HW]. intros inner1 Ho I. unfold key_inv in *. cbn [fst snd] in *.
  rewrite pushes_snoc. unfold for_key at 2. rewrite (bool_decide_eq_true_2 (Push = Push)), andb_true_r by done.
  unfold commit_phase. cbn [rate_limits]. destruct (decide (rate_limit_key req = k)) as [Hk|Hk].
  2:{ rewrite lookup_insert_ne by done. rewrite bool_decide_eq_false_2 by done. by rewrite app_nil_r. }
  rewrite bool_decide_eq_true_2 by done. subst k. rewrite lookup_insert_eq.
  unfold over_limit in Ho.
  destruct (rate_limits inner1 !! rate_limit_key req) as [[c ws]|] eqn:E; cbn [default count window_start] in *.
  - apply bool_decide_eq_false_1 in Ho. cbn in Ho |- *. rewrite N.mod_small by lia.
    apply rate_inv_push_some; try done; [lia|].
    unfold inner1 in E. rewrite lookup_reset_expired, decide_True in E by done.
    destruct (rate_limits inner !! _) as [rl|]; cbn in E; [|done]. case_decide as He; simplify_eq; [lia|].
    cbn in He. pose proof (ri_cur _ _ _ _ _ I) as (? & _). cbn in *. lia.
  - cbn. rewrite N.mod_small by lia. by apply rate_inv_push_none.
Qed.

Lemma key_inv_step k now st e :
  (now ≤ event_time e)%N → key_inv k now st → key_inv k (event_time e) (push_step self st e).
Proof.
  destruct Hc as [Hl HW]. intros Ht I.
  apply (rate_inv_later _ _ Hl HW now (event_time e)) in I; [|done]. change (key_inv k (event_time e) st) in I.
  destruct st as [inner log]. destruct e as [req t r|t]; cbn [push_step event_time fst snd] in *.
  - destruct (send_or_deliver self (λ _, r) inner req t) as [res inner'] eqn:E.
    destruct (decide (res = Push)) as [->|Hr].
    + apply send_push_inv in E as (_ & _ & Ho & ->). apply key_inv_commit; [done|]. by apply key_inv_reset.
    + pose proof (send_commits_nothing self (λ _, r) inner req t) as Hn. rewrite E in Hn.
      unfold key_inv. cbn [fst snd]. rewrite pushes_snoc, (bool_decide_eq_false_2 (res = Push)) by done.
      rewrite andb_false_r, app_nil_r. destruct (Hn Hr) as [->| ->]; [done|]. by apply key_inv_reset.
  - unfold key_inv in *. cbn [fst snd] in *. rewrite lookup_cleanup_rate.
    destruct (rate_limits inner !! k) as [[c ws]|] eqn:E; cbn; [|done].
    case_decide as Hw; [done|]. apply (rate_inv_evict _ _ Hl HW t c ws); [|done].
    pose proof (ri_cur _ _ _ _ _ I) as (? & _). cbn in *. lia.
Qed.

Lemma key_inv_run k es now st :
  key_inv k now st → clock_from now es → ∃ now', key_inv k now' (foldl (push_step self) st es).
Proof.
  revert now st. induction es as [|e es IH]; intros now st I; [by exists now|].
  intros [Ht Hes]. apply (IH (event_time e)); [by apply (key_inv_step k now)|done].
Qed.
End histories.

(** The delivery budget, for any history of sends and cleanups under a
    clock that does not go back: in every interval as long as the rate-limit
    window, at most twice the configured number of pushes is delivered for one
    daemon/frontend pair; within one window opened by the service, at most the
    configured number. *)
Theorem push_rate_bounded (self : PushService) (es : list push_event) (k : string) (t : N) :
  valid_config self → clock_from 0 es →
  let st := push_run self es in
  occurs (in_window (rate_limit_window_ms self) t) (pushes (for_key k) st.2)
    ≤ 2 * N.to_nat (rate_limit_per_minute self) ∧
  (∀ rl, rate_limits st.1 !! k = Some rl →
     count rl = N.of_nat (occurs (λ p, window_start rl ≤ p)%N (pushes (for_key k) st.2)) ∧
     (count rl ≤ rate_limit_per_minute self)%N).
Proof.
  intros Hc Hs. destruct (key_inv_run self Hc k es 0 (Inner_new, [])) as [now [I1 I2]]; [|done|].
  { destruct Hc. by apply rate_inv_init. }
  split; [apply I1|]. intros rl Hrl. unfold push_run in *. rewrite Hrl in I2.
  by destruct I2 as (_ & ? & ? & _).
Qed.

(** *** Deduplication *)

Definition for_dedup (dk : string) (req : PushRequest) : bool :=
  match data req with Some d => bool_decide (dedup_key req d = dk) | None => false end.

Definition spaced (D : N) (ts : list N) : Prop :=
  ∀ i j a b, i < j → ts !! i = Some a → ts !! j = Some b → (a + D ≤ b)%N.

Lemma spaced_snoc D ts now : spaced D ts → (∀ p, p ∈ ts → (p + D ≤ now)%N) → spaced D (ts ++ [now]).
Proof.
  intros Hs Hn i j a b Hij Ha Hb. apply lookup_app_Some in Hb as [Hb|[Hj Hb]].
  - apply (Hs i j); [done| |done]. apply lookup_app_Some in Ha as [Ha|[Hi _]]; [done|].
    apply lookup_lt_Some in Hb. lia.
  - apply list_lookup_singleton_Some in Hb as [Hj0 ->].
    apply lookup_app_Some in Ha as [Ha|[Hi Ha]]; [|lia]. apply Hn. by apply list_elem_of_lookup_2 in Ha.
Qed.

(** What the dedup table knows about the pushes of one dedup key. *)
Definition dedup_inv (D now : N) (e : option N) (ts : list N) : Prop :=
  spaced D ts ∧
  match e with
  | Some t => (t ≤ now)%N ∧ (∀ p, p ∈ ts → (p ≤ t)%N)
  | None => ∀ p, p ∈ ts → (p + D ≤ now)%N
  end.

Lemma dedup_inv_later D now now' e ts : (now ≤ now')%N → dedup_inv D now e ts → dedup_inv D now' e ts.
Proof.
  intros H [H1 H2]. split; [done|]. destruct e as [t|].
  - destruct H2. split; [lia|done].
  - intros p Hp. specialize (H2 p Hp). lia.
Qed.

Section dedup.
Context (self : PushService) (HD : (0 < dedup_window_ms self)%N).

Definition dkey_inv (dk : string) (now : N) (st : Inner * list (PushRequest * N * DeliveryResult)) : Prop :=
  dedup_inv (dedup_window_ms self) now (dedup_seen st.1 !! dk) (pushes (for_dedup dk) st.2).

Lemma dkey_inv_commit dk now inner log req :
  deduped self inner req now = false → dkey_inv dk now (inner, log) →
  dkey_inv dk now (commit_phase (reset_expired self inner (rate_limit_key req) now) req now,
                   log ++ [(req, now, Push)]).
Proof using HD.
  intros Hd [I1 I2]. unfold dkey_inv. cbn [fst snd] in *. rewrite pushes_snoc.
  rewrite (bool_decide_eq_true_2 (Push = Push)), andb_true_r by done.
  unfold commit_phase, deduped in *. unfold for_dedup at 2. cbn [dedup_seen reset_expired].
  destruct (data req) as [d|]; [|rewrite app_nil_r; by split].
  destruct (decide (dedup_key req d = dk)) as [<-|Hk].
  2:{ rewrite lookup_insert_ne, bool_decide_eq_false_2, app_nil_r by done. by split. }
  rewrite lookup_insert_eq, bool_decide_eq_true_2 by done.
  assert (∀ p, p ∈ pushes (for_dedup (dedup_key req d)) log → (p + dedup_window_ms self ≤ now)%N) as Hp.
  { destruct (dedup_seen inner !! dedup_key req d) as [t|] eqn:E; [|done].
    apply bool_decide_eq_false_1 in Hd. destruct I2 as [Ht Hle]. intros p Hp.
    specialize (Hle p Hp). lia. }
  split; [by apply spaced_snoc|]. split; [lia|].
  intros p [Hi| ->%list_elem_of_singleton]%elem_of_app; [specialize (Hp p Hi); lia|lia].
Qed.

Lemma dkey_inv_step dk now st e :
  (now ≤ event_time e)%N → dkey_inv dk now st → dkey_inv dk (event_time e) (push_step self st e).
Proof using HD.
  intros Ht I. apply (dedup_inv_later _ now (event_time e)) in I; [|done].
  change (dkey_inv dk (event_time e) st) in I.
  destruct st as [inner log]. destruct e as [req t r|t]; cbn [push_step event_time fst snd] in *.
  - destruct (send_or_deliver self (λ _, r) inner req t) as [res inner'] eqn:E.
    destruct (decide (res = Push)) as [->|Hr].
    + apply send_push_inv in E as (_ & Hd & _ & ->). by apply dkey_inv_commit.
    + pose proof (send_commits_nothing self (λ _, r) inner req t) as Hn. rewrite E in Hn.
      unfold dkey_inv. cbn [fst snd]. rewrite pushes_snoc, (bool_decide_eq_false_2 (res = Push)) by done.
      rewrite andb_false_r, app_nil_r. destruct (Hn Hr) as [->| ->]; done.
  - unfold dkey_inv in *. cbn [fst snd] in *. rewrite lookup_cleanup_dedup.
    destruct (dedup_seen inner !! dk) as [t0|]; cbn; [|done]. case_decide as Hw; [done|].
    destruct I as [I1 [I2 I3]]. split; [done|]. intros p Hp. specialize (I3 p Hp). lia.
Qed.

Lemma dkey_inv_run dk es now st :
  dkey_inv dk now st → clock_from now es → ∃ now', dkey_inv dk now' (foldl (push_step self) st es).
Proof using HD.
  revert now st. induction es as [|e es IH]; intros now st I; [by exists now|].
  intros [Ht Hes]. apply (IH (event_time e)); [by apply (dkey_inv_step dk now)|done].
Qed.
End dedup.

(** Deduplication, for any history of sends and cleanups under a clock
    that does not go back: two deliveries with the same frontend, session and
    event are at least the dedup window apart. *)
Theorem push_dedup_spacing (self : PushService) (es : list push_event) (dk : string) :
  (0 < dedup_window_ms self)%N → clock_from 0 es →
  spaced (dedup_window_ms self) (pushes (for_dedup dk) (push_run self es).2).
Proof.
  intros HD Hs. destruct (dkey_inv_run self HD dk es 0 (Inner_new, [])) as [now [I _]]; [|done|exact I].
  split; [|cbn; rewrite lookup_empty; by intros p ?%elem_of_nil]. intros i j a b _ Ha. by destruct i.
Qed.

(** ** Interleaved sends *)

(** Several calls in flight: each has passed the guard phase at its own [now]
    and waits for APNs. *)
Record conc := mkConc { c_inner : Inner; in_flight : list (PushRequest * N) }.

Inductive conc_event :=
| Begin (req : PushRequest) (now : N)          (* step 1 and the guard phase *)
| Finish (i : nat) (r : ApnsDeliveryResult)    (* the [i]-th call's APNs result *)
| ConcCleanup (now : N).

Definition conc_step (self : PushService) (c : conc) (e : conc_event) : conc :=
  match e with
  | Begin req now =>
      if is_frontend_connected req then c
      else match guard_phase self (c_inner c) req now with
           | (Some _, inner) => mkConc inner (in_flight c)
           | (None, inner) => mkConc inner (in_flight c ++ [(req, now)])
           end
  | Finish i r =>
      match in_flight c !! i with
      | Some (req, now) =>
          mkConc (finish_phase (c_inner c) req now r).2 (delete i (in_flight c))
      | None => c
      end
  | ConcCleanup now => mkConc (run_cleanup self (c_inner c) now) (in_flight c)
  end.

(** Every state the events pass through has at most [m] calls in flight. *)
Fixpoint at_most_in_flight (self : PushService) (m : nat) (c : conc) (es : list conc_event) : Prop :=
  length (in_flight c) ≤ m ∧
  match es with
  | [] => True
  | e :: es => at_most_in_flight self m (conc_step self c e) es
  end.

Definition waiting (k : string) (l : list (PushRequest * N)) : nat :=
  length (filter (λ x, rate_limit_key x.1 = k) l).

Lemma waiting_le k l : waiting k l ≤ length l.
Proof. apply length_filter. Qed.

Lemma waiting_app k l l' : waiting k (l ++ l') = waiting k l + waiting k l'.
Proof. unfold waiting. by rewrite filter_app, length_app. Qed.

Lemma waiting_delete k l i x :
  l !! i = Some x →
  waiting k l = waiting k (delete i l) + (if decide (rate_limit_key x.1 = k) then 1 else 0).
Proof.
  intros Hi. rewrite <-(take_drop_middle l i x Hi) at 1. rewrite delete_take_drop.
  rewrite !waiting_app. unfold waiting at 2. rewrite filter_cons. unfold waiting.
  case_decide; cbn [length]; lia.
Qed.

Section overshoot.
Context (self : PushService) (m : nat).

(** The counter and the calls on their way to increment it. *)
Definition over_inv (k : string) (c : conc) : Prop :=
  match rate_limits (c_inner c) !! k with
  | Some rl => N.to_nat (count rl) + waiting k (in_flight c)
               ≤ N.to_nat (rate_limit_per_minute self) - 1 + m
  | None => True
  end.

Lemma over_inv_reset k inner l key now :
  length l ≤ m → over_inv k (mkConc inner l) → over_inv k (mkConc (reset_expired self inner key now) l).
Proof.
  intros Hm I. unfold over_inv in *. cbn [c_inner in_flight] in *. rewrite lookup_reset_expired.
  case_decide; [subst|done]. destruct (rate_limits inner !! k) as [rl|]; cbn; [|done].
  case_decide; [|done]. cbn. pose proof (waiting_le k l). lia.
Qed.

Lemma over_inv_step k c e :
  length (in_flight c) ≤ m → length (in_flight (conc_step self c e)) ≤ m →
  over_inv k c → over_inv k (conc_step self c e).
Proof.
  intros Hm Hm' I. destruct c as [inner l]. destruct e as [req now|i r|now]; cbn in Hm, Hm' |- *.
  - destruct (is_frontend_connected req); [done|]. unfold guard_phase in *.
    destruct (deduped self inner req now); [done|].
    pose proof (over_inv_reset k inner l (rate_limit_key req) now Hm I) as I'.
    set (inner1 := reset_expired self inner (rate_limit_key req) now) in *.
    destruct (over_limit self inner1 (rate_limit_key req)) eqn:Eo; [done|].
    destruct (apns_configured self); [|done]. cbn in Hm'. unfold over_inv in *.
    cbn [c_inner in_flight] in *. destruct (rate_limits inner1 !! k) as [rl|] eqn:E; [|done].
    rewrite waiting_app. destruct (decide (rate_limit_key req = k)) as [Hk|Hk].
    + unfold over_limit in Eo. rewrite Hk, E in Eo. apply bool_decide_eq_false_1 in Eo.
      rewrite length_app in Hm'. cbn in Hm'.
      pose proof (waiting_le k l). pose proof (waiting_le k [(req, now)]). cbn in *. lia.
    + unfold waiting at 2. rewrite filter_cons, decide_False by done. cbn. lia.
  - destruct (l !! i) as [[req now]|] eqn:E; [|done]. unfold over_inv in *.
    pose proof (waiting_delete k l i _ E) as Hw. cbn [fst] in Hw.
    unfold finish_phase. cbn [c_inner in_flight snd] in *.
    destruct r as [|d reason]; [|destruct (rate_limits inner !! k); [lia|done]].
    unfold commit_phase. cbn [rate_limits]. case_decide as Hk.
    + subst k. rewrite lookup_insert_eq. cbn. pose proof (waiting_le (rate_limit_key req) l).
      destruct (rate_limits inner !! rate_limit_key req) as [rl|]; cbn.
      * pose proof (N.Div0.mod_le (count rl + 1) (2 ^ 64)). lia.
      * rewrite N.mod_small by done. lia.
    + rewrite lookup_insert_ne by done. destruct (rate_limits inner !! k); [lia|done].
  - unfold over_inv in *. cbn [c_inner in_flight]. rewrite lookup_cleanup_rate.
    cbn [c_inner in_flight] in I. destruct (rate_limits inner !! k) as [rl|]; cbn; [|done].
    by case_decide.
Qed.

Lemma over_inv_run k c es :
  over_inv k c → at_most_in_flight self m c es → over_inv k (foldl (conc_step self) c es).
Proof.
  revert c. induction es as [|e es IH]; intros c I [Hm Hes]; [done|]. cbn. apply IH; [|done].
  apply over_inv_step; [done| |done]. by destruct es, Hes.
Qed.
End overshoot.

(** The admitted check-then-act race is bounded: under any interleaving of
    guard phases, APNs completions and cleanups, and whatever the clocks, with
    at most [m] calls in flight a window's counter overshoots the configured
    limit by less than [m] (so not at all when calls do not overlap). *)
Theorem push_race_bounded (self : PushService) (m : nat) (es : list conc_event) k rl :
  (0 < rate_limit_per_minute self)%N →
  at_most_in_flight self m (mkConc Inner_new []) es →
  rate_limits (c_inner (foldl (conc_step self) (mkConc Inner_new []) es)) !! k = Some rl →
  N.to_nat (count rl) ≤ N.to_nat (rate_limit_per_minute self) + (m - 1).
Proof.
  intros Hl Hes Hrl. pose proof (over_inv_run self m k (mkConc Inner_new []) es) as I.
  unfold over_inv in I. rewrite Hrl in I. specialize (I Logic.I Hes).
  destruct m; lia.
Qed.

(** ** Witnesses *)

Definition demo_req (s : string) : PushRequest :=
  mkPushRequest "f1" "d1" "00" "t" "b" false None (Some (mkPushData s "d1" "stop")).
Definition demo_service : PushService := mkPushService 2 1000 1000 true.
Definition demo_events : list push_event :=
  [Send (demo_req "a") 10 ApnsOk; Send (demo_req "a") 20 ApnsOk; Send (demo_req "b") 30 (ApnsErr false "x");
   Send (demo_req "b") 40 ApnsOk; Send (demo_req "c") 50 ApnsOk; Cleanup 1010; Send (demo_req "a") 1010 ApnsOk].

Lemma demo_clock : clock_from 0 demo_events.
Proof. cbn. lia. Qed.

Lemma push_rate_bounded_witness :
  map snd (push_run demo_service demo_events).2 = [Push; Deduped; Error; Push; RateLimited; Push] ∧
  occurs (in_window 1000 15) (pushes (for_key "d1:f1") (push_run demo_service demo_events).2) ≤ 4.
Proof.
  split; [vm_compute; reflexivity|].
  exact (proj1 (push_rate_bounded demo_service demo_events "d1:f1" 15 ltac:(split; vm_compute; auto) demo_clock)).
Defined.

Lemma push_dedup_spacing_witness :
  pushes (for_dedup "f1:a:stop") (push_run demo_service demo_events).2 = [10; 1010]%N ∧
  spaced 1000 (pushes (for_dedup "f1:a:stop") (push_run demo_service demo_events).2).
Proof.
  split; [vm_compute; reflexivity|].
  apply (push_dedup_spacing demo_service demo_events); [vm_compute; reflexivity|exact demo_clock].
Defined.

(** Two overlapping calls against a limit of one: the counter reaches two. *)
Definition demo_race : list conc_event :=
  [Begin (demo_req "a") 10; Begin (demo_req "b") 11; Finish 0 ApnsOk; Finish 0 ApnsOk].

Lemma push_race_bounded_witness :
  rate_limits (c_inner (foldl (conc_step (mkPushService 1 1000 1000 true)) (mkConc Inner_new []) demo_race))
    !! "d1:f1" = Some (mkRate 2 10) ∧ N.to_nat 2 ≤ N.to_nat 1 + (2 - 1).
Proof.
  assert (rate_limits (c_inner (foldl (conc_step (mkPushService 1 1000 1000 true)) (mkConc Inner_new []) demo_race))
    !! "d1:f1" = Some (mkRate 2 10)) as H by (vm_compute; reflexivity).
  split; [exact H|].
  apply (push_race_bounded (mkPushService 1 1000 1000 true) 2 demo_race "d1:f1" (mkRate 2 10));
    [vm_compute; reflexivity|vm_compute; repeat split; lia|exact H].
Defined.
