(* ===== verification/Jwt.v ===== *)
(** * Jwt: the APNs provider token and its cache, [rust/tp-relay/src/apns_jwt.rs].
    Signing, PEM parsing, base64 and JSON text are linked crates, hence
    parameters; the key file is the environment's. *)
From stdpp Require Import base list numbers strings.
From Stdlib Require Import Lia NArith.
From S2P Require Import Prelude Bytes Text Concrete.

Definition TOKEN_VALID_MS : N := 60 * 60 * 1000.
Definition TOKEN_REFRESH_AFTER_MS : N := 50 * 60 * 1000.

Inductive ApnsKey := Pem (pem : string) | Path (path : string).

(** [KeyRead] keeps the path and the I/O error's text. *)
Inductive ApnsJwtError :=
| KeyRead (path source : string)
| KeyParse (msg : string).

Definition error_display (e : ApnsJwtError) : string :=
  match e with
  | KeyRead path source => "failed to read APNs key from " +:+ path +:+ ": " +:+ source
  | KeyParse msg => "failed to parse APNs key PEM: " +:+ msg
  end.

(** [p256], [base64] and [serde_json]. *)
Class JwtCrates := {
  SigningKey : Type;
  from_pkcs8_pem : string → result SigningKey string;
  sign : SigningKey → bytes → bytes;
  b64url_bytes : bytes → string;
  json_text : string → string
}.

Section signer.
Context {J : JwtCrates}.

Record ApnsSigner := mkSigner {
  key : ApnsKey;
  key_id : string;
  team_id : string;
  signing_key : option SigningKey;
  cached_token : option string;
  cached_at : N
}.

Definition new (key : ApnsKey) (key_id team_id : string) : ApnsSigner :=
  mkSigner key key_id team_id None None 0.

Inductive JsonVal := JStr (s : string) | JNum (n : N).

(** The comma-separated fields. *)
Fixpoint obj_fields (first : bool) (fields : list (string * JsonVal)) : string :=
  match fields with
  | [] => ""
  | (k, v) :: rest =>
      (if first then "" else ",") +:+ json_text k +:+ ":"
      +:+ match v with JStr s => json_text s | JNum n => print_dec n end
      +:+ obj_fields false rest
  end.

Definition b64url_obj (fields : list (string * JsonVal)) : string :=
  b64url_bytes (as_bytes ("{" +:+ obj_fields true fields +:+ "}")).

Definition signing_input (key_id team_id : string) (iat : N) : string :=
  b64url_obj [("alg", JStr "ES256"); ("kid", JStr key_id)] +:+ "."
  +:+ b64url_obj [("iss", JStr team_id); ("iat", JNum iat)].

Definition jwt (sk : SigningKey) (key_id team_id : string) (iat : N) : string :=
  signing_input key_id team_id iat +:+ "."
  +:+ b64url_bytes (sign sk (as_bytes (signing_input key_id team_id iat))).

(** [std::fs::read_to_string] is [read]. *)
Definition load_key (read : string → result string string) (k : ApnsKey) : result SigningKey ApnsJwtError :=
  let? pem := match k with
              | Pem s => Ok s
              | Path p => match read p with Ok s => Ok s | Err e => Err (KeyRead p e) end
              end in
  match from_pkcs8_pem (trim pem) with Ok sk => Ok sk | Err e => Err (KeyParse e) end.

Definition ensure_signing_key (read : string → result string string) (self : ApnsSigner)
  : result ApnsSigner ApnsJwtError :=
  match signing_key self with
  | Some _ => Ok self
  | None =>
      let? sk := load_key read (key self) in
      Ok (mkSigner (key self) (key_id self) (team_id self) (Some sk) (cached_token self) (cached_at self))
  end.

Definition is_cache_valid (self : ApnsSigner) (now_ms : N) : bool :=
  bool_decide (is_Some (cached_token self)) && bool_decide (cached_at self ≤ now_ms)%N
  && bool_decide (now_ms - cached_at self < TOKEN_REFRESH_AFTER_MS)%N.

Definition get_token (read : string → result string string) (self : ApnsSigner) (now_ms : N)
  : result string ApnsJwtError * ApnsSigner :=
  if bool_decide (is_Some (cached_token self)) && bool_decide (cached_at self ≤ now_ms)%N
     && bool_decide (now_ms - cached_at self < TOKEN_REFRESH_AFTER_MS)%N
  then (Ok (default "" (cached_token self)), self)
  else
    match ensure_signing_key read self with
    | Err e => (Err e, self)
    | Ok self =>
        match signing_key self with
        | None => (Ok "", self)   (* [expect("just resolved")]: see [ensure_resolves] *)
        | Some sk =>
            let token := jwt sk (key_id self) (team_id self) (now_ms / 1000) in
            (Ok token, mkSigner (key self) (key_id self) (team_id self) (Some sk) (Some token) now_ms)
        end
    end.

Definition invalidate (self : ApnsSigner) : ApnsSigner :=
  mkSigner (key self) (key_id self) (team_id self) (signing_key self) None 0.

Definition cached_age_ms (self : ApnsSigner) (now_ms : N) : N :=
  if bool_decide (is_Some (cached_token self)) then (now_ms - cached_at self)%N else 0%N.

(** ** Facts *)

Lemma ensure_resolves read s s' :
  ensure_signing_key read s = Ok s' →
  is_Some (signing_key s') ∧ key s' = key s ∧ key_id s' = key_id s ∧ team_id s' = team_id s ∧
  (signing_key s' = signing_key s ∨ signing_key s = None ∧ ∃ sk, load_key read (key s) = Ok sk ∧ signing_key s' = Some sk).
Proof.
  unfold ensure_signing_key. destruct (signing_key s) as [sk|] eqn:E.
  - intros [= ->]. rewrite E. split_and!; eauto.
  - destruct (load_key read (key s)) as [sk|e] eqn:El; [|done]. cbn. intros [= <-]. cbn. split_and!; eauto 10.
Qed.

(** What the cache holds: a token of this signer, made with [signing_key] when
    the clock said [cached_at]. *)
Definition cache_ok (s : ApnsSigner) : Prop :=
  ∀ tok, cached_token s = Some tok →
    ∃ sk, signing_key s = Some sk ∧ tok = jwt sk (key_id s) (team_id s) (cached_at s / 1000).

(** One call on the signer, at whatever the clock and the file system say. *)
Inductive signer_op :=
| OGet (read : string → result string string) (now : N)
| OInvalidate.

Definition signer_step (s : ApnsSigner) (op : signer_op) : ApnsSigner :=
  match op with OGet read now => (get_token read s now).2 | OInvalidate => invalidate s end.

Definition signer_run (s : ApnsSigner) (ops : list signer_op) : ApnsSigner := foldl signer_step s ops.

(** The outcome of a call on a coherent signer. *)
Lemma get_token_spec read s now :
  cache_ok s →
  let '(r, s') := get_token read s now in
  cache_ok s' ∧ key s' = key s ∧ key_id s' = key_id s ∧ team_id s' = team_id s ∧
  (∀ sk, signing_key s = Some sk → signing_key s' = Some sk) ∧
  match r with
  | Ok tok => ∃ sk t, signing_key s' = Some sk ∧ (t ≤ now < t + TOKEN_REFRESH_AFTER_MS)%N ∧
                tok = jwt sk (key_id s) (team_id s) (t / 1000)
  | Err e => s' = s ∧ signing_key s = None ∧ load_key read (key s) = Err e
  end.
Proof.
  intros Hs. unfold get_token. destruct (_ && _) eqn:Ec.
  - apply andb_true_iff in Ec as [[[tok Ht]%bool_decide_eq_true_1 H1%bool_decide_eq_true_1]%andb_true_iff
                                  H2%bool_decide_eq_true_1].
    destruct (Hs tok Ht) as (sk & Hsk & ->). rewrite Ht. split_and!; try done.
    exists sk, (cached_at s). split_and!; [done| |lia|done]. done.
  - destruct (ensure_signing_key read s) as [s'|e] eqn:E.
    + apply ensure_resolves in E as ([sk Hsk] & H1 & H2 & H3 & Hk). rewrite Hsk. cbn.
      rewrite H2, H3. split_and!; try done.
      * intros tok [= <-]. by exists sk.
      * intros sk' Hsk'. destruct Hk as [Hk|[Hn _]]; congruence.
      * exists sk, now. unfold TOKEN_REFRESH_AFTER_MS. split_and!; [done|lia|lia|done].
    + split_and!; try done; unfold ensure_signing_key in E; destruct (signing_key s) eqn:Ek; try done.
      destruct (load_key read (key s)) as [?|e']; [done|]. cbn in E. congruence.
Qed.

Lemma run_keeps s ops :
  cache_ok s →
  cache_ok (signer_run s ops) ∧ key (signer_run s ops) = key s ∧ key_id (signer_run s ops) = key_id s ∧
  team_id (signer_run s ops) = team_id s.
Proof.
  unfold signer_run. revert s. induction ops as [|op ops IH]; intros s Hs; [done|]. cbn [foldl].
  assert (cache_ok (signer_step s op) ∧ key (signer_step s op) = key s ∧
          key_id (signer_step s op) = key_id s ∧ team_id (signer_step s op) = team_id s) as (H1 & H2 & H3 & H4).
  { destruct op as [read now|]; cbn [signer_step]; [|done].
    pose proof (get_token_spec read s now Hs) as H. destruct (get_token read s now) as [r s']. cbn. tauto. }
  destruct (IH _ H1) as (? & ? & ? & ?). split_and!; congruence || done.
Qed.

(** The provider token is always this signer's own and always fresh: after
    any history of calls, under any clock (backward steps included), a token
    that is returned is the ES256 token of the signer's key id and team, issued
    at most 50 minutes before and never in the future of the caller's clock, so
    inside Apple's hour; a failure is exactly the failure to load the key, and
    leaves the signer as it was. *)
Theorem token_fresh key0 key_id0 team_id0 ops read now :
  let s := signer_run (new key0 key_id0 team_id0) ops in
  let '(r, s') := get_token read s now in
  match r with
  | Ok tok => ∃ sk t, signing_key s' = Some sk ∧ tok = jwt sk key_id0 team_id0 (t / 1000) ∧
                (t ≤ now)%N ∧ (now - t < TOKEN_REFRESH_AFTER_MS)%N ∧ (now < t + TOKEN_VALID_MS)%N
  | Err e => load_key read key0 = Err e ∧ s' = s
  end.
Proof.
  cbv zeta. assert (cache_ok (new key0 key_id0 team_id0)) as H0 by done.
  destruct (run_keeps _ ops H0) as (Hc & Hk & Hi & Ht). cbn in Hk, Hi, Ht.
  pose proof (get_token_spec read _ now Hc) as H.
  destruct (get_token read (signer_run _ ops) now) as [[tok|e] s'].
  - destruct H as (_ & _ & _ & _ & _ & sk & t & Hsk & Hb & ->). exists sk, t. rewrite Hi, Ht.
    unfold TOKEN_REFRESH_AFTER_MS, TOKEN_VALID_MS in *. split_and!; try done; lia.
  - destruct H as (_ & _ & _ & _ & _ & -> & _ & H). by rewrite <-Hk.
Qed.

(** The key is loaded at most once: once resolved it never changes. *)
Lemma key_resolved_once s ops sk :
  cache_ok s → signing_key s = Some sk → signing_key (signer_run s ops) = Some sk.
Proof.
  unfold signer_run. revert s. induction ops as [|op ops IH]; intros s Hc Hs; [done|]. cbn [foldl]. apply IH.
  - by destruct (run_keeps s [op] Hc) as (? & _).
  - destruct op as [read now|]; [|done]. cbn. pose proof (get_token_spec read s now Hc) as H.
    destruct (get_token read s now) as [r s']. destruct H as (_ & _ & _ & _ & H & _). by apply H.
Qed.
End signer.

(** A stand-in that signs by prefixing the key. *)
Definition demo_jwt : JwtCrates := {|
  SigningKey := string;
  from_pkcs8_pem s := if decide (s = "") then Err "empty" else Ok s;
  sign k m := as_bytes k ++ m;
  b64url_bytes := nib_encode;
  json_text s := String (Ascii.ascii_of_N 34) (s +:+ String (Ascii.ascii_of_N 34) "")
|}.

Example backward_clock_resigns :
  let s := (get_token (J := demo_jwt) (λ _, Err "no file") (new (Pem " k ") "kid" "team") 9000000).2 in
  is_cache_valid (J := demo_jwt) s 8999999 = false ∧ is_cache_valid (J := demo_jwt) s 11999999 = true ∧
  is_cache_valid (J := demo_jwt) s 12000000 = false.
Proof. vm_compute. repeat split. Qed.
