(* ===== verification/Apns.v ===== *)
(** * Apns: the APNs client, [rust/tp-relay/src/apns.rs]: one request, its
    classification, and the retry loop.
    HTTP/2, the clock, sleeping and randomness come in through [Net]; JSON text
    is the linked crate's. *)
From stdpp Require Import base list numbers strings gmap fin_maps.
From Stdlib Require Import Lia NArith.
From S2P Require Import Prelude Bytes Text Json Push.
From S2P Require Jwt.

Definition apns_dead_token_reasons : list string := ["Unregistered"; "BadDeviceToken"].

Definition DEFAULT_MAX_RETRIES : N := 3.
Definition DEFAULT_RETRY_BASE_MS : N := 500.
Definition DEFAULT_REQUEST_TIMEOUT_MS : N := 10000.

Definition env_u64 (raw : option string) (dflt : N) : N := default dflt (raw ≫= parse_uint u64_max).
Definition env_u32 (raw : option string) (dflt : N) : N := default dflt (raw ≫= parse_uint u32_max).

Record ApnsClientConfig := mkApnsConfig {
  host : string;
  bundle_id : string;
  max_retries : N;
  retry_base_ms : N;
  request_timeout_ms : N
}.

(** The three environment variables [from_env] reads are arguments. *)
Definition from_env (host bundle_id : string) (retries base timeout : option string) : ApnsClientConfig :=
  mkApnsConfig host bundle_id (env_u32 retries DEFAULT_MAX_RETRIES) (env_u64 base DEFAULT_RETRY_BASE_MS)
    (env_u64 timeout DEFAULT_REQUEST_TIMEOUT_MS).

Definition resolve_apns_host (env : option string) : string :=
  match env with
  | Some e => if eq_ignore_ascii_case e "sandbox" then "api.sandbox.push.apple.com" else "api.push.apple.com"
  | None => "api.push.apple.com"
  end.

Record TransportRequest := mkRequest { url : string; headers : gmap string string; req_body : string }.

Record TransportResponse := mkResponse { status : N; retry_after : option string; resp_body : bytes }.

Definition is_token_char (c : Ascii.ascii) : bool :=
  let v := Ascii.N_of_ascii c in ((48 <=? v) && (v <=? 57) || (97 <=? v) && (v <=? 102))%N.

Definition is_valid_device_token (token : string) : bool :=
  bool_decide (str_len token = 64) && forallb is_token_char (as_bytes token).

Definition RETRY_AFTER_PREFIX : string := "HTTP 429 retry-after:".

Definition parse_retry_after_reason (reason : string) : option N :=
  strip_prefix RETRY_AFTER_PREFIX reason ≫= parse_uint u64_max.

Definition is_non_retryable_reason (reason : string) : bool :=
  match strip_prefix "HTTP " reason with
  | None => false
  | Some rest =>
      let status := default 0%N (parse_uint u16_max (take_digits rest)) in
      if decide (status = 429 ∨ 500 ≤ status < 600)%N then false
      else bool_decide (400 ≤ status < 500)%N
  end.

(** [1_u64.checked_shl(attempt).unwrap_or(u64::MAX)] *)
Definition multiplier (attempt : N) : N := if decide (attempt < 64)%N then (2 ^ attempt)%N else u64_max.

(** [random] is the eight bytes of [OsRng] as a number.  A duration is its
    milliseconds. *)
Definition backoff_delay (config : ApnsClientConfig) (attempt : N) (reason : string) (random : N) : N :=
  match parse_retry_after_reason reason with
  | Some secs => (secs * 1000)%N
  | None =>
      let exp := N.min u64_max (retry_base_ms config * multiplier attempt) in
      let jitter := (random mod N.max (retry_base_ms config) 1)%N in
      N.min u64_max (exp + jitter)
  end.

(** [serde_json]'s text side, and [{:?}] of a string. *)
Class ApnsCrates := {
  to_string : Value → result string string;
  from_slice : bytes → option Value;
  debug_str : string → string
}.

(** What a POST meets: an answer after some milliseconds, or none ever. *)
Abbreviation Answer := (option (N * result TransportResponse string)).

(** One attempt's view of the world. *)
Record Net := mkNet {
  n_now : N;
  n_read : string → result string string;
  n_post : TransportRequest → Answer;
  n_random : N
}.

Section client.
Context {J : Jwt.JwtCrates} {A : ApnsCrates}.

Definition is_time_sensitive (payload : ApnsPayload) : bool :=
  match ap_interruption_level payload with
  | Some l => eq_ignore_ascii_case l "time-sensitive"
  | None => false
  end.

Definition aps_value (payload : ApnsPayload) : Value :=
  let aps := map_insert (map_insert []
               "alert" (Object (map_insert (map_insert [] "title" (Str (ap_title payload)))
                                  "body" (Str (ap_body payload)))))
               "sound" (Str "default") in
  Object (match ap_interruption_level payload with
          | Some level => map_insert aps "interruption-level" (Str level)
          | None => aps
          end).

(** The copy loop runs in [HashMap] order; a sorted map does not remember it. *)
Definition body_obj (payload : ApnsPayload) : Value :=
  let m := match ap_data payload with
           | Some data => foldr (λ kv m, map_insert m kv.1 (Str kv.2)) [] (map_to_list data)
           | None => []
           end in
  Object (map_insert m "aps" (aps_value payload)).

Definition body_str (payload : ApnsPayload) : string :=
  match to_string (body_obj payload) with
  | Ok s => s
  | Err e => "{" +:+ quoted "aps" +:+ ":{" +:+ quoted "alert" +:+ ":" +:+ quoted ("serialization error: " +:+ e) +:+ "}}"
  end.

Definition request (config : ApnsClientConfig) (payload : ApnsPayload) (jwt : string) : TransportRequest :=
  let h := <["content-type" := "application/json"]> (<["apns-push-type" := "alert"]>
             (<["apns-topic" := bundle_id config]> (<["authorization" := "bearer " +:+ jwt]> ∅))) in
  mkRequest ("https://" +:+ host config +:+ "/3/device/" +:+ device_token payload)
    (if is_time_sensitive payload then <["apns-priority" := "10"]> h else h) (body_str payload).

Definition json_reason (body : bytes) : option string :=
  let?o v := from_slice body in let?o o := as_object v in let?o r := get o "reason" in as_str r.

(** From "Interpret response" on. *)
Definition interpret (resp : TransportResponse) : ApnsDeliveryResult :=
  if decide (status resp = 200%N) then ApnsOk
  else
    let jr := json_reason (resp_body resp) in
    let dead_token := match jr with
                      | Some r => bool_decide (r ∈ apns_dead_token_reasons)
                      | None => false
                      end in
    let http := "HTTP " +:+ print_dec (status resp) in
    let plain := match jr with Some r => http +:+ ": " +:+ r | None => http end in
    ApnsErr dead_token
      (if dead_token then default http jr
       else if decide (status resp = 429%N) then
         match retry_after resp ≫= parse_uint u64_max with
         | Some secs => RETRY_AFTER_PREFIX +:+ print_dec secs
         | None => plain
         end
       else plain).

(** The POST under the per-request deadline; [None]: it never returns. *)
Definition await_response (config : ApnsClientConfig) (answer : Answer)
  : option (result TransportResponse string) :=
  let timeout := request_timeout_ms config in
  if decide (timeout = 0%N) then snd <$> answer
  else
    let elapsed := Err ("request-timeout after " +:+ print_dec timeout +:+ "ms") in
    Some match answer with
         | Some (ms, r) => if decide (ms ≤ timeout)%N then r else elapsed
         | None => elapsed
         end.

(** [send_once]: the result, the signer after it, and the request posted. *)
Definition send_once (config : ApnsClientConfig) (signer : Jwt.ApnsSigner) (payload : ApnsPayload) (net : Net)
  : option (ApnsDeliveryResult * Jwt.ApnsSigner * option TransportRequest) :=
  match Jwt.get_token (n_read net) signer (n_now net) with
  | (Err e, signer) => Some (ApnsErr false ("jwt-error: " +:+ Jwt.error_display e), signer, None)
  | (Ok jwt, signer) =>
      if negb (is_valid_device_token (device_token payload)) then
        Some (ApnsErr false ("invalid-device-token: expected 64 lowercase hex chars, got "
                             +:+ debug_str (device_token payload)), signer, None)
      else
        let req := request config payload jwt in
        match await_response config (n_post net req) with
        | None => None
        | Some (Err e) => Some (ApnsErr false e, signer, Some req)
        | Some (Ok resp) => Some (interpret resp, signer, Some req)
        end
  end.

(** What a [send] did: its result, the signer, the requests in order and the
    sleeps between them. *)
Record Sent := mkSent {
  s_result : ApnsDeliveryResult;
  s_signer : Jwt.ApnsSigner;
  s_attempts : nat;
  s_posts : list TransportRequest;
  s_sleeps : list N
}.

(** The [for attempt in 0..max_attempts] loop with [n] iterations left. *)
Fixpoint send_loop (config : ApnsClientConfig) (payload : ApnsPayload) (nets : N → Net)
    (n : nat) (attempt : N) (last_err : ApnsDeliveryResult) (signer : Jwt.ApnsSigner) : option Sent :=
  match n with
  | O => Some (mkSent last_err signer 0 [] [])
  | S n' =>
      let?o (r, post) := send_once config signer payload (nets attempt) in
      let '(result, signer) := r in
      match result with
      | ApnsOk => Some (mkSent ApnsOk signer 1 (option_list post) [])
      | ApnsErr dead_token reason =>
          if dead_token || is_non_retryable_reason reason then Some (mkSent result signer 1 (option_list post) [])
          else
            match n' with
            | O => Some (mkSent result signer 1 (option_list post) [])
            | S _ =>
                let delay := backoff_delay config attempt reason (n_random (nets attempt)) in
                let?o rest := send_loop config payload nets n' (attempt + 1) result signer in
                Some (mkSent (s_result rest) (s_signer rest) (S (s_attempts rest))
                        (option_list post ++ s_posts rest) (delay :: s_sleeps rest))
            end
      end
  end.

Definition max_attempts (config : ApnsClientConfig) : N := N.min u32_max (max_retries config + 1).

Definition send (config : ApnsClientConfig) (signer : Jwt.ApnsSigner) (payload : ApnsPayload) (nets : N → Net)
  : option Sent :=
  send_loop config payload nets (N.to_nat (max_attempts config)) 0 (ApnsErr false "no attempts made") signer.

(** ** Classification of an answer *)

Definition retryable_status (s : N) : bool := negb (bool_decide (400 ≤ s < 500)%N && negb (bool_decide (s = 429%N))).

(** A reason of the form [HTTP <status><tail>]. *)
Lemma reason_status s tail :
  (s ≤ u16_max)%N → (∀ c r, tail = String c r → is_ascii_digit c = false) →
  is_non_retryable_reason ("HTTP " +:+ print_dec s +:+ tail) = negb (retryable_status s).
Proof.
  intros Hs Ht. unfold is_non_retryable_reason, retryable_status. rewrite negb_involutive.
  rewrite strip_prefix_app. rewrite take_digits_app by auto with tp. rewrite parse_print_dec by done.
  change (default 0%N (Some s)) with s. case_decide as H.
  - destruct H as [->|H]; [done|]. rewrite bool_decide_eq_false_2; [done|lia].
  - rewrite (bool_decide_eq_false_2 (s = 429%N)) by tauto. by rewrite andb_true_r.
Qed.

Lemma plain_not_retry_after s tail :
  (s ≤ u16_max)%N → tail = "" ∨ (∃ r, tail = ": " +:+ r) →
  parse_retry_after_reason ("HTTP " +:+ print_dec s +:+ tail) = None.
Proof.
  intros Hs Ht. unfold parse_retry_after_reason.
  destruct (strip_prefix RETRY_AFTER_PREFIX _) as [rest|] eqn:E; [|done]. exfalso.
  apply strip_prefix_Some in E.
  assert (∀ c r, tail = String c r → is_ascii_digit c = false) as Hd.
  { destruct Ht as [->|[r ->]]; [done|]. intros c r'. rewrite str_append_cons. by intros [= <- _]. }
  assert (RETRY_AFTER_PREFIX +:+ rest = "HTTP " +:+ ("429" +:+ (" retry-after:" +:+ rest))) as Hp
    by (unfold RETRY_AFTER_PREFIX; by rewrite !str_append_cons).
  rewrite Hp in E. assert (∀ a b, "HTTP " +:+ a = "HTTP " +:+ b → a = b) as Hinj.
  { intros a b. rewrite !str_append_cons. by intros [= ?]. }
  apply Hinj in E. pose proof (f_equal take_digits E) as Hq.
  rewrite take_digits_app in Hq by auto with tp.
  rewrite (take_digits_app "429") in Hq; [|done|by intros c r; rewrite str_append_cons; intros [= <- _]].
  assert (s = 429%N) as ->.
  { pose proof (parse_print_dec u16_max s Hs) as Hps. rewrite Hq in Hps. vm_compute in Hps. congruence. }
  change (print_dec 429) with "429" in E. rewrite !str_append_cons in E. injection E as E.
  destruct Ht as [->|[r ->]]; [done|]. rewrite !str_append_cons in E. by injection E.
Qed.

(** The answer of APNs is understood exactly, although it travels through a
    text: only a 200 is a success; a token is declared dead exactly when APNs'
    own reason says so; for any other failure the text tells the retry loop to
    stop exactly on the 4xx statuses other than 429, and yields a wait exactly
    when a 429 carried a readable [Retry-After], whatever else the body says. *)
Theorem apns_classify resp :
  (status resp ≤ u16_max)%N →
  (interpret resp = ApnsOk ↔ status resp = 200%N) ∧
  ∀ dead reason, interpret resp = ApnsErr dead reason →
    (dead = true ↔ ∃ r, json_reason (resp_body resp) = Some r ∧ r ∈ apns_dead_token_reasons) ∧
    (dead = true → json_reason (resp_body resp) = Some reason) ∧
    (dead = false →
       is_non_retryable_reason reason = negb (retryable_status (status resp)) ∧
       parse_retry_after_reason reason
       = if decide (status resp = 429%N) then retry_after resp ≫= parse_uint u64_max else None).
Proof.
  intros Hs. unfold interpret. destruct (decide (status resp = 200%N)) as [|H200]; [done|]. split; [done|].
  set (jr := json_reason (resp_body resp)).
  set (plain := match jr with Some r => ("HTTP " +:+ print_dec (status resp)) +:+ ": " +:+ r
                         | None => "HTTP " +:+ print_dec (status resp) end).
  assert (is_non_retryable_reason plain = negb (retryable_status (status resp)) ∧
          parse_retry_after_reason plain = None) as [P1 P2].
  { assert (∃ tail, plain = "HTTP " +:+ print_dec (status resp) +:+ tail ∧ (tail = "" ∨ ∃ r, tail = ": " +:+ r))
      as (tail & -> & Ht).
    { unfold plain. destruct jr as [r|]; [|exists ""; by rewrite str_append_nil_r; auto].
      exists (": " +:+ r). rewrite str_append_assoc. eauto. }
    split; [|by apply plain_not_retry_after]. apply reason_status; [done|].
    destruct Ht as [->|[r ->]]; [done|]. intros c r'. rewrite str_append_cons. by intros [= <- _]. }
  assert (∀ secs, (secs ≤ u64_max)%N →
            is_non_retryable_reason (RETRY_AFTER_PREFIX +:+ print_dec secs) = false ∧
            parse_retry_after_reason (RETRY_AFTER_PREFIX +:+ print_dec secs) = Some secs) as HRA.
  { intros secs Hsecs. split.
    { assert (RETRY_AFTER_PREFIX +:+ print_dec secs = "HTTP " +:+ print_dec 429 +:+ (" retry-after:" +:+ print_dec secs))
        as -> by (change (print_dec 429) with "429"; unfold RETRY_AFTER_PREFIX; by rewrite !str_append_cons).
      apply (reason_status 429); [done|]. intros c r. rewrite str_append_cons. by intros [= <- _]. }
    unfold parse_retry_after_reason. rewrite strip_prefix_app. cbn. by apply parse_print_dec. }
  intros dead reason [= <- <-]. split_and!.
  - destruct jr as [r|]; [|by split; [|intros (? & ? & _)]]. rewrite bool_decide_eq_true. split; [by eauto|].
    by intros (? & [= <-] & ?).
  - destruct jr as [r|]; [|done]. by intros ->.
  - intros ->. case_decide as H429; [|done]. rewrite H429 in *.
    destruct (retry_after resp ≫= parse_uint u64_max) as [secs|] eqn:E; [|done].
    apply HRA. destruct (retry_after resp); [|done]. by eapply parse_uint_le.
Qed.

(** ** The retry loop *)

Definition final (r : ApnsDeliveryResult) : bool :=
  match r with ApnsOk => true | ApnsErr dead reason => dead || is_non_retryable_reason reason end.

(** The results [n] attempts in a row would have. *)
Fixpoint outcomes (config : ApnsClientConfig) (payload : ApnsPayload) (nets : N → Net) (n : nat) (attempt : N)
    (signer : Jwt.ApnsSigner) : list ApnsDeliveryResult :=
  match n with
  | O => []
  | S n =>
      match send_once config signer payload (nets attempt) with
      | Some (r, signer, _) => r :: outcomes config payload nets n (attempt + 1) signer
      | None => []
      end
  end.

(** Reference semantics: up to the first final result, or all of them. *)
Fixpoint until_final (l : list ApnsDeliveryResult) : list ApnsDeliveryResult :=
  match l with
  | [] => []
  | r :: l => if final r then [r] else r :: until_final l
  end.

Lemma send_once_answers config signer payload net :
  request_timeout_ms config ≠ 0%N → is_Some (send_once config signer payload net).
Proof.
  intros Ht. unfold send_once. destruct (Jwt.get_token _ _ _) as [[jwt|e] s]; [|by eexists].
  destruct (negb _); [by eexists|]. unfold await_response. rewrite decide_False by done.
  destruct (n_post net _) as [[ms r]|]; [|by eexists]. case_decide; [destruct r|]; by eexists.
Qed.

Lemma send_once_post config signer payload net r s post :
  send_once config signer payload net = Some (r, s, post) →
  (∀ q, post = Some q → is_valid_device_token (device_token payload) = true ∧
                   ∃ jwt, q = request config payload jwt) ∧
  (is_valid_device_token (device_token payload) = false →
     post = None ∧ final r = false ∧ s = (Jwt.get_token (n_read net) signer (n_now net)).2).
Proof.
  unfold send_once. destruct (Jwt.get_token _ _ _) as [[jwt|e] s'].
  - destruct (is_valid_device_token _) eqn:Ev; cbn [negb].
    + destruct (await_response _ _) as [[resp|e]|]; intros [= <- <- <-] || done; (split; [|done]);
        intros q [= <-]; eauto.
    + intros [= <- <- <-]. done.
  - by intros [= <- <- <-].
Qed.

(** The loop is the reference semantics, and posts at most once per attempt. *)
Lemma send_loop_spec config payload nets n attempt last signer :
  request_timeout_ms config ≠ 0%N → (0 < n)%nat →
  ∃ sent, send_loop config payload nets n attempt last signer = Some sent ∧
    let tried := until_final (outcomes config payload nets n attempt signer) in
    list.last tried = Some (s_result sent) ∧ s_attempts sent = length tried ∧
    length (s_posts sent) ≤ s_attempts sent ∧ S (length (s_sleeps sent)) = s_attempts sent ∧
    s_attempts sent ≤ n ∧
    (∀ q, q ∈ s_posts sent → is_valid_device_token (device_token payload) = true ∧
                        ∃ jwt, q = request config payload jwt) ∧
    (is_valid_device_token (device_token payload) = false → s_posts sent = [] ∧ s_attempts sent = n).
Proof.
  intros Ht. revert attempt last signer. induction n as [|n IH]; intros attempt last signer Hn; [lia|].
  cbn [send_loop outcomes]. destruct (send_once_answers config signer payload (nets attempt) Ht)
    as [[[r s] post] E]. rewrite E. cbn [until_final].
  destruct (send_once_post _ _ _ _ _ _ _ E) as [Hp Hv].
  assert (∀ q, q ∈ option_list post → is_valid_device_token (device_token payload) = true ∧
            ∃ jwt, q = request config payload jwt) as Hq.
  { intros q Hq. apply Hp. destruct post; cbn in Hq; [|by apply elem_of_nil in Hq].
    by apply list_elem_of_singleton in Hq as ->. }
  assert (length (option_list post) ≤ 1) as Hl by (destruct post; cbn; lia).
  destruct (final r) eqn:Ef.
  { exists (mkSent r s 1 (option_list post) []). split.
    { destruct r as [|d reason]; [done|]. cbn in Ef |- *. by rewrite Ef. }
    cbn. split_and!; try done; try lia. intros Hinv. destruct (Hv Hinv) as (_ & ? & _). congruence. }
  destruct r as [|d reason]; [done|]. cbn in Ef. cbn -[send_loop outcomes]. rewrite Ef. destruct n as [|n].
  { eexists. split; [done|]. cbn. split_and!; try done; try lia. intros Hinv.
    destruct (Hv Hinv) as (-> & _). done. }
  destruct (IH (attempt + 1)%N (ApnsErr d reason) s ltac:(lia)) as (sent & E' & H1 & H2 & H3 & H4 & H5 & H6 & H7).
  rewrite E'. eexists. split; [done|]. cbn [s_result s_attempts s_posts s_sleeps length].
  rewrite length_app. split_and!; try lia.
  - destruct (until_final _) eqn:El; [done|]. done.
  - intros q [Hin|Hin]%elem_of_app; auto.
  - intros Hinv. destruct (Hv Hinv) as (-> & _), (H7 Hinv) as (-> & ->). done.
Qed.

Lemma outcomes_length config payload nets n attempt signer :
  request_timeout_ms config ≠ 0%N → length (outcomes config payload nets n attempt signer) = n.
Proof.
  intros Ht. revert attempt signer. induction n as [|n IH]; intros attempt signer; [done|]. cbn.
  destruct (send_once_answers config signer payload (nets attempt) Ht) as [[[r s] post] ->]. cbn. by rewrite IH.
Qed.

Lemma max_attempts_pos config : 0 < N.to_nat (max_attempts config).
Proof. unfold max_attempts, u32_max. lia. Qed.

(** Delivery with retries, under any network, clock and key store: with a
    deadline configured [send] always returns; it makes at most
    [max_retries + 1] attempts, one request each at most, with one pause between
    attempts; it stops at the first success, dead token or permanent refusal,
    and otherwise reports the last failure. *)
Theorem send_bounded config signer payload nets :
  request_timeout_ms config ≠ 0%N →
  let max := N.to_nat (max_attempts config) in
  let tried := until_final (outcomes config payload nets max 0 signer) in
  ∃ sent, send config signer payload nets = Some sent ∧
    list.last tried = Some (s_result sent) ∧ s_attempts sent = length tried ∧
    (N.of_nat (s_attempts sent) ≤ max_retries config + 1)%N ∧
    length (s_posts sent) ≤ s_attempts sent ∧ S (length (s_sleeps sent)) = s_attempts sent.
Proof.
  intros Ht. cbv zeta. destruct (send_loop_spec config payload nets (N.to_nat (max_attempts config)) 0
    (ApnsErr false "no attempts made") signer Ht (max_attempts_pos config))
    as (sent & E & H1 & H2 & H3 & H4 & H5 & _). exists sent. split_and!; try done.
  unfold max_attempts in H5. lia.
Qed.

(** ** What is posted *)

Lemma get_foldr_insert (l : list (string * string)) key :
  NoDup l.*1 →
  get (foldr (λ kv m, map_insert m kv.1 (Str kv.2)) [] l) key = Str <$> (list_to_map l : gmap string string) !! key.
Proof.
  induction l as [|[k v] l IH]; [done|]. cbn. intros [_ Hnd]%NoDup_cons. rewrite get_map_insert.
  destruct (String.eqb_spec k key) as [->|Hne].
  - by rewrite lookup_insert_eq.
  - rewrite lookup_insert_ne by done. by apply IH.
Qed.

(** The APNs part wins over the caller's data, which is otherwise forwarded. *)
Lemma body_obj_spec payload :
  ∃ o, body_obj payload = Object o ∧ get o "aps" = Some (aps_value payload) ∧
    ∀ k, k ≠ "aps" → get o k = Str <$> (ap_data payload ≫= λ d, d !! k).
Proof.
  unfold body_obj. eexists. split; [done|]. split; [by rewrite get_map_insert|].
  intros k Hk. rewrite get_map_insert. destruct (String.eqb_spec "aps" k) as [<-|]; [done|].
  destruct (ap_data payload) as [d|]; [|done].
  rewrite get_foldr_insert by apply NoDup_fst_map_to_list. by rewrite list_to_map_to_list.
Qed.

Lemma valid_token_chars tok c :
  is_valid_device_token tok = true → c ∈ as_bytes tok → is_token_char c = true.
Proof.
  unfold is_valid_device_token. intros [_ H]%andb_true_iff Hc.
  rewrite forallb_forall in H. apply H. by apply list_elem_of_In.
Qed.

(** Whatever token, payload and network, every request [send] posts goes to
    [https://<host>/3/device/<token>] with a token of 64 characters of
    [0-9a-f] (so nothing of it is read as URL syntax), for the configured bundle,
    with a body whose [aps] member is the relay's and whose other members are
    the caller's data; an invalid token is never posted. *)
Theorem posts_are_safe config signer payload nets sent q :
  request_timeout_ms config ≠ 0%N → send config signer payload nets = Some sent → q ∈ s_posts sent →
  url q = "https://" +:+ host config +:+ "/3/device/" +:+ device_token payload ∧
  str_len (device_token payload) = 64 ∧ (∀ c, c ∈ as_bytes (device_token payload) → is_token_char c = true) ∧
  headers q !! "apns-topic" = Some (bundle_id config) ∧
  (headers q !! "apns-priority" = if is_time_sensitive payload then Some "10" else None) ∧
  req_body q = body_str payload.
Proof.
  intros Ht Hs Hq. destruct (send_loop_spec config payload nets (N.to_nat (max_attempts config)) 0
    (ApnsErr false "no attempts made") signer Ht (max_attempts_pos config))
    as (sent' & E & _ & _ & _ & _ & _ & Hp & _).
  unfold send in Hs. assert (sent' = sent) as -> by congruence.
  destruct (Hp q Hq) as (Hv & jwt & ->). split_and!; try done.
  - unfold is_valid_device_token in Hv. by apply andb_true_iff in Hv as [?%bool_decide_eq_true_1 _].
  - intros c. by apply valid_token_chars.
  - unfold request. cbn [headers]. by destruct (is_time_sensitive payload).
  - unfold request. cbn [headers]. by destruct (is_time_sensitive payload).
Qed.

(** A token that can never be posted is nevertheless retried to exhaustion,
    sleeping before each retry, although no attempt can succeed: the refusal's
    text does not start with [HTTP ]. *)
Lemma invalid_token_is_retried config signer payload nets :
  request_timeout_ms config ≠ 0%N → is_valid_device_token (device_token payload) = false →
  ∃ sent, send config signer payload nets = Some sent ∧ s_posts sent = [] ∧
    s_attempts sent = N.to_nat (max_attempts config) ∧
    S (length (s_sleeps sent)) = N.to_nat (max_attempts config).
Proof.
  intros Ht Hv. destruct (send_loop_spec config payload nets (N.to_nat (max_attempts config)) 0
    (ApnsErr false "no attempts made") signer Ht (max_attempts_pos config))
    as (sent & E & _ & _ & _ & H4 & _ & _ & H7).
  destruct (H7 Hv) as [H8 H9]. exists sent. split_and!; try done. by rewrite <-H9.
Qed.
End client.

(** ** Witnesses *)

Module Demo.
#[local] Instance jwt_crates : Jwt.JwtCrates := Jwt.demo_jwt.
#[local] Instance crates : ApnsCrates := {|
  to_string v := match v with Object o => Ok (foldr (λ kv s, kv.1 +:+ ";" +:+ s) "" o) | _ => Err "not an object" end;
  from_slice b := if decide (b = []) then None else Some (Object [("reason", Str (str_of_bytes b))]);
  debug_str s := s
|}.

Definition config : ApnsClientConfig := mkApnsConfig "h" "dev.tpmt.app" 3 500 10000.
Definition signer : Jwt.ApnsSigner := Jwt.new (Jwt.Pem "k") "kid" "team".
Definition token : string := "00112233445566778899aabbccddeeff00112233445566778899aabbccddeeff".
Definition payload : ApnsPayload := mkApnsPayload token "t" "b" (Some "time-sensitive") (Some {[ "sid" := "s1" ]}).

(** A throttled request, then a server error, then success. *)
Definition net (attempt : N) : Net :=
  mkNet 1000 (λ _, Err "no file")
    (λ _, if decide (attempt = 0%N) then Some (20%N, Ok (mkResponse 429 (Some "7") []))
          else if decide (attempt = 1%N) then Some (20%N, Ok (mkResponse 503 None []))
          else Some (20%N, Ok (mkResponse 200 None []))) 42.

Lemma apns_classify_witness :
  let resp := mkResponse 400 None (as_bytes "BadDeviceToken") in
  interpret resp = ApnsErr true "BadDeviceToken" ∧
  ∃ r, json_reason (resp_body resp) = Some r ∧ r ∈ apns_dead_token_reasons.
Proof.
  cbv zeta. assert (interpret (mkResponse 400 None (as_bytes "BadDeviceToken")) = ApnsErr true "BadDeviceToken") as H
    by (vm_compute; reflexivity).
  split; [exact H|].
  destruct (apns_classify (mkResponse 400 None (as_bytes "BadDeviceToken"))) as [_ Hc]; [vm_compute; discriminate|].
  destruct (Hc _ _ H) as ((Hd & _) & _). exact (Hd eq_refl).
Defined.

Lemma send_bounded_witness :
  ∃ sent, send config signer payload net = Some sent ∧ s_result sent = ApnsOk ∧ s_attempts sent = 3 ∧
    (N.of_nat (s_attempts sent) ≤ 4)%N ∧ s_sleeps sent = [7000; 1042]%N.
Proof.
  destruct (send_bounded config signer payload net) as (sent & E & _ & _ & Hb & _ & _); [discriminate|].
  exists sent. split; [exact E|]. revert E. vm_compute. intros [= <-]. repeat split. discriminate.
Defined.

Lemma posts_are_safe_witness :
  ∃ sent q, send config signer payload net = Some sent ∧ q ∈ s_posts sent ∧
    url q = "https://" +:+ "h" +:+ "/3/device/" +:+ token.
Proof.
  assert (is_Some (send config signer payload net)) as [sent E] by (vm_compute; by eexists).
  assert (is_Some (head (s_posts sent))) as [q Hq].
  { revert E. vm_compute. intros [= <-]. by eexists. }
  exists sent, q. split; [exact E|]. assert (q ∈ s_posts sent) as Hin by by apply head_Some_elem_of.
  split; [exact Hin|]. apply (posts_are_safe config signer payload net sent q); [discriminate|exact E|exact Hin].
Defined.
End Demo.
