(* ===== verification/Rate.v ===== *)
(** * Rate: the limiter interface and its configuration, [rust/tp-relay/src/rate.rs].
    GCRA itself is the [governor] crate: a class states what the relay asks of
    it, and no law is assumed of it. *)
From stdpp Require Import base list numbers strings.
From Stdlib Require Import NArith.
From S2P Require Import Prelude Bytes Text.

Definition DEFAULT_RATE_PER_CLIENT : N := 500.
Definition DEFAULT_RATE_PER_DAEMON : N := 5000.

(** [RateLimiter::direct(Quota::per_second(n))] and its [check] against the
    monotonic clock. *)
Class Governor := {
  limiter : Type;
  direct : N → limiter;
  governor_check : limiter → N → bool * limiter
}.

Section limiter_ops.
Context {G : Governor}.

(** [Limiter::per_second]: a zero quota is clamped to one. *)
Definition per_second (rate : N) : limiter := direct (N.max rate 1).

(** [Limiter::check] *)
Definition check (l : limiter) (instant : N) : bool * limiter := governor_check l instant.
End limiter_ops.

(** [env_u32]: unset, empty, unparsable and zero all mean "use the default". *)
Definition env_u32 (raw : option string) : option N :=
  match raw with
  | None => None
  | Some s =>
      if decide (s = "") then None
      else match parse_uint u32_max s with
           | Some v => if decide (v = 0%N) then None else Some v
           | None => None
           end
  end.

Definition rate_per_client_from_env (raw : option string) : N := default DEFAULT_RATE_PER_CLIENT (env_u32 raw).
Definition rate_per_daemon_from_env (raw : option string) : N := default DEFAULT_RATE_PER_DAEMON (env_u32 raw).

(** Whatever the environment says, rate limiting stays on and fits in a u32. *)
Lemma rate_from_env_positive raw :
  (0 < rate_per_client_from_env raw ≤ u32_max)%N ∧ (0 < rate_per_daemon_from_env raw ≤ u32_max)%N.
Proof.
  unfold rate_per_client_from_env, rate_per_daemon_from_env, env_u32.
  destruct raw as [s|]; [|vm_compute; repeat split; congruence].
  case_decide; [vm_compute; repeat split; congruence|].
  destruct (parse_uint u32_max s) as [v|] eqn:E; [|vm_compute; repeat split; congruence].
  apply parse_uint_le in E. case_decide as H0; cbn [default]; [vm_compute; repeat split; congruence|].
  assert (0 < v)%N by lia. done.
Qed.

(** A limiter that always admits the first [n] checks: a stand-in to run the model. *)
Definition counting_governor : Governor :=
  {| limiter := N; direct := id; governor_check n _ := (bool_decide (0 < n)%N, (n - 1)%N) |}.
