(* ===== verification/Metrics.v ===== *)
(** * Metrics: the relay's capacity counters, [rust/tp-relay/src/metrics.rs].
    [fetch_add(1)] on an [AtomicU64] wraps. *)
From stdpp Require Import base numbers.
From Stdlib Require Import NArith.
From S2P Require Import Prelude.

Record Metrics := mkMetrics {
  frames_in : N; frames_out : N; rate_limited_drops : N; daemon_rate_limited_drops : N;
  backpressure_disconnects : N; auth_timeouts : N; oversized_drops : N; unknown_type_drops : N;
  evictions : N; resumes_attempted : N; resumes_accepted : N; resumes_rejected : N
}.

Definition new : Metrics := mkMetrics 0 0 0 0 0 0 0 0 0 0 0 0.

Definition incr (n : N) : N := ((n + 1) mod 2 ^ 64)%N.

Definition inc_frames_in (m : Metrics) : Metrics :=
  let (a, b, c, d, e, f, g, h, i, j, k, l) := m in mkMetrics (incr a) b c d e f g h i j k l.
Definition inc_frames_out (m : Metrics) : Metrics :=
  let (a, b, c, d, e, f, g, h, i, j, k, l) := m in mkMetrics a (incr b) c d e f g h i j k l.
Definition inc_rate_limited_drops (m : Metrics) : Metrics :=
  let (a, b, c, d, e, f, g, h, i, j, k, l) := m in mkMetrics a b (incr c) d e f g h i j k l.
Definition inc_daemon_rate_limited_drops (m : Metrics) : Metrics :=
  let (a, b, c, d, e, f, g, h, i, j, k, l) := m in mkMetrics a b c (incr d) e f g h i j k l.
Definition inc_backpressure_disconnects (m : Metrics) : Metrics :=
  let (a, b, c, d, e, f, g, h, i, j, k, l) := m in mkMetrics a b c d (incr e) f g h i j k l.
Definition inc_auth_timeouts (m : Metrics) : Metrics :=
  let (a, b, c, d, e, f, g, h, i, j, k, l) := m in mkMetrics a b c d e (incr f) g h i j k l.
Definition inc_oversized_drops (m : Metrics) : Metrics :=
  let (a, b, c, d, e, f, g, h, i, j, k, l) := m in mkMetrics a b c d e f (incr g) h i j k l.
Definition inc_unknown_type_drops (m : Metrics) : Metrics :=
  let (a, b, c, d, e, f, g, h, i, j, k, l) := m in mkMetrics a b c d e f g (incr h) i j k l.
Definition inc_evictions (m : Metrics) : Metrics :=
  let (a, b, c, d, e, f, g, h, i, j, k, l) := m in mkMetrics a b c d e f g h (incr i) j k l.
Definition inc_resumes_attempted (m : Metrics) : Metrics :=
  let (a, b, c, d, e, f, g, h, i, j, k, l) := m in mkMetrics a b c d e f g h i (incr j) k l.
Definition inc_resumes_accepted (m : Metrics) : Metrics :=
  let (a, b, c, d, e, f, g, h, i, j, k, l) := m in mkMetrics a b c d e f g h i j (incr k) l.
Definition inc_resumes_rejected (m : Metrics) : Metrics :=
  let (a, b, c, d, e, f, g, h, i, j, k, l) := m in mkMetrics a b c d e f g h i j k (incr l).

(** [snapshot]: one load per counter; without a concurrent increment, the state. *)
Definition snapshot (m : Metrics) : Metrics :=
  mkMetrics (frames_in m) (frames_out m) (rate_limited_drops m) (daemon_rate_limited_drops m)
    (backpressure_disconnects m) (auth_timeouts m) (oversized_drops m) (unknown_type_drops m)
    (evictions m) (resumes_attempted m) (resumes_accepted m) (resumes_rejected m).
