(* ===== verification/Server.v ===== *)
(** * Server: the relay's shared state and synchronous routing,
    [rust/tp-relay/src/server.rs].
    Everything here runs under the one [RelayCore] mutex.  [Arc<Limiter>] sharing
    is explicit: limiters live in a heap and handles hold references to it. *)
From stdpp Require Import base list numbers strings gmap fin_maps fin_map_dom.
From Stdlib Require Import Lia NArith.
From S2P Require Import Prelude Bytes Json Text Messages Ring Registry Rate.

Definition DEFAULT_OUTBOX_CAP : nat := 512.
Definition MAX_SUBSCRIPTIONS_PER_CLIENT : nat := 256.
Definition DEFAULT_STALE_TIMEOUT_MS : N := 90000.
Definition DEFAULT_OFFLINE_EVICT_MS : N := 3600000.
Definition STALE_CHECK_INTERVAL_MS : N := 30000.
Definition WS_IDLE_TIMEOUT_S : N := 90.
Definition DEFAULT_MAX_PREAUTH_MSGS : N := 30.

Definition max_preauth_msgs_from_env (raw : option string) : N :=
  default DEFAULT_MAX_PREAUTH_MSGS (raw ≫= parse_uint u32_max).

Abbreviation ConnId := N.
Abbreviation LimRef := N.

Record AuthState := mkAuthState {
  role : Role;
  auth_daemon_id : string;
  auth_frontend_id : option string;
  subscriptions : gset string
}.

(** The outbox and close channels are the [tokio] side of a handle: whether a
    send on them succeeds is the environment's answer in [Conn]. *)
Record ConnHandle := mkHandle {
  client_limiter : LimRef;
  group_limiter : option LimRef;
  auth : option AuthState;
  preauth_count : N
}.

Inductive Action : Type :=
| ASend (target : ConnId) (msg : RelayServerMessage)
| AClose (target : ConnId) (code : N) (reason : string).

Section server.
Context {G : Governor} {HIS : HashIter string} {HIC : HashIter N}.

Record RelayCore := mkCore {
  registry : Registry;
  recent : RecentFrames;
  groups : gmap string (gset ConnId);
  conns : gmap ConnId ConnHandle;
  group_limiters : gmap string LimRef;
  rate_per_client : N;
  rate_per_daemon : N;
  heap : gmap LimRef limiter;          (* the [Arc]s' targets *)
  heap_next : LimRef
}.

Definition core_new (recent : RecentFrames) (rate_per_client rate_per_daemon : N)
    (max_registrations : nat) : RelayCore :=
  mkCore (with_max_registrations max_registrations) recent ∅ ∅ ∅ rate_per_client rate_per_daemon ∅ 0.

Definition set_registry (c : RelayCore) (r : Registry) : RelayCore :=
  mkCore r (recent c) (groups c) (conns c) (group_limiters c) (rate_per_client c) (rate_per_daemon c)
    (heap c) (heap_next c).
Definition set_recent (c : RelayCore) (r : RecentFrames) : RelayCore :=
  mkCore (registry c) r (groups c) (conns c) (group_limiters c) (rate_per_client c) (rate_per_daemon c)
    (heap c) (heap_next c).
Definition set_groups (c : RelayCore) (g : gmap string (gset ConnId)) : RelayCore :=
  mkCore (registry c) (recent c) g (conns c) (group_limiters c) (rate_per_client c) (rate_per_daemon c)
    (heap c) (heap_next c).
Definition set_conns (c : RelayCore) (m : gmap ConnId ConnHandle) : RelayCore :=
  mkCore (registry c) (recent c) (groups c) m (group_limiters c) (rate_per_client c) (rate_per_daemon c)
    (heap c) (heap_next c).
Definition set_group_limiters (c : RelayCore) (m : gmap string LimRef) : RelayCore :=
  mkCore (registry c) (recent c) (groups c) (conns c) m (rate_per_client c) (rate_per_daemon c)
    (heap c) (heap_next c).
Definition set_heap (c : RelayCore) (h : gmap LimRef limiter) : RelayCore :=
  mkCore (registry c) (recent c) (groups c) (conns c) (group_limiters c) (rate_per_client c)
    (rate_per_daemon c) h (heap_next c).

(** [Arc::new(Limiter::per_second(rate))] *)
Definition alloc_limiter (c : RelayCore) (rate : N) : LimRef * RelayCore :=
  (heap_next c,
   mkCore (registry c) (recent c) (groups c) (conns c) (group_limiters c) (rate_per_client c)
     (rate_per_daemon c) (<[heap_next c := per_second rate]> (heap c)) (heap_next c + 1)).

(** [core.conns.insert(conn_id, ConnHandle::new(out_tx, close_tx, rate))] *)
Definition insert_conn (c : RelayCore) (conn_id : ConnId) : RelayCore :=
  let '(l, c) := alloc_limiter c (rate_per_client c) in
  set_conns c (<[conn_id := mkHandle l None None 0]> (conns c)).

Definition group_limiter_for (c : RelayCore) (daemon_id : string) : LimRef * RelayCore :=
  match group_limiters c !! daemon_id with
  | Some l => (l, c)
  | None =>
      let '(l, c) := alloc_limiter c (rate_per_daemon c) in
      (l, set_group_limiters c (<[daemon_id := l]> (group_limiters c)))
  end.

Definition add_to_group (c : RelayCore) (daemon_id : string) (conn_id : ConnId) : RelayCore :=
  set_groups c (<[daemon_id := default ∅ (groups c !! daemon_id) ∪ {[conn_id]}]> (groups c)).

Definition remove_from_group (c : RelayCore) (daemon_id : string) (conn_id : ConnId) : RelayCore :=
  match groups c !! daemon_id with
  | Some group =>
      let group := group ∖ {[conn_id]} in
      if decide (group = ∅)
      then set_group_limiters (set_groups c (delete daemon_id (groups c)))
             (delete daemon_id (group_limiters c))
      else set_groups c (<[daemon_id := group]> (groups c))
  | None => c
  end.

(** [core.conns.get(&id).and_then(|h| h.auth.as_ref())] *)
Definition peer_auth (c : RelayCore) (id : ConnId) : option AuthState := conns c !! id ≫= auth.

(** [group.iter().copied().filter(..).filter(..)] *)
Definition group_targets (c : RelayCore) (daemon_id : string) (P : ConnId → AuthState → bool) : list ConnId :=
  match groups c !! daemon_id with
  | None => []
  | Some group =>
      filter (λ id, from_option (P id) false (peer_auth c id) = true) (set_iter group)
  end.

Definition frame_payload (frame : Frame) : Frame :=
  mkFrameMsg (f_sid frame) (f_ct frame) (f_seq frame) (f_from frame)
    (if decide (f_from frame = Daemon) then None else f_frontend_id frame).

Definition route_publish (core : RelayCore) (sender_id : ConnId) (client : AuthState)
    (sid ct : string) (seq now : N) : list Action * RelayCore :=
  let did := auth_daemon_id client in
  let is_daemon := bool_decide (role client = Daemon) in
  let core := if is_daemon then set_registry core (daemon_pub (registry core) did sid now) else core in
  let frame := mkFrameMsg sid ct seq (role client) (if is_daemon then None else auth_frontend_id client) in
  let core := set_recent core (push (recent core) did frame) in
  let targets := group_targets core did
    (λ id a, bool_decide (id ≠ sender_id) && bool_decide (sid ∈ subscriptions a)) in
  ((λ id, ASend id (FrameMsg (frame_payload frame))) <$> targets, core).

Definition route_key_exchange (core : RelayCore) (sender_id : ConnId) (client : AuthState) (ct : string)
  : list Action :=
  (λ id, ASend id (KeyExchangeFrame (mkKx ct (role client)))) <$>
    group_targets core (auth_daemon_id client)
      (λ id a, bool_decide (id ≠ sender_id) && bool_decide (role a ≠ role client)).

Definition set_auth (h : ConnHandle) (a : option AuthState) : ConnHandle :=
  mkHandle (client_limiter h) (group_limiter h) a (preauth_count h).

Definition set_subscriptions (a : AuthState) (s : gset string) : AuthState :=
  mkAuthState (role a) (auth_daemon_id a) (auth_frontend_id a) s.

Definition TOO_MANY_SUBS : RelayServerMessage :=
  RErr (mkErr "TOO_MANY_SUBS" (Some "Max 256 subscriptions per client") None).

(** [handle.auth.as_mut().map(|a| a.subscriptions = f(..))] *)
Definition map_subscriptions (core : RelayCore) (id : ConnId) (f : gset string → gset string) : RelayCore :=
  set_conns core
    (alter (λ h, set_auth h ((λ a, set_subscriptions a (f (subscriptions a))) <$> auth h)) id (conns core)).

Definition route_subscribe (core : RelayCore) (sender_id : ConnId) (sid : string) (after : option N)
  : list Action * RelayCore :=
  match peer_auth core sender_id with
  | None => ([], core)
  | Some a =>
      if decide (MAX_SUBSCRIPTIONS_PER_CLIENT ≤ size (subscriptions a))
      then ([ASend sender_id TOO_MANY_SUBS], core)
      else
        let freshly_inserted := bool_decide (sid ∉ subscriptions a) in
        let core := map_subscriptions core sender_id (λ s, s ∪ {[sid]}) in
        let core :=
          if bool_decide (role a = Frontend) && freshly_inserted
          then set_registry core (update_state (registry core) (auth_daemon_id a) (λ s, attach s sid))
          else core in
        match after with
        | None => ([], core)
        | Some after =>
            ((λ cached, ASend sender_id (FrameMsg (frame_payload cached))) <$>
               replay_after (recent core) (auth_daemon_id a) sid after, core)
        end
  end.

Definition route_unsubscribe (core : RelayCore) (sender_id : ConnId) (sid : string) : RelayCore :=
  match peer_auth core sender_id with
  | None => core
  | Some a =>
      let core := map_subscriptions core sender_id (λ s, s ∖ {[sid]}) in
      if decide (role a = Frontend)
      then set_registry core (update_state (registry core) (auth_daemon_id a) (λ s, detach s sid))
      else core
  end.

Definition route_ping (core : RelayCore) (sender_id : ConnId) (client : AuthState) (ts : option f64) (now : N)
  : list Action * RelayCore :=
  ([ASend sender_id (Pong ts)],
   if decide (role client = Daemon)
   then set_registry core (daemon_ping (registry core) (auth_daemon_id client) now)
   else core).

Definition presence_actions (core : RelayCore) (daemon_id : string) : list Action :=
  match daemon_states (registry core) !! daemon_id with
  | None => []
  | Some state =>
      let presence := Presence (mkPresence daemon_id (online state) [] (u64_as_f64 (last_seen state))) in
      (λ id, ASend id presence) <$> group_targets core daemon_id (λ _ a, bool_decide (role a = Frontend))
  end.

Definition register_authed_conn (core : RelayCore) (conn_id : ConnId) (a : AuthState) : RelayCore :=
  let '(l, core) := group_limiter_for core (auth_daemon_id a) in
  let core := add_to_group core (auth_daemon_id a) conn_id in
  set_conns core
    (alter (λ h, mkHandle (client_limiter h) (Some l) (Some a) (preauth_count h)) conn_id (conns core)).

Definition handle_close (core : RelayCore) (conn_id : ConnId) (now : N) : option string * RelayCore :=
  match conns core !! conn_id with
  | None => (None, core)
  | Some handle =>
      let core := set_conns core (delete conn_id (conns core)) in
      match auth handle with
      | None => (None, core)
      | Some a =>
          let core :=
            if decide (role a = Frontend)
            then set_registry core
                   (frontend_disconnect (registry core) (auth_daemon_id a) (set_iter (subscriptions a)))
            else core in
          let core := remove_from_group core (auth_daemon_id a) conn_id in
          if decide (role a = Daemon)
          then (Some (auth_daemon_id a),
                set_registry core (daemon_disconnect (registry core) (auth_daemon_id a) now))
          else (None, core)
      end
  end.

(** ** Targets *)

Lemma elem_of_group_targets c d P id :
  id ∈ group_targets c d P ↔
  ∃ g a, groups c !! d = Some g ∧ id ∈ g ∧ peer_auth c id = Some a ∧ P id a = true.
Proof.
  unfold group_targets. destruct (groups c !! d) as [g|].
  - rewrite list_elem_of_filter, elem_of_set_iter.
    destruct (peer_auth c id) as [a|]; cbn; split; naive_solver.
  - rewrite elem_of_nil. naive_solver.
Qed.

Lemma nodup_group_targets c d P : NoDup (group_targets c d P).
Proof.
  unfold group_targets. destruct (groups c !! d); [|constructor].
  apply NoDup_filter, nodup_set_iter.
Qed.

Definition targets (acts : list Action) : list ConnId :=
  (λ a, match a with ASend id _ => id | AClose id _ _ => id end) <$> acts.

Lemma targets_sends (l : list ConnId) (f : ConnId → RelayServerMessage) :
  targets ((λ id, ASend id (f id)) <$> l) = l.
Proof. unfold targets. rewrite <-list_fmap_compose. apply list_fmap_id. Qed.

(** [id] is a peer of group [d] holding the authenticated state [a]. *)
Definition in_group (c : RelayCore) (d : string) (id : ConnId) (a : AuthState) : Prop :=
  (∃ g, groups c !! d = Some g ∧ id ∈ g) ∧ peer_auth c id = Some a.

(** Publish fan-out: the frame goes, once each, to exactly the other
    members of the publisher's group subscribed to the session; it carries the
    sender's role, and a frontend id only from a frontend; it is then
    replayable by later subscribers; nothing but the publisher's registry entry
    and the frame cache changes. *)
Theorem publish_fanout core sender client sid ct seq now :
  let '(acts, core') := route_publish core sender client sid ct seq now in
  let frame := mkFrameMsg sid ct seq (role client)
                 (if decide (role client = Daemon) then None else auth_frontend_id client) in
  (∀ act, act ∈ acts ↔ ∃ id a, act = ASend id (FrameMsg frame) ∧ id ≠ sender ∧
     in_group core (auth_daemon_id client) id a ∧ sid ∈ subscriptions a) ∧
  NoDup (targets acts) ∧
  (∀ after, (after < seq)%N → 0 < cache_size (recent core) →
     frame ∈ replay_after (recent core') (auth_daemon_id client) sid after) ∧
  groups core' = groups core ∧ conns core' = conns core ∧
  registrations (registry core') = registrations (registry core).
Proof.
  unfold route_publish. set (frame := mkFrameMsg sid ct seq (role client) _).
  assert (frame = mkFrameMsg sid ct seq (role client)
            (if decide (role client = Daemon) then None else auth_frontend_id client)) as Hf.
  { unfold frame. f_equal. case_bool_decide; by case_decide. }
  assert (frame_payload frame = frame) as Hp.
  { unfold frame_payload. rewrite Hf. cbn. by case_decide. }
  rewrite <-Hf. rewrite Hp. set (core1 := if bool_decide _ then _ else core).
  assert (recent core1 = recent core ∧ groups core1 = groups core ∧ conns core1 = conns core ∧
          registrations (registry core1) = registrations (registry core)) as (H1 & H2 & H3 & H4)
    by (unfold core1; by case_bool_decide).
  assert (∀ id, peer_auth (set_recent core1 (push (recent core1) (auth_daemon_id client) frame)) id
            = peer_auth core id) as Hpa by (intros id; unfold peer_auth; cbn; by rewrite H3).
  split_and!; try done.
  - intros act. rewrite list_elem_of_fmap. setoid_rewrite elem_of_group_targets. cbn. rewrite H2.
    setoid_rewrite Hpa. unfold in_group. setoid_rewrite andb_true_iff. setoid_rewrite bool_decide_eq_true.
    split; [intros (id & -> & g & a & ? & ? & ? & ? & ?); eauto 10|].
    intros (id & a & -> & ? & ((g & ? & ?) & ?) & ?). eauto 15.
  - rewrite targets_sends. apply nodup_group_targets.
  - intros after Ha Hc. cbn. rewrite H1. by apply replay_pushed.
Qed.

(** Key exchange and presence: a key-exchange message goes, once each, to
    exactly the group members of the opposite role other than the sender, and
    never names a session; presence goes to exactly the group's frontends, and
    never lists sessions. *)
Theorem kx_and_presence_fanout core sender client ct d :
  (∀ act, act ∈ route_key_exchange core sender client ct ↔
     ∃ id a, act = ASend id (KeyExchangeFrame (mkKx ct (role client))) ∧ id ≠ sender ∧
       in_group core (auth_daemon_id client) id a ∧ role a ≠ role client) ∧
  NoDup (targets (route_key_exchange core sender client ct)) ∧
  (∀ act, act ∈ presence_actions core d ↔
     ∃ st id a, daemon_states (registry core) !! d = Some st ∧
       act = ASend id (Presence (mkPresence d (online st) [] (u64_as_f64 (last_seen st)))) ∧
       in_group core d id a ∧ role a = Frontend) ∧
  NoDup (targets (presence_actions core d)).
Proof.
  unfold route_key_exchange, presence_actions, in_group. split_and!.
  - intros act. rewrite list_elem_of_fmap. setoid_rewrite elem_of_group_targets.
    setoid_rewrite andb_true_iff. setoid_rewrite bool_decide_eq_true. split.
    + intros (id & -> & g & a & ? & ? & ? & ? & ?). eauto 10.
    + intros (id & a & -> & ? & ((g & ? & ?) & ?) & ?). eauto 15.
  - rewrite targets_sends. apply nodup_group_targets.
  - intros act. destruct (daemon_states (registry core) !! d) as [st|] eqn:E.
    + rewrite list_elem_of_fmap. setoid_rewrite elem_of_group_targets.
      setoid_rewrite bool_decide_eq_true. split.
      * intros (id & -> & g & a & ? & ? & ? & ?). eauto 12.
      * intros (st' & id & a & ? & -> & ((g & ? & ?) & ?) & ?). simplify_eq. eauto 15.
    + rewrite elem_of_nil. naive_solver.
  - destruct (daemon_states (registry core) !! d) as [st|]; [|constructor].
    rewrite targets_sends. apply nodup_group_targets.
Qed.

(** ** The core invariant *)

(** A connection is where its authentication says: in its daemon's group,
    holding that group's one shared limiter. *)
Definition placed (gs : gmap string (gset ConnId)) (gl : gmap string LimRef) (id : ConnId) (h : ConnHandle) : Prop :=
  ∀ a, auth h = Some a →
    (∃ g, gs !! auth_daemon_id a = Some g ∧ id ∈ g) ∧
    (∃ l, gl !! auth_daemon_id a = Some l ∧ group_limiter h = Some l).

Definition auth_ok (a : AuthState) : Prop :=
  size (subscriptions a) ≤ MAX_SUBSCRIPTIONS_PER_CLIENT ∧
  (role a = Frontend → ∃ f, auth_frontend_id a = Some f ∧ f ≠ "").

Record core_inv (c : RelayCore) : Prop := {
  ci_registry : inv (registry c);
  ci_sessions : all_sessions_ok (registry c);
  ci_recent : wf (recent c);
  ci_placed id h : conns c !! id = Some h → placed (groups c) (group_limiters c) id h;
  ci_auth id h a : conns c !! id = Some h → auth h = Some a → auth_ok a;
  ci_groups d g : groups c !! d = Some g → g ≠ ∅ ∧ is_Some (group_limiters c !! d);
  ci_heap l : (l < heap_next c)%N → is_Some (heap c !! l);
  ci_client_ref id h : conns c !! id = Some h → (client_limiter h < heap_next c)%N;
  ci_group_ref d l : group_limiters c !! d = Some l → (l < heap_next c)%N;
  ci_client_inj id h id' h' : conns c !! id = Some h → conns c !! id' = Some h' →
    client_limiter h = client_limiter h' → id = id';
  ci_group_inj d d' l : group_limiters c !! d = Some l → group_limiters c !! d' = Some l → d = d';
  ci_apart id h d : conns c !! id = Some h → group_limiters c !! d ≠ Some (client_limiter h)
}.

Lemma core_inv_new recent rc rd mr : wf recent → core_inv (core_new recent rc rd mr).
Proof.
  intros W. split; cbn; intros *; rewrite ?lookup_empty; try done; try lia.
  apply inv_init.
Qed.

Lemma core_inv_set_registry c r :
  inv r → all_sessions_ok r → core_inv c → core_inv (set_registry c r).
Proof. intros Hr Hs I. split; try done; apply I. Qed.

Lemma core_inv_set_recent c r : wf r → core_inv c → core_inv (set_recent c r).
Proof. intros Hr I. split; try done; apply I. Qed.

Lemma core_inv_update_state c d f :
  keeps_token f → keeps_sessions f → core_inv c → core_inv (set_registry c (update_state (registry c) d f)).
Proof.
  intros Hk Hs I. apply core_inv_set_registry; [|..|done].
  - by apply inv_update, I.
  - by apply all_sessions_update, I.
Qed.

(** Replacing one handle by one with the same limiters. *)
Lemma core_inv_alter_conn c id f :
  (∀ h, client_limiter (f h) = client_limiter h) →
  (∀ h, conns c !! id = Some h → placed (groups c) (group_limiters c) id (f h)) →
  (∀ h a, conns c !! id = Some h → auth (f h) = Some a → auth_ok a) →
  core_inv c → core_inv (set_conns c (alter f id (conns c))).
Proof.
  intros Hc Hp Ha I.
  assert (∀ id' h', alter f id (conns c) !! id' = Some h' →
            ∃ h, conns c !! id' = Some h ∧ client_limiter h = client_limiter h' ∧
                 (id' = id ∧ h' = f h ∨ id' ≠ id ∧ h' = h)) as Hl.
  { intros id' h'. destruct (decide (id' = id)) as [->|Hne].
    - rewrite lookup_alter_eq. destruct (conns c !! id) as [h|]; cbn; [|done].
      intros [= <-]. exists h. rewrite Hc. naive_solver.
    - rewrite lookup_alter_ne by done. naive_solver. }
  split; cbn; try apply I.
  - intros id' h' (h & E & _ & [[-> ->]|[? ->]])%Hl; [by apply Hp|by apply (ci_placed c I)].
  - intros id' h' a (h & E & _ & [[-> ->]|[? ->]])%Hl; [by apply Ha|by apply (ci_auth c I id')].
  - intros id' h' (h & E & <- & _)%Hl. by apply (ci_client_ref c I id').
  - intros i1 h1 i2 h2 (g1 & E1 & <- & _)%Hl (g2 & E2 & <- & _)%Hl.
    by apply (ci_client_inj c I i1 g1 i2 g2).
  - intros id' h' d (h & E & <- & _)%Hl. by apply (ci_apart c I id').
Qed.

Lemma core_inv_map_subscriptions c id f :
  (∀ a, peer_auth c id = Some a → size (f (subscriptions a)) ≤ MAX_SUBSCRIPTIONS_PER_CLIENT) →
  core_inv c → core_inv (map_subscriptions c id f).
Proof.
  intros Hf I. apply core_inv_alter_conn; [done|..|done].
  - intros h Hh a' Ha'. cbn in Ha'. destruct (auth h) as [a|] eqn:Ea; [|done]. cbn in Ha'.
    injection Ha' as <-. by apply (ci_placed c I id h Hh a Ea).
  - intros h a' Hh Ha'. cbn in Ha'. destruct (auth h) as [a|] eqn:Ea; [|done]. cbn in Ha'.
    injection Ha' as <-. split; cbn; [|by apply (ci_auth c I id h a Hh Ea)].
    apply Hf. unfold peer_auth. by rewrite Hh.
Qed.

Lemma core_inv_alloc c rate : core_inv c → core_inv (alloc_limiter c rate).2.
Proof.
  intros I. split; cbn; try apply I.
  - intros l Hl. destruct (decide (l = heap_next c)) as [->|Hne]; [by rewrite lookup_insert_eq; eexists|].
    rewrite lookup_insert_ne by done. apply (ci_heap c I). lia.
  - intros id h Hh. pose proof (ci_client_ref c I id h Hh). lia.
  - intros d l Hl. pose proof (ci_group_ref c I d l Hl). lia.
Qed.

Lemma core_inv_insert_conn c id : conns c !! id = None → core_inv c → core_inv (insert_conn c id).
Proof.
  intros Hn I. pose proof (core_inv_alloc c (rate_per_client c) I) as I'.
  unfold insert_conn. cbn [alloc_limiter] in *.
  set (l := heap_next c) in *. set (c1 := mkCore _ _ _ _ _ _ _ _ _) in *.
  assert (∀ d, group_limiters c !! d ≠ Some l) as Hg.
  { intros d Hd. pose proof (ci_group_ref c I d l Hd). unfold l in *. lia. }
  assert (∀ id' h, conns c !! id' = Some h → client_limiter h ≠ l) as Hc.
  { intros id' h Hh He. pose proof (ci_client_ref c I id' h Hh). unfold l in *. lia. }
  split; cbn; try apply I'.
  - intros id' h. rewrite lookup_insert. case_decide; [by intros [= <-] a|]. apply (ci_placed _ I').
  - intros id' h a. rewrite lookup_insert. case_decide; [by intros [= <-]|]. apply (ci_auth _ I').
  - intros id' h. rewrite lookup_insert. case_decide; [|apply (ci_client_ref _ I')].
    intros [= <-]. cbn. unfold l. lia.
  - intros i1 h1 i2 h2. rewrite !lookup_insert. repeat case_decide; simplify_eq; try done.
    + intros [= <-] H2 He. cbn in He. by destruct (Hc i2 h2 H2).
    + intros H1 [= <-] He. cbn in He. by destruct (Hc i1 h1 H1).
    + apply (ci_client_inj _ I').
  - intros id' h d. rewrite lookup_insert. case_decide; [intros [= <-]; apply Hg|apply (ci_apart _ I')].
Qed.

Lemma group_limiter_for_spec c d :
  core_inv c →
  let '(l, c') := group_limiter_for c d in
  core_inv c' ∧ group_limiters c' !! d = Some l ∧
  (∀ d', d' ≠ d → group_limiters c' !! d' = group_limiters c !! d') ∧
  conns c' = conns c ∧ groups c' = groups c.
Proof.
  intros I. unfold group_limiter_for. destruct (group_limiters c !! d) as [l|] eqn:E; [done|].
  pose proof (core_inv_alloc c (rate_per_daemon c) I) as I'. cbn [alloc_limiter] in *.
  set (l := heap_next c) in *. set (c1 := mkCore _ _ _ _ _ _ _ _ _) in *.
  assert (∀ d', group_limiters c !! d' ≠ Some l) as Hg.
  { intros d' Hd. pose proof (ci_group_ref c I d' l Hd). unfold l in *. lia. }
  split_and!; [|by cbn; rewrite lookup_insert_eq|intros; by cbn; rewrite lookup_insert_ne|done|done].
  split; cbn; try apply I'.
  - intros id h Hh a Ha. destruct (ci_placed _ I' id h Hh a Ha) as [Hgr (l' & Hl & Hhl)].
    split; [done|]. exists l'. split; [|done]. rewrite lookup_insert_ne; [done|].
    intros ->. change (group_limiters c !! auth_daemon_id a = Some l') in Hl. congruence.
  - intros d' g Hd. destruct (ci_groups _ I' d' g Hd) as [? [l' Hl]]. split; [done|].
    rewrite lookup_insert_is_Some. destruct (decide (d = d')); [by left|right; eauto].
  - intros d' l'. rewrite lookup_insert. case_decide; [|apply (ci_group_ref _ I')].
    intros [= <-]. unfold l. lia.
  - intros d1 d2 l'. rewrite !lookup_insert. repeat case_decide; simplify_eq; try done.
    + intros [= <-] H2. by destruct (Hg d2).
    + intros H1 [= <-]. by destruct (Hg d1).
    + apply (ci_group_inj _ I').
  - intros id h d' Hh. rewrite lookup_insert. case_decide; [|by apply (ci_apart _ I' id)].
    intros [= He]. pose proof (ci_client_ref c I id h Hh). unfold l in He. lia.
Qed.

(** Growing a group keeps everyone placed. *)
Lemma core_inv_add_to_group c d id :
  is_Some (group_limiters c !! d) → core_inv c → core_inv (add_to_group c d id).
Proof.
  intros Hl I. split; cbn; try apply I.
  - intros id' h Hh a Ha. destruct (ci_placed c I id' h Hh a Ha) as [(g & Hg & Hin) Hlim].
    split; [|done]. cbn. rewrite lookup_insert. case_decide as Hd; [|by exists g].
    subst d. rewrite Hg. eexists. split; [done|]. cbn. set_solver.
  - intros d' g. rewrite lookup_insert. case_decide; [|apply (ci_groups c I)].
    subst d'. intros [= <-]. split; [set_solver|done].
Qed.

Lemma core_inv_register_authed c id a : auth_ok a → core_inv c → core_inv (register_authed_conn c id a).
Proof.
  intros Ha I. unfold register_authed_conn.
  pose proof (group_limiter_for_spec c (auth_daemon_id a) I) as Hs.
  destruct (group_limiter_for c (auth_daemon_id a)) as [l c1]. destruct Hs as (I1 & Hl & _ & Hc & Hg).
  apply (core_inv_add_to_group _ (auth_daemon_id a) id) in I1; [|by eexists].
  apply core_inv_alter_conn; [done|..|done].
  - intros h Hh a' Ha'. cbn in Ha'. injection Ha' as <-. split.
    + cbn. rewrite lookup_insert_eq. eexists. split; [done|]. set_solver.
    + exists l. done.
  - intros h a' Hh Ha'. cbn in Ha'. by injection Ha' as <-.
Qed.

Lemma core_inv_delete_conn c id : core_inv c → core_inv (set_conns c (delete id (conns c))).
Proof.
  intros I. split; cbn; try apply I; intros *.
  - intros [_ H]%lookup_delete_Some. by apply I.
  - intros [_ H]%lookup_delete_Some. by apply (ci_auth c I id0).
  - intros [_ H]%lookup_delete_Some. by apply (ci_client_ref c I id0).
  - intros [_ H]%lookup_delete_Some [_ H']%lookup_delete_Some. by apply (ci_client_inj c I id0 h id' h').
  - intros [_ H]%lookup_delete_Some. by apply (ci_apart c I id0).
Qed.

Lemma core_inv_remove_from_group c d id :
  conns c !! id = None → core_inv c → core_inv (remove_from_group c d id).
Proof.
  intros Hn I. unfold remove_from_group. destruct (groups c !! d) as [g|] eqn:Eg; [|done].
  assert (∀ id' h a, conns c !! id' = Some h → auth h = Some a → auth_daemon_id a = d → id' ∈ g ∖ {[id]}) as Hin.
  { intros id' h a Hh Ha <-. destruct (ci_placed c I id' h Hh a Ha) as [(g' & Hg' & Hid) _].
    simplify_eq. apply elem_of_difference. split; [done|]. intros ->%elem_of_singleton. congruence. }
  case_decide as He.
  - split; cbn; try apply I.
    + intros id' h Hh a Ha. destruct (ci_placed c I id' h Hh a Ha) as [(g' & Hg' & Hid) (l & Hl & Hhl)].
      assert (auth_daemon_id a ≠ d) as Hne.
      { intros Hd. pose proof (Hin id' h a Hh Ha Hd). set_solver. }
      split; [exists g'|exists l]; by rewrite lookup_delete_ne.
    + intros d' g' [Hne Hd]%lookup_delete_Some. rewrite lookup_delete_ne by done. by apply I.
    + intros d' l [_ Hl]%lookup_delete_Some. by apply (ci_group_ref c I d').
    + intros d1 d2 l [_ H1]%lookup_delete_Some [_ H2]%lookup_delete_Some. by apply (ci_group_inj c I d1 d2 l).
    + intros id' h d' Hh [_ Hl]%lookup_delete_Some. by apply (ci_apart c I id' h d').
  - split; cbn; try apply I.
    + intros id' h Hh a Ha. destruct (ci_placed c I id' h Hh a Ha) as [(g' & Hg' & Hid) Hlim].
      split; [|done]. rewrite lookup_insert. case_decide as Hd; [|by exists g'].
      exists (g ∖ {[id]}). split; [done|]. by apply (Hin id' h a).
    + intros d' g'. rewrite lookup_insert. case_decide; [|apply (ci_groups c I)].
      subst d'. intros [= <-]. split; [done|]. by apply (ci_groups c I d g).
Qed.

Lemma core_inv_handle_close c id now : core_inv c → core_inv (handle_close c id now).2.
Proof.
  intros I. unfold handle_close. destruct (conns c !! id) as [h|] eqn:E; [|done].
  apply (core_inv_delete_conn c id) in I as I1. destruct (auth h) as [a|]; [|done].
  set (c1 := set_conns c (delete id (conns c))) in *.
  set (c2 := if decide (role a = Frontend) then _ else _).
  assert (core_inv c2 ∧ conns c2 = delete id (conns c)) as [I2 Hc2].
  { unfold c2. case_decide; [|done]. split; [|done].
    apply core_inv_update_state; [apply keeps_token_detach|apply keeps_sessions_detach|done]. }
  assert (core_inv (remove_from_group c2 (auth_daemon_id a) id)) as I3.
  { apply core_inv_remove_from_group; [|done]. rewrite Hc2. apply lookup_delete_eq. }
  case_decide; [|done].
  apply core_inv_update_state; [done|by apply keeps_sessions_same|done].
Qed.

Lemma core_inv_route_publish c sender client sid ct seq now :
  core_inv c → core_inv (route_publish c sender client sid ct seq now).2.
Proof.
  intros I. unfold route_publish. cbn [snd].
  assert (core_inv (if bool_decide (role client = Daemon)
            then set_registry c (daemon_pub (registry c) (auth_daemon_id client) sid now) else c)) as I1.
  { case_bool_decide; [|done]. apply core_inv_update_state; [done| |done].
    intros s Hs. by apply sessions_ok_add. }
  apply core_inv_set_recent; [|done]. by apply wf_push, I1.
Qed.

Lemma core_inv_route_subscribe c sender sid after :
  core_inv c → core_inv (route_subscribe c sender sid after).2.
Proof.
  intros I. unfold route_subscribe. destruct (peer_auth c sender) as [a|] eqn:Ea; [|done].
  case_decide as Hs; [done|].
  assert (core_inv (map_subscriptions c sender (λ s, s ∪ {[sid]}))) as I1.
  { apply core_inv_map_subscriptions; [|done]. intros a' Ha'. rewrite Ea in Ha'. injection Ha' as <-.
    pose proof (size_union_alt (subscriptions a) ({[sid]} : gset string)) as E.
    assert (size ({[sid]} ∖ subscriptions a) ≤ 1).
    { etrans; [apply subseteq_size, subseteq_difference_l; reflexivity|]. by rewrite size_singleton. }
    lia. }
  destruct (_ && _).
  - destruct after; cbn [snd]; (apply core_inv_update_state; [done|by apply keeps_sessions_same|done]).
  - by destruct after.
Qed.

Lemma core_inv_route_unsubscribe c sender sid : core_inv c → core_inv (route_unsubscribe c sender sid).
Proof.
  intros I. unfold route_unsubscribe. destruct (peer_auth c sender) as [a|] eqn:Ea; [|done].
  assert (core_inv (map_subscriptions c sender (λ s, s ∖ {[sid]}))) as I1.
  { apply core_inv_map_subscriptions; [|done]. intros a' Ha'. rewrite Ea in Ha'. injection Ha' as <-.
    assert (auth_ok a) as [Hs _].
    { unfold peer_auth in Ea. destruct (conns c !! sender) as [h|] eqn:Eh; [|done].
      by apply (ci_auth c I sender h). }
    etrans; [apply subseteq_size; apply subseteq_difference_l; reflexivity|done]. }
  case_decide; [|done]. apply core_inv_update_state; [done|by apply keeps_sessions_same|done].
Qed.

Lemma core_inv_route_ping c sender client ts now : core_inv c → core_inv (route_ping c sender client ts now).2.
Proof.
  intros I. unfold route_ping. cbn. case_decide; [|done].
  apply core_inv_update_state; [done|by apply keeps_sessions_same|done].
Qed.
End server.
