(* ===== verification/Conn.v ===== *)
(** * Conn: the per-connection actor of [rust/tp-relay/src/conn.rs].
    Each critical section is one function of [RelayCore]; what the runtime
    decides (clocks, limiter instants, randomness, whether an outbox accepts a
    message) comes in through [Env]. *)
From stdpp Require Import base list numbers strings gmap fin_maps.
From Stdlib Require Import Lia NArith.
From S2P Require Import Prelude Bytes Json Text Messages Registry Ring ResumeToken.
From S2P Require Handshake Push.
From S2P Require Import PushSeal Rate Metrics Server.

#[local] Existing Instance Push.DeliveryResult_eq_dec.

Definition AUTH_TIMEOUT_MS : N := 10000.
Definition DEFAULT_MAX_FRAME_SIZE : N := 1024 * 1024.

Definition max_frame_size_from_env (raw : option string) : N :=
  default DEFAULT_MAX_FRAME_SIZE (raw ≫= parse_uint u64_max).

(** The answer of [mpsc::Sender::try_send]. *)
Inductive TrySend := Sent | Full | Closed.

(** One turn's view of the runtime. *)
Record Env := mkEnv {
  e_now : N;                          (* [now_ms()] in the dispatch section *)
  e_client_instant : N;               (* the limiters' clock *)
  e_group_instant : N;
  e_nonce : bytes;                    (* [OsRng] in [seal] *)
  e_try_send : nat → TrySend;         (* the k-th [try_send] of the turn *)
  e_close_now : ConnId → N            (* [now_ms()] when that connection is torn down *)
}.

(** What the write tasks see. *)
Inductive Output :=
| Delivered (target : ConnId) (msg : RelayServerMessage)
| CloseSignal (target : ConnId) (code : N) (reason : string).

(** The immutable part of [SharedState]. *)
Record Config := mkConfig {
  signer : ResumeTokenSigner;
  stale_timeout_ms : N;
  offline_evict_ms : N;
  max_frame_size : N;
  max_preauth_msgs : N;
  has_push_service : bool
}.

Definition close_directive : Type := option (N * string).

Definition relay_err (e : string) (m : option string) : RelayServerMessage := RErr (mkErr e m None).

Definition not_authenticated (conn_id : ConnId) (m : option string) : list Action :=
  [ASend conn_id (relay_err "NOT_AUTHENTICATED" m)].

Definition SEND_AUTH_FIRST : option string := Some "Send relay.auth first".
Definition CLIENT_RATE_LIMITED : RelayServerMessage :=
  relay_err "RATE_LIMITED" (Some "Too many messages. Slow down.").
Definition GROUP_RATE_LIMITED : RelayServerMessage :=
  relay_err "RATE_LIMITED" (Some "Daemon group budget exceeded. Slow down.").

Definition resume_identity (payload : ResumePayload) : Role * string * option string :=
  match payload with
  | PDaemon d _ => (Daemon, d, None)
  | PFrontend d f _ => (Frontend, d, Some f)
  end.

Definition level_to_string (level : InterruptionLevel) : string :=
  match level with Active => "active" | TimeSensitive => "time-sensitive" end.

Definition wire_to_push_data (d : Messages.PushData) : Push.PushData :=
  Push.mkPushData (pd_sid d) (pd_daemon_id d) (pd_event d).

Definition map_delivery_result (result : Push.DeliveryResult) (target_frontend : option ConnId)
    (daemon_conn : ConnId) (notif_title notif_body : string) (notif_data : option Messages.PushData)
    (fid : string) : list Action :=
  let err e m := [ASend daemon_conn (RErr (mkErr e (Some (m +:+ fid)) (Some fid)))] in
  match result with
  | Push.Ws =>
      match target_frontend with
      | Some fc => [ASend fc (Notification (mkNotif notif_title notif_body notif_data))]
      | None => []
      end
  | Push.Push | Push.Deduped => []
  | Push.RateLimited => err "PUSH_RATE_LIMITED" "Push rate limit exceeded for frontendId "
  | Push.Error => err "PUSH_DELIVERY_ERROR" "Push delivery failed for frontendId "
  | Push.DeadToken => err "PUSH_TOKEN_DEAD" "APNs device token is dead for frontendId "
  end.

Inductive PushResolution :=
| Reply (actions : list Action)
| ResolvedPush (daemon_id token : string) (frontend_conn : option ConnId) (is_frontend_connected : bool).

(** A spawned [finish_push_send] and its captured arguments. *)
Record PushTask := mkTask {
  t_req : Push.PushRequest;
  t_target : option ConnId;
  t_daemon_conn : ConnId;
  t_title : string;
  t_body : string;
  t_data : option Messages.PushData
}.

Section conn.
Context {G : Governor} {HIS : HashIter string} {HIC : HashIter N} {RC : ResumeCrypto} {TS : TokenSealer}.

(** [limiter.check()] through an [Arc]; references are never dangling
    ([core_inv]'s [ci_heap]). *)
Definition check_ref (core : RelayCore) (l : LimRef) (instant : N) : bool * RelayCore :=
  match heap core !! l with
  | Some lim => let '(ok, lim) := check lim instant in (ok, set_heap core (<[l := lim]> (heap core)))
  | None => (true, core)
  end.

(** The two-layer limit of [dispatch_locked] and [handle_push]: the group
    limiter is consulted only when the client one admits. *)
Definition rate_gate (core : RelayCore) (m : Metrics) (h : ConnHandle) (env : Env)
  : option RelayServerMessage * RelayCore * Metrics :=
  let '(client_ok, core) := check_ref core (client_limiter h) (e_client_instant env) in
  if client_ok then
    let '(group_ok, core) :=
      match group_limiter h with
      | Some g => check_ref core g (e_group_instant env)
      | None => (true, core)
      end in
    if group_ok then (None, core, m)
    else (Some GROUP_RATE_LIMITED, core, inc_daemon_rate_limited_drops m)
  else (Some CLIENT_RATE_LIMITED, core, inc_rate_limited_drops m).

Definition is_authed (core : RelayCore) (conn_id : ConnId) : bool :=
  bool_decide (is_Some (peer_auth core conn_id)).

(** [authed_state] is [peer_auth]: the clone is the value. *)
Definition authed_state (core : RelayCore) (conn_id : ConnId) : option AuthState := peer_auth core conn_id.

(** [group.iter().copied().find(..)] *)
Definition find_in_group (core : RelayCore) (daemon_id : string) (P : AuthState → bool) : option ConnId :=
  head (group_targets core daemon_id (λ _ a, P a)).

Definition finish_auth (core : RelayCore) (conn_id : ConnId) (reply : RelayServerMessage) (r : Role)
    (daemon_id : string) (frontend_id : option string) : list Action * RelayCore :=
  match reply with
  | AuthOk _ =>
      let core := register_authed_conn core conn_id (mkAuthState r daemon_id frontend_id ∅) in
      (ASend conn_id reply :: presence_actions core daemon_id, core)
  | _ =>
      ([ASend conn_id reply] ++
         (if bool_decide (r = Frontend) && bool_decide (frontend_id = None)
          then [AClose conn_id 1008 "frontendId required"] else []), core)
  end.

Definition route_push_register (core : RelayCore) (conn_id : ConnId) (tok : string) (platform : Platform)
    (nonce : bytes) : list Action :=
  match authed_state core conn_id with
  | None => not_authenticated conn_id SEND_AUTH_FIRST
  | Some client =>
      if decide (role client ≠ Frontend)
      then [ASend conn_id (relay_err "UNAUTHORIZED" (Some "Only frontends can send relay.push.register"))]
      else
        let daemon_conn := find_in_group core (auth_daemon_id client) (λ a, bool_decide (role a = Daemon)) in
        match seal_token tok nonce with
        | None => []
        | Some sealed =>
            match daemon_conn with
            | None => []
            | Some dc =>
                [ASend dc (PushToken (mkPushToken (default "" (auth_frontend_id client)) sealed platform))]
            end
        end
  end.

(** [dispatch_locked]: everything but [relay.push]. *)
Definition dispatch_locked (sg : ResumeTokenSigner) (core : RelayCore) (m : Metrics) (conn_id : ConnId)
    (msg : RelayClientMessage) (env : Env) : list Action * RelayCore * Metrics :=
  let now := e_now env in
  let is_ping := match msg with Ping _ => true | _ => false end in
  let '(reject, core, m) :=
    match conns core !! conn_id with
    | Some h => if bool_decide (is_Some (auth h)) && negb is_ping then rate_gate core m h env
                else (None, core, m)
    | None => (None, core, m)
    end in
  match reject with
  | Some reply => ([ASend conn_id reply], core, m)
  | None =>
      match msg with
      | Auth r did tok _ fid =>
          let '(reply, reg) :=
            Handshake.handle_auth did tok (bool_decide (r = Daemon)) fid now (registry core) sg in
          let '(acts, core) := finish_auth (set_registry core reg) conn_id reply r did fid in
          (acts, core, m)
      | AuthResume tok _ =>
          let m := inc_resumes_attempted m in
          let '((reply, payload), reg) := Handshake.handle_auth_resume tok now (registry core) sg in
          let core := set_registry core reg in
          match payload, reply with
          | Some p, AuthOk _ =>
              let '((r, did), fid) := resume_identity p in
              let '(acts, core) := finish_auth core conn_id reply r did fid in
              (acts, core, inc_resumes_accepted m)
          | _, _ => ([ASend conn_id reply], core, inc_resumes_rejected m)
          end
      | Register did prf tok _ =>
          let '(reply, reg) := Handshake.handle_register did tok prf now (registry core) in
          ([ASend conn_id reply], set_registry core reg, m)
      | Publish sid ct seq =>
          match authed_state core conn_id with
          | None => (not_authenticated conn_id SEND_AUTH_FIRST, core, m)
          | Some client =>
              let '(acts, core) := route_publish core conn_id client sid ct seq now in (acts, core, m)
          end
      | KeyExchange ct _ =>
          match authed_state core conn_id with
          | None => (not_authenticated conn_id SEND_AUTH_FIRST, core, m)
          | Some client => (route_key_exchange core conn_id client ct, core, m)
          end
      | Subscribe sid after =>
          match authed_state core conn_id with
          | None => (not_authenticated conn_id None, core, m)
          | Some _ => let '(acts, core) := route_subscribe core conn_id sid after in (acts, core, m)
          end
      | Unsubscribe sid =>
          ([], match authed_state core conn_id with
               | Some _ => route_unsubscribe core conn_id sid
               | None => core
               end, m)
      | Ping ts =>
          match authed_state core conn_id with
          | Some client => let '(acts, core) := route_ping core conn_id client ts now in (acts, core, m)
          | None => ([], core, m)
          end
      | PushRegister _ tok platform =>
          (route_push_register core conn_id tok platform (e_nonce env), core, m)
      | Messages.Push _ _ _ _ _ _ => ([], core, m)
      end
  end.

Definition resolve_push_locked (core : RelayCore) (conn_id : ConnId) (frontend_id sealed : string)
  : PushResolution :=
  match authed_state core conn_id with
  | None => Reply (not_authenticated conn_id SEND_AUTH_FIRST)
  | Some client =>
      if decide (role client ≠ Daemon)
      then Reply [ASend conn_id (relay_err "UNAUTHORIZED" (Some "Only daemons can send push requests"))]
      else
        let frontend_conn := find_in_group core (auth_daemon_id client)
          (λ a, bool_decide (role a = Frontend) && bool_decide (auth_frontend_id a = Some frontend_id)) in
        let connected := bool_decide (is_Some frontend_conn) in
        match unseal_token sealed with
        | Unsealed tok => ResolvedPush (auth_daemon_id client) tok frontend_conn connected
        | Legacy => ResolvedPush (auth_daemon_id client) sealed frontend_conn connected
        | ParseError | UnsealFailed =>
            Reply [ASend conn_id (RErr (mkErr "PUSH_UNSEAL_FAILED"
              (Some ("Push token unseal failed for frontendId " +:+ frontend_id)) (Some frontend_id)))]
        end
  end.

(** [handle_push]'s synchronous part: the actions to deliver now, and the task
    it spawns. *)
Definition handle_push (cfg : Config) (core : RelayCore) (m : Metrics) (conn_id : ConnId)
    (frontend_id sealed title body : string) (level : option InterruptionLevel)
    (data : option Messages.PushData) (env : Env)
  : list Action * option PushTask * RelayCore * Metrics :=
  let '(reject, core, m) :=
    match conns core !! conn_id with
    | Some h => if bool_decide (is_Some (auth h)) then rate_gate core m h env else (None, core, m)
    | None => (None, core, m)
    end in
  match reject with
  | Some reply => ([ASend conn_id reply], None, core, m)
  | None =>
      match resolve_push_locked core conn_id frontend_id sealed with
      | Reply actions => (actions, None, core, m)
      | ResolvedPush did tok frontend_conn connected =>
          if has_push_service cfg then
            ([], Some (mkTask
               (Push.mkPushRequest frontend_id did tok title body connected
                  (level_to_string <$> level) (wire_to_push_data <$> data))
               frontend_conn conn_id title body data), core, m)
          else
            ((if connected
              then map_delivery_result Push.Ws frontend_conn conn_id title body data frontend_id
              else []), None, core, m)
      end
  end.

Definition frontend_conn_live (core : RelayCore) (conn : option ConnId) (frontend_id : string) : bool :=
  match conn ≫= peer_auth core with
  | Some a => bool_decide (role a = Frontend) && bool_decide (auth_frontend_id a = Some frontend_id)
  | None => false
  end.

(** [req.is_frontend_connected = false] *)
Definition disconnected (req : Push.PushRequest) : Push.PushRequest :=
  Push.mkPushRequest (Push.frontend_id req) (Push.daemon_id req) (Push.token req) (Push.title req)
    (Push.body req) false (Push.interruption_level req) (Push.data req).

(** The spawned tail, with [core] as it is at the liveness re-check. *)
Definition finish_push_send (svc : Push.PushService) (apns : Push.ApnsPayload → Push.ApnsDeliveryResult)
    (inner : Push.Inner) (core : RelayCore) (task : PushTask) (now : N) : list Action * Push.Inner :=
  let fid := Push.frontend_id (t_req task) in
  let '(result, inner) := Push.send_or_deliver svc apns inner (t_req task) now in
  let '(result, inner) :=
    if bool_decide (result = Push.Ws) && negb (frontend_conn_live core (t_target task) fid)
    then Push.send_or_deliver svc apns inner (disconnected (t_req task)) now
    else (result, inner) in
  (map_delivery_result result (t_target task) (t_daemon_conn task) (t_title task) (t_body task)
     (t_data task) fid, inner).

(** *** Delivery *)

(** What a delivery threads: the core, the counters, what the sockets were
    handed, and how many [try_send]s were made. *)
Record Wire := mkWire { w_core : RelayCore; w_metrics : Metrics; w_out : list Output; w_tries : nat }.

(** [close_conn] up to its recursive delivery: the teardown, the close signal
    (if the connection was still registered) and the presence to broadcast. *)
Definition close_conn_sync (env : Env) (w : Wire) (id : ConnId) (code : N) (reason : string)
  : Wire * option (list Action) :=
  let present := bool_decide (is_Some (conns (w_core w) !! id)) in
  let '(daemon, core) := handle_close (w_core w) id (e_close_now env id) in
  (mkWire core (w_metrics w)
     (w_out w ++ if present then [CloseSignal id code reason] else []) (w_tries w),
   presence_actions core <$> daemon).

(** [deliver_actions]: first the sends, in order, with forced closes as they
    come; then a 1013 close for every [Full] answer.  [deliver_actions] and
    [close_conn] recurse into each other; each nested delivery has one
    registered connection less, so the number of connections bounds the depth
    ([deliver_fuel_enough]). *)
Fixpoint deliver_actions (fuel : nat) (env : Env) (w : Wire) (actions : list Action) : Wire :=
  match fuel with
  | O => w
  | S fuel =>
      let close_conn w id code reason :=
        match close_conn_sync env w id code reason with
        | (w, Some acts) => deliver_actions fuel env w acts
        | (w, None) => w
        end in
      let deliver_one (acc : Wire * list ConnId) (action : Action) : Wire * list ConnId :=
        let '(w, backpressured) := acc in
        match action with
        | ASend target msg =>
            match conns (w_core w) !! target with
            | None => (w, backpressured)
            | Some _ =>
                let k := w_tries w in
                match e_try_send env k with
                | Sent => (mkWire (w_core w) (inc_frames_out (w_metrics w))
                             (w_out w ++ [Delivered target msg]) (S k), backpressured)
                | Full => (mkWire (w_core w) (w_metrics w) (w_out w) (S k), backpressured ++ [target])
                | Closed => (mkWire (w_core w) (w_metrics w) (w_out w) (S k), backpressured)
                end
            end
        | AClose target code reason => (close_conn w target code reason, backpressured)
        end in
      let '(w, backpressured) := foldl deliver_one (w, []) actions in
      foldl (λ w target,
               close_conn (mkWire (w_core w) (inc_backpressure_disconnects (w_metrics w)) (w_out w) (w_tries w))
                 target 1013%N "Backpressure") w backpressured
  end.

Definition deliver (env : Env) (w : Wire) (actions : list Action) : Wire :=
  deliver_actions (S (size (conns (w_core w)))) env w actions.

(** *** One inbound text frame *)

(** The pre-auth throttle: count, and say whether the limit is exceeded. *)
Definition preauth_throttle (cfg : Config) (core : RelayCore) (conn_id : ConnId) : bool * RelayCore :=
  match conns core !! conn_id with
  | Some h =>
      match auth h with
      | None =>
          let n := ((preauth_count h + 1) mod 2 ^ 32)%N in
          (bool_decide (max_preauth_msgs cfg < n)%N,
           set_conns core (<[conn_id := mkHandle (client_limiter h) (group_limiter h) (auth h) n]> (conns core)))
      | Some _ => (false, core)
      end
  | None => (false, core)
  end.

Definition unknown_type (value : Value) : string :=
  default "(none)" ((as_object value ≫= λ o, get o "t") ≫= as_str).

(** [handle_inbound]; [serde_json::from_str] is the parameter [parse]. *)
Definition handle_inbound (parse : string → option Value) (cfg : Config) (core : RelayCore) (m : Metrics)
    (conn_id : ConnId) (text : string) (env : Env) : close_directive * option PushTask * Wire :=
  let start core m := mkWire core m [] 0 in
  let sz := N.of_nat (str_len text) in
  if decide (max_frame_size cfg < sz)%N then
    (Some (1009%N, "Frame too large"), None,
     deliver env (start core (inc_oversized_drops m))
       [ASend conn_id (relay_err "FRAME_TOO_LARGE"
          (Some ("Frame size " +:+ print_dec sz +:+ " exceeds limit of " +:+ print_dec (max_frame_size cfg)
                 +:+ " bytes")))])
  else
    let m := inc_frames_in m in
    let '(close_preauth, core) := preauth_throttle cfg core conn_id in
    if close_preauth then (Some (1008%N, "Too many pre-auth messages"), None, start core m)
    else
      match parse text with
      | None => (None, None, deliver env (start core m)
                   [ASend conn_id (relay_err "PARSE_ERROR" (Some "Invalid JSON"))])
      | Some value =>
          match parse_relay_client_message value with
          | None =>
              (None, None, deliver env (start core (inc_unknown_type_drops m))
                 [ASend conn_id (relay_err "UNKNOWN_TYPE"
                    (Some ("Unknown or malformed message type: " +:+ unknown_type value)))])
          | Some (Messages.Push fid sealed title body level data) =>
              let '(acts, task, core, m) := handle_push cfg core m conn_id fid sealed title body level data env in
              (None, task, deliver env (start core m) acts)
          | Some msg =>
              let '(acts, core, m) := dispatch_locked (signer cfg) core m conn_id msg env in
              (None, None, deliver env (start core m) acts)
          end
      end.

(** *** The stale sweep *)

Definition stale_sweep (cfg : Config) (core : RelayCore) (m : Metrics) (now : N)
  : list Action * RelayCore * Metrics :=
  let '(result, reg) := check_stale_daemons (registry core) now (stale_timeout_ms cfg) (offline_evict_ms cfg) in
  let core := set_registry core reg in
  let actions := concat (presence_actions core <$> newly_offline result) in
  let purge (acc : RelayCore * Metrics) (daemon_id : string) :=
    let core := set_recent acc.1 (purge_daemon (recent acc.1) daemon_id) in
    let core := if bool_decide (groups core !! daemon_id = None)
                then set_group_limiters core (delete daemon_id (group_limiters core)) else core in
    (core, inc_evictions acc.2) in
  let '(core, m) := foldl purge (core, m) (Registry.evicted result) in
  (actions, core, m).

(** *** The relay as a transition system *)

Record World := mkWorld {
  wd_core : RelayCore;
  wd_metrics : Metrics;
  next_conn_id : ConnId;
  push_inner : Push.Inner;
  tasks : list PushTask;
  wd_out : list Output
}.

(** [alloc_conn_id]: [fetch_add(1)] on an [AtomicU64], which wraps. *)
Definition next_id (id : ConnId) : ConnId := ((id + 1) mod 2 ^ 64)%N.

(** One atomic turn of one task: a new socket, an inbound text frame, the end
    of a read loop, a sweep tick, or a spawned push reaching its result. *)
Inductive Event :=
| EConnect
| EInbound (conn_id : ConnId) (text : string) (env : Env)
| EEnd (conn_id : ConnId) (why : close_directive) (auth_timeout : bool) (env : Env)
| ESweep (now : N) (env : Env)
| EPushDone (i : nat) (r : Push.ApnsDeliveryResult) (now : N) (env : Env).

Definition of_wire (wd : World) (w : Wire) (inner : Push.Inner) (ts : list PushTask) : World :=
  mkWorld (w_core w) (w_metrics w) (next_conn_id wd) inner ts (wd_out wd ++ w_out w).

(** The end of [connection_loop]: the close frame is queued first, then the
    teardown and the presence broadcast. *)
Definition end_connection (core : RelayCore) (m : Metrics) (conn_id : ConnId) (why : close_directive)
    (auth_timeout : bool) (env : Env) : Wire :=
  let m := if auth_timeout then inc_auth_timeouts m else m in
  let out := match why with Some (code, reason) => [CloseSignal conn_id code reason] | None => [] end in
  let '(daemon, core) := handle_close core conn_id (e_close_now env conn_id) in
  let w := mkWire core m out 0 in
  match daemon with
  | Some d => deliver env w (presence_actions core d)
  | None => w
  end.

Definition relay_step (parse : string → option Value) (cfg : Config) (svc : Push.PushService)
    (wd : World) (ev : Event) : World :=
  match ev with
  | EConnect =>
      mkWorld (insert_conn (wd_core wd) (next_conn_id wd)) (wd_metrics wd) (next_id (next_conn_id wd))
        (push_inner wd) (tasks wd) (wd_out wd)
  | EInbound id text env =>
      let '((_, task), w) := handle_inbound parse cfg (wd_core wd) (wd_metrics wd) id text env in
      of_wire wd w (push_inner wd) (tasks wd ++ option_list task)
  | EEnd id why auth_timeout env =>
      of_wire wd (end_connection (wd_core wd) (wd_metrics wd) id why auth_timeout env) (push_inner wd) (tasks wd)
  | ESweep now env =>
      let '(acts, core, m) := stale_sweep cfg (wd_core wd) (wd_metrics wd) now in
      of_wire wd (deliver env (mkWire core m [] 0) acts) (push_inner wd) (tasks wd)
  | EPushDone i r now env =>
      match tasks wd !! i with
      | Some task =>
          let '(acts, inner) := finish_push_send svc (λ _, r) (push_inner wd) (wd_core wd) task now in
          of_wire wd (deliver env (mkWire (wd_core wd) (wd_metrics wd) [] 0) acts) inner (delete i (tasks wd))
      | None => wd
      end
  end.

Definition relay_init (core : RelayCore) : World := mkWorld core Metrics.new 1 Push.Inner_new [] [].

Definition relay_run (parse : string → option Value) (cfg : Config) (svc : Push.PushService)
    (core : RelayCore) (evs : list Event) : World :=
  foldl (relay_step parse cfg svc) (relay_init core) evs.

(** ** Delivery only tears connections down *)

Lemma close_conn_sync_core env w id code reason :
  w_core (close_conn_sync env w id code reason).1 = (handle_close (w_core w) id (e_close_now env id)).2.
Proof. unfold close_conn_sync. by destruct (handle_close _ _ _). Qed.

Section preserve.
Context (P : RelayCore → Prop) (HP : ∀ c id now, P c → P (handle_close c id now).2).

Lemma deliver_actions_pres fuel env w acts :
  P (w_core w) → P (w_core (deliver_actions fuel env w acts)).
Proof using HP.
  revert w acts. induction fuel as [|fuel IH]; intros w acts Hw; [done|]. cbn [deliver_actions].
  set (close_conn := λ w id code reason, match close_conn_sync env w id code reason with
                                         | (w, Some acts) => deliver_actions fuel env w acts
                                         | (w, None) => w end).
  assert (∀ w id code reason, P (w_core w) → P (w_core (close_conn w id code reason))) as Hc.
  { intros w0 id code reason H0. unfold close_conn.
    pose proof (close_conn_sync_core env w0 id code reason) as E.
    destruct (close_conn_sync env w0 id code reason) as [w1 [acts1|]]; cbn in E;
      [apply IH|]; rewrite E; by apply HP. }
  match goal with |- context [foldl ?f (w, []) acts] => set (one := f) end.
  assert (∀ l acc, P (w_core acc.1) → P (w_core (foldl one acc l).1)) as Hone.
  { intros l. induction l as [|a l IHl]; intros [w0 bp] H0; [done|]. cbn [foldl]. apply IHl.
    unfold one. destruct a as [t msg|t code reason]; [|by apply Hc].
    destruct (conns (w_core w0) !! t); [|done]. by destruct (e_try_send env (w_tries w0)). }
  specialize (Hone acts (w, []) Hw). destruct (foldl one (w, []) acts) as [w1 bp]. cbn in Hone.
  revert w1 Hone. induction bp as [|t bp IHb]; intros w1 H1; [done|]. cbn [foldl]. apply IHb.
  by apply Hc.
Qed.

Lemma deliver_pres env w acts : P (w_core w) → P (w_core (deliver env w acts)).
Proof using HP. apply deliver_actions_pres. Qed.
End preserve.

Lemma core_inv_deliver env w acts : core_inv (w_core w) → core_inv (w_core (deliver env w acts)).
Proof. apply deliver_pres. intros c id now. apply core_inv_handle_close. Qed.

(** ** The invariant along every operation *)

Lemma core_inv_check_ref c l t : core_inv c → core_inv (check_ref c l t).2.
Proof.
  intros I. unfold check_ref. destruct (heap c !! l) as [lim|] eqn:E; [|done].
  destruct (check lim t) as [ok lim']. split; cbn; try apply I.
  intros l' Hl'. rewrite lookup_insert_is_Some. destruct (decide (l = l')) as [->|Hne]; [by left|].
  right. split; [done|]. by apply (ci_heap c I).
Qed.

Lemma check_ref_parts c l t :
  conns (check_ref c l t).2 = conns c ∧ groups (check_ref c l t).2 = groups c ∧
  registry (check_ref c l t).2 = registry c ∧ recent (check_ref c l t).2 = recent c ∧
  group_limiters (check_ref c l t).2 = group_limiters c.
Proof. unfold check_ref. destruct (heap c !! l); [|done]. by destruct (check _ t). Qed.

Lemma rate_gate_spec c m h env :
  core_inv c →
  let '(reject, c', m') := rate_gate c m h env in
  core_inv c' ∧ conns c' = conns c ∧ groups c' = groups c ∧ registry c' = registry c ∧
  recent c' = recent c ∧
  group_limiters c' = group_limiters c ∧
  (∀ r, reject = Some r → r = CLIENT_RATE_LIMITED ∨ r = GROUP_RATE_LIMITED).
Proof.
  intros I. unfold rate_gate. pose proof (core_inv_check_ref c (client_limiter h) (e_client_instant env) I) as I1.
  destruct (check_ref_parts c (client_limiter h) (e_client_instant env)) as (P1 & P2 & P3 & P4 & P5).
  destruct (check_ref c (client_limiter h) (e_client_instant env)) as [ok c1]. cbn [snd] in *.
  destruct ok; [|naive_solver].
  destruct (group_limiter h) as [g|]; [|naive_solver].
  pose proof (core_inv_check_ref c1 g (e_group_instant env) I1) as I2.
  destruct (check_ref_parts c1 g (e_group_instant env)) as (Q1 & Q2 & Q3 & Q4 & Q5).
  destruct (check_ref c1 g (e_group_instant env)) as [ok c2]. cbn [snd] in *.
  destruct ok; split_and!; first [congruence | done | naive_solver].
Qed.

Lemma core_inv_finish_auth c id reply r d f :
  ((∃ m, reply = AuthOk m) → r = Frontend → ∃ f', f = Some f' ∧ f' ≠ "") →
  core_inv c → core_inv (finish_auth c id reply r d f).2.
Proof.
  intros Hf I. unfold finish_auth. destruct reply; try done. cbn [snd].
  apply core_inv_register_authed; [|done]. split; cbn.
  - rewrite size_empty. lia.
  - intros Hr. apply Hf; [by eexists|done].
Qed.

Lemma core_inv_registry c r : core_inv c → inv r ∧ all_sessions_ok r → core_inv (set_registry c r).
Proof. intros I [? ?]. by apply core_inv_set_registry. Qed.

Lemma core_inv_dispatch sg c m id msg env :
  core_inv c → core_inv (dispatch_locked sg c m id msg env).1.2.
Proof.
  intros I. unfold dispatch_locked.
  set (gate := match conns c !! id with Some _ => _ | None => _ end).
  assert (core_inv gate.1.2) as Ig.
  { unfold gate. destruct (conns c !! id) as [h|]; [|done]. destruct (_ && _); [|done].
    pose proof (rate_gate_spec c m h env I) as H. destruct (rate_gate c m h env) as [[rj c'] m']. by apply H. }
  destruct gate as [[reject c1] m1]. cbn in Ig. destruct reject as [reply|]; [done|].
  assert (inv (registry c1) ∧ all_sessions_ok (registry c1)) as Hr by (split; apply Ig).
  destruct msg as [r did tok v fid|tok v|did prf tok v|ct r|sid ct seq|sid after|sid|ts|? ? ? ? ? ?|? ? ?].
  - pose proof (Handshake.auth_keeps did tok (bool_decide (r = Daemon)) fid (e_now env) _ sg Hr) as K.
    destruct (Handshake.handle_auth did tok _ fid (e_now env) (registry c1) sg) as [reply reg] eqn:E.
    cbn [snd] in K.
    assert (core_inv (finish_auth (set_registry c1 reg) id reply r did fid).2) as If.
    { apply core_inv_finish_auth; [|by apply core_inv_registry]. intros [mm ->] ->.
      apply Handshake.auth_ok_inv in E as (_ & _ & Hf). by apply Hf. }
    by destruct (finish_auth _ id reply r did fid).
  - pose proof (Handshake.auth_resume_keeps tok (e_now env) _ sg Hr) as K.
    destruct (Handshake.handle_auth_resume tok (e_now env) (registry c1) sg) as [[reply payload] reg] eqn:E.
    cbn [snd] in K. pose proof (core_inv_registry _ _ Ig K) as Ir.
    destruct payload as [p|]; [|done]. destruct reply; try done.
    apply Handshake.auth_resume_ok_inv in E as (Hv & _ & _). apply verify_ids in Hv.
    destruct (resume_identity p) as [[r did] fid] eqn:Ep.
    pose proof (core_inv_finish_auth (set_registry c1 reg) id (AuthOk p0) r did fid) as If.
    destruct (finish_auth _ id _ r did fid). apply If; [|done]. intros _ ->.
    destruct p; cbn in Ep; [done|]. injection Ep as _ <-. eexists. split; [done|]. apply Hv.
  - pose proof (Handshake.register_keeps did tok prf (e_now env) _ Hr) as K.
    destruct (Handshake.handle_register did tok prf (e_now env) (registry c1)). by apply core_inv_registry.
  - by destruct (authed_state c1 id).
  - destruct (authed_state c1 id) as [a|]; [|done].
    pose proof (core_inv_route_publish c1 id a sid ct seq (e_now env) Ig).
    by destruct (route_publish c1 id a sid ct seq (e_now env)).
  - destruct (authed_state c1 id) as [a|]; [|done].
    pose proof (core_inv_route_subscribe c1 id sid after Ig). by destruct (route_subscribe c1 id sid after).
  - cbn. destruct (authed_state c1 id); [|done]. by apply core_inv_route_unsubscribe.
  - destruct (authed_state c1 id) as [a|]; [|done].
    pose proof (core_inv_route_ping c1 id a ts (e_now env) Ig). by destruct (route_ping c1 id a ts (e_now env)).
  - done.
  - done.
Qed.

Lemma core_inv_throttle cfg c id : core_inv c → core_inv (preauth_throttle cfg c id).2.
Proof.
  intros I. unfold preauth_throttle. destruct (conns c !! id) as [h|] eqn:E; [|done].
  destruct (auth h) eqn:Ea; [done|]. cbn [snd].
  replace (<[id := _]> (conns c)) with
    (alter (λ h, mkHandle (client_limiter h) (group_limiter h) (auth h) ((preauth_count h + 1) mod 2 ^ 32)%N) id (conns c)).
  2:{ apply map_eq. intros id'. destruct (decide (id' = id)) as [->|Hne].
      - by rewrite lookup_alter_eq, lookup_insert_eq, E; cbn; rewrite Ea.
      - by rewrite lookup_alter_ne, lookup_insert_ne. }
  apply core_inv_alter_conn; [done|..|done].
  - intros h' Hh'. by apply (ci_placed c I id h').
  - intros h' a Hh'. by apply (ci_auth c I id h').
Qed.

Lemma core_inv_handle_push cfg c m id fid sealed title body level data env :
  core_inv c → core_inv (handle_push cfg c m id fid sealed title body level data env).1.2.
Proof.
  intros I. unfold handle_push.
  set (gate := match conns c !! id with Some _ => _ | None => _ end).
  assert (core_inv gate.1.2) as Ig.
  { unfold gate. destruct (conns c !! id) as [h|]; [|done]. destruct (bool_decide _); [|done].
    pose proof (rate_gate_spec c m h env I) as H. destruct (rate_gate c m h env) as [[rj c'] m']. by apply H. }
  destruct gate as [[reject c1] m1]. cbn in Ig. destruct reject; [done|].
  destruct (resolve_push_locked c1 id fid sealed); [done|]. by destruct (has_push_service cfg).
Qed.

Lemma core_inv_handle_inbound parse cfg c m id text env :
  core_inv c → core_inv (w_core (handle_inbound parse cfg c m id text env).2).
Proof.
  intros I. unfold handle_inbound. case_decide; [by apply core_inv_deliver|].
  pose proof (core_inv_throttle cfg c id I) as I1. destruct (preauth_throttle cfg c id) as [close c1].
  cbn [snd] in I1. destruct close; [done|]. destruct (parse text) as [v|]; [|by apply core_inv_deliver].
  destruct (parse_relay_client_message v) as [msg|]; [|by apply core_inv_deliver].
  destruct msg;
    lazymatch goal with
    | |- context [dispatch_locked ?s ?c ?mm ?i ?msg ?e] =>
        pose proof (core_inv_dispatch s c mm i msg e I1) as I2;
        destruct (dispatch_locked s c mm i msg e) as [[acts c2] m2]; by apply core_inv_deliver
    | |- context [handle_push ?cf ?c ?mm ?i ?f ?sl ?t ?b ?l ?d ?e] =>
        pose proof (core_inv_handle_push cf c mm i f sl t b l d e I1) as I2;
        destruct (handle_push cf c mm i f sl t b l d e) as [[[acts task] c2] m2]; by apply core_inv_deliver
    end.
Qed.

Lemma core_inv_end_connection c m id why at_ env :
  core_inv c → core_inv (w_core (end_connection c m id why at_ env)).
Proof.
  intros I. unfold end_connection. pose proof (core_inv_handle_close c id (e_close_now env id) I) as I1.
  destruct (handle_close c id (e_close_now env id)) as [[d|] c1]; [|done]. by apply core_inv_deliver.
Qed.

Lemma core_inv_drop_limiter c d :
  groups c !! d = None → core_inv c → core_inv (set_group_limiters c (delete d (group_limiters c))).
Proof.
  intros Hg I. split; cbn; try apply I.
  - intros id h Hh a Ha. destruct (ci_placed c I id h Hh a Ha) as [(g & Hgr & Hin) (l & Hl & Hhl)].
    split; [by exists g|]. exists l. split; [|done]. rewrite lookup_delete_ne by congruence. done.
  - intros d' g Hd. rewrite lookup_delete_ne by congruence. by apply (ci_groups c I).
  - intros d' l [_ Hl]%lookup_delete_Some. by apply (ci_group_ref c I d').
  - intros d1 d2 l [_ H1]%lookup_delete_Some [_ H2]%lookup_delete_Some. by apply (ci_group_inj c I d1 d2 l).
  - intros id h d' Hh [_ Hl]%lookup_delete_Some. by apply (ci_apart c I id h d').
Qed.

Lemma core_inv_stale_sweep cfg c m now : core_inv c → core_inv (stale_sweep cfg c m now).1.2.
Proof.
  intros I. unfold stale_sweep.
  pose proof (inv_check_stale (registry c) now (stale_timeout_ms cfg) (offline_evict_ms cfg) (ci_registry c I)) as H1.
  pose proof (all_sessions_check_stale (registry c) now (stale_timeout_ms cfg) (offline_evict_ms cfg) (ci_sessions c I)) as H2.
  destruct (check_stale_daemons (registry c) now _ _) as [res reg]. cbn [snd] in *.
  assert (core_inv (set_registry c reg)) as I1 by by apply core_inv_registry.
  match goal with |- context [foldl ?f _ (Registry.evicted res)] => set (purge := f) end.
  assert (∀ l acc, core_inv acc.1 → core_inv (foldl purge acc l).1) as Hp.
  { intros l. induction l as [|d l IH]; intros [c0 m0] I0; [done|]. cbn [foldl]. apply IH.
    unfold purge. cbn [fst snd].
    assert (core_inv (set_recent c0 (purge_daemon (recent c0) d))) as I2
      by (apply core_inv_set_recent; [|done]; apply wf_purge, I0).
    case_bool_decide; [|done]. by apply core_inv_drop_limiter. }
  specialize (Hp (Registry.evicted res) (set_registry c reg, m) I1).
  by destruct (foldl purge _ (Registry.evicted res)).
Qed.

(** *** No operation but a new socket registers a connection *)

Definition no_new_ids (c c' : RelayCore) : Prop := ∀ id, is_Some (conns c' !! id) → is_Some (conns c !! id).

Lemma no_new_ids_refl c c' : conns c' = conns c → no_new_ids c c'.
Proof. intros H id. by rewrite H. Qed.

Lemma no_new_ids_trans c1 c2 c3 : no_new_ids c1 c2 → no_new_ids c2 c3 → no_new_ids c1 c3.
Proof. intros H1 H2 id Hid. by apply H1, H2. Qed.

Lemma no_new_ids_alter c c' f id : conns c' = alter f id (conns c) → no_new_ids c c'.
Proof.
  intros H id'. rewrite H. destruct (decide (id' = id)) as [->|Hne].
  - rewrite lookup_alter_eq. by destruct (conns c !! id).
  - by rewrite lookup_alter_ne.
Qed.

Lemma remove_from_group_conns c d id : conns (remove_from_group c d id) = conns c.
Proof. unfold remove_from_group. destruct (groups c !! d); [|done]. by case_decide. Qed.

Lemma handle_close_conns c id now : conns (handle_close c id now).2 = delete id (conns c).
Proof.
  unfold handle_close. destruct (conns c !! id) as [h|] eqn:E; cbn; [|by rewrite delete_id].
  destruct (auth h) as [a|]; [|done]. case_decide; case_decide; cbn; by rewrite remove_from_group_conns.
Qed.

Lemma no_new_ids_close c id now : no_new_ids c (handle_close c id now).2.
Proof. intros id'. rewrite handle_close_conns, lookup_delete_is_Some. tauto. Qed.

Lemma no_new_ids_deliver env w acts c : no_new_ids c (w_core w) → no_new_ids c (w_core (deliver env w acts)).
Proof.
  apply deliver_pres. intros c' id now H. eapply no_new_ids_trans; [exact H|apply no_new_ids_close].
Qed.

Lemma register_authed_conns c id a :
  ∃ f, conns (register_authed_conn c id a) = alter f id (conns c).
Proof.
  unfold register_authed_conn, group_limiter_for. destruct (group_limiters c !! auth_daemon_id a);
    eexists; reflexivity.
Qed.

Lemma no_new_ids_finish_auth c id reply r d f : no_new_ids c (finish_auth c id reply r d f).2.
Proof.
  unfold finish_auth. destruct reply; try by apply no_new_ids_refl. cbn [snd].
  destruct (register_authed_conns c id (mkAuthState r d f ∅)) as [g Hg]. by eapply no_new_ids_alter.
Qed.

Lemma rate_gate_conns c m h env : conns (rate_gate c m h env).1.2 = conns c.
Proof.
  unfold rate_gate. destruct (check_ref_parts c (client_limiter h) (e_client_instant env)) as (P1 & _).
  destruct (check_ref c (client_limiter h) _) as [ok c1]. cbn [snd] in P1. destruct ok; [|done].
  destruct (group_limiter h) as [g|]; [|done].
  destruct (check_ref_parts c1 g (e_group_instant env)) as (Q1 & _).
  destruct (check_ref c1 g _) as [ok c2]. cbn [snd] in Q1. destruct ok; cbn; congruence.
Qed.

Lemma no_new_ids_dispatch sg c m id msg env : no_new_ids c (dispatch_locked sg c m id msg env).1.2.
Proof.
  unfold dispatch_locked. set (gate := match conns c !! id with Some _ => _ | None => _ end).
  assert (conns gate.1.2 = conns c) as Hg.
  { unfold gate. destruct (conns c !! id) as [h|]; [|done]. destruct (_ && _); [|done]. apply rate_gate_conns. }
  destruct gate as [[reject c1] m1]. cbn in Hg. destruct reject as [reply|]; [by apply no_new_ids_refl|].
  eapply no_new_ids_trans; [by apply (no_new_ids_refl c c1)|]. clear Hg.
  destruct msg as [r did tok v fid|tok v|did prf tok v|ct r|sid ct seq|sid after|sid|ts|? ? ? ? ? ?|? ? ?].
  - destruct (Handshake.handle_auth did tok _ fid _ (registry c1) sg) as [reply reg].
    pose proof (no_new_ids_finish_auth (set_registry c1 reg) id reply r did fid) as H.
    by destruct (finish_auth _ id reply r did fid).
  - destruct (Handshake.handle_auth_resume tok _ (registry c1) sg) as [[reply payload] reg].
    destruct payload as [p|]; [|by apply no_new_ids_refl]. destruct reply; try by apply no_new_ids_refl.
    destruct (resume_identity p) as [[r did] fid].
    pose proof (no_new_ids_finish_auth (set_registry c1 reg) id (AuthOk p0) r did fid) as H.
    by destruct (finish_auth _ id _ r did fid).
  - destruct (Handshake.handle_register did tok prf _ (registry c1)). by apply no_new_ids_refl.
  - destruct (authed_state c1 id); by apply no_new_ids_refl.
  - destruct (authed_state c1 id) as [a|]; [|by apply no_new_ids_refl]. unfold route_publish.
    case_bool_decide; by apply no_new_ids_refl.
  - destruct (authed_state c1 id) as [a0|]; [|by apply no_new_ids_refl]. unfold route_subscribe.
    destruct (peer_auth c1 id) as [a|]; [|by apply no_new_ids_refl]. case_decide; [by apply no_new_ids_refl|].
    destruct (_ && _), after; by eapply no_new_ids_alter.
  - cbn. destruct (authed_state c1 id) as [a0|]; [|by apply no_new_ids_refl]. unfold route_unsubscribe.
    destruct (peer_auth c1 id) as [a|]; [|by apply no_new_ids_refl]. case_decide; by eapply no_new_ids_alter.
  - destruct (authed_state c1 id) as [a|]; [|by apply no_new_ids_refl]. unfold route_ping.
    case_decide; by apply no_new_ids_refl.
  - by apply no_new_ids_refl.
  - by apply no_new_ids_refl.
Qed.

Lemma no_new_ids_inbound parse cfg c m id text env :
  no_new_ids c (w_core (handle_inbound parse cfg c m id text env).2).
Proof.
  unfold handle_inbound. case_decide; [by apply no_new_ids_deliver, no_new_ids_refl|].
  assert (no_new_ids c (preauth_throttle cfg c id).2) as H1.
  { unfold preauth_throttle. destruct (conns c !! id) as [h|] eqn:E; [|by apply no_new_ids_refl].
    destruct (auth h); [by apply no_new_ids_refl|]. intros id'. cbn. rewrite lookup_insert_is_Some.
    intros [<-|[_ ?]]; [by eexists|done]. }
  destruct (preauth_throttle cfg c id) as [close c1]. cbn [snd] in H1. destruct close; [done|].
  destruct (parse text) as [v|]; [|by apply no_new_ids_deliver].
  destruct (parse_relay_client_message v) as [msg|]; [|by apply no_new_ids_deliver].
  destruct msg;
    lazymatch goal with
    | |- context [dispatch_locked ?s ?c ?mm ?i ?msg ?e] =>
        pose proof (no_new_ids_dispatch s c mm i msg e) as I2;
        destruct (dispatch_locked s c mm i msg e) as [[acts c2] m2]; cbn [fst snd] in I2;
        apply no_new_ids_deliver; cbn; by eapply no_new_ids_trans
    | |- _ => idtac
    end.
  assert (∀ c, no_new_ids c (handle_push cfg c (inc_frames_in m) id frontend_id sealed title body
                               interruption_level data env).1.2) as Hp.
  { intros c0. unfold handle_push. set (gate := match conns c0 !! id with Some _ => _ | None => _ end).
    assert (conns gate.1.2 = conns c0) as Hg.
    { unfold gate. destruct (conns c0 !! id) as [h|]; [|done]. destruct (bool_decide _); [|done].
      apply rate_gate_conns. }
    destruct gate as [[reject c2] m2]. cbn in Hg.
    destruct reject; [by apply no_new_ids_refl|].
    destruct (resolve_push_locked c2 id frontend_id sealed); [by apply no_new_ids_refl|].
    destruct (has_push_service cfg); by apply no_new_ids_refl. }
  specialize (Hp c1). destruct (handle_push cfg c1 _ id frontend_id sealed title body interruption_level data env)
    as [[[acts task] c2] m2]. cbn [fst snd] in Hp. apply no_new_ids_deliver. cbn. by eapply no_new_ids_trans.
Qed.

(** After at most [n - 1] turns: the counter has not wrapped, and the registered
    ids are below it. *)
Definition world_inv (n : N) (wd : World) : Prop :=
  core_inv (wd_core wd) ∧ (next_conn_id wd ≤ n)%N ∧
  ∀ id, is_Some (conns (wd_core wd) !! id) → (id < next_conn_id wd)%N.

Lemma world_inv_step parse cfg svc n wd ev :
  (n + 1 < 2 ^ 64)%N → world_inv n wd → world_inv (n + 1) (relay_step parse cfg svc wd ev).
Proof.
  intros Hn (I & L & B).
  assert (∀ w inner ts, core_inv (w_core w) → no_new_ids (wd_core wd) (w_core w) →
            world_inv (n + 1) (of_wire wd w inner ts)) as Hw.
  { intros w inner ts Iw Nw. split_and!; [done|cbn; lia|]. intros id Hid. cbn. apply B. by apply Nw. }
  destruct ev as [|id text env|id why at_ env|now env|i r now env]; cbn [relay_step].
  - assert (next_id (next_conn_id wd) = (next_conn_id wd + 1)%N) as E1 by (unfold next_id; apply N.mod_small; lia).
    split_and!; cbn [wd_core next_conn_id]; rewrite ?E1; [|lia|].
    + apply core_inv_insert_conn; [|done]. destruct (conns (wd_core wd) !! next_conn_id wd) eqn:E; [|done].
      pose proof (B (next_conn_id wd) ltac:(by rewrite E)). lia.
    + intros id. unfold insert_conn. cbn. rewrite lookup_insert_is_Some.
      intros [<-|[_ H]]; [lia|]. apply B in H. lia.
  - pose proof (core_inv_handle_inbound parse cfg _ (wd_metrics wd) id text env I) as H1.
    pose proof (no_new_ids_inbound parse cfg (wd_core wd) (wd_metrics wd) id text env) as H2.
    destruct (handle_inbound parse cfg _ _ id text env) as [[d task] w]. by apply Hw.
  - apply Hw; [by apply core_inv_end_connection|]. unfold end_connection.
    pose proof (no_new_ids_close (wd_core wd) id (e_close_now env id)) as Hc.
    destruct (handle_close (wd_core wd) id _) as [[d|] c1]; [|done]. by apply no_new_ids_deliver.
  - pose proof (core_inv_stale_sweep cfg _ (wd_metrics wd) now I) as H1.
    assert (no_new_ids (wd_core wd) (stale_sweep cfg (wd_core wd) (wd_metrics wd) now).1.2) as H2.
    { apply no_new_ids_refl. unfold stale_sweep. destruct (check_stale_daemons _ now _ _) as [res reg].
      match goal with |- context [foldl ?f _ (Registry.evicted res)] => set (purge := f) end.
      assert (∀ l acc, conns (foldl purge acc l).1 = conns acc.1) as Hp.
      { intros l. induction l as [|d l IH]; intros acc; [done|]. cbn [foldl]. rewrite IH.
        unfold purge. by case_bool_decide. }
      specialize (Hp (Registry.evicted res) (set_registry (wd_core wd) reg, wd_metrics wd)).
      by destruct (foldl purge _ _). }
    destruct (stale_sweep cfg _ _ now) as [[acts c1] m1]. cbn [fst snd] in *.
    apply Hw; [by apply core_inv_deliver|by apply no_new_ids_deliver].
  - destruct (tasks wd !! i) as [task|]; [|split_and!; done || lia].
    destruct (finish_push_send svc _ _ _ task now) as [acts inner].
    apply Hw; [by apply core_inv_deliver|by apply no_new_ids_deliver, no_new_ids_refl].
Qed.

Lemma world_inv_run parse cfg svc core evs :
  core_inv core → conns core = ∅ → (N.of_nat (length evs) + 1 < 2 ^ 64)%N →
  world_inv (N.of_nat (length evs) + 1) (relay_run parse cfg svc core evs).
Proof.
  intros I Hc. assert (world_inv 1 (relay_init core)) as H0.
  { split_and!; [done..|]. intros id. cbn. rewrite Hc, lookup_empty. by intros []. }
  rewrite N.add_comm. revert H0. unfold relay_run. generalize (relay_init core), 1%N.
  induction evs as [|ev evs IH]; intros wd n H0 Hn; cbn [length] in *; [by rewrite N.add_0_r|].
  rewrite Nat2N.inj_succ, <-N.add_1_l, N.add_assoc in *. apply IH; [apply world_inv_step; [lia|done]|lia].
Qed.

(** What the relay's tables promise to whoever reads them: every authenticated
    connection sits in its daemon's group and holds that group's one shared
    budget; a frontend has a frontend id; nobody exceeds 256 subscriptions; no
    group is empty; a connection's own budget is shared with no other connection
    and no group; session lists stay bounded; valid tokens name registered
    daemons; no cached ring exceeds the configured depth. *)
Definition tables_ok (c : RelayCore) : Prop :=
  (∀ id h a, conns c !! id = Some h → auth h = Some a →
     (∃ g, groups c !! auth_daemon_id a = Some g ∧ id ∈ g) ∧
     (∃ l, group_limiters c !! auth_daemon_id a = Some l ∧ group_limiter h = Some l) ∧
     size (subscriptions a) ≤ 256 ∧
     (role a = Frontend → ∃ f, auth_frontend_id a = Some f ∧ f ≠ "")) ∧
  (∀ d g, groups c !! d = Some g → g ≠ ∅) ∧
  (∀ id h id' h', conns c !! id = Some h → conns c !! id' = Some h' →
     client_limiter h = client_limiter h' → id = id') ∧
  (∀ id h d, conns c !! id = Some h → group_limiters c !! d ≠ Some (client_limiter h)) ∧
  (∀ d s, daemon_states (registry c) !! d = Some s → NoDup (sessions s) ∧ length (sessions s) ≤ 256) ∧
  (∀ t d, valid_tokens (registry c) !! t = Some d → is_Some (registrations (registry c) !! d)) ∧
  (∀ k ring, buffers (recent c) !! k = Some ring → length ring ≤ cache_size (recent c)).

Lemma core_inv_tables c : core_inv c → tables_ok c.
Proof.
  intros I. split_and!.
  - intros id h a Hh Ha. destruct (ci_placed c I id h Hh a Ha) as [Hg Hl].
    destruct (ci_auth c I id h a Hh Ha) as [Hs Hf]. done.
  - intros d g Hd. by destruct (ci_groups c I d g Hd).
  - apply (ci_client_inj c I).
  - intros id h d Hh. by apply (ci_apart c I id h).
  - apply (ci_sessions c I).
  - intros t d Ht. by apply (auth_registered _ d t (ci_registry c I)).
  - apply (ci_recent c I).
Qed.

(** The invariant over whole turns; [Interleave] has it for every schedule. *)
Lemma relay_invariant parse cfg svc cache keys rc rd mr evs :
  (N.of_nat (length evs) + 1 < 2 ^ 64)%N →
  tables_ok (wd_core (relay_run parse cfg svc (core_new (with_cache_and_key_cap cache keys) rc rd mr) evs)).
Proof.
  intros Hn. apply core_inv_tables. eapply world_inv_run; [apply core_inv_new, wf_init|done..].
Qed.

(** ** Scope of a dispatch *)

Definition is_handshake (msg : RelayClientMessage) : bool :=
  match msg with Auth _ _ _ _ _ | AuthResume _ _ | Register _ _ _ _ => true | _ => false end.

Lemma gate_unauth c m id msg env :
  peer_auth c id = None →
  (match conns c !! id with
   | Some h => if bool_decide (is_Some (auth h)) && negb (match msg with Ping _ => true | _ => false end)
               then rate_gate c m h env else (None, c, m)
   | None => (None, c, m)
   end) = (None, c, m).
Proof.
  unfold peer_auth. destruct (conns c !! id) as [h|]; [|done]. cbn. intros ->.
  by rewrite bool_decide_eq_false_2 by by intros [].
Qed.

(** Before authentication a connection can do nothing but handshake: any
    other message leaves the whole relay state and the counters untouched and
    is answered, if at all, only to itself with [NOT_AUTHENTICATED]; the same
    holds for [relay.push], which spawns nothing. *)
Theorem unauthenticated_is_inert sg cfg c m id msg env :
  peer_auth c id = None → is_handshake msg = false →
  (let '(acts, c', m') := dispatch_locked sg c m id msg env in
   c' = c ∧ m' = m ∧ (acts = [] ∨ ∃ e, acts = not_authenticated id e)) ∧
  (∀ fid sealed title body level data,
     handle_push cfg c m id fid sealed title body level data env
     = (not_authenticated id SEND_AUTH_FIRST, None, c, m)).
Proof.
  intros Hn Hm. split.
  - unfold dispatch_locked. rewrite (gate_unauth c m id msg env Hn).
    destruct msg; try done; cbn; unfold route_push_register, authed_state; rewrite ?Hn; eauto.
  - intros. unfold handle_push, resolve_push_locked, authed_state.
    pose proof (gate_unauth c m id (AuthResume "" f64_zero) env Hn) as Hg. cbn in Hg.
    assert (∀ b, b && true = b) as Hb by (by intros []). 
    destruct (conns c !! id) as [h|]; [rewrite Hb in Hg; rewrite Hg|]; by rewrite Hn.
Qed.

(** What entitles [id] to daemon [d] when it sends [msg]. *)
Definition credentials (sg : ResumeTokenSigner) (c : RelayCore) (msg : RelayClientMessage) (now : N) (d : string) : Prop :=
  match msg with
  | Auth _ did tok _ _ => did = d ∧ valid_tokens (registry c) !! tok = Some d
  | AuthResume tok _ => ∃ p, verify sg tok now = Some p ∧ daemon_id p = d ∧ is_Some (registrations (registry c) !! d)
  | _ => False
  end.

Definition act_target (a : Action) : ConnId := match a with ASend t _ => t | AClose t _ _ => t end.

Definition member (c : RelayCore) (d : string) (id : ConnId) : Prop := ∃ g, groups c !! d = Some g ∧ id ∈ g.

(** The result of a dispatch stays within what [id] may reach. *)
Definition scoped (sg : ResumeTokenSigner) (c : RelayCore) (id : ConnId) (msg : RelayClientMessage) (now : N)
    (acts : list Action) (c' : RelayCore) : Prop :=
  (∀ act, act ∈ acts → act_target act = id ∨
     ∃ d, member c' d (act_target act) ∧
       ((∃ a, peer_auth c id = Some a ∧ auth_daemon_id a = d) ∨ credentials sg c msg now d)) ∧
  (∀ d, groups c' !! d = groups c !! d ∨
     groups c' !! d = Some (default ∅ (groups c !! d) ∪ {[id]}) ∧ credentials sg c msg now d) ∧
  (∀ m, ASend id (AuthOk m) ∈ acts → credentials sg c msg now (ao_daemon_id m)).

Lemma scoped_self sg c id msg now acts c' :
  groups c' = groups c → (∀ act, act ∈ acts → act_target act = id) →
  (∀ m, ASend id (AuthOk m) ∉ acts) → scoped sg c id msg now acts c'.
Proof.
  intros Hg Ha Hn. split; [intros act Hact; left; by apply Ha|].
  split; [intros d; left; by rewrite Hg|]. intros m Hm. by destruct (Hn m).
Qed.

Lemma scoped_none sg c id msg now c' : groups c' = groups c → scoped sg c id msg now [] c'.
Proof. intros H. apply scoped_self; [done|by intros ? ?%elem_of_nil|by intros ? ?%elem_of_nil]. Qed.

Lemma scoped_reply sg c id msg now reply c' :
  groups c' = groups c → (∀ m, reply ≠ AuthOk m) → scoped sg c id msg now [ASend id reply] c'.
Proof.
  intros Hg Hr. apply scoped_self; [done|by intros act ->%list_elem_of_singleton|].
  intros m Hm%list_elem_of_singleton. injection Hm as Hm. by apply (Hr m).
Qed.

Lemma register_authed_groups c id a d :
  groups (register_authed_conn c id a) !! d =
  if decide (d = auth_daemon_id a) then Some (default ∅ (groups c !! d) ∪ {[id]}) else groups c !! d.
Proof.
  unfold register_authed_conn, group_limiter_for.
  destruct (group_limiters c !! auth_daemon_id a); cbn; case_decide; subst;
    by rewrite ?lookup_insert_eq, ?lookup_insert_ne.
Qed.

Lemma presence_member c d act : act ∈ presence_actions c d → member c d (act_target act).
Proof.
  unfold presence_actions. destruct (daemon_states (registry c) !! d); [|by intros ?%elem_of_nil].
  intros (i & -> & (g & a & Hg & Hi & _)%elem_of_group_targets)%list_elem_of_fmap. by exists g.
Qed.

Lemma presence_not_auth_ok c d id m : ASend id (AuthOk m) ∉ presence_actions c d.
Proof.
  unfold presence_actions. destruct (daemon_states (registry c) !! d); [|by intros ?%elem_of_nil].
  by intros (i & ? & _)%list_elem_of_fmap.
Qed.

Lemma scoped_finish_auth sg c0 c id msg now reply r d f :
  groups c = groups c0 →
  (∀ m, reply = AuthOk m → ao_daemon_id m = d ∧ credentials sg c0 msg now d) →
  (reply = match reply with AuthOk _ | AuthErr _ => reply | _ => AuthErr "" end) →
  scoped sg c0 id msg now (finish_auth c id reply r d f).1 (finish_auth c id reply r d f).2.
Proof.
  intros Hg Hc Hr. unfold finish_auth. destruct reply as [m|e| | | | | | | | |]; try done.
  2:{ apply scoped_self; [done|..].
      - intros act [->%list_elem_of_singleton|Ha]%elem_of_app; [done|].
        destruct (_ && _); [by apply list_elem_of_singleton in Ha as ->|by apply elem_of_nil in Ha].
      - intros m [Hm%list_elem_of_singleton|Ha]%elem_of_app; [done|].
        destruct (_ && _); [by apply list_elem_of_singleton in Ha|by apply elem_of_nil in Ha]. }
  destruct (Hc m eq_refl) as [Hm Hcred]. cbn [fst snd].
  set (c1 := register_authed_conn c id _). split_and!.
  - intros act [->|Ha]%elem_of_cons; [by left|]. right. exists d. split; [|by right].
    by apply presence_member.
  - intros d'. unfold c1. rewrite register_authed_groups. cbn [auth_daemon_id]. rewrite Hg.
    case_decide; [subst d'; by right|by left].
  - intros m' [Hm'|Ha]%elem_of_cons; [|by apply presence_not_auth_ok in Ha].
    injection Hm' as ->. by rewrite Hm.
Qed.

Lemma scoped_group_sends sg c0 c id msg now a P f :
  groups c = groups c0 → peer_auth c0 id = Some a → (∀ i m, f i ≠ AuthOk m) →
  ∀ c', groups c' = groups c0 →
  scoped sg c0 id msg now ((λ i, ASend i (f i)) <$> group_targets c (auth_daemon_id a) P) c'.
Proof.
  intros Hg Ha Hf c' Hg'. split_and!.
  - intros act (i & -> & (g & a' & Hgr & Hi & _)%elem_of_group_targets)%list_elem_of_fmap. right.
    exists (auth_daemon_id a). split; [|left; eauto]. exists g. cbn. split; [|done]. congruence.
  - intros d. left. by rewrite Hg'.
  - intros m (i & Hm & _)%list_elem_of_fmap. injection Hm as <- Hm. by destruct (Hf id m).
Qed.

Lemma scoped_ext sg c1 c id msg now acts c' :
  conns c1 = conns c → groups c1 = groups c → registry c1 = registry c →
  scoped sg c1 id msg now acts c' → scoped sg c id msg now acts c'.
Proof.
  intros Hc Hg Hr. unfold scoped, credentials, peer_auth. by rewrite Hc, Hg, Hr.
Qed.

Lemma handshake_auth_reply d t b f now r sg reply r' :
  Handshake.handle_auth d t b f now r sg = (reply, r') → (∃ m, reply = AuthOk m) ∨ ∃ e, reply = AuthErr e.
Proof.
  unfold Handshake.handle_auth. destruct (Handshake.frontend_id_missing b f); [intros [= <- _]; eauto|].
  destruct (Registry.handle_auth r d t b now) as [[]]; intros [= <- _]; eauto.
Qed.

Lemma handshake_resume_reply t now r sg reply p r' :
  Handshake.handle_auth_resume t now r sg = ((reply, p), r') →
  (∃ m, reply = AuthOk m ∧ is_Some p) ∨ (∃ e, reply = AuthErr e) ∧ p = None.
Proof.
  unfold Handshake.handle_auth_resume. destruct (verify sg t now) as [q|]; [|intros [= <- <- _]; eauto].
  destruct (Registry.handle_auth_resume r _ _ now) as [[]]; intros [= <- <- _]; eauto.
Qed.

Lemma scoped_route sg c id msg now a acts c' :
  groups c' = groups c → peer_auth c id = Some a →
  (∀ act, act ∈ acts → (∀ m, act ≠ ASend id (AuthOk m)) ∧
     (act_target act = id ∨ member c (auth_daemon_id a) (act_target act))) →
  scoped sg c id msg now acts c'.
Proof.
  intros Hg Ha H. split_and!.
  - intros act Hact. destruct (H act Hact) as [_ [?|Hm]]; [by left|right].
    exists (auth_daemon_id a). split; [|left; eauto]. unfold member. by rewrite Hg.
  - intros d. left. by rewrite Hg.
  - intros m Hm. destruct (H _ Hm) as [Hn _]. by destruct (Hn m).
Qed.

(** The resumption arm: the group entered is the token's. *)
Lemma scoped_resumed sg c id tok v now reply p reg mm r did fid :
  Handshake.handle_auth_resume tok now (registry c) sg = (reply, Some p, reg) → reply = AuthOk mm →
  resume_identity p = (r, did, fid) →
  scoped sg c id (AuthResume tok v) now (finish_auth (set_registry c reg) id reply r did fid).1
    (finish_auth (set_registry c reg) id reply r did fid).2.
Proof.
  intros E -> Ep. apply Handshake.auth_resume_ok_inv in E as (Hv & Hreg & mm' & [= <-] & Hd).
  assert (daemon_id p = did) as Hdid by (destruct p; cbn in Ep; by injection Ep as <- <- <-).
  apply scoped_finish_auth; [done| |done]. intros m' [= <-]. rewrite <-Hdid. split; [done|]. by exists p.
Qed.

(** The push registration arm: the sealed token goes to the group's daemon. *)
Lemma scoped_push_register sg c id fid tok pf now nonce :
  scoped sg c id (PushRegister fid tok pf) now (route_push_register c id tok pf nonce) c.
Proof.
  unfold route_push_register, authed_state. destruct (peer_auth c id) as [a|] eqn:Ea; [|by apply scoped_reply].
  case_decide; [by apply scoped_reply|]. destruct (seal_token tok nonce); [|by apply scoped_none].
  destruct (find_in_group c (auth_daemon_id a) _) as [dc|] eqn:Ef; [|by apply scoped_none].
  apply (scoped_route sg c id _ _ a); [done|done|]. intros act ->%list_elem_of_singleton. split; [done|].
  right. unfold find_in_group in Ef. apply head_Some_elem_of in Ef.
  apply elem_of_group_targets in Ef as (g & a' & Hg & Hi & _). by exists g.
Qed.

(** The auth arm: what [finish_auth] does is licensed by the token that was checked. *)
Lemma scoped_auth_arm sg c id r did tok v fid now :
  let '(reply, reg) := Handshake.handle_auth did tok (bool_decide (r = Daemon)) fid now (registry c) sg in
  let '(acts, c') := finish_auth (set_registry c reg) id reply r did fid in
  scoped sg c id (Auth r did tok v fid) now acts c'.
Proof.
  destruct (Handshake.handle_auth did tok _ fid now (registry c) sg) as [reply reg] eqn:E.
  pose proof (scoped_finish_auth sg c (set_registry c reg) id (Auth r did tok v fid) now reply r did fid) as H.
  destruct (finish_auth _ id reply r did fid) as [acts c2]. apply H; [done|..].
  - intros mm ->. by apply Handshake.auth_ok_inv in E as (-> & Hv & _).
  - by apply handshake_auth_reply in E as [[? ->]|[? ->]].
Qed.

Lemma dispatch_scoped sg c m id msg env :
  core_inv c →
  scoped sg c id msg (e_now env) (dispatch_locked sg c m id msg env).1.1 (dispatch_locked sg c m id msg env).1.2.
Proof.
  intros I. unfold dispatch_locked. set (gate := match conns c !! id with Some _ => _ | None => _ end).
  assert (conns gate.1.2 = conns c ∧ groups gate.1.2 = groups c ∧ registry gate.1.2 = registry c ∧
          (∀ r, gate.1.1 = Some r → ∀ mm, r ≠ AuthOk mm)) as (G1 & G2 & G3 & G4).
  { unfold gate. destruct (conns c !! id) as [h|]; [|done]. destruct (_ && _); [|done].
    pose proof (rate_gate_spec c m h env I) as H. destruct (rate_gate c m h env) as [[rj c'] m'].
    destruct H as (_ & ? & ? & ? & _ & _ & Hr). split_and!; try done.
    intros r Hrj mm. cbn in Hrj. destruct (Hr r Hrj) as [->| ->]; done. }
  destruct gate as [[reject c1] m1]. cbn in G1, G2, G3, G4. destruct reject as [reply|].
  { apply scoped_reply; [done|]. by apply G4. }
  apply (scoped_ext sg c1 c); [done..|]. clear G1 G2 G3 G4 I.
  destruct msg as [r did tok v fid|tok v|did prf tok v|ct r|sid ct seq|sid after|sid|ts|? ? ? ? ? ?|? tok pf].
  - pose proof (scoped_auth_arm sg c1 id r did tok v fid (e_now env)) as H.
    destruct (Handshake.handle_auth _ _ _ _ _ _ _) as [reply reg]. by destruct (finish_auth _ _ _ _ _ _) as [acts c2].
  - destruct (Handshake.handle_auth_resume tok (e_now env) (registry c1) sg) as [[reply payload] reg] eqn:E.
    pose proof E as E'. apply handshake_resume_reply in E' as [(mm & -> & [p ->])|([e ->] & ->)].
    2:{ by apply scoped_reply. }
    destruct (resume_identity p) as [[r did] fid] eqn:Ep.
    pose proof (scoped_resumed sg c1 id tok v (e_now env) _ p reg mm r did fid E eq_refl Ep) as H.
    by destruct (finish_auth _ id _ r did fid) as [acts c2].
  - unfold Handshake.handle_register. destruct (Registry.handle_register (registry c1) did tok prf _) as [[u|e] reg];
      by apply scoped_reply.
  - unfold authed_state. destruct (peer_auth c1 id) as [a|] eqn:Ea; [|by apply scoped_reply].
    by apply scoped_group_sends.
  - unfold authed_state. destruct (peer_auth c1 id) as [a|] eqn:Ea; [|by apply scoped_reply].
    unfold route_publish. cbn [fst snd]. apply scoped_group_sends; try done; by case_bool_decide.
  - unfold authed_state, route_subscribe. destruct (peer_auth c1 id) as [a|] eqn:Ea; [|by apply scoped_reply].
    case_decide; [by apply scoped_reply|].
    destruct (_ && _), after as [after|]; cbn [fst snd];
      try (by apply scoped_none);
      (apply scoped_self; [done|by intros act (f & -> & _)%list_elem_of_fmap|
                           by intros mm (f & ? & _)%list_elem_of_fmap]).
  - cbn [fst snd]. apply scoped_none. unfold authed_state, route_unsubscribe.
    destruct (peer_auth c1 id) as [a|]; [|done]. by case_decide.
  - unfold authed_state. destruct (peer_auth c1 id) as [a|] eqn:Ea; [|by apply scoped_none].
    unfold route_ping. case_decide; by apply scoped_reply.
  - by apply scoped_none.
  - by apply scoped_push_register.
Qed.

(** *** Pushes *)

Lemma find_in_group_member c d P fc : find_in_group c d P = Some fc → member c d fc.
Proof.
  unfold find_in_group. intros H%head_Some_elem_of. apply elem_of_group_targets in H as (g & a & Hg & Hi & _). by exists g.
Qed.

(** What a [relay.push] of [id] may decide on the spot, and the task it may leave: only
    a daemon's connection pushes, in its own daemon's name, at a frontend of its own
    group, and that connection is the one answered. *)
Definition push_scoped (c : RelayCore) (id : ConnId) (fid : string) (acts : list Action) (task : option PushTask) : Prop :=
  (∀ act, act ∈ acts → (∀ i m, act ≠ ASend i (AuthOk m)) ∧
     (act_target act = id ∨ ∃ a, peer_auth c id = Some a ∧ role a = Daemon ∧ member c (auth_daemon_id a) (act_target act))) ∧
  (∀ t, task = Some t → t_daemon_conn t = id ∧ Push.frontend_id (t_req t) = fid ∧
     ∃ a, peer_auth c id = Some a ∧ role a = Daemon ∧ Push.daemon_id (t_req t) = auth_daemon_id a ∧
       ∀ fc, t_target t = Some fc → member c (auth_daemon_id a) fc).

Lemma push_scoped_self c id fid reply : (∀ m, reply ≠ AuthOk m) → push_scoped c id fid [ASend id reply] None.
Proof.
  intros Hr. split; [|done]. intros act ->%list_elem_of_singleton. split; [|by left]. intros i m [= _ E]. by apply (Hr m).
Qed.

Lemma handle_push_scoped cfg c m id fid sealed title body level data env :
  core_inv c →
  let '(acts, task, c', _) := handle_push cfg c m id fid sealed title body level data env in
  groups c' = groups c ∧ push_scoped c id fid acts task.
Proof.
  intros I. unfold handle_push. set (gate := match conns c !! id with Some _ => _ | None => _ end).
  assert (conns gate.1.2 = conns c ∧ groups gate.1.2 = groups c ∧ (∀ r, gate.1.1 = Some r → ∀ mm, r ≠ AuthOk mm)) as (G1 & G2 & G3).
  { unfold gate. destruct (conns c !! id) as [h|]; [|done]. destruct (bool_decide _); [|done].
    pose proof (rate_gate_spec c m h env I) as H. destruct (rate_gate c m h env) as [[rj c'] m'].
    destruct H as (_ & ? & ? & _ & _ & _ & Hr). split_and!; try done.
    intros r Hrj mm. cbn in Hrj. destruct (Hr r Hrj) as [->| ->]; done. }
  destruct gate as [[reject c1] m1]. cbn in G1, G2, G3. destruct reject as [reply|].
  { split; [done|]. apply push_scoped_self. by apply G3. }
  assert (∀ x, peer_auth c1 x = peer_auth c x) as Hpa by (intros x; unfold peer_auth; by rewrite G1).
  unfold resolve_push_locked, authed_state. rewrite Hpa.
  destruct (peer_auth c id) as [a|] eqn:Ea; [|split; [done|by apply push_scoped_self]].
  case_decide as Hrole; [split; [done|by apply push_scoped_self]|].
  set (fc := find_in_group c1 _ _). assert (∀ f, fc = Some f → member c (auth_daemon_id a) f) as Hfc.
  { intros f Hf. apply find_in_group_member in Hf as (g & Hg & Hi). exists g. by rewrite <-G2. }
  clearbody fc.
  assert (push_scoped c id fid (if bool_decide (is_Some fc) then map_delivery_result Push.Ws fc id title body data fid else []) None) as Hnow.
  { split; [|done]. intros act. destruct fc as [f|]; [|by intros ?%elem_of_nil].
    intros ->%list_elem_of_singleton. split; [done|]. right. exists a. split_and!; [done..|]. by apply Hfc. }
  destruct (unseal_token sealed) as [tok| | |]; try (split; [done|by apply push_scoped_self]);
    (destruct (has_push_service cfg); split; [done| |done|done]); (split; [by intros ? ?%elem_of_nil|]);
    intros t [= <-]; split_and!; [done|done| |done|done|]; exists a; by split_and!.
Qed.

(** What a push ends in, whenever and in whatever state of the relay: an answer to
    the daemon's connection, or the notification to the connection it was resolved
    to, which is still that frontend's. *)
Lemma finish_push_scoped svc apns inner c task now act :
  act ∈ (finish_push_send svc apns inner c task now).1 →
  (∀ i m, act ≠ ASend i (AuthOk m)) ∧
  (act_target act = t_daemon_conn task ∨
   t_target task = Some (act_target act) ∧ frontend_conn_live c (t_target task) (Push.frontend_id (t_req task)) = true).
Proof.
  unfold finish_push_send. destruct (Push.send_or_deliver svc apns inner (t_req task) now) as [r i].
  set (live := frontend_conn_live c (t_target task) (Push.frontend_id (t_req task))).
  assert (∀ r, (r = Push.Ws → live = true) →
    act ∈ map_delivery_result r (t_target task) (t_daemon_conn task) (t_title task) (t_body task) (t_data task)
            (Push.frontend_id (t_req task)) →
    (∀ i m, act ≠ ASend i (AuthOk m)) ∧ (act_target act = t_daemon_conn task ∨ t_target task = Some (act_target act) ∧ live = true)) as H.
  { intros r' Hr. destruct r'; cbn; try (by intros ?%elem_of_nil); try (intros ->%list_elem_of_singleton; by split; [|left]).
    destruct (t_target task) as [fc|]; [|by intros ?%elem_of_nil]. intros ->%list_elem_of_singleton. split; [done|].
    right. split; [done|]. by apply Hr. }
  destruct (bool_decide (r = Push.Ws) && negb live) eqn:E; [|apply H; intros ->; by destruct live].
  assert ((Push.send_or_deliver svc apns i (disconnected (t_req task)) now).1 ≠ Push.Ws) as Hn.
  { unfold Push.send_or_deliver, Push.guard_phase. cbn [Push.is_frontend_connected disconnected].
    destruct (Push.deduped _ _ _ _); [done|]. destruct (Push.over_limit _ _ _); [done|].
    destruct (Push.apns_configured svc); [|done]. unfold Push.finish_phase, Push.apns_outcome. cbn.
    by destruct (apns _) as [|[]]. }
  destruct (Push.send_or_deliver svc apns i (disconnected (t_req task)) now) as [r2 i2]. cbn [fst] in Hn |- *. by apply H.
Qed.

(** C19. Isolation: whatever message a connection sends, every action the relay decides
    on for it is addressed to the connection itself or to a member of the group of a
    daemon it is authenticated for (or has just proved credentials for); the only group
    it can enter is one whose current registration token, or a valid unexpired resume
    token of a still registered daemon, it just presented; and it is told so only then.
    A push, which is not decided in one go, is a daemon's alone, is done in that
    daemon's name and is resolved to a member of its own group; and whenever it ends,
    its outcome goes to the daemon's connection, or as a notification to the member it
    was resolved to, if that is still the frontend named. *)
Theorem dispatch_isolation sg cfg c m id msg env :
  core_inv c →
  scoped sg c id msg (e_now env) (dispatch_locked sg c m id msg env).1.1 (dispatch_locked sg c m id msg env).1.2 ∧
  (∀ fid sealed title body level data, msg = Messages.Push fid sealed title body level data →
     let '(acts, task, c', _) := handle_push cfg c m id fid sealed title body level data env in
     groups c' = groups c ∧ push_scoped c id fid acts task) ∧
  (∀ svc apns inner c2 task now act, act ∈ (finish_push_send svc apns inner c2 task now).1 →
     (∀ i m, act ≠ ASend i (AuthOk m)) ∧
     (act_target act = t_daemon_conn task ∨
      t_target task = Some (act_target act) ∧ frontend_conn_live c2 (t_target task) (Push.frontend_id (t_req task)) = true)).
Proof.
  intros I. split; [by apply dispatch_scoped|]. split; [|apply finish_push_scoped].
  intros fid sealed title body level data _. by apply handle_push_scoped.
Qed.

(** ** Delivery terminates *)

Definition conn_count (w : Wire) : nat := size (conns (w_core w)).

Lemma close_conn_sync_count env w id code reason :
  conn_count (close_conn_sync env w id code reason).1 ≤ conn_count w ∧
  (∀ acts, (close_conn_sync env w id code reason).2 = Some acts →
     conn_count (close_conn_sync env w id code reason).1 < conn_count w).
Proof.
  unfold conn_count. rewrite close_conn_sync_core, handle_close_conns. unfold close_conn_sync, handle_close.
  destruct (conns (w_core w) !! id) as [h|] eqn:E.
  - rewrite map_size_delete_Some by (by eexists).
    assert (size (conns (w_core w)) ≠ 0).
    { intros H0%map_size_empty_inv. by rewrite H0, lookup_empty in E. }
    split; [lia|]. intros; lia.
  - rewrite delete_id by done. split; [lia|]. done.
Qed.

Lemma foldl_agree {A B} (Q : B → Prop) (f g : B → A → B) (l : list A) (b : B) :
  Q b → (∀ b a, Q b → f b a = g b a ∧ Q (g b a)) → foldl f b l = foldl g b l ∧ Q (foldl g b l).
Proof.
  intros Hb H. revert b Hb. induction l as [|a l IH]; intros b Hb; [done|]. cbn.
  destruct (H b a Hb) as [-> HQ]. by apply IH.
Qed.

(** Any two depths above the number of connections agree. *)
Lemma deliver_fuel_enough fuel fuel' env w acts :
  conn_count w < fuel → conn_count w < fuel' →
  deliver_actions fuel env w acts = deliver_actions fuel' env w acts.
Proof.
  revert fuel' w acts. induction fuel as [|fuel IH]; intros [|fuel'] w acts H H'; [lia..|].
  cbn [deliver_actions].
  set (cc := λ w id code reason, match close_conn_sync env w id code reason with
                                 | (w, Some acts) => deliver_actions fuel env w acts
                                 | (w, None) => w end).
  set (cc' := λ w id code reason, match close_conn_sync env w id code reason with
                                  | (w, Some acts) => deliver_actions fuel' env w acts
                                  | (w, None) => w end).
  assert (∀ w0 n, conn_count w0 ≤ n → ∀ k acts0, conn_count (deliver_actions k env w0 acts0) ≤ n) as Hcnt.
  { intros w0 n Hn k acts0. apply (deliver_actions_pres (λ c, size (conns c) ≤ n)); [|done].
    intros c id now Hc. cbn beta in *. rewrite handle_close_conns, map_size_delete.
    destruct (conns c !! id); cbn; lia. }
  assert (∀ w0 id code reason, conn_count w0 ≤ conn_count w →
            cc w0 id code reason = cc' w0 id code reason ∧ conn_count (cc' w0 id code reason) ≤ conn_count w) as Hcc.
  { intros w0 id code reason H0. unfold cc, cc'.
    destruct (close_conn_sync_count env w0 id code reason) as [Hle Hlt].
    destruct (close_conn_sync env w0 id code reason) as [w1 [acts1|]]; cbn [fst snd] in *; [|split; [done|lia]].
    specialize (Hlt acts1 eq_refl). split; [apply IH; lia|]. apply Hcnt. lia. }
  match goal with |- (let '(_, _) := foldl ?f _ _ in _) = (let '(_, _) := foldl ?g _ _ in _) =>
    set (one := f); set (one' := g) end.
  destruct (foldl_agree (λ acc : Wire * list ConnId, conn_count acc.1 ≤ conn_count w) one one' acts (w, []))
    as [-> Hq]; [done| |].
  { intros [w0 bp] a H0. cbn [fst] in H0. unfold one, one'. destruct a as [t msg|t code reason].
    - split; [done|]. destruct (conns (w_core w0) !! t); [|done]. by destruct (e_try_send env (w_tries w0)).
    - destruct (Hcc w0 t code reason H0) as [E Hle]. split; [|done]. f_equal. exact E. }
  destruct (foldl one' (w, []) acts) as [w1 bp]. cbn [fst] in Hq.
  refine (proj1 (foldl_agree (λ w0, conn_count w0 ≤ conn_count w) _ _ bp w1 Hq _)).
  intros w0 t H0. apply Hcc. exact H0.
Qed.

Definition send (x : ConnId * RelayServerMessage) : Action := ASend x.1 x.2.

(** The sends whose target is still registered, each with the environment's
    answer. *)
Definition attempts (env : Env) (w : Wire) (l : list (ConnId * RelayServerMessage))
  : list ((ConnId * RelayServerMessage) * TrySend) :=
  let reg := filter (λ x, is_Some (conns (w_core w) !! x.1)) l in
  zip reg (e_try_send env <$> seq (w_tries w) (length reg)).

Definition delivered (l : list ((ConnId * RelayServerMessage) * TrySend)) : list Output :=
  omap (λ '((t, msg), r), match r with Sent => Some (Delivered t msg) | _ => None end) l.
Definition full_targets (l : list ((ConnId * RelayServerMessage) * TrySend)) : list ConnId :=
  omap (λ '((t, msg), r), match r with Full => Some t | _ => None end) l.

(** The first pass of a delivery of sends only. *)
Lemma first_pass cc env l w bp :
  foldl (λ (acc : Wire * list ConnId) (action : Action),
    let '(w, backpressured) := acc in
    match action with
    | ASend target msg =>
        match conns (w_core w) !! target with
        | None => (w, backpressured)
        | Some _ =>
            let k := w_tries w in
            match e_try_send env k with
            | Sent => (mkWire (w_core w) (inc_frames_out (w_metrics w))
                         (w_out w ++ [Delivered target msg]) (S k), backpressured)
            | Full => (mkWire (w_core w) (w_metrics w) (w_out w) (S k), backpressured ++ [target])
            | Closed => (mkWire (w_core w) (w_metrics w) (w_out w) (S k), backpressured)
            end
        end
    | AClose target code reason => (cc w target code reason, backpressured)
    end) (w, bp) (send <$> l)
  = (mkWire (w_core w) (Nat.iter (length (delivered (attempts env w l))) inc_frames_out (w_metrics w))
       (w_out w ++ delivered (attempts env w l))
       (w_tries w + length (filter (λ x, is_Some (conns (w_core w) !! x.1)) l)),
     bp ++ full_targets (attempts env w l)).
Proof.
  revert w bp. induction l as [|[t msg] l IH]; intros w bp.
  { cbn. rewrite !app_nil_r, Nat.add_0_r. by destruct w. }
  rewrite fmap_cons. cbn [foldl send fst snd]. unfold attempts. rewrite filter_cons. cbn [fst].
  destruct (conns (w_core w) !! t) as [h|] eqn:E.
  2:{ rewrite decide_False by by intros []. by rewrite IH. }
  rewrite decide_True by by eexists. cbn [length seq fmap list_fmap zip zip_with].
  destruct (e_try_send env (w_tries w)) eqn:Et; rewrite IH; unfold attempts; cbn [w_core w_tries w_out w_metrics];
    cbn [delivered full_targets omap list_omap]; rewrite ?Et; f_equal;
    rewrite <-?app_assoc; f_equal; try lia; try done.
  - cbn [length]. rewrite Nat.iter_succ_r. done.
Qed.

Lemma close_conn_gone env w id code reason :
  conns (w_core (close_conn_sync env w id code reason).1) !! id = None.
Proof. rewrite close_conn_sync_core, handle_close_conns. apply lookup_delete_eq. Qed.

(** What every step of a delivery preserves. *)
Lemma deliver_wire_pres (P : Wire → Prop) fuel env w acts :
  (∀ w id code reason, P w → P (close_conn_sync env w id code reason).1) →
  (∀ w m o k, P w → P (mkWire (w_core w) m (w_out w ++ o) k)) →
  P w → P (deliver_actions fuel env w acts).
Proof.
  intros HPc HPo. revert w acts. induction fuel as [|fuel IH]; intros w acts Hw; [done|].
  cbn [deliver_actions].
  set (close_conn := λ w id code reason, match close_conn_sync env w id code reason with
                                         | (w, Some acts) => deliver_actions fuel env w acts
                                         | (w, None) => w end).
  assert (∀ w id code reason, P w → P (close_conn w id code reason)) as Hc.
  { intros w0 id code reason H0. unfold close_conn. pose proof (HPc w0 id code reason H0) as H1.
    destruct (close_conn_sync env w0 id code reason) as [w1 [acts1|]]; [by apply IH|done]. }
  assert (∀ w m k, P w → P (mkWire (w_core w) m (w_out w) k)) as HPm.
  { intros w0 m k H0. rewrite <-(app_nil_r (w_out w0)). by apply HPo. }
  match goal with |- context [foldl ?f (w, []) acts] => set (one := f) end.
  assert (∀ l acc, P acc.1 → P (foldl one acc l).1) as Hone.
  { intros l. induction l as [|a l IHl]; intros [w0 bp] H0; [done|]. cbn [foldl]. apply IHl.
    unfold one. destruct a as [t msg|t code reason]; [|by apply Hc]. cbn [fst] in H0.
    destruct (conns (w_core w0) !! t); [|done].
    destruct (e_try_send env (w_tries w0)); [by apply HPo|by apply HPm|by apply HPm]. }
  specialize (Hone acts (w, []) Hw). destruct (foldl one (w, []) acts) as [w1 bp]. cbn in Hone.
  revert w1 Hone. induction bp as [|t bp IHb]; intros w1 H1; [done|]. cbn [foldl]. apply IHb, Hc. by apply HPm.
Qed.

(** A connection that was registered in [c0] still is, or was sent a close. *)
Definition accounted (c0 : RelayCore) (w : Wire) : Prop :=
  ∀ id, is_Some (conns c0 !! id) →
    is_Some (conns (w_core w) !! id) ∨ ∃ code reason, CloseSignal id code reason ∈ w_out w.

Lemma accounted_deliver c0 fuel env w acts : accounted c0 w → accounted c0 (deliver_actions fuel env w acts).
Proof.
  apply deliver_wire_pres.
  - intros w0 id code reason H0 id' Hid'. rewrite close_conn_sync_core, handle_close_conns.
    destruct (H0 id' Hid') as [Hr|(c & r & Hs)].
    + rewrite lookup_delete_is_Some. destruct (decide (id = id')) as [->|Hne]; [|by left].
      right. exists code, reason. unfold close_conn_sync. rewrite bool_decide_eq_true_2 by done.
      destruct (handle_close _ _ _). cbn. apply elem_of_app. right. by apply list_elem_of_singleton.
    + right. exists c, r. unfold close_conn_sync. destruct (handle_close _ _ _). cbn.
      apply elem_of_app. by left.
  - intros w0 m o k H0 id Hid. destruct (H0 id Hid) as [?|(c & r & Hs)]; [by left|right].
    exists c, r. cbn. apply elem_of_app. by left.
Qed.

Lemma gone_deliver t fuel env w acts :
  conns (w_core w) !! t = None → conns (w_core (deliver_actions fuel env w acts)) !! t = None.
Proof.
  apply (deliver_wire_pres (λ w, conns (w_core w) !! t = None)); [|done].
  intros w0 id code reason H0. rewrite close_conn_sync_core, handle_close_conns.
  destruct (decide (id = t)) as [->|]; [apply lookup_delete_eq|by rewrite lookup_delete_ne].
Qed.

(** Delivery of a batch of sends: it terminates (the nesting of deliveries
    and closes is never deeper than the number of connections); each registered
    target is tried once, in order, and an accepting outbox is handed its
    message and counted; a full outbox costs its connection its registration
    and its socket a close; a full outbox never affects another connection's
    messages of the batch; nobody is unregistered without a close signal; and
    when no outbox is full nothing but the counter changes. *)
Theorem delivery_backpressure env w l :
  let w' := deliver env w (send <$> l) in
  (∀ fuel, conn_count w < fuel → deliver_actions fuel env w (send <$> l) = w') ∧
  (w_out w ++ delivered (attempts env w l)) `prefix_of` w_out w' ∧
  (∀ t, t ∈ full_targets (attempts env w l) → conns (w_core w') !! t = None) ∧
  accounted (w_core w) w' ∧
  (full_targets (attempts env w l) = [] →
     w_core w' = w_core w ∧ w_out w' = w_out w ++ delivered (attempts env w l) ∧
     w_metrics w' = Nat.iter (length (delivered (attempts env w l))) inc_frames_out (w_metrics w)).
Proof.
  cbv zeta. split_and!.
  - intros fuel Hf. unfold deliver. apply deliver_fuel_enough; [done|]. unfold conn_count. lia.
  - unfold deliver. cbn [deliver_actions]. rewrite first_pass. cbn [app].
    generalize (full_targets (attempts env w l)). intros bp.
    match goal with |- context [mkWire ?c ?m ?o ?k] => set (w1 := mkWire c m o k) end.
    assert ((w_out w ++ delivered (attempts env w l)) `prefix_of` w_out w1) as H1 by done.
    revert H1. generalize w1. induction bp as [|t bp IH]; intros w0 H0; [done|]. cbn [foldl]. apply IH.
    match goal with |- context [close_conn_sync env ?w ?i ?c ?r] =>
      assert (w_out w0 `prefix_of` w_out (close_conn_sync env w i c r).1) as H2 end.
    { unfold close_conn_sync. destruct (handle_close _ _ _). cbn. by apply prefix_app_r. }
    destruct (close_conn_sync env _ t _ _) as [w2 [acts|]]; cbn [fst] in H2; [|by etrans].
    apply (deliver_wire_pres (λ w', _ `prefix_of` w_out w')); [|by intros; apply prefix_app_r|by etrans].
    intros w3 id code reason H3. unfold close_conn_sync. destruct (handle_close _ _ _). cbn. by apply prefix_app_r.
  - intros t Ht. unfold deliver. cbn [deliver_actions]. rewrite first_pass. cbn [app]. revert Ht.
    generalize (full_targets (attempts env w l)). intros bp.
    match goal with |- context [mkWire ?c ?m ?o ?k] => generalize (mkWire c m o k) end.
    induction bp as [|x bp IH]; intros w0 Ht; [by apply elem_of_nil in Ht|]. cbn [foldl].
    assert (∀ bp w0, conns (w_core w0) !! t = None → conns (w_core (foldl (λ w2 target,
      match close_conn_sync env (mkWire (w_core w2) (inc_backpressure_disconnects (w_metrics w2)) (w_out w2) (w_tries w2))
              target 1013 "Backpressure" with
      | (w3, Some acts) => deliver_actions (size (conns (w_core w))) env w3 acts
      | (w3, None) => w3 end) w0 bp)) !! t = None) as Hkeep.
    { intros bp0. induction bp0 as [|y bp0 IH0]; intros w2 H2; [done|]. cbn [foldl]. apply IH0.
      match goal with |- context [close_conn_sync env ?w ?i ?c ?r] =>
        assert (conns (w_core (close_conn_sync env w i c r).1) !! t = None) as H3 end.
      { rewrite close_conn_sync_core, handle_close_conns. cbn. rewrite lookup_delete. by case_decide. }
      destruct (close_conn_sync env _ y _ _) as [w3 [acts|]]; cbn [fst] in H3; [|done]. by apply gone_deliver. }
    apply elem_of_cons in Ht as [->|Ht]; [|by apply IH]. apply Hkeep.
    match goal with |- context [close_conn_sync env ?w ?i ?c ?r] =>
      pose proof (close_conn_gone env w i c r) as H3 end.
    destruct (close_conn_sync env _ x _ _) as [w3 [acts|]]; cbn [fst] in H3; [|done]. by apply gone_deliver.
  - apply accounted_deliver. intros id Hid. by left.
  - intros Hf. unfold deliver. cbn [deliver_actions]. rewrite first_pass, Hf. done.
Qed.

(** ** The rate limit *)

Definition is_ping (msg : RelayClientMessage) : bool := match msg with Ping _ => true | _ => false end.

Lemma check_ref_heap c l t l' : l' ≠ l → heap (check_ref c l t).2 !! l' = heap c !! l'.
Proof.
  intros Hne. unfold check_ref. destruct (heap c !! l) as [lim|]; [|done]. destruct (check lim t).
  cbn. by rewrite lookup_insert_ne.
Qed.

Lemma check_ref_verdict c l t lim : heap c !! l = Some lim → (check_ref c l t).1 = (check lim t).1.
Proof. intros H. unfold check_ref. rewrite H. by destruct (check lim t). Qed.

(** The two-layer limit on an authenticated connection: when its own
    budget refuses, the message is dropped with one [RATE_LIMITED] reply and no
    other budget (in particular not the group's) is charged; when only the
    group's refuses, likewise with the group's message; in both cases nothing
    but budgets and the drop counter changes, and no socket is closed.  A ping
    is never charged. *)
Theorem rate_limit_drop sg c m id h msg env lim :
  conns c !! id = Some h → is_Some (auth h) → is_ping msg = false →
  heap c !! client_limiter h = Some lim →
  (let '(acts, c', m') := dispatch_locked sg c m id msg env in
  ((check lim (e_client_instant env)).1 = false →
     acts = [ASend id CLIENT_RATE_LIMITED] ∧ m' = inc_rate_limited_drops m ∧
     (∀ l, l ≠ client_limiter h → heap c' !! l = heap c !! l) ∧
     conns c' = conns c ∧ registry c' = registry c ∧ recent c' = recent c) ∧
  (∀ g glim, group_limiter h = Some g → g ≠ client_limiter h → heap c !! g = Some glim →
     (check lim (e_client_instant env)).1 = true → (check glim (e_group_instant env)).1 = false →
     acts = [ASend id GROUP_RATE_LIMITED] ∧ m' = inc_daemon_rate_limited_drops m ∧
     (∀ l, l ≠ client_limiter h → l ≠ g → heap c' !! l = heap c !! l) ∧
     conns c' = conns c ∧ registry c' = registry c ∧ recent c' = recent c)) ∧
  (∀ ts, heap (dispatch_locked sg c m id (Ping ts) env).1.2 = heap c).
Proof.
  intros Hh Ha Hp Hl.
  split.
  2:{ intros ts. unfold dispatch_locked. rewrite Hh, andb_false_r. unfold authed_state, route_ping.
      destruct (peer_auth c id); [|done]. by case_decide. }
  unfold dispatch_locked. rewrite Hh. fold (is_ping msg). rewrite Hp.
  rewrite bool_decide_eq_true_2 by done. cbn [andb negb].
  destruct (check_ref_parts c (client_limiter h) (e_client_instant env)) as (P1 & P2 & P3 & P4 & P5).
  pose proof (check_ref_verdict c (client_limiter h) (e_client_instant env) lim Hl) as Hv.
  pose proof (check_ref_heap c (client_limiter h) (e_client_instant env)) as Hheap.
  unfold rate_gate. destruct (check_ref c (client_limiter h) (e_client_instant env)) as [ok c1].
  cbn [fst snd] in *. rewrite <-Hv. destruct ok.
  2:{ split; [by intros _|done]. }
  destruct (group_limiter h) as [g|].
  2:{ match goal with |- let '(_, _) := ?d in _ => destruct d as [[acts c'] m'] end.
      split; done. }
  destruct (check_ref_parts c1 g (e_group_instant env)) as (Q1 & Q2 & Q3 & Q4 & Q5).
  pose proof (check_ref_verdict c1 g (e_group_instant env)) as Hgv.
  pose proof (check_ref_heap c1 g (e_group_instant env)) as Hgheap.
  destruct (check_ref c1 g (e_group_instant env)) as [gok c2]. cbn [fst snd] in *. destruct gok.
  - match goal with |- let '(_, _) := ?d in _ => destruct d as [[acts c'] m'] end.
    split; [done|]. intros g' glim [= <-] Hne Hg _ Hf.
    rewrite Hheap in Hgv by done. rewrite <-(Hgv glim Hg) in Hf. done.
  - split; [done|]. intros g' glim [= <-] Hne Hg _ Hf.
    split_and!; try done; [|congruence..]. intros l Hl1 Hl2. by rewrite Hgheap, Hheap.
Qed.

(** ** Pre-auth throttling *)

(** The pre-auth throttle: each frame of acceptable size from an
    unauthenticated connection is counted before it is parsed; once the
    configured number has been spent the next frame, whatever it says, ends the
    connection with 1008, is not parsed, sends nothing and changes nothing but
    the count; an authenticated connection is never counted. *)
Theorem preauth_throttle_bound parse cfg c m id h text env :
  conns c !! id = Some h → (preauth_count h + 1 < 2 ^ 32)%N →
  (N.of_nat (str_len text) ≤ max_frame_size cfg)%N →
  let counted := set_conns c (<[id := mkHandle (client_limiter h) (group_limiter h) (auth h) (preauth_count h + 1)]> (conns c)) in
  (auth h = None → (max_preauth_msgs cfg ≤ preauth_count h)%N →
     handle_inbound parse cfg c m id text env
     = (Some (1008%N, "Too many pre-auth messages"), None, mkWire counted (inc_frames_in m) [] 0)) ∧
  (auth h = None → (preauth_count h < max_preauth_msgs cfg)%N →
     preauth_throttle cfg c id = (false, counted)) ∧
  (is_Some (auth h) → preauth_throttle cfg c id = (false, c)).
Proof.
  intros Hh Hn Hs counted. split_and!.
  - intros Ha Hmax. unfold handle_inbound. rewrite decide_False by lia.
    unfold preauth_throttle. rewrite Hh, Ha, N.mod_small by done. rewrite bool_decide_eq_true_2 by lia.
    unfold counted. by rewrite Ha.
  - intros Ha Hmax. unfold preauth_throttle. rewrite Hh, Ha, N.mod_small by done.
    rewrite bool_decide_eq_false_2 by lia. unfold counted. by rewrite Ha.
  - intros [a Ha]. unfold preauth_throttle. by rewrite Hh, Ha.
Qed.

(** ** Push *)

Lemma find_in_group_Some c d P id :
  find_in_group c d P = Some id → ∃ a, in_group c d id a ∧ P a = true.
Proof.
  unfold find_in_group. intros H%head_Some_elem_of.
  apply elem_of_group_targets in H as (g & a & Hg & Hi & Ha & HP). exists a. split; [|done]. split; eauto.
Qed.

(** A device token's round trip through the untrusted daemon: the relay
    hands the sealed token to a daemon of the registering frontend's own group,
    labelled with the frontend's authenticated id (the wire id plays no part);
    when any authenticated daemon later pushes with that blob, the token the
    push carries is the one registered and the daemon id is its own. *)
Theorem push_token_roundtrip {TL : TokenSealerLaws TS} c id a tok pf nonce acts :
  peer_auth c id = Some a → role a = Frontend → is_str tok → length nonce = 24 →
  route_push_register c id tok pf nonce = acts →
  acts = [] ∨
  ∃ dc sealed, acts = [ASend dc (PushToken (mkPushToken (default "" (auth_frontend_id a)) sealed pf))] ∧
    (∃ ad, in_group c (auth_daemon_id a) dc ad ∧ role ad = Daemon) ∧
    ∀ c2 id2 a2 fid, peer_auth c2 id2 = Some a2 → role a2 = Daemon →
      ∃ fc, resolve_push_locked c2 id2 fid sealed
            = ResolvedPush (auth_daemon_id a2) tok fc (bool_decide (is_Some fc)) ∧
        (∀ i, fc = Some i → ∃ af, in_group c2 (auth_daemon_id a2) i af ∧ role af = Frontend ∧
                               auth_frontend_id af = Some fid).
Proof.
  intros Ha Hr Ht Hn <-. unfold route_push_register, authed_state. rewrite Ha.
  rewrite decide_False by auto.
  destruct (seal_token_total tok nonce Hn) as [sealed Hs]. rewrite Hs.
  destruct (find_in_group c (auth_daemon_id a) _) as [dc|] eqn:Ef; [right|by left].
  exists dc, sealed. split; [done|]. apply find_in_group_Some in Ef as (ad & Hin & Hd%bool_decide_eq_true_1).
  split; [by exists ad|]. intros c2 id2 a2 fid Ha2 Hr2. unfold resolve_push_locked, authed_state.
  rewrite Ha2, decide_False by auto. rewrite (unseal_seal_token tok nonce sealed Ht Hn Hs).
  eexists. split; [done|]. intros i Hi. apply find_in_group_Some in Hi as (af & Hinf & HP).
  apply andb_true_iff in HP as [?%bool_decide_eq_true_1 ?%bool_decide_eq_true_1]. eauto.
Qed.

(** A push is not lost to a disconnect: the spawned task notifies the
    frontend in band only if its connection is still that frontend's when the
    task runs; otherwise it goes through exactly the offline path (same dedup
    and rate budgets, charged once), whose verdict is what the daemon is told. *)
Theorem push_not_lost svc apns inner c task now :
  let fid := Push.frontend_id (t_req task) in
  let offline := Push.send_or_deliver svc apns inner (disconnected (t_req task)) now in
  let report r := map_delivery_result r (t_target task) (t_daemon_conn task) (t_title task) (t_body task)
                    (t_data task) fid in
  offline.1 ≠ Push.Ws ∧
  finish_push_send svc apns inner c task now =
    if Push.is_frontend_connected (t_req task) && frontend_conn_live c (t_target task) fid
    then (report Push.Ws, inner)
    else (report offline.1, offline.2).
Proof.
  cbv zeta.
  assert (∀ req, Push.is_frontend_connected req = false → (Push.send_or_deliver svc apns inner req now).1 ≠ Push.Ws) as Hne.
  { intros req Hreq. unfold Push.send_or_deliver, Push.guard_phase. rewrite Hreq.
    destruct (Push.deduped _ _ _ _); [done|]. destruct (Push.over_limit _ _ _); [done|].
    destruct (Push.apns_configured svc); [|done]. unfold Push.finish_phase. by destruct (apns _) as [|[]]. }
  split; [by apply Hne|]. unfold finish_push_send.
  destruct (Push.is_frontend_connected (t_req task)) eqn:Ec; cbn [andb].
  - assert (Push.send_or_deliver svc apns inner (t_req task) now = (Push.Ws, inner)) as ->
      by (unfold Push.send_or_deliver; by rewrite Ec).
    rewrite bool_decide_eq_true_2 by done. destruct (frontend_conn_live _ _ _); [done|].
    cbn [andb negb]. by destruct (Push.send_or_deliver svc apns inner (disconnected (t_req task)) now).
  - assert (disconnected (t_req task) = t_req task) as -> by (destruct (t_req task); cbn in *; by subst).
    pose proof (Hne (t_req task) Ec) as Hn.
    destruct (Push.send_or_deliver svc apns inner (t_req task) now) as [r inner'].
    by rewrite bool_decide_eq_false_2.
Qed.
End conn.

(** ** Witnesses: a small relay *)

Module Demo.
#[local] Instance gov : Governor := counting_governor.
#[local] Instance iter_str : HashIter string := elements_iter string.
#[local] Instance iter_conn : HashIter N := elements_iter N.
#[local] Instance crypto : ResumeCrypto := demo_crypto.
#[local] Instance crates : Crypto.CryptoCrates := Crypto.demo_crates.
#[local] Instance sealer : TokenSealer := sealer_api demo_old.

Lemma sealer_laws : TokenSealerLaws sealer.
Proof. apply (sealer_api_laws (L := Crypto.demo_crates_laws)); [apply coherent_new|vm_compute; discriminate]. Qed.

(** The frames of the scripts, by a short name. *)
Definition script (text : string) : option RelayClientMessage :=
  if decide (text = "register") then Some (Register "d1" "prf" "tok" f64_zero)
  else if decide (text = "register2") then Some (Register "d2" "prf2" "tok2" f64_zero)
  else if decide (text = "auth daemon") then Some (Auth Daemon "d1" "tok" f64_zero None)
  else if decide (text = "auth daemon2") then Some (Auth Daemon "d2" "tok2" f64_zero None)
  else if decide (text = "auth frontend") then Some (Auth Frontend "d1" "tok" f64_zero (Some "f1"))
  else if decide (text = "sub") then Some (Subscribe "s1" None)
  else if decide (text = "unsub") then Some (Unsubscribe "s1")
  else if decide (text = "pub") then Some (Publish "s1" "ct" 1)
  else if decide (text = "kx") then Some (KeyExchange "ct" Daemon)
  else None.
Definition parse (text : string) : option Value := client_to_value <$> script text.

Definition cfg : Config := mkConfig demo_signer 90000 3600000 1048576 2 true.
Definition svc : Push.PushService := Push.PushServiceConfig_default.
Definition env (now : N) : Env := mkEnv now 0 0 Crypto.demo_nonce (λ _, Sent) (λ _, now).
Definition core0 : RelayCore := core_new (with_cache_and_key_cap 10 4) 3 5 8.
Definition run (evs : list Event) : World := relay_run parse cfg svc core0 evs.
Definition says (id : ConnId) (text : string) : Event := EInbound id text (env 1000).

Definition paired : list Event :=
  [EConnect; says 1 "register"; says 1 "auth daemon"; EConnect; says 2 "auth frontend"].

Lemma inv0 : core_inv core0.
Proof. apply core_inv_new, wf_init. Qed.

Definition online_of (w : World) (d : string) : option bool :=
  online <$> daemon_states (registry (wd_core w)) !! d.
Definition members_of (w : World) (d : string) : list ConnId :=
  match groups (wd_core w) !! d with Some g => elements g | None => [] end.
Definition attached_of (w : World) (d s : string) : option N :=
  daemon_states (registry (wd_core w)) !! d ≫= λ st, attached st !! s.

(** *** The theorems on a paired daemon and frontend *)

(** Socket 3 is connected and has not authenticated. *)
Definition core1 : RelayCore := wd_core (run (paired ++ [EConnect])).

Lemma inv1 : core_inv core1.
Proof. eapply world_inv_run; [apply inv0|reflexivity..]. Qed.

Lemma unauthenticated_is_inert_witness :
  let r := dispatch_locked demo_signer core1 Metrics.new 3 (Publish "s1" "ct" 1) (env 1000) in
  r.1.2 = core1 ∧ r.2 = Metrics.new ∧
  handle_push cfg core1 Metrics.new 3 "f1" "blob" "t" "b" None None (env 1000)
  = (not_authenticated 3 SEND_AUTH_FIRST, None, core1, Metrics.new).
Proof.
  assert (peer_auth core1 3 = None) as H by (vm_compute; reflexivity).
  pose proof (unauthenticated_is_inert demo_signer cfg core1 Metrics.new 3 (Publish "s1" "ct" 1) (env 1000) H eq_refl)
    as [H1 H2].
  cbv zeta. revert H1. destruct (dispatch_locked demo_signer core1 Metrics.new 3 _ _) as [[acts c'] m'].
  intros (-> & -> & _). split; [done|]. split; [done|]. apply H2.
Defined.

Lemma dispatch_isolation_witness :
  (dispatch_locked demo_signer core1 Metrics.new 1 (KeyExchange "ct" Daemon) (env 1000)).1.1
  = [ASend 2 (KeyExchangeFrame (mkKx "ct" Daemon))] ∧
  member (dispatch_locked demo_signer core1 Metrics.new 1 (KeyExchange "ct" Daemon) (env 1000)).1.2 "d1" 2.
Proof.
  assert ((dispatch_locked demo_signer core1 Metrics.new 1 (KeyExchange "ct" Daemon) (env 1000)).1.1
    = [ASend 2 (KeyExchangeFrame (mkKx "ct" Daemon))]) as H by (vm_compute; reflexivity).
  split; [exact H|].
  destruct (dispatch_isolation demo_signer cfg core1 Metrics.new 1 (KeyExchange "ct" Daemon) (env 1000) inv1)
    as [(Ht & _ & _) _].
  destruct (Ht (ASend 2 (KeyExchangeFrame (mkKx "ct" Daemon)))) as [Hself|(d & Hm & Hc)].
  - rewrite H. apply list_elem_of_here.
  - discriminate Hself.
  - destruct Hc as [(a & Ha & Hd)|[]].
    assert (peer_auth core1 1 = Some (mkAuthState Daemon "d1" None ∅)) as E by (vm_compute; reflexivity).
    rewrite E in Ha. injection Ha as <-. cbn in Hd. subst d. exact Hm.
Defined.

Lemma rate_limit_drop_witness :
  let spent := wd_core (run (paired ++ [says 2 "sub"; says 2 "sub"; says 2 "sub"])) in
  (dispatch_locked demo_signer spent Metrics.new 2 (Subscribe "s1" None) (env 1000)).1.1
  = [ASend 2 CLIENT_RATE_LIMITED].
Proof.
  cbv zeta. set (spent := wd_core _).
  assert (∃ h, conns spent !! 2%N = Some h ∧ is_Some (auth h) ∧ heap spent !! client_limiter h = Some (0%N : limiter))
    as (h & Hh & Ha & Hl).
  { eexists. split; [vm_compute; reflexivity|]. split; [by eexists|vm_compute; reflexivity]. }
  pose proof (rate_limit_drop demo_signer spent Metrics.new 2 h (Subscribe "s1" None) (env 1000) (0%N : limiter)
    Hh Ha eq_refl Hl) as [H _].
  revert H. destruct (dispatch_locked demo_signer spent Metrics.new 2 _ _) as [[acts c'] m'].
  intros [H _]. destruct (H eq_refl) as [-> _]. reflexivity.
Defined.

(** [cfg] allows two frames before authentication. *)
Lemma preauth_throttle_bound_witness :
  let c := wd_core (run [EConnect; says 1 "sub"; says 1 "sub"]) in
  (handle_inbound parse cfg c Metrics.new 1 "register" (env 1000)).1.1
  = Some (1008%N, "Too many pre-auth messages").
Proof.
  cbv zeta. set (c := wd_core _).
  assert (∃ h, conns c !! 1%N = Some h ∧ preauth_count h = 2%N ∧ auth h = None) as (h & Hh & Hn & Ha).
  { eexists. split; [vm_compute; reflexivity|]. split; reflexivity. }
  destruct (preauth_throttle_bound parse cfg c Metrics.new 1 h "register" (env 1000) Hh) as (H & _).
  - rewrite Hn. reflexivity.
  - vm_compute. discriminate.
  - rewrite (H Ha); [reflexivity|]. rewrite Hn. reflexivity.
Defined.

Lemma push_token_roundtrip_witness :
  ∃ sealed, route_push_register core1 2 "tok" Ios Crypto.demo_nonce
            = [ASend 1 (PushToken (mkPushToken "f1" sealed Ios))] ∧
    ∃ fc, resolve_push_locked core1 1 "f1" sealed = ResolvedPush "d1" "tok" fc (bool_decide (is_Some fc)).
Proof.
  assert (peer_auth core1 2 = Some (mkAuthState Frontend "d1" (Some "f1") ∅)) as H2 by (vm_compute; reflexivity).
  assert (peer_auth core1 1 = Some (mkAuthState Daemon "d1" None ∅)) as H1 by (vm_compute; reflexivity).
  assert (find_in_group core1 "d1" (λ a, bool_decide (role a = Daemon)) = Some 1%N) as Hf
    by (vm_compute; reflexivity).
  destruct (push_token_roundtrip (TL := sealer_laws) core1 2 _ "tok" Ios Crypto.demo_nonce _ H2 eq_refl
    ltac:(vm_compute; reflexivity) eq_refl eq_refl) as [Hnil|(dc & sealed & Hacts & _ & Hres)].
  - exfalso. revert Hnil. vm_compute. discriminate.
  - exists sealed. destruct (Hres core1 1%N _ "f1" H1 eq_refl) as (fc & Hfc & _).
    split; [|exists fc; exact Hfc]. rewrite Hacts. assert (dc = 1%N) as ->; [|reflexivity].
    clear -Hacts. revert Hacts. vm_compute. intros [= <- _]. reflexivity.
Defined.

(** *** Behaviours the code has on these histories *)

(** The daemon reconnects on a second socket before the relay notices that the
    first one died: when the first socket's loop ends, the daemon is marked
    offline although its second connection is live, and pinging does not undo it. *)
Example stale_close_marks_live_daemon_offline :
  let w := run (paired ++ [EConnect; says 3 "auth daemon"; EEnd 1 None false (env 2000); says 3 "ping"]) in
  online_of w "d1" = Some false ∧ peer_auth (wd_core w) 3 = Some (mkAuthState Daemon "d1" None ∅).
Proof. vm_compute. split; reflexivity. Qed.

(** One connection that subscribes and one that unsubscribes without ever
    having subscribed: the session is no longer counted as attached. *)
Example unsubscribe_without_subscription_detaches :
  let w := run (paired ++ [says 2 "sub"; EConnect; says 3 "auth frontend"; says 3 "unsub"]) in
  attached_of (run (paired ++ [says 2 "sub"])) "d1" "s1" = Some 1%N ∧
  attached_of w "d1" "s1" = None ∧
  (subscriptions <$> peer_auth (wd_core w) 2) = Some {["s1"]}.
Proof. vm_compute. repeat split. Qed.

(** A connection that authenticates for a second daemon stays in the first
    one's group after it is closed. *)
Example reauth_leaks_group_member :
  let w := run (paired ++ [says 1 "register2"; says 1 "auth daemon2"; EEnd 1 None false (env 2000)]) in
  conns (wd_core w) !! 1%N = None ∧ members_of w "d1" = [2; 1]%N ∧ online_of w "d1" = Some true.
Proof. vm_compute. repeat split. Qed.

(** A connection force-closed for backpressure whose read loop still
    delivers a handshake enters the group with no handle; nothing removes it. *)
Example closed_connection_reenters_group :
  let full := mkEnv 1000 0 0 Crypto.demo_nonce (λ _, Full) (λ _, 1000%N) in
  let w := run (paired ++ [EInbound 2 "sub" (env 1000); EInbound 1 "pub" full;
                           says 2 "auth frontend"; EEnd 2 None false (env 2000)]) in
  conns (wd_core w) !! 2%N = None ∧ members_of w "d1" = [2; 1]%N.
Proof. vm_compute. split; reflexivity. Qed.

(** Two messages of one batch for the same full outbox are counted as two
    backpressure disconnects of one connection. *)
Example backpressure_counted_per_message :
  let full := mkEnv 1000 0 0 Crypto.demo_nonce (λ _, Full) (λ _, 1000%N) in
  let w0 := run paired in
  let w := deliver full (mkWire (wd_core w0) Metrics.new [] 0)
             [ASend 2 (Pong None); ASend 2 (Pong None)] in
  backpressure_disconnects (w_metrics w) = 2%N ∧ w_out w = [CloseSignal 2 1013 "Backpressure"].
Proof. vm_compute. split; reflexivity. Qed.
End Demo.
