(* ===== verification/Interleave.v ===== *)
(** * Interleave: the relay under concurrency.
    [Conn] runs each turn to its end.  Here the unit is what the runtime really
    cannot split: one locked section of [RelayCore], one [try_send], one phase of
    a push.  Every task of [rust/tp-relay/src/conn.rs] is a thread of a pool, and
    any thread may take the next step.  The theorems: the invariant of the tables
    survives every schedule, whole turns are among the schedules, and all work
    in progress ends. *)
From stdpp Require Import base list numbers strings gmap fin_maps relations well_founded.
From Stdlib Require Import Lia NArith Wellfounded Relation_Operators.
From S2P Require Import Prelude Bytes Json Text Messages Registry Ring ResumeToken.
From S2P Require Handshake Push.
From S2P Require Import PushSeal Rate Metrics Server Conn.

(** One activation of [deliver_actions]: what is left of its first pass and the
    connections found full. *)
Record Activation := mkActivation { todo : list Action; backpressured : list ConnId }.

(** The fields of an inbound [relay.push]. *)
Record PushFrame := mkPushFrame {
  f_frontend_id : string;
  f_sealed : string;
  f_title : string;
  f_body : string;
  f_level : option InterruptionLevel;
  f_data : option Messages.PushData
}.

(** Where a task stands; each constructor is a point between two sections. *)
Inductive Thread :=
| TInbound (conn_id : ConnId) (text : string)            (* [handle_inbound] is called *)
| TDispatch (conn_id : ConnId) (msg : RelayClientMessage) (* parsed, about to lock *)
| TGate (conn_id : ConnId) (p : PushFrame)               (* [handle_push]: the rate check *)
| TResolve (conn_id : ConnId) (p : PushFrame)            (* [handle_push]: the lookup *)
| TPush (task : PushTask)                                (* [finish_push_send] is called *)
| TLive (task : PushTask)                                (* verdict [Ws]: the liveness re-check *)
| TGuard (task : PushTask) (req : Push.PushRequest)      (* the guard phase of [send_or_deliver] *)
| TApns (task : PushTask) (req : Push.PushRequest) (now : N) (* awaiting APNs *)
| TSweep                                                 (* a tick of the stale check *)
| TEnd (conn_id : ConnId) (why : close_directive) (auth_timeout : bool) (* a read loop has ended *)
| TDeliver (pending : option (ConnId * RelayServerMessage)) (stack : list Activation)
| TDone.

(** What one step takes from the outside: the clocks and randomness of [Env],
    the outbox's answer ([e_try_send] at 0), and the answer of APNs. *)
Record Choice := mkChoice { ch_env : Env; ch_apns : Push.ApnsDeliveryResult }.

Section interleave.
Context {G : Governor} {HIS : HashIter string} {HIC : HashIter N} {RC : ResumeCrypto} {TS : TokenSealer}.
Context (parse : string → option Value) (cfg : Config) (svc : Push.PushService).

(** What all threads share.  [issued] is a history variable: every action some
    section has decided on, in the order of the sections. *)
Record Shared := mkShared {
  s_core : RelayCore;
  s_metrics : Metrics;
  s_inner : Push.Inner;
  s_next : ConnId;
  s_out : list Output;
  issued : list Action
}.

Definition set_core (s : Shared) (c : RelayCore) : Shared :=
  mkShared c (s_metrics s) (s_inner s) (s_next s) (s_out s) (issued s).
Definition set_metrics (s : Shared) (m : Metrics) : Shared :=
  mkShared (s_core s) m (s_inner s) (s_next s) (s_out s) (issued s).
Definition set_inner (s : Shared) (i : Push.Inner) : Shared :=
  mkShared (s_core s) (s_metrics s) i (s_next s) (s_out s) (issued s).
Definition emit (s : Shared) (o : list Output) : Shared :=
  mkShared (s_core s) (s_metrics s) (s_inner s) (s_next s) (s_out s ++ o) (issued s).
Definition issue (s : Shared) (acts : list Action) : Shared :=
  mkShared (s_core s) (s_metrics s) (s_inner s) (s_next s) (s_out s) (issued s ++ acts).

(** A section has decided on [acts]: the thread goes on to deliver them. *)
Definition start_delivery (s : Shared) (acts : list Action) : Shared * Thread :=
  (issue s acts, TDeliver None [mkActivation acts []]).

(** The locked section of [close_conn], and the nested delivery it leads to. *)
Definition close_section (env : Env) (s : Shared) (id : ConnId) (code : N) (reason : string)
    (stack : list Activation) : Shared * Thread :=
  let '(w, presence) := close_conn_sync env (mkWire (s_core s) (s_metrics s) [] 0) id code reason in
  let s := emit (set_core s (w_core w)) (w_out w) in
  match presence with
  | Some acts => (issue s acts, TDeliver None (mkActivation acts [] :: stack))
  | None => (s, TDeliver None stack)
  end.

(** One step of a delivery: clone a sender under the lock, or try to send, or
    close, or return. *)
Definition deliver_step (env : Env) (s : Shared) (pending : option (ConnId * RelayServerMessage))
    (stack : list Activation) : Shared * Thread :=
  match pending, stack with
  | _, [] => (s, TDone)
  | Some (target, msg), mkActivation acts bp :: stack =>
      match e_try_send env 0 with
      | Sent => (emit (set_metrics s (inc_frames_out (s_metrics s))) [Delivered target msg],
                 TDeliver None (mkActivation acts bp :: stack))
      | Full => (s, TDeliver None (mkActivation acts (bp ++ [target]) :: stack))
      | Closed => (s, TDeliver None (mkActivation acts bp :: stack))
      end
  | None, mkActivation (ASend target msg :: acts) bp :: stack =>
      (s, TDeliver (match conns (s_core s) !! target with Some _ => Some (target, msg) | None => None end)
            (mkActivation acts bp :: stack))
  | None, mkActivation (AClose target code reason :: acts) bp :: stack =>
      close_section env s target code reason (mkActivation acts bp :: stack)
  | None, mkActivation [] (target :: bp) :: stack =>
      close_section env (set_metrics s (inc_backpressure_disconnects (s_metrics s))) target 1013%N "Backpressure"
        (mkActivation [] bp :: stack)
  | None, mkActivation [] [] :: stack => (s, TDeliver None stack)
  end.

(** [handle_inbound] up to its dispatch: the size guard, the throttle section,
    and the (pure) parse. *)
Definition inbound_step (s : Shared) (conn_id : ConnId) (text : string) : Shared * Thread :=
  let sz := N.of_nat (str_len text) in
  if decide (max_frame_size cfg < sz)%N then
    start_delivery (set_metrics s (inc_oversized_drops (s_metrics s)))
      [ASend conn_id (relay_err "FRAME_TOO_LARGE"
         (Some ("Frame size " +:+ print_dec sz +:+ " exceeds limit of " +:+ print_dec (max_frame_size cfg)
                +:+ " bytes")))]
  else
    let s := set_metrics s (inc_frames_in (s_metrics s)) in
    let '(close_preauth, core) := preauth_throttle cfg (s_core s) conn_id in
    let s := set_core s core in
    if close_preauth then (s, TDone)
    else
      match parse text with
      | None => start_delivery s [ASend conn_id (relay_err "PARSE_ERROR" (Some "Invalid JSON"))]
      | Some value =>
          match parse_relay_client_message value with
          | None =>
              start_delivery (set_metrics s (inc_unknown_type_drops (s_metrics s)))
                [ASend conn_id (relay_err "UNKNOWN_TYPE"
                   (Some ("Unknown or malformed message type: " +:+ unknown_type value)))]
          | Some (Messages.Push fid sealed title body level data) =>
              (s, TGate conn_id (mkPushFrame fid sealed title body level data))
          | Some msg => (s, TDispatch conn_id msg)
          end
      end.

(** The two locked sections of [handle_push]. *)
Definition push_gate (core : RelayCore) (m : Metrics) (conn_id : ConnId) (env : Env)
  : option RelayServerMessage * RelayCore * Metrics :=
  match conns core !! conn_id with
  | Some h => if bool_decide (is_Some (auth h)) then rate_gate core m h env else (None, core, m)
  | None => (None, core, m)
  end.

Definition push_resolved (core : RelayCore) (conn_id : ConnId) (p : PushFrame)
  : list Action * option PushTask :=
  match resolve_push_locked core conn_id (f_frontend_id p) (f_sealed p) with
  | Reply actions => (actions, None)
  | ResolvedPush did tok frontend_conn connected =>
      if has_push_service cfg then
        ([], Some (mkTask
           (Push.mkPushRequest (f_frontend_id p) did tok (f_title p) (f_body p) connected
              (level_to_string <$> f_level p) (wire_to_push_data <$> f_data p))
           frontend_conn conn_id (f_title p) (f_body p) (f_data p)))
      else
        ((if connected
          then map_delivery_result Push.Ws frontend_conn conn_id (f_title p) (f_body p) (f_data p) (f_frontend_id p)
          else []), None)
  end.

Definition push_reply (task : PushTask) (r : Push.DeliveryResult) : list Action :=
  map_delivery_result r (t_target task) (t_daemon_conn task) (t_title task) (t_body task)
    (t_data task) (Push.frontend_id (t_req task)).

(** One step of a thread: the new shared state, where the thread stands, and the
    threads it has spawned. *)
Definition thread_step (ch : Choice) (s : Shared) (t : Thread) : Shared * Thread * list Thread :=
  let env := ch_env ch in
  match t with
  | TInbound id text => (inbound_step s id text, [])
  | TDispatch id msg =>
      let '(acts, core, m) := dispatch_locked (signer cfg) (s_core s) (s_metrics s) id msg env in
      (start_delivery (set_metrics (set_core s core) m) acts, [])
  | TGate id p =>
      let '(reject, core, m) := push_gate (s_core s) (s_metrics s) id env in
      let s := set_metrics (set_core s core) m in
      (match reject with
       | Some reply => start_delivery s [ASend id reply]
       | None => (s, TResolve id p)
       end, [])
  | TResolve id p =>
      let '(acts, task) := push_resolved (s_core s) id p in
      (start_delivery s acts, TPush <$> option_list task)
  | TPush task =>
      ((s, if Push.is_frontend_connected (t_req task) then TLive task else TGuard task (t_req task)), [])
  | TLive task =>
      (if frontend_conn_live (s_core s) (t_target task) (Push.frontend_id (t_req task))
       then start_delivery s (push_reply task Push.Ws)
       else (s, TGuard task (disconnected (t_req task))), [])
  | TGuard task req =>
      let '(verdict, inner) := Push.guard_phase svc (s_inner s) req (e_now env) in
      let s := set_inner s inner in
      (match verdict with
       | Some r => start_delivery s (push_reply task r)
       | None => (s, TApns task req (e_now env))
       end, [])
  | TApns task req now =>
      let '(r, inner) := Push.finish_phase (s_inner s) req now (ch_apns ch) in
      (start_delivery (set_inner s inner) (push_reply task r), [])
  | TSweep =>
      let '(acts, core, m) := stale_sweep cfg (s_core s) (s_metrics s) (e_now env) in
      (start_delivery (set_metrics (set_core s core) m) acts, [])
  | TEnd id why auth_timeout =>
      let m := if auth_timeout then inc_auth_timeouts (s_metrics s) else s_metrics s in
      let out := match why with Some (code, reason) => [CloseSignal id code reason] | None => [] end in
      let '(daemon, core) := handle_close (s_core s) id (e_close_now env id) in
      let s := emit (set_metrics (set_core s core) m) out in
      (start_delivery s (match daemon with Some d => presence_actions core d | None => [] end), [])
  | TDeliver pending stack => (deliver_step env s pending stack, [])
  | TDone => ((s, TDone), [])
  end.

(** ** The pool *)

Record Pool := mkPool { shared : Shared; threads : list Thread }.

(** Work in progress: any thread that has not ended takes its next step. *)
Inductive internal : Pool → Pool → Prop :=
| internal_step s ts i t ch s' t' new :
    ts !! i = Some t → t ≠ TDone → thread_step ch s t = (s', t', new) →
    internal (mkPool s ts) (mkPool s' (<[i := t']> ts ++ new)).

(** What arrives from outside: a socket, a frame, the end of a read loop, a tick. *)
Inductive arrival : Thread → Prop :=
| arrival_frame id text : arrival (TInbound id text)
| arrival_end id why at_ : arrival (TEnd id why at_)
| arrival_tick : arrival TSweep.

Definition open_socket (s : Shared) : Shared :=
  mkShared (insert_conn (s_core s) (s_next s)) (s_metrics s) (s_inner s) (next_id (s_next s)) (s_out s) (issued s).

Inductive external : Pool → Pool → Prop :=
| external_connect s ts : external (mkPool s ts) (mkPool (open_socket s) ts)
| external_arrival s ts t : arrival t → external (mkPool s ts) (mkPool s (ts ++ [t])).

Inductive pool_step : Pool → Pool → Prop :=
| pool_internal p p' : internal p p' → pool_step p p'
| pool_external p p' : external p p' → pool_step p p'.

Definition pool_init (core : RelayCore) : Pool :=
  mkPool (mkShared core Metrics.new Push.Inner_new 1 [] []) [].

(** The pools reached from a start, with the connection ids handed out on the way,
    in the order of the sockets. *)
Inductive reached (core : RelayCore) : list ConnId → Pool → Prop :=
| reached_init : reached core [] (pool_init core)
| reached_internal ids p p' : reached core ids p → internal p p' → reached core ids p'
| reached_connect ids s ts :
    reached core ids (mkPool s ts) → reached core (ids ++ [s_next s]) (mkPool (open_socket s) ts)
| reached_arrival ids s ts t :
    reached core ids (mkPool s ts) → arrival t → reached core ids (mkPool s (ts ++ [t])).

Lemma reached_rtc core ids p : reached core ids p → rtc pool_step (pool_init core) p.
Proof.
  induction 1 as [|ids p p' _ IH H|ids s ts _ IH|ids s ts t _ IH Ha]; [done|..]; (eapply rtc_r; [exact IH|]).
  - by constructor.
  - apply pool_external, external_connect.
  - by apply pool_external, external_arrival.
Qed.

Lemma reached_step core ids p p' : reached core ids p → pool_step p p' → ∃ ids', reached core ids' p'.
Proof.
  intros R H. destruct H as [p1 p2 H|p1 p2 [s ts|s ts t Ha]].
  - exists ids. by eapply reached_internal.
  - exists (ids ++ [s_next s]). by constructor.
  - exists ids. by constructor.
Qed.

Lemma rtc_reached core p : rtc pool_step (pool_init core) p → ∃ ids, reached core ids p.
Proof.
  assert (∀ p0, rtc pool_step p0 p → (∃ ids, reached core ids p0) → ∃ ids, reached core ids p) as H.
  { intros p0 H. induction H as [|p1 p2 p3 H12 _ IH]; [done|]. intros [ids R]. apply IH. by eapply reached_step. }
  intros Hr. apply (H _ Hr). exists []. constructor.
Qed.

(** ** The invariant holds between any two sections *)

(** [ids] have been handed out: they count up from 1, the counter is next, and
    whoever is registered has one of them. *)
Definition shared_inv (ids : list ConnId) (s : Shared) : Prop :=
  core_inv (s_core s) ∧ ids = N.of_nat <$> seq 1 (length ids) ∧
  s_next s = (N.of_nat (1 + length ids) mod 2 ^ 64)%N ∧
  ∀ id, is_Some (conns (s_core s) !! id) → id ∈ ids.

(** What a step may do to the core: keep its invariant, register nobody. *)
Definition keeps (s s' : Shared) : Prop :=
  core_inv (s_core s') ∧ no_new_ids (s_core s) (s_core s') ∧ s_next s' = s_next s.

Lemma keeps_same s s' : core_inv (s_core s) → s_core s' = s_core s → s_next s' = s_next s → keeps s s'.
Proof. intros I Hc Hn. split_and!; [by rewrite Hc|by apply no_new_ids_refl; rewrite Hc|done]. Qed.

Lemma shared_inv_keeps ids s s' : shared_inv ids s → keeps s s' → shared_inv ids s'.
Proof. intros (_ & Hs & Hn & B) (I & N & E). split_and!; [done..|by rewrite E|]. intros id Hid. by apply B, N. Qed.

Lemma core_inv_push_gate c m id env :
  core_inv c → core_inv (push_gate c m id env).1.2 ∧ conns (push_gate c m id env).1.2 = conns c.
Proof.
  intros I. unfold push_gate. destruct (conns c !! id) as [h|]; [|done]. destruct (bool_decide _); [|done].
  pose proof (rate_gate_spec c m h env I) as H. pose proof (rate_gate_conns c m h env) as Hc.
  destruct (rate_gate c m h env) as [[rj c'] m']. by split; [apply H|].
Qed.

Lemma no_new_ids_throttle c id : no_new_ids c (preauth_throttle cfg c id).2.
Proof.
  unfold preauth_throttle. destruct (conns c !! id) as [h|] eqn:E; [|by apply no_new_ids_refl].
  destruct (auth h); [by apply no_new_ids_refl|]. intros id'. cbn. rewrite lookup_insert_is_Some.
  intros [<-|[_ ?]]; [by eexists|done].
Qed.

Lemma stale_sweep_conns c m now : conns (stale_sweep cfg c m now).1.2 = conns c.
Proof.
  unfold stale_sweep. destruct (check_stale_daemons _ now _ _) as [res reg].
  match goal with |- context [foldl ?f _ (Registry.evicted res)] => set (purge := f) end.
  assert (∀ l acc, conns (foldl purge acc l).1 = conns acc.1) as Hp.
  { intros l. induction l as [|d l IH]; intros acc; [done|]. cbn [foldl]. rewrite IH.
    unfold purge. by case_bool_decide. }
  specialize (Hp (Registry.evicted res) (set_registry c reg, m)). by destruct (foldl purge _ _).
Qed.

Lemma keeps_close_section env s id code reason stack :
  core_inv (s_core s) → keeps s (close_section env s id code reason stack).1.
Proof.
  intros I. unfold close_section.
  pose proof (close_conn_sync_core env (mkWire (s_core s) (s_metrics s) [] 0) id code reason) as E.
  destruct (close_conn_sync _ _ id code reason) as [w [acts|]]; cbn [fst w_core] in *;
    (split_and!; [|cbn; rewrite E; apply no_new_ids_close|done]); cbn; rewrite E; by apply core_inv_handle_close.
Qed.

Lemma keeps_deliver_step env s pending stack :
  core_inv (s_core s) → keeps s (deliver_step env s pending stack).1.
Proof.
  intros I. unfold deliver_step. destruct pending as [[t msg]|], stack as [|[acts bp] stack];
    try by apply keeps_same.
  - destruct (e_try_send env 0); by apply keeps_same.
  - destruct acts as [|[t msg|t code reason] acts]; [|by apply keeps_same|by apply keeps_close_section].
    destruct bp as [|t bp]; [by apply keeps_same|].
    exact (keeps_close_section env (set_metrics s (inc_backpressure_disconnects (s_metrics s))) _ _ _ _ I).
Qed.

Lemma keeps_inbound s id text : core_inv (s_core s) → keeps s (inbound_step s id text).1.
Proof.
  intros I. unfold inbound_step. case_decide; [by apply keeps_same|].
  cbn [s_core set_metrics]. pose proof (core_inv_throttle cfg (s_core s) id I) as It.
  pose proof (no_new_ids_throttle (s_core s) id) as Nt.
  destruct (preauth_throttle cfg (s_core s) id) as [close c]. cbn [snd] in *.
  destruct close; [done|]. destruct (parse text) as [v|]; [|done].
  by destruct (parse_relay_client_message v) as [[]|].
Qed.

Lemma keeps_thread_step ch s t : core_inv (s_core s) → keeps s (thread_step ch s t).1.1.
Proof.
  intros I. destruct t as [id text|id msg|id p|id p|task|task|task req|task req now| |id why at_|pending stack|];
    cbn [thread_step].
  - by apply keeps_inbound.
  - pose proof (core_inv_dispatch (signer cfg) _ (s_metrics s) id msg (ch_env ch) I).
    pose proof (no_new_ids_dispatch (signer cfg) (s_core s) (s_metrics s) id msg (ch_env ch)).
    by destruct (dispatch_locked _ _ _ id msg _) as [[acts c] m].
  - pose proof (core_inv_push_gate (s_core s) (s_metrics s) id (ch_env ch) I) as [Ig Cg].
    destruct (push_gate _ _ id _) as [[[reply|] c] m]; cbn [fst snd] in *;
      (split_and!; [done|by apply no_new_ids_refl|done]).
  - destruct (push_resolved (s_core s) id p). by apply keeps_same.
  - by apply keeps_same.
  - destruct (frontend_conn_live _ _ _); by apply keeps_same.
  - destruct (Push.guard_phase _ _ req _) as [[r|] inner]; by apply keeps_same.
  - destruct (Push.finish_phase _ req now _) as [r inner]. by apply keeps_same.
  - pose proof (core_inv_stale_sweep cfg _ (s_metrics s) (e_now (ch_env ch)) I) as Is.
    pose proof (stale_sweep_conns (s_core s) (s_metrics s) (e_now (ch_env ch))) as Cs.
    destruct (stale_sweep _ _ _ _) as [[acts c] m]. cbn [fst snd] in *.
    split_and!; [done|by apply no_new_ids_refl|done].
  - pose proof (core_inv_handle_close (s_core s) id (e_close_now (ch_env ch) id) I).
    pose proof (no_new_ids_close (s_core s) id (e_close_now (ch_env ch) id)).
    by destruct (handle_close (s_core s) id _) as [daemon c].
  - by apply keeps_deliver_step.
  - by apply keeps_same.
Qed.

Lemma shared_inv_fresh ids s :
  shared_inv ids s → (N.of_nat (length ids) + 1 < 2 ^ 64)%N → s_next s = N.of_nat (1 + length ids) ∧ s_next s ∉ ids.
Proof.
  intros (_ & Hs & Hn & _) Hl. rewrite N.mod_small in Hn by lia. split; [done|].
  rewrite Hn. remember (length ids) as m eqn:Em. rewrite Hs.
  intros (k & Hk & Hin)%list_elem_of_fmap. apply elem_of_seq in Hin. lia.
Qed.

Lemma shared_inv_open ids s :
  shared_inv ids s → (N.of_nat (length ids) + 1 < 2 ^ 64)%N → shared_inv (ids ++ [s_next s]) (open_socket s).
Proof.
  intros I Hl. destruct (shared_inv_fresh ids s I Hl) as [Hn Hf]. destruct I as (I & Hs & _ & B).
  split_and!.
  - apply core_inv_insert_conn; [|done]. destruct (conns (s_core s) !! s_next s) eqn:En; [|done].
    destruct Hf. apply B. by rewrite En.
  - rewrite length_app, seq_app, fmap_app, <-Hs. cbn [length seq fmap list_fmap]. by rewrite Hn.
  - cbn. unfold next_id. rewrite Hn, length_app. cbn [length]. f_equal. lia.
  - intros id. cbn. rewrite lookup_insert_is_Some, elem_of_app, list_elem_of_singleton.
    intros [<-|[_ Hid]]; [by right|left; by apply B].
Qed.

Lemma shared_inv_reach core ids p :
  core_inv core → conns core = ∅ → reached core ids p → (N.of_nat (length ids) < 2 ^ 64)%N →
  shared_inv ids (shared p).
Proof.
  intros I Hc H. induction H as [|ids p p' _ IH H|ids s ts _ IH|ids s ts t _ IH Ha]; intros Hl.
  - split_and!; [done..|]. intros id. cbn. rewrite Hc, lookup_empty. by intros [].
  - destruct H as [s ts i t ch s' t' new Hi Ht E]. apply (shared_inv_keeps ids s); [by apply IH|].
    pose proof (keeps_thread_step ch s t (proj1 (IH Hl))) as K. by rewrite E in K.
  - rewrite length_app in Hl. cbn in Hl. apply shared_inv_open; [apply IH|]; lia.
  - by apply IH.
Qed.
(** ** All work in progress ends *)

(** How many sections a thread may still enter before its last delivery. *)
Definition phase (t : Thread) : nat :=
  match t with
  | TInbound _ _ => 7 | TGate _ _ => 6 | TResolve _ _ => 5 | TPush _ => 4 | TLive _ => 3 | TGuard _ _ => 2
  | TDispatch _ _ | TApns _ _ _ | TSweep | TEnd _ _ _ => 1
  | TDeliver _ _ | TDone => 0
  end.

(** How many steps a delivery may still take while no connection goes away. *)
Definition activation_work (a : Activation) : nat := 1 + 3 * length (todo a) + length (backpressured a).
Definition work (t : Thread) : nat :=
  match t with
  | TDeliver pending stack =>
      1 + (match pending with Some _ => 2 | None => 0 end) + sum_list_with activation_work stack
  | _ => 0
  end.

Definition total (f : Thread → nat) (p : Pool) : nat := sum_list_with f (threads p).
Definition registered (s : Shared) : nat := size (conns (s_core s)).

Lemma total_step (f : Thread → nat) s s' (ts : list Thread) i t t' new :
  ts !! i = Some t →
  total f (mkPool s' (<[i := t']> ts ++ new)) + f t = total f (mkPool s ts) + f t' + sum_list_with f new.
Proof.
  intros Hi. unfold total. cbn [threads]. rewrite <-(take_drop_middle ts i t Hi) at 2.
  rewrite insert_take_drop by by eapply lookup_lt_Some. rewrite !sum_list_with_app. cbn. lia.
Qed.

Lemma close_section_work env s id code reason stack :
  let r := close_section env s id code reason stack in
  phase r.2 = 0 ∧
  (registered r.1 < registered s ∨
   registered r.1 = registered s ∧ work r.2 = S (sum_list_with activation_work stack)).
Proof.
  unfold close_section, registered.
  destruct (close_conn_sync_count env (mkWire (s_core s) (s_metrics s) [] 0) id code reason) as [Hle Hlt].
  unfold conn_count in *. destruct (close_conn_sync _ _ id code reason) as [w [acts|]];
    cbn [fst snd s_core issue emit set_core w_core phase] in *; (split; [done|]).
  - left. by apply (Hlt acts).
  - cbn. lia.
Qed.

Lemma deliver_step_work env s pending stack :
  let r := deliver_step env s pending stack in
  phase r.2 = 0 ∧
  (registered r.1 < registered s ∨
   registered r.1 = registered s ∧ work r.2 < work (TDeliver pending stack)).
Proof.
  unfold deliver_step. destruct pending as [[t msg]|], stack as [|[acts bp] stack];
    try (split; [done|right; split; [done|cbn; lia]]).
  - destruct (e_try_send env 0); (split; [done|right; split; [done|]]); cbn [work fst snd sum_list_with];
      unfold activation_work; cbn [todo backpressured]; rewrite ?length_app; cbn [length]; lia.
  - destruct acts as [|[t msg|t code reason] acts].
    + destruct bp as [|t bp]; [split; [done|right; split; [done|cbn; lia]]|].
      pose proof (close_section_work env (set_metrics s (inc_backpressure_disconnects (s_metrics s)))
                    t 1013%N "Backpressure" (mkActivation [] bp :: stack)) as [Hp Hw].
      split; [done|]. destruct Hw as [Hw|[-> ->]]; [by left|right]. split; [done|]. cbn. lia.
    + split; [done|right; split; [done|]]. cbn [work fst snd sum_list_with]. unfold activation_work.
      cbn [todo backpressured length]. destruct (conns (s_core s) !! t); lia.
    + pose proof (close_section_work env s t code reason (mkActivation acts bp :: stack)) as [Hp Hw].
      split; [done|]. destruct Hw as [Hw|[-> ->]]; [by left|right]. split; [done|]. cbn. lia.
Qed.

(** Every other step brings its thread nearer to its last delivery, the task it
    spawns included. *)
Lemma thread_step_phase ch s t :
  t ≠ TDone → (∀ pending stack, t ≠ TDeliver pending stack) →
  let r := thread_step ch s t in phase r.1.2 + sum_list_with phase r.2 < phase t.
Proof.
  intros Hd Hn. cbv zeta.
  destruct t as [id text|id msg|id p|id p|task|task|task req|task req now| |id why at_|pending stack|];
    cbn [thread_step].
  - unfold inbound_step. case_decide; [cbn; lia|]. cbn [s_core set_metrics].
    destruct (preauth_throttle cfg (s_core s) id) as [[] c]; [cbn; lia|].
    destruct (parse text) as [v|]; [|cbn; lia]. destruct (parse_relay_client_message v) as [[]|]; cbn; lia.
  - destruct (dispatch_locked _ _ _ id msg _) as [[acts c] m]. cbn. lia.
  - destruct (push_gate _ _ id _) as [[[reply|] c] m]; cbn; lia.
  - destruct (push_resolved (s_core s) id p) as [acts [task|]]; cbn; lia.
  - destruct (Push.is_frontend_connected (t_req task)); cbn; lia.
  - destruct (frontend_conn_live _ _ _); cbn; lia.
  - destruct (Push.guard_phase _ _ req _) as [[r|] inner]; cbn; lia.
  - destruct (Push.finish_phase _ req now _) as [r inner]. cbn. lia.
  - destruct (stale_sweep _ _ _ _) as [[acts c] m]. cbn. lia.
  - destruct (handle_close (s_core s) id _) as [daemon c]. cbn. lia.
  - by destruct (Hn pending stack).
  - done.
Qed.

Lemma internal_decreases p p' :
  internal p p' →
  total phase p' < total phase p ∨
  total phase p' = total phase p ∧
    (registered (shared p') < registered (shared p) ∨
     registered (shared p') = registered (shared p) ∧ total work p' < total work p).
Proof.
  intros H. destruct H as [s ts i t ch s' t' new Hi Ht E]. cbn [shared].
  pose proof (total_step phase s s' ts i t t' new Hi) as Hp.
  pose proof (total_step work s s' ts i t t' new Hi) as Hw.
  assert ((∃ pending stack, t = TDeliver pending stack) ∨ ∀ pending stack, t ≠ TDeliver pending stack)
    as [(pending & stack & ->)|Hn] by (destruct t; eauto).
  - cbn [thread_step] in E. pose proof (deliver_step_work (ch_env ch) s pending stack) as [H0 H1].
    destruct (deliver_step _ s pending stack) as [s1 t1]. injection E as <- <- <-. cbn [fst snd] in *.
    cbn [phase work sum_list_with] in *. lia.
  - pose proof (thread_step_phase ch s t Ht Hn) as H0. rewrite E in H0. cbn [fst snd] in H0. lia.
Qed.

Lemma internal_progress p t : t ∈ threads p → t ≠ TDone → ∃ p', internal p p'.
Proof.
  intros [i Hi]%list_elem_of_lookup Ht. destruct p as [s ts].
  set (ch := mkChoice (mkEnv 0 0 0 [] (λ _, Closed) (λ _, 0%N)) Push.ApnsOk).
  destruct (thread_step ch s t) as [[s' t'] new] eqn:E. eexists. by eapply (internal_step s ts i t ch).
Qed.

(** C4. Every schedule comes to rest: once nothing more arrives, no task can run
    forever and none can be stuck, whatever is interleaved with it and however
    the outboxes, clocks and APNs answer; the work stops exactly when every task
    has returned.  In particular the mutual recursion of [deliver_actions] and
    [close_conn] terminates under concurrency. *)
Theorem relay_quiesces :
  well_founded (flip internal) ∧
  ∀ p, (∀ p', ¬ internal p p') ↔ Forall (λ t, t = TDone) (threads p).
Proof.
  split.
  - apply (wf_measure3 _ (total phase) (λ p, registered (shared p)) (total work)). apply internal_decreases.
  - intros p. rewrite Forall_forall. split.
    + intros Hn t Ht. destruct t eqn:Et; try done; (destruct (internal_progress p t) as [p' Hp'];
        [by subst|by subst|by destruct (Hn p')]).
    + intros Hall p' Hp'. destruct Hp' as [s ts i t ch s' t' new Hi Ht _]. apply Ht, Hall.
      by apply (list_elem_of_lookup_2 _ i).
Qed.
(** ** Nothing is invented, misdirected or repeated *)

Abbreviation Letter := (ConnId * RelayServerMessage)%type.

Definition sends (acts : list Action) : list Letter :=
  omap (λ a, match a with ASend t m => Some (t, m) | AClose _ _ _ => None end) acts.
Definition deliveries (out : list Output) : list Letter :=
  omap (λ o, match o with Delivered t m => Some (t, m) | CloseSignal _ _ _ => None end) out.

(** The letters a thread still carries. *)
Definition carried (t : Thread) : list Letter :=
  match t with
  | TDeliver pending stack => option_list pending ++ (stack ≫= λ a, sends (todo a))
  | _ => []
  end.

Lemma submseteq_replace {A} (d o a b c c' s s' : list A) :
  d ++ a ++ c ++ b ⊆+ s → o ++ c' ⊆+ c ++ s' → (d ++ o) ++ a ++ c' ++ b ⊆+ s ++ s'.
Proof.
  intros H H'. transitivity ((d ++ a ++ b) ++ (o ++ c')); [solve_submseteq|].
  transitivity ((d ++ a ++ b) ++ (c ++ s')); [by apply submseteq_skips_l|].
  transitivity ((d ++ a ++ c ++ b) ++ s'); [solve_submseteq|]. by apply submseteq_skips_r.
Qed.

(** A step hands over, keeps or drops what its thread carried or has just been
    issued. *)
Definition posts (s s' : Shared) (before after : list Letter) : Prop :=
  ∃ acts o, issued s' = issued s ++ acts ∧ s_out s' = s_out s ++ o ∧
    deliveries o ++ after ⊆+ before ++ sends acts.

Lemma posts_quiet s s' l l' : issued s' = issued s → s_out s' = s_out s → l' ⊆+ l → posts s s' l l'.
Proof. intros H1 H2 H. exists [], []. by rewrite H1, H2, !app_nil_r. Qed.

Lemma posts_start s s' acts l :
  issued s' = issued s → s_out s' = s_out s →
  posts s (start_delivery s' acts).1 l (carried (start_delivery s' acts).2).
Proof.
  intros H1 H2. exists acts, []. cbn. rewrite H1, H2, !app_nil_r. split_and!; [done..|].
  apply submseteq_inserts_l. done.
Qed.

Lemma posts_close_section env s s1 id code reason stack l :
  issued s1 = issued s → s_out s1 = s_out s → (stack ≫= λ a, sends (todo a)) ⊆+ l →
  posts s (close_section env s1 id code reason stack).1 l (carried (close_section env s1 id code reason stack).2).
Proof.
  intros H1 H2 Hl. unfold close_section.
  assert (deliveries (w_out (close_conn_sync env (mkWire (s_core s1) (s_metrics s1) [] 0) id code reason).1) = []) as Ho.
  { unfold close_conn_sync. destruct (handle_close _ _ _). cbn. by destruct (bool_decide _). }
  destruct (close_conn_sync _ _ id code reason) as [w [acts|]]; cbn [fst] in Ho.
  - exists acts, (w_out w). cbn. rewrite H1, H2, Ho. split_and!; [done..|]. cbn.
    rewrite (Permutation_app_comm l). by apply submseteq_skips_l.
  - exists [], (w_out w). cbn. rewrite H1, H2, Ho, !app_nil_r. by split_and!.
Qed.

Lemma posts_deliver_step env s pending stack :
  posts s (deliver_step env s pending stack).1 (carried (TDeliver pending stack))
    (carried (deliver_step env s pending stack).2).
Proof.
  unfold deliver_step. destruct pending as [[t msg]|], stack as [|[acts bp] stack];
    try (apply posts_quiet; [done..|]; cbn; by apply submseteq_nil_l).
  - destruct (e_try_send env 0).
    + exists [], [Delivered t msg]. cbn. by rewrite !app_nil_r.
    + apply posts_quiet; [done..|]. cbn. by apply submseteq_cons.
    + apply posts_quiet; [done..|]. cbn. by apply submseteq_cons.
  - destruct acts as [|[t msg|t code reason] acts].
    + destruct bp as [|t bp]; [by apply posts_quiet|].
      by apply (posts_close_section env s (set_metrics s (inc_backpressure_disconnects (s_metrics s)))).
    + apply posts_quiet; [done..|]. destruct (conns (s_core s) !! t); cbn; [done|]. by apply submseteq_cons.
    + by apply posts_close_section.
Qed.

Lemma posts_thread_step ch s t :
  let r := thread_step ch s t in
  posts s r.1.1 (carried t) (carried r.1.2) ∧ r.2 ≫= carried = [].
Proof.
  cbv zeta.
  destruct t as [id text|id msg|id p|id p|task|task|task req|task req now| |id why at_|pending stack|];
    cbn [thread_step].
  - split; [|done]. unfold inbound_step. case_decide; [by apply posts_start|]. cbn [s_core set_metrics].
    destruct (preauth_throttle cfg (s_core s) id) as [[] c]; [by apply posts_quiet|].
    destruct (parse text) as [v|]; [|by apply posts_start].
    destruct (parse_relay_client_message v) as [[]|]; first [by apply posts_quiet|by apply posts_start].
  - destruct (dispatch_locked _ _ _ id msg _) as [[acts c] m]. split; [by apply posts_start|done].
  - destruct (push_gate _ _ id _) as [[[reply|] c] m]; (split; [|done]); first [by apply posts_start|by apply posts_quiet].
  - destruct (push_resolved (s_core s) id p) as [acts [task|]]; (split; [by apply posts_start|done]).
  - split; [|done]. destruct (Push.is_frontend_connected (t_req task)); by apply posts_quiet.
  - split; [|done]. destruct (frontend_conn_live _ _ _); first [by apply posts_start|by apply posts_quiet].
  - destruct (Push.guard_phase _ _ req _) as [[r|] inner]; (split; [|done]);
      first [by apply posts_start|by apply posts_quiet].
  - destruct (Push.finish_phase _ req now _) as [r inner]. split; [by apply posts_start|done].
  - destruct (stale_sweep _ _ _ _) as [[acts c] m]. split; [by apply posts_start|done].
  - destruct (handle_close (s_core s) id _) as [daemon c]. split; [|done].
    eexists _, _. split_and!; [done..|]. cbn [carried fst snd start_delivery option_list].
    destruct why as [[code reason]|]; cbn; by rewrite app_nil_r.
  - split; [|done]. apply posts_deliver_step.
  - split; [by apply posts_quiet|done].
Qed.

Definition posted (p : Pool) : Prop :=
  deliveries (s_out (shared p)) ++ (threads p ≫= carried) ⊆+ sends (issued (shared p)).

Lemma posted_step p p' : pool_step p p' → posted p → posted p'.
Proof.
  unfold posted. intros H Hp. destruct H as [? ? [s ts i t ch s' t' new Hi Ht E]|? ? [s ts|s ts t Ha]]; cbn in *.
  - destruct (posts_thread_step ch s t) as [(acts & o & Ei & Eo & Hs) En]. rewrite E in Ei, Eo, Hs, En.
    cbn [fst snd] in *. rewrite Ei, Eo. unfold deliveries, sends in *. rewrite !omap_app.
    rewrite bind_app, En, app_nil_r. rewrite <-(take_drop_middle ts i t Hi) in Hp.
    rewrite insert_take_drop by by eapply lookup_lt_Some. rewrite bind_app in *. cbn in *.
    by apply (submseteq_replace _ _ _ _ (carried t)).
  - done.
  - rewrite bind_app. cbn. destruct Ha; cbn; by rewrite app_nil_r.
Qed.

(** C5. Delivery under concurrency: whatever the schedule, the messages put into
    outboxes are, each at most once, messages some locked section has issued, to
    the connection it issued them to; what is still on its way is accounted for
    as well.  So interleaving may drop or reorder messages, but never invents,
    misdirects or repeats one. *)
Theorem delivered_once core p :
  rtc pool_step (pool_init core) p →
  deliveries (s_out (shared p)) ++ (threads p ≫= carried) ⊆+ sends (issued (shared p)).
Proof.
  intros H. assert (posted (pool_init core)) as H0 by constructor. revert H0.
  induction H as [|p1 p2 p3 H12 _ IH]; [done|]. intros H1. apply IH. by apply (posted_step p1).
Qed.
(** C1. The tables' promises hold between any two sections of any schedule: tasks
    of all connections, sweeps and pushes interleaved at every lock and every
    [try_send], connections closed under a delivery's feet, under any clock, any
    limiter, any outbox behaviour and any answer of APNs; and until the
    counter (a u64, which wraps) has gone round once, no connection id has been
    handed out twice, the next one is a new one too, and whoever is registered
    holds one that was handed out. *)
Theorem interleaved_invariant cache keys rc rd mr ids p :
  reached (core_new (with_cache_and_key_cap cache keys) rc rd mr) ids p →
  (N.of_nat (length ids) + 1 < 2 ^ 64)%N →
  tables_ok (s_core (shared p)) ∧ NoDup (ids ++ [s_next (shared p)]) ∧
  ∀ id, is_Some (conns (s_core (shared p)) !! id) → id ∈ ids.
Proof.
  intros H Hl. pose proof (shared_inv_reach _ ids p (core_inv_new _ rc rd mr (wf_init cache keys)) eq_refl H
    ltac:(lia)) as I.
  destruct (shared_inv_fresh ids (shared p) I Hl) as [_ Hf]. destruct I as (I & Hs & _ & B).
  split_and!; [by apply core_inv_tables| |done].
  apply NoDup_app. split_and!; [|by intros x Hx ->%list_elem_of_singleton|apply NoDup_singleton].
  rewrite Hs. apply NoDup_fmap; [intros ? ? ?; lia|apply NoDup_seq].
Qed.

(** ** Executable schedules *)

Inductive move :=
| MConnect
| MFrame (conn_id : ConnId) (text : string)
| MEnd (conn_id : ConnId) (why : close_directive)
| MTick
| MStep (i : nat) (ch : Choice).

Definition exec (p : Pool) (m : move) : Pool :=
  match m with
  | MConnect => mkPool (open_socket (shared p)) (threads p)
  | MFrame id text => mkPool (shared p) (threads p ++ [TInbound id text])
  | MEnd id why => mkPool (shared p) (threads p ++ [TEnd id why false])
  | MTick => mkPool (shared p) (threads p ++ [TSweep])
  | MStep i ch =>
      match threads p !! i with
      | None | Some TDone => p
      | Some t =>
          let '((s, t'), new) := thread_step ch (shared p) t in
          mkPool s (<[i := t']> (threads p) ++ new)
      end
  end.

Lemma exec_step p m : rtc pool_step p (exec p m).
Proof.
  destruct p as [s ts], m as [|id text|id why| |i ch]; cbn [exec shared threads].
  - apply rtc_once, pool_external, external_connect.
  - apply rtc_once, pool_external, external_arrival. constructor.
  - apply rtc_once, pool_external, external_arrival. constructor.
  - apply rtc_once, pool_external, external_arrival. constructor.
  - destruct (ts !! i) as [t|] eqn:Ei; [|done].
    assert (t = TDone ∨ t ≠ TDone) as [->|Ht] by (destruct t; first [by left|by right]); [done|].
    destruct (thread_step ch s t) as [[s' t'] new] eqn:E.
    replace (match t with TDone => _ | _ => _ end) with (mkPool s' (<[i := t']> ts ++ new)) by by destruct t.
    apply rtc_once, pool_internal. by apply (internal_step s ts i t ch).
Qed.

Lemma exec_reach p ms : rtc pool_step p (foldl exec p ms).
Proof. revert p. induction ms as [|m ms IH]; intros p; [done|]. eapply rtc_trans; [apply exec_step|apply IH]. Qed.

(** The ids a schedule hands out. *)
Definition hand (m : move) (p : Pool) : list ConnId := match m with MConnect => [s_next (shared p)] | _ => [] end.

Lemma exec_reached core ids p m : reached core ids p → reached core (ids ++ hand m p) (exec p m).
Proof.
  intros R. destruct p as [s ts], m as [|id text|id why| |i ch]; cbn [exec shared threads hand];
    [by constructor|rewrite app_nil_r; by constructor; [|constructor]..|].
  rewrite app_nil_r. destruct (ts !! i) as [t|] eqn:Ei; [|done].
  assert (t = TDone ∨ t ≠ TDone) as [->|Ht] by (destruct t; first [by left|by right]); [done|].
  destruct (thread_step ch s t) as [[s' t'] new] eqn:E.
  replace (match t with TDone => _ | _ => _ end) with (mkPool s' (<[i := t']> ts ++ new)) by by destruct t.
  eapply reached_internal; [exact R|]. by apply (internal_step s ts i t ch).
Qed.

Fixpoint handed (p : Pool) (ms : list move) : list ConnId :=
  match ms with [] => [] | m :: ms => hand m p ++ handed (exec p m) ms end.

Lemma schedule_reached core ms : reached core (handed (pool_init core) ms) (foldl exec (pool_init core) ms).
Proof.
  assert (∀ ids p, reached core ids p → reached core (ids ++ handed p ms) (foldl exec p ms)) as H;
    [|exact (H [] _ (reached_init core))].
  induction ms as [|m ms IH]; intros ids p R; cbn [handed foldl]; [by rewrite app_nil_r|].
  rewrite app_assoc. by apply IH, exec_reached.
Qed.
End interleave.

(** ** Concrete schedules *)

Module Demo.
Export Conn.Demo.
#[local] Existing Instances gov iter_str iter_conn crypto crates sealer.

Definition at_time (now : N) : Choice := mkChoice (env now) Push.ApnsOk.
Definition go (i : nat) (now : N) : move := MStep i (at_time now).
Definition schedule (ms : list move) : Pool := foldl (exec parse cfg svc) (pool_init core0) ms.

(** A frame handled at once: its thread takes [n] steps. *)
Definition handled (i : nat) (id : ConnId) (text : string) (n : nat) : list move :=
  MFrame id text :: replicate n (go i 1000).

Definition paired_pool : list move :=
  MConnect :: handled 0 1 "register" 6 ++ handled 1 1 "auth daemon" 6 ++
  MConnect :: handled 2 2 "auth frontend" 8.

Definition rest (p : Pool) : bool := forallb (λ t, match t with TDone => true | _ => false end) (threads p).
Definition told (p : Pool) (id : ConnId) : list RelayServerMessage :=
  omap (λ o, match o with Delivered t m => if decide (t = id) then Some m else None | _ => None end)
    (s_out (shared p)).
Definition online_in (p : Pool) (d : string) : option bool :=
  online <$> daemon_states (registry (s_core (shared p))) !! d.

Lemma interleaved_invariant_witness :
  let p := schedule (paired_pool ++ [MFrame 1 "pub"; MFrame 2 "sub"; go 4 1000; go 3 1000; go 4 1000; MEnd 2 None; go 5 2000]) in
  tables_ok (s_core (shared p)) ∧ NoDup [1; 2; 3]%N ∧ rest p = false.
Proof.
  cbv zeta. set (ms := paired_pool ++ _). pose proof (schedule_reached parse cfg svc core0 ms) as R.
  assert (handed parse cfg svc (pool_init core0) ms = [1; 2]%N) as E by (vm_compute; reflexivity).
  rewrite E in R. destruct (interleaved_invariant parse cfg svc 10 4 3 5 8 _ _ R ltac:(vm_compute; reflexivity))
    as (T & D & _).
  split; [exact T|]. split; [|vm_compute; reflexivity].
  assert (s_next (shared (foldl (exec parse cfg svc) (pool_init core0) ms)) = 3%N) as E3 by (vm_compute; reflexivity).
  rewrite E3 in D. exact D.
Defined.

Lemma delivered_once_witness :
  let p := schedule (paired_pool ++ [MFrame 1 "kx"; go 3 1000; go 3 1000; go 3 1000]) in
  (2%N, KeyExchangeFrame (mkKx "ct" Daemon)) ∈ sends (issued (shared p)).
Proof.
  cbv zeta. set (p := schedule _).
  eapply elem_of_submseteq; [|apply (delivered_once parse cfg svc core0 p); apply exec_reach].
  apply elem_of_app. right.
  assert (threads p ≫= carried = [(2%N, KeyExchangeFrame (mkKx "ct" Daemon))]) as -> by (vm_compute; reflexivity).
  apply list_elem_of_here.
Defined.

(** Presence can arrive in the wrong order: the daemon's first socket closes
    and its second one authenticates before the first one's broadcast has gone
    out.  At rest the daemon is online and the last the frontend hears is that it
    is offline. *)
Definition overtaken : Pool :=
  schedule (paired_pool ++ [MEnd 1 None; go 3 2000; MConnect] ++
            [MFrame 3 "auth daemon"] ++ replicate 8 (go 4 3000) ++ replicate 5 (go 3 3000)).

Example presence_overtaken :
  rest overtaken = true ∧ online_in overtaken "d1" = Some true ∧
  last (told overtaken 2) = Some (Presence (mkPresence "d1" false [] (u64_as_f64 2000))).
Proof. vm_compute. repeat split. Qed.
End Demo.
