(* ===== verification/Turns.v ===== *)
(** * Turns: the turn-by-turn relay of [Conn] is a schedule of [Interleave].
    A turn of [relay_step] runs one task from its start to its end with nothing in
    between; here it is shown to be a sequence of sections of one thread.  So
    whatever [Conn] exhibits (its counterexamples included) the interleaved relay
    can do, and whatever is proved for every schedule holds for [Conn]. *)
From stdpp Require Import base list numbers strings gmap fin_maps relations.
From Stdlib Require Import Lia NArith.
From S2P Require Import Prelude Bytes Json Text Messages Registry Ring ResumeToken.
From S2P Require Handshake Push.
From S2P Require Import PushSeal Rate Metrics Server Conn Interleave.

Section turns.
Context {G : Governor} {HIS : HashIter string} {HIC : HashIter N} {RC : ResumeCrypto} {TS : TokenSealer}.
Context (parse : string → option Value) (cfg : Config) (svc : Push.PushService).

#[local] Abbreviation thread_step := (thread_step parse cfg svc).
#[local] Abbreviation internal := (internal parse cfg svc).
#[local] Abbreviation pool_step := (pool_step parse cfg svc).

(** ** Running one thread alone *)

(** [run s t s' t' new]: alone, [t] gets to [t'], having spawned [new]. *)
Inductive run : Shared → Thread → Shared → Thread → list Thread → Prop :=
| run_refl s t : run s t s t []
| run_step ch s t s1 t1 n1 s2 t2 n2 :
    t ≠ TDone → thread_step ch s t = (s1, t1, n1) → run s1 t1 s2 t2 n2 → run s t s2 t2 (n1 ++ n2).

Lemma run_trans s t s1 t1 n1 s2 t2 n2 :
  run s t s1 t1 n1 → run s1 t1 s2 t2 n2 → run s t s2 t2 (n1 ++ n2).
Proof.
  induction 1 as [|ch s t s1 t1 n1 s' t' n' Ht E _ IH]; [done|]. intros H. rewrite <-app_assoc.
  eapply run_step; [done..|]. by apply IH.
Qed.

(** The common case: the step spawns nothing. *)
Lemma run_next ch s t s1 t1 s2 t2 n :
  t ≠ TDone → thread_step ch s t = (s1, t1, []) → run s1 t1 s2 t2 n → run s t s2 t2 n.
Proof. intros. by eapply (run_step ch s t s1 t1 []). Qed.

Lemma run_pool s t s' t' new ts i :
  run s t s' t' new → ts !! i = Some t → rtc internal (mkPool s ts) (mkPool s' (<[i := t']> ts ++ new)).
Proof.
  intros H. revert ts. induction H as [s t|ch s t s1 t1 n1 s2 t2 n2 Ht E _ IH]; intros ts Hi.
  - by rewrite list_insert_id, app_nil_r.
  - eapply rtc_l; [by eapply (internal_step _ _ _ s ts i)|].
    pose proof (lookup_lt_Some _ _ _ Hi) as Hlt.
    specialize (IH (<[i := t1]> ts ++ n1)). rewrite lookup_app_l, list_lookup_insert_eq in IH
      by (try rewrite length_insert; done). specialize (IH eq_refl).
    by rewrite insert_app_l, list_insert_insert_eq, <-app_assoc in IH by by rewrite length_insert.
Qed.

(** ** A delivery, run alone, is [deliver_actions] *)

(** [env] at the [k]-th [try_send] of a turn. *)
Definition answer (env : Env) (now : N) (k : nat) : Env :=
  mkEnv now (e_client_instant env) (e_group_instant env) (e_nonce env) (λ _, e_try_send env k) (e_close_now env).
Definition choose (env : Env) (k : nat) : Choice := mkChoice (answer env (e_now env) k) Push.ApnsOk.

(** The shared state while [Conn] has reached the wire [w] in a turn that began
    in [s0]. *)
Definition at_wire (s0 : Shared) (w : Wire) (iss : list Action) : Shared :=
  mkShared (w_core w) (w_metrics w) (s_inner s0) (s_next s0) (s_out s0 ++ w_out w) iss.

Lemma at_wire_start s m c : at_wire s (mkWire c m [] 0) (issued s) = set_metrics (set_core s c) m.
Proof. unfold at_wire. cbn. by rewrite app_nil_r. Qed.

Section delivery.
Context (s0 : Shared) (env : Env) (n : nat) (cc : Wire → ConnId → N → string → Wire).

(** [cc] closes a connection with everything that follows from it. *)
Definition closes : Prop := ∀ w id code reason stack iss k, conn_count w ≤ n →
  conn_count (cc w id code reason) ≤ n ∧
  ∃ iss', run (close_section (answer env (e_now env) k) (at_wire s0 w iss) id code reason stack).1
              (close_section (answer env (e_now env) k) (at_wire s0 w iss) id code reason stack).2
              (at_wire s0 (cc w id code reason) iss') (TDeliver None stack) [].

Definition one (acc : Wire * list ConnId) (action : Action) : Wire * list ConnId :=
  let '(w, bp) := acc in
  match action with
  | ASend target msg =>
      match conns (w_core w) !! target with
      | None => (w, bp)
      | Some _ =>
          let k := w_tries w in
          match e_try_send env k with
          | Sent => (mkWire (w_core w) (inc_frames_out (w_metrics w)) (w_out w ++ [Delivered target msg]) (S k), bp)
          | Full => (mkWire (w_core w) (w_metrics w) (w_out w) (S k), bp ++ [target])
          | Closed => (mkWire (w_core w) (w_metrics w) (w_out w) (S k), bp)
          end
      end
  | AClose target code reason => (cc w target code reason, bp)
  end.

Definition next_close (w : Wire) (target : ConnId) : Wire :=
  cc (mkWire (w_core w) (inc_backpressure_disconnects (w_metrics w)) (w_out w) (w_tries w)) target 1013%N "Backpressure".

(** One action of the first pass: at most two steps around the lock. *)
Lemma run_one a acts w bp iss stack :
  closes → conn_count w ≤ n →
  conn_count (one (w, bp) a).1 ≤ n ∧
  ∃ iss', run (at_wire s0 w iss) (TDeliver None (mkActivation (a :: acts) bp :: stack))
              (at_wire s0 (one (w, bp) a).1 iss')
              (TDeliver None (mkActivation acts (one (w, bp) a).2 :: stack)) [].
Proof.
  intros Hcc Hw. destruct a as [t msg|t code reason].
  - unfold one. destruct (conns (w_core w) !! t) as [h|] eqn:Et.
    + assert (thread_step (choose env 0) (at_wire s0 w iss) (TDeliver None (mkActivation (ASend t msg :: acts) bp :: stack))
        = ((at_wire s0 w iss, TDeliver (Some (t, msg)) (mkActivation acts bp :: stack)), [])) as E1
        by (cbn; by rewrite Et).
      destruct (e_try_send env (w_tries w)) eqn:Ek; (split; [exact Hw|]); exists iss;
        (eapply run_next; [done|exact E1|]); (eapply (run_next (choose env (w_tries w))); [done| |apply run_refl]);
        cbn; rewrite Ek; unfold at_wire, emit; cbn; by rewrite ?app_assoc.
    + split; [done|]. exists iss. eapply (run_next (choose env 0)); [done| |apply run_refl]. cbn. by rewrite Et.
  - destruct (Hcc w t code reason (mkActivation acts bp :: stack) iss 0 Hw) as [Hc (iss' & Hr)].
    split; [done|]. exists iss'. cbn [one fst snd].
    destruct (close_section _ _ t code reason _) as [s1 t1] eqn:E.
    eapply (run_next (choose env 0)); [done| |exact Hr]. cbn [Interleave.thread_step deliver_step ch_env choose].
    by rewrite E.
Qed.

Lemma run_first_pass acts w bp iss stack :
  closes → conn_count w ≤ n →
  conn_count (foldl one (w, bp) acts).1 ≤ n ∧
  ∃ iss', run (at_wire s0 w iss) (TDeliver None (mkActivation acts bp :: stack))
              (at_wire s0 (foldl one (w, bp) acts).1 iss')
              (TDeliver None (mkActivation [] (foldl one (w, bp) acts).2 :: stack)) [].
Proof.
  intros Hcc. revert w bp iss. induction acts as [|a acts IH]; intros w bp iss Hw.
  { split; [done|]. exists iss. apply run_refl. }
  destruct (run_one a acts w bp iss stack Hcc Hw) as [H1 (iss1 & R1)]. cbn [foldl].
  destruct (one (w, bp) a) as [w1 bp1]. cbn [fst snd] in *.
  destruct (IH w1 bp1 iss1 H1) as [H2 (iss2 & R2)]. split; [done|]. exists iss2. by apply (run_trans _ _ _ _ [] _ _ []) with (2 := R2).
Qed.

Lemma run_second_pass bp w iss stack :
  closes → conn_count w ≤ n →
  ∃ iss', run (at_wire s0 w iss) (TDeliver None (mkActivation [] bp :: stack))
              (at_wire s0 (foldl next_close w bp) iss') (TDeliver None stack) [].
Proof.
  intros Hcc. revert w iss. induction bp as [|t bp IH]; intros w iss Hw.
  { exists iss. eapply (run_next (choose env 0)); [done| |apply run_refl]. done. }
  cbn [foldl]. set (w' := mkWire (w_core w) (inc_backpressure_disconnects (w_metrics w)) (w_out w) (w_tries w)).
  destruct (Hcc w' t 1013%N "Backpressure" (mkActivation [] bp :: stack) iss 0 Hw) as [H1 (iss1 & R1)].
  destruct (IH (cc w' t 1013%N "Backpressure") iss1 H1) as (iss2 & R2). exists iss2.
  apply (run_trans _ _ _ _ [] _ _ []) with (2 := R2).
  destruct (close_section _ (at_wire s0 w' iss) t _ _ _) as [s1 t1] eqn:E.
  eapply (run_next (choose env 0)); [done| |exact R1]. cbn [Interleave.thread_step deliver_step ch_env choose].
  change (set_metrics (at_wire s0 w iss) (inc_backpressure_disconnects (s_metrics (at_wire s0 w iss))))
    with (at_wire s0 w' iss). by rewrite E.
Qed.
End delivery.
(** What [deliver_actions] does about one close, at a given depth. *)
Definition close_at (fuel : nat) (env : Env) (w : Wire) (id : ConnId) (code : N) (reason : string) : Wire :=
  match close_conn_sync env w id code reason with
  | (w, Some acts) => deliver_actions fuel env w acts
  | (w, None) => w
  end.

Lemma deliver_unfold fuel env w acts :
  deliver_actions (S fuel) env w acts =
  foldl (next_close (close_at fuel env)) (foldl (one env (close_at fuel env)) (w, []) acts).1
    (foldl (one env (close_at fuel env)) (w, []) acts).2.
Proof.
  cbn [deliver_actions]. change (foldl _ (w, []) acts) with (foldl (one env (close_at fuel env)) (w, []) acts).
  by destruct (foldl _ (w, []) acts).
Qed.

Lemma close_conn_sync_at env now k s0 w iss id code reason :
  close_conn_sync (answer env now k) (mkWire (s_core (at_wire s0 w iss)) (s_metrics (at_wire s0 w iss)) [] 0) id code reason
  = (mkWire (w_core (close_conn_sync env w id code reason).1) (w_metrics w)
       (if bool_decide (is_Some (conns (w_core w) !! id)) then [CloseSignal id code reason] else []) 0,
     (close_conn_sync env w id code reason).2) ∧
  w_metrics (close_conn_sync env w id code reason).1 = w_metrics w ∧
  w_out (close_conn_sync env w id code reason).1 =
    w_out w ++ (if bool_decide (is_Some (conns (w_core w) !! id)) then [CloseSignal id code reason] else []).
Proof. unfold close_conn_sync. cbn. by destruct (handle_close _ _ _). Qed.

Lemma deliver_count m fuel env w acts :
  conn_count w ≤ m → conn_count (deliver_actions fuel env w acts) ≤ m.
Proof.
  apply (deliver_actions_pres (λ c, size (conns c) ≤ m)). intros c id now Hc. cbn beta in *.
  rewrite handle_close_conns, map_size_delete. destruct (conns c !! id); cbn; lia.
Qed.

Lemma run_deliver fuel env s0 w acts iss stack :
  conn_count w < fuel →
  ∃ iss', run (at_wire s0 w iss) (TDeliver None (mkActivation acts [] :: stack))
              (at_wire s0 (deliver_actions fuel env w acts) iss') (TDeliver None stack) [].
Proof.
  revert w acts iss stack. induction fuel as [|fuel IH]; intros w acts iss stack Hw; [lia|].
  assert (closes s0 env fuel (close_at fuel env)) as Hcc.
  { intros w0 id code reason stk iss0 k H0. unfold close_at, close_section.
    destruct (close_conn_sync_count env w0 id code reason) as [Hle Hlt].
    destruct (close_conn_sync_at env (e_now env) k s0 w0 iss0 id code reason) as (-> & Em & Eo).
    destruct (close_conn_sync env w0 id code reason) as [w1 [acts1|]]; cbn [fst snd] in *.
    - specialize (Hlt acts1 eq_refl). split; [apply deliver_count; lia|].
      destruct (IH w1 acts1 (iss0 ++ acts1) stk ltac:(lia)) as (iss' & R). exists iss'.
      replace (issue _ acts1) with (at_wire s0 w1 (iss0 ++ acts1)); [done|].
      unfold at_wire, issue, emit. cbn. by rewrite Em, Eo, app_assoc.
    - split; [lia|]. exists iss0.
      replace (emit _ _) with (at_wire s0 w1 iss0); [apply run_refl|].
      unfold at_wire, emit. cbn. by rewrite Em, Eo, app_assoc. }
  rewrite deliver_unfold.
  destruct (run_first_pass s0 env fuel (close_at fuel env) acts w [] iss stack Hcc ltac:(lia)) as [H1 (iss1 & R1)].
  destruct (foldl (one env (close_at fuel env)) (w, []) acts) as [w1 bp1]. cbn [fst snd] in *.
  destruct (run_second_pass s0 env fuel (close_at fuel env) bp1 w1 iss1 stack Hcc H1) as (iss2 & R2).
  exists iss2. by apply (run_trans _ _ _ _ [] _ _ []) with (2 := R2).
Qed.

(** A section that decides on [acts], run to the end of their delivery. *)
Lemma run_turn env s w acts iss :
  ∃ iss', run (issue (at_wire s w iss) acts) (TDeliver None [mkActivation acts []])
              (at_wire s (deliver env w acts) iss') TDone [].
Proof.
  destruct (run_deliver (S (size (conns (w_core w)))) env s w acts (iss ++ acts) [] ltac:(unfold conn_count; lia))
    as (iss' & R).
  exists iss'. apply (run_trans _ _ _ _ [] _ _ []) with (1 := R).
  by eapply (run_next (choose env 0)); [done| |apply run_refl].
Qed.

(** ** Turns *)

Definition at_world (wd : World) (iss : list Action) : Shared :=
  mkShared (wd_core wd) (wd_metrics wd) (push_inner wd) (next_conn_id wd) (wd_out wd) iss.

(** What is left of a turn once its section has decided on [acts]. *)
Lemma run_rest wd c m inner out iss acts env ts :
  ∃ iss', run (mkShared c m inner (next_conn_id wd) (wd_out wd ++ out) (iss ++ acts))
              (TDeliver None [mkActivation acts []])
              (at_world (of_wire wd (deliver env (mkWire c m out 0) acts) inner ts) iss') TDone [].
Proof.
  apply (run_turn env (mkShared c m inner (next_conn_id wd) (wd_out wd) iss) (mkWire c m out 0) acts iss).
Qed.

Lemma run_rest_quiet wd c m inner iss acts env ts :
  ∃ iss', run (mkShared c m inner (next_conn_id wd) (wd_out wd) (iss ++ acts))
              (TDeliver None [mkActivation acts []])
              (at_world (of_wire wd (deliver env (mkWire c m [] 0) acts) inner ts) iss') TDone [].
Proof. destruct (run_rest wd c m inner [] iss acts env ts) as (iss' & R). rewrite app_nil_r in R. by exists iss'. Qed.

Lemma handle_push_sections core m id p env :
  handle_push cfg core m id (f_frontend_id p) (f_sealed p) (f_title p) (f_body p) (f_level p) (f_data p) env =
  match push_gate core m id env with
  | (Some reply, core, m) => ([ASend id reply], None, core, m)
  | (None, core, m) => (push_resolved cfg core id p, core, m)
  end.
Proof.
  unfold handle_push, push_gate, push_resolved. destruct (match conns core !! id with Some _ => _ | None => _ end)
    as [[[reply|] c] m']; [done|]. by destruct (resolve_push_locked c id _ _), (has_push_service cfg).
Qed.

Lemma run_step_ex ch s t s1 t1 new (P : list Action → Shared) :
  t ≠ TDone → thread_step ch s t = ((s1, t1), []) →
  (∃ iss', run s1 t1 (P iss') TDone new) → ∃ iss', run s t (P iss') TDone new.
Proof. intros Ht E (iss' & R). exists iss'. by eapply run_next. Qed.

(** The shared state after the pre-auth section of a frame. *)
Definition after_throttle (wd : World) (iss : list Action) (c : RelayCore) : Shared :=
  mkShared c (inc_frames_in (wd_metrics wd)) (push_inner wd) (next_conn_id wd) (wd_out wd) iss.

Lemma run_push wd iss id p env c1 :
  let '(acts, task, c2, m2) := handle_push cfg c1 (inc_frames_in (wd_metrics wd)) id (f_frontend_id p)
      (f_sealed p) (f_title p) (f_body p) (f_level p) (f_data p) env in
  ∃ iss', run (after_throttle wd iss c1) (TGate id p)
    (at_world (of_wire wd (deliver env (mkWire c2 m2 [] 0) acts) (push_inner wd) (tasks wd ++ option_list task)) iss')
    TDone (TPush <$> option_list task).
Proof.
  rewrite handle_push_sections.
  destruct (push_gate c1 (inc_frames_in (wd_metrics wd)) id env) as [[[reply|] c2] m2] eqn:Eg.
  - eapply (run_step_ex (mkChoice env Push.ApnsOk)); [done|cbn; by rewrite Eg|]. apply run_rest_quiet.
  - destruct (push_resolved cfg c2 id p) as [acts task] eqn:Er.
    eapply (run_step_ex (mkChoice env Push.ApnsOk)); [done|cbn; by rewrite Eg|].
    destruct (run_rest_quiet wd c2 m2 (push_inner wd) iss acts env (tasks wd ++ option_list task)) as (iss' & R).
    exists iss'. rewrite <-(app_nil_r (TPush <$> _)).
    eapply (run_step (mkChoice env Push.ApnsOk)); [done|cbn; by rewrite Er|]. exact R.
Qed.

Lemma run_dispatch wd iss id msg env c1 :
  let '(acts, c2, m2) := dispatch_locked (signer cfg) c1 (inc_frames_in (wd_metrics wd)) id msg env in
  ∃ iss', run (after_throttle wd iss c1) (TDispatch id msg)
    (at_world (of_wire wd (deliver env (mkWire c2 m2 [] 0) acts) (push_inner wd) (tasks wd ++ [])) iss') TDone [].
Proof.
  destruct (dispatch_locked _ c1 _ id msg env) as [[acts c2] m2] eqn:Ed.
  eapply (run_step_ex (mkChoice env Push.ApnsOk)); [done|cbn; by rewrite Ed|]. apply run_rest_quiet.
Qed.

Lemma run_inbound wd iss id text env :
  ∃ iss', run (at_world wd iss) (TInbound id text)
              (at_world (relay_step parse cfg svc wd (EInbound id text env)) iss') TDone
              (TPush <$> option_list (handle_inbound parse cfg (wd_core wd) (wd_metrics wd) id text env).1.2).
Proof.
  cbn [relay_step]. unfold handle_inbound.
  destruct (decide (max_frame_size cfg < N.of_nat (str_len text))%N) as [Hsz|Hsz].
  { eapply (run_step_ex (choose env 0)); [done| |apply run_rest_quiet]. cbn. unfold inbound_step. by rewrite decide_True. }
  destruct (preauth_throttle cfg (wd_core wd) id) as [close c1] eqn:Et.
  assert (∀ s1 t1, (if close then (after_throttle wd iss c1, TDone) else
             match parse text with
             | None => start_delivery (after_throttle wd iss c1)
                         [ASend id (relay_err "PARSE_ERROR" (Some "Invalid JSON"))]
             | Some value =>
                 match parse_relay_client_message value with
                 | None => start_delivery (mkShared c1 (inc_unknown_type_drops (inc_frames_in (wd_metrics wd)))
                               (push_inner wd) (next_conn_id wd) (wd_out wd) iss)
                             [ASend id (relay_err "UNKNOWN_TYPE"
                               (Some ("Unknown or malformed message type: " +:+ unknown_type value)))]
                 | Some (Messages.Push fid sealed title body level data) =>
                     (after_throttle wd iss c1, TGate id (mkPushFrame fid sealed title body level data))
                 | Some msg => (after_throttle wd iss c1, TDispatch id msg)
                 end
             end) = (s1, t1) →
             thread_step (choose env 0) (at_world wd iss) (TInbound id text) = ((s1, t1), [])) as Hstep.
  { intros s1 t1 <-. cbn. unfold inbound_step. rewrite decide_False by done. cbn. rewrite Et.
    destruct close; [done|]. destruct (parse text) as [v|]; [|done]. by destruct (parse_relay_client_message v) as [[]|]. }
  destruct close; cbn [fst snd].
  { eapply run_step_ex; [done|by apply Hstep|]. exists iss. unfold at_world, after_throttle. cbn.
    rewrite app_nil_r. apply run_refl. }
  destruct (parse text) as [v|].
  2:{ eapply run_step_ex; [done|by apply Hstep|apply run_rest_quiet]. }
  destruct (parse_relay_client_message v) as [msg|].
  2:{ eapply run_step_ex; [done|by apply Hstep|apply run_rest_quiet]. }
  destruct msg as [r did tok v' fid|tok v'|did prf tok v'|ct r|sid ct seq|sid after|sid|ts|fid sealed title body level data|fid tok pf].
  9:{ pose proof (run_push wd iss id (mkPushFrame fid sealed title body level data) env c1) as H.
      cbn [f_frontend_id f_sealed f_title f_body f_level f_data] in H.
      destruct (handle_push _ c1 _ id fid sealed title body level data env) as [[[acts task] c2] m2].
      eapply run_step_ex; [done|by apply Hstep|exact H]. }
  all: match goal with |- context [dispatch_locked _ _ _ _ ?msg _] => pose proof (run_dispatch wd iss id msg env c1) as H end;
    destruct (dispatch_locked _ c1 _ id _ env) as [[acts c2] m2];
    (eapply run_step_ex; [done|by apply Hstep|exact H]).
Qed.

Lemma run_end wd iss id why at_ env :
  ∃ iss', run (at_world wd iss) (TEnd id why at_)
              (at_world (relay_step parse cfg svc wd (EEnd id why at_ env)) iss') TDone [].
Proof.
  cbn [relay_step]. unfold end_connection.
  destruct (handle_close (wd_core wd) id (e_close_now env id)) as [daemon c] eqn:E.
  eapply (run_step_ex (mkChoice env Push.ApnsOk)); [done|cbn; by rewrite E|].
  destruct (run_rest wd c (if at_ then inc_auth_timeouts (wd_metrics wd) else wd_metrics wd) (push_inner wd)
              (match why with Some (code, reason) => [CloseSignal id code reason] | None => [] end) iss
              (match daemon with Some d => presence_actions c d | None => [] end) env (tasks wd)) as (iss' & R).
  exists iss'. by destruct daemon.
Qed.

Lemma run_sweep wd iss now env :
  ∃ iss', run (at_world wd iss) TSweep (at_world (relay_step parse cfg svc wd (ESweep now env)) iss') TDone [].
Proof.
  cbn [relay_step]. destruct (stale_sweep cfg (wd_core wd) (wd_metrics wd) now) as [[acts c] m] eqn:E.
  eapply (run_step_ex (mkChoice (answer env now 0) Push.ApnsOk)); [done|cbn; by rewrite E|]. apply run_rest_quiet.
Qed.
Lemma run_guard wd iss task req r now env ts :
  Push.is_frontend_connected req = false →
  let '(res, inner) := Push.send_or_deliver svc (λ _, r) (push_inner wd) req now in
  ∃ iss', run (at_world wd iss) (TGuard task req)
    (at_world (of_wire wd (deliver env (mkWire (wd_core wd) (wd_metrics wd) [] 0) (push_reply task res)) inner ts) iss')
    TDone [].
Proof.
  intros Hc. unfold Push.send_or_deliver. rewrite Hc.
  destruct (Push.guard_phase svc (push_inner wd) req now) as [[res|] inner] eqn:E.
  - eapply (run_step_ex (mkChoice (answer env now 0) r)); [done|cbn; by rewrite E|]. apply run_rest_quiet.
  - cbv beta. destruct (Push.finish_phase inner req now r) as [res inner'] eqn:Ef.
    eapply (run_step_ex (mkChoice (answer env now 0) r)); [done|cbn; by rewrite E|].
    eapply (run_step_ex (mkChoice (answer env now 0) r)); [done|cbn [Interleave.thread_step ch_apns s_inner set_inner at_world]; by rewrite Ef|]. apply run_rest_quiet.
Qed.

Lemma run_push_done wd iss i task r now env :
  tasks wd !! i = Some task →
  ∃ iss', run (at_world wd iss) (TPush task)
              (at_world (relay_step parse cfg svc wd (EPushDone i r now env)) iss') TDone [].
Proof.
  intros Hi. cbn [relay_step]. rewrite Hi. unfold finish_push_send.
  destruct (Push.is_frontend_connected (t_req task)) eqn:Ec.
  - assert (Push.send_or_deliver svc (λ _, r) (push_inner wd) (t_req task) now = (Push.Ws, push_inner wd)) as ->
      by (unfold Push.send_or_deliver; by rewrite Ec).
    rewrite bool_decide_eq_true_2 by done. cbn [andb].
    eapply (run_step_ex (choose env 0)); [done|cbn; by rewrite Ec|].
    destruct (frontend_conn_live (wd_core wd) (t_target task) (Push.frontend_id (t_req task))) eqn:El; cbn [negb].
    + eapply (run_step_ex (choose env 0)); [done|cbn; by rewrite El|]. apply run_rest_quiet.
    + pose proof (run_guard wd iss task (disconnected (t_req task)) r now env (delete i (tasks wd)) eq_refl) as H.
      destruct (Push.send_or_deliver svc _ (push_inner wd) (disconnected (t_req task)) now) as [res inner].
      eapply (run_step_ex (choose env 0)); [done|cbn; by rewrite El|exact H].
  - pose proof (run_guard wd iss task (t_req task) r now env (delete i (tasks wd)) Ec) as H.
    destruct (Push.send_or_deliver svc _ (push_inner wd) (t_req task) now) as [res inner] eqn:Es.
    assert (res ≠ Push.Ws) as Hres.
    { revert Es. unfold Push.send_or_deliver. rewrite Ec. unfold Push.guard_phase, Push.finish_phase, Push.apns_outcome.
      destruct (Push.deduped _ _ _ _); [by intros [= <-]|]. destruct (Push.over_limit _ _ _); [by intros [= <-]|].
      destruct (Push.apns_configured svc); [|by intros [= <-]]. by destruct r as [|[] ?]; intros [= <-]. }
    rewrite bool_decide_eq_false_2 by done. cbn [andb].
    eapply (run_step_ex (choose env 0)); [done|cbn; by rewrite Ec|exact H].
Qed.

(** ** The simulation *)

(** The threads that have not ended. *)
Definition live (ts : list Thread) : list Thread :=
  omap (λ t, match t with TDone => None | _ => Some t end) ts.

(** Between two turns, the only threads at work are the spawned pushes. *)
Definition sim (wd : World) (p : Pool) : Prop :=
  ∃ iss, shared p = at_world wd iss ∧ live (threads p) = TPush <$> tasks wd.

Lemma live_app ts ts' : live (ts ++ ts') = live ts ++ live ts'.
Proof. apply omap_app. Qed.

Lemma live_pushes (l : list PushTask) : live (TPush <$> l) = TPush <$> l.
Proof. induction l as [|t l IH]; [done|]. cbn. by f_equal. Qed.

Lemma live_end ts i t :
  live ts !! i = Some t → ∃ j, ts !! j = Some t ∧ live (<[j := TDone]> ts) = delete i (live ts).
Proof.
  revert i. induction ts as [|t0 ts IH]; intros i Hi; [done|].
  assert (t0 = TDone ∨ ∀ ts, live (t0 :: ts) = t0 :: live ts) as [->|E] by (destruct t0; eauto).
  - destruct (IH i Hi) as (j & Hj & El). exists (S j). split; [done|]. exact El.
  - rewrite E in *. destruct i as [|i]; cbn in Hi.
    + injection Hi as ->. by exists 0.
    + destruct (IH i Hi) as (j & Hj & El). exists (S j). split; [done|].
      change (<[S j := TDone]> (t0 :: ts)) with (t0 :: <[j := TDone]> ts). by rewrite E, El.
Qed.

Lemma pool_reach p p' : rtc internal p p' → rtc pool_step p p'.
Proof. apply rtc_subrel. intros ? ?. apply pool_internal. Qed.

(** A thread that arrives runs to its end at once. *)
Lemma arrive_and_run wd iss t s' new ts :
  arrival t → run (at_world wd iss) t s' TDone new →
  ∃ ts', rtc pool_step (mkPool (at_world wd iss) ts) (mkPool s' ts') ∧ live ts' = live ts ++ live new.
Proof.
  intros Ha R. exists (<[length ts := TDone]> (ts ++ [t]) ++ new). split.
  - eapply rtc_l; [apply pool_external, external_arrival, Ha|]. apply pool_reach, (run_pool _ _ _ _ _ _ _ R).
    by rewrite lookup_app_r, Nat.sub_diag.
  - rewrite live_app. f_equal. rewrite insert_app_r_alt, Nat.sub_diag by done. cbn.
    rewrite live_app. unfold live at 2. cbn. by rewrite app_nil_r.
Qed.

Lemma turn_is_schedule wd ev p :
  sim wd p → ∃ p', rtc pool_step p p' ∧ sim (relay_step parse cfg svc wd ev) p'.
Proof.
  intros (iss & Es & El). destruct p as [s ts]. cbn [shared threads] in Es, El. subst s.
  destruct ev as [|id text env|id why at_ env|now env|i r now env].
  - eexists. split; [apply rtc_once, pool_external, external_connect|]. by exists iss.
  - destruct (run_inbound wd iss id text env) as (iss' & R).
    destruct (arrive_and_run wd iss _ _ _ ts (arrival_frame id text) R) as (ts' & Hr & Hl).
    eexists. split; [exact Hr|]. exists iss'. split; [done|]. cbn [threads]. rewrite Hl, El, live_pushes.
    cbn [relay_step]. destruct (handle_inbound _ _ _ _ id text env) as [[d task] w]. by rewrite <-fmap_app.
  - destruct (run_end wd iss id why at_ env) as (iss' & R).
    destruct (arrive_and_run wd iss _ _ _ ts (arrival_end id why at_) R) as (ts' & Hr & Hl).
    eexists. split; [exact Hr|]. exists iss'. split; [done|]. cbn [threads]. by rewrite Hl, El, app_nil_r.
  - destruct (run_sweep wd iss now env) as (iss' & R).
    destruct (arrive_and_run wd iss _ _ _ ts arrival_tick R) as (ts' & Hr & Hl).
    eexists. split; [exact Hr|]. exists iss'. split; [done|]. cbn [threads]. rewrite Hl, El, app_nil_r.
    cbn [relay_step]. by destruct (stale_sweep _ _ _ _) as [[? ?] ?].
  - destruct (tasks wd !! i) as [task|] eqn:Ei.
    2:{ exists (mkPool (at_world wd iss) ts). split; [done|]. exists iss. cbn [relay_step]. by rewrite Ei. }
    destruct (live_end ts i (TPush task)) as (j & Hj & Hd); [by rewrite El, list_lookup_fmap, Ei|].
    destruct (run_push_done wd iss i task r now env Ei) as (iss' & R).
    eexists. split; [apply pool_reach, (run_pool _ _ _ _ _ _ _ R Hj)|]. exists iss'. split; [done|].
    cbn [threads relay_step]. rewrite app_nil_r, Hd, El, Ei, <-list_fmap_delete.
    by destruct (finish_push_send _ _ _ _ task now).
Qed.

(** Every run of [Conn] is one of these schedules: whatever events it takes, some
    schedule of sections reaches the same tables, counters, push state and outputs,
    with the spawned pushes as the only tasks still at work.  So what [Interleave]
    shows of every schedule holds of [Conn]'s runs as well. *)
Theorem turns_refine core evs :
  ∃ p, rtc pool_step (pool_init core) p ∧
    let wd := relay_run parse cfg svc core evs in
    s_core (shared p) = wd_core wd ∧ s_metrics (shared p) = wd_metrics wd ∧
    s_inner (shared p) = push_inner wd ∧ s_next (shared p) = next_conn_id wd ∧
    s_out (shared p) = wd_out wd ∧ live (threads p) = TPush <$> tasks wd.
Proof.
  assert (∀ evs wd p, sim wd p → ∃ p', rtc pool_step p p' ∧ sim (foldl (relay_step parse cfg svc) wd evs) p') as H.
  { intros evs'. induction evs' as [|ev evs' IH]; intros wd p Hs; [by exists p|].
    destruct (turn_is_schedule wd ev p Hs) as (p1 & R1 & S1). destruct (IH _ _ S1) as (p2 & R2 & S2).
    exists p2. split; [by eapply rtc_trans|done]. }
  destruct (H evs (relay_init core) (pool_init core)) as (p & R & iss & Es & El); [by exists []|].
  exists p. split; [done|]. cbv zeta. rewrite Es. done.
Qed.
End turns.
