(* ===== verification/Http.v ===== *)
(** * Http: the operator endpoints of [rust/tp-relay/src/http.rs] and the port
    selection of [rust/tp-relay/src/main.rs].
    In the literals of this file a back quote stands for a double quote ([dq]). *)
From stdpp Require Import base list numbers strings gmap fin_maps fin_map_dom.
From Stdlib Require Import Lia NArith ZArith Ascii.
From S2P Require Import Prelude Bytes Text Calendar Registry Ring Rate Metrics Server.

Definition dq (s : string) : string := replace_char "`"%char (ascii_of_N 34) s.
Definition nl : string := String (ascii_of_N 10) "".

(** ** Dates *)

(** Civil date of a day count since 1970-01-01. *)
Definition civil_from_days (days : Z) : Z * Z * Z :=
  let z := (days + 719468)%Z in
  let era := (z `quot` 146097)%Z in
  let doe := (z - era * 146097)%Z in
  let yoe := ((doe - doe `quot` 1460 + doe `quot` 36524 - doe `quot` 146096) `quot` 365)%Z in
  let y := (yoe + era * 400)%Z in
  let doy := (doe - (365 * yoe + yoe `quot` 4 - yoe `quot` 100))%Z in
  let mp := ((5 * doy + 2) `quot` 153)%Z in
  let day := (doy - (153 * mp + 2) `quot` 5 + 1)%Z in
  let month := if decide (mp < 10)%Z then (mp + 3)%Z else (mp - 9)%Z in
  let year := if decide (month ≤ 2)%Z then (y + 1)%Z else y in
  (year, month, day).

Definition iso8601_millis (ms : N) : string :=
  let total_secs := (ms / 1000)%N in
  let millis := (ms mod 1000)%N in
  let secs := (total_secs mod 60)%N in
  let total_mins := (total_secs / 60)%N in
  let mins := (total_mins mod 60)%N in
  let total_hours := (total_mins / 60)%N in
  let hours := (total_hours mod 24)%N in
  let days := (total_hours / 24)%N in
  let '(year, month, day) := civil_from_days (Z.of_N days) in
  pad_zero 4 year +:+ "-" +:+ pad_zero 2 month +:+ "-" +:+ pad_zero 2 day +:+ "T"
  +:+ pad_zero 2 (Z.of_N hours) +:+ ":" +:+ pad_zero 2 (Z.of_N mins) +:+ ":" +:+ pad_zero 2 (Z.of_N secs)
  +:+ "." +:+ pad_zero 3 (Z.of_N millis) +:+ "Z".

(** The vectors of [tests::iso8601_matches_known_epochs]. *)
Example iso8601_matches_known_epochs :
  iso8601_millis 0 = "1970-01-01T00:00:00.000Z" ∧
  iso8601_millis 1781181296789 = "2026-06-11T12:34:56.789Z" ∧
  iso8601_millis 1709208000000 = "2024-02-29T12:00:00.000Z".
Proof. vm_compute. repeat split. Qed.

(** The date arithmetic of [iso8601_millis] is the Gregorian calendar: its
    closed formula gives, for every number of days since 1970-01-01, the date
    reached by stepping through the calendar one day at a time. *)
Theorem civil_from_days_calendar (n : nat) : civil_from_days (Z.of_nat n) = date_after n.
Proof.
  rewrite <-civil_after, <-era_formula_civil. unfold civil_from_days. by rewrite (Z.quot_div_nonneg (Z.of_nat n + 719468)) by lia.
Qed.

(** ** [/health] and [/metrics] *)

Definition PROTOCOL_VERSION : N := 2.
Definition METRICS_CONTENT_TYPE : string := "text/plain; version=0.0.4".

Record CoreAggregate := mkAgg {
  clients : N;
  pending_auth : N;
  daemons_online : N;
  sessions_total : N;
  attached_total : N
}.

(** Rendering of a JSON string, with its quotes ([serde_json]); the build identity
    compiled in by [build.rs]; keyed BLAKE2b-256. *)
Class HttpCrates := {
  json_string : string → string;
  BUILD_SHA : string;
  BUILD_TIME : string;
  keyed_digest : bytes → bytes → bytes
}.

Section http.
Context {G : Governor} {HIS : HashIter string} {H : HttpCrates}.

Definition sum (l : list nat) : nat := foldr Nat.add 0 l.

Definition aggregate (core : RelayCore) (include_attached : bool) : CoreAggregate :=
  let handles := snd <$> map_to_list (conns core) in
  let states := snd <$> map_to_list (daemon_states (registry core)) in
  let clients := length (filter (λ h, is_Some (auth h)) handles) in
  mkAgg (N.of_nat clients) (N.of_nat (length handles - clients))
    (N.of_nat (length (filter (λ s, online s = true) states)))
    (N.of_nat (sum ((λ s, length (sessions s)) <$> states)))
    (if include_attached then N.of_nat (sum ((λ s, size (attached s)) <$> states)) else 0%N).

(** [strip_suffix] of one character. *)
Definition strip_last (c : ascii) (s : string) : option string :=
  match reverse (as_bytes s) with
  | x :: r => if decide (x = c) then Some (str_of_bytes (reverse r)) else None
  | [] => None
  end.

Definition json_escape (s : string) : string :=
  let quoted := json_string s in
  let q := ascii_of_N 34 in
  default quoted (strip_prefix (String q "") quoted ≫= strip_last q).

Definition render_health_json (agg : CoreAggregate) (m : Metrics) (uptime : N) : string :=
  dq "{`status`:`ok`,`buildSha`:`"
  +:+ json_escape BUILD_SHA
  +:+ dq "`,`buildTime`:`"
  +:+ json_escape BUILD_TIME
  +:+ dq "`,`protocolVersion`:"
  +:+ print_dec PROTOCOL_VERSION
  +:+ dq ",`clients`:"
  +:+ print_dec (clients agg)
  +:+ dq ",`pendingAuth`:"
  +:+ print_dec (pending_auth agg)
  +:+ dq ",`daemons`:"
  +:+ print_dec (daemons_online agg)
  +:+ dq ",`sessions`:"
  +:+ print_dec (sessions_total agg)
  +:+ dq ",`attached`:"
  +:+ print_dec (attached_total agg)
  +:+ dq ",`uptime`:"
  +:+ print_dec uptime
  +:+ dq ",`metrics`:{`framesIn`:"
  +:+ print_dec (Metrics.frames_in m)
  +:+ dq ",`framesOut`:"
  +:+ print_dec (Metrics.frames_out m)
  +:+ dq ",`rateLimitedDrops`:"
  +:+ print_dec (Metrics.rate_limited_drops m)
  +:+ dq ",`daemonRateLimitedDrops`:"
  +:+ print_dec (Metrics.daemon_rate_limited_drops m)
  +:+ dq ",`backpressureDisconnects`:"
  +:+ print_dec (Metrics.backpressure_disconnects m)
  +:+ dq ",`authTimeouts`:"
  +:+ print_dec (Metrics.auth_timeouts m)
  +:+ dq ",`oversizedDrops`:"
  +:+ print_dec (Metrics.oversized_drops m)
  +:+ dq ",`unknownTypeDrops`:"
  +:+ print_dec (Metrics.unknown_type_drops m)
  +:+ dq ",`evictions`:"
  +:+ print_dec (Metrics.evictions m)
  +:+ dq ",`resumesAttempted`:"
  +:+ print_dec (Metrics.resumes_attempted m)
  +:+ dq ",`resumesAccepted`:"
  +:+ print_dec (Metrics.resumes_accepted m)
  +:+ dq ",`resumesRejected`:{resumes_rejected}}}".

Definition metric_values (agg : CoreAggregate) (m : Metrics) (uptime : N) : list (string * N) :=
  [("relay_clients", clients agg);
   ("relay_pending_auth", pending_auth agg);
   ("relay_daemons_online", daemons_online agg);
   ("relay_sessions_total", sessions_total agg);
   ("relay_frames_in", Metrics.frames_in m);
   ("relay_frames_out", Metrics.frames_out m);
   ("relay_rate_limited_drops", Metrics.rate_limited_drops m);
   ("relay_daemon_rate_limited_drops", Metrics.daemon_rate_limited_drops m);
   ("relay_backpressure_disconnects", Metrics.backpressure_disconnects m);
   ("relay_auth_timeouts", Metrics.auth_timeouts m);
   ("relay_oversized_drops", Metrics.oversized_drops m);
   ("relay_unknown_type_drops", Metrics.unknown_type_drops m);
   ("relay_evictions", Metrics.evictions m);
   ("relay_resumes_attempted", Metrics.resumes_attempted m);
   ("relay_resumes_accepted", Metrics.resumes_accepted m);
   ("relay_resumes_rejected", Metrics.resumes_rejected m);
   ("relay_uptime_seconds", uptime)].

Definition render_metrics_text (agg : CoreAggregate) (m : Metrics) (uptime : N) : string :=
  join nl ((λ nv : string * N, nv.1 +:+ " " +:+ print_dec nv.2) <$> metric_values agg m uptime) +:+ nl.

Definition health (core : RelayCore) (m : Metrics) (uptime : N) : string :=
  render_health_json (aggregate core true) (snapshot m) uptime.

Definition metrics (core : RelayCore) (m : Metrics) (uptime : N) : string :=
  render_metrics_text (aggregate core false) (snapshot m) uptime.

(** ** [/admin] *)

(** [header] is the [Authorization] header when it is visible ASCII. *)
Definition bearer_ok (key : bytes) (header : option string) (expected : string) : bool :=
  match header with
  | None => false
  | Some value =>
      match strip_prefix "Bearer " value with
      | None => false
      | Some token =>
          bool_decide (keyed_digest key (as_bytes token) = keyed_digest key (as_bytes expected))
      end
  end.

(** [s.replace(c, t)] for one character and a replacement text. *)
Fixpoint replace_by (c : ascii) (t s : string) : string :=
  match s with
  | EmptyString => EmptyString
  | String x r => (if decide (x = c) then t else String x "") +:+ replace_by c t r
  end.

Definition escape_html (s : string) : string :=
  replace_by "'"%char "&#39;" (replace_by (ascii_of_N 34) "&quot;"
    (replace_by ">"%char "&gt;" (replace_by "<"%char "&lt;" (replace_by "&"%char "&amp;" s)))).

Record AdminDaemonRow := mkRow {
  row_id : string;
  row_online : bool;
  row_sessions : list string;
  last_seen_iso : string
}.

Definition render_row (d : AdminDaemonRow) : string :=
  let badge_class := if row_online d then "badge-on" else "badge-off" in
  let status := if row_online d then "online" else "offline" in
  let sessions := if decide (row_sessions d = []) then "—"
                  else join ", " (escape_html <$> row_sessions d) in
  dq "<tr><td style=`font-family:monospace;font-size:.85rem`>" +:+ escape_html (row_id d) +:+ "</td>" +:+ nl
  +:+ dq "<td><span class=`badge " +:+ badge_class +:+ dq "`>" +:+ status +:+ "</span></td>" +:+ nl
  +:+ "<td>" +:+ sessions +:+ "</td>" +:+ nl
  +:+ dq "<td style=`color:#888;font-size:.85rem`>" +:+ last_seen_iso d +:+ "</td></tr>".

Definition render_table (rows : list AdminDaemonRow) : string :=
  match rows with
  | [] => dq "<p style=`color:#666`>No daemons connected</p>"
  | _ => nl +:+ "<table><tr><th>ID</th><th>Status</th><th>Sessions</th><th>Last Seen</th></tr>" +:+ nl
         +:+ join "" (render_row <$> rows) +:+ nl +:+ "</table>"
  end.

Definition render_admin_html (clients uptime : N) (rows : list AdminDaemonRow) : string :=
  let table := render_table rows in
  dq "<!DOCTYPE html>
<html><head><title>Teleprompter Relay</title>
<meta charset=`utf-8`><meta name=`viewport` content=`width=device-width`>
<style>body{font-family:system-ui;background:#111;color:#eee;padding:2rem;max-width:800px;margin:0 auto}
h1{color:#fff;font-size:1.5rem}table{width:100%;border-collapse:collapse;margin:1rem 0}
td,th{padding:.5rem;text-align:left;border-bottom:1px solid #333}
th{color:#888;font-size:.75rem;text-transform:uppercase}.ok{color:#4ade80}.off{color:#666}
.badge{display:inline-block;padding:2px 8px;border-radius:4px;font-size:.75rem}
.badge-on{background:#166534;color:#4ade80}.badge-off{background:#333;color:#888}
#refresh{color:#60a5fa;cursor:pointer;font-size:.75rem}</style></head>
<body><h1>Teleprompter Relay</h1>
<p>Clients: <b>"
  +:+ print_dec clients
  +:+ dq "</b> | Uptime: <b>"
  +:+ print_dec uptime
  +:+ dq "s</b>
<span id=`refresh` onclick=`location.reload()`> ↻ refresh</span></p>
<h2 style=`font-size:1rem;color:#888`>Daemons ("
  +:+ print_dec (N.of_nat (length rows))
  +:+ dq ")</h2>
"
  +:+ table
  +:+ dq "
</body></html>".

(** The rows come in [HashMap] order. *)
Definition admin_rows (core : RelayCore) : list AdminDaemonRow :=
  omap (λ id, (λ s, mkRow id (online s) (sessions s) (iso8601_millis (last_seen s)))
                <$> daemon_states (registry core) !! id)
    (set_iter (dom (daemon_states (registry core)))).

Inductive HttpResponse := NotFound | Unauthorized | Html (body : string).

(** [token_env]: the [TP_RELAY_ADMIN_TOKEN] variable. *)
Definition admin (token_env : option string) (key : bytes) (header : option string) (core : RelayCore) (uptime : N)
  : HttpResponse :=
  match token_env with
  | None => NotFound
  | Some expected =>
      if decide (expected = "") then NotFound
      else if negb (bearer_ok key header expected) then Unauthorized
      else Html (render_admin_html (clients (aggregate core false)) uptime (admin_rows core))
  end.

(** ** Escaping *)

Lemma replace_by_app c t a b : replace_by c t (a +:+ b) = replace_by c t a +:+ replace_by c t b.
Proof.
  induction a as [|x a IH]; [done|]. rewrite str_append_cons. cbn [replace_by]. by rewrite IH, str_append_assoc.
Qed.

(** The entity of a character; the five passes do not meet. *)
Definition entity (x : ascii) : string :=
  if decide (x = "&"%char) then "&amp;" else if decide (x = "<"%char) then "&lt;"
  else if decide (x = ">"%char) then "&gt;" else if decide (x = ascii_of_N 34) then "&quot;"
  else if decide (x = "'"%char) then "&#39;" else String x "".

Lemma escape_html_cons x s : escape_html (String x s) = entity x +:+ escape_html s.
Proof.
  change (String x s) with (String x "" +:+ s). unfold escape_html. rewrite !replace_by_app. f_equal.
  unfold entity. destruct (decide (x = "&"%char)) as [->|H1]; [reflexivity|].
  destruct (decide (x = "<"%char)) as [->|H2]; [reflexivity|].
  destruct (decide (x = ">"%char)) as [->|H3]; [reflexivity|].
  destruct (decide (x = ascii_of_N 34)) as [->|H4]; [reflexivity|].
  destruct (decide (x = "'"%char)) as [->|H5]; [reflexivity|].
  do 5 (cbn [replace_by]; rewrite decide_False by done; rewrite str_append_nil_r). done.
Qed.

Definition count (c : ascii) (s : string) : nat := length (filter (λ x, x = c) (as_bytes s)).

Lemma count_app c a b : count c (a +:+ b) = count c a + count c b.
Proof. unfold count. by rewrite as_bytes_app, filter_app, length_app. Qed.

Lemma count_0 c s : str_contains c s = false → count c s = 0.
Proof.
  unfold count. induction s as [|x s IH]; [done|]. cbn [str_contains]. case_decide as Hx; [done|]. intros Hs.
  change (as_bytes (String x s)) with (x :: as_bytes s). rewrite filter_cons_False by congruence. by apply IH.
Qed.

(** The characters that delimit markup. *)
Definition specials : list ascii := ["<"; ">"; ascii_of_N 34; "'"]%char.

Lemma count_entity c x : c ∈ specials → count c (entity x) = 0.
Proof.
  intros Hc. unfold entity. repeat case_decide.
  1-5: repeat (apply elem_of_cons in Hc as [->|Hc]; [reflexivity|]); by apply elem_of_nil in Hc.
  apply count_0. cbn. rewrite decide_False; [done|]. intros ->.
  repeat (apply elem_of_cons in Hc as [->|Hc]; [done|]). by apply elem_of_nil in Hc.
Qed.

Lemma count_escape c s : c ∈ specials → count c (escape_html s) = 0.
Proof.
  intros Hc. induction s as [|x s IH]; [done|]. by rewrite escape_html_cons, count_app, count_entity, IH.
Qed.

Lemma entity_inj x y a b : entity x +:+ a = entity y +:+ b → x = y ∧ a = b.
Proof.
  unfold entity. repeat case_decide; subst; rewrite ?str_append_cons; intros [=]; subst; done.
Qed.

Lemma escape_html_inj a b : escape_html a = escape_html b → a = b.
Proof.
  revert b. induction a as [|x a IH]; intros [|y b]; rewrite ?escape_html_cons; [done|..].
  - unfold entity. repeat case_decide; done.
  - unfold entity. repeat case_decide; done.
  - by intros [-> ->%IH]%entity_inj.
Qed.

(** ** The dashboard *)

Lemma count_join c sep l l' :
  Forall2 (λ a b, count c a = count c b) l l' → count c (join sep l) = count c (join sep l').
Proof.
  induction 1 as [|a b l l' Hab Hl IH]; [done|]. inversion Hl; subst; [done|].
  cbn [join] in *. by rewrite !count_app, Hab, IH.
Qed.

Lemma count_all_digits c s : is_ascii_digit c = false → all_digits s = true → count c s = 0.
Proof. intros. apply count_0. by apply all_digits_no_char. Qed.

Lemma count_pad_zero c w n : is_ascii_digit c = false → count c (pad_zero w n) = 0.
Proof.
  intros Hc. apply count_all_digits; [done|]. unfold pad_zero. generalize (w - str_len (print_dec (Z.to_N n))). intros k.
  induction k as [|k IH]; [apply digits_print_dec|done].
Qed.

Lemma special_not_digit c : c ∈ specials → is_ascii_digit c = false.
Proof. intros Hc. repeat (apply elem_of_cons in Hc as [->|Hc]; [done|]). by apply elem_of_nil in Hc. Qed.

Lemma count_iso c ms : c ∈ specials → count c (iso8601_millis ms) = 0.
Proof.
  intros Hc. pose proof (special_not_digit c Hc) as Hd. unfold iso8601_millis.
  destruct (civil_from_days _) as [[y m] d]. rewrite !count_app, !count_pad_zero by done.
  repeat (apply elem_of_cons in Hc as [->|Hc]; [reflexivity|]). by apply elem_of_nil in Hc.
Qed.

(** The same row, without any text that came from outside. *)
Definition blank (d : AdminDaemonRow) : AdminDaemonRow :=
  mkRow "" (row_online d) ((λ _, "") <$> row_sessions d) "".

Lemma count_render_row c d :
  c ∈ specials → count c (last_seen_iso d) = 0 → count c (render_row d) = count c (render_row (blank d)).
Proof.
  intros Hc Hl. unfold render_row. cbn [blank row_id row_online row_sessions last_seen_iso].
  assert (count c (if decide (row_sessions d = []) then "—" else join ", " (escape_html <$> row_sessions d))
    = count c (if decide ((λ _, "") <$> row_sessions d = []) then "—"
               else join ", " (escape_html <$> ((λ _, "") <$> row_sessions d)))) as E.
  { destruct (row_sessions d) as [|s l]; [done|]. rewrite !decide_False by done. apply count_join.
    generalize (s :: l). intros l'. induction l' as [|x l' IH]; [constructor|]. constructor; [|done].
    by rewrite !count_escape. }
  rewrite !count_app, !count_escape, Hl, E by done. by change (count c "") with 0.
Qed.

Lemma admin_rows_iso core d : d ∈ admin_rows core → ∃ ms, last_seen_iso d = iso8601_millis ms.
Proof.
  unfold admin_rows. intros (id & _ & Hd)%list_elem_of_omap.
  destruct (daemon_states (registry core) !! id); [|done]. injection Hd as <-. by eexists.
Qed.

Lemma count_table c rows :
  c ∈ specials → (∀ d, d ∈ rows → ∃ ms, last_seen_iso d = iso8601_millis ms) →
  count c (render_table rows) = count c (render_table (blank <$> rows)).
Proof.
  intros Hc Hiso. assert (count c (join "" (render_row <$> rows)) = count c (join "" (render_row <$> (blank <$> rows)))) as E.
  { apply count_join. induction rows as [|x l IH]; [constructor|]. constructor.
    - destruct (Hiso x) as [ms Hms]; [left|]. apply count_render_row; [done|]. rewrite Hms. by apply count_iso.
    - apply IH. intros d Hin. apply Hiso. by right. }
  destruct rows as [|r rows]; [done|]. unfold render_table.
  change (blank <$> r :: rows) with (blank r :: (blank <$> rows)) in *. cbn iota. by rewrite !count_app, E.
Qed.

(** The dashboard is closed by default and cannot be injected into: without
    a configured token it does not exist; a request is served only with a
    [Bearer] credential whose keyed digest is the token's; and whatever daemon
    and session ids peers have chosen, the page has exactly the markup of the
    same page with all of them blanked: they add no angle bracket and no quote,
    and none of them is lost in the escaping. *)
Theorem admin_page_safe token_env key header core uptime :
  (token_env = None ∨ token_env = Some "" → admin token_env key header core uptime = NotFound) ∧
  (∀ body, admin token_env key header core uptime = Html body →
     (∃ expected token, token_env = Some expected ∧ expected ≠ "" ∧ header = Some ("Bearer " +:+ token) ∧
        keyed_digest key (as_bytes token) = keyed_digest key (as_bytes expected)) ∧
     (∀ c, c ∈ specials →
        count c body = count c (render_admin_html 0 uptime (blank <$> admin_rows core)))) ∧
  (∀ a b, escape_html a = escape_html b → a = b).
Proof.
  split_and!; [by intros [->| ->]| |apply escape_html_inj].
  intros body. unfold admin. destruct token_env as [expected|]; [|done]. case_decide as He; [done|].
  destruct (bearer_ok key header expected) eqn:Eb; [|done]. cbn [negb]. intros [= <-]. split.
  - unfold bearer_ok in Eb. destruct header as [value|]; [|done].
    destruct (strip_prefix "Bearer " value) as [token|] eqn:Ep; [|done]. apply strip_prefix_Some in Ep as ->.
    apply bool_decide_eq_true_1 in Eb. eauto 10.
  - intros c Hc. unfold render_admin_html. rewrite !count_app, length_fmap.
    rewrite !(count_all_digits c (print_dec _)) by auto using special_not_digit with tp.
    by rewrite (count_table c (admin_rows core)) by eauto using admin_rows_iso.
Qed.

(** ** Scraping *)

Definition newline : ascii := ascii_of_N 10.

(** What a scraper does: lines, then name and value. *)
Definition scrape_line (l : string) : option (string * N) :=
  let?o (name, value) := split_once " "%char l in let?o n := parse_uint u64_max value in Some (name, n).

Definition scrape (body : string) : option (list (string * N)) :=
  mapM scrape_line (filter (λ l, l ≠ "") (split_char newline body)).

Lemma split_lines (l : list string) :
  l ≠ [] → (∀ s, s ∈ l → str_contains newline s = false) → split_char newline (join nl l +:+ nl) = l ++ [""].
Proof. intros Hne Hs. exact (split_join_app newline l "" Hne Hs). Qed.

(** The metrics endpoint is read back exactly: for 64-bit counters, a
    scraper recovers the seventeen names in order, each with its value. *)
Theorem metrics_scrape agg m uptime :
  (∀ nv, nv ∈ metric_values agg m uptime → (nv.2 ≤ u64_max)%N) →
  scrape (render_metrics_text agg m uptime) = Some (metric_values agg m uptime).
Proof.
  intros Hb. unfold render_metrics_text, scrape. set (line := λ nv : string * N, nv.1 +:+ " " +:+ print_dec nv.2).
  assert (∀ nv, nv ∈ metric_values agg m uptime → nv.1 ≠ "" ∧ str_contains " "%char nv.1 = false ∧
            str_contains newline nv.1 = false) as Hn.
  { intros nv Hin. unfold metric_values in Hin. clear Hb.
    repeat (apply elem_of_cons in Hin as [->|Hin]; [done|]). by apply elem_of_nil in Hin. }
  rewrite split_lines; [|done|].
  2:{ intros s (nv & -> & Hin)%list_elem_of_fmap. destruct (Hn nv Hin) as (_ & _ & H3). unfold line.
      rewrite !str_contains_app, H3. cbn. by apply all_digits_no_char; [|apply digits_print_dec]. }
  rewrite filter_app. change (filter (λ l, l ≠ "") [""]) with (@nil string). rewrite app_nil_r.
  revert Hb Hn. generalize (metric_values agg m uptime). intros l Hb Hn.
  induction l as [|nv l IH]; [done|]. rewrite fmap_cons.
  destruct (Hn nv) as (H1 & H2 & H3); [left|]. rewrite filter_cons_True.
  2:{ unfold line. by destruct nv.1. }
  assert (scrape_line (line nv) = Some nv) as E.
  { unfold scrape_line, line. change (" " +:+ print_dec nv.2) with (String " "%char (print_dec nv.2)).
    rewrite split_once_app by done. cbn. rewrite parse_print_dec by (apply Hb; left). by destruct nv. }
  cbn [mapM]. rewrite E. cbn. rewrite IH; [done|..]; intros x Hx; [apply Hb|apply Hn]; by right.
Qed.

(** Every connection is either a client or pending. *)
Lemma aggregate_partition core b :
  (clients (aggregate core b) + pending_auth (aggregate core b))%N = N.of_nat (size (conns core)).
Proof.
  unfold aggregate. cbn [clients pending_auth]. set (handles := snd <$> map_to_list (conns core)).
  assert (length handles = size (conns core)) as <- by (unfold handles; by rewrite length_fmap, length_map_to_list).
  pose proof (length_filter (λ h, is_Some (auth h)) handles). lia.
Qed.
End http.

Definition demo_http : HttpCrates := {|
  json_string s := String (ascii_of_N 34) (s +:+ String (ascii_of_N 34) "");
  BUILD_SHA := "unknown"; BUILD_TIME := "unknown"; keyed_digest k m := k ++ m
|}.

Lemma metrics_scrape_witness :
  scrape (render_metrics_text (mkAgg 5 2 3 7 4) (inc_frames_in Metrics.new) 99)
  = Some (metric_values (mkAgg 5 2 3 7 4) (inc_frames_in Metrics.new) 99).
Proof.
  apply metrics_scrape. intros nv Hin. unfold metric_values in Hin.
  repeat (apply elem_of_cons in Hin as [->|Hin]; [vm_compute; discriminate|]). by apply elem_of_nil in Hin.
Defined.
