(* ===== verification/Startup.v ===== *)
(** * Startup: the relay's configuration from its environment and command line:
    [SharedState::from_env] and [build_push_service_from_env] of
    [rust/tp-relay/src/server.rs], the [from_env] constructors it calls, and the
    port selection of [rust/tp-relay/src/main.rs]. *)
From stdpp Require Import base list numbers strings gmap.
From Stdlib Require Import Lia NArith.
From S2P Require Import Prelude Bytes Text Registry Ring ResumeToken Rate Server Conn.
From S2P Require Push PushSeal Jwt Apns.

(** [std::env::var(key).ok()] *)
Abbreviation Environ := (string → option string).

Definition usize_var (env : Environ) (key : string) (dflt : nat) : nat :=
  default dflt (N.to_nat <$> (env key ≫= parse_uint u64_max)).

Definition recent_from_env (env : Environ) : RecentFrames :=
  with_cache_and_key_cap (usize_var env "TP_RELAY_CACHE_SIZE" DEFAULT_CACHE_SIZE)
    (usize_var env "TP_RELAY_MAX_RECENT_FRAME_KEYS" DEFAULT_MAX_RECENT_FRAME_KEYS_PER_DAEMON).

Definition max_registrations_from_env (env : Environ) : nat :=
  usize_var env "TP_RELAY_MAX_REGISTRATIONS" DEFAULT_MAX_REGISTRATIONS.

Definition push_sealer_from_env (env : Environ) (random : bytes) : PushSeal.PushSealer :=
  PushSeal.new None None None (default "" (env "TP_RELAY_PUSH_SEAL_SECRET"))
    (default "" (env "TP_RELAY_PUSH_SEAL_SECRET_PREV")) (default "" (env "TP_RELAY_PUSH_SEAL_VERSION")) random.

(** The APNs side, when all four credentials are present: the configuration of
    the client and the signer.  [is_file] asks the file system about [APNS_KEY]. *)
Definition build_push_service_from_env {J : Jwt.JwtCrates} (env : Environ) (is_file : string → bool)
  : option (Push.PushService * Apns.ApnsClientConfig * Jwt.ApnsSigner) :=
  let nonempty k := let?o s := env k in if decide (s = "") then None else Some s in
  let?o key := nonempty "APNS_KEY" in
  let?o key_id := nonempty "APNS_KEY_ID" in
  let?o team_id := nonempty "APNS_TEAM_ID" in
  let?o bundle_id := nonempty "APNS_BUNDLE_ID" in
  let apns_key := if is_file key then Jwt.Path key else Jwt.Pem key in
  let signer := Jwt.new apns_key key_id team_id in
  let host := Apns.resolve_apns_host (env "APNS_ENV") in
  let client_config := Apns.from_env host bundle_id (env "APNS_MAX_RETRIES") (env "APNS_RETRY_BASE_MS")
                         (env "APNS_REQUEST_TIMEOUT_MS") in
  let cfg := Push.PushServiceConfig_default in
  Some (Push.mkPushService (Push.rate_limit_per_minute cfg) (Push.dedup_window_ms cfg)
          (Push.rate_limit_window_ms cfg) true, client_config, signer).

Definition shared_state_from_env {G : Governor} {J : Jwt.JwtCrates} (env : Environ) (is_file : string → bool)
    (random : bytes) : RelayCore * Config :=
  (core_new (recent_from_env env) (rate_per_client_from_env (env "TP_RELAY_RATE_PER_CLIENT"))
     (rate_per_daemon_from_env (env "TP_RELAY_RATE_PER_DAEMON")) (max_registrations_from_env env),
   mkConfig (from_env (env "TP_RELAY_RESUME_SECRET") random) DEFAULT_STALE_TIMEOUT_MS DEFAULT_OFFLINE_EVICT_MS
     (max_frame_size_from_env (env "TP_RELAY_MAX_FRAME_SIZE"))
     (max_preauth_msgs_from_env (env "TP_RELAY_MAX_PREAUTH_MSGS"))
     (bool_decide (is_Some (build_push_service_from_env env is_file)))).

(** ** The listen port *)

Definition DEFAULT_PORT : N := 7090.

Definition parse_port (raw : string) : result N string :=
  match parse_uint u16_max raw with
  | Some port => if decide (port = 0%N) then Err "port must be 1..=65535 (got 0)" else Ok port
  | None => Err ("invalid port: " +:+ raw)
  end.

Definition env_port (env : Environ) : result (option N) string :=
  match env "RELAY_PORT" with
  | Some raw => if decide (raw = "") then Ok None else let? p := parse_port raw in Ok (Some p)
  | None => Ok None
  end.

(** The argument loop: [None] when help was printed. *)
Fixpoint port_flags (args : list string) (flag_port : option N) : result (option (option N)) string :=
  match args with
  | [] => Ok (Some flag_port)
  | arg :: args =>
      if decide (arg = "-h") then Ok None
      else if decide (arg = "--help") then Ok None
      else if decide (arg = "--port") then
        match args with
        | [] => Err "--port requires a value"
        | value :: args => let? p := parse_port value in port_flags args (Some p)
        end
      else match strip_prefix "--port=" arg with
           | Some value => let? p := parse_port value in port_flags args (Some p)
           | None => Err ("unknown argument: " +:+ arg)
           end
  end.

Definition resolve_port (env : Environ) (args : list string) : result (option N) string :=
  let? flags := port_flags args None in
  match flags with
  | None => Ok None
  | Some (Some port) => Ok (Some port)
  | Some None =>
      let? from_env := env_port env in
      match from_env with
      | Some port => Ok (Some port)
      | None => Ok (Some DEFAULT_PORT)
      end
  end.

(** ** Facts *)

Lemma parse_port_range raw p : parse_port raw = Ok p → (1 ≤ p ≤ 65535)%N.
Proof.
  unfold parse_port. destruct (parse_uint u16_max raw) as [n|] eqn:E; [|done]. case_decide; [done|].
  intros [= <-]. apply parse_uint_le in E. unfold u16_max in E. lia.
Qed.

Lemma port_flags_range n args flag p :
  length args ≤ n → (∀ q, flag = Some q → (1 ≤ q ≤ 65535)%N) →
  port_flags args flag = Ok (Some (Some p)) → (1 ≤ p ≤ 65535)%N.
Proof.
  revert args flag. induction n as [|n IH]; intros [|arg args] flag Hn Hf; cbn [port_flags length] in *;
    try (intros [= ->]; by apply Hf); [lia|].
  repeat case_decide; try done.
  - destruct args as [|value args]; [done|]. destruct (parse_port value) as [q|] eqn:E; [|done]. cbn.
    apply IH; [cbn in Hn; lia|]. intros q' [= <-]. by eapply parse_port_range.
  - destruct (strip_prefix _ arg); [|done]. destruct (parse_port _) as [q|] eqn:E; [|done]. cbn.
    apply IH; [lia|]. intros q' [= <-]. by eapply parse_port_range.
Qed.

(** Whatever the command line and environment, the relay never listens on an
    ephemeral port. *)
Lemma resolve_port_range env args p : resolve_port env args = Ok (Some p) → (1 ≤ p ≤ 65535)%N.
Proof.
  unfold resolve_port. destruct (port_flags args None) as [[[q|]|]|] eqn:E; cbn; try done.
  - intros [= <-]. eapply port_flags_range; [reflexivity| |exact E]. done.
  - destruct (env_port env) as [[q|]|] eqn:E'; cbn; try done.
    + intros [= <-]. unfold env_port in E'. destruct (env "RELAY_PORT"); [|done]. case_decide; [done|].
      destruct (parse_port s) eqn:Ep; [|done]. injection E' as <-. by eapply parse_port_range.
    + intros [= <-]. unfold DEFAULT_PORT. lia.
Qed.

(** The relay it starts satisfies the invariant of [Conn]. *)
Lemma startup_inv {G : Governor} {HS : HashIter string} {HC : HashIter N} {J : Jwt.JwtCrates} env is_file random :
  core_inv (shared_state_from_env env is_file random).1.
Proof. apply core_inv_new, wf_init. Qed.
