(* ===== verification/RunnerParts.v ===== *)
(** * RunnerParts: what a runner is started with and what it sends.
    The modules of [tp-runner] around its main loop: [cli.rs], [wire.rs],
    [collector.rs], [settings.rs], [hooks.rs], [socket.rs], and the launch command of
    [tp-proto/src/user_config.rs].  The loop itself is [Runner].  [from_slice],
    [from_str] and [to_string] are [serde_json]'s; the double quotes of messages are
    [dq]. *)
From stdpp Require Import base list numbers strings.
From Stdlib Require Import Lia NArith ZArith Ascii.
From S2P Require Import Prelude Bytes Text Json Messages Crypto Paths.
From S2P Require Ipc Runners.

(** ** Start-up: [cli.rs] *)

Record RunnerOptions := mkOptions {
  sid : string; cwd : string; worktree_path : option string; ro_socket_path : option string;
  cols : option N; rows : option N; claude_args : list string
}.

(** [take_value]: the next argument, unless it looks like a flag. *)
Definition starts_dash (v : string) : bool := starts_with "-" v && negb (String.eqb v "-").
Definition take_value (it : list string) (fl : string) : result (string * list string) string :=
  match it with
  | v :: it => if starts_dash v then Err ("missing value for " +:+ fl) else Ok (v, it)
  | [] => Err ("missing value for " +:+ fl)
  end.

Definition parse_dim (s : string) (dflt : N) : N :=
  let n := default dflt (parse_uint u32_max (trim s)) in
  N.min (N.max n 1) u16_max.

(** The variables of the loop. *)
Record Parsed := mkParsed {
  p_sid : option string; p_cwd : option string; p_worktree_path : option string; p_socket_path : option string;
  p_cols : option N; p_rows : option N; p_claude_args : list string
}.
Definition parsed_none : Parsed := mkParsed None None None None None None [].

Fixpoint parse_args_loop (fuel : nat) (it : list string) (p : Parsed) : result Parsed string :=
  let '(mkParsed s c w k co ro args) := p in
  match fuel, it with
  | S fuel, arg :: it =>
      if String.eqb arg "--" then Ok (mkParsed s c w k co ro (args ++ it))
      else if String.eqb arg "--sid" then
        let? x := take_value it "--sid" in parse_args_loop fuel x.2 (mkParsed (Some x.1) c w k co ro args)
      else if String.eqb arg "--cwd" then
        let? x := take_value it "--cwd" in parse_args_loop fuel x.2 (mkParsed s (Some x.1) w k co ro args)
      else if String.eqb arg "--worktree-path" then
        let? x := take_value it "--worktree-path" in parse_args_loop fuel x.2 (mkParsed s c (Some x.1) k co ro args)
      else if String.eqb arg "--socket-path" then
        let? x := take_value it "--socket-path" in parse_args_loop fuel x.2 (mkParsed s c w (Some x.1) co ro args)
      else if String.eqb arg "--cols" then
        let? x := take_value it "--cols" in parse_args_loop fuel x.2 (mkParsed s c w k (Some (parse_dim x.1 120)) ro args)
      else if String.eqb arg "--rows" then
        let? x := take_value it "--rows" in parse_args_loop fuel x.2 (mkParsed s c w k co (Some (parse_dim x.1 40)) args)
      else parse_args_loop fuel it (mkParsed s c w k co ro (args ++ [arg]))
  | _, _ => Ok p
  end.

(** [now] is the clock in milliseconds, [current_dir] the answer of the system. *)
Definition parse_args (now : N) (current_dir : option string) (args : list string) : result RunnerOptions string :=
  let? p := parse_args_loop (length args) args parsed_none in
  let sid := default ("session-" +:+ print_dec now) (p_sid p) in
  match match p_cwd p with Some c => Some c | None => current_dir end with
  | None => Err "could not determine cwd"
  | Some cwd => Ok (mkOptions sid cwd (p_worktree_path p) (p_socket_path p) (p_cols p) (p_rows p) (p_claude_args p))
  end.

(** ** Sockets: [socket.rs] *)

(** The runner's own copy of the directory's resolution. *)
Definition create_dir_all_mode_0700 (fs : FsEnv) (dir : string) : result unit string :=
  if negb (create_dir fs dir) then Err dir else if negb (set_mode_0700 fs dir) then Err dir else Ok tt.

Definition resolve_runtime_dir (fs : FsEnv) : result string string :=
  let by_uid :=
    let systemd_dir := "/run/user/" +:+ print_dec (uid fs) in
    if is_dir fs systemd_dir then Ok systemd_dir
    else
      let runtime_dir := "/tmp/teleprompter-" +:+ print_dec (uid fs) in
      let? _ := create_dir_all_mode_0700 fs runtime_dir in Ok runtime_dir in
  match xdg_runtime_dir fs with
  | Some xdg => if decide (xdg = "") then by_uid
                else if create_dir fs xdg then Ok xdg else Err xdg
  | None => by_uid
  end.

Definition daemon_socket_path (fs : FsEnv) : result string string :=
  let? dir := resolve_runtime_dir fs in Ok (path_join dir "daemon.sock").

(** [s.contains("..")] *)
Fixpoint has_dots (s : string) : bool :=
  match s with
  | String a r => match r with
                  | String b _ => bool_decide (a = "."%char) && bool_decide (b = "."%char) || has_dots r
                  | EmptyString => false
                  end
  | EmptyString => false
  end.

Definition hook_socket_path (fs : FsEnv) (sid : string) : result string string :=
  if str_contains "/" sid || str_contains "\" sid || has_dots sid
  then Err ("invalid sid '" +:+ sid +:+ "': must not contain a path separator or '..'")
  else let? dir := resolve_runtime_dir fs in Ok (path_join dir ("hook-" +:+ sid +:+ ".sock")).

(** ** The launch command: [user_config.rs] *)

Definition dq : string := String (ascii_of_N 34) "".

Inductive ClaudeCommandSource := DefaultSource | EnvOverride | Config.

(** [std::fs::read_to_string]: the text, absent, or another error. *)
Inductive ReadFile := Contents (s : string) | NotFound | ReadError (e : string).

Definition config_file_path (xdg_config_home home : option string) : string :=
  path_join (path_join (default (path_join (default "/tmp" home) ".config") xdg_config_home) "teleprompter") "config.json".

Definition default_command : list string := ["claude"].

Fixpoint config_tokens (path : string) (i : N) (arr : list Value) : result (list string) string :=
  match arr with
  | [] => Ok []
  | v :: arr =>
      match as_str v with
      | None => Err (path +:+ ": " +:+ dq +:+ "claudeCommand" +:+ dq +:+ "[" +:+ print_dec i +:+ "] must be a string")
      | Some s => let? rest := config_tokens path (i + 1) arr in Ok (s :: rest)
      end
  end.

Definition resolve_claude_command (from_str : string → result Value string) (env_override : option string)
    (path : string) (file : ReadFile) : result (list string * ClaudeCommandSource) string :=
  match env_override with
  | Some bin => Ok ([bin], EnvOverride)
  | None =>
      match file with
      | NotFound => Ok (default_command, DefaultSource)
      | ReadError e => Err ("failed to read " +:+ path +:+ ": " +:+ e)
      | Contents contents =>
          match from_str contents with
          | Err e => Err ("malformed JSON in " +:+ path +:+ ": " +:+ e)
          | Ok value =>
              match as_object value with
              | None => Err (path +:+ " must contain a JSON object")
              | Some obj =>
                  match get obj "claudeCommand" with
                  | None => Ok (default_command, DefaultSource)
                  | Some raw =>
                      match as_array raw with
                      | None => Err (path +:+ ": " +:+ dq +:+ "claudeCommand" +:+ dq +:+ " must be an array of strings")
                      | Some [] => Err (path +:+ ": " +:+ dq +:+ "claudeCommand" +:+ dq +:+ " must not be empty")
                      | Some arr =>
                          let? tokens := config_tokens path 0 arr in
                          if bool_decide (head tokens = Some "")
                          then Err (path +:+ ": " +:+ dq +:+ "claudeCommand" +:+ dq +:+ "[0] (the binary) must not be empty")
                          else Ok (tokens, Config)
                      end
                  end
              end
          end
      end
  end.

(** ** Hook events: [settings.rs], [hooks.rs] *)

Definition HOOK_EVENTS : list string :=
  ["SessionStart"; "SessionEnd"; "UserPromptSubmit"; "Stop"; "StopFailure"; "PreToolUse"; "PostToolUse";
   "PostToolUseFailure"; "PermissionRequest"; "Notification"; "SubagentStart"; "SubagentStop"; "PreCompact";
   "PostCompact"; "Elicitation"; "ElicitationResult"].

Definition is_hook_event (name : string) : bool := existsb (String.eqb name) HOOK_EVENTS.

Definition parse_hook_event (raw : Value) : option Value :=
  let?o obj := as_object raw in
  let?o name := get obj "hook_event_name" ≫= as_str in
  if negb (is_hook_event name) then None
  else
    let?o _ := get obj "session_id" ≫= as_str in
    let?o _ := get obj "cwd" ≫= as_str in
    Some raw.

Definition MAX_HOOK_BUF_BYTES : nat := 1024 * 1024.

(** One hook's connection: what each read returned until it ended (an empty read, an
    error, or the list's end); the event it forwards. *)
Fixpoint handle_conn (from_slice : bytes → option Value) (buf : bytes) (chunks : list bytes) : option Value :=
  match chunks with
  | [] => None
  | chunk :: chunks =>
      if decide (chunk = []) then None
      else
        let buf := buf ++ chunk in
        if decide (MAX_HOOK_BUF_BYTES < length buf) then None
        else match from_slice buf with
             | Some value => parse_hook_event value
             | None => handle_conn from_slice buf chunks
             end
  end.

(** [script.replace('\'', "'\\''")] *)
Fixpoint escape_quotes (s : string) : string :=
  match s with
  | String c r => if decide (c = "'"%char) then "'\''" +:+ escape_quotes r else String c (escape_quotes r)
  | EmptyString => EmptyString
  end.

Section settings.
Context (to_string : Value → string) (from_str : string → option Value).

Definition hook_script (hook_socket_path : string) : string :=
  "const d=await Bun.stdin.text();const s=await Bun.connect({unix:" +:+ to_string (Str hook_socket_path)
  +:+ ",socket:{open(s){s.write(d);s.end()},data(){},error(){}}});".

Definition capture_hook_command (hook_socket_path : string) : string :=
  "bun -e '" +:+ escape_quotes (hook_script hook_socket_path) +:+ "'".

Definition tp_hook_entry (command : string) : Value :=
  Object [("hooks", Array [Object [("command", Str command); ("timeout", Num (PosInt 10)); ("type", Str "command")]]);
          ("matcher", Str "")].

Definition settings_path (cwd : string) : string := path_join (path_join cwd ".claude") "settings.local.json".

(** The hooks of the project, known events first, junk dropped. *)
Definition sanitized_hooks (raw_hooks : Map) : Map :=
  let known := foldl (λ hooks event,
    map_insert hooks event (Array match get raw_hooks event with Some (Array a) => a | _ => [] end)) [] HOOK_EVENTS in
  foldl (λ hooks kv,
    if negb (is_hook_event kv.1) && bool_decide (is_Some (as_array kv.2)) then map_insert hooks kv.1 kv.2 else hooks)
    known raw_hooks.

(** [read_to_string] answers for the file system. *)
Definition read_existing_settings (read_to_string : string → option string) (cwd : string) : option Map :=
  let?o text := read_to_string (settings_path cwd) in
  let?o parsed := from_str text in
  let?o obj := as_object parsed in
  let hooks := match get obj "hooks" ≫= as_object with Some raw_hooks => sanitized_hooks raw_hooks | None => [] end in
  Some (map_insert obj "hooks" (Object hooks)).

Definition build_settings_map (read_to_string : string → option string) (hook_socket_path : string) (cwd : option string) : Map :=
  let entry := tp_hook_entry (capture_hook_command hook_socket_path) in
  let existing := cwd ≫= read_existing_settings read_to_string in
  let existing_hooks := default [] (let?o e := existing in get e "hooks" ≫= as_object) in
  let hooks := foldl (λ hooks event,
    let entries := match get existing_hooks event with Some (Array a) => a | _ => [] end in
    map_insert hooks event (Array (entries ++ [entry]))) existing_hooks HOOK_EVENTS in
  map_insert (default [] existing) "hooks" (Object hooks).

Definition build_settings (read_to_string : string → option string) (hook_socket_path : string) (cwd : option string) : string :=
  to_string (Object (build_settings_map read_to_string hook_socket_path cwd)).
End settings.

(** ** Messages: [wire.rs], [collector.rs] *)

Record Hello := mkHello { h_sid : string; h_cwd : string; h_worktree_path : option string; h_pid : N }.
Inductive ByeReason := Signal | Exit.
Record Bye := mkBye { b_sid : string; b_exit_code : Z; b_pid : N; b_reason : ByeReason }.
Record RecMsg := mkRec {
  m_sid : string; m_kind : string; m_ts : f64; m_ns : option string; m_name : option string; m_payload : string
}.
Record IoRecord := mkIo { io_msg : RecMsg; io_binary : bytes }.

#[export] Instance ByeReason_eq_dec : EqDecision ByeReason.
Proof. solve_decision. Defined.

Definition ByeReason_to_str (r : ByeReason) : string := match r with Signal => "signal" | Exit => "exit" end.
Definition i32_value (z : Z) : Value := Num (if decide (0 ≤ z)%Z then PosInt (Z.to_N z) else NegInt z).

Definition Hello_fields (h : Hello) : Map :=
  [("t", Str "hello"); ("sid", Str (h_sid h)); ("cwd", Str (h_cwd h))]
  ++ opt_field "worktreePath" Str (h_worktree_path h) ++ [("pid", u64_value (h_pid h))].
Definition Bye_fields (b : Bye) : Map :=
  [("t", Str "bye"); ("sid", Str (b_sid b)); ("exitCode", i32_value (b_exit_code b)); ("pid", u64_value (b_pid b));
   ("reason", Str (ByeReason_to_str (b_reason b)))].
Definition RecMsg_fields (r : RecMsg) : Map :=
  [("t", Str "rec"); ("sid", Str (m_sid r)); ("kind", Str (m_kind r)); ("ts", f64_value (m_ts r))]
  ++ opt_field "ns" Str (m_ns r) ++ opt_field "name" Str (m_name r) ++ [("payload", Str (m_payload r))].

Definition io_record (sid : string) (data : bytes) (ts : f64) : IoRecord :=
  mkIo (mkRec sid "io" ts None None "") data.

Definition event_record {CC : CryptoCrates} (to_string : Value → string) (sid : string) (event : Value) (ts : f64) : option RecMsg :=
  let?o name := value_get event "hook_event_name" ≫= as_str in
  Some (mkRec sid "event" ts (Some "claude") (Some name) (b64std_encode (as_bytes (to_string event)))).

(** What [serde_json] reads back of an object it has written: the fields in key order. *)
Definition sort_map (o : Map) : Map := foldl (λ m kv, map_insert m kv.1 kv.2) [] o.

(** ** The messages as the daemon reads them *)

Definition ipc_reason (r : ByeReason) : Ipc.ByeReason := match r with Signal => Ipc.Signal | Exit => Ipc.Exit end.
Definition i32_as_f64 (z : Z) : f64 := if decide (0 ≤ z)%Z then u64_as_f64 (Z.to_N z) else i64_as_f64 z.

Lemma i32_number z : (Z.abs z ≤ 2 ^ 31)%Z → is_number (i32_value z) = Some (i32_as_f64 z).
Proof.
  intros H. unfold i32_value, i32_as_f64, is_number. case_decide; cbn [as_f64 mbind option_bind].
  - unfold u64_as_f64. rewrite Z2N.id by done. rewrite normalize_finite by lia. done.
  - unfold i64_as_f64. rewrite normalize_finite by lia. done.
Qed.

Ltac sorted_fields :=
  match goal with |- context [sort_map ?o] => let x := eval lazy in (sort_map o) in change (sort_map o) with x end.

Lemma hello_parses h : (0 < h_pid h)%N →
  Ipc.parse_ipc_message (Object (sort_map (Hello_fields h))) = Some (Ipc.Hello (h_sid h) (h_cwd h) (h_worktree_path h) None (h_pid h)).
Proof.
  intros H%(bool_decide_eq_true_2 _)%Ipc.positive_u64. destruct h as [s c [w|] p]; cbn [h_pid h_sid h_cwd h_worktree_path] in *;
    sorted_fields; change (Num (PosInt p)) with (u64_value p); cbn -[Proto.is_positive_int u64_value]; by rewrite H.
Qed.

Lemma bye_parses b : (0 < b_pid b)%N → (Z.abs (b_exit_code b) ≤ 2 ^ 31)%Z →
  Ipc.parse_ipc_message (Object (sort_map (Bye_fields b))) =
    Some (Ipc.Bye (b_sid b) (i32_as_f64 (b_exit_code b)) (Some (b_pid b)) (Some (ipc_reason (b_reason b)))).
Proof.
  intros H%(bool_decide_eq_true_2 _)%Ipc.positive_u64 Hz%i32_number. destruct b as [s z p r].
  cbn [b_sid b_exit_code b_pid b_reason] in *. unfold Bye_fields. cbn [b_sid b_exit_code b_pid b_reason].
  generalize dependent (i32_value z). intros v Hz. sorted_fields. change (Num (PosInt p)) with (u64_value p).
  cbn -[Proto.is_positive_int u64_value is_number i32_as_f64]. rewrite Hz. cbn -[Proto.is_positive_int u64_value i32_as_f64]. rewrite H.
  by destruct r.
Qed.

Lemma io_parses s data ts : f64_is_finite ts = true →
  Ipc.parse_ipc_message (Object (sort_map (RecMsg_fields (io_msg (io_record s data ts))))) = Some (Ipc.Rec s Ipc.Io ts None None "").
Proof.
  intros H%is_number_f64_value. unfold RecMsg_fields. cbn [io_msg io_record m_ts m_sid m_kind m_ns m_name m_payload].
  generalize dependent (f64_value ts). intros v Hv. sorted_fields. cbn -[is_number]. by rewrite Hv.
Qed.

Lemma event_parses {CC : CryptoCrates} to_string s event ts r : f64_is_finite ts = true →
  event_record to_string s event ts = Some r →
  ∃ name, value_get event "hook_event_name" = Some (Str name) ∧
  Ipc.parse_ipc_message (Object (sort_map (RecMsg_fields r))) =
    Some (Ipc.Rec s Ipc.Event ts (Some Ipc.NsClaude) (Some name) (b64std_encode (as_bytes (to_string event)))).
Proof.
  intros H%is_number_f64_value (name & (v & Hv & Hn)%bind_Some & [= <-])%bind_Some. destruct v; try done. injection Hn as ->.
  exists name. split; [done|]. unfold RecMsg_fields. cbn [m_ts m_sid m_kind m_ns m_name m_payload].
  generalize dependent (f64_value ts). generalize (b64std_encode (as_bytes (to_string event))). intros pl v Hv'. sorted_fields.
  cbn -[is_number]. by rewrite Hv'.
Qed.

(** ** The settings handed to claude *)

Lemma is_hook_event_spec k : is_hook_event k = true ↔ k ∈ HOOK_EVENTS.
Proof.
  unfold is_hook_event. rewrite existsb_exists. setoid_rewrite String.eqb_eq. setoid_rewrite <-list_elem_of_In. naive_solver.
Qed.

Lemma get_insert_all (f : string → Value) evs m k :
  get (foldl (λ h e, map_insert h e (f e)) m evs) k = if existsb (String.eqb k) evs then Some (f k) else get m k.
Proof.
  revert m. induction evs as [|e evs IH]; intros m; [done|]. cbn [foldl existsb]. rewrite IH, get_map_insert.
  rewrite (String.eqb_sym e k). destruct (String.eqb_spec k e) as [->|]; [|done]. by destruct (existsb _ _).
Qed.

Definition array_of (v : option Value) : option Value := match v with Some (Array a) => Some (Array a) | _ => None end.

Lemma get_unknown m raw k : NoDup raw.*1 →
  get (foldl (λ h kv, if negb (is_hook_event kv.1) && bool_decide (is_Some (as_array kv.2)) then map_insert h kv.1 kv.2 else h) m raw) k =
  if is_hook_event k then get m k else match array_of (get raw k) with Some a => Some a | None => get m k end.
Proof.
  revert m. induction raw as [|[k' v] raw IH]; intros m Hd.
  { by destruct (is_hook_event k). }
  cbn [fst fmap list_fmap] in Hd. apply NoDup_cons in Hd as [Hn Hd]. cbn [foldl fst snd]. rewrite IH by done.
  assert (∀ a, get raw k' = Some a → False) as Hk.
  { intros a Ha. apply Hn. clear -Ha. induction raw as [|[x y] raw IH]; [done|]. cbn in Ha. rewrite fmap_cons.
    destruct (String.eqb_spec x k') as [->|]; [left|right; by apply IH]. }
  cbn [get]. destruct (String.eqb_spec k' k) as [->|Hne].
  - destruct (get raw k) as [a|]; [by destruct (Hk a)|]. destruct (is_hook_event k); cbn [negb andb]; [done|].
    destruct v; cbn [as_array array_of]; try (rewrite bool_decide_eq_false_2; [done|by intros [? [=]]]).
    rewrite bool_decide_eq_true_2 by done. by rewrite get_map_insert, String.eqb_refl.
  - assert (get (if negb (is_hook_event k') && bool_decide (is_Some (as_array v)) then map_insert m k' v else m) k = get m k) as ->; [|done].
    destruct (_ && _); [|done]. rewrite get_map_insert. by apply String.eqb_neq in Hne as ->.
Qed.

Lemma get_sanitized raw k : NoDup raw.*1 →
  get (sanitized_hooks raw) k =
  if is_hook_event k then Some (Array match get raw k with Some (Array a) => a | _ => [] end) else array_of (get raw k).
Proof.
  intros Hd. unfold sanitized_hooks. rewrite get_unknown by done.
  pose proof (get_insert_all (λ event, Array match get raw event with Some (Array a) => a | _ => [] end) HOOK_EVENTS [] k) as H.
  unfold is_hook_event. destruct (existsb _ _); rewrite H; [done|]. by destruct (array_of _).
Qed.

(** The object in the project's settings file. *)
Definition project_settings (from_str : string → option Value) (read : string → option string) (cwd : option string) : option Map :=
  let?o c := cwd in let?o t := read (settings_path c) in let?o v := from_str t in as_object v.

Lemma existing_spec from_str read cwd :
  (cwd ≫= read_existing_settings from_str read) =
  (λ obj, map_insert obj "hooks" (Object match get obj "hooks" ≫= as_object with Some raw => sanitized_hooks raw | None => [] end))
    <$> project_settings from_str read cwd.
Proof.
  unfold project_settings, read_existing_settings. destruct cwd as [c|]; [|done]. cbn [mbind option_bind].
  destruct (read _) as [t|]; [|done]. cbn [mbind option_bind]. destruct (from_str t) as [v|]; [|done]. cbn [mbind option_bind].
  by destruct (as_object v).
Qed.

(** The project's hooks and its other settings survive: every known event keeps its own
    entries and gains teleprompter's as the last one, arrays under unknown events are
    carried over, and no other field is touched.  Without a readable file there is
    nothing else. *)
Theorem settings_merged (to_string : Value → string) from_str read sock cwd :
  let obj := default [] (project_settings from_str read cwd) in
  let raw := default [] (get obj "hooks" ≫= as_object) in
  let s := build_settings_map to_string from_str read sock cwd in
  NoDup raw.*1 →
  (∀ k, k ≠ "hooks" → get s k = get obj k) ∧
  ∃ hooks, get s "hooks" = Some (Object hooks) ∧
    ∀ k, get hooks k =
      if is_hook_event k
      then Some (Array (match get raw k with Some (Array a) => a | _ => [] end ++ [tp_hook_entry (capture_hook_command to_string sock)]))
      else array_of (get raw k).
Proof.
  intros obj raw s Hd. unfold s, build_settings_map. rewrite existing_spec. split.
  - intros k Hk. rewrite get_map_insert. apply not_eq_sym, String.eqb_neq in Hk. rewrite Hk. unfold obj.
    destruct (project_settings _ _ _) as [o|]; [|done]. cbn [fmap option_fmap option_map default from_option id]. by rewrite get_map_insert, Hk.
  - rewrite get_map_insert, String.eqb_refl. eexists. split; [done|]. intros k.
    set (eh := default [] (let?o e := _ in get e "hooks" ≫= as_object)).
    assert (eh = sanitized_hooks raw ∨ eh = [] ∧ raw = []) as He.
    { unfold eh, raw, obj. destruct (project_settings _ _ _) as [o|]; [|by right].
      cbn [fmap option_fmap option_map mbind option_bind default from_option id]. rewrite get_map_insert, String.eqb_refl.
      cbn [mbind option_bind as_object default from_option id]. by destruct (get o "hooks" ≫= as_object); [left|right]. }
    rewrite (get_insert_all (λ event, Array (match get eh event with Some (Array a) => a | _ => [] end ++ [_]))).
    destruct (is_hook_event k) eqn:Ek; unfold is_hook_event in Ek; rewrite Ek; destruct He as [->|[-> ->]]; try done;
      rewrite get_sanitized by done; unfold is_hook_event; rewrite Ek; [done|]. by destruct (array_of _).
Qed.

(** ** The hook's command line *)

(** Word splitting of a POSIX shell, for the characters that mean themselves outside
    quotes: [None] for anything a shell would expand, and for an open quote. *)
Definition is_plain_char (c : ascii) : bool :=
  is_ascii_alphanumeric c || existsb (Ascii.eqb c) ["-"; "_"; "."; "/"; ":"; "="; ","; "+"; "@"; "%"]%char.

Fixpoint sh_words (quoted : bool) (word : option string) (s : string) : option (list string) :=
  match s with
  | EmptyString => if quoted then None else Some (option_list word)
  | String c r =>
      if quoted then
        if Ascii.eqb c "'" then sh_words false word r
        else sh_words true (Some (default "" word +:+ String c "")) r
      else if Ascii.eqb c "'" then sh_words true (Some (default "" word)) r
      else if Ascii.eqb c "\" then
        match r with
        | String d r' => if Ascii.eqb d (ascii_of_N 10) then sh_words false word r'
                         else sh_words false (Some (default "" word +:+ String d "")) r'
        | EmptyString => None
        end
      else if Ascii.eqb c " " then (λ ws, option_list word ++ ws) <$> sh_words false None r
      else if is_plain_char c then sh_words false (Some (default "" word +:+ String c "")) r
      else None
  end.

Lemma sh_escaped s w : sh_words true (Some w) (escape_quotes s +:+ "'") = Some [w +:+ s].
Proof.
  revert w. induction s as [|c s IH]; intros w.
  - cbn. by rewrite str_append_nil_r.
  - cbn [escape_quotes]. case_decide as Hc.
    + subst c. rewrite str_append_assoc. change ("'\''" +:+ ?x) with (String "'" (String "\" (String "'" (String "'" x)))).
      transitivity (sh_words true (Some (w +:+ "'")) (escape_quotes s +:+ "'")); [reflexivity|]. rewrite IH. by rewrite str_append_assoc.
    + rewrite str_append_cons. cbn [sh_words]. rewrite (proj2 (Ascii.eqb_neq _ _) Hc). cbn [default from_option id].
      rewrite IH. by rewrite str_append_assoc.
Qed.

(** Whatever the socket's path holds, quotes included, a shell hands [bun] the script
    whole as one argument. *)
Theorem hook_command_is_one_word to_string path :
  sh_words false None (capture_hook_command to_string path) = Some ["bun"; "-e"; hook_script to_string path].
Proof.
  unfold capture_hook_command. change ("bun -e '" +:+ ?x) with (String "b" (String "u" (String "n" (String " " (String "-" (String "e" (String " " (String "'" x)))))))).
  generalize (hook_script to_string path). intros s. cbn -[escape_quotes]. by rewrite sh_escaped.
Qed.

(** ** A hook's connection *)

Section hooks.
Context (from_slice : bytes → option Value).

Lemma handle_conn_gen text v buf chunks : text ≠ [] → buf ++ concat chunks = text → Forall (λ c, c ≠ []) chunks → chunks ≠ [] →
  length text ≤ MAX_HOOK_BUF_BYTES → from_slice text = Some v → (∀ p, p `prefix_of` text → p ≠ text → from_slice p = None) →
  handle_conn from_slice buf chunks = parse_hook_event v.
Proof.
  intros Ht. revert buf. induction chunks as [|c chunks IH]; intros buf Hb Hc Hn Hl Hv Hp; [done|].
  apply Forall_cons in Hc as [Hc Hcs]. cbn [handle_conn]. rewrite decide_False by done. cbn [concat] in Hb.
  rewrite app_assoc in Hb. set (b := buf ++ c) in *.
  assert (b `prefix_of` text) as Hpre by (by exists (concat chunks)). pose proof (prefix_length _ _ Hpre).
  rewrite decide_False by lia. destruct (decide (b = text)) as [->|Hne]; [by rewrite Hv|].
  rewrite Hp by done. apply IH; try done. intros ->. cbn in Hb. rewrite app_nil_r in Hb. done.
Qed.

(** However the socket cuts it, one document of at most a mebibyte is judged once and
    whole: what is forwarded is the event it holds, or nothing when it is not one. *)
Theorem hook_event_forwarded text v chunks :
  concat chunks = text → Forall (λ c, c ≠ []) chunks → text ≠ [] → length text ≤ MAX_HOOK_BUF_BYTES →
  from_slice text = Some v → (∀ p, p `prefix_of` text → p ≠ text → from_slice p = None) →
  handle_conn from_slice [] chunks = parse_hook_event v.
Proof. intros Hc Hne Ht. apply handle_conn_gen; try done. by intros ->; rewrite <-Hc in Ht. Qed.

Lemma parse_hook_event_valid raw v : parse_hook_event raw = Some v →
  v = raw ∧ ∃ name s c, value_get v "hook_event_name" = Some (Str name) ∧ is_hook_event name = true ∧
    value_get v "session_id" = Some (Str s) ∧ value_get v "cwd" = Some (Str c).
Proof.
  assert (∀ o k s, get o k ≫= as_str = Some s → get o k = Some (Str s)) as Hs.
  { intros o k s (x & Hx & Hy)%bind_Some. destruct x; try done. by injection Hy as ->. }
  unfold parse_hook_event. intros (o & Ho & (n & Hn%Hs & H)%bind_Some)%bind_Some.
  destruct (is_hook_event n) eqn:En; [|done]. cbn [negb] in H. apply bind_Some in H as (s & Hss%Hs & (c & Hcc%Hs & [= <-])%bind_Some).
  split; [done|]. destruct raw; try done. injection Ho as ->. by exists n, s, c.
Qed.

(** What is forwarded came from at most a mebibyte and is a known event with a session
    and a directory, unchanged. *)
Lemma handle_conn_valid buf chunks v : handle_conn from_slice buf chunks = Some v →
  ∃ text, length text ≤ MAX_HOOK_BUF_BYTES ∧ from_slice text = Some v ∧ parse_hook_event v = Some v.
Proof.
  revert buf. induction chunks as [|c chunks IH]; intros buf; [done|]. cbn [handle_conn]. case_decide as Hc; [done|].
  case_decide as Hl; [done|]. destruct (from_slice (buf ++ c)) as [x|] eqn:Ex; [|apply IH]. intros H.
  pose proof (parse_hook_event_valid _ _ H) as [-> _]. exists (buf ++ c). split_and!; [lia|done|done].
Qed.
End hooks.

(** ** The arguments the supervisor writes *)

Definition value_ok (v : string) : bool := negb (starts_dash v).

Lemma take_value_ok v it fl : value_ok v = true → take_value (v :: it) fl = Ok (v, it).
Proof. unfold value_ok, take_value. by intros ->%negb_true_iff. Qed.

Lemma parse_dim_print n d : (1 ≤ n ≤ u16_max)%N → parse_dim (print_dec n) d = n.
Proof.
  intros Hn. unfold parse_dim. rewrite trim_graphic.
  - rewrite parse_print_dec by (unfold u16_max, u32_max in *; lia). cbn. lia.
  - pose proof (digits_print_dec n) as H. revert H. generalize (print_dec n). intros s. induction s as [|c s IH]; [done|].
    cbn. intros [Hc Hs]%andb_true_iff. rewrite IH, andb_true_r by done. unfold is_ascii_digit in Hc. unfold is_graphic.
    apply andb_true_iff in Hc as [H1%N.leb_le H2%N.leb_le]. apply andb_true_iff. split; [apply N.leb_le|apply N.ltb_lt]; lia.
Qed.

Lemma value_ok_digits n : value_ok (print_dec n) = true.
Proof.
  unfold value_ok, starts_dash. pose proof (digits_print_dec n) as H. destruct (print_dec n) as [|c s]; [done|].
  cbn [all_digits] in H. apply andb_true_iff in H as [H _]. cbn [starts_with]. by case_decide as Hd; [subst c|].
Qed.

Definition set_flag (name : string) (v : string) (p : Parsed) : Parsed :=
  let '(mkParsed s c w k co ro args) := p in
  if String.eqb name "--sid" then mkParsed (Some v) c w k co ro args
  else if String.eqb name "--cwd" then mkParsed s (Some v) w k co ro args
  else if String.eqb name "--worktree-path" then mkParsed s c (Some v) k co ro args
  else if String.eqb name "--socket-path" then mkParsed s c w (Some v) co ro args
  else if String.eqb name "--cols" then mkParsed s c w k (Some (parse_dim v 120)) ro args
  else if String.eqb name "--rows" then mkParsed s c w k co (Some (parse_dim v 40)) args
  else p.
Definition runner_flags : list string := ["--sid"; "--cwd"; "--worktree-path"; "--socket-path"; "--cols"; "--rows"].
Definition set_opt (name : string) (o : option string) (p : Parsed) : Parsed := match o with Some v => set_flag name v p | None => p end.

Lemma loop_flag name o n it p : name ∈ runner_flags → from_option value_ok true o = true → length (Runners.flag name o ++ it) ≤ n →
  ∃ n', length it ≤ n' ∧ parse_args_loop n (Runners.flag name o ++ it) p = parse_args_loop n' it (set_opt name o p).
Proof.
  intros Hin Ho Hn. destruct o as [v|]; [|by exists n]. destruct n as [|n]; [cbn in Hn; lia|].
  exists n. split; [cbn in Hn; lia|]. cbn in Ho. apply take_value_ok with (it := it) (fl := name) in Ho.
  destruct p as [s c w k co ro args].
  repeat (apply elem_of_cons in Hin as [->|Hin]; [cbn -[take_value parse_dim]; by rewrite Ho|]). by apply elem_of_nil in Hin.
Qed.

Ltac next_flag :=
  match goal with |- context [parse_args_loop ?n (Runners.flag ?name ?o ++ ?it) ?p] =>
    let n' := fresh "n" in let Hl := fresh "Hl" in let E := fresh "E" in
    destruct (loop_flag name o n it p) as (n' & Hl & E);
    [apply list_elem_of_In; cbn; tauto|try done|try done|rewrite E; clear E]
  end.

Lemma dims_ok o : from_option value_ok true (print_dec <$> o) = true.
Proof. destruct o as [n|]; [apply value_ok_digits|done]. Qed.

Lemma dim_kept o d : from_option (λ n, bool_decide (1 ≤ n ≤ u16_max)%N) true o = true →
  (match print_dec <$> o with Some v => Some (parse_dim v d) | None => None end) = o.
Proof. destruct o as [n|]; [|done]. cbn. intros H%bool_decide_eq_true_1. by rewrite parse_dim_print. Qed.

Lemma parse_runner_args now dir sid cwd (opts : Runners.SpawnRunnerOptions) :
  value_ok sid = true → value_ok cwd = true →
  from_option value_ok true (Runners.o_socket_path opts) = true → from_option value_ok true (Runners.o_worktree_path opts) = true →
  from_option (λ n, bool_decide (1 ≤ n ≤ u16_max)%N) true (Runners.o_cols opts) = true →
  from_option (λ n, bool_decide (1 ≤ n ≤ u16_max)%N) true (Runners.o_rows opts) = true →
  parse_args now dir (Runners.runner_args [] sid cwd opts) =
    Ok (mkOptions sid cwd (Runners.o_worktree_path opts) (Runners.o_socket_path opts) (Runners.o_cols opts) (Runners.o_rows opts)
          (default [] (Runners.o_claude_args opts))).
Proof.
  intros Hs Hc Hk Hw Hco Hro. unfold parse_args, Runners.runner_args. rewrite app_nil_l.
  set (tl := match Runners.o_claude_args opts with Some _ => _ | None => _ end).
  change (["--sid"; sid; "--cwd"; cwd] ++ ?r) with (Runners.flag "--sid" (Some sid) ++ Runners.flag "--cwd" (Some cwd) ++ r).
  next_flag. next_flag. next_flag. next_flag. next_flag; [apply dims_ok|]. next_flag; [apply dims_ok|].
  pose proof (dim_kept _ 120 Hco) as D1. pose proof (dim_kept _ 40 Hro) as D2.
  assert (∀ p n, length tl ≤ n → parse_args_loop n tl p = Ok (mkParsed (p_sid p) (p_cwd p) (p_worktree_path p) (p_socket_path p)
    (p_cols p) (p_rows p) (p_claude_args p ++ default [] (Runners.o_claude_args opts)))) as Htl.
  { intros [] n' Hn. unfold tl in *. destruct (Runners.o_claude_args opts) as [[|a l]|]; cbn [default from_option id]; rewrite ?app_nil_r;
      try (by destruct n'). destruct n'; [cbn in Hn; lia|]. done. }
  rewrite Htl by done. destruct opts as [k w co ro ca en]. cbn in *.
  destruct k, w, co as [co|], ro as [ro|]; cbn -[parse_dim] in *; rewrite ?D1, ?D2; by simplify_eq.
Qed.

(** The runner understands the arguments its supervisor wrote as the supervisor meant
    them, claude's own arguments included, provided no value looks like a flag. *)
Theorem supervisor_args now dir sid cwd (opts : Runners.SpawnRunnerOptions) :
  value_ok sid = true → value_ok cwd = true →
  from_option value_ok true (Runners.o_socket_path opts) = true → from_option value_ok true (Runners.o_worktree_path opts) = true →
  from_option (λ n, bool_decide (1 ≤ n ≤ u16_max)%N) true (Runners.o_cols opts) = true →
  from_option (λ n, bool_decide (1 ≤ n ≤ u16_max)%N) true (Runners.o_rows opts) = true →
  parse_args now dir (Runners.runner_args [] sid cwd opts) =
    Ok (mkOptions sid cwd (Runners.o_worktree_path opts) (Runners.o_socket_path opts) (Runners.o_cols opts) (Runners.o_rows opts)
          (default [] (Runners.o_claude_args opts))).
Proof. exact (parse_runner_args now dir sid cwd opts). Qed.

(** ** Where the sockets are *)

(** The runner's copy of the directory's resolution finds the daemon's socket. *)
Lemma sockets_agree fs : daemon_socket_path fs = socket_path fs.
Proof. reflexivity. Qed.

Lemma safe_sid_chars sid : is_safe_sid sid = true →
  str_contains "/" sid = false ∧ str_contains "\" sid = false ∧ has_dots sid = false.
Proof.
  unfold is_safe_sid. intros [_ H]%andb_true_iff.
  assert (∀ c s, is_sid_char c = false → forallb is_sid_char (as_bytes s) = true → str_contains c s = false) as Hno.
  { intros c s Hc. induction s as [|x s IH]; [done|]. cbn. intros [Hx Hs]%andb_true_iff.
    rewrite decide_False by (intros ->; congruence). by apply IH. }
  split_and!; [by apply Hno|by apply Hno|]. clear Hno. induction sid as [|a s IH]; [done|]. change (is_sid_char a && forallb is_sid_char (as_bytes s) = true) in H.
  apply andb_true_iff in H as [Ha Hs]. cbn [has_dots]. destruct s as [|b s]; [done|]. rewrite IH by exact Hs.
  rewrite bool_decide_eq_false_2; [done|]. by intros ->.
Qed.

(** A session id the daemon lets through always has a hook socket in the runtime
    directory. *)
Lemma safe_sid_hook_socket fs sid : is_safe_sid sid = true →
  hook_socket_path fs sid = (let? dir := resolve_runtime_dir fs in Ok (path_join dir ("hook-" +:+ sid +:+ ".sock"))).
Proof. intros (H1 & H2 & H3)%safe_sid_chars. unfold hook_socket_path. by rewrite H1, H2, H3. Qed.

(** ** The launch command *)

Lemma config_tokens_ok path i arr tokens : config_tokens path i arr = Ok tokens ↔ arr = map Str tokens.
Proof.
  revert i tokens. induction arr as [|v arr IH]; intros i tokens; cbn.
  { split; [by intros [= <-]|by destruct tokens]. }
  destruct v; cbn; try (split; [done|by destruct tokens]). split.
  - destruct (config_tokens path (i + 1) arr) as [rest|e] eqn:E; [|done]. cbn. intros [= <-]. apply IH in E as ->. done.
  - destruct tokens as [|t tokens]; [done|]. intros [= -> ->]. by rewrite (proj2 (IH (i + 1)%N tokens) eq_refl).
Qed.

(** Which command is launched: the override alone; else what the file says when it says
    something well-formed; the plain [claude] only when the file is absent or does not
    mention it.  Everything else is an error: a broken configuration never falls back. *)
Theorem claude_command_spec from_str env_override path file tokens src :
  resolve_claude_command from_str env_override path file = Ok (tokens, src) ↔
  match src with
  | EnvOverride => ∃ bin, env_override = Some bin ∧ tokens = [bin]
  | DefaultSource => env_override = None ∧ tokens = ["claude"] ∧
      (file = NotFound ∨ ∃ text obj, file = Contents text ∧ from_str text = Ok (Object obj) ∧ get obj "claudeCommand" = None)
  | Config => env_override = None ∧ (∃ text obj, file = Contents text ∧ from_str text = Ok (Object obj) ∧
      get obj "claudeCommand" = Some (Array (map Str tokens))) ∧ ∃ bin args, tokens = bin :: args ∧ bin ≠ ""
  end.
Proof.
  split.
  - unfold resolve_claude_command. destruct env_override as [bin|]; [intros [= <- <-]; by exists bin|].
    destruct file as [text| |e]; [|intros [= <- <-]; by split_and!; [..|left]|done].
    destruct (from_str text) as [v|e] eqn:Et; [|done]. destruct v as [| | | | |obj]; try done. cbn [as_object].
    destruct (get obj "claudeCommand") as [raw|] eqn:Eg; [|intros [= <- <-]; split_and!; [done..|right; by exists text, obj]].
    destruct raw as [| | | |arr|]; try done. cbn [as_array]. destruct arr as [|v0 arr]; [done|].
    destruct (config_tokens path 0 (v0 :: arr)) as [ts|e] eqn:Ec; [|done]. cbn [result_bind]. case_bool_decide as Hb; [done|].
    intros [= <- <-]. apply config_tokens_ok in Ec. rewrite Ec in Eg. destruct ts as [|bin args]; [done|].
    split_and!; [done|by exists text, obj|]. exists bin, args. split; [done|]. intros ->. by apply Hb.
  - destruct src.
    + intros (-> & -> & [->|(text & obj & -> & Et & Eg)]); [done|]. cbn. rewrite Et. cbn. by rewrite Eg.
    + by intros (bin & -> & ->).
    + intros (-> & (text & obj & -> & Et & Eg) & bin & args & -> & Hb). cbn -[config_tokens]. rewrite Et. cbn -[config_tokens]. rewrite Eg.
      cbn -[config_tokens]. rewrite (proj2 (config_tokens_ok path 0 (Str bin :: map Str args) (bin :: args)) eq_refl).
      cbn. rewrite bool_decide_eq_false_2; [done|]. by intros [= ->].
Qed.

Module Demo.
Definition to_string (v : Value) : string := match v with Str s => dq +:+ s +:+ dq | _ => "{}" end.
Definition user_hook : Value := Object [("command", Str "lint")].
(** A settings file with a hook of its own, an unknown event, junk and another field. *)
Definition project : Map :=
  [("hooks", Object [("Custom", Array [Null]); ("Junk", Bool true); ("Stop", Array [user_hook])]); ("model", Str "opus")].
Definition from_str (s : string) : option Value := if String.eqb s "project" then Some (Object project) else None.
Definition read (p : string) : option string := if String.eqb p "/w/.claude/settings.local.json" then Some "project" else None.
Definition entry : Value := tp_hook_entry (capture_hook_command to_string "/run/h.sock").

Lemma settings_merged_witness :
  let s := build_settings_map to_string from_str read "/run/h.sock" (Some "/w") in
  get s "model" = Some (Str "opus") ∧ get s "hooks" ≫= (λ h, value_get h "Stop") = Some (Array [user_hook; entry]).
Proof.
  cbv zeta. destruct (settings_merged to_string from_str read "/run/h.sock" (Some "/w")) as [H1 (hooks & H2 & H3)].
  - vm_compute. repeat constructor; rewrite list_elem_of_In; cbn; intuition discriminate.
  - split; [by rewrite H1|]. rewrite H2. cbn [mbind option_bind value_get]. by rewrite H3.
Defined.

(** A reader that knows one document. *)
Definition stop_event : Value := Object [("cwd", Str "/w"); ("hook_event_name", Str "Stop"); ("session_id", Str "a")].
Definition from_slice (b : bytes) : option Value := if decide (b = as_bytes "{stop}") then Some stop_event else None.

Lemma hook_event_forwarded_witness : handle_conn from_slice [] [as_bytes "{st"; as_bytes "op}"] = Some stop_event.
Proof.
  rewrite (hook_event_forwarded from_slice (as_bytes "{stop}") stop_event); try done.
  - repeat constructor; done.
  - apply Nat.leb_le. vm_compute. reflexivity.
  - intros p _ Hp. unfold from_slice. by rewrite decide_False.
Defined.

Definition opts : Runners.SpawnRunnerOptions :=
  Runners.mkSpawnOptions (Some "/run/d.sock") None (Some 80%N) None (Some ["--model"; "opus"]) None.

Lemma supervisor_args_witness :
  parse_args 0 None (Runners.runner_args [] "s1" "/w" opts) =
    Ok (mkOptions "s1" "/w" None (Some "/run/d.sock") (Some 80%N) None ["--model"; "opus"]).
Proof. apply (supervisor_args 0 None "s1" "/w" opts); vm_compute; reflexivity. Defined.

(** A session id the daemon accepts, whose runner refuses to start. *)
Example dashed_sid :
  is_safe_sid "-x" = true ∧ parse_args 0 None (Runners.runner_args [] "-x" "/w" opts) = Err "missing value for --sid".
Proof. split; vm_compute; reflexivity. Qed.
End Demo.
