(* ===== verification/Runner.v ===== *)
(** * Runner: one session's process.
    [tp-runner/src/runner.rs], [ipc.rs] and [pty.rs]: the loop that joins the daemon's
    socket, the hooks and the terminal, with the tasks and threads around it.  Each arm
    of the loop is one step, so is each turn of a task and each call of a thread; the
    loop takes any arm that is ready.  What the outside does (bytes on the socket, output
    of the child, its exit, hooks, a signal, the clock) comes with each event. *)
From stdpp Require Import base list numbers strings gmap.
From Stdlib Require Import Lia NArith ZArith Ascii.
From S2P Require Import Prelude Bytes Text Json Codec Crypto Paths RunnerParts.
From S2P Require Ipc IpcServer.

(** ** State *)

Inductive Inbound := Ack (seq : N) | Input (data : string) | Resize (cols rows : N).

Definition from_ipc (msg : Ipc.IpcMessage) : option Inbound :=
  match msg with
  | Ipc.Ack _ seq => Some (Ack seq)
  | Ipc.Input _ data => Some (Input data)
  | Ipc.Resize _ cols rows => Some (Resize cols rows)
  | _ => None
  end.

Definition OUTBOUND_CAPACITY : nat := 4096.
Definition HOOK_CAPACITY : nat := 1024.
Definition DATA_CAPACITY : nat := 1024.

(** What the runner sends. *)
Inductive Msg := MHello (h : Hello) | MRec (r : RecMsg) (binary : option bytes) | MBye (b : Bye).
Definition msg_fields (m : Msg) : Map :=
  match m with MHello h => Hello_fields h | MRec r _ => RecMsg_fields r | MBye b => Bye_fields b end.
Definition msg_binary (m : Msg) : option bytes := match m with MRec _ b => b | _ => None end.

Inductive Phase :=
| Running
| Draining (code : Z)                            (* in the exit arm, emptying the output queue *)
| Stopped (code : Z) (reason : ByeReason).

(** The writer task: waiting, writing a frame it took, or ended. *)
Inductive Writer := WIdle | WWriting (frame : bytes) | WEnded.

Record Runner := mkRunner {
  phase : Phase;
  (* the connection to the daemon *)
  out : list bytes; writer : Writer; wire : bytes;
  notified : bool;                               (* the [closed] future the loop is waiting on was woken *)
  reader : option (FrameDecoder * list DecodedFrame);   (* the reader task and the frames it has not looked at *)
  inbound : list Inbound;
  (* the hooks *)
  hook_q : list Value; hook_bound : bool;
  (* the terminal *)
  reading : bool;                                (* the reader thread runs *)
  data_q : list bytes;
  exited : option Z;                             (* reaped by the waiter thread *)
  posted : bool; exit_q : option Z;
  killed : bool;
  to_child : list bytes; size : N * N;
  (* history *)
  sent : list Msg; refused : bool; chunks : list bytes; lost : list bytes; impatient : bool
}.

Definition set_phase x r := mkRunner x (out r) (writer r) (wire r) (notified r) (reader r) (inbound r) (hook_q r) (hook_bound r)
  (reading r) (data_q r) (exited r) (posted r) (exit_q r) (killed r) (to_child r) (size r) (sent r) (refused r) (chunks r) (lost r) (impatient r).
Definition set_out o ms rf r := mkRunner (phase r) o (writer r) (wire r) (notified r) (reader r) (inbound r) (hook_q r) (hook_bound r)
  (reading r) (data_q r) (exited r) (posted r) (exit_q r) (killed r) (to_child r) (size r) ms rf (chunks r) (lost r) (impatient r).
Definition set_writer o w x r := mkRunner (phase r) o w x (notified r) (reader r) (inbound r) (hook_q r) (hook_bound r)
  (reading r) (data_q r) (exited r) (posted r) (exit_q r) (killed r) (to_child r) (size r) (sent r) (refused r) (chunks r) (lost r) (impatient r).
Definition set_notified x r := mkRunner (phase r) (out r) (writer r) (wire r) x (reader r) (inbound r) (hook_q r) (hook_bound r)
  (reading r) (data_q r) (exited r) (posted r) (exit_q r) (killed r) (to_child r) (size r) (sent r) (refused r) (chunks r) (lost r) (impatient r).
Definition set_reader x i r := mkRunner (phase r) (out r) (writer r) (wire r) (notified r) x i (hook_q r) (hook_bound r)
  (reading r) (data_q r) (exited r) (posted r) (exit_q r) (killed r) (to_child r) (size r) (sent r) (refused r) (chunks r) (lost r) (impatient r).
Definition set_hooks q b r := mkRunner (phase r) (out r) (writer r) (wire r) (notified r) (reader r) (inbound r) q b
  (reading r) (data_q r) (exited r) (posted r) (exit_q r) (killed r) (to_child r) (size r) (sent r) (refused r) (chunks r) (lost r) (impatient r).
Definition set_data q r := mkRunner (phase r) (out r) (writer r) (wire r) (notified r) (reader r) (inbound r) (hook_q r) (hook_bound r)
  (reading r) q (exited r) (posted r) (exit_q r) (killed r) (to_child r) (size r) (sent r) (refused r) (chunks r) (lost r) (impatient r).
Definition set_read b q cs ls r := mkRunner (phase r) (out r) (writer r) (wire r) (notified r) (reader r) (inbound r) (hook_q r) (hook_bound r)
  b q (exited r) (posted r) (exit_q r) (killed r) (to_child r) (size r) (sent r) (refused r) cs ls (impatient r).
Definition set_exit e p q i r := mkRunner (phase r) (out r) (writer r) (wire r) (notified r) (reader r) (inbound r) (hook_q r) (hook_bound r)
  (reading r) (data_q r) e p q (killed r) (to_child r) (size r) (sent r) (refused r) (chunks r) (lost r) i.
Definition set_killed k r := mkRunner (phase r) (out r) (writer r) (wire r) (notified r) (reader r) (inbound r) (hook_q r) (hook_bound r)
  (reading r) (data_q r) (exited r) (posted r) (exit_q r) k (to_child r) (size r) (sent r) (refused r) (chunks r) (lost r) (impatient r).
Definition set_child t z r := mkRunner (phase r) (out r) (writer r) (wire r) (notified r) (reader r) (inbound r) (hook_q r) (hook_bound r)
  (reading r) (data_q r) (exited r) (posted r) (exit_q r) (killed r) t z (sent r) (refused r) (chunks r) (lost r) (impatient r).

(** ** What happens *)

Inductive Event :=
| EvRead (chunk : bytes)                         (* the reader task's read; empty at the end *)
| EvForward                                      (* ... looks at its next frame *)
| EvTake                                         (* the writer task takes a frame *)
| EvWrite (failed : option nat)                  (* ... has written it, or failed after so many bytes *)
| EvHook (reads : list bytes)                    (* a hook connected and sent this *)
| EvPtyRead (chunk : bytes)                      (* the terminal's reader thread; empty at the end *)
| EvReap (code : Z)                              (* the waiter thread's [wait] returned *)
| EvPost (timeout : bool)                        (* ... and it forwards the code, done waiting for the reader *)
| EvInbound | EvHookArm (now : N) | EvDataArm (now : N) | EvExitArm | EvClosedArm | EvShutdown (code : Z)
| EvDrain (now : N).                             (* one [try_recv] of the exit arm *)

(** [now_ms] *)
Definition now_ms (ms : N) : f64 := u64_as_f64 ms.

Section runner.
Context {CC : CryptoCrates}.
Context (to_string : Value → string) (from_slice : bytes → option Value).
Context (opts : RunnerOptions) (pid : N).

Definition msg_frame (m : Msg) : DecodedFrame := mkFrame (as_bytes (to_string (Object (msg_fields m)))) (msg_binary m).

Definition writer_lives (r : Runner) : bool := match writer r with WEnded => false | _ => true end.

(** [IpcHandle::send].  The notification of a refusal reaches nobody: whoever sends is the
    loop, inside an arm. *)
Definition send (m : Msg) (r : Runner) : bool * Runner :=
  if writer_lives r && bool_decide (length (out r) < OUTBOUND_CAPACITY)
  then (true, set_out (out r ++ [enc (msg_frame m)]) (sent r ++ [m]) (refused r) r)
  else (false, set_out (out r) (sent r) true r).

(** [notify_waiters]: only a loop that is waiting is woken. *)
Definition wake (r : Runner) : Runner := match phase r with Running => set_notified true r | _ => r end.

(** After the loop: the bye, the kill, the hook's socket. *)
Definition stop (code : Z) (reason : ByeReason) (r : Runner) : Runner :=
  let r := (send (MBye (mkBye (sid opts) code pid reason)) r).2 in
  let r := match exited r with Some _ => r | None => set_killed true r end in
  set_phase (Stopped code reason) (set_hooks (hook_q r) false r).

(** An arm that does not leave the loop: the next turn waits on a new [closed] future. *)
Definition next_turn (r : Runner) : Runner := set_notified false r.

Definition handle_inbound (i : Inbound) (r : Runner) : Runner :=
  match i with
  | Ack _ => r
  | Input data => match b64std_decode data with Ok b => set_child (to_child r ++ [b]) (size r) r | Err _ => r end
  | Resize cols rows => set_child (to_child r) (cols mod 2 ^ 16, rows mod 2 ^ 16)%N r
  end.

Definition io_msg_of (chunk : bytes) (now : N) : Msg :=
  let rec := io_record (sid opts) chunk (now_ms now) in MRec (io_msg rec) (Some (io_binary rec)).

(** The reader task of [IpcClient::connect]. *)
Definition reader_read (chunk : bytes) (r : Runner) : option Runner :=
  match reader r with
  | Some (d, []) =>
      if decide (chunk = []) then Some (wake (set_reader None (inbound r) r))
      else match decode d chunk with
           | (Ok frames, d') => Some (set_reader (Some (d', frames)) (inbound r) r)
           | (Err _, _) => Some (wake (set_reader None (inbound r) r))
           end
  | _ => None
  end.

Definition reader_forward (r : Runner) : option Runner :=
  match reader r with
  | Some (d, f :: fs) =>
      match (from_slice (json f) ≫= Ipc.parse_ipc_message) ≫= from_ipc with
      | None => Some (set_reader (Some (d, fs)) (inbound r) r)
      | Some i => if decide (length (inbound r) < OUTBOUND_CAPACITY)
                  then Some (set_reader (Some (d, fs)) (inbound r ++ [i]) r) else None
      end
  | _ => None
  end.

(** Its writer task. *)
Definition writer_take (r : Runner) : option Runner :=
  match writer r, out r with
  | WIdle, f :: fs => Some (set_writer fs (WWriting f) (wire r) r)
  | _, _ => None
  end.

Definition writer_done (failed : option nat) (r : Runner) : option Runner :=
  match writer r with
  | WWriting f =>
      match failed with
      | None => Some (set_writer (out r) WIdle (wire r ++ f) r)
      | Some k => Some (wake (set_writer [] WEnded (wire r ++ take k f) r))
      end
  | _ => None
  end.

(** A connection of the hook receiver; its channel holds back what does not fit. *)
Definition hook_arrives (reads : list bytes) (r : Runner) : option Runner :=
  match handle_conn from_slice [] reads with
  | Some v => if decide (length (hook_q r) < HOOK_CAPACITY) then Some (set_hooks (hook_q r ++ [v]) (hook_bound r) r) else None
  | None => Some r
  end.

(** The threads of [Pty::spawn]. *)
Definition pty_read (chunk : bytes) (r : Runner) : option Runner :=
  if reading r then
    if decide (chunk = []) then Some (set_read false (data_q r) (chunks r) (lost r) r)
    else if decide (length (data_q r) < DATA_CAPACITY)
    then Some (set_read true (data_q r ++ [chunk]) (chunks r ++ [chunk]) (lost r) r)
    else Some (set_read true (data_q r) (chunks r ++ [chunk]) (lost r ++ [chunk]) r)
  else None.

Definition pty_reap (code : Z) (r : Runner) : option Runner :=
  match exited r with
  | None => Some (set_exit (Some code) (posted r) (exit_q r) (impatient r) r)
  | Some _ => None
  end.

Definition pty_post (timeout : bool) (r : Runner) : option Runner :=
  match exited r with
  | Some code =>
      if negb (posted r) && (negb (reading r) || timeout)
      then Some (set_exit (Some code) true (Some code) (reading r) r) else None
  | None => None
  end.

(** The arms of the [select!]. *)
Definition inbound_arm (r : Runner) : option Runner :=
  match phase r, inbound r, reader r with
  | Running, i :: rest, rd => Some (next_turn (handle_inbound i (set_reader rd rest r)))
  | Running, [], None => Some (next_turn r)
  | _, _, _ => None
  end.

Definition hook_arm (now : N) (r : Runner) : option Runner :=
  match phase r, hook_q r with
  | Running, v :: rest =>
      let r := set_hooks rest (hook_bound r) r in
      match event_record to_string (sid opts) v (now_ms now) with
      | Some rec => let '(ok, r) := send (MRec rec None) r in Some (if ok then next_turn r else stop (-1) Signal r)
      | None => Some (next_turn r)
      end
  | _, _ => None
  end.

Definition data_arm (now : N) (r : Runner) : option Runner :=
  match phase r, data_q r with
  | Running, chunk :: rest =>
      let '(ok, r) := send (io_msg_of chunk now) (set_data rest r) in Some (if ok then next_turn r else stop (-1) Signal r)
  | _, _ => None
  end.

Definition exit_arm (r : Runner) : option Runner :=
  match phase r, exit_q r with
  | Running, Some code => Some (set_phase (Draining code) r)
  | _, _ => None
  end.

Definition exit_drain (now : N) (r : Runner) : option Runner :=
  match phase r, data_q r with
  | Draining code, chunk :: rest =>
      let '(ok, r) := send (io_msg_of chunk now) (set_data rest r) in Some (if ok then r else stop code Exit r)
  | Draining code, [] => Some (stop code Exit r)
  | _, _ => None
  end.

Definition closed_arm (r : Runner) : option Runner :=
  match phase r with Running => if notified r then Some (stop (-1) Signal r) else None | _ => None end.

Definition shutdown_arm (code : Z) (r : Runner) : option Runner :=
  match phase r with
  | Running => if bool_decide (code = 130 ∨ code = 143)%Z then Some (stop code Signal r) else None
  | _ => None
  end.

Definition step (e : Event) (r : Runner) : option Runner :=
  match e with
  | EvRead chunk => reader_read chunk r
  | EvForward => reader_forward r
  | EvTake => writer_take r
  | EvWrite failed => writer_done failed r
  | EvHook reads => hook_arrives reads r
  | EvPtyRead chunk => pty_read chunk r
  | EvReap code => pty_reap code r
  | EvPost timeout => pty_post timeout r
  | EvInbound => inbound_arm r
  | EvHookArm now => hook_arm now r
  | EvDataArm now => data_arm now r
  | EvExitArm => exit_arm r
  | EvDrain now => exit_drain now r
  | EvClosedArm => closed_arm r
  | EvShutdown code => shutdown_arm code r
  end.

Fixpoint run (es : list Event) (r : Runner) : option Runner :=
  match es with [] => Some r | e :: es => let?o r := step e r in run es r end.
End runner.

(** ** Start-up *)

(** What the system answers before the loop. *)
Record StartEnv := mkStart {
  st_fs : FsEnv;
  st_connect : string → result unit string;
  st_bind : string → result unit string;          (* [HookReceiver::start] *)
  st_read : string → option string;               (* [read_to_string] of the project's settings *)
  st_override : option string;                    (* [TP_RUNNER_CLAUDE_BIN] *)
  st_config_path : string; st_config : ReadFile;
  st_spawn : list string → string → result unit string   (* the command and its directory *)
}.

Section start.
Context (to_string : Value → string) (from_str : string → option Value) (from_str_err : string → result Value string).
Context (env : StartEnv) (opts : RunnerOptions) (pid : N).

Definition hello : Hello := mkHello (sid opts) (cwd opts) (worktree_path opts) pid.

Definition started : Runner :=
  mkRunner Running [enc (msg_frame to_string (MHello hello))] WIdle [] false (Some (Codec.new, [])) [] [] true
    true [] None false None false [] (default 120%N (cols opts), default 40%N (rows opts)) [MHello hello] false [] [] false.

(** The command line of claude. *)
Definition launch_command (hook_path : string) : result (list string) string :=
  let? x := resolve_claude_command from_str_err (st_override env) (st_config_path env) (st_config env) in
  Ok (x.1 ++ ["--settings"; build_settings to_string from_str (st_read env) hook_path (Some (cwd opts))] ++ claude_args opts).

Definition start : result Runner string :=
  let? socket_path := match ro_socket_path opts with Some p => Ok p | None => daemon_socket_path (st_fs env) end in
  let? _ := st_connect env socket_path in
  let? hook_path := hook_socket_path (st_fs env) (sid opts) in
  let? _ := st_bind env hook_path in
  let? command := launch_command hook_path in
  let? _ := st_spawn env command (cwd opts) in
  Ok started.
End start.
