(* ===== verification/RunnerLaws.v ===== *)
(** * RunnerLaws: what a runner promises.
    Whatever order the tasks, threads and arms run in, the daemon is told one story: a
    hello, the records of what happened in order, one truthful bye; a clean exit loses no
    output; the child is never left behind; and what is written is what the daemon's
    handler is called with. *)
From stdpp Require Import base list numbers strings gmap.
From Stdlib Require Import Lia NArith ZArith Ascii.
From S2P Require Import Prelude Bytes Text Json Messages Codec Crypto Paths RunnerParts Runner.
From S2P Require Ipc IpcServer Runners.

Section laws.
Context {CC : CryptoCrates}.
Context (to_string : Value → string) (from_slice : bytes → option Value).
Context (opts : RunnerOptions) (pid : N).

Abbreviation step := (step to_string from_slice opts pid).
Abbreviation run := (run to_string from_slice opts pid).
Abbreviation send := (send to_string).
Abbreviation stop := (stop to_string opts pid).
Abbreviation msg_frame := (msg_frame to_string).
Abbreviation io_msg_of := (io_msg_of opts).

Definition stream (ms : list Msg) : bytes := concat ((λ m, enc (msg_frame m)) <$> ms).

#[local] Arguments stream : simpl never.

Lemma stream_snoc ms m : stream (ms ++ [m]) = stream ms ++ enc (msg_frame m).
Proof. unfold stream. by rewrite fmap_app, concat_app, fmap_cons, fmap_nil, concat_cons, app_nil_r. Qed.

(** The data of the io records. *)
Definition io_data (m : Msg) : option bytes := msg_binary m.
Definition output (ms : list Msg) : list bytes := omap io_data ms.

Lemma output_snoc ms m : output (ms ++ [m]) = output ms ++ option_list (io_data m).
Proof. unfold output. rewrite omap_app. cbn. by destruct (io_data m). Qed.

(** *** Sending *)

Lemma send_cases m r :
  send m r = (true, set_out (out r ++ [enc (msg_frame m)]) (sent r ++ [m]) (refused r) r) ∧ writer r ≠ WEnded ∨
  send m r = (false, set_out (out r) (sent r) true r).
Proof.
  unfold Runner.send. destruct (writer_lives r && _) eqn:E; [left|by right]. split; [done|].
  apply andb_true_iff in E as [E _]. unfold writer_lives in E. by destruct (writer r).
Qed.

(** *** The wire *)

Definition wire_ok (r : Runner) : Prop :=
  match writer r with
  | WIdle => wire r ++ concat (out r) = stream (sent r)
  | WWriting f => wire r ++ f ++ concat (out r) = stream (sent r)
  | WEnded => wire r `prefix_of` stream (sent r)
  end.

Lemma send_wire m r : wire_ok r → wire_ok (send m r).2.
Proof.
  intros H. destruct (send_cases m r) as [[-> Hw]| ->]; [|exact H]. unfold wire_ok in *. cbn [writer wire out sent set_out snd]. rewrite stream_snoc.
  destruct (writer r); [..|done]; rewrite concat_app, concat_cons, app_nil_r, <-H; by rewrite <-!app_assoc.
Qed.

Lemma stop_wire code reason r : wire_ok r → wire_ok (stop code reason r).
Proof.
  intros H%(send_wire (MBye (mkBye (sid opts) code pid reason))). unfold Runner.stop.
  destruct (send _ r) as [b r']. cbn in *. by destruct (exited r').
Qed.

Lemma wire_same r r' : writer r' = writer r → wire r' = wire r → out r' = out r → sent r' = sent r → wire_ok r → wire_ok r'.
Proof. unfold wire_ok. by intros -> -> -> ->. Qed.

Lemma wake_fields r : wake r = r ∨ wake r = set_notified true r.
Proof. unfold wake. destruct (phase r); auto. Qed.

Lemma inbound_fields i r : handle_inbound i r = r ∨ ∃ t z, handle_inbound i r = set_child t z r.
Proof. destruct i; cbn; [auto|destruct (b64std_decode data); eauto|eauto]. Qed.

Ltac open_step H := unfold Runner.step, reader_read, reader_forward, writer_take, writer_done, hook_arrives, pty_read, pty_reap, pty_post, inbound_arm, hook_arm, data_arm, exit_arm, exit_drain, closed_arm, shutdown_arm in H.
Ltac open_run := cbn [Runner.run]; unfold Runner.step, reader_read, reader_forward, writer_take, writer_done, hook_arrives, pty_read, pty_reap, pty_post, inbound_arm, hook_arm, data_arm, exit_arm, exit_drain, closed_arm, shutdown_arm.

Ltac split_step H :=
  repeat (case_match; try discriminate H); try (injection H as H); subst.

Lemma step_wire e r r' : step e r = Some r' → wire_ok r → wire_ok r'.
Proof.
  intros H W. destruct e; open_step H.
  - (* EvRead *)
    destruct (reader r) as [[d [|]]|]; try done.
    assert (∀ x, wire_ok (wake (set_reader None (inbound r) r)) ∧ wire_ok (set_reader x (inbound r) r)) as HW.
    { intros x. split; [destruct (wake_fields (set_reader None (inbound r) r)) as [-> | ->]|]; exact W. }
    split_step H; by apply (HW None) || (apply HW).
  - split_step H; exact W.
  - destruct (writer r) eqn:Ew; try done. destruct (out r) as [|f fs] eqn:Eo; [done|]. injection H as <-.
    unfold wire_ok in *. rewrite Ew, Eo in W. cbn in *. done.
  - destruct (writer r) as [|f|] eqn:Ew; try done. destruct failed as [k|]; injection H as <-; unfold wire_ok in W; rewrite Ew in W.
    + destruct (wake_fields (set_writer [] WEnded (wire r ++ take k f) r)) as [-> | ->]; unfold wire_ok; cbn; rewrite <-W;
        exists (drop k f ++ concat (out r)); rewrite <-!app_assoc; by rewrite (app_assoc (take k f)), take_drop.
    + unfold wire_ok. cbn. by rewrite <-app_assoc.
  - split_step H; exact W.
  - split_step H; exact W.
  - split_step H; exact W.
  - split_step H; exact W.
  - destruct (phase r); try done. destruct (inbound r) as [|i rest]; [destruct (reader r); [done|injection H as <-; exact W]|].
    injection H as <-. by destruct (inbound_fields i (set_reader (reader r) rest r)) as [-> | (t & z & ->)].
  - destruct (phase r); try done. destruct (hook_q r) as [|v rest]; [done|]. destruct (event_record _ _ _ _) as [rec|]; [|injection H as <-; exact W].
    pose proof (send_wire (MRec rec None) (set_hooks rest (hook_bound r) r) W) as Hs. destruct (send _ _) as [ok r1]. cbn in Hs.
    injection H as <-. destruct ok; [exact Hs|by apply stop_wire].
  - destruct (phase r); try done. destruct (data_q r) as [|c rest]; [done|].
    pose proof (send_wire (io_msg_of c now) (set_data rest r) W) as Hs. destruct (send _ _) as [ok r1]. cbn in Hs.
    injection H as <-. destruct ok; [exact Hs|by apply stop_wire].
  - split_step H; exact W.
  - split_step H. by apply stop_wire.
  - split_step H. by apply stop_wire.
  - destruct (phase r); try done. destruct (data_q r) as [|c rest]; [injection H as <-; by apply stop_wire|].
    pose proof (send_wire (io_msg_of c now) (set_data rest r) W) as Hs. destruct (send _ _) as [ok r1]. cbn in Hs.
    injection H as <-. destruct ok; [exact Hs|by apply stop_wire].
Qed.

(** *** The story *)

(** A clock below 2^53 milliseconds, a status as [wait] gives it. *)
Definition plausible (e : Event) : Prop :=
  match e with
  | EvHookArm now | EvDataArm now | EvDrain now => (now < 2 ^ 53)%N
  | EvReap code => (Z.abs code ≤ 2 ^ 31)%Z
  | _ => True
  end.

Definition made (m : Msg) : Prop :=
  ∃ now, (now < 2 ^ 53)%N ∧
  ((∃ chunk, chunk ≠ [] ∧ m = io_msg_of chunk now) ∨
   ∃ v rec, parse_hook_event v = Some v ∧ event_record to_string (sid opts) v (now_ms now) = Some rec ∧ m = MRec rec None).

Definition bye_of (code : Z) (reason : ByeReason) : Msg := MBye (mkBye (sid opts) code pid reason).

Record inv (h : Hello) (r : Runner) : Prop := {
  i_story : ∃ recs, Forall made recs ∧
    match phase r with
    | Stopped code reason => sent r = (MHello h :: recs) ++ [bye_of code reason] ∨ sent r = MHello h :: recs ∧ refused r = true
    | _ => sent r = MHello h :: recs ∧ refused r = false
    end;
  i_hooks : Forall (λ v, parse_hook_event v = Some v) (hook_q r);
  i_chunks : Forall (λ c, c ≠ []) (data_q r);
  i_posted : posted r = true → impatient r = false → reading r = false;
  i_exit_q : ∀ c, exit_q r = Some c → exited r = Some c ∧ posted r = true;
  i_code : ∀ c, exited r = Some c → (Z.abs c ≤ 2 ^ 31)%Z;
  i_phase : match phase r with
    | Running => True
    | Draining code | Stopped code Exit => exited r = Some code ∧ posted r = true
    | Stopped code Signal => code = (-1)%Z ∨ code = 130%Z ∨ code = 143%Z
    end;
  i_left : match phase r with Stopped _ _ => hook_bound r = false ∧ (killed r = true ∨ is_Some (exited r)) | _ => True end;
  i_output : match phase r with
    | Stopped _ reason => output (sent r) `sublist_of` chunks r ∧
        (reason = Exit → refused r = false → impatient r = false → lost r = [] → output (sent r) = chunks r)
    | _ => output (sent r) ++ data_q r `sublist_of` chunks r ∧ (lost r = [] → output (sent r) ++ data_q r = chunks r)
    end
}.

Lemma stop_fields code reason r :
  let r' := stop code reason r in
  phase r' = Stopped code reason ∧ hook_bound r' = false ∧ (killed r' = true ∨ is_Some (exited r')) ∧
  exited r' = exited r ∧ posted r' = posted r ∧ exit_q r' = exit_q r ∧ reading r' = reading r ∧ impatient r' = impatient r ∧
  chunks r' = chunks r ∧ lost r' = lost r ∧ data_q r' = data_q r ∧ hook_q r' = hook_q r ∧
  (sent r' = sent r ++ [bye_of code reason] ∧ refused r' = refused r ∨ sent r' = sent r ∧ refused r' = true).
Proof.
  cbv zeta. unfold Runner.stop. destruct (send_cases (bye_of code reason) r) as [[E _]|E]; unfold bye_of in *; rewrite E; cbn;
    destruct (exited r) eqn:Ex; cbn; rewrite ?Ex; split_and!; eauto.
Qed.

(** Leaving the loop from a state whose records so far are [recs]. *)
Lemma runner_inv_stop h recs code reason r :
  Forall made recs → sent r = MHello h :: recs →
  Forall (λ v, parse_hook_event v = Some v) (hook_q r) → Forall (λ c, c ≠ []) (data_q r) →
  (posted r = true → impatient r = false → reading r = false) → (∀ c, exit_q r = Some c → exited r = Some c ∧ posted r = true) →
  (∀ c, exited r = Some c → (Z.abs c ≤ 2 ^ 31)%Z) →
  match reason with Exit => exited r = Some code ∧ posted r = true | Signal => code = (-1)%Z ∨ code = 130%Z ∨ code = 143%Z end →
  output (sent r) `sublist_of` chunks r →
  (reason = Exit → refused r = false → impatient r = false → lost r = [] → output (sent r) = chunks r) →
  inv h (stop code reason r).
Proof.
  intros Hm Hs Hh Hc Hp Hq Hz Hr Ho1 Ho2. destruct (stop_fields code reason r) as (F1 & F2 & F3 & F4 & F5 & F6 & F7 & F8 & F9 & F10 & F11 & F12 & F13).
  split; rewrite ?F1, ?F4, ?F5, ?F6, ?F7, ?F8, ?F9, ?F10, ?F11, ?F12; try done.
  - exists recs. split; [done|]. destruct F13 as [[-> ->]|[-> ->]]; rewrite Hs; auto.
  - split; [done|]. by rewrite F4 in F3.
  - destruct F13 as [[-> ->]|[-> ->]]; [|by split].
    rewrite output_snoc. cbn. rewrite app_nil_r. by split.
Qed.

Ltac unchanged I := destruct I as [S H C P Q Z F L O]; split; try assumption.

Lemma inv_wake h r : inv h r → inv h (wake r).
Proof. intros I. destruct (wake_fields r) as [-> | ->]; [done|]. by unchanged I. Qed.

(** An io record is sent from the queue's head. *)
Lemma inv_send_io h chunk rest now r : (now < 2 ^ 53)%N → inv h r → data_q r = chunk :: rest →
  match phase r with Stopped _ _ => False | _ => True end →
  let '(ok, r') := send (io_msg_of chunk now) (set_data rest r) in
  phase r' = phase r ∧ (if ok then inv h r' else ∀ code reason,
    match reason with Exit => exited r' = Some code ∧ posted r' = true | Signal => code = (-1)%Z ∨ code = 130%Z ∨ code = 143%Z end →
    inv h (stop code reason r')).
Proof.
  intros Hn I Hd Hp. destruct I as [(recs & Hm & S) H C P Q Z F L O].
  assert (sent r = MHello h :: recs ∧ refused r = false) as [Hs Hr] by (by destruct (phase r)).
  assert (output (sent r) ++ data_q r `sublist_of` chunks r ∧ (lost r = [] → output (sent r) ++ data_q r = chunks r)) as [O1 O2] by (by destruct (phase r)).
  rewrite Hd in O1, O2, C. apply Forall_cons in C as [Hc C].
  destruct (send_cases (io_msg_of chunk now) (set_data rest r)) as [[-> _]| ->]; cbn [phase set_out set_data]; (split; [done|]).
  - assert (Forall made (recs ++ [io_msg_of chunk now])) as Hm'.
    { apply Forall_app. split; [done|]. constructor; [|done]. exists now. split; [done|]. left. by exists chunk. }
    assert (sent r ++ [io_msg_of chunk now] = MHello h :: recs ++ [io_msg_of chunk now]) as Hs' by (by rewrite Hs).
    split; cbn [set_out set_data phase sent refused hook_q data_q posted impatient reading exit_q exited hook_bound killed chunks lost]; try done.
    + exists (recs ++ [io_msg_of chunk now]). split; [done|]. by destruct (phase r).
    + rewrite output_snoc. cbn [io_data io_msg_of msg_binary option_list io_record io_binary Runner.io_msg_of].
      rewrite <-app_assoc. by destruct (phase r).
  - intros code reason Hcr. apply (runner_inv_stop h recs); cbn [set_out set_data sent refused hook_q data_q posted impatient reading exit_q exited chunks lost]; try done.
    etrans; [|exact O1]. apply sublist_inserts_r. done.
Qed.

Lemma inv_send_event h v rest now rec r : (now < 2 ^ 53)%N → inv h r → hook_q r = v :: rest → phase r = Running →
  event_record to_string (sid opts) v (now_ms now) = Some rec →
  let '(ok, r') := send (MRec rec None) (set_hooks rest (hook_bound r) r) in
  if ok then inv h r' else ∀ code, (code = -1 ∨ code = 130 ∨ code = 143)%Z → inv h (stop code Signal r').
Proof.
  intros Hn I Hd Hp He. destruct I as [(recs & Hm & S) H C P Q Z F L O]. rewrite Hp in S, O. destruct S as [Hs Hr], O as [O1 O2].
  rewrite Hd in H. apply Forall_cons in H as [Hv H].
  destruct (send_cases (MRec rec None) (set_hooks rest (hook_bound r) r)) as [[-> _]| ->].
  - split; cbn [set_out set_hooks phase sent refused hook_q data_q posted impatient reading exit_q exited hook_bound killed chunks lost];
      rewrite ?Hp; try done.
    + exists (recs ++ [MRec rec None]). split; [|by rewrite Hs]. apply Forall_app. split; [done|]. constructor; [|done].
      exists now. split; [done|]. right. by exists v, rec.
    + rewrite output_snoc. cbn [io_data msg_binary option_list]. by rewrite app_nil_r.
  - intros code Hcr. apply (runner_inv_stop h recs); cbn [set_out set_hooks sent refused hook_q data_q posted impatient reading exit_q exited chunks lost]; try done.
    etrans; [|exact O1]. by apply sublist_inserts_r.
Qed.

Lemma inv_turn h r : inv h r → inv h (next_turn r).
Proof. intros I. by unchanged I. Qed.

(** Leaving the loop before the child's exit. *)
Lemma inv_signal h code r : inv h r → phase r = Running → (code = -1 ∨ code = 130 ∨ code = 143)%Z → inv h (stop code Signal r).
Proof.
  intros [(recs & Hm & S) H C P Q Z F L O] Hp Hc. rewrite Hp in S, O. destruct S as [Hs Hr], O as [O1 O2].
  apply (runner_inv_stop h recs); try done. etrans; [|exact O1]. by apply sublist_inserts_r.
Qed.

Definition of_terminal (e : Event) : Prop := match e with EvPtyRead _ | EvReap _ | EvPost _ => True | _ => False end.
Definition of_tasks (e : Event) : Prop := match e with EvRead _ | EvForward | EvTake | EvWrite _ | EvHook _ => True | _ => False end.

Lemma inv_tasks h e r r' : of_tasks e → plausible e → step e r = Some r' → inv h r → inv h r'.
Proof.
  intros Hof Hpl Hst I. destruct e; try destruct Hof; open_step Hst; cbn [plausible] in Hpl.
  - destruct (reader r) as [[d [|]]|]; try done. case_decide as Hc; [injection Hst as <-; apply inv_wake; by unchanged I|].
    destruct (decode d chunk) as [[fs|e] d']; injection Hst as <-; [by unchanged I|]. apply inv_wake. by unchanged I.
  - destruct (reader r) as [[d [|f fs]]|]; try done. destruct (_ ≫= from_ipc); [case_decide as Hc; [|done]|]; injection Hst as <-; by unchanged I.
  - destruct (writer r); try done. destruct (out r); [done|]. injection Hst as <-. by unchanged I.
  - destruct (writer r); try done. destruct failed; injection Hst as <-; [apply inv_wake|]; by unchanged I.
  - destruct (handle_conn _ _ _) as [v|] eqn:E; [|by injection Hst as <-]. case_decide as Hc; [|done]. injection Hst as <-.
    unchanged I. cbn. apply Forall_app. split; [done|]. constructor; [|done]. by apply handle_conn_valid in E as (_ & _ & _ & E).
Qed.

Lemma inv_terminal h e r r' : of_terminal e → plausible e → step e r = Some r' → inv h r → inv h r'.
Proof.
  intros Hof Hpl Hst I. destruct e; try destruct Hof; open_step Hst; cbn [plausible] in Hpl.
  - destruct (reading r) eqn:Er; [|done]. assert (posted r = true → impatient r = true) as Himp.
    { intros Hpo. destruct (impatient r) eqn:Ei; [done|]. pose proof (i_posted _ _ I Hpo Ei). congruence. }
    case_decide as Hc; [injection Hst as <-; by unchanged I|].
    case_decide as Hl; injection Hst as <-; unchanged I; cbn [set_read phase sent refused hook_q data_q posted impatient reading exit_q exited hook_bound killed chunks lost].
    + apply Forall_app. by split; [|constructor].
    + intros Hpo Hi. specialize (Himp Hpo). congruence.
    + destruct (phase r) as [|c|c re]; [| |].
      1,2: (destruct O as [O1 O2]; rewrite app_assoc; split; [by apply sublist_app|intros Hlo; by rewrite O2]).
      destruct O as [O1 O2]. split; [by apply sublist_inserts_r|]. intros -> Hr Hi. destruct F as [_ Hpo]. specialize (Himp Hpo). congruence.
    + intros Hpo Hi. specialize (Himp Hpo). congruence.
    + assert (lost r ++ [chunk] ≠ []) as Hne by (by destruct (lost r)).
      destruct (phase r) as [|c|c re]; destruct O as [O1 O2]; (split; [by apply sublist_inserts_r|done]).
  - destruct (exited r) eqn:Ex; [done|]. injection Hst as <-.
    unchanged I; cbn [set_exit phase sent refused hook_q data_q posted impatient reading exit_q exited hook_bound killed chunks lost] in *.
    + intros c Hq. destruct (Q c Hq). congruence.
    + by intros c [= <-].
    + destruct (phase r) as [|c|c []]; [done| |done|]; destruct F; congruence.
    + destruct (phase r); try done. destruct L as [L1 [L2|L2]]; eauto.
  - destruct (exited r) as [code|] eqn:Ex; [|done]. destruct (posted r) eqn:Epo; [done|]. cbn [negb andb] in Hst.
    destruct (negb (reading r) || timeout) eqn:Et; [|done]. injection Hst as <-.
    unchanged I; cbn [set_exit phase sent refused hook_q data_q posted impatient reading exit_q exited hook_bound killed chunks lost] in *.
    + done.
    + by intros c [= <-].
    + intros c [= <-]. by apply Z.
    + destruct (phase r) as [|c|c []]; [done| |done|]; destruct F; congruence.
    + destruct (phase r); [done..|]. destruct L as [L1 _]. split; [done|]. right. by eexists.
    + destruct (phase r) as [|c|c []]; [done|done| |]; destruct O as [O1 O2]; (split; [done|]); [intros [=]|]. destruct F; congruence.
Qed.

Lemma inv_arms h e r r' : ¬ of_tasks e ∧ ¬ of_terminal e → plausible e → step e r = Some r' → inv h r → inv h r'.
Proof.
  intros Hof Hpl Hst I. destruct e; try (by destruct Hof as [[] _]); try (by destruct Hof as [_ []]); clear Hof;
    open_step Hst; cbn [plausible] in Hpl.
  - destruct (phase r) eqn:Ep; try done. destruct (inbound r) as [|i rest]; [destruct (reader r); [done|injection Hst as <-; by apply inv_turn]|].
    injection Hst as <-. apply inv_turn. destruct (inbound_fields i (set_reader (reader r) rest r)) as [-> | (t & z & ->)]; by unchanged I.
  - destruct (phase r) eqn:Ep; try done. destruct (hook_q r) as [|v rest] eqn:Eh; [done|].
    destruct (event_record _ _ _ _) as [rec|] eqn:Er.
    + pose proof (inv_send_event h v rest now rec r Hpl I Eh Ep Er) as Hs. destruct (send _ _) as [ok r1]. injection Hst as <-.
      destruct ok; [by apply inv_turn|]. apply Hs. auto.
    + injection Hst as <-. apply inv_turn. unchanged I. cbn. rewrite Eh in H. by apply Forall_cons in H as [_ H].
  - destruct (phase r) eqn:Ep; try done. destruct (data_q r) as [|c rest] eqn:Ed; [done|].
    pose proof (inv_send_io h c rest now r Hpl I Ed) as Hs. rewrite Ep in Hs. specialize (Hs Logic.I). destruct (send _ _) as [ok r1]. injection Hst as <-.
    destruct Hs as [_ Hs]. destruct ok; [by apply inv_turn|]. apply Hs. auto.
  - destruct (phase r) eqn:Ep; try done. destruct (exit_q r) as [c|] eqn:Eq; [|done]. injection Hst as <-. unchanged I; cbn; rewrite ?Ep in *; try done.
    by apply Q.
  - destruct (phase r) eqn:Ep; try done. destruct (notified r); [|done]. injection Hst as <-. apply inv_signal; auto.
  - destruct (phase r) eqn:Ep; try done. case_bool_decide as Hc; [|done]. injection Hst as <-. apply inv_signal; auto.
  - destruct (phase r) as [|code|] eqn:Ep; try done. destruct (data_q r) as [|c rest] eqn:Ed.
    + injection Hst as <-. destruct I as [(recs & Hm & S) H C P Q Z F L O]. rewrite Ep in S, F, O. rewrite Ed, app_nil_r in O.
      destruct S as [Hs Hr], O as [O1 O2]. apply (runner_inv_stop h recs); try done; rewrite ?Ed; auto.
    + pose proof (inv_send_io h c rest now r Hpl I Ed) as Hs. rewrite Ep in Hs. specialize (Hs Logic.I).
      pose proof (i_phase _ _ I) as F. rewrite Ep in F.
      destruct (send_cases (io_msg_of c now) (set_data rest r)) as [[E _]|E]; rewrite E in Hs, Hst; destruct Hs as [_ Hs]; injection Hst as <-; [done|].
      by apply Hs.
Qed.

Lemma runner_inv_step h e r r' : plausible e → step e r = Some r' → inv h r → inv h r'.
Proof.
  destruct e; (apply inv_tasks; exact Logic.I) || (apply inv_terminal; exact Logic.I) || (apply inv_arms; split; intros []).
Qed.

Lemma inv_started : inv (hello opts pid) (started to_string opts pid).
Proof.
  split; cbn; try done. by exists [].
Qed.

Lemma run_inv h es r r' : Forall plausible es → run es r = Some r' → inv h r ∧ wire_ok r → inv h r' ∧ wire_ok r'.
Proof.
  intros Hp. revert r. induction Hp as [|e es He Hes IH]; intros r; cbn [Runner.run]; [by intros [= <-]|].
  intros (r1 & H1 & H2)%bind_Some [I W]. apply (IH r1 H2). split; [by eapply runner_inv_step|by eapply step_wire].
Qed.

Lemma run_started es r : Forall plausible es → run es (started to_string opts pid) = Some r → inv (hello opts pid) r ∧ wire_ok r.
Proof.
  intros Hp Hr. apply (run_inv _ _ _ _ Hp Hr). split; [apply inv_started|]. reflexivity.
Qed.

(** C10. In every interleaving the runner says hello, then records made of the child's output
    and of valid hook events, and, once it has stopped, one bye (unless the daemon takes
    no more), and what is on the wire is a prefix of exactly that.  The bye is truthful: an exit carries the child's
    status, anything else -1 or the signal's code.  Output is never invented or
    reordered, and all of it is sent when the child exited, its terminal was read to
    the end in time and no queue overflowed.  No child and no hook socket is left. *)
Theorem one_story es r :
  Forall plausible es → run es (started to_string opts pid) = Some r →
  (∃ recs, Forall made recs ∧
    match phase r with
    | Stopped code reason => sent r = (MHello (hello opts pid) :: recs) ++ [bye_of code reason] ∨
                             sent r = MHello (hello opts pid) :: recs ∧ refused r = true
    | _ => sent r = MHello (hello opts pid) :: recs
    end) ∧
  wire r `prefix_of` stream (sent r) ∧ (writer r = WIdle → out r = [] → wire r = stream (sent r)) ∧
  output (sent r) `sublist_of` chunks r ∧
  ∀ code reason, phase r = Stopped code reason →
    match reason with Exit => exited r = Some code | Signal => code = (-1)%Z ∨ code = 130%Z ∨ code = 143%Z end ∧
    (killed r = true ∨ is_Some (exited r)) ∧ hook_bound r = false ∧
    (reason = Exit → refused r = false → impatient r = false → lost r = [] → output (sent r) = chunks r).
Proof.
  intros Hp Hr. destruct (run_started es r Hp Hr) as [[(recs & Hm & S) H C P Q Z F L O] W]. split_and!.
  - exists recs. split; [done|]. destruct (phase r); [by destruct S..|done].
  - unfold wire_ok in W. destruct (writer r); [..|done]; rewrite <-W; by eexists.
  - intros Hw Ho. unfold wire_ok in W. rewrite Hw, Ho in W. cbn in W. by rewrite app_nil_r in W.
  - destruct (phase r); destruct O as [O _]; try done; (etrans; [|exact O]); by apply sublist_inserts_r.
  - intros code reason Hph. rewrite Hph in *. destruct L as [L1 L2], O as [_ O]. split_and!; try done. destruct reason; [done|by destruct F].
Qed.

(** ** The child's exit always ends the runner *)

Lemma runner_posted_step e r r' : step e r = Some r' → (posted r = true → is_Some (exit_q r)) → posted r' = true → is_Some (exit_q r').
Proof.
  assert (∀ m r, posted (send m r).2 = posted r ∧ exit_q (send m r).2 = exit_q r) as Hs.
  { intros m x. destruct (send_cases m x) as [[-> _]| ->]; done. }
  assert (∀ c re r, posted (stop c re r) = posted r ∧ exit_q (stop c re r) = exit_q r) as Ht.
  { intros c re x. by destruct (stop_fields c re x) as (_ & _ & _ & _ & -> & -> & _). }
  assert (∀ r, posted (wake r) = posted r ∧ exit_q (wake r) = exit_q r) as Hw by (intros x; by destruct (wake_fields x) as [-> | ->]).
  assert (posted r' = posted r ∧ exit_q r' = exit_q r ∨ is_Some (exit_q r') → (posted r = true → is_Some (exit_q r)) →
    posted r' = true → is_Some (exit_q r')) as Hx by (intros [[-> ->]|?]; done).
  intros H. apply Hx. clear Hx. destruct e; open_step H.
  - split_step H; left; rewrite ?(proj1 (Hw _)), ?(proj2 (Hw _)); done.
  - split_step H; by left.
  - split_step H; by left.
  - split_step H; left; rewrite ?(proj1 (Hw _)), ?(proj2 (Hw _)); done.
  - split_step H; by left.
  - split_step H; by left.
  - split_step H; by left.
  - split_step H. right. by eexists.
  - destruct (phase r); try done. destruct (inbound r) as [|i rest]; [destruct (reader r); [done|injection H as <-; by left]|].
    injection H as <-. left. by destruct (inbound_fields i (set_reader (reader r) rest r)) as [-> | (t & z & ->)].
  - destruct (phase r); try done. destruct (hook_q r) as [|v rest]; [done|]. destruct (event_record _ _ _ _) as [rec|]; [|injection H as <-; by left].
    destruct (Hs (MRec rec None) (set_hooks rest (hook_bound r) r)) as [E1 E2]. destruct (send _ _) as [ok r1]. injection H as <-. left.
    destruct ok; [by split|]. destruct (Ht (-1)%Z Signal r1) as [-> ->]. by split.
  - destruct (phase r); try done. destruct (data_q r) as [|c rest]; [done|].
    destruct (Hs (io_msg_of c now) (set_data rest r)) as [E1 E2]. destruct (send _ _) as [ok r1]. injection H as <-. left.
    destruct ok; [by split|]. destruct (Ht (-1)%Z Signal r1) as [-> ->]. by split.
  - split_step H; by left.
  - split_step H. left. apply Ht.
  - split_step H. left. apply Ht.
  - destruct (phase r) as [|code|]; try done. destruct (data_q r) as [|c rest]; [injection H as <-; left; apply Ht|].
    destruct (Hs (io_msg_of c now) (set_data rest r)) as [E1 E2]. destruct (send _ _) as [ok r1]. injection H as <-. left.
    destruct ok; [by split|]. destruct (Ht code Exit r1) as [-> ->]. by split.
Qed.

Lemma run_posted es r r' : run es r = Some r' → (posted r = true → is_Some (exit_q r)) → posted r' = true → is_Some (exit_q r').
Proof.
  revert r. induction es as [|e es IH]; intros r; cbn [Runner.run]; [by intros [= <-]|].
  intros (r1 & H1 & H2)%bind_Some H. apply (IH r1 H2). by eapply runner_posted_step.
Qed.

Lemma run_app es1 es2 r : run (es1 ++ es2) r = run es1 r ≫= run es2.
Proof.
  revert r. induction es1 as [|e es1 IH]; intros r; [done|]. cbn [app Runner.run]. destruct (step e r) as [r1|]; [|done]. apply IH.
Qed.

Lemma drains n r code : length (data_q r) = n → phase r = Draining code →
  ∃ es r', run es r = Some r' ∧ phase r' = Stopped code Exit ∧ length es ≤ S n ∧ Forall plausible es.
Proof.
  revert r. induction n as [|n IH]; intros r Hn Hp.
  - exists [EvDrain 0], (stop code Exit r). open_run. rewrite Hp. destruct (data_q r); [|done].
    split_and!; [done|apply stop_fields|done|by repeat constructor].
  - destruct (data_q r) as [|c rest] eqn:Ed; [done|]. injection Hn as Hn.
    destruct (send_cases (io_msg_of c 0) (set_data rest r)) as [[E _]|E].
    + destruct (IH (send (io_msg_of c 0) (set_data rest r)).2) as (es & r' & H1 & H2 & H3 & H4); [rewrite E; done|rewrite E; done|].
      exists (EvDrain 0 :: es), r'. open_run. rewrite Hp, Ed, E in *. cbn [mbind option_bind].
      split_and!; [done|done|cbn; lia|]. by constructor.
    + eexists [EvDrain 0], _. open_run. rewrite Hp, Ed, E. cbn [mbind option_bind].
      split_and!; [done|apply stop_fields|cbn; lia|by repeat constructor].
Qed.

(** C27. Whatever has happened, and even when the loss of the daemon went unnoticed, the
    child's exit ends the runner: the waiter's and the loop's own steps suffice, at most
    one more than the output that waits, plus three. *)
Theorem child_exit_stops es r code :
  Forall plausible es → run es (started to_string opts pid) = Some r → (Z.abs code ≤ 2 ^ 31)%Z →
  match phase r with Stopped _ _ => False | _ => True end →
  ∃ es' r' c, run es' r = Some r' ∧ length es' ≤ 4 + length (data_q r) ∧ phase r' = Stopped c Exit ∧
    exited r' = Some c ∧ (exited r = None → c = code).
Proof.
  intros Hp Hr Hcode Hph. destruct (run_started es r Hp Hr) as [I W]. pose proof (run_posted es _ r Hr ltac:(done)) as Hpo.
  assert (∃ e1 r1 c, run e1 r = Some r1 ∧ length e1 ≤ 3 ∧ Forall plausible e1 ∧ phase r1 = Draining c ∧ data_q r1 = data_q r ∧ (exited r = None → c = code))
    as (e1 & r1 & c & H1 & Hl & Hpe & Hd & Hq & Hc).
  { pose proof (i_exit_q _ _ I) as Iq. destruct (phase r) as [|c|] eqn:Ep; [| |done].
    2: { exists [], r, c. split_and!; try done; [cbn; lia|]. pose proof (i_phase _ _ I) as F. rewrite Ep in F. intros Hx. destruct F; congruence. }
    destruct (exited r) as [c|] eqn:Ex.
    - destruct (posted r) eqn:Epo.
      + destruct (Hpo eq_refl) as [c' Hc']. destruct (Iq _ Hc') as [[= ->] _]. exists [EvExitArm].
        eexists _, _. open_run. rewrite Ep, Hc'. cbn. split_and!; try done; try (cbn; lia); by repeat constructor.
      + exists [EvPost true; EvExitArm]. eexists _, _. open_run. rewrite Ex, Epo. cbn [negb andb]. rewrite orb_true_r. cbn [mbind option_bind set_exit phase].
        rewrite Ep. cbn. split_and!; try done; try (cbn; lia); by repeat constructor.
    - exists [EvReap code; EvPost true; EvExitArm]. eexists _, _. open_run. rewrite Ex. cbn [mbind option_bind set_exit exited posted reading phase].
      destruct (posted r) eqn:Epo; [destruct (Hpo eq_refl) as [c' Hc']; by destruct (Iq _ Hc')|]. cbn [negb andb]. rewrite orb_true_r. cbn [mbind option_bind set_exit phase].
      rewrite Ep. cbn. split_and!; try done; try (cbn; lia); by repeat constructor. }
  destruct (drains (length (data_q r)) r1 c) as (e2 & r2 & H2 & Hs & Hl2 & Hp2); [by rewrite Hq|done|].
  exists (e1 ++ e2), r2, c. split_and!; try done.
  - rewrite run_app, H1. exact H2.
  - rewrite length_app. lia.
  - destruct (run_inv (hello opts pid) (e1 ++ e2) r r2) as [I2 _]; [by apply Forall_app|by rewrite run_app, H1|by split|].
    pose proof (i_phase _ _ I2) as F. rewrite Hs in F. by destruct F.
Qed.
End laws.

(** ** What the daemon makes of it *)

Section daemon.
Context {CC : CryptoCrates} {W : Type} {HIN : HashIter N}.
Context (to_string : Value → string) (from_slice : bytes → option Value).
Context (opts : RunnerOptions) (pid : N).
Context (on_message : N → Ipc.IpcMessage → option bytes → IpcServer.Server W → bool * IpcServer.Server W).
Context (on_disconnect : N → IpcServer.Server W → IpcServer.Server W).

(** The calls of the daemon's handler, one after the other. *)
Definition calls (id : N) (cs : list (Ipc.IpcMessage * option bytes)) (s : IpcServer.Server W) : IpcServer.Server W :=
  foldl (λ s c, (on_message id c.1 c.2 (IpcServer.track_sid id c.1 s)).2) s cs.

(** What a message is on the daemon's side. *)
Definition heard (m : Msg) (c : Ipc.IpcMessage * option bytes) : Prop :=
  Ipc.parse_ipc_message (Object (sort_map (msg_fields m))) = Some c.1 ∧ c.2 = msg_binary m ∧ msg_binary m ≠ Some [].

Lemma dispatch_heard id ms cs s : IpcServer.steady on_message →
  (∀ m, m ∈ ms → from_slice (as_bytes (to_string (Object (msg_fields m)))) = Some (Object (sort_map (msg_fields m)))) →
  Forall2 heard ms cs →
  IpcServer.dispatch_frames from_slice on_message id (map norm (msg_frame to_string <$> ms)) s = calls id cs s.
Proof.
  intros Hst Hl H. revert s. induction H as [|m [im b] ms cs (Hp & Hb & Hne) H IH]; intros s; [done|].
  cbn [fst snd] in Hp, Hb. cbn [fmap list_fmap map IpcServer.dispatch_frames]. change (json (norm (msg_frame to_string m))) with (as_bytes (to_string (Object (msg_fields m)))).
  rewrite Hl by left. cbn [mbind option_bind]. rewrite Hp.
  assert (binary (norm (msg_frame to_string m)) = b) as ->.
  { subst b. cbn. destruct (msg_binary m) as [[|]|]; done. }
  destruct (Hst id im b (IpcServer.track_sid id im s)) as [H1 _]. destruct (on_message id im b (IpcServer.track_sid id im s)) as [r s'] eqn:Eo.
  cbn in H1. subst r. unfold calls. cbn [foldl fst snd]. rewrite Eo. apply IH. intros m' Hm'. apply Hl. by right.
Qed.

Lemma finite_now now : (now < 2 ^ 53)%N → f64_is_finite (now_ms now) = true.
Proof. intros H. apply normalize_finite. lia. Qed.

(** A record arrives as a record of this session, with its data. *)
Lemma made_heard m : made to_string opts m →
  ∃ kind ts ns name payload, heard m (Ipc.Rec (sid opts) kind ts ns name payload, io_data m).
Proof.
  intros (now & Hn%finite_now & [(chunk & Hc & ->)|(v & rec & _ & He & ->)]).
  - eexists _, _, _, _, _. split; [by apply (io_parses _ chunk)|]. split; [done|]. cbn. by intros [= ->].
  - destruct (event_parses _ _ _ _ _ Hn He) as (name & _ & Hp). eexists _, _, _, _, _. split; [exact Hp|]. done.
Qed.

Lemma recs_heard recs : Forall (made to_string opts) recs →
  ∃ cs, Forall2 heard recs cs ∧ Forall (λ c, ∃ kind ts ns name payload, c.1 = Ipc.Rec (sid opts) kind ts ns name payload) cs ∧
    omap snd cs = output recs.
Proof.
  induction 1 as [|m recs Hm _ (cs & H1 & H2 & H3)]; [by exists []|].
  destruct (made_heard m Hm) as (k & ts & ns & n & p & Hh). eexists (_ :: cs). split; [by constructor|]. split.
  - constructor; [|done]. by eexists _, _, _, _, _.
  - cbn. unfold output in *. cbn. rewrite H3. by destruct (io_data m).
Qed.

(** C11. From the terminal to the daemon. When claude has exited, its terminal was read to
    the end, nothing overflowed and the writer is done, then however the socket cuts the
    bytes, the daemon's handler is called with the hello, records of this session and the
    bye with claude's status, and the data of the records is what claude printed. (The
    handler is taken to leave the reader's connections alone and not to look at what is
    still unread; the JSON text of each message is taken to be read back as it was
    printed.) *)
Theorem session_reaches_daemon es r code id pieces s :
  Forall plausible es → run to_string from_slice opts pid es (started to_string opts pid) = Some r →
  phase r = Stopped code Exit → refused r = false → impatient r = false → lost r = [] → writer r = WIdle → out r = [] →
  (0 < pid)%N →
  (∀ m, m ∈ sent r → sendable (msg_frame to_string m) ∧
     from_slice (as_bytes (to_string (Object (msg_fields m)))) = Some (Object (sort_map (msg_fields m)))) →
  IpcServer.steady on_message → IpcServer.blind on_message →
  IpcServer.readers s !! id = Some Codec.new → Forall (λ c, c ≠ []) pieces → concat pieces = wire r →
  ∃ recs, IpcServer.reads from_slice on_message on_disconnect id pieces s =
      calls id ((Ipc.Hello (sid opts) (cwd opts) (worktree_path opts) None pid, None) :: recs ++
                [(Ipc.Bye (sid opts) (i32_as_f64 code) (Some pid) (Some Ipc.Exit), None)]) s ∧
    Forall (λ c, ∃ kind ts ns name payload, c.1 = Ipc.Rec (sid opts) kind ts ns name payload) recs ∧
    omap snd recs = chunks r.
Proof.
  intros Hp Hr Hph Hre Him Hlo Hw Ho Hpid Hl Hst Hbl Hrd Hne Hcat.
  destruct (run_started to_string from_slice opts pid es r Hp Hr) as [[(recs & Hm & S) _ _ _ _ Z F _ O] Wk].
  rewrite Hph in S, F, O. destruct F as [Fx _], O as [_ O]. specialize (O eq_refl Hre Him Hlo).
  destruct S as [S|[_ S]]; [|congruence]. unfold wire_ok in Wk. rewrite Hw, Ho in Wk. cbn in Wk. rewrite app_nil_r in Wk.
  destruct (recs_heard recs Hm) as (cs & H1 & H2 & H3). exists cs. split_and!; [|done|].
  2: { rewrite H3, <-O, S. rewrite output_snoc. cbn. by rewrite app_nil_r. }
  assert (Forall sendable (msg_frame to_string <$> sent r)) as Hsend.
  { apply Forall_fmap, Forall_forall. intros m Hin. by apply Hl. }
  pose proof (enc_parse _ Hsend) as HP.
  assert (concat (map enc (msg_frame to_string <$> sent r)) = concat pieces) as Ecat.
  { rewrite Hcat, Wk. unfold stream. f_equal. symmetry. exact (list_fmap_compose (msg_frame to_string) enc (sent r)). }
  rewrite Ecat in HP. destruct (feed_new _ _ _ _ HP) as [E1 E2]. specialize (E2 eq_refl).
  destruct (feed Codec.new pieces) as [x d] eqn:Ef. cbn in E1, E2. subst x d.
  rewrite (IpcServer.reads_feed from_slice on_message on_disconnect id pieces s _ _ _ Hst Hbl Hne Hrd Ef), insert_id by done.
  rewrite <-IpcServer.dispatch_set_readers, IpcServer.set_readers_id by done.
  apply dispatch_heard; [done|intros m Hin; by apply Hl|]. rewrite S, app_comm_cons. apply Forall2_app.
  - constructor; [|done]. split; [by apply hello_parses|]. done.
  - constructor; [|done]. split; [|done]. cbn [fst msg_fields bye_of]. by rewrite bye_parses by (cbn; auto).
Qed.
End daemon.

Module Demo.
#[local] Existing Instance demo_crates.
#[local] Instance iter : HashIter N := elements_iter N.

Definition opts : RunnerOptions := mkOptions "s1" "/w" None None None None [].
Definition pid : N := 77.

(** The kinds of message, told apart by their tag; every clock reads 5. *)
Definition to_string (v : Value) : string :=
  match v with Object o => match get o "t" with Some (Str t) => t | _ => "?" end | _ => "?" end.
Definition doc (m : Msg) : Value := Object (sort_map (msg_fields m)).
Definition from_slice (b : bytes) : option Value :=
  if decide (b = as_bytes "hello") then Some (doc (MHello (hello opts pid)))
  else if decide (b = as_bytes "rec") then Some (doc (io_msg_of opts [] 5))
  else if decide (b = as_bytes "bye") then Some (doc (bye_of opts pid 3 Exit))
  else None.

Abbreviation run := (run to_string from_slice opts pid).
Abbreviation start := (started to_string opts pid).

(** claude prints, exits with 3, prints on; the waiter waits for the reader. *)
Definition session : list Event :=
  [EvPtyRead (as_bytes "one"); EvReap 3; EvDataArm 5; EvPtyRead (as_bytes "two"); EvPtyRead []; EvPost false; EvExitArm;
   EvDrain 5; EvDrain 5; EvTake; EvWrite None; EvTake; EvWrite None; EvTake; EvWrite None; EvTake; EvWrite None].
Definition final : Runner := default start (run session start).

Lemma session_runs : run session start = Some final.
Proof. vm_compute. reflexivity. Qed.
Lemma session_plausible : Forall plausible session.
Proof. repeat constructor; cbn; lia. Qed.

Lemma one_story_witness :
  output (sent final) = [as_bytes "one"; as_bytes "two"] ∧ wire final = stream to_string (sent final).
Proof.
  destruct (one_story to_string from_slice opts pid session final session_plausible session_runs) as (_ & _ & H1 & _ & H2).
  split; [|apply H1; vm_compute; reflexivity].
  destruct (H2 3%Z Exit) as (_ & _ & _ & H); [vm_compute; reflexivity|].
  rewrite H by (vm_compute; reflexivity). vm_compute. reflexivity.
Defined.

(** The daemon's log of what its handler is called with. *)
Definition log (m : Ipc.IpcMessage) (b : option bytes) : string :=
  match m with
  | Ipc.Hello s _ _ _ _ => "hello " +:+ s
  | Ipc.Rec s _ _ _ _ _ => "rec " +:+ s +:+ " " +:+ str_of_bytes (default [] b)
  | Ipc.Bye s _ _ _ => "bye " +:+ s
  | _ => "?"
  end.
Definition on_message (id : N) (m : Ipc.IpcMessage) (b : option bytes) (s : IpcServer.Server (list string))
  : bool * IpcServer.Server (list string) :=
  (true, IpcServer.mkServer (IpcServer.conns s) (IpcServer.registry s) (IpcServer.readers s) (IpcServer.next_conn_id s)
           (IpcServer.owner s ++ [log m b])).
Definition server : IpcServer.Server (list string) := IpcServer.accept (λ _ s, s) (IpcServer.server_new []).

Lemma session_reaches_daemon_witness :
  let pieces := [take 5 (wire final); drop 5 (wire final)] in
  ∃ recs, omap snd recs = [as_bytes "one"; as_bytes "two"] ∧
    IpcServer.reads from_slice on_message (λ _ s, s) 1 pieces server =
    calls on_message 1 ((Ipc.Hello "s1" "/w" None None 77, None) :: recs ++
      [(Ipc.Bye "s1" (i32_as_f64 3) (Some 77%N) (Some Ipc.Exit), None)]) server.
Proof.
  destruct (session_reaches_daemon to_string from_slice opts pid on_message (λ _ s, s) session final 3 1
    [take 5 (wire final); drop 5 (wire final)] server session_plausible session_runs) as (recs & H1 & H2 & H3).
  1-6, 7: vm_compute; reflexivity.
  - intros m Hm. assert (sent final = [MHello (hello opts pid); io_msg_of opts (as_bytes "one") 5; io_msg_of opts (as_bytes "two") 5; bye_of opts pid 3 Exit]) as E
      by (vm_compute; reflexivity).
    rewrite E in Hm. repeat (apply elem_of_cons in Hm as [->|Hm]; [split; [unfold sendable; vm_compute; discriminate|vm_compute; reflexivity]|]).
    by apply elem_of_nil in Hm.
  - by intros id m b s.
  - by intros id m b s d.
  - vm_compute. reflexivity.
  - repeat constructor; vm_compute; discriminate.
  - cbn [concat]. by rewrite app_nil_r, take_drop.
  - exists recs. split; [rewrite H3; vm_compute; reflexivity|exact H1].
Defined.

(** The daemon goes away while the loop is in another arm: the wake-up is lost, the closed
    queue's arm stays ready and does nothing, and the loop spins. *)
Definition missed : list Event :=
  [EvPtyRead (as_bytes "one"); EvRead []; EvDataArm 5].
Definition deaf : Runner := default start (run missed start).

Example close_can_be_missed :
  phase deaf = Running ∧ notified deaf = false ∧ reader deaf = None ∧ data_q deaf = [] ∧
  step to_string from_slice opts pid EvInbound deaf = Some deaf.
Proof. split_and!; vm_compute; reflexivity. Qed.

Lemma child_exit_stops_witness :
  ∃ es r, run es deaf = Some r ∧ length es ≤ 4 ∧ phase r = Stopped 3 Exit.
Proof.
  destruct (child_exit_stops to_string from_slice opts pid missed deaf 3) as (es & r & c & H1 & H2 & H3 & _ & H4).
  - repeat constructor; cbn; lia.
  - vm_compute. reflexivity.
  - lia.
  - vm_compute. exact Logic.I.
  - exists es, r. rewrite H4 in H3 by (vm_compute; reflexivity). split; [exact H1|]. split; [|exact H3]. exact H2.
Defined.

(** A grandchild holds the terminal for longer than the grace: what is printed after that
    is not sent. *)
Example late_output_lost :
  let r := default start (run [EvReap 0; EvPost true; EvExitArm; EvDrain 5; EvPtyRead (as_bytes "late")] start) in
  phase r = Stopped 0 Exit ∧ output (sent r) = [] ∧ chunks r = [as_bytes "late"].
Proof. split_and!; vm_compute; reflexivity. Qed.
End Demo.
