(* ===== verification/Lines.v ===== *)
(** * Lines: further [str] primitives the command line calls: [lines], [splitn],
    [find] of a string, [trim_start_matches] of characters, and [Path::components]. *)
From stdpp Require Import base list numbers strings.
From Stdlib Require Import Lia NArith Ascii.
From S2P Require Import Prelude Bytes Text.

Definition lf : ascii := ascii_of_N 10.
Definition cr : ascii := ascii_of_N 13.

(** One carriage return before the line feed goes with it. *)
Definition strip_cr (l : string) : string :=
  match rsplit_once cr l with Some (a, "") => a | _ => l end.

(** The lines of a text: what follows the last line feed is a line if it is not empty. *)
Fixpoint lines_of (pieces : list string) : list string :=
  match pieces with
  | [] => []
  | [""] => []
  | [l] => [l]
  | l :: ls => strip_cr l :: lines_of ls
  end.

(** [s.lines()] *)
Definition lines (s : string) : list string := lines_of (split_char lf s).

(** [s.splitn(n, c)] *)
Fixpoint splitn (n : nat) (c : ascii) (s : string) : list string :=
  match n with
  | 0 => []
  | 1 => [s]
  | S n => match split_once c s with None => [s] | Some (a, b) => a :: splitn n c b end
  end.

(** [s.trim_start_matches(P)] for ASCII characters. *)
Fixpoint trim_start_chars (P : ascii → bool) (s : string) : string :=
  match s with
  | EmptyString => EmptyString
  | String x r => if P x then trim_start_chars P r else s
  end.

(** [s.find(needle)]: what stands before and after its first occurrence. *)
Fixpoint split_str (needle s : string) : option (string * string) :=
  match strip_prefix needle s with
  | Some r => Some ("", r)
  | None => match s with
            | EmptyString => None
            | String x r => let?o (a, b) := split_str needle r in Some (String x a, b)
            end
  end.

(** ** Facts *)

Lemma split_str_Some needle s a b : split_str needle s = Some (a, b) → s = a +:+ needle +:+ b.
Proof.
  revert a b. induction s as [|x r IH]; intros a b; cbn [split_str].
  - destruct (strip_prefix needle "") as [t|] eqn:E; [|done]. intros [= <- <-].
    by apply strip_prefix_Some in E.
  - destruct (strip_prefix needle (String x r)) as [t|] eqn:E.
    { intros [= <- <-]. by apply strip_prefix_Some in E. }
    destruct (split_str needle r) as [[a' b']|] eqn:Es; [|done]. intros [= <- <-].
    rewrite str_append_cons. f_equal. by apply IH.
Qed.

Lemma splitn_3 c a b d : str_contains c a = false → str_contains c b = false → str_contains c d = false →
  splitn 4 c (a +:+ String c (b +:+ String c d)) = [a; b; d].
Proof.
  intros Ha Hb Hd. cbn [splitn]. rewrite !split_once_app by done.
  destruct (split_once c d) as [[x y]|] eqn:E; [|done].
  apply split_once_Some in E. subst d. rewrite str_contains_app in Hd. cbn in Hd.
  rewrite decide_True in Hd by done. by rewrite orb_true_r in Hd.
Qed.

Lemma trim_start_chars_id P s : match s with String c _ => P c = false | "" => True end → trim_start_chars P s = s.
Proof. destruct s as [|c s]; [done|]. cbn. by intros ->. Qed.

(** Lines joined by line feeds come back. *)
Lemma lines_of_plain l : (∀ p, p ∈ l → p ≠ "" ∧ str_contains cr p = false) → lines_of (l ++ [""]) = l.
Proof.
  induction l as [|p l IH]; intros H; [done|].
  assert (strip_cr p = p) as Hp.
  { unfold strip_cr. by rewrite rsplit_once_none by (apply H; left). }
  destruct (H p ltac:(left)) as [Hne _].
  specialize (IH ltac:(intros q Hq; apply H; by right)). cbn [app].
  destruct (l ++ [""]) as [|q r] eqn:E; [by destruct l|].
  transitivity (strip_cr p :: lines_of (q :: r)); [by destruct p|]. by rewrite IH, Hp.
Qed.
