(* ===== verification/Release.v ===== *)
(** * Release: what [tp upgrade] reads.
    [tp-cli/src/commands/upgrade.rs]: version tags and their order, the list of
    checksums, the answers of [gh] and of the releases API, the output of a new
    binary, and where the running binary is installed. *)
From stdpp Require Import base list numbers strings gmap.
From Stdlib Require Import Lia NArith ZArith Ascii.
From S2P Require Import Prelude Bytes Text Chars Json Paths Worktree Lines.

(** ** Versions *)

Record ParsedVersion := mkVersion { major : N; minor : N; patch : N; prerelease : bool }.
#[export] Instance ParsedVersion_eq_dec : EqDecision ParsedVersion.
Proof. solve_decision. Defined.

(** The characters of a prerelease identifier. *)
Definition is_prerelease_char (c : ascii) : bool :=
  is_ascii_alphanumeric c || bool_decide (c = "."%char) || bool_decide (c = "-"%char).

Definition is_numeric (p : string) : bool := negb (String.eqb p "") && all_chars is_ascii_digit p.

Definition parse_version (v : string) : option ParsedVersion :=
  let trimmed := trim_start_chars (Ascii.eqb "v") (trim v) in
  let without_build := default trimmed (head (split_char "+"%char trimmed)) in
  let '(core, pre_str) := match split_once "-"%char without_build with
                          | Some (core, pre) => (core, Some pre)
                          | None => (without_build, None)
                          end in
  if match pre_str with
     | Some pre => String.eqb pre "" || negb (all_chars is_prerelease_char pre)
     | None => false
     end then None
  else match splitn 4 "."%char core with
       | [p0; p1; p2] =>
           if forallb is_numeric [p0; p1; p2] then
             let?o major := parse_uint u64_max p0 in
             let?o minor := parse_uint u64_max p1 in
             let?o patch := parse_uint u64_max p2 in
             Some (mkVersion major minor patch (bool_decide (is_Some pre_str)))
           else None
       | _ => None
       end.

(** The first pair of components that differ decides; a prerelease comes before its release. *)
Fixpoint compare_components (l : list (N * N)) (otherwise : bool) : bool :=
  match l with
  | [] => otherwise
  | (va, vb) :: l => if (va <? vb)%N then true else if (vb <? va)%N then false else compare_components l otherwise
  end.

Definition is_older_version (a b : string) : bool :=
  match parse_version a, parse_version b with
  | Some pa, Some pb =>
      compare_components [(major pa, major pb); (minor pa, minor pb); (patch pa, patch pb)]
        (prerelease pa && negb (prerelease pb))
  | _, _ => false
  end.

(** ** Assets and checksums *)

(** [std::env::consts::OS] and [ARCH] are arguments. *)
Definition get_asset_name (os arch : string) : string :=
  let os := if String.eqb os "macos" then "darwin" else os in
  let arch := if String.eqb arch "aarch64" then "arm64" else if String.eqb arch "x86_64" then "x64" else arch in
  "tp-" +:+ os +:+ "_" +:+ arch.

Definition is_hash_char (c : ascii) : bool :=
  is_ascii_digit c || let v := N_of_ascii c in ((97 <=? v) && (v <=? 102))%N.

(** [str::split_at], which panics inside a character. *)
Definition split_at (n : nat) (s : string) : outcome (string * string) :=
  let b := as_bytes s in
  if match b !! n with Some x => is_cont x | None => bool_decide (length b ≠ n) end then Panic
  else Ret (str_of_bytes (take n b), str_of_bytes (drop n b)).

(** What one line adds to the map. *)
Definition checksum_line (line : string) : outcome (option (string * string)) :=
  let line := trim_end_char cr line in
  if str_len line <? 66 then Ret None
  else match split_at 64 line with
       | Panic => Panic
       | Ret (hash_part, rest) =>
           let rest := trim_start_chars (λ c, bool_decide (c = " "%char ∨ c = ascii_of_N 9)) rest in
           Ret (if negb (all_chars is_hash_char hash_part) || String.eqb rest "" then None else Some (rest, hash_part))
       end.

Fixpoint checksum_lines (ls : list string) (map : gmap string string) : outcome (gmap string string) :=
  match ls with
  | [] => Ret map
  | l :: ls => match checksum_line l with
               | Panic => Panic
               | Ret None => checksum_lines ls map
               | Ret (Some (rest, hash)) => checksum_lines ls (<[rest := hash]> map)
               end
  end.

Definition parse_checksums (text : string) : outcome (gmap string string) := checksum_lines (lines text) ∅.

(** ** The answer of a new binary *)

Record VerificationOutput := mkOutput { exit_code : option Z; signal : option Z; stdout : string; stderr : string }.
Inductive VerificationResult := Verified (version : string) | Rejected (reason : string).

Definition gatekeeper_hint : string :=
  " On macOS this usually means the download was rejected by Gatekeeper because the binary is unsigned. Re-run with a signed release.".

Definition analyze_verification_output (out : VerificationOutput) : VerificationResult :=
  let exit_nonzero := match exit_code out with Some c => bool_decide (c ≠ 0%Z) | None => false end in
  let killed_by_signal := bool_decide (exit_code out = None) || bool_decide (is_Some (signal out)) in
  if exit_nonzero || (bool_decide (exit_code out = None) && killed_by_signal) then
    match killed_by_signal, signal out with
    | true, Some sig =>
        let exit_str := match exit_code out with None => "null" | Some c => signed_dec c end in
        Rejected ("binary killed by signal " +:+ signed_dec sig +:+ " (exit " +:+ exit_str +:+ ")." +:+ gatekeeper_hint)
    | _, _ =>
        let err := let s := trim (stderr out) in
                   if negb (String.eqb s "") then s
                   else let s2 := trim (stdout out) in if negb (String.eqb s2 "") then s2 else "no output" in
        Rejected ("exit " +:+ signed_dec (default 0%Z (exit_code out)) +:+ ": " +:+ err)
    end
  else
    let stdout := trim (stdout out) in
    if String.eqb stdout "" then Rejected "no output on stdout"
    else match strip_prefix "tp v" stdout with
         | Some (String c _) => if is_ascii_digit c then Verified (trim (default stdout (head (lines stdout))))
                                else Rejected ("unexpected output: " +:+ stdout)
         | _ => Rejected ("unexpected output: " +:+ stdout)
         end.

(** ** Release entries *)

Record Release := mkRelease { tag : string; url : string }.

Definition release_of (tag_key url_key : string) (v : Value) : option Release :=
  let?o tag := value_get v tag_key ≫= as_str in
  let?o url := value_get v url_key ≫= as_str in
  if String.eqb tag "" || String.eqb url "" then None else Some (mkRelease tag url).

(** [from_str] is [serde_json::from_str]. *)
Definition parse_gh_release_json (from_str : string → option Value) (raw : string) : option Release :=
  let?o v := from_str raw in release_of "tagName" "url" v.

Definition parse_github_api_release_json (raw : Value) : option Release := release_of "tag_name" "html_url" raw.

(** ** Where the binary is installed *)

(** [canonical] is [fs::canonicalize] of the path, if that succeeds. *)
Definition detect_homebrew_install (canonical : option string) (binary_path : string) : option string :=
  if String.eqb binary_path "" then None
  else let resolved := default binary_path canonical in
       match split_str "/Cellar/tp/" resolved with
       | Some (prefix, _) => if String.eqb prefix "" then None else Some prefix
       | None => None
       end.

(** ** Versions: their order *)

Definition version_lt (a b : ParsedVersion) : Prop :=
  (major a < major b)%N ∨ major a = major b ∧
  ((minor a < minor b)%N ∨ minor a = minor b ∧
   ((patch a < patch b)%N ∨ patch a = patch b ∧ prerelease a = true ∧ prerelease b = false)).

Lemma compare_components_cons x y l o :
  compare_components ((x, y) :: l) o = true ↔ (x < y)%N ∨ x = y ∧ compare_components l o = true.
Proof.
  cbn [compare_components]. destruct (N.ltb_spec x y); [by split; [left|]|].
  destruct (N.ltb_spec y x); [split; [done|lia]|]. split; [intros; right; split; [lia|done]|].
  intros [?|[_ ?]]; [lia|done].
Qed.

Lemma is_older_spec a b :
  is_older_version a b = true ↔ ∃ pa pb, parse_version a = Some pa ∧ parse_version b = Some pb ∧ version_lt pa pb.
Proof.
  unfold is_older_version, version_lt. split.
  - destruct (parse_version a) as [pa|]; [|done]. destruct (parse_version b) as [pb|]; [|done].
    rewrite !compare_components_cons. cbn [compare_components]. rewrite andb_true_iff, negb_true_iff.
    intros H. by exists pa, pb.
  - intros (pa & pb & -> & -> & H). rewrite !compare_components_cons. cbn [compare_components].
    by rewrite andb_true_iff, negb_true_iff.
Qed.

Lemma version_trichotomy a b : version_lt a b ∨ a = b ∨ version_lt b a.
Proof.
  destruct a as [a1 a2 a3 a4], b as [b1 b2 b3 b4]. unfold version_lt; cbn.
  destruct (N.lt_trichotomy a1 b1) as [?|[->|?]]; [tauto| |tauto].
  destruct (N.lt_trichotomy a2 b2) as [?|[->|?]]; [tauto| |tauto].
  destruct (N.lt_trichotomy a3 b3) as [?|[->|?]]; [tauto| |tauto].
  destruct a4, b4; tauto.
Qed.

Lemma version_lt_irrefl a : ¬ version_lt a a.
Proof. unfold version_lt. intros [?|[_ [?|[_ [?|(_ & H & K)]]]]]; [lia..|congruence]. Qed.

Lemma version_lt_trans a b c : version_lt a b → version_lt b c → version_lt a c.
Proof.
  destruct a as [a1 a2 a3 a4], b as [b1 b2 b3 b4], c as [c1 c2 c3 c4]. unfold version_lt; cbn.
  intros [?|[-> H]] [?|[-> K]]; try (left; lia). right. split; [done|].
  destruct H as [?|[-> H]], K as [?|[-> K]]; try (left; lia). right. split; [done|].
  destruct H as [?|[-> H]], K as [?|[-> K]]; left; lia.
Qed.

(** On the tags that are versions "older" is a strict total order: no tag is
    older than itself, it is transitive, and of two tags that stand for different
    versions exactly one is the older; nothing is older or newer than a tag that
    is no version. *)
Theorem older_is_an_order :
  (∀ a, is_older_version a a = false) ∧
  (∀ a b c, is_older_version a b = true → is_older_version b c = true → is_older_version a c = true) ∧
  (∀ a b, is_older_version a b = true → is_older_version b a = false) ∧
  (∀ a b pa pb, parse_version a = Some pa → parse_version b = Some pb →
     is_older_version a b = false → is_older_version b a = false → pa = pb) ∧
  (∀ a b, parse_version a = None → is_older_version a b = false ∧ is_older_version b a = false).
Proof.
  assert (∀ a b c, is_older_version a b = true → is_older_version b c = true → is_older_version a c = true) as Ht.
  { intros a b c (pa & pb & Ha & Hb & H)%is_older_spec (pb' & pc & Hb' & Hc & K)%is_older_spec.
    apply is_older_spec. exists pa, pc. split_and!; [done..|]. simplify_eq. by eapply version_lt_trans. }
  assert (∀ a, is_older_version a a = false) as Hi.
  { intros a. apply not_true_iff_false. intros (pa & pb & Ha & Hb & H)%is_older_spec.
    simplify_eq. by eapply version_lt_irrefl. }
  split_and!; [done|done| | |].
  - intros a b H. apply not_true_iff_false. intros K. specialize (Ht a b a H K). by rewrite Hi in Ht.
  - intros a b pa pb Ha Hb H K. destruct (version_trichotomy pa pb) as [L|[L|L]]; [|done|].
    + enough (is_older_version a b = true) by congruence. apply is_older_spec. by exists pa, pb.
    + enough (is_older_version b a = true) by congruence. apply is_older_spec. by exists pb, pa.
  - intros a b H. unfold is_older_version. rewrite H. split; [done|by destruct (parse_version b)].
Qed.

Lemma trim_start_chars_v s : match s with String c _ => c ≠ "v"%char | "" => True end →
  trim_start_chars (Ascii.eqb "v") ("v" +:+ s) = s.
Proof.
  intros H. change ("v" +:+ s) with (String "v" s). cbn [trim_start_chars].
  rewrite Ascii.eqb_refl. apply trim_start_chars_id. destruct s; [done|]. by apply Ascii.eqb_neq.
Qed.

Lemma digits_chars s : all_digits s = all_chars is_ascii_digit s.
Proof. induction s as [|c s IH]; [done|]. cbn. by rewrite IH. Qed.

Lemma digit_graphic c : is_ascii_digit c = true → is_graphic c = true.
Proof. unfold is_ascii_digit, is_graphic. rewrite !andb_true_iff, !N.leb_le, N.ltb_lt. lia. Qed.

Lemma prerelease_graphic c : is_prerelease_char c = true → is_graphic c = true.
Proof.
  unfold is_prerelease_char, is_ascii_alphanumeric, is_graphic.
  rewrite !orb_true_iff, !bool_decide_eq_true, !andb_true_iff, !N.leb_le, N.ltb_lt.
  intros [[H| ->]| ->]; [lia|by vm_compute..].
Qed.

Lemma print_dec_head n : match print_dec n with String c _ => is_ascii_digit c = true | "" => False end.
Proof.
  pose proof (digits_print_dec n) as H. pose proof (print_dec_nonempty n).
  destruct (print_dec n) as [|c r]; [done|]. cbn in H. by apply andb_true_iff in H as [? _].
Qed.

Lemma print_dec_numeric n : is_numeric (print_dec n) = true.
Proof.
  unfold is_numeric. rewrite <- digits_chars, digits_print_dec.
  pose proof (print_dec_nonempty n). by destruct (print_dec n).
Qed.

Lemma no_char_print c n : is_ascii_digit c = false → str_contains c (print_dec n) = false.
Proof. intros H. apply all_digits_no_char; [done|apply digits_print_dec]. Qed.

Definition version_core (M m p : N) : string :=
  print_dec M +:+ String "." (print_dec m +:+ String "." (print_dec p)).

Lemma version_core_no_char c M m p : is_ascii_digit c = false → c ≠ "."%char → str_contains c (version_core M m p) = false.
Proof.
  intros H Hd. unfold version_core. rewrite str_contains_app, no_char_print by done. cbn.
  rewrite decide_False, str_contains_app, no_char_print by done. cbn.
  by rewrite decide_False, no_char_print by done.
Qed.

Lemma version_core_graphic M m p : all_chars is_graphic (version_core M m p) = true.
Proof.
  assert (∀ n, all_chars is_graphic (print_dec n) = true) as H.
  { intros n. apply (all_chars_impl is_ascii_digit); [apply digit_graphic|]. rewrite <- digits_chars. apply digits_print_dec. }
  unfold version_core. rewrite all_chars_app, H. cbn. rewrite all_chars_app, H. cbn. apply H.
Qed.

(** A tag: [v], the three numbers, a prerelease identifier and build metadata. *)
Definition print_version (M m p : N) (pre build : option string) : string :=
  "v" +:+ version_core M m p +:+ match pre with Some s => String "-" s | None => "" end
  +:+ match build with Some s => String "+" s | None => "" end.

Definition is_identifier (s : string) : Prop := s ≠ "" ∧ all_chars is_prerelease_char s = true.

(** A tag printed from three 64-bit numbers, with or without a prerelease
    identifier and build metadata, is parsed back to those numbers and to whether
    it is a prerelease; the metadata does not matter. *)
Theorem version_roundtrip M m p pre build :
  (M ≤ u64_max)%N → (m ≤ u64_max)%N → (p ≤ u64_max)%N →
  (∀ s, pre = Some s → is_identifier s) → (∀ s, build = Some s → all_chars is_graphic s = true) →
  parse_version (print_version M m p pre build) = Some (mkVersion M m p (bool_decide (is_Some pre))).
Proof.
  intros HM Hm Hp Hpre Hb.
  set (tail := match build with Some s => String "+" s | None => "" end).
  set (mid := match pre with Some s => String "-" s | None => "" end).
  assert (all_chars is_graphic mid = true ∧ str_contains "+" mid = false) as [Gm Cm].
  { subst mid. destruct pre as [s|]; [|done]. destruct (Hpre s eq_refl) as [_ Hs]. cbn. split.
    - apply (all_chars_impl is_prerelease_char); [apply prerelease_graphic|done].
    - by apply (all_chars_no_char is_prerelease_char). }
  assert (all_chars is_graphic tail = true) as Gt.
  { subst tail. destruct build as [s|]; [|done]. cbn. by apply Hb. }
  unfold parse_version, print_version. fold mid tail.
  rewrite trim_graphic by (rewrite !all_chars_app, version_core_graphic, Gm, Gt; done).
  assert (∀ x, trim_start_chars (Ascii.eqb "v") ("v" +:+ version_core M m p +:+ x) = version_core M m p +:+ x) as Hv.
  { intros x. apply trim_start_chars_v. unfold version_core. pose proof (print_dec_head M).
    destruct (print_dec M) as [|c r]; [done|]. rewrite !str_append_cons. by intros ->. }
  rewrite Hv.
  assert (head (split_char "+" (version_core M m p +:+ mid +:+ tail)) = Some (version_core M m p +:+ mid)) as ->.
  { rewrite <- str_append_assoc.
    assert (str_contains "+" (version_core M m p +:+ mid) = false) by (by rewrite str_contains_app, version_core_no_char).
    subst tail. destruct build as [s|]; [by rewrite split_char_app|]. by rewrite str_append_nil_r, split_char_none. }
  cbn [default from_option id].
  assert (forallb is_numeric [print_dec M; print_dec m; print_dec p] = true) as Hn by (cbn; by rewrite !print_dec_numeric).
  assert (∀ k, splitn 4 "." (version_core M m p) = k → k = [print_dec M; print_dec m; print_dec p]) as Hs.
  { intros k <-. apply splitn_3; by apply no_char_print. }
  subst mid. destruct pre as [s|].
  - rewrite split_once_app by (by apply version_core_no_char). destruct (Hpre s eq_refl) as [Hne Hs'].
    apply String.eqb_neq in Hne. rewrite Hne, Hs'. cbn [negb orb]. rewrite (Hs _ eq_refl), Hn, !parse_print_dec by done. done.
  - rewrite str_append_nil_r. destruct (split_once "-" (version_core M m p)) as [[x y]|] eqn:E.
    { apply split_once_Some in E. pose proof (version_core_no_char "-" M m p eq_refl ltac:(done)) as Hd.
      rewrite E, str_contains_app in Hd. cbn in Hd. rewrite decide_True, orb_true_r in Hd by done. done. }
    rewrite (Hs _ eq_refl), Hn, !parse_print_dec by done. done.
Qed.

(** ** Checksums *)

(** A line that [split_at] cuts inside a character. *)
Definition cuts_char (line : string) : bool :=
  let b := as_bytes (trim_end_char cr line) in
  (66 <=? length b) && match b !! 64 with Some x => is_cont x | None => false end.

Lemma checksum_line_panics line : checksum_line line = Panic ↔ cuts_char line = true.
Proof.
  unfold checksum_line, cuts_char, split_at. rewrite <- str_len_as_bytes.
  set (b := as_bytes _). rewrite andb_true_iff, Nat.leb_le.
  destruct (Nat.ltb_spec (length b) 66) as [Hl|Hl]; [split; [done|lia]|].
  destruct (lookup_lt_is_Some_2 b 64) as [x Hx]; [lia|]. rewrite Hx.
  destruct (is_cont x); [by split|]. split; [done|by intros [_ ?]].
Qed.

Lemma checksum_lines_panics ls map : checksum_lines ls map = Panic ↔ existsb cuts_char ls = true.
Proof.
  revert map. induction ls as [|l ls IH]; intros map; [done|]. cbn [checksum_lines existsb].
  rewrite orb_true_iff, <- checksum_line_panics. destruct (checksum_line l) as [[[rest hash]|]|]; [| |by intuition].
  all: rewrite IH; intuition done.
Qed.

(** Reading [checksums.txt] stops the program exactly when some line of at
    least 66 bytes has byte 64 inside a character; otherwise it gives a map. *)
Theorem checksums_panic text : parse_checksums text = Panic ↔ existsb cuts_char (lines text) = true.
Proof. apply checksum_lines_panics. Qed.

(** One entry as [sha256sum] prints it. *)
Definition checksum_entry (e : string * string) : string := e.2 +:+ "  " +:+ e.1.
Definition plain_char (c : ascii) : bool := negb (bool_decide (c = cr)) && negb (bool_decide (c = lf)).
Definition valid_entry (e : string * string) : Prop :=
  str_len e.2 = 64 ∧ all_chars is_hash_char e.2 = true ∧
  all_chars plain_char e.1 = true ∧ match e.1 with String c _ => c ≠ " "%char ∧ c ≠ ascii_of_N 9 | "" => False end.

Lemma trim_end_char_plain c s : str_contains c s = false → trim_end_char c s = s.
Proof.
  induction s as [|x s IH]; [done|]. cbn. case_decide as H; [done|]. intros Hs. rewrite (IH Hs).
  destruct s; [by rewrite decide_False|done].
Qed.

Lemma hash_char_plain c : is_hash_char c = true → plain_char c = true.
Proof.
  unfold is_hash_char, is_ascii_digit, plain_char. rewrite orb_true_iff, !andb_true_iff, !N.leb_le, !negb_true_iff, !bool_decide_eq_false.
  intros H. split; intros ->; vm_compute in H; intuition discriminate.
Qed.

Lemma checksum_entry_plain e : valid_entry e → all_chars plain_char (checksum_entry e) = true.
Proof.
  intros (_ & H & P & _). unfold checksum_entry. rewrite !all_chars_app, P.
  by rewrite (all_chars_impl _ _ _ hash_char_plain H).
Qed.

Lemma checksum_line_entry e : valid_entry e → checksum_line (checksum_entry e) = Ret (Some e).
Proof.
  intros V. pose proof (checksum_entry_plain e V) as P. destruct V as (L & H & _ & F), e as [name hash]. cbn [fst snd] in *.
  unfold checksum_line. rewrite trim_end_char_plain by (by apply (all_chars_no_char plain_char)).
  assert (66 ≤ str_len (checksum_entry (name, hash))) as Hl.
  { unfold checksum_entry; cbn [fst snd]. rewrite !str_len_app, L. destruct name; [done|]. cbn. lia. }
  rewrite (proj2 (Nat.ltb_ge _ _)) by done.
  assert (split_at 64 (checksum_entry (name, hash)) = Ret (hash, "  " +:+ name)) as ->.
  { unfold split_at, checksum_entry; cbn [fst snd]. rewrite as_bytes_app.
    rewrite lookup_app_r by (rewrite str_len_as_bytes; lia). rewrite str_len_as_bytes, L.
    change (as_bytes ("  " +:+ name) !! (64 - 64)) with (Some " "%char). cbn [is_cont].
    rewrite take_app_length', drop_app_length' by (by rewrite str_len_as_bytes). by rewrite !str_of_as_bytes. }
  rewrite H. change ("  " +:+ name) with (String " " (String " " name)). cbn [trim_start_chars].
  rewrite bool_decide_true by (by left).
  rewrite trim_start_chars_id by (destruct name; [done|]; apply bool_decide_false; tauto).
  destruct name; [done|]. done.
Qed.

(** A list of checksums printed one per line is read back as the map from
    name to hash, the last entry for a name winning. *)
Theorem checksums_roundtrip (l : list (string * string)) :
  (∀ e, e ∈ l → valid_entry e) →
  parse_checksums (join (String lf "") (checksum_entry <$> l) +:+ String lf "") = Ret (list_to_map (reverse l)).
Proof.
  intros V.
  assert (∀ p, p ∈ checksum_entry <$> l → all_chars plain_char p = true ∧ p ≠ "") as Hp.
  { intros p (e & -> & He)%list_elem_of_fmap. split; [by apply checksum_entry_plain, V|].
    destruct (V e He) as (L & _). unfold checksum_entry. by destruct e.2. }
  assert (lines (join (String lf "") (checksum_entry <$> l) +:+ String lf "") = checksum_entry <$> l ∨ l = []) as Hl.
  { destruct (decide (l = [])) as [->|Hne]; [by right|left]. unfold lines.
    rewrite split_join_app; [|by destruct l|intros p Hq; by apply (all_chars_no_char plain_char), (Hp p Hq)].
    apply lines_of_plain. intros p Hq. split; [apply (Hp p Hq)|]. by apply (all_chars_no_char plain_char), (Hp p Hq). }
  unfold parse_checksums. destruct Hl as [->| ->]; [|done].
  assert (∀ m, checksum_lines (checksum_entry <$> l) m = Ret (foldl (λ m e, <[e.1 := e.2]> m) m l)) as Hc.
  { clear Hp. induction l as [|e l IH]; intros m; [done|]. cbn [fmap list_fmap checksum_lines foldl].
    rewrite checksum_line_entry by (apply V; left). destruct e as [n h]. cbn [fst snd].
    apply IH. intros e' He'. apply V. by right. }
  rewrite Hc. f_equal. clear. unfold list_to_map.
  induction l as [|e l IH] using rev_ind; [done|]. rewrite foldl_app, reverse_app. cbn. by rewrite IH.
Qed.

(** ** The answer of a new binary *)

(** A new binary passes exactly when it exited with status 0 and its output,
    trimmed, begins with [tp v] and a digit; what is reported is the first line. *)
Theorem verified_iff out v :
  analyze_verification_output out = Verified v ↔
  exit_code out = Some 0%Z ∧
  ∃ d rest, trim (stdout out) = "tp v" +:+ String d rest ∧ is_ascii_digit d = true ∧
    v = trim (default (trim (stdout out)) (head (lines (trim (stdout out))))).
Proof.
  unfold analyze_verification_output. destruct (exit_code out) as [c|].
  2:{ cbn [bool_decide orb andb]. rewrite bool_decide_true by done. cbn [orb andb].
      split; [by destruct (signal out)|by intros [? _]]. }
  rewrite (bool_decide_false (Some c = None)) by done. rewrite andb_false_l, orb_false_r. cbn [orb].
  case_bool_decide as Hc.
  { split; [|by intros [[= ->] _]]. case_bool_decide; [|done]. by destruct (signal out). }
  subst c.
  destruct (String.eqb_spec (trim (stdout out)) "") as [->|Hne].
  { split; [done|]. by intros (_ & d & rest & H & _). }
  destruct (strip_prefix "tp v" (trim (stdout out))) as [[|d rest]|] eqn:Ep.
  - split; [done|]. intros (_ & d & rest & H & _). by rewrite H, strip_prefix_app in Ep.
  - destruct (is_ascii_digit d) eqn:Ed.
    + split.
      * intros [= <-]. split; [done|]. exists d, rest. split_and!; [by apply strip_prefix_Some|done|done].
      * by intros (_ & ? & ? & _ & _ & ->).
    + split; [done|]. intros (_ & d' & rest' & H & Hd & _). rewrite H, strip_prefix_app in Ep. congruence.
  - split; [done|]. intros (_ & d & rest & H & _). by rewrite H, strip_prefix_app in Ep.
Qed.

Module Demo.
Definition prerelease_tag : string := print_version 1 20 3 (Some "rc.1") (Some "build.5").

Lemma version_roundtrip_witness : parse_version prerelease_tag = Some (mkVersion 1 20 3 true).
Proof.
  apply (version_roundtrip 1 20 3 (Some "rc.1") (Some "build.5")).
  - vm_compute. discriminate.
  - vm_compute. discriminate.
  - vm_compute. discriminate.
  - intros s [= <-]. split; [discriminate|reflexivity].
  - intros s [= <-]. reflexivity.
Defined.

(** The pattern in the comment wants an identifier after the plus sign and one [v]
    at most; the code takes anything after it, and any number of [v]s. *)
Example metadata_unchecked : parse_version "vvv1.2.3+ not a version" = Some (mkVersion 1 2 3 false).
Proof. by vm_compute. Qed.

Definition a_hash : string := repeat_char "a"%char 64.
Definition b_hash : string := repeat_char "b"%char 64.

Lemma checksums_roundtrip_witness :
  parse_checksums (join (String lf "") (checksum_entry <$> [("tp-linux_x64", a_hash); ("tp-darwin_arm64", b_hash); ("tp-linux_x64", b_hash)]) +:+ String lf "")
  = Ret (<["tp-linux_x64" := b_hash]> (<["tp-darwin_arm64" := b_hash]> (<["tp-linux_x64" := a_hash]> ∅))).
Proof.
  apply (checksums_roundtrip [("tp-linux_x64", a_hash); ("tp-darwin_arm64", b_hash); ("tp-linux_x64", b_hash)]).
  intros e He. apply list_elem_of_In in He.
  repeat (destruct He as [<-|He]; [vm_compute; split_and!; reflexivity || discriminate|]). destruct He.
Defined.

(** The letter é at the 64th byte: a comment line stops the program. *)
Example accent_panics :
  parse_checksums (repeat_char "-"%char 63 +:+ String (ascii_of_N 195) (String (ascii_of_N 169) " end")) = Panic.
Proof. by vm_compute. Qed.
End Demo.
