(* ===== verification/Files.v ===== *)
(** * Files: paths by component, a file system whose operations may fail, and a
    state monad over both.  Operation [t] of a run asks the system whether it fails;
    a copy or a write that fails may leave anything in the file it was writing.
    [std::path], [std::fs] and [std::process::Command] as [tp-cli] uses them. *)
From stdpp Require Import base list numbers strings gmap.
From Stdlib Require Import Lia NArith ZArith Ascii.
From S2P Require Import Prelude Bytes Text.

(** ** Paths *)

Inductive Component := RootDir | CurDir | ParentDir | Normal (name : string).
#[export] Instance Component_eq_dec : EqDecision Component.
Proof. solve_decision. Defined.
#[export] Instance Component_countable : Countable Component.
Proof.
  refine (inj_countable' (λ c, match c with RootDir => inl 0 | CurDir => inl 1 | ParentDir => inl 2 | Normal s => inr s end)
    (λ x : nat + string, match x with inl 0 => RootDir | inl 1 => CurDir | inl _ => ParentDir | inr s => Normal s end) _).
  by intros [].
Defined.

(** A path, up to [Path]'s own equality. *)
Abbreviation PathBuf := (list Component).

Definition component_of (piece : string) : option Component :=
  if String.eqb piece "" || String.eqb piece "." then None
  else Some (if String.eqb piece ".." then ParentDir else Normal piece).

(** [Path::components]: repeated slashes and inner [.]s are dropped, a leading [.] is kept. *)
Definition path_components (s : string) : PathBuf :=
  match split_char "/"%char s with
  | "" :: _ :: _ as pieces => RootDir :: omap component_of pieces
  | "." :: pieces => CurDir :: omap component_of pieces
  | pieces => omap component_of pieces
  end.

Definition component_text (c : Component) : string :=
  match c with RootDir => "" | CurDir => "." | ParentDir => ".." | Normal s => s end.

Definition show_path (p : PathBuf) : string :=
  match p with [RootDir] => "/" | _ => join "/" (component_text <$> p) end.

Definition path_parent (p : PathBuf) : option PathBuf :=
  match last p with Some RootDir | None => None | Some _ => Some (removelast p) end.
Definition path_file_name (p : PathBuf) : option string :=
  match last p with Some (Normal s) => Some s | _ => None end.
Definition is_absolute (p : PathBuf) : bool := bool_decide (head p = Some RootDir).

(** [PathBuf::from(format!("{}{suffix}", p.display()))] *)
Definition with_suffix (p : PathBuf) (suffix : string) : PathBuf :=
  match last p with
  | None | Some RootDir => p ++ [Normal suffix]
  | Some c => removelast p ++ [Normal (component_text c +:+ suffix)]
  end.

Lemma with_suffix_name d s x : with_suffix (d ++ [Normal s]) x = d ++ [Normal (s +:+ x)].
Proof. unfold with_suffix. rewrite last_snoc. cbn. by rewrite removelast_last. Qed.

(** ** Files *)

Inductive Node := File (content : string) | Dir.
Abbreviation Files := (@gmap (list Component) (@list_eq_dec Component Component_eq_dec) (@list_countable Component Component_eq_dec Component_countable) Node).

Definition file_at (fs : Files) (p : PathBuf) : option string :=
  match fs !! p with Some (File c) => Some c | _ => None end.

Record IoError := mkIo { raw_os_error : Z; io_text : string }.
Definition EXDEV : Z := 18.
Definition not_found : IoError := mkIo 2 "No such file or directory (os error 2)".
Definition is_a_directory : IoError := mkIo 21 "Is a directory (os error 21)".
Definition already_exists : IoError := mkIo 17 "File exists (os error 17)".
Definition not_a_directory : IoError := mkIo 20 "Not a directory (os error 20)".

Inductive Op :=
| ORename (src dst : PathBuf)
| OCopy (src dst : PathBuf)
| ORemove (p : PathBuf)
| ORemoveAll (p : PathBuf)
| OCreateDirAll (p : PathBuf)
| OCreate (p : PathBuf)
| OWrite (p : PathBuf)
| ORead (p : PathBuf)
| OMetadata (p : PathBuf)
| OSetMode (p : PathBuf)
| OSync (p : PathBuf)
| OLock (p : PathBuf).

(** The system: whether the [t]-th operation fails, what a failing write leaves in
    its file (nothing when the file was not touched), and which files a failing
    [remove_dir_all] leaves. *)
Record System := mkSystem {
  fails : nat → Op → option IoError;
  leaves : nat → option string;
  survives : nat → PathBuf → bool
}.

(** The world of a run, with the local variables [L] of the function that runs:
    the files, the operations so far, the programs started. *)
Record World (L : Type) := mkWorld { files : Files; tick : nat; started : list (string * list string); locals : L }.
Arguments mkWorld {L} _ _ _ _.
Arguments files {L} _.
Arguments tick {L} _.
Arguments started {L} _.
Arguments locals {L} _.

(** What a function gives: a value, an error for its caller, or a panic. *)
Inductive Res (A : Type) := Val (a : A) | Error (e : string) | Panicked.
Arguments Val {A} a.
Arguments Error {A} e.
Arguments Panicked {A}.

Definition Io (L A : Type) : Type := World L → Res A * World L.

Section io.
Context {L : Type}.

Definition ret {A} (a : A) : Io L A := λ w, (Val a, w).
Definition fail {A} (e : string) : Io L A := λ w, (Error e, w).
Definition panic {A} : Io L A := λ w, (Panicked, w).
Definition bind {A B} (m : Io L A) (k : A → Io L B) : Io L B := λ w,
  match m w with
  | (Val a, w) => k a w
  | (Error e, w) => (Error e, w)
  | (Panicked, w) => (Panicked, w)
  end.

(** The error as a value. *)
Definition attempt {A} (m : Io L A) : Io L (result A string) := λ w,
  match m w with
  | (Val a, w) => (Val (Ok a), w)
  | (Error e, w) => (Val (Err e), w)
  | (Panicked, w) => (Panicked, w)
  end.

Definition get_locals : Io L L := λ w, (Val (locals w), w).
Definition modify (f : L → L) : Io L unit := λ w, (Val tt, mkWorld (files w) (tick w) (started w) (f (locals w))).
Definition exists_ (p : PathBuf) : Io L bool := λ w, (Val (bool_decide (is_Some (files w !! p))), w).
Definition start_program (prog : string) (args : list string) : Io L unit := λ w,
  (Val tt, mkWorld (files w) (tick w) (started w ++ [(prog, args)]) (locals w)).

Fixpoint for_each {A} (l : list A) (f : A → Io L unit) : Io L unit :=
  match l with [] => ret tt | x :: l => bind (f x) (λ _, for_each l f) end.

Section ops.
Context (sys : System).

(** An operation of the system: its failure, or what it does. *)
Definition operation {A : Type} (op : Op) (on_failure : Files → Files) (act : Files → result A IoError * Files) : Io L (result A IoError) := λ w,
  let '(r, fs) := match fails sys (tick w) op with
                  | Some e => (Err e, on_failure (files w))
                  | None => act (files w)
                  end in
  (Val r, mkWorld fs (S (tick w)) (started w) (locals w)).

(** A failing write to [p]. *)
Definition spoil (p : PathBuf) (t : nat) (fs : Files) : Files :=
  match leaves sys t, fs !! p with
  | None, _ | _, Some Dir => fs
  | Some junk, _ => <[p := File junk]> fs
  end.
Definition writing {A : Type} (op : Op) (p : PathBuf) (act : Files → result A IoError * Files) : Io L (result A IoError) := λ w,
  operation op (spoil p (tick w)) act w.

(** The code renames files only: what is in a directory does not move. *)
Definition rename (src dst : PathBuf) : Io L (result unit IoError) :=
  operation (ORename src dst) id (λ fs,
    match fs !! src, fs !! dst with
    | None, _ => (Err not_found, fs)
    | Some (File _), Some Dir => (Err is_a_directory, fs)
    | Some Dir, Some (File _) => (Err not_a_directory, fs)
    | Some n, _ => (Ok tt, <[dst := n]> (delete src fs))
    end).

(** The number of bytes copied is not used. *)
Definition copy (src dst : PathBuf) : Io L (result unit IoError) := λ w,
  match files w !! src with
  | Some (File c) =>
      writing (OCopy src dst) dst (λ fs,
        match fs !! dst with Some Dir => (Err is_a_directory, fs) | _ => (Ok tt, <[dst := File c]> fs) end) w
  | Some Dir => operation (OCopy src dst) id (λ fs, (Err is_a_directory, fs)) w
  | None => operation (OCopy src dst) id (λ fs, (Err not_found, fs)) w
  end.

Definition remove_file (p : PathBuf) : Io L (result unit IoError) :=
  operation (ORemove p) id (λ fs,
    match fs !! p with
    | Some (File _) => (Ok tt, delete p fs)
    | Some Dir => (Err is_a_directory, fs)
    | None => (Err not_found, fs)
    end).

(** What is at or under [p]. *)
Definition under (p q : PathBuf) : bool := bool_decide (p `prefix_of` q).

Definition remove_dir_all (p : PathBuf) : Io L (result unit IoError) := λ w,
  operation (ORemoveAll p) (λ fs, filter (λ kn, under p kn.1 = false ∨ survives sys (tick w) kn.1 = true) fs) (λ fs,
    match fs !! p with
    | None => (Err not_found, fs)
    | Some (File _) => (Err not_a_directory, fs)
    | Some Dir => (Ok tt, filter (λ kn, under p kn.1 = false) fs)
    end) w.

(** The directories on the way to [p], [p] included. *)
Definition ancestors (p : PathBuf) : list PathBuf := (λ k, take k p) <$> seq 1 (length p).

(** Directories that a failing call had made are not recorded. *)
Definition create_dir_all (p : PathBuf) : Io L (result unit IoError) :=
  operation (OCreateDirAll p) id (λ fs,
    if existsb (λ q, bool_decide (is_Some (file_at fs q))) (ancestors p) then (Err not_a_directory, fs)
    else (Ok tt, foldl (λ fs q, <[q := Dir]> fs) fs (ancestors p))).

(** [File::create] and then the whole of [content]. *)
Definition create (p : PathBuf) : Io L (result unit IoError) :=
  operation (OCreate p) id (λ fs,
    match fs !! p with Some Dir => (Err is_a_directory, fs) | _ => (Ok tt, <[p := File ""]> fs) end).
Definition write_all (p : PathBuf) (content : string) : Io L (result unit IoError) :=
  writing (OWrite p) p (λ fs, (Ok tt, <[p := File content]> fs)).

Definition read (p : PathBuf) : Io L (result string IoError) :=
  operation (ORead p) id (λ fs,
    (match fs !! p with Some (File c) => Ok c | Some Dir => Err is_a_directory | None => Err not_found end, fs)).

Definition metadata (p : PathBuf) : Io L (result unit IoError) :=
  operation (OMetadata p) id (λ fs, (match fs !! p with Some _ => Ok tt | None => Err not_found end, fs)).
Definition set_mode (p : PathBuf) : Io L (result unit IoError) :=
  operation (OSetMode p) id (λ fs, (match fs !! p with Some _ => Ok tt | None => Err not_found end, fs)).

(** [O_EXCL]; the file opened or made as it is; [fsync]; a lock that is waited for. *)
Definition create_new (p : PathBuf) : Io L (result unit IoError) :=
  operation (OCreate p) id (λ fs, match fs !! p with Some _ => (Err already_exists, fs) | None => (Ok tt, <[p := File ""]> fs) end).
Definition open_or_create (p : PathBuf) : Io L (result unit IoError) :=
  operation (OCreate p) id (λ fs,
    match fs !! p with
    | Some Dir => (Err is_a_directory, fs)
    | Some (File _) => (Ok tt, fs)
    | None => (Ok tt, <[p := File ""]> fs)
    end).
Definition sync_all (p : PathBuf) : Io L (result unit IoError) := operation (OSync p) id (λ fs, (Ok tt, fs)).
Definition lock (p : PathBuf) : Io L (result unit IoError) := operation (OLock p) id (λ fs, (Ok tt, fs)).
End ops.

(** [.map_err(f)?] *)
Definition or_err {A} (m : Io L (result A IoError)) (f : string → string) : Io L A :=
  bind m (λ r, match r with Ok a => ret a | Err e => fail (f (io_text e)) end).
(** A function with local variables [l], in a caller with other ones. *)
Definition scope {K A} (l : K) (m : Io K A) : Io L A := λ w,
  let '(r, w') := m (mkWorld (files w) (tick w) (started w) l) in
  (r, mkWorld (files w') (tick w') (started w') (locals w)).
(** [let _ = m;] *)
Definition ignore {A} (m : Io L A) : Io L unit := bind m (λ _, ret tt).
End io.

Declare Scope io_scope.
Delimit Scope io_scope with io.
Notation "x ← m ; k" := (bind m (λ x, k)) (at level 20, m at level 100, k at level 200, right associativity) : io_scope.
Notation "' p ← m ; k" := (bind m (λ x, let p := x in k)) (at level 20, p pattern, m at level 100, k at level 200, right associativity) : io_scope.
Notation "m ;; k" := (bind m (λ _, k)) (at level 100, k at level 200, right associativity) : io_scope.
Notation "'when' b 'do' m" := (if b then m else ret tt) (at level 60, b at level 100, m at level 60) : io_scope.

(** ** Reasoning *)

Section rules.
Context {L : Type}.

(** From [P], [m] gives a value with [Q], or stops in [E]. *)
Definition hoare {A} (P : World L → Prop) (m : Io L A) (Q : A → World L → Prop) (E : World L → Prop) : Prop :=
  ∀ w, P w → match m w with (Val a, w') => Q a w' | (_, w') => E w' end.

Lemma hoare_ret {A} (a : A) P E : hoare P (ret a) (λ x w, x = a ∧ P w) E.
Proof. intros w Hw. done. Qed.

Lemma hoare_weaken {A} (P P' : World L → Prop) (m : Io L A) (Q Q' : A → World L → Prop) (E E' : World L → Prop) :
  hoare P m Q E → (∀ w, P' w → P w) → (∀ a w, Q a w → Q' a w) → (∀ w, E w → E' w) → hoare P' m Q' E'.
Proof. intros H Hp Hq He w Hw. specialize (H w (Hp w Hw)). destruct (m w) as [[]]; auto. Qed.

Lemma hoare_bind {A B} P (m : Io L A) Q (k : A → Io L B) R E :
  hoare P m Q E → (∀ a, hoare (Q a) (k a) R E) → hoare P (bind m k) R E.
Proof. intros Hm Hk w Hw. specialize (Hm w Hw). unfold bind. destruct (m w) as [[a|e|] w']; [by apply Hk|done..]. Qed.

Lemma hoare_attempt {A} P (m : Io L A) Q E :
  hoare P m Q E → hoare P (attempt m) (λ r w, match r with Ok a => Q a w | Err _ => E w end) E.
Proof. intros Hm w Hw. specialize (Hm w Hw). unfold attempt. by destruct (m w) as [[a|e|] w']. Qed.

(** An invariant over what is left of the list. *)
Lemma hoare_for_each {A} (I : list A → World L → Prop) (f : A → Io L unit) E l :
  (∀ x r, x ∈ l → hoare (I (x :: r)) (f x) (λ _, I r) E) → hoare (I l) (for_each l f) (λ _, I []) E.
Proof.
  induction l as [|x l IH]; intros H; [by intros w|]. cbn [for_each].
  eapply hoare_bind; [by apply H; left|]. intros []. apply IH. intros y r Hy. apply H. by right.
Qed.

(** Where no element comes twice, one at a time. *)
Lemma hoare_each_nodup {A} (I : list A → World L → Prop) (f : A → Io L unit) E l : NoDup l →
  (∀ x r, x ∈ l → x ∉ r → r ⊆ l → hoare (I (x :: r)) (f x) (λ _, I r) E) → hoare (I l) (for_each l f) (λ _, I []) E.
Proof.
  intros Hnd. induction Hnd as [|x l Hx Hnd IH]; intros H; [by intros w|]. cbn [for_each].
  eapply hoare_bind; [apply H; [by left|done|by intros y ?; right]|]. intros []. apply IH.
  intros y r Hy Hr Hsub. apply H; [by right|done|]. intros z Hz. right. by apply Hsub.
Qed.

(** [m] leaves alone the files of [S] and the part [V] of the local variables. *)
Definition steady {X A} (S : PathBuf → Prop) (V : L → X) (m : Io L A) : Prop := ∀ w,
  V (locals (m w).2) = V (locals w) ∧ ∀ p, S p → file_at (files (m w).2) p = file_at (files w) p.

(** [m] always gives a value. *)
Definition total {A} (m : Io L A) : Prop := ∀ w, ∃ a, (m w).1 = Val a.

Lemma hoare_steady {X A} S (V : L → X) (m : Io L A) (P : World L → Prop) :
  steady S V m →
  (∀ w w', V (locals w') = V (locals w) → (∀ p, S p → file_at (files w') p = file_at (files w) p) → P w → P w') →
  hoare P m (λ _, P) P.
Proof.
  intros Hm HP w Hw. destruct (Hm w) as [H1 H2].
  enough (P (m w).2) by (by destruct (m w) as [[] ?]). by eapply HP.
Qed.

Lemma hoare_total {A} P (m : Io L A) E : total m → hoare P m (λ _ _, True) E.
Proof. intros Hm w _. destruct (Hm w) as [a Ha]. by destruct (m w) as [[]]; simplify_eq/=. Qed.

(** Two accounts of one run. *)
Lemma hoare_and {A} P P' (m : Io L A) (Q Q' : A → World L → Prop) (E E' : World L → Prop) :
  hoare P m Q E → hoare P' m Q' E' → hoare (λ w, P w ∧ P' w) m (λ a w, Q a w ∧ Q' a w) (λ w, E w ∧ E' w).
Proof. intros H H' w [Hw Hw']. specialize (H w Hw). specialize (H' w Hw'). by destruct (m w) as [[]]. Qed.

Lemma hoare_exists {A X} (P : X → World L → Prop) (m : Io L A) Q E :
  (∀ x, hoare (P x) m Q E) → hoare (λ w, ∃ x, P x w) m Q E.
Proof. intros H w [x Hw]. by apply (H x). Qed.

Lemma hoare_pure {A} (φ : Prop) P (m : Io L A) Q E : (φ → hoare P m Q E) → hoare (λ w, P w ∧ φ) m Q E.
Proof. intros H w [Hw Hφ]. by apply H. Qed.

Lemma copy_locals sys src dst (w : World L) : locals (copy sys src dst w).2 = locals w ∧ started (copy sys src dst w).2 = started w.
Proof.
  unfold copy, writing, operation.
  destruct (files w !! src) as [[]|]; destruct (fails _ _ _); try done.
  all: by destruct (files w !! dst) as [[]|].
Qed.

(** [m] keeps what [T] says of the local variables. *)
Definition stable {A} (T : L → Prop) (m : Io L A) : Prop := ∀ w, T (locals w) → T (locals (m w).2).

Section stable.
Context (T : L → Prop).

Lemma stable_same {A} (m : Io L A) : (∀ w, locals (m w).2 = locals w) → stable T m.
Proof. intros H w. by rewrite H. Qed.
Lemma stable_bind {A B} (m : Io L A) (k : A → Io L B) : stable T m → (∀ a, stable T (k a)) → stable T (bind m k).
Proof. intros Hm Hk w Hw. specialize (Hm w Hw). unfold bind. destruct (m w) as [[a|e|] w']; [by apply Hk|done..]. Qed.
Lemma stable_modify f : (∀ l, T l → T (f l)) → stable T (modify f).
Proof. intros H w. apply H. Qed.
Lemma stable_attempt {A} (m : Io L A) : stable T m → stable T (attempt m).
Proof. intros Hm w Hw. specialize (Hm w Hw). unfold attempt. by destruct (m w) as [[] ?]. Qed.
Lemma stable_for_each {A} (l : list A) f : (∀ x, stable T (f x)) → stable T (for_each l f).
Proof. intros H. induction l as [|x l IH]; [by intros w|]. by apply stable_bind; [|intros _]. Qed.
Lemma stable_operation sys {A : Type} op on_failure (act : Files → result A IoError * Files) : stable T (operation sys op on_failure act).
Proof. intros w. unfold operation. destruct (fails _ _ _); [done|]. by destruct (act _). Qed.
Lemma stable_copy sys src dst : stable T (copy sys src dst).
Proof. apply stable_same. intros w. apply copy_locals. Qed.
End stable.

Lemma total_ret {A} (a : A) : total (ret a).
Proof. intros w. by eexists. Qed.
Lemma total_bind {A B} (m : Io L A) (k : A → Io L B) : total m → (∀ a, total (k a)) → total (bind m k).
Proof. intros Hm Hk w. unfold bind. destruct (Hm w) as [a Ha]. destruct (m w) as [r w']. cbn in Ha. subst r. apply Hk. Qed.
Lemma total_get : total get_locals.
Proof. intros w. by eexists. Qed.
Lemma total_modify f : total (modify f).
Proof. intros w. by eexists. Qed.
Lemma total_exists p : total (exists_ p).
Proof. intros w. by eexists. Qed.
Lemma total_start prog args : total (start_program prog args).
Proof. intros w. by eexists. Qed.
Lemma total_ignore {A} (m : Io L A) : total m → total (ignore m).
Proof. intros H. apply total_bind; [done|]. intros _. apply total_ret. Qed.
Lemma total_for_each {A} (l : list A) f : (∀ x, total (f x)) → total (for_each l f).
Proof. intros H. induction l as [|x l IH]; [apply total_ret|]. by apply total_bind; [|intros _]. Qed.
Lemma total_operation sys {A : Type} op on_failure (act : Files → result A IoError * Files) : total (operation sys op on_failure act).
Proof. intros w. unfold operation. destruct (fails _ _ _); [by eexists|]. destruct (act _). by eexists. Qed.

(** [m] never panics. *)
Definition calm {A} (m : Io L A) : Prop := ∀ w, (m w).1 ≠ Panicked.
Lemma calm_total {A} (m : Io L A) : total m → calm m.
Proof. intros H w. by destruct (H w) as [a ->]. Qed.
Lemma calm_ret {A} (a : A) : calm (ret a).
Proof. by intros w. Qed.
Lemma calm_fail {A} e : calm (fail (A:=A) e).
Proof. by intros w. Qed.
Lemma calm_bind {A B} (m : Io L A) (k : A → Io L B) : calm m → (∀ a, calm (k a)) → calm (bind m k).
Proof. intros Hm Hk w. unfold bind. specialize (Hm w). destruct (m w) as [[a|e|] w']; [apply Hk|done|done]. Qed.
Lemma calm_attempt {A} (m : Io L A) : calm m → calm (attempt m).
Proof. intros Hm w. unfold attempt. specialize (Hm w). by destruct (m w) as [[a|e|] w']. Qed.
Lemma calm_or_err {A} (m : Io L (result A IoError)) f : calm m → calm (or_err m f).
Proof. intros Hm. apply calm_bind; [done|]. by intros []. Qed.
Lemma calm_ignore {A} (m : Io L A) : calm m → calm (ignore m).
Proof. intros Hm. by apply calm_bind. Qed.
Lemma calm_for_each {A} (l : list A) f : (∀ x, calm (f x)) → calm (for_each l f).
Proof. intros H. induction l as [|x l IH]; [apply calm_ret|]. by apply calm_bind; [|intros _]. Qed.
Lemma calm_operation sys {A : Type} op on_failure (act : Files → result A IoError * Files) : calm (operation sys op on_failure act).
Proof. apply calm_total, total_operation. Qed.
Lemma calm_writing sys {A : Type} op p (act : Files → result A IoError * Files) : calm (writing sys op p act).
Proof. intros w. apply calm_operation. Qed.
Lemma calm_copy sys src dst : calm (copy sys src dst).
Proof. intros w. unfold copy. destruct (files w !! src) as [[]|]; [apply calm_writing|apply calm_operation..]. Qed.
Lemma calm_modify f : calm (modify f).
Proof. by intros w. Qed.
Lemma calm_get : calm get_locals.
Proof. by intros w. Qed.
Lemma calm_exists p : calm (exists_ p).
Proof. by intros w. Qed.
Lemma calm_start prog args : calm (start_program prog args).
Proof. by intros w. Qed.

(** What an operation leaves after it has failed or succeeded. *)
Lemma hoare_or_err {A} P (m : Io L (result A IoError)) f (Q : A → World L → Prop) E :
  hoare P m (λ r w, match r with Ok a => Q a w | Err _ => E w end) E → hoare P (or_err m f) Q E.
Proof. intros H. eapply hoare_bind; [exact H|]. intros [a|e] w Hw; exact Hw. Qed.

Section steady.
Context {X : Type} (S : PathBuf → Prop) (V : L → X).
Notation steady := (steady S V).

Lemma steady_pure {A} (r : World L → Res A) : steady (λ w, (r w, w)).
Proof. by intros w. Qed.
Lemma steady_ret {A} (a : A) : steady (ret a).
Proof. by intros w. Qed.
Lemma steady_fail {A} e : steady (fail (A:=A) e).
Proof. by intros w. Qed.
Lemma steady_panic {A} : steady (panic (A:=A)).
Proof. by intros w. Qed.
Lemma steady_get : steady get_locals.
Proof. by intros w. Qed.
Lemma steady_exists p : steady (exists_ p).
Proof. by intros w. Qed.
Lemma steady_start prog args : steady (start_program prog args).
Proof. by intros w. Qed.
Lemma steady_modify f : (∀ l, V (f l) = V l) → steady (modify f).
Proof. intros H w. by split; [apply H|]. Qed.

Lemma steady_bind {A B} (m : Io L A) (k : A → Io L B) : steady m → (∀ a, steady (k a)) → steady (bind m k).
Proof.
  intros Hm Hk w. unfold bind. destruct (Hm w) as [H1 H2].
  destruct (m w) as [[a|e|] w']; [|done|done]. destruct (Hk a w') as [K1 K2]. cbn [snd] in *. split; [congruence|].
  intros p Hp. by rewrite K2, H2.
Qed.
Lemma steady_attempt {A} (m : Io L A) : steady m → steady (attempt m).
Proof. intros Hm w. unfold attempt. specialize (Hm w). by destruct (m w) as [[] ?]. Qed.
Lemma steady_or_err {A} (m : Io L (result A IoError)) f : steady m → steady (or_err m f).
Proof. intros Hm. apply steady_bind; [done|]. intros []; [apply steady_ret|apply steady_fail]. Qed.
Lemma steady_ignore {A} (m : Io L A) : steady m → steady (ignore m).
Proof. intros Hm. apply steady_bind; [done|]. intros _. apply steady_ret. Qed.
Lemma steady_for_each {A} (l : list A) f : (∀ x, x ∈ l → steady (f x)) → steady (for_each l f).
Proof.
  induction l as [|x l IH]; intros H; [apply steady_ret|].
  apply steady_bind; [apply H; left|]. intros _. apply IH. intros y Hy. apply H. by right.
Qed.

Section ops.
Context (sys : System).

Lemma steady_operation {A : Type} op on_failure (act : Files → result A IoError * Files) :
  (∀ fs p, S p → file_at (on_failure fs) p = file_at fs p) →
  (∀ fs p, S p → file_at (act fs).2 p = file_at fs p) → steady (operation sys op on_failure act).
Proof.
  intros Hf Ha w. unfold operation. destruct (fails sys (tick w) op); [by split; [|apply Hf]|].
  specialize (Ha (files w)). destruct (act (files w)). by split; [|apply Ha].
Qed.

Lemma file_at_insert fs p n q : q ≠ p → file_at (<[p := n]> fs) q = file_at fs q.
Proof. intros H. unfold file_at. by rewrite lookup_insert_ne. Qed.
Lemma file_at_delete fs p q : q ≠ p → file_at (delete p fs) q = file_at fs q.
Proof. intros H. unfold file_at. by rewrite lookup_delete_ne. Qed.

Lemma file_at_spoil p t fs q : q ≠ p → file_at (spoil sys p t fs) q = file_at fs q.
Proof.
  intros H. unfold spoil. destruct (leaves sys t); [|done].
  destruct (fs !! p) as [[]|]; [by apply file_at_insert|done|by apply file_at_insert].
Qed.

Ltac by_lookup :=
  repeat match goal with
         | |- context [match ?x with _ => _ end] => destruct x eqn:?
         end; cbn [snd]; rewrite ?file_at_insert, ?file_at_delete by (intros ->; contradiction); try done.

Lemma steady_rename src dst : ¬ S src → ¬ S dst → steady (rename sys src dst).
Proof. intros H1 H2. apply steady_operation; [done|]. intros fs p Hp. by_lookup. Qed.
Lemma steady_writing {A : Type} op p (act : Files → result A IoError * Files) : ¬ S p →
  (∀ fs q, S q → file_at (act fs).2 q = file_at fs q) → steady (writing sys op p act).
Proof.
  intros H Ha w. apply steady_operation; [|done]. intros fs q Hq. apply file_at_spoil. by intros ->.
Qed.
Lemma steady_copy src dst : ¬ S dst → steady (copy sys src dst).
Proof.
  intros H w. unfold copy. destruct (files w !! src) as [[c|]|]; [|by apply steady_operation..].
  apply steady_writing; [done|]. intros fs p Hp. by_lookup.
Qed.
Lemma steady_remove_file p : ¬ S p → steady (remove_file sys p).
Proof. intros H. apply steady_operation; [done|]. intros fs q Hq. by_lookup. Qed.
Lemma steady_create p : ¬ S p → steady (create sys p).
Proof. intros H. apply steady_operation; [done|]. intros fs q Hq. by_lookup. Qed.
Lemma steady_create_new p : ¬ S p → steady (create_new sys p).
Proof. intros H. apply steady_operation; [done|]. intros fs q Hq. by_lookup. Qed.
Lemma steady_open_or_create p : ¬ S p → steady (open_or_create sys p).
Proof. intros H. apply steady_operation; [done|]. intros fs q Hq. by_lookup. Qed.
Lemma steady_write_all p c : ¬ S p → steady (write_all sys p c).
Proof. intros H. apply steady_writing; [done|]. intros fs q Hq. by_lookup. Qed.
Lemma steady_read p : steady (read sys p).
Proof. by apply steady_operation. Qed.
Lemma steady_metadata p : steady (metadata sys p).
Proof. by apply steady_operation. Qed.
Lemma steady_set_mode p : steady (set_mode sys p).
Proof. by apply steady_operation. Qed.

Lemma file_at_filter (P : PathBuf * Node → Prop) {HP : ∀ x, Decision (P x)} (fs : Files) p :
  (∀ n, P (p, n)) → file_at (filter P fs) p = file_at fs p.
Proof.
  intros H. unfold file_at. destruct (fs !! p) as [n|] eqn:E.
  - by rewrite (map_lookup_filter_Some_2 _ _ _ _ E (H n)).
  - rewrite map_lookup_filter_None_2; [done|by left].
Qed.

Lemma steady_remove_dir_all p : (∀ x, ¬ S (p ++ x)) → steady (remove_dir_all sys p).
Proof.
  intros H w.
  assert (∀ q, S q → under p q = false) as Hu.
  { intros q Hq. apply bool_decide_eq_false. intros [x ->]. by apply (H x). }
  apply steady_operation.
  - intros fs q Hq. apply file_at_filter. intros n. left. by apply Hu.
  - intros fs q Hq. destruct (fs !! p) as [[]|]; [done| |done]. apply file_at_filter. intros n. by apply Hu.
Qed.

(** A directory that is made replaces no file. *)
Lemma file_at_mkdirs l fs p :
  existsb (λ q, bool_decide (is_Some (file_at fs q))) l = false →
  file_at (foldl (λ fs q, <[q := Dir]> fs) fs l) p = file_at fs p.
Proof.
  revert fs. induction l as [|q l IH]; intros fs H; [done|]. cbn in *.
  apply orb_false_iff in H as [Hq Hl]. apply bool_decide_eq_false in Hq.
  assert (∀ r, file_at (<[q := Dir]> fs) r = file_at fs r) as Hr.
  { intros r. destruct (decide (r = q)) as [->|]; [|by apply file_at_insert].
    unfold file_at at 1. rewrite lookup_insert_eq. destruct (file_at fs q); [|done]. destruct Hq. by eexists. }
  rewrite IH; [done|]. rewrite <- Hl. clear -Hr. induction l as [|x l IH]; [done|]. cbn. by rewrite Hr, IH.
Qed.
Lemma steady_create_dir_all p : steady (create_dir_all sys p).
Proof.
  apply steady_operation; [done|]. intros fs q Hq. destruct (existsb _ _) eqn:E; [done|]. by apply file_at_mkdirs.
Qed.
End ops.
End steady.

Section results.
Context (sys : System).

(** A copy: only the destination may change, and after success it holds what the source holds. *)
Lemma copy_result src dst (w : World L) : ∃ r w', copy sys src dst w = (Val r, w') ∧ locals w' = locals w ∧
  (∀ p, p ≠ dst → file_at (files w') p = file_at (files w) p) ∧
  (∀ c, file_at (files w) dst = Some c → is_Some (file_at (files w') dst)) ∧
  (r = Ok tt → is_Some (file_at (files w) src) ∧ file_at (files w') dst = file_at (files w) src) ∧
  (file_at (files w) src = None → files w' = files w).
Proof.
  unfold copy, writing, operation. destruct (files w !! src) as [[c|]|] eqn:Es.
  - assert (file_at (files w) src = Some c) as Hc by (unfold file_at; by rewrite Es). rewrite Hc.
    destruct (fails _ _ _).
    + eexists _, _. split; [done|]. cbn [files locals]. split_and!; [done| | |done|done].
      * intros p Hp. by apply file_at_spoil.
      * intros c' Hc'. unfold spoil. destruct (leaves _ _); [|by eexists].
        unfold file_at in *. destruct (files w !! dst) as [[]|]; [|done..]. rewrite lookup_insert_eq. by eexists.
    + destruct (files w !! dst) as [[]|] eqn:Ed; eexists _, _; (split; [done|]); cbn [files locals]; split_and!; try done.
      all: try (intros p Hp; by apply file_at_insert); try (intros; by unfold file_at; rewrite lookup_insert_eq; eexists);
        try (intros; split; [by eexists|]; by unfold file_at at 1; rewrite lookup_insert_eq).
  - destruct (fails _ _ _); eexists _, _; (split; [done|]); cbn [files locals]; (split_and!; [done|done|by eexists|done|done]).
  - destruct (fails _ _ _); eexists _, _; (split; [done|]); cbn [files locals]; (split_and!; [done|done|by eexists|done|done]).
Qed.

(** A rename of a file onto a file: it fails only when the system says so. *)
Lemma rename_result src dst (w : World L) : ∃ r w', rename sys src dst w = (Val r, w') ∧ locals w' = locals w ∧
  (∀ p, p ≠ src → p ≠ dst → file_at (files w') p = file_at (files w) p) ∧
  match r with
  | Ok _ => (src ≠ dst → files w' !! src = None) ∧ file_at (files w') dst = file_at (files w) src ∧
            (∀ c, file_at (files w) dst = Some c → is_Some (file_at (files w) src))
  | Err e => files w' = files w ∧
             (is_Some (file_at (files w) src) → is_Some (file_at (files w) dst) → fails sys (tick w) (ORename src dst) = Some e)
  end.
Proof.
  unfold rename, operation. destruct (fails _ _ _) as [e|].
  { eexists _, _. split; [done|]. by cbn [files locals]. }
  unfold file_at at 3 4 5 6 7 8.
  destruct (files w !! src) as [[c|]|] eqn:Es, (files w !! dst) as [[d|]|] eqn:Ed; eexists _, _; (split; [done|]); cbn [files locals]; (split; [done|]).
  all: (split; [intros p H1 H2; by rewrite ?file_at_insert, ?file_at_delete by done|]).
  all: split_and?; try done; try (by intros [? ?]); try (by intros ? [? ?]); try (by eexists).
  all: try (intros Hne; by rewrite lookup_insert_ne, lookup_delete_eq by done).
  all: by unfold file_at; rewrite lookup_insert_eq.
Qed.

Lemma remove_file_result p (w : World L) : ∃ r w', remove_file sys p w = (Val r, w') ∧ locals w' = locals w ∧
  (∀ q, q ≠ p → file_at (files w') q = file_at (files w) q) ∧
  (file_at (files w') p = file_at (files w) p ∨ file_at (files w') p = None).
Proof.
  unfold remove_file, operation. destruct (fails _ _ _) as [e|].
  { eexists _, _. split; [done|]. cbn [files locals]. by split_and!; [| |left]. }
  destruct (files w !! p) as [[c|]|] eqn:Es; eexists _, _; (split; [done|]); cbn [files locals]; split_and!; try done; try (by left).
  - intros q Hq. by apply file_at_delete.
  - right. unfold file_at. by rewrite lookup_delete_eq.
Qed.
End results.
End rules.

(** Walk a function down to its operations. *)
Ltac walk_stable :=
  repeat first
    [ apply stable_copy | apply stable_operation | apply stable_attempt | apply stable_for_each; intros ?
    | apply stable_modify | apply stable_bind; [|intros ?] | (apply stable_same; done)
    | progress cbv beta iota
    | match goal with |- stable _ (match ?x with _ => _ end) => destruct x end
    | match goal with |- stable _ (match ?x with _ => _ end _) => destruct x end ].
Ltac walk_calm :=
  repeat first
    [ apply calm_ret | apply calm_fail | apply calm_copy | apply calm_writing | apply calm_operation | apply calm_modify
    | apply calm_get | apply calm_exists | apply calm_start | apply calm_attempt | apply calm_for_each; intros ?
    | apply calm_bind; [|intros ?]
    | progress cbv beta iota
    | match goal with |- calm (match ?x with _ => _ end) => destruct x end ].
