(* ===== verification/Upgrade.v ===== *)
(** * Upgrade: [tp upgrade], step by step over a file system whose operations may fail.
    [tp-cli/src/commands/upgrade.rs].  The network, the hash, the archive crates and
    the programs that are started are parameters ([Outside]); what is printed on the
    terminal is not modelled, except the error an upgrade ends with. *)
From stdpp Require Import base list numbers strings gmap.
From Stdlib Require Import Lia NArith ZArith Ascii.
From S2P Require Import Prelude Bytes Text Chars Json Lines Crypto Release Files.
Open Scope io_scope.

Definition REPO : string := "DaveDev42/teleprompter".

(** ** The outside *)

(** An answer over HTTP; [broken] when the body ends early. *)
Inductive HttpAnswer :=
| NoClient (e : string)
| NoAnswer (e : string)
| Answered (status : N) (status_text body : string) (broken : option string).
Definition is_success (status : N) : bool := (200 <=? status)%N && (status <? 300)%N.

(** An entry of an archive: its path when it can be read, whether its type is a
    regular file, its data. *)
Record TarEntry := mkEntry { entry_path : result string string; is_file : bool; data : string }.

(** Which service file there is for the daemon. *)
Inductive Service := Launchd (uid : N) | Systemd | NoService.

Record Outside := mkOutside {
  temp_dir : PathBuf; pid : N; os : string; arch : string; home : option string;
  http_get : string → HttpAnswer;
  sha256 : string → bytes;
  untar : string → result (list (result TarEntry string)) string;
  unpack : TarEntry → PathBuf → Files → result unit string * Files;
  run_version : string → result VerificationOutput string;
  service : Service;
  current_exe : option string;
  which_tp : option string;
  canonicalize : string → option string;
  gh_release : option string;
  from_str : string → option Value;
  tp_version : string
}.

Section upgrade.
Context (sys : System) (o : Outside).

Section steps.
Context {L : Type}.
Notation Io := (Io L).

Definition exec {A} (m : result A string) : Io A := match m with Ok a => ret a | Err e => fail e end.

(** ** Backups *)

Definition backup_binary (binary_path : PathBuf) : Io PathBuf :=
  there ← exists_ binary_path;
  if negb there then fail ("Binary not found at " +:+ show_path binary_path)
  else
    let bak := with_suffix binary_path ".bak" in
    or_err (copy sys binary_path bak) id;; ret bak.

Definition restore_binary (binary_path bak_path : PathBuf) : Io unit :=
  r ← rename sys bak_path binary_path;
  match r with
  | Ok _ => ret tt
  | Err e =>
      if Z.eqb (raw_os_error e) EXDEV then
        or_err (copy sys bak_path binary_path) id;;
        ignore (remove_file sys bak_path)
      else fail (io_text e)
  end.

Definition cleanup_backup (bak_path : PathBuf) : Io unit := ignore (remove_file sys bak_path).

Definition atomic_replace (src target : PathBuf) : Io unit :=
  r ← rename sys src target;
  match r with
  | Ok _ => ret tt
  | Err e =>
      if Z.eqb (raw_os_error e) EXDEV then
        or_err (copy sys src target) (λ e2, "cross-device copy " +:+ show_path src +:+ " → " +:+ show_path target +:+ ": " +:+ e2);;
        or_err (remove_file sys src) (λ e2, "unlink tmp " +:+ show_path src +:+ " after copy: " +:+ e2)
      else fail ("rename " +:+ show_path src +:+ " → " +:+ show_path target +:+ ": " +:+ io_text e)
  end.

(** ** Download and verification *)

Definition download_to_file (url : string) (dest : PathBuf) : Io unit :=
  match http_get o url with
  | NoClient e => fail ("failed to create HTTP client: " +:+ e)
  | NoAnswer e => fail ("download request failed: " +:+ e)
  | Answered status status_text body broken =>
      if negb (is_success status) then fail ("HTTP " +:+ status_text +:+ " downloading " +:+ url)
      else
        or_err (create sys dest) (λ e, "create " +:+ show_path dest +:+ ": " +:+ e);;
        or_err (write_all sys dest body) (λ e, "write " +:+ show_path dest +:+ ": " +:+ e);;
        match broken with
        | Some e => fail ("write " +:+ show_path dest +:+ ": " +:+ e)
        | None => ret tt
        end
  end.

(** No map when the list cannot be had; the text is taken as UTF-8. *)
Definition checksums_of (tag : string) : outcome (option (gmap string string)) :=
  match http_get o ("https://github.com/" +:+ REPO +:+ "/releases/download/" +:+ tag +:+ "/checksums.txt") with
  | Answered status _ body None =>
      if is_success status then
        match parse_checksums (from_utf8_lossy (as_bytes body)) with Ret map => Ret (Some map) | Panic => Panic end
      else Ret None
  | _ => Ret None
  end.
Definition download_checksums (tag : string) : Io (option (gmap string string)) :=
  match checksums_of tag with Ret map => ret map | Panic => panic end.

(** Each byte as [{b:02x}]. *)
Definition lower_hex (b : bytes) : string :=
  foldr (λ x acc, String (hex_digit (byte_val x / 16)) (String (hex_digit (byte_val x mod 16)) acc)) "" b.

Definition compute_file_hash (path : PathBuf) : Io (result string IoError) :=
  r ← read sys path;
  ret match r with Ok content => Ok (lower_hex (sha256 o content)) | Err e => Err e end.

(** [<binary> version]; a path that is no file cannot be started. *)
Definition verify_new_binary (binary_path : PathBuf) : Io VerificationResult :=
  start_program (show_path binary_path) ["version"];;
  λ w, (Val match file_at (files w) binary_path with
            | None => Rejected ("failed to spawn: " +:+ io_text not_found)
            | Some content =>
                match run_version o content with
                | Err e => Rejected ("failed to spawn: " +:+ e)
                | Ok out => analyze_verification_output out
                end
            end, w).

(** ** Extraction *)

Record ExtractedBundle := mkBundle { bin_tp : PathBuf; libexec : list (string * PathBuf) }.

(** The name of a member of [libexec/tp], for the paths that are one. *)
Definition libexec_member (stripped : PathBuf) : option string :=
  match stripped with
  | Normal "libexec" :: Normal "tp" :: rest =>
      let name := show_path rest in
      if bool_decide (is_str name) && negb (String.eqb name "") && negb (str_contains "/"%char name) then Some name else None
  | _ => None
  end.

(** The path of an entry inside the bundle, or why the entry is refused. *)
Definition checked_path (entry : TarEntry) : result PathBuf string :=
  let? text := match entry_path entry with Ok t => Ok t | Err e => Err ("tar entry path: " +:+ e) end in
  let path := path_components text in
  if is_absolute path then Err ("tar entry has absolute path: " +:+ show_path path +:+ " — aborting (possible path traversal)")
  else if bool_decide (ParentDir ∈ path) then Err ("tar entry contains '..': " +:+ show_path path +:+ " — aborting (possible path traversal)")
  else Ok (drop 1 path).

Definition unpack_entry (entry : TarEntry) (stripped dest : PathBuf) : Io unit := λ w,
  match unpack o entry dest (files w) with
  | (Ok _, fs) => (Val tt, mkWorld fs (tick w) (started w) (locals w))
  | (Err e, fs) => (Error ("unpack " +:+ show_path stripped +:+ " to " +:+ show_path dest +:+ ": " +:+ e), mkWorld fs (tick w) (started w) (locals w))
  end.

Definition track (entry : TarEntry) (stripped dest : PathBuf) (found : option PathBuf * list (string * PathBuf)) : option PathBuf * list (string * PathBuf) :=
  if negb (is_file entry) then found
  else if bool_decide (stripped = [Normal "bin"; Normal "tp"]) then (Some dest, found.2)
  else match libexec_member stripped with
       | Some name => (found.1, found.2 ++ [(name, dest)])
       | None => found
       end.

Fixpoint extract_entries (dest_dir : PathBuf) (entries : list (result TarEntry string)) (found : option PathBuf * list (string * PathBuf))
  : Io (option PathBuf * list (string * PathBuf)) :=
  match entries with
  | [] => ret found
  | entry :: entries =>
      entry ← exec (match entry with Ok e => Ok e | Err e => Err ("tar entry error: " +:+ e) end);
      stripped ← exec (checked_path entry);
      if bool_decide (stripped = []) then extract_entries dest_dir entries found
      else
        let dest := dest_dir ++ stripped in
        let parent := removelast dest in
        or_err (create_dir_all sys parent) (λ e, "create dir " +:+ show_path parent +:+ ": " +:+ e);;
        unpack_entry entry stripped dest;;
        extract_entries dest_dir entries (track entry stripped dest found)
  end.

Definition extract_bundle_tarball (tarball_path dest_dir : PathBuf) : Io ExtractedBundle :=
  tarball ← or_err (read sys tarball_path) (λ e, "open tarball " +:+ show_path tarball_path +:+ ": " +:+ e);
  entries ← exec (match untar o tarball with Ok l => Ok l | Err e => Err ("read tar entries: " +:+ e) end);
  found ← extract_entries dest_dir entries (None, []);
  match found.1 with
  | None => fail "tarball did not contain bin/tp"
  | Some bin_tp => ret (mkBundle bin_tp found.2)
  end.

(** ** The daemon *)

(** The answers only choose what is printed. *)
Definition restart_daemon : Io unit :=
  match service o with
  | Launchd uid => start_program "launchctl" ["kickstart"; "-k"; "gui/" +:+ print_dec uid +:+ "/dev.tpmt.daemon"]
  | Systemd => start_program "systemctl" ["--user"; "restart"; "teleprompter-daemon"]
  | NoService => start_program "pgrep" ["-x"; "tpd"];; start_program "pgrep" ["-x"; "tp-daemon"]
  end.
End steps.

(** ** A bundle *)

Record BundleLocals := mkBL {
  tmp_tarball_opt : option PathBuf;
  tmp_extract_opt : option PathBuf;
  bin_tp_bak_opt : option PathBuf;
  libexec_baks : list (PathBuf * PathBuf)
}.
Definition set_tarball x l := mkBL x (tmp_extract_opt l) (bin_tp_bak_opt l) (libexec_baks l).
Definition set_bin_bak x l := mkBL (tmp_tarball_opt l) (tmp_extract_opt l) x (libexec_baks l).
Definition set_libexec_baks x l := mkBL (tmp_tarball_opt l) (tmp_extract_opt l) (bin_tp_bak_opt l) x.

Section bundle.
Context (tag : string) (prefix : PathBuf).

Definition asset : string := get_asset_name (os o) (arch o).
Definition tarball_asset : string := asset +:+ ".tar.gz".
Definition release_url (name : string) : string :=
  "https://github.com/" +:+ REPO +:+ "/releases/download/" +:+ tag +:+ "/" +:+ name.
Definition temp_path (name : string) : PathBuf := temp_dir o ++ [Normal (name +:+ print_dec (pid o))].
Definition bin_tp_target : PathBuf := prefix ++ [Normal "bin"] ++ [Normal "tp"].
Definition libexec_dir : PathBuf := prefix ++ [Normal "libexec"] ++ [Normal "tp"].
Definition libexec_target (name : string) : PathBuf := libexec_dir ++ [Normal name].
Definition tmp_tarball : PathBuf := temp_path "tp-upgrade-tarball-".
Definition tmp_extract : PathBuf := temp_path "tp-upgrade-extract-".

Notation Io := (Io BundleLocals).

(** Step 2. *)
Definition verify_tarball : Io unit :=
  checksums ← download_checksums tag;
  match checksums with
  | None => ret tt
  | Some map =>
      expected ← exec (ok_or (map !! tarball_asset) ("Asset " +:+ tarball_asset +:+ " not found in checksums.txt"));
      actual ← compute_file_hash tmp_tarball;
      match actual with
      | Err e => fail ("hash " +:+ show_path tmp_tarball +:+ ": " +:+ io_text e)
      | Ok actual =>
          if String.eqb actual expected then ret tt
          else
            ignore (remove_file sys tmp_tarball);;
            modify (set_tarball None);;
            fail ("Checksum mismatch for " +:+ tarball_asset +:+ "! Expected: " +:+ expected +:+ " Got: " +:+ actual)
      end
  end.

(** Step 4. *)
Definition make_executable {L} (p : PathBuf) : Files.Io L unit :=
  or_err (metadata sys p) (λ e, "stat " +:+ show_path p +:+ ": " +:+ e);;
  or_err (set_mode sys p) (λ e, "chmod +x " +:+ show_path p +:+ ": " +:+ e).

(** The error of [m], with [label] before it. *)
Definition label_err {A} (label : string) (m : Io A) : Io A :=
  r ← attempt m; exec (match r with Ok a => Ok a | Err e => Err (label +:+ ": " +:+ e) end).

(** Step 5. *)
Definition backup_bin_tp : Io unit :=
  there ← exists_ bin_tp_target;
  when there do (bak ← label_err "backup bin/tp" (backup_binary bin_tp_target); modify (set_bin_bak (Some bak))).
Definition backup_member (member : string * PathBuf) : Io unit :=
  let target := libexec_target member.1 in
  there ← exists_ target;
  when there do
    (bak ← label_err ("backup libexec/tp/" +:+ member.1) (backup_binary target);
     modify (λ l, set_libexec_baks (libexec_baks l ++ [(target, bak)]) l)).

(** Step 7, for one member. *)
Definition replace_member (member : string * PathBuf) : Io unit :=
  r ← attempt (atomic_replace member.2 (libexec_target member.1));
  match r with
  | Ok _ => ret tt
  | Err e =>
      l ← get_locals;
      match bin_tp_bak_opt l with
      | Some bak =>
          there ← exists_ bak;
          when there do
            (restored ← attempt (restore_binary bin_tp_target bak);
             match restored with Ok _ => modify (set_bin_bak None) | Err _ => ret tt end)
      | None => ret tt
      end;;
      fail ("replace libexec/tp/" +:+ member.1 +:+ ": " +:+ e)
  end.

(** Step 9. *)
Definition drop_backups : Io unit :=
  l ← get_locals;
  match bin_tp_bak_opt l with
  | Some bak => cleanup_backup bak;; modify (set_bin_bak None)
  | None => ret tt
  end;;
  modify (set_libexec_baks []);;
  for_each (libexec_baks l) (λ tb, cleanup_backup tb.2).

(** The closure whose error starts the rollback. *)
Definition bundle_steps : Io unit :=
  download_to_file (release_url tarball_asset) tmp_tarball;;
  verify_tarball;;
  or_err (create_dir_all sys tmp_extract) (λ e, "create extract dir " +:+ show_path tmp_extract +:+ ": " +:+ e);;
  bundle ← label_err "extract tarball" (extract_bundle_tarball tmp_tarball tmp_extract);
  for_each (bin_tp bundle :: (libexec bundle).*2) make_executable;;
  backup_bin_tp;;
  for_each (libexec bundle) backup_member;;
  or_err (create_dir_all sys (removelast bin_tp_target)) (λ e, "create " +:+ show_path (removelast bin_tp_target) +:+ ": " +:+ e);;
  or_err (create_dir_all sys libexec_dir) (λ e, "create " +:+ show_path libexec_dir +:+ ": " +:+ e);;
  label_err "replace bin/tp" (atomic_replace (bin_tp bundle) bin_tp_target);;
  for_each (libexec bundle) replace_member;;
  verified ← verify_new_binary bin_tp_target;
  match verified with
  | Rejected reason => fail ("New binary verification failed — " +:+ reason)
  | Verified _ => drop_backups;; restart_daemon
  end.

Definition clean_temps : Io unit :=
  l ← get_locals;
  match tmp_tarball_opt l with
  | Some p => there ← exists_ p; when there do (ignore (remove_file sys p))
  | None => ret tt
  end;;
  match tmp_extract_opt l with
  | Some d => there ← exists_ d; when there do (ignore (remove_dir_all sys d))
  | None => ret tt
  end.

Definition roll_back_one {L} (target bak : PathBuf) : Files.Io L unit :=
  there ← exists_ bak; when there do (ignore (attempt (restore_binary target bak))).

Definition roll_back : Io unit :=
  l ← get_locals;
  match bin_tp_bak_opt l with Some bak => roll_back_one bin_tp_target bak | None => ret tt end;;
  for_each (libexec_baks l) (λ tb, roll_back_one tb.1 tb.2).

(** The error that is printed, if the upgrade fails. *)
Definition upgrade_tp_bundle {L} : Files.Io L (option string) :=
  scope (mkBL (Some tmp_tarball) (Some tmp_extract) None [])
    (r ← attempt bundle_steps;
     clean_temps;;
     match r with
     | Ok _ => ret None
     | Err e => roll_back;; ret (Some e)
     end).
End bundle.

(** ** A single binary *)

Record SingleLocals := mkSL {
  tmp_path_opt : option PathBuf;
  bak_path_opt : option PathBuf;
  target_path_opt : option PathBuf
}.
Definition set_tmp_path x l := mkSL x (bak_path_opt l) (target_path_opt l).
Definition set_bak_path x l := mkSL (tmp_path_opt l) x (target_path_opt l).
Definition set_target_path x l := mkSL (tmp_path_opt l) (bak_path_opt l) x.

Definition non_empty (s : string) : option string := if String.eqb s "" then None else Some s.

Definition resolve_current_binary_path : string :=
  match current_exe o ≫= non_empty with
  | Some s => s
  | None => default "" (let?o out := which_tp o in let?o first := head (lines (trim out)) in non_empty (trim first))
  end.

Section single.
Context (tag : string).
Notation Io := (Io SingleLocals).

Definition tmp_path : PathBuf := temp_path "tp-upgrade-".

(** Step 3. *)
Definition verify_single : Io unit :=
  checksums ← download_checksums tag;
  match checksums with
  | None => ret tt
  | Some map =>
      expected ← exec (ok_or (map !! asset) ("Asset " +:+ asset +:+ " not found in checksums.txt"));
      actual ← compute_file_hash tmp_path;
      match actual with
      | Err e => fail ("hash " +:+ show_path tmp_path +:+ ": " +:+ io_text e)
      | Ok actual =>
          if String.eqb actual expected then ret tt
          else
            modify (set_tmp_path None);;
            ignore (remove_file sys tmp_path);;
            fail ("Checksum mismatch! Expected: " +:+ expected +:+ " Got: " +:+ actual)
      end
  end.

(** Step 4. *)
Definition resolve_target : Io PathBuf :=
  let current_path := resolve_current_binary_path in
  if negb (String.eqb current_path "") then ret (path_components current_path)
  else
    let t := path_components (default "/tmp" (home o)) ++ [Normal ".local"; Normal "bin"; Normal "tp"] in
    ignore (create_dir_all sys (removelast t));; ret t.

(** Step 5. *)
Definition backup_single (target : PathBuf) : Io unit :=
  there ← exists_ target;
  when there do
    (r ← attempt (backup_binary target);
     bak ← exec (match r with Ok b => Ok b | Err e => Err ("backup failed: " +:+ e) end);
     modify (set_bak_path (Some bak))).

(** Step 6. *)
Definition replace_single (target : PathBuf) : Io unit :=
  r ← rename sys tmp_path target;
  match r with
  | Ok _ => modify (set_tmp_path None)
  | Err e =>
      if Z.eqb (raw_os_error e) EXDEV then
        or_err (copy sys tmp_path target) (λ e2, "cross-device copy failed: " +:+ e2);;
        or_err (remove_file sys tmp_path) (λ e2, "unlink tmp after copy: " +:+ e2);;
        modify (set_tmp_path None)
      else fail ("rename failed: " +:+ io_text e)
  end.

Definition single_steps : Io unit :=
  download_to_file (release_url tag asset) tmp_path;;
  make_executable tmp_path;;
  verify_single;;
  target ← resolve_target;
  modify (set_target_path (Some target));;
  backup_single target;;
  replace_single target;;
  verified ← verify_new_binary target;
  match verified with
  | Rejected reason => fail ("New binary verification failed — " +:+ reason)
  | Verified _ =>
      l ← get_locals;
      match bak_path_opt l with
      | Some bak => cleanup_backup bak;; modify (set_bak_path None)
      | None => ret tt
      end;;
      restart_daemon
  end.

Definition single_failed : Io unit :=
  l ← get_locals;
  match tmp_path_opt l with
  | Some p => there ← exists_ p; when there do (ignore (remove_file sys p))
  | None => ret tt
  end;;
  match bak_path_opt l, target_path_opt l with
  | Some bak, Some target => roll_back_one target bak
  | _, _ => ret tt
  end.

Definition upgrade_tp_single_binary {L} : Files.Io L (option string) :=
  scope (mkSL (Some tmp_path) None None)
    (r ← attempt single_steps;
     match r with
     | Ok _ => ret None
     | Err e => single_failed;; ret (Some e)
     end).
End single.

(** ** The command *)

Inductive InstallShape := Bundle (prefix : PathBuf) | SingleBinary.

Definition detect_install_shape (there : PathBuf → bool) (exe_path : string) : InstallShape :=
  if String.eqb exe_path "" then SingleBinary
  else
    let canonical := path_components (default exe_path (canonicalize o exe_path)) in
    let parent := path_parent canonical in
    if bool_decide (path_file_name canonical = Some "tp") && bool_decide (parent ≫= path_file_name = Some "bin") then
      match parent ≫= path_parent with
      | None => SingleBinary
      | Some prefix =>
          if there (libexec_target prefix "tp-daemon") || there (libexec_target prefix "tpd") then Bundle prefix
          else SingleBinary
      end
    else SingleBinary.

Definition upgrade_tp {L} (tag : string) : Files.Io L (option string) := λ w,
  match detect_install_shape (λ p, bool_decide (is_Some (files w !! p))) resolve_current_binary_path with
  | Bundle prefix => upgrade_tp_bundle tag prefix w
  | SingleBinary => upgrade_tp_single_binary tag w
  end.

(** [gh] when it is there and succeeds, or the public API. *)
Definition get_latest_release : option Release :=
  match (let?o raw := gh_release o in parse_gh_release_json (from_str o) raw) with
  | Some release => Some release
  | None =>
      match http_get o ("https://api.github.com/repos/" +:+ REPO +:+ "/releases/latest") with
      | Answered status _ body None =>
          if is_success status then let?o json := from_str o body in parse_github_api_release_json json else None
      | _ => None
      end
  end.

(** What a run comes to; the exit status is always that of success. *)
Inductive Outcome := NoRelease | UpToDate | Homebrew | Attempted (error : option string).

Definition run {L} : Files.Io L Outcome :=
  match get_latest_release with
  | None => ret NoRelease
  | Some latest =>
      if String.eqb (Release.tag latest) ("v" +:+ tp_version o) then
        start_program "claude" ["update"];; ret UpToDate
      else
        let current_path := resolve_current_binary_path in
        if bool_decide (is_Some (detect_homebrew_install (canonicalize o current_path) current_path)) then ret Homebrew
        else
          r ← upgrade_tp (Release.tag latest);
          start_program "claude" ["update"];;
          ret (Attempted r)
  end.
End upgrade.
