(* ===== verification/UpgradeLaws.v ===== *)
(** * UpgradeLaws: what an upgrade leaves behind.
    Whatever the system refuses, and wherever an upgrade fails, the files that were
    installed before are in their place or in their backups; nothing else changes. *)
From stdpp Require Import base list numbers strings gmap sets.
From Stdlib Require Import Lia NArith ZArith Ascii.
From S2P Require Import Prelude Bytes Text Chars Json Lines Crypto Release Files Upgrade.
Open Scope io_scope.

(** The backup of a target. *)
Definition bak (t : PathBuf) : PathBuf := with_suffix t ".bak".

(** What an archive ships under [libexec/tp]. *)
Definition shipped_member (entry : result TarEntry string) : option string :=
  match entry with
  | Ok e => match checked_path e with
            | Ok stripped => if is_file e && negb (bool_decide (stripped = [Normal "bin"; Normal "tp"])) then libexec_member stripped else None
            | Err _ => None
            end
  | Err _ => None
  end.
Definition shipped (entries : list (result TarEntry string)) : list string := omap shipped_member entries.

(** No member comes twice, none is named as the backup of another. *)
Definition well_named (names : list string) : Prop :=
  NoDup names ∧ ∀ n n', n ∈ names → n' ∈ names → n' ≠ n +:+ ".bak".

Lemma shipped_cons e l : shipped (e :: l) = option_list (shipped_member e) ++ shipped l.
Proof. unfold shipped. cbn. by destruct (shipped_member e). Qed.

Lemma app_suffix_inj (a b s : string) : a +:+ s = b +:+ s → a = b.
Proof.
  intros H. apply (f_equal as_bytes) in H. rewrite !as_bytes_app in H. apply app_inv_tail in H.
  by rewrite <- (str_of_as_bytes a), <- (str_of_as_bytes b), H.
Qed.

(** Where an entry goes, inside the directory. *)
Definition entry_path_of (entry : result TarEntry string) : option PathBuf :=
  match entry with
  | Ok e => match checked_path e with Ok stripped => if bool_decide (stripped = []) then None else Some stripped | Err _ => None end
  | Err _ => None
  end.
Definition entry_paths (entries : list (result TarEntry string)) : list PathBuf := omap entry_path_of entries.
Lemma entry_paths_cons e l : entry_paths (e :: l) = option_list (entry_path_of e) ++ entry_paths l.
Proof. unfold entry_paths. cbn. by destruct (entry_path_of e). Qed.

(** What [m] does to any file system leaves the temporary paths out. *)
Section rules.
Context {L : Type} (sys : System) (o : Outside) (S : PathBuf → Prop) {X : Type} (V : L → X).
Hypothesis unpack_local : ∀ e dest fs p, p ≠ dest → file_at (unpack o e dest fs).2 p = file_at fs p.

Lemma steady_exec {A} (r : result A string) : steady S V (exec r).
Proof. destruct r; [apply steady_ret|apply steady_fail]. Qed.

Lemma steady_exec_bind {A B} (r : result A string) (k : A → Io L B) :
  (∀ a, r = Ok a → steady S V (k a)) → steady S V (bind (exec r) k).
Proof. intros H w. destruct r as [a|e]; [by apply (H a)|done]. Qed.

Lemma steady_download url dest : ¬ S dest → steady S V (download_to_file sys o url dest).
Proof.
  intros H. unfold download_to_file. destruct (http_get o url); [apply steady_fail..|].
  destruct (negb _); [apply steady_fail|].
  apply steady_bind; [by apply steady_or_err, steady_create|intros _].
  apply steady_bind; [by apply steady_or_err, steady_write_all|intros _]. destruct broken; [apply steady_fail|apply steady_ret].
Qed.

Lemma steady_download_checksums tag : steady S V (download_checksums o tag).
Proof.
  unfold download_checksums. destruct (checksums_of o tag); [apply steady_ret|apply steady_panic].
Qed.

Lemma steady_hash p : steady S V (compute_file_hash sys o p).
Proof. apply steady_bind; [apply steady_read|]. intros r. apply steady_ret. Qed.

Lemma steady_verify p : steady S V (verify_new_binary o p).
Proof. apply steady_bind; [apply steady_start|intros _; apply steady_pure]. Qed.

Lemma steady_executable p : steady S V (make_executable sys p).
Proof. apply steady_bind; [apply steady_or_err, steady_metadata|intros _; apply steady_or_err, steady_set_mode]. Qed.

Lemma steady_unpack e stripped dest : ¬ S dest → steady S V (unpack_entry o e stripped dest).
Proof.
  intros H w. unfold unpack_entry. pose proof (unpack_local e dest (files w)) as Hu.
  destruct (unpack o e dest (files w)) as [[] fs]; (split; [done|]); intros p Hp; apply Hu; by intros ->.
Qed.

Lemma steady_extract_entries dir entries found : (∀ x, x ∈ entry_paths entries → ¬ S (dir ++ x)) → steady S V (extract_entries sys o dir entries found).
Proof.
  intros H. revert found. induction entries as [|e entries IH]; intros found; [apply steady_ret|]. cbn [extract_entries].
  rewrite entry_paths_cons in H.
  assert (∀ x, x ∈ entry_paths entries → ¬ S (dir ++ x)) as Hrest by (intros x Hx; apply H, elem_of_app; by right).
  apply steady_exec_bind; intros entry He. destruct e as [e|]; [|done]. injection He as ->.
  apply steady_exec_bind; intros stripped Hs. cbn [entry_path_of] in H. rewrite Hs in H.
  case_bool_decide as Hne; [by apply IH|].
  apply steady_bind; [apply steady_or_err, steady_create_dir_all|intros _].
  apply steady_bind; [apply steady_unpack, H, elem_of_app; left|intros _; by apply IH].
  by left.
Qed.

Lemma steady_extract tarball dir : (∀ x, ¬ S (dir ++ x)) → steady S V (extract_bundle_tarball sys o tarball dir).
Proof.
  intros H. apply steady_bind; [apply steady_or_err, steady_read|intros content].
  apply steady_bind; [apply steady_exec|intros entries].
  apply steady_bind; [apply steady_extract_entries; intros x _; apply H|intros [[b|] found]; [apply steady_ret|apply steady_fail]].
Qed.
End rules.

(** What an extraction that succeeds has found. *)
Lemma extract_entries_found {L} sys o dir entries found (w w' : World L) r :
  extract_entries sys o dir entries found w = (Val r, w') →
  r.2.*1 = found.2.*1 ++ shipped entries ∧
  (∀ m, m ∈ r.2 → m ∈ found.2 ∨ ∃ x, m.2 = dir ++ x) ∧ (∀ b, r.1 = Some b → found.1 = Some b ∨ ∃ x, b = dir ++ x).
Proof.
  revert found w. induction entries as [|e entries IH]; intros found w; cbn [extract_entries].
  { intros [= <- <-]. split_and!; [by rewrite app_nil_r|by left|by left]. }
  destruct e as [e|e]; [|done]. unfold bind at 1. cbn [exec ret].
  destruct (checked_path e) as [stripped|] eqn:Ec; [|done]. unfold bind at 1. cbn [exec ret].
  case_bool_decide as Hne.
  { intros H%IH. rewrite shipped_cons. cbn [shipped_member]. rewrite Ec, Hne. cbn. by rewrite andb_true_r; destruct (is_file e). }
  unfold bind at 1. destruct (or_err _ _ w) as [[[]| |] w1]; [|done..].
  unfold bind at 1. destruct (unpack_entry _ _ _ _ w1) as [[[]| |] w2]; [|done..].
  intros H%IH. rewrite shipped_cons. cbn [shipped_member]. rewrite Ec.
  destruct H as (H1 & H2 & H3). unfold track in *. destruct (is_file e); cbn [negb andb option_list app] in *; [|done].
  case_bool_decide as Hb; cbn [negb fst snd option_list app] in *.
  { split_and!; [done|done|]. intros b Hb'. destruct (H3 b Hb') as [[= <-]|?]; [|by right]. right. by eexists. }
  destruct (libexec_member stripped) as [name|]; cbn [option_list app fst snd] in *; [|done].
  split_and!; [by rewrite H1, fmap_app, <- app_assoc| |done].
  intros m Hm. destruct (H2 m Hm) as [[?|?%list_elem_of_singleton]%elem_of_app|?]; [by left| |by right]. subst m. right. by eexists.
Qed.

(** ** The backup operations *)

Section backups.
Context {L : Type} (sys : System).
Notation at_ w p := (file_at (files w) p).

(** Nothing but the backup changes, and it becomes a copy. *)
Lemma backup_result t (w : World L) :
  let '(r, w') := backup_binary sys t w in
  locals w' = locals w ∧ (∀ p, p ≠ bak t → at_ w' p = at_ w p) ∧
  match r with Val b => b = bak t ∧ is_Some (at_ w t) ∧ at_ w' (bak t) = at_ w t | Error _ => True | Panicked => False end.
Proof.
  unfold backup_binary, bind, exists_. destruct (negb _); [done|]. unfold or_err, bind.
  destruct (copy_result sys t (with_suffix t ".bak") w) as (r & w' & -> & Hl & Hf & _ & Hok & _).
  destruct r as [[]|e]; cbn; [|done]. split_and!; [done..| |]; by apply Hok.
Qed.

(** A backup that is a file, put back in the place of a file. *)
Lemma restore_result t b (w : World L) : b ≠ t → is_Some (at_ w b) → is_Some (at_ w t) →
  let '(r, w') := restore_binary sys t b w in
  locals w' = locals w ∧ (∀ p, p ≠ t → p ≠ b → at_ w' p = at_ w p) ∧
  match r with
  | Val _ => at_ w' t = at_ w b ∧ (at_ w' b = at_ w b ∨ at_ w' b = None)
  | Error _ => is_Some (at_ w' t) ∧ at_ w' b = at_ w b ∧ ∃ k, fails sys k (ORename b t) ≠ None
  | Panicked => False
  end.
Proof.
  intros Hne Hb Ht. unfold restore_binary, bind at 1.
  destruct (rename_result sys b t w) as (r & w1 & -> & Hl & Hf & Hr). destruct r as [[]|e]; cbn [ret].
  { destruct Hr as (Hgone & Hr & _). split_and!; [done|intros p ? ?; by apply Hf|done|right].
    unfold file_at. by rewrite Hgone. }
  destruct Hr as [Heq Hfail]. specialize (Hfail Hb Ht).
  assert (∃ k, fails sys k (ORename b t) ≠ None) as Hk by (exists (tick w); congruence).
  destruct (Z.eqb _ _).
  2:{ cbn. rewrite Heq. by split_and!; [| | | |]. }
  unfold or_err, bind.
  destruct (copy_result sys b t w1) as (r & w2 & -> & Hl2 & Hf2 & Hs2 & Hok & _). rewrite Heq in *.
  destruct r as [[]|e2]; cbn [ret fail].
  2:{ split_and!; [congruence|intros p ? ?; by apply Hf2| |by apply Hf2|done]. destruct Ht as [c Hc]. by apply (Hs2 c). }
  destruct (Hok eq_refl) as [_ Hc]. unfold ignore, bind.
  destruct (remove_file_result sys b w2) as (r & w3 & -> & Hl3 & Hf3 & Hr3). cbn [ret].
  split_and!; [congruence|intros p ? ?; by rewrite Hf3, Hf2|by rewrite Hf3, Hc|].
  destruct Hr3 as [->|?]; [left; by apply Hf2|by right].
Qed.

Lemma steady_restore {X} S (V : L → X) t b : ¬ S t → ¬ S b → steady S V (restore_binary sys t b).
Proof.
  intros Ht Hb. apply steady_bind; [by apply steady_rename|]. intros []; [apply steady_ret|].
  destruct (Z.eqb _ _); [|apply steady_fail]. apply steady_bind; [by apply steady_or_err, steady_copy|].
  intros _. by apply steady_ignore, steady_remove_file.
Qed.

Lemma restore_no_panic t b (w : World L) : (restore_binary sys t b w).1 ≠ Panicked.
Proof.
  unfold restore_binary, bind at 1. destruct (rename_result sys b t w) as (r & w1 & -> & _). destruct r as [[]|e]; [done|].
  destruct (Z.eqb _ _); [|done]. unfold or_err, bind.
  destruct (copy_result sys b t w1) as (r & w2 & -> & _). destruct r as [[]|e2]; [|done]. cbn [ret]. unfold ignore, bind.
  by destruct (remove_file_result sys b w2) as (r & w3 & -> & _).
Qed.

(** Where there is no backup file, the attempt changes no file. *)
Lemma restore_nothing t b (w : World L) : at_ w b = None → is_Some (at_ w t) →
  let '(r, w') := restore_binary sys t b w in
  locals w' = locals w ∧ (∀ p, at_ w' p = at_ w p) ∧ match r with Error _ => True | _ => False end.
Proof.
  intros Hb [c Ht]. unfold restore_binary, bind at 1.
  destruct (rename_result sys b t w) as (r & w1 & -> & Hl & Hf & Hr). destruct r as [[]|e]; cbn [ret].
  { destruct Hr as (_ & _ & Hr). destruct (Hr c Ht) as [? ?]. congruence. }
  destruct Hr as [Heq _]. destruct (Z.eqb _ _); cbn [fail]; [|by rewrite Heq].
  unfold or_err, bind. destruct (copy_result sys b t w1) as (r & w2 & -> & Hl2 & _ & _ & Hok & Hsame). rewrite Heq in *.
  destruct r as [[]|e2]; cbn [ret fail].
  - destruct (Hok eq_refl) as [[? ?] _]. congruence.
  - rewrite Hsame by done. split_and!; [congruence|done|done].
Qed.

(** A replacement changes its two files, and leaves a file where there was one. *)
Lemma replace_result src t (w : World L) :
  let '(r, w') := atomic_replace sys src t w in
  locals w' = locals w ∧ (∀ p, p ≠ src → p ≠ t → at_ w' p = at_ w p) ∧
  (src ≠ t → is_Some (at_ w t) → is_Some (at_ w' t)) ∧
  match r with Val _ => src ≠ t → is_Some (at_ w src) → at_ w' t = at_ w src | Error _ => True | Panicked => False end.
Proof.
  unfold atomic_replace, bind at 1.
  destruct (rename_result sys src t w) as (r & w1 & -> & Hl & Hf & Hr). destruct r as [[]|e]; cbn [ret].
  { destruct Hr as (_ & Hr & Hs). split_and!; [done|done| |done]. intros _ [c Hc]. rewrite Hr. by apply (Hs c). }
  destruct Hr as [Heq _]. destruct (Z.eqb _ _); cbn [fail]; [|by rewrite Heq].
  unfold or_err, bind. destruct (copy_result sys src t w1) as (r & w2 & -> & Hl2 & Hf2 & Hs2 & Hok & _). rewrite Heq in *.
  destruct r as [[]|e2]; cbn [ret fail].
  2:{ split_and!; [congruence|intros p ? ?; by apply Hf2| |done]. intros _ [c Hc]. by apply (Hs2 c). }
  destruct (Hok eq_refl) as [Hsrc Hc].
  destruct (remove_file_result sys src w2) as (r & w3 & -> & Hl3 & Hf3 & _).
  assert (∀ p, p ≠ src → p ≠ t → at_ w3 p = at_ w p) as Hfr by (intros p ? ?; by rewrite Hf3, Hf2).
  destruct r as [[]|e3]; cbn [ret fail]; (split_and!; [congruence|done| |]); try done.
  - intros Hne [c Ht]. rewrite Hf3, Hc by done. done.
  - intros Hne _. by rewrite Hf3, Hc by done.
  - intros Hne [c Ht]. rewrite Hf3, Hc by done. done.
Qed.
End backups.

(** ** A bundle *)

Section bundle.
Context (sys : System) (o : Outside) (tag : string) (prefix : PathBuf).
Hypothesis unpack_local : ∀ e dest fs p, p ≠ dest → file_at (unpack o e dest fs).2 p = file_at fs p.
Hypothesis temps_apart : ∀ x y, prefix ++ x ≠ tmp_tarball o ∧ prefix ++ x ≠ tmp_extract o ++ y.

(** The files before, and the members the archive ships. *)
Context (old : PathBuf → option string) (names : list string).
Hypothesis named : well_named names.

Notation World := (World BundleLocals).
Notation X := (option PathBuf * list (PathBuf * PathBuf))%type.
Definition view (l : BundleLocals) : X := (bin_tp_bak_opt l, libexec_baks l).
(** Not one of the temporary paths. *)
Definition installed (p : PathBuf) : Prop := p ≠ tmp_tarball o ∧ ∀ y, p ≠ tmp_extract o ++ y.

Inductive target : PathBuf → Prop :=
| target_bin : target (bin_tp_target prefix)
| target_member n : n ∈ names → target (libexec_target prefix n).

Lemma bak_bin : bak (bin_tp_target prefix) = prefix ++ [Normal "bin"; Normal "tp.bak"].
Proof. unfold bak, bin_tp_target. rewrite app_assoc, with_suffix_name. by rewrite <- app_assoc. Qed.
Lemma bak_member n : bak (libexec_target prefix n) = prefix ++ [Normal "libexec"; Normal "tp"; Normal (n +:+ ".bak")].
Proof. unfold bak, libexec_target, libexec_dir. rewrite with_suffix_name. by rewrite <- !app_assoc. Qed.
Lemma member_path n : libexec_target prefix n = prefix ++ [Normal "libexec"; Normal "tp"; Normal n].
Proof. unfold libexec_target, libexec_dir. by rewrite <- !app_assoc. Qed.

Lemma target_installed t : target t → installed t ∧ installed (bak t).
Proof.
  assert (∀ x, installed (prefix ++ x)) as H by (intros x; split; [by apply (temps_apart x [])|intros y; by apply temps_apart]).
  intros []; rewrite ?bak_bin, ?bak_member, ?member_path; split; apply H.
Qed.

(** No target is the backup of a target. *)
Lemma bak_apart t t' : target t → target t' → t' ≠ bak t.
Proof.
  intros [|n Hn] [|n' Hn'] H; rewrite ?bak_bin, ?bak_member, ?member_path in H;
    unfold bin_tp_target in H; apply app_inv_head in H; try done.
  injection H as ->. by destruct named as [_ K]; apply (K n (n +:+ ".bak")).
Qed.

Lemma bak_inj t t' : target t → target t' → bak t = bak t' → t = t'.
Proof.
  intros [|n Hn] [|n' Hn'] H; rewrite ?bak_bin, ?bak_member in H; apply app_inv_head in H; try done.
  injection H as H. by apply app_suffix_inj in H as ->.
Qed.

Lemma not_installed_tarball : ¬ installed (tmp_tarball o).
Proof. by intros [H _]. Qed.
Lemma not_installed_extract y : ¬ installed (tmp_extract o ++ y).
Proof. intros [_ H]. by apply (H y). Qed.

(** [t] is registered to be restored. *)
Definition registered (x : X) (t : PathBuf) : Prop :=
  x.1 = Some (bak t) ∧ t = bin_tp_target prefix ∨ (t, bak t) ∈ x.2.
#[local] Instance registered_dec x t : Decision (registered x t).
Proof. unfold registered. apply _. Defined.
Definition orderly (x : X) : Prop :=
  (∀ b, x.1 = Some b → b = bak (bin_tp_target prefix)) ∧
  ∀ t b, (t, b) ∈ x.2 → b = bak t ∧ ∃ n, n ∈ names ∧ t = libexec_target prefix n.

Definition at_ (w : World) (p : PathBuf) : option string := file_at (files w) p.

(** The files that an upgrade has no business with, and that they are as before. *)
Definition elsewhere (p : PathBuf) : Prop := installed p ∧ ∀ t, target t → p ≠ t ∧ p ≠ bak t.
Definition kept (f : PathBuf → option string) : Prop := ∀ p, elsewhere p → f p = old p.

(** An assertion about the registered backups and the installed files; all else is kept. *)
Definition about (P : X → (PathBuf → option string) → Prop) (w : World) : Prop := P (view (locals w)) (at_ w) ∧ kept (at_ w).
Definition local (P : X → (PathBuf → option string) → Prop) : Prop :=
  ∀ x f g, (∀ t, target t → f t = g t ∧ f (bak t) = g (bak t)) → P x f → P x g.

Lemma hoare_aside {A} P (m : Io BundleLocals A) : local P → steady installed view m → hoare (about P) m (λ _, about P) (about P).
Proof.
  intros HP Hm. apply (hoare_steady _ _ _ _ Hm). intros w w' Hv Hf [H K]. split.
  - rewrite Hv. revert H. apply HP. intros t [H1 H2]%target_installed. unfold at_. by rewrite !Hf.
  - intros p Hp. rewrite <- K by done. apply Hf, Hp.
Qed.

Lemma about_impl P Q w : (∀ x f, P x f → Q x f) → about P w → about Q w.
Proof. intros H [K E]. split; [by apply H|done]. Qed.

Lemma kept_after f g (D : PathBuf → Prop) : kept f → (∀ p, ¬ D p → g p = f p) → (∀ p, elsewhere p → ¬ D p) → kept g.
Proof. intros K Hg HD p Hp. rewrite Hg by (by apply HD). by apply K. Qed.

(** What a failed upgrade is left with: the file stands, or its backup can be put back. *)
Definition recoverable (x : X) (f : PathBuf → option string) : Prop :=
  orderly x ∧ ∀ t c, target t → old t = Some c →
    is_Some (f t) ∧
    (registered x t → f (bak t) = Some c ∨ f (bak t) = None ∧ f t = Some c) ∧
    (¬ registered x t → f t = Some c).

(** What is still to be backed up: [bin/tp] while [bin] holds, and the members of [rest]. *)
Definition pending (bin : bool) (rest : list string) (t : PathBuf) : Prop :=
  bin = true ∧ t = bin_tp_target prefix ∨ ∃ n, n ∈ rest ∧ t = libexec_target prefix n.

(** While the backups are made: the files stand, the backups that are registered
    are good, and what is not registered is still to come. *)
Definition backing_up (bin : bool) (rest : list string) (x : X) (f : PathBuf → option string) : Prop :=
  orderly x ∧ (∀ t, pending bin rest t → ¬ registered x t) ∧
  ∀ t c, target t → old t = Some c → f t = Some c ∧ (registered x t → f (bak t) = Some c) ∧
    (registered x t ∨ pending bin rest t).

(** Once they are made: every file that was there has its backup. *)
Definition backed_up (x : X) (f : PathBuf → option string) : Prop :=
  orderly x ∧ ∀ t c, target t → old t = Some c → is_Some (f t) ∧ registered x t ∧ f (bak t) = Some c.

Lemma recoverable_local : local recoverable.
Proof.
  intros x f g H [O R]. split; [done|]. intros t c Ht Hc. destruct (H t Ht) as [<- <-]. by apply R.
Qed.
Lemma backed_up_local : local backed_up.
Proof. intros x f g H [O R]. split; [done|]. intros t c Ht Hc. destruct (H t Ht) as [<- <-]. by apply R. Qed.

Lemma backed_up_recoverable x f : backed_up x f → recoverable x f.
Proof. intros [O R]. split; [done|]. intros t c Ht Hc. destruct (R t c Ht Hc) as (? & Hr & ?). split_and!; [done|by left|done]. Qed.

Lemma backing_up_local bin rest : local (backing_up bin rest).
Proof. intros x f g H (O & N & K). split_and!; [done..|]. intros t c Ht Hc. destruct (H t Ht) as [<- <-]. by apply K. Qed.

Lemma backing_up_recoverable bin rest x f : backing_up bin rest x f → recoverable x f.
Proof.
  intros (O & _ & K). split; [done|]. intros t c Ht Hc. destruct (K t c Ht Hc) as (Hs & Hr & _).
  split_and!; [by rewrite Hs; eexists|intros H; left; by apply Hr|done].
Qed.

Lemma backing_up_done x f : backing_up false [] x f → backed_up x f.
Proof.
  intros (O & _ & K). split; [done|]. intros t c Ht Hc. destruct (K t c Ht Hc) as (Hs & Hr & [H|[[? _]|(n & Hn & _)]]).
  - split_and!; [by rewrite Hs; eexists|done|by apply Hr].
  - done.
  - by apply elem_of_nil in Hn.
Qed.

Lemma member_inj n n' : libexec_target prefix n = libexec_target prefix n' → n = n'.
Proof. rewrite !member_path. intros H. apply app_inv_head in H. by injection H. Qed.
Lemma member_not_bin n : libexec_target prefix n ≠ bin_tp_target prefix.
Proof. rewrite member_path. intros H. unfold bin_tp_target in H. by apply app_inv_head in H. Qed.

(** A label on the error changes nothing else. *)
Lemma label_err_result {A} l (m : Io BundleLocals A) w :
  label_err l m w = match m w with (Error e, w') => (Error (l +:+ ": " +:+ e), w') | r => r end.
Proof. unfold label_err, bind, attempt. by destruct (m w) as [[] ?]. Qed.

(** [t] is next: its backup fails and may be spoiled ... *)
Lemma backup_spoiled bin rest x f g t :
  backing_up bin rest x f → target t → pending bin rest t → (∀ p, p ≠ bak t → g p = f p) → recoverable x g.
Proof.
  intros (O & N & K) Ht Hp Hg. split; [done|]. intros t' c Ht' Hc.
  destruct (K t' c Ht' Hc) as (Hs & Hr & _). rewrite (Hg t') by (by apply bak_apart).
  split_and!; [by rewrite Hs; eexists| |done]. intros H. left. rewrite Hg; [by apply Hr|].
  intros E. apply bak_inj in E; [|done..]. subst t'. by eapply N.
Qed.

(** ... or there is no file to back up, or it is made and registered. *)
Lemma backup_settled bin rest bin' rest' x x' f g t :
  backing_up bin rest x f → target t →
  (∀ t', pending bin rest t' → t' = t ∨ pending bin' rest' t') → (∀ t', pending bin' rest' t' → pending bin rest t' ∧ t' ≠ t) →
  (∀ p, p ≠ bak t → g p = f p) → orderly x' →
  (f t = None ∧ x' = x ∧ (∀ p, g p = f p) ∨ g (bak t) = f t ∧ ∀ t', registered x' t' ↔ registered x t' ∨ t' = t) →
  backing_up bin' rest' x' g.
Proof.
  intros (O & N & K) Ht P1 P2 Hg Ho [(Hf & -> & Hg')|(Hb & Hreg)]; (split; [done|split]).
  - intros t' Hp. apply N. by apply P2.
  - intros t' c Ht' Hc. rewrite !Hg'. destruct (K t' c Ht' Hc) as (? & ? & Hd). split_and!; [done..|].
    destruct Hd as [?|Hd]; [by left|]. destruct (P1 _ Hd) as [->|?]; [congruence|by right].
  - intros t' [Hp Hne]%P2 [Hr| ->]%Hreg; [by eapply N|done].
  - intros t' c Ht' Hc. destruct (K t' c Ht' Hc) as (Hs & Hr & Hd). rewrite (Hg t') by (by apply bak_apart). split_and!; [done| |].
    + intros H. destruct (decide (t' = t)) as [->|Hne]; [by rewrite Hb|].
      rewrite Hg by (intros E; apply bak_inj in E; done). apply Hr. apply Hreg in H as [?| ->]; done.
    + rewrite Hreg. destruct Hd as [?|Hd]; [by left; left|]. destruct (P1 _ Hd) as [->|?]; [left; by right|by right].
Qed.

(** Step 5 for one target [t], registered by [reg]. *)
Lemma hoare_backup bin rest bin' rest' t label reg :
  target t → pending bin rest t →
  (∀ t', pending bin rest t' → t' = t ∨ pending bin' rest' t') → (∀ t', pending bin' rest' t' → pending bin rest t' ∧ t' ≠ t) →
  (∀ l, orderly (view l) → ¬ registered (view l) t → orderly (view (reg (bak t) l)) ∧
     ∀ t', registered (view (reg (bak t) l)) t' ↔ registered (view l) t' ∨ t' = t) →
  hoare (about (backing_up bin rest))
    (there ← exists_ t; when there do (b ← label_err label (backup_binary sys t); modify (reg b)))
    (λ _, about (backing_up bin' rest')) (about recoverable).
Proof.
  intros Ht Hp P1 P2 Hreg w [Hw Hk]. unfold bind at 1, exists_. pose proof Hw as (O & N & K).
  case_bool_decide as Hex.
  2:{ split; [|done]. apply (backup_settled bin rest _ _ (view (locals w)) _ (at_ w) (at_ w) t); try done. left. split_and!; [|done..].
      unfold at_, file_at. destruct (files w !! t); [|done]. destruct Hex. by eexists. }
  unfold bind. rewrite label_err_result. pose proof (backup_result sys t w) as H.
  destruct (backup_binary sys t w) as [[b|e|] w'] eqn:Eb; destruct H as (Hl & Hf & H); [| |done].
  all: assert (kept (at_ w')) as Hk' by
    (apply (kept_after (at_ w) _ (λ p, p = bak t)); [done|exact Hf|intros p [_ Hp']; by destruct (Hp' t Ht)]).
  2:{ split; [rewrite Hl; by eapply backup_spoiled|done]. }
  destruct H as (-> & Hs & Hb). split; [|done]. unfold modify; cbn [locals files].
  destruct (Hreg (locals w') ltac:(by rewrite Hl)) as [Ho Hr]; [by rewrite Hl; apply N|].
  eapply (backup_settled bin rest _ _ _ _ (at_ w) _ t); [exact Hw|done|done|done|exact Hf|done|].
  right. split; [done|]. intros t'. rewrite Hr. by rewrite Hl.
Qed.

Lemma hoare_backup_bin :
  hoare (about (backing_up true names)) (backup_bin_tp sys prefix) (λ _, about (backing_up false names)) (about recoverable).
Proof.
  apply (hoare_backup _ _ _ _ _ _ (λ b, set_bin_bak (Some b))); [constructor|by left| | |].
  - intros t' [[_ ->]|?]; [by left|right; by right].
  - intros t' [[? _]|(n & Hn & ->)]; [done|]. split; [right; by exists n|apply member_not_bin].
  - intros l [O1 O2] Hn. split; [split; [by intros b [= <-]|done]|]. intros t'. unfold registered. cbn.
    split; [intros [[_ ->]|?]; [by right|left; by right]|intros [[[H ->]|?]| ->]; [by left|by right|by left]].
Qed.

Lemma hoare_backup_members l (ms : list (string * PathBuf)) : NoDup l → l ⊆ names → ms.*1 = l →
  hoare (about (backing_up false l)) (for_each ms (backup_member sys prefix)) (λ _, about (backing_up false [])) (about recoverable).
Proof.
  revert l. induction ms as [|m ms IH]; intros l N I <-; [by intros w|].
  cbn [fmap list_fmap for_each] in *. apply NoDup_cons in N as [N1 N2].
  eapply (hoare_bind _ _ (λ _, about (backing_up false ms.*1))); [|intros []; apply IH; [done| |done]; intros n Hn; apply I; by right].
  assert (m.1 ∈ names) as Hm by (apply I; left).
  apply (hoare_backup _ _ _ _ _ _ (λ b l, set_libexec_baks (libexec_baks l ++ [(libexec_target prefix m.1, b)]) l)).
  - by constructor.
  - right. exists m.1. by split; [left|].
  - intros t' [[? _]|(n & [->|Hn]%elem_of_cons & ->)]; [done|by left|right; right; by exists n].
  - intros t' [[? _]|(n & Hn & ->)]; [done|]. split; [right; exists n; by split; [right|]|].
    intros E. apply member_inj in E. by subst.
  - intros lo [O1 O2] Hn. split.
    + split; [done|]. intros t b [H|H%list_elem_of_singleton]%elem_of_app; [by apply O2|]. injection H as -> ->.
      split; [done|]. by exists m.1.
    + intros t'. unfold registered. cbn. rewrite elem_of_app, list_elem_of_singleton.
      split; [intros [?|[?|[= ->]]]; [left; by left|left; by right|by right]|].
      intros [[?|?]| ->]; [by left|right; by left|right; by right].
Qed.

(** ** The swap *)

Lemma not_target src t y : src = tmp_extract o ++ y → target t → src ≠ t ∧ src ≠ bak t.
Proof.
  intros -> Ht. destruct (target_installed t Ht) as [H1 H2].
  split; intros E; [rewrite <- E in H1|rewrite <- E in H2]; by eapply not_installed_extract.
Qed.

(** One replacement, whether it succeeds or not. *)
Lemma swap_keeps src y t x f g : src = tmp_extract o ++ y → target t → backed_up x f →
  (∀ p, p ≠ src → p ≠ t → g p = f p) → (src ≠ t → is_Some (f t) → is_Some (g t)) → backed_up x g.
Proof.
  intros Hy Ht [O K] Hg Hs. split; [done|]. intros t' c Ht' Hc. destruct (K t' c Ht' Hc) as (H1 & H2 & H3).
  destruct (not_target src t y Hy Ht) as [Hn _]. destruct (not_target src t' y Hy Ht') as [Hn1 Hn2]. split_and!; [|done|].
  - destruct (decide (t' = t)) as [->|]; [by apply Hs|by rewrite Hg].
  - rewrite Hg; [done|done|]. intros E. by apply (bak_apart t' t).
Qed.

Lemma swap_kept src y t f g : src = tmp_extract o ++ y → target t → kept f → (∀ p, p ≠ src → p ≠ t → g p = f p) → kept g.
Proof.
  intros -> Ht Hk Hg. apply (kept_after f _ (λ p, p = tmp_extract o ++ y ∨ p = t)); [done|intros p Hp; apply Hg; tauto|].
  intros p [[_ H1] H2] [Hp|Hp]; [by apply (H1 y)|by destruct (H2 t Ht)].
Qed.

Lemma hoare_replace_bin src y l : src = tmp_extract o ++ y →
  hoare (about backed_up) (label_err l (atomic_replace sys src (bin_tp_target prefix))) (λ _, about backed_up) (about recoverable).
Proof.
  intros Hy w [Hw Hk]. rewrite label_err_result. pose proof (replace_result sys src (bin_tp_target prefix) w) as H.
  destruct (atomic_replace _ _ _ w) as [[[]|e|] w']; destruct H as (Hl & Hf & Hs & Hx); [| |done];
    (split; [|by eapply swap_kept; [done| |exact Hk|exact Hf]; constructor]);
    rewrite Hl; [|apply backed_up_recoverable];
    (apply (swap_keeps src y (bin_tp_target prefix) _ (at_ w)); [done|constructor|exact Hw|exact Hf|exact Hs]).
Qed.

(** Putting a registered backup back: the file is whole again, or the system
    refused to move the backup, which is as it was. *)
Lemma restore_target t c w : target t → is_Some (at_ w t) → at_ w (bak t) = Some c ∨ at_ w (bak t) = None ∧ at_ w t = Some c →
  let '(r, w') := restore_binary sys t (bak t) w in
  locals w' = locals w ∧ r ≠ Panicked ∧ is_Some (at_ w' t) ∧
  (at_ w' (bak t) = Some c ∨ at_ w' (bak t) = None ∧ at_ w' t = Some c) ∧
  (at_ w' t = Some c ∨ at_ w' (bak t) = Some c ∧ (∃ k, fails sys k (ORename (bak t) t) ≠ None)) ∧
  (∀ a, r = Val a → at_ w' t = Some c).
Proof.
  intros Ht Hs [Hb|[Hb Hc]].
  - pose proof (restore_result sys t (bak t) w) as H. specialize (H ltac:(intros E; by apply (bak_apart t t))).
    specialize (H ltac:(unfold at_ in Hb; rewrite Hb; by eexists) Hs). unfold at_ in *.
    destruct (restore_binary _ _ _ w) as [[a|e|] w'], H as (Hl & _ & H); [| |done]; (split; [done|]).
    + destruct H as [H1 H2]. rewrite Hb in *. split_and!; [done|by rewrite H1; eexists| |by left|done].
      destruct H2; [by left|right; by split].
    + destruct H as (H1 & H2 & H3). rewrite Hb in *. split_and!; [done|done|by left|by right|done].
  - pose proof (restore_nothing sys t (bak t) w Hb Hs) as H. unfold at_ in *.
    destruct (restore_binary _ _ _ w) as [[a|e|] w'], H as (Hl & Hf & H); try done. split; [done|].
    rewrite !Hf. split_and!; [done|done|by right|by left|done].
Qed.

Lemma restore_kept t w : target t → kept (at_ w) → kept (at_ (restore_binary sys t (bak t) w).2).
Proof.
  intros Ht Hk.
  destruct (steady_restore sys (λ p, p ≠ t ∧ p ≠ bak t) (λ _, tt) t (bak t) ltac:(by intros [? _]) ltac:(by intros [_ ?]) w) as [_ Hf].
  apply (kept_after (at_ w) _ (λ p, p = t ∨ p = bak t)); [done|intros p Hp; apply Hf; tauto|].
  intros p [_ Hp] [E|E]; by destruct (Hp t Ht).
Qed.

(** The files of the other targets do not change. *)
Lemma restore_others t t' w : target t → target t' → t' ≠ t →
  let '(_, w') := restore_binary sys t (bak t) w in at_ w' t' = at_ w t' ∧ at_ w' (bak t') = at_ w (bak t').
Proof.
  intros Ht Ht' Hne.
  pose proof (steady_restore sys (λ p, p ≠ t ∧ p ≠ bak t) (λ _, tt) t (bak t) ltac:(by intros [? _]) ltac:(by intros [_ ?]) w) as [_ Hf].
  destruct (restore_binary _ _ _ w) as [r w']. cbn [snd] in Hf. unfold at_.
  split; apply Hf; split; [done|by apply bak_apart| |].
  - intros E. by apply (bak_apart t' t).
  - intros E. apply bak_inj in E; done.
Qed.

(** [bin/tp] put back after a failed member: its backup is no longer registered. *)
Lemma bin_restored x f g : backed_up x f → (∀ t', target t' → t' ≠ bin_tp_target prefix → g t' = f t' ∧ g (bak t') = f (bak t')) →
  (∀ c, old (bin_tp_target prefix) = Some c → g (bin_tp_target prefix) = Some c) → recoverable (None, x.2) g.
Proof.
  set (t := bin_tp_target prefix). intros [[O1 O2] K] Hg Hb. split; [done|]. intros t' c Ht' Hc.
  destruct (decide (t' = t)) as [->|Hne].
  - rewrite (Hb c Hc). split_and!; [by eexists| |done].
    intros [[? _]|H]; [done|]. destruct (O2 _ _ H) as (_ & n & _ & E). symmetry in E. by apply member_not_bin in E.
  - destruct (Hg t' Ht' Hne) as [-> ->]. destruct (K t' c Ht' Hc) as (H1 & [[_ ->]|H2] & H3); [done|].
    split_and!; [done|by left|]. intros H. destruct H. by right.
Qed.

Lemma refused_bin x f g : backed_up x f → (∀ t', target t' → t' ≠ bin_tp_target prefix → g t' = f t' ∧ g (bak t') = f (bak t')) →
  (∀ c, old (bin_tp_target prefix) = Some c → is_Some (g (bin_tp_target prefix)) ∧
     (g (bak (bin_tp_target prefix)) = Some c ∨ g (bak (bin_tp_target prefix)) = None ∧ g (bin_tp_target prefix) = Some c)) →
  recoverable x g.
Proof.
  set (t := bin_tp_target prefix). intros [O K] Hg Hb. split; [done|]. intros t' c Ht' Hc.
  destruct (K t' c Ht' Hc) as (H1 & H2 & H3). destruct (decide (t' = t)) as [->|Hne].
  - destruct (Hb c Hc) as [H4 H5]. by split_and!.
  - destruct (Hg t' Ht' Hne) as [-> ->]. split_and!; [done|by left|done].
Qed.

Lemma hoare_replace_member m y : m.1 ∈ names → m.2 = tmp_extract o ++ y →
  hoare (about backed_up) (replace_member sys prefix m) (λ _, about backed_up) (about recoverable).
Proof.
  intros Hm Hy w [Hw Hk]. set (t := bin_tp_target prefix). unfold replace_member, bind at 1, attempt at 1.
  pose proof (replace_result sys m.2 (libexec_target prefix m.1) w) as H.
  destruct (atomic_replace _ _ _ w) as [[[]|e|] w1]; destruct H as (Hl & Hf & Hs & Hx); [| |done];
    assert (about backed_up w1) as Hw1 by
      (split; [|eapply swap_kept; [exact Hy|by constructor|exact Hk|exact Hf]];
       rewrite Hl; apply (swap_keeps m.2 y (libexec_target prefix m.1) _ (at_ w)); [done|by constructor|exact Hw|exact Hf|exact Hs]); [done|].
  unfold bind at 1, get_locals. cbv beta iota. pose proof Hw1 as [[[O1 O2] K] Hk1].
  assert (about recoverable w1) as Hr1 by (by eapply about_impl; [apply backed_up_recoverable|]).
  destruct (bin_tp_bak_opt (locals w1)) as [b|] eqn:Eb; [|done].
  assert (b = bak t) as -> by (by apply O1).
  unfold bind, exists_. destruct (bool_decide _); [|done]. unfold attempt. cbv beta iota. fold t.
  assert (target t) as Ht by constructor.
  pose proof (restore_others t) as Ho. pose proof (restore_target t) as Hrt.
  assert (locals (restore_binary sys t (bak t) w1).2 = locals w1) as Hl2.
  { by destruct (steady_restore sys (λ _, False) id t (bak t) ltac:(intros []) ltac:(intros []) w1) as [? _]. }
  assert (∀ t', target t' → t' ≠ t → at_ (restore_binary sys t (bak t) w1).2 t' = at_ w1 t' ∧
     at_ (restore_binary sys t (bak t) w1).2 (bak t') = at_ w1 (bak t')) as Hoth.
  { intros t' Ht' Hne. specialize (Ho t' w1 Ht Ht' Hne). by destruct (restore_binary _ _ _ w1). }
  assert (kept (at_ (restore_binary sys t (bak t) w1).2)) as Hk2 by (by apply restore_kept).
  destruct Hw1 as [Hw1 _].
  destruct (restore_binary sys t (bak t) w1) as [[a|e2|] w2] eqn:Er; cbn [snd] in *; unfold modify, ret, fail; cbv beta iota.
  - split; [|done]. cbn [locals]. rewrite Hl2. apply (bin_restored (view (locals w1)) (at_ w1)); [done|exact Hoth|].
    intros c Hc. destruct (K t c Ht Hc) as (H1 & _ & H3). specialize (Hrt c w1 Ht H1 (or_introl H3)). rewrite Er in Hrt.
    destruct Hrt as (_ & _ & _ & _ & _ & H). by eapply H.
  - split; [|done]. rewrite Hl2. apply (refused_bin _ (at_ w1)); [done|done|].
    intros c Hc. destruct (K t c Ht Hc) as (H1 & _ & H3). specialize (Hrt c w1 Ht H1 (or_introl H3)). rewrite Er in Hrt.
    by destruct Hrt as (_ & _ & H & H' & _).
  - split; [|done]. rewrite Hl2. apply (refused_bin _ (at_ w1)); [done|done|].
    intros c Hc. destruct (K t c Ht Hc) as (H1 & _ & H3). specialize (Hrt c w1 Ht H1 (or_introl H3)). rewrite Er in Hrt.
    by destruct Hrt as (_ & _ & H & H' & _).
Qed.

(** ** The whole *)

(** The tarball is on disk as it was sent. *)
Definition sent (body : string) : Prop :=
  ∃ status text, http_get o (release_url tag (tarball_asset o)) = Answered status text body None.
Definition tarball_there (w : World) : Prop := ∃ body, sent body ∧ at_ w (tmp_tarball o) = Some body.

Lemma hoare_download :
  hoare (about (backing_up true names)) (download_to_file sys o (release_url tag (tarball_asset o)) (tmp_tarball o))
    (λ _ w, about (backing_up true names) w ∧ tarball_there w) (about recoverable).
Proof.
  intros w Hw.
  pose proof (hoare_aside _ _ (backing_up_local true names) (steady_download sys o installed view (release_url tag (tarball_asset o)) (tmp_tarball o) not_installed_tarball) w Hw) as H.
  destruct (download_to_file _ _ _ _ w) as [[[]|e|] w'] eqn:E; [|by eapply about_impl; [apply backing_up_recoverable|]..].
  split; [done|]. unfold download_to_file in E.
  destruct (http_get o _) as [| |status text body' broken] eqn:Eh; [done..|]. destruct (negb _); [done|].
  unfold bind at 1 in E. destruct (or_err _ _ w) as [[[]| |] w1]; [|done..].
  unfold bind at 1 in E. unfold or_err, bind at 1, write_all, writing, operation in E. destruct (fails _ _ _); cbn in E; [done|].
  destruct broken; [done|]. injection E as <-. exists body'. split; [by exists status, text|].
  unfold at_, file_at. cbn [files]. by rewrite lookup_insert_eq.
Qed.

Lemma hoare_verify :
  hoare (λ w, about (backing_up true names) w ∧ tarball_there w) (verify_tarball sys o tag)
    (λ _ w, about (backing_up true names) w ∧ tarball_there w) (about recoverable).
Proof.
  intros w [Hw (body & Hsent & Ht)].
  assert (steady installed view (verify_tarball sys o tag)) as Hst.
  { apply steady_bind; [apply steady_download_checksums|intros [map|]; [|apply steady_ret]].
    apply steady_bind; [apply steady_exec|intros expected]. apply steady_bind; [apply steady_hash|intros [actual|e]; [|apply steady_fail]].
    destruct (String.eqb _ _); [apply steady_ret|].
    apply steady_bind; [apply steady_ignore, steady_remove_file, not_installed_tarball|intros _].
    apply steady_bind; [by apply steady_modify|intros _; apply steady_fail]. }
  pose proof (hoare_aside _ _ (backing_up_local true names) Hst w Hw) as H.
  destruct (verify_tarball _ _ _ w) as [[[]|e|] w'] eqn:E; [|by eapply about_impl; [apply backing_up_recoverable|]..].
  split; [done|]. unfold verify_tarball in E. unfold bind at 1 in E.
  destruct (steady_download_checksums o (λ _, True) (λ _ : BundleLocals, tt) tag w) as [_ Hd].
  destruct (download_checksums o tag w) as [[[map|]|e|] w1]; cbn [snd] in Hd; [|injection E as <-; exists body; split; [done|]; unfold at_; by rewrite Hd|done..].
  unfold bind at 1 in E. destruct (map !! _); cbn [ok_or exec ret fail] in E; [|done].
  unfold bind at 1 in E. destruct (steady_hash sys o (λ _, True) (λ _ : BundleLocals, tt) (tmp_tarball o) w1) as [_ Hh].
  destruct (compute_file_hash _ _ _ w1) as [[[actual|e]|e|] w2]; cbn [snd] in Hh; [|done..].
  destruct (String.eqb _ _); [|unfold bind at 1 in E; by destruct (ignore _ w2) as [[[]| |] ?]].
  injection E as <-. exists body. split; [done|]. unfold at_. by rewrite Hh, Hd.
Qed.

(** Steps that leave the installation alone, after which the tarball still stands. *)
Lemma hoare_extract label :
  (∀ body entries, sent body → untar o body = Ok entries → shipped entries = names) →
  hoare (λ w, about (backing_up true names) w ∧ tarball_there w)
    (label_err label (extract_bundle_tarball sys o (tmp_tarball o) (tmp_extract o)))
    (λ b w, about (backing_up true names) w ∧ (libexec b).*1 = names ∧ (∃ y, bin_tp b = tmp_extract o ++ y) ∧
       ∀ m, m ∈ libexec b → ∃ y, m.2 = tmp_extract o ++ y) (about recoverable).
Proof.
  intros Hnames w [Hw (body & Hsent & Ht)]. rewrite label_err_result.
  pose proof (hoare_aside _ _ (backing_up_local true names)
    (steady_extract sys o installed view unpack_local (tmp_tarball o) (tmp_extract o) not_installed_extract) w Hw) as H.
  destruct (extract_bundle_tarball _ _ _ _ w) as [[b|e|] w'] eqn:E; [|by eapply about_impl; [apply backing_up_recoverable|]..].
  split; [done|]. unfold extract_bundle_tarball in E. unfold bind at 1, or_err, bind at 1, read, operation in E.
  destruct (fails _ _ _); cbn [ret fail] in E; [done|]. unfold at_, file_at in Ht.
  destruct (files w !! tmp_tarball o) as [[c|]|]; [|done..]. injection Ht as ->. cbn [ret] in E.
  unfold bind at 1 in E. destruct (untar o body) as [entries|] eqn:Eu; cbn [exec ret fail] in E; [|done].
  unfold bind in E. destruct (extract_entries _ _ _ _ _ _) as [[[[bin|] found]|e|] w2] eqn:Ee; cbn [fst snd ret fail] in E; try done.
  injection E as <- <-. apply extract_entries_found in Ee as (H1 & H2 & H3). cbn in *. split_and!.
  - rewrite H1. by apply (Hnames body).
  - destruct (H3 bin eq_refl) as [?|?]; done.
  - intros m Hm. destruct (H2 m Hm) as [?%elem_of_nil|?]; done.
Qed.

Lemma hoare_with_tarball {A} (m : Io BundleLocals A) : steady (λ _, True) view m →
  hoare (λ w, about (backing_up true names) w ∧ tarball_there w) m
    (λ _ w, about (backing_up true names) w ∧ tarball_there w) (about recoverable).
Proof.
  intros Hm w [Hw (body & Hsent & Ht)]. destruct (Hm w) as [Hv Hf].
  assert (about (backing_up true names) (m w).2 ∧ tarball_there (m w).2) as [H1 H2].
  { destruct Hw as [Hw Hk]. split; [|exists body; split; [done|unfold at_ in *; by rewrite Hf]]. split.
    - rewrite Hv. eapply backing_up_local; [|exact Hw]. intros t _. unfold at_. by rewrite !Hf.
    - intros p Hp. unfold at_. rewrite Hf by done. by apply Hk. }
  destruct (m w) as [[] ?]; [done|by eapply about_impl; [apply backing_up_recoverable|]..].
Qed.

Lemma total_drop_backups : total (drop_backups sys).
Proof.
  unfold drop_backups, cleanup_backup, remove_file.
  apply total_bind; [apply total_get|intros l]. apply total_bind.
  { destruct (bin_tp_bak_opt l); [|apply total_ret]. apply total_bind; [apply total_ignore, total_operation|intros _; apply total_modify]. }
  intros _. apply total_bind; [apply total_modify|intros _].
  apply total_for_each. intros x. apply total_ignore, total_operation.
Qed.

Lemma total_restart {L} : total (restart_daemon (L:=L) o).
Proof. unfold restart_daemon. destruct (service o); [apply total_start..|]. apply total_bind; [apply total_start|intros _; apply total_start]. Qed.

(** Dropping the backups changes no other file. *)
Lemma drop_backups_aside w p : orderly (view (locals w)) → (∀ t, target t → p ≠ bak t) →
  at_ (bind (drop_backups sys) (λ _, restart_daemon o) w).2 p = at_ w p.
Proof.
  intros [O1 O2] Hp. set (S := λ p, ∀ t, target t → p ≠ bak t).
  assert (∀ l, view l = view (locals w) →
    steady S (λ _, tt) (bind (match bin_tp_bak_opt l with
                                | Some b => cleanup_backup sys b;; modify (set_bin_bak None)
                                | None => ret tt
                                end;; modify (set_libexec_baks []);; for_each (libexec_baks l) (λ tb, cleanup_backup sys tb.2))
      (λ _, restart_daemon o))) as Hst.
  { intros l Hl. injection Hl as Hb Hbaks.
    apply steady_bind; [apply steady_bind; [|intros _; apply steady_bind; [by apply steady_modify|intros _]]|].
    - destruct (bin_tp_bak_opt l) as [b|]; [|apply steady_ret]. symmetry in Hb. apply O1 in Hb. subst b.
      apply steady_bind; [|intros _; by apply steady_modify]. apply steady_ignore, steady_remove_file.
      intros H. by apply (H (bin_tp_target prefix) target_bin).
    - apply steady_for_each. intros [t b] Hin. rewrite Hbaks in Hin. apply O2 in Hin as (-> & n & Hn & ->).
      apply steady_ignore, steady_remove_file. intros H. by apply (H _ (target_member n Hn)).
    - intros _. unfold restart_daemon. destruct (service o); [apply steady_start..|].
      apply steady_bind; [apply steady_start|intros _; apply steady_start]. }
  destruct (Hst (locals w) eq_refl w) as [_ Hf]. exact (Hf p Hp).
Qed.

Lemma hoare_bundle :
  (∀ body entries, sent body → untar o body = Ok entries → shipped entries = names) →
  hoare (about (backing_up true names)) (bundle_steps sys o tag prefix) (λ _ w, kept (at_ w)) (about recoverable).
Proof.
  intros Hnames. unfold bundle_steps.
  eapply hoare_bind; [by apply hoare_download|intros []].
  eapply hoare_bind; [apply hoare_verify|intros []].
  eapply hoare_bind; [apply hoare_with_tarball, steady_or_err, steady_create_dir_all|].
  intros []. eapply hoare_bind; [by apply hoare_extract|intros bundle].
  apply hoare_pure. intros (Hl & (y & Hy) & Hm).
  assert (∀ A (m : Io BundleLocals A) P, local P → (∀ x f, P x f → recoverable x f) → steady installed view m →
    hoare (about P) m (λ _, about P) (about recoverable)) as Haside.
  { intros A m P HP Hrec Hst. eapply hoare_weaken; [by apply hoare_aside|done|done|intros w; by apply about_impl]. }
  pose proof (backing_up_local true names) as L1. pose proof (backing_up_recoverable true names) as R1.
  pose proof backed_up_local as L2. pose proof backed_up_recoverable as R2.
  eapply hoare_bind; [apply Haside; [done|done|apply steady_for_each; intros p _; apply steady_executable]|intros []].
  eapply hoare_bind; [apply hoare_backup_bin|intros []].
  eapply (hoare_bind _ _ (λ _, about backed_up)).
  { eapply hoare_weaken; [apply (hoare_backup_members names); [apply named|done|exact Hl]|done| |done].
    intros [] w. apply about_impl, backing_up_done. }
  intros []. eapply hoare_bind; [apply Haside; [done|done|apply steady_or_err, steady_create_dir_all]|intros []].
  eapply hoare_bind; [apply Haside; [done|done|apply steady_or_err, steady_create_dir_all]|intros []].
  eapply hoare_bind; [by eapply hoare_replace_bin|intros []].
  eapply (hoare_bind _ _ (λ _, about backed_up)).
  { apply (hoare_for_each (λ _, about backed_up)). intros m r Hin. destruct (Hm m Hin) as [z Hz].
    eapply hoare_replace_member; [|exact Hz]. rewrite <- Hl. by apply list_elem_of_fmap_2. }
  intros []. eapply hoare_bind; [apply Haside; [done|done|apply steady_verify]|intros [v|reason]].
  - intros w [[O _] Hk].
    destruct (total_bind _ _ total_drop_backups (λ _, total_restart) w) as [a Ha].
    assert (kept (at_ (bind (drop_backups sys) (λ _, restart_daemon o) w).2)) as Hf.
    { intros p Hp. rewrite drop_backups_aside; [by apply Hk|done|]. intros t Ht. by apply Hp. }
    destruct (bind _ _ w) as [[] w']; [|done..]. done.
  - intros w. by apply about_impl.
Qed.

(** ** The rollback *)

(** In its place; or in its backup, which the system refused to move back. *)
Definition settled (t : PathBuf) (c : string) (f : PathBuf → option string) : Prop :=
  f t = Some c ∨ f (bak t) = Some c ∧ ∃ k, fails sys k (ORename (bak t) t) ≠ None.

(** [todo] is still to be put back. *)
Definition rolling (todo : list PathBuf) (w : World) : Prop :=
  kept (at_ w) ∧ ∀ t c, target t → old t = Some c →
    is_Some (at_ w t) ∧ (t ∈ todo → at_ w (bak t) = Some c ∨ at_ w (bak t) = None ∧ at_ w t = Some c) ∧
    (t ∉ todo → settled t c (at_ w)).

Lemma hoare_roll_back_one t todo : target t →
  hoare (rolling (t :: todo)) (roll_back_one sys t (bak t)) (λ _, rolling todo) (λ _, False).
Proof.
  intros Ht w [Hk Hr]. unfold roll_back_one, bind at 1, exists_.
  assert (∀ w', kept (at_ w') → (∀ t', target t' → t' ≠ t → at_ w' t' = at_ w t' ∧ at_ w' (bak t') = at_ w (bak t')) →
    (∀ c, old t = Some c → is_Some (at_ w' t) ∧ (at_ w' (bak t) = Some c ∨ at_ w' (bak t) = None ∧ at_ w' t = Some c) ∧ settled t c (at_ w')) →
    rolling todo w') as Hall.
  { intros w' Hk' Ho Hc. split; [done|]. intros t' c Ht' Hc'. destruct (decide (t' = t)) as [->|Hne].
    - destruct (Hc c Hc') as (? & ? & ?). by split_and!.
    - destruct (Ho t' Ht' Hne) as [E1 E2]. unfold settled. rewrite E1, E2. destruct (Hr t' c Ht' Hc') as (H1 & H2 & H3).
      split_and!; [done|intros H; apply H2; by right|]. intros H. apply H3. by intros [?|?]%elem_of_cons. }
  case_bool_decide as Hex.
  2:{ apply Hall; [done..|]. intros c Hc. destruct (Hr t c Ht Hc) as (H1 & H2 & _).
      specialize (H2 ltac:(left)). split_and!; [done|done|]. destruct H2 as [H|[_ H]]; [|by left].
      destruct Hex. unfold at_, file_at in H. destruct (files w !! bak t); [by eexists|done]. }
  pose proof (restore_kept t w Ht Hk) as Hk2. pose proof (restore_others t) as Ho.
  assert (∀ c, old t = Some c → is_Some (at_ w t) ∧ (at_ w (bak t) = Some c ∨ at_ w (bak t) = None ∧ at_ w t = Some c)) as Hc.
  { intros c Hc. destruct (Hr t c Ht Hc) as (H1 & H2 & _). split; [done|]. apply H2. left. }
  pose proof (restore_target t) as Hrt. pose proof (restore_no_panic sys t (bak t) w) as Hnp.
  assert (∀ t', target t' → t' ≠ t → at_ (restore_binary sys t (bak t) w).2 t' = at_ w t' ∧
     at_ (restore_binary sys t (bak t) w).2 (bak t') = at_ w (bak t')) as Hoth.
  { intros t' Ht' Hne. specialize (Ho t' w Ht Ht' Hne). by destruct (restore_binary _ _ _ w). }
  assert (∀ c, old t = Some c → let w' := (restore_binary sys t (bak t) w).2 in
     is_Some (at_ w' t) ∧ (at_ w' (bak t) = Some c ∨ at_ w' (bak t) = None ∧ at_ w' t = Some c) ∧ settled t c (at_ w')) as Hc2.
  { intros c Hc'. destruct (Hc c Hc') as [H1 H2]. specialize (Hrt c w Ht H1 H2).
    destruct (restore_binary sys t (bak t) w) as [r w']. destruct Hrt as (_ & _ & ? & ? & ? & _). by split_and!. }
  unfold ignore, attempt, bind. destruct (restore_binary sys t (bak t) w) as [[a|e|] w']; cbn [fst snd] in *; [by apply Hall..|done].
Qed.

Lemma total_clean_temps : total (clean_temps sys).
Proof.
  apply total_bind; [apply total_get|intros l]. apply total_bind.
  - destruct (tmp_tarball_opt l); [|apply total_ret]. apply total_bind; [apply total_exists|intros []; [|apply total_ret]].
    apply total_ignore, total_operation.
  - intros _. destruct (tmp_extract_opt l); [|apply total_ret]. apply total_bind; [apply total_exists|intros []; [|apply total_ret]].
    apply total_ignore. intros w. apply total_operation.
Qed.

(** The temporary paths stay what they were. *)
Definition temps_ok (l : BundleLocals) : Prop :=
  (∀ p, tmp_tarball_opt l = Some p → p = tmp_tarball o) ∧ (∀ d, tmp_extract_opt l = Some d → d = tmp_extract o).

Lemma stable_extract_entries {L} (T : L → Prop) dir entries found : stable T (extract_entries sys o dir entries found).
Proof.
  revert found. induction entries as [|e entries IH]; intros found; [by apply stable_same|]. cbn [extract_entries].
  apply stable_bind; [destruct e; by apply stable_same|intros entry].
  apply stable_bind; [destruct (checked_path entry); by apply stable_same|intros stripped].
  destruct (bool_decide _); [apply IH|].
  unfold or_err, create_dir_all. walk_stable; [|apply IH].
  apply stable_same. intros w. unfold unpack_entry. by destruct (unpack o entry _ _) as [[] ?].
Qed.

Lemma stable_bundle : stable temps_ok (bundle_steps sys o tag prefix).
Proof.
  unfold bundle_steps, download_to_file, verify_tarball, download_checksums, compute_file_hash, label_err, extract_bundle_tarball,
    make_executable, backup_bin_tp, backup_member, backup_binary, replace_member, atomic_replace, restore_binary, verify_new_binary,
    drop_backups, cleanup_backup, restart_daemon, ignore, or_err, exec, create, write_all, writing, read, metadata, set_mode, rename, remove_file, create_dir_all.
  walk_stable; try (intros lo [H1 H2]; split; done); try apply stable_extract_entries; try (apply stable_same; intros w; by case_match).
  intros w. apply stable_operation.
Qed.

(** Only the list of checksums can stop the program, and only the temporary paths
    have changed by then. *)
Lemma calm_extract_entries {L} dir entries found : calm (L:=L) (extract_entries sys o dir entries found).
Proof.
  revert found. induction entries as [|e entries IH]; intros found; [apply calm_ret|]. cbn [extract_entries].
  apply calm_bind; [destruct e; walk_calm|intros entry].
  apply calm_bind; [unfold exec; destruct (checked_path entry); walk_calm|intros stripped].
  destruct (bool_decide _); [apply IH|]. unfold or_err, create_dir_all. apply calm_bind; [walk_calm|intros _].
  apply calm_bind; [|intros _; apply IH]. intros w. unfold unpack_entry. by destruct (unpack o entry _ _) as [[] ?].
Qed.

Lemma calm_bundle map : checksums_of o tag = Ret map → calm (bundle_steps sys o tag prefix).
Proof.
  intros E. unfold bundle_steps, verify_tarball, download_checksums. rewrite E.
  unfold download_to_file, compute_file_hash, label_err, extract_bundle_tarball,
    make_executable, backup_bin_tp, backup_member, backup_binary, replace_member, atomic_replace, restore_binary, verify_new_binary,
    drop_backups, cleanup_backup, restart_daemon, ignore, or_err, exec, create, write_all, read, metadata, set_mode, rename, remove_file, create_dir_all.
  walk_calm; try apply calm_extract_entries; try by intros w.
  all: unfold exec; walk_calm.
Qed.

Lemma bundle_panics w w1 : bundle_steps sys o tag prefix w = (Panicked, w1) →
  checksums_of o tag = Panic ∧ ∀ p, installed p → at_ w1 p = at_ w p.
Proof.
  intros E. destruct (checksums_of o tag) as [map|] eqn:Ec.
  { pose proof (calm_bundle map Ec w) as C. by rewrite E in C. }
  split; [done|]. unfold bundle_steps in E. unfold bind at 1 in E.
  pose proof (steady_download sys o installed view (release_url tag (tarball_asset o)) (tmp_tarball o) not_installed_tarball w) as [_ Hd].
  destruct (download_to_file _ _ _ _ w) as [[[]|e|] w2]; [|done|by injection E as <-]. cbn [snd] in Hd.
  unfold bind at 1, verify_tarball, bind at 1, download_checksums in E. rewrite Ec in E. by injection E as <-.
Qed.

Lemma clean_temps_aside (w : World) p : temps_ok (locals w) → installed p → at_ (clean_temps sys w).2 p = at_ w p.
Proof.
  intros [T1 T2] Hp.
  assert (∀ l, l = locals w → steady installed (λ _ : BundleLocals, tt) (match tmp_tarball_opt l with
    | Some p => there ← exists_ p; when there do (ignore (remove_file sys p))
    | None => ret tt
    end;;
    match tmp_extract_opt l with
    | Some d => there ← exists_ d; when there do (ignore (remove_dir_all sys d))
    | None => ret tt
    end)) as Hst.
  { intros l ->. apply steady_bind.
    - destruct (tmp_tarball_opt (locals w)) as [q|]; [|apply steady_ret]. rewrite (T1 q eq_refl).
      apply steady_bind; [apply steady_exists|intros []; [|apply steady_ret]].
      apply steady_ignore, steady_remove_file, not_installed_tarball.
    - intros _. destruct (tmp_extract_opt (locals w)) as [d|]; [|apply steady_ret]. rewrite (T2 d eq_refl).
      apply steady_bind; [apply steady_exists|intros []; [|apply steady_ret]].
      apply steady_ignore, steady_remove_dir_all, not_installed_extract. }
  destruct (Hst _ eq_refl w) as [_ Hf]. exact (Hf p Hp).
Qed.

Lemma clean_temps_view (w : World) : view (locals (clean_temps sys w).2) = view (locals w).
Proof.
  assert (stable (λ l, view l = view (locals w)) (clean_temps sys)) as H.
  { unfold clean_temps, ignore, remove_file, remove_dir_all. walk_stable. intros w2. exact (stable_operation (λ l0, view l0 = view (locals w)) _ _ _ _ w2). }
  by apply (H w).
Qed.

(** The rollback puts back what is registered. *)
Lemma hoare_roll_back : hoare (about recoverable) (roll_back sys prefix) (λ _, rolling []) (λ _, False).
Proof.
  intros w [[[O1 O2] R] Hk]. unfold roll_back, bind at 1, get_locals. cbv beta iota.
  set (todo := option_list (bin_tp_bak_opt (locals w) ≫= λ _, Some (bin_tp_target prefix)) ++ (libexec_baks (locals w)).*1).
  assert (∀ t, registered (view (locals w)) t ↔ t ∈ todo) as Hreg.
  { intros t. subst todo. rewrite elem_of_app, list_elem_of_fmap. unfold registered. cbn. split.
    - intros [[E ->]|H]; [left; rewrite E; by left|right; by exists (t, bak t)].
    - intros [H|([t' b] & -> & H)]; [left|right].
      + destruct (bin_tp_bak_opt (locals w)) as [b|] eqn:E; cbn in H; [|by apply elem_of_nil in H].
        apply list_elem_of_singleton in H. subst t. by rewrite (O1 b E).
      + by destruct (O2 _ _ H) as [-> _]. }
  assert (rolling todo w) as Hroll.
  { split; [done|]. intros t c Ht Hc. destruct (R t c Ht Hc) as (H1 & H2 & H3).
    split_and!; [done|intros H; apply H2, Hreg, H|intros H; left; apply H3; by rewrite Hreg]. }
  clear R Hk Hreg. subst todo.
  assert (hoare (rolling (libexec_baks (locals w)).*1)
    (for_each (libexec_baks (locals w)) (λ tb, roll_back_one sys tb.1 tb.2)) (λ _, rolling []) (λ _, False)) as Hl.
  { refine (hoare_for_each (λ r : list (PathBuf * PathBuf), rolling r.*1) _ _ _ _). intros [t b] r Hin.
    destruct (O2 _ _ Hin) as (-> & n & Hn & ->). apply hoare_roll_back_one. by constructor. }
  revert Hroll. destruct (bin_tp_bak_opt (locals w)) as [b|] eqn:E; intros Hroll.
  - rewrite (O1 b) by done. eapply (hoare_bind _ _ (λ _, rolling (libexec_baks (locals w)).*1)); [|intros []; exact Hl|exact Hroll].
    apply hoare_roll_back_one. constructor.
  - eapply (hoare_bind _ _ (λ _, rolling (libexec_baks (locals w)).*1)); [|intros []; exact Hl|exact Hroll]. by intros w'.
Qed.

Definition fresh_locals : BundleLocals := mkBL (Some (tmp_tarball o)) (Some (tmp_extract o)) None [].

Lemma fresh_backing_up fs n st : (∀ p, file_at fs p = old p) → about (backing_up true names) (mkWorld fs n st fresh_locals).
Proof.
  intros Hold. assert (∀ p, at_ (mkWorld fs n st fresh_locals) p = old p) as Ha by (intros p; apply Hold).
  split; [|intros p _; apply Ha]. split_and!.
  - split; [done|]. intros t b H. by apply elem_of_nil in H.
  - intros t _ [[? _]|H]; [done|]. by apply elem_of_nil in H.
  - intros t c Ht Hc. rewrite !Ha. split_and!; [done| |].
    + intros [[? _]|H]; [done|]. by apply elem_of_nil in H.
    + right. destruct Ht as [|n' Hn]; [by left|right; by exists n'].
Qed.
End bundle.

(** What the surroundings of a bundle upgrade are like: unpacking an entry changes
    one path, the temporary paths are outside the prefix, and the archive that is
    downloaded ships [names]. *)
Record Surroundings (o : Outside) (tag : string) (prefix : PathBuf) (names : list string) : Prop := {
  unpack_local e dest fs p : p ≠ dest → file_at (unpack o e dest fs).2 p = file_at fs p;
  temps_apart x y : prefix ++ x ≠ tmp_tarball o ∧ prefix ++ x ≠ tmp_extract o ++ y;
  named : well_named names;
  ships status text body entries :
    http_get o (release_url tag (tarball_asset o)) = Answered status text body None → untar o body = Ok entries → shipped entries = names
}.

(** C12. Whatever the system refuses and wherever an upgrade of a bundle fails, no
    installed file is lost: it is in its place, or its backup holds it and the system
    refused to move the backup back.  Only targets, their backups and the temporary
    paths ever change, and the upgrade always comes to an end of its own unless the
    downloaded list of checksums stops the program, which it does before anything but
    the temporary paths has changed.  The archive is taken to ship the members named, no
    name twice and none that of another's backup; unpacking an entry is taken to
    change the one path it is unpacked to, and the temporary paths to lie outside the
    installation. *)
Theorem upgrade_loses_nothing {L} sys o tag prefix names (w : World L) :
  Surroundings o tag prefix names →
  let '(r, w') := upgrade_tp_bundle sys o tag prefix w in
  (∀ p, elsewhere o prefix names p → file_at (files w') p = file_at (files w) p) ∧
  match r with
  | Val None => True
  | Val (Some _) =>
      ∀ t c, target prefix names t → file_at (files w) t = Some c →
        file_at (files w') t = Some c ∨
        file_at (files w') (bak t) = Some c ∧ ∃ k, fails sys k (ORename (bak t) t) ≠ None
  | Panicked => checksums_of o tag = Panic ∧ ∀ p, installed o p → file_at (files w') p = file_at (files w) p
  | Error _ => False
  end.
Proof.
  intros [Hu Ht Hn Hs]. set (old := file_at (files w)). unfold upgrade_tp_bundle, scope.
  set (w0 := mkWorld (files w) (tick w) (started w) _).
  assert (about o prefix old names (backing_up prefix old names true names) w0) as Hw0 by (by apply fresh_backing_up).
  assert (∀ body entries, sent o tag body → untar o body = Ok entries → shipped entries = names) as Hs'.
  { intros body entries (status & text & H). by eapply Hs. }
  assert (temps_ok o (locals w0)) as Ht0 by (split; by intros ? [= <-]).
  pose proof (hoare_bundle sys o tag prefix Hu Ht old names Hn Hs' w0 Hw0) as H1.
  pose proof (stable_bundle sys o tag prefix w0 Ht0) as Ht1.
  assert (∀ r w1, bundle_steps sys o tag prefix w0 = (r, w1) → ∃ w2, clean_temps sys w1 = (Val tt, w2) ∧
    view (locals w2) = view (locals w1) ∧ ∀ p, installed o p → file_at (files w2) p = file_at (files w1) p) as Hclean.
  { intros r w1 E. rewrite E in Ht1. destruct (total_clean_temps sys w1) as [[] Hc].
    pose proof (clean_temps_view sys w1) as Hv. pose proof (λ p, clean_temps_aside sys o w1 p Ht1) as Hf.
    destruct (clean_temps sys w1) as [r' w2]. cbn [fst snd] in *. subst r'. by exists w2. }
  unfold bind at 1, attempt. destruct (bundle_steps sys o tag prefix w0) as [[[]|e|] w1] eqn:E.
  - destruct (Hclean _ _ eq_refl) as (w2 & E2 & _ & Hf). unfold bind. rewrite E2. cbn [ret fst snd files]. split; [|done].
    intros p Hp. rewrite Hf by apply Hp. by apply H1.
  - destruct (Hclean _ _ eq_refl) as (w2 & E2 & Hv & Hf). unfold bind at 1. rewrite E2. unfold bind at 1.
    assert (about o prefix old names (recoverable prefix old names) w2) as Hw2.
    { destruct H1 as [Hr Hk]. split; [|intros p Hp; unfold at_; rewrite Hf by apply Hp; by apply Hk].
      rewrite Hv. eapply recoverable_local; [|exact Hr]. intros t Htt. destruct (target_installed o prefix Ht names t Htt) as [I1 I2].
      unfold at_. by rewrite !Hf. }
    pose proof (hoare_roll_back sys o prefix old names Hn w2 Hw2) as H2.
    destruct (roll_back sys prefix w2) as [[[]| |] w3]; [|done..]. cbn [ret fst snd files]. destruct H2 as [Hk H2].
    split; [exact Hk|]. intros t c Htt Hc. destruct (H2 t c Htt Hc) as (_ & _ & H3). apply H3. by intros ?%elem_of_nil.
  - cbn [fst snd files]. destruct H1 as [_ Hk]. split; [exact Hk|].
    exact (bundle_panics sys o tag prefix w0 w1 E).
Qed.
