(* ===== verification/UpgradeInstall.v ===== *)
(** * UpgradeInstall: what an upgrade of a bundle that succeeds has installed.
    Every member the archive ships, after its hash was checked when there is a
    list of hashes, and a [bin/tp] that says its version. *)
From stdpp Require Import base list numbers strings gmap sets.
From Stdlib Require Import Lia NArith ZArith Ascii.
From S2P Require Import Prelude Bytes Text Chars Json Lines Crypto Release Files Upgrade UpgradeLaws.
Open Scope io_scope.

(** A regular file of the archive and where it goes. *)
Definition ships_at (entries : list (result TarEntry string)) (e : TarEntry) (s : PathBuf) : Prop :=
  Ok e ∈ entries ∧ is_file e = true ∧ checked_path e = Ok s ∧ s ≠ [].
Definition bin_path : PathBuf := [Normal "bin"; Normal "tp"].

Section extraction.
Context {L : Type} (sys : System) (o : Outside) (dir : PathBuf).
Hypothesis unpack_local : ∀ e dest fs p, p ≠ dest → file_at (unpack o e dest fs).2 p = file_at fs p.
Hypothesis unpack_writes : ∀ e dest fs, is_file e = true → (unpack o e dest fs).1 = Ok tt → file_at (unpack o e dest fs).2 dest = Some (data e).

Lemma ships_path entries e s : ships_at entries e s → s ∈ entry_paths entries.
Proof.
  intros (Hin & _ & Hc & Hne). apply list_elem_of_omap. exists (Ok e). split; [done|].
  cbn. by rewrite Hc, bool_decide_false.
Qed.

Lemma ships_cons e' entries e s : ships_at (e' :: entries) e s ↔ e' = Ok e ∧ is_file e = true ∧ checked_path e = Ok s ∧ s ≠ [] ∨ ships_at entries e s.
Proof. unfold ships_at. rewrite elem_of_cons. intuition congruence. Qed.

(** One entry, unpacked. *)
Lemma extract_step e entries found (w w' : World L) r s :
  checked_path e = Ok s → s ≠ [] → extract_entries sys o dir (Ok e :: entries) found w = (Val r, w') →
  ∃ w2, (is_file e = true → file_at (files w2) (dir ++ s) = Some (data e)) ∧
    extract_entries sys o dir entries (track e s (dir ++ s) found) w2 = (Val r, w').
Proof.
  intros Hc Hne. cbn [extract_entries]. unfold bind at 1. cbn [exec ret]. rewrite Hc. unfold bind at 1. cbn [exec ret].
  rewrite bool_decide_false by done. unfold bind at 1. destruct (or_err _ _ w) as [[[]| |] w1]; [|done..].
  unfold bind at 1. unfold unpack_entry at 1. pose proof (unpack_writes e (dir ++ s) (files w1)) as Hw.
  destruct (unpack o e (dir ++ s) (files w1)) as [[[]|] fs]; [|done]. cbn [fst snd] in Hw. intros H.
  eexists. split; [|exact H]. intros Hf. by apply Hw.
Qed.

(** After an extraction every regular file of the archive is where it goes. *)
Lemma extract_contents entries found (w w' : World L) r :
  NoDup (entry_paths entries) → extract_entries sys o dir entries found w = (Val r, w') →
  ∀ e s, ships_at entries e s → file_at (files w') (dir ++ s) = Some (data e).
Proof.
  revert found w. induction entries as [|e0 entries IH]; intros found w Hnd He e s Hs; [by destruct Hs as (?%elem_of_nil & _)|].
  rewrite entry_paths_cons in Hnd. apply NoDup_app in Hnd as (_ & Hd & Hnd).
  destruct e0 as [e0|]; [|done]. destruct (checked_path e0) as [s0|] eqn:Ec.
  2:{ cbn [extract_entries] in He. unfold bind at 1 in He. cbn [exec ret] in He. by rewrite Ec in He. }
  destruct (decide (s0 = [])) as [->|Hne].
  { apply ships_cons in Hs as [([= ->] & _ & H & ?)|Hs]; [congruence|].
    cbn [extract_entries] in He. unfold bind at 1 in He. cbn [exec ret] in He. rewrite Ec in He. unfold bind at 1 in He. cbn [exec ret] in He.
    rewrite bool_decide_true in He by done. by eapply IH. }
  destruct (extract_step _ _ _ _ _ _ _ Ec Hne He) as (w2 & Hw2 & He2).
  apply ships_cons in Hs as [([= ->] & Hf & H & _)|Hs]; [|by eapply IH].
  rewrite Ec in H. injection H as ->. rewrite <- (Hw2 Hf).
  destruct (steady_extract_entries sys o (λ p, p = dir ++ s) (λ _ : L, tt) unpack_local dir entries (track e s (dir ++ s) found)) with (w := w2) as [_ Hst].
  { intros x Hx E. apply app_inv_head in E. subst x. apply (Hd s); [|done]. cbn. rewrite Ec, bool_decide_false by done. by left. }
  rewrite He2 in Hst. by apply Hst.
Qed.

(** What the extraction reports: the files it will install. *)
Definition reports (entries : list (result TarEntry string)) (found : option PathBuf * list (string * PathBuf)) : Prop :=
  (∀ b, found.1 = Some b → b = dir ++ bin_path ∧ ∃ e, ships_at entries e bin_path) ∧
  ∀ n p, (n, p) ∈ found.2 → ∃ e s, ships_at entries e s ∧ s ≠ bin_path ∧ libexec_member s = Some n ∧ p = dir ++ s.

Lemma extract_reports all entries found (w w' : World L) r :
  (∀ e s, ships_at entries e s → ships_at all e s) → reports all found →
  extract_entries sys o dir entries found w = (Val r, w') → reports all r.
Proof.
  revert found w. induction entries as [|e0 entries IH]; intros found w Hall Hr He; [by injection He as <- <-|].
  assert (∀ e s, ships_at entries e s → ships_at all e s) as Hall' by (intros e s H; apply Hall, (proj2 (ships_cons _ _ _ _)); by right).
  destruct e0 as [e0|]; [|done]. destruct (checked_path e0) as [s0|] eqn:Ec.
  2:{ cbn [extract_entries] in He. unfold bind at 1 in He. cbn [exec ret] in He. by rewrite Ec in He. }
  destruct (decide (s0 = [])) as [->|Hne].
  { cbn [extract_entries] in He. unfold bind at 1 in He. cbn [exec ret] in He. rewrite Ec in He. unfold bind at 1 in He. cbn [exec ret] in He.
    rewrite bool_decide_true in He by done. by eapply IH. }
  destruct (extract_step _ _ _ _ _ _ _ Ec Hne He) as (w2 & _ & He2). eapply IH; [done| |exact He2].
  unfold track. destruct (is_file e0) eqn:Ef; [|done]. cbn [negb].
  assert (ships_at all e0 s0) as Hs0 by (apply Hall, (proj2 (ships_cons _ _ _ _)); by left).
  destruct Hr as [R1 R2]. case_bool_decide as Hb.
  - subst s0. split; [|done]. intros b [= <-]. split; [done|by exists e0].
  - destruct (libexec_member s0) as [n0|] eqn:El; [|done]. split; [done|].
    intros n p [H|H%list_elem_of_singleton]%elem_of_app; [by apply R2|]. injection H as -> ->. by exists e0, s0.
Qed.

(** Every member is reported. *)
Lemma extract_complete entries found (w w' : World L) r :
  extract_entries sys o dir entries found w = (Val r, w') →
  (∀ m, m ∈ found.2 → m ∈ r.2) ∧
  ∀ e s n, ships_at entries e s → s ≠ bin_path → libexec_member s = Some n → (n, dir ++ s) ∈ r.2.
Proof.
  revert found w. induction entries as [|e0 entries IH]; intros found w He.
  { injection He as <- <-. split; [done|]. by intros e s n (?%elem_of_nil & _). }
  destruct e0 as [e0|]; [|done]. destruct (checked_path e0) as [s0|] eqn:Ec.
  2:{ cbn [extract_entries] in He. unfold bind at 1 in He. cbn [exec ret] in He. by rewrite Ec in He. }
  destruct (decide (s0 = [])) as [->|Hne].
  { cbn [extract_entries] in He. unfold bind at 1 in He. cbn [exec ret] in He. rewrite Ec in He. unfold bind at 1 in He. cbn [exec ret] in He.
    rewrite bool_decide_true in He by done. destruct (IH _ _ He) as [H1 H2]. split; [done|].
    intros e s n [([= ->] & _ & H & ?)|Hs]%ships_cons; [congruence|by eapply H2]. }
  destruct (extract_step _ _ _ _ _ _ _ Ec Hne He) as (w2 & _ & He2). destruct (IH _ _ He2) as [H1 H2]. split.
  - intros m Hm. apply H1. unfold track. destruct (negb _); [done|]. case_bool_decide; [done|].
    destruct (libexec_member s0); [apply elem_of_app; by left|done].
  - intros e s n [([= ->] & Hf & H & _)|Hs]%ships_cons Hb Hl; [|by eapply H2].
    rewrite Ec in H. injection H as ->. apply H1. unfold track. rewrite Hf, bool_decide_false, Hl by done. cbn.
    apply elem_of_app. right. by left.
Qed.
End extraction.
(** *** install: the steps of the upgrade *)

Section install.
Context (sys : System) (o : Outside) (tag : string) (prefix : PathBuf) (old : PathBuf → option string) (names : list string).
Hypothesis unpack_local : ∀ e dest fs p, p ≠ dest → file_at (unpack o e dest fs).2 p = file_at fs p.
Hypothesis unpack_writes : ∀ e dest fs, is_file e = true → (unpack o e dest fs).1 = Ok tt → file_at (unpack o e dest fs).2 dest = Some (data e).
Hypothesis temps_apart : ∀ x y, prefix ++ x ≠ tmp_tarball o ∧ prefix ++ x ≠ tmp_extract o ++ y.
Hypothesis named : well_named names.
Hypothesis archive : ∀ body entries, sent o tag body → untar o body = Ok entries → shipped entries = names ∧ NoDup (entry_paths entries).

Notation World := (World BundleLocals).
Notation about := (about o prefix old names).
Notation backing_up := (backing_up prefix old names).
Notation backed_up := (backed_up prefix old names).
Notation target := (target prefix names).

(** The hash is the one in the list, when there is a list. *)
Definition hash_ok (body : string) : Prop :=
  ∀ map, checksums_of o tag = Ret (Some map) → map !! tarball_asset o = Some (lower_hex (sha256 o body)).
(** The program says its version. *)
Definition verified (content : string) : Prop :=
  ∃ out v, run_version o content = Ok out ∧ analyze_verification_output out = Verified v.

Definition checked_tarball (w : World) : Prop :=
  ∃ body, (sent o tag body ∧ hash_ok body) ∧ at_ w (tmp_tarball o) = Some body.

Lemma hoare_hash : hoare (tarball_there o tag) (verify_tarball sys o tag) (λ _, checked_tarball) (λ _, True).
Proof.
  intros w (body & Hsent & Ht). destruct (verify_tarball sys o tag w) as [[[]|e|] w'] eqn:E; [|done..].
  unfold verify_tarball in E. unfold bind at 1, download_checksums in E. exists body.
  destruct (checksums_of o tag) as [[map|]|] eqn:Em; cbn [ret panic] in E; [| |done].
  2:{ injection E as <-. split; [split; [done|]|done]. intros m Hm. congruence. }
  unfold bind at 1 in E. destruct (map !! tarball_asset o) as [expected|] eqn:El; cbn [ok_or exec ret fail] in E; [|done].
  unfold bind at 1, compute_file_hash, bind at 1, read, operation in E. unfold at_, file_at in Ht.
  destruct (fails _ _ _); cbn [ret] in E; [done|].
  destruct (files w !! tmp_tarball o) as [[c|]|] eqn:Ef; [|done..]. injection Ht as ->. cbn [ret] in E.
  destruct (String.eqb_spec (lower_hex (sha256 o body)) expected) as [Heq|]; [|unfold bind at 1 in E; by destruct (ignore _ _) as [[[]| |] ?]].
  injection E as <-. split; [split; [done|]|unfold at_, file_at; cbn [files]; by rewrite Ef].
  intros m Hm. rewrite Em in Hm. injection Hm as <-. by rewrite El, Heq.
Qed.

(** The archive's files stand in the extraction directory. *)
Definition loaded (entries : list (result TarEntry string)) (w : World) : Prop :=
  ∀ e s, ships_at entries e s → at_ w (tmp_extract o ++ s) = Some (data e).
Definition complete (entries : list (result TarEntry string)) (b : ExtractedBundle) : Prop :=
  reports (tmp_extract o) entries (Some (bin_tp b), libexec b) ∧
  ∀ e s n, ships_at entries e s → s ≠ bin_path → libexec_member s = Some n → (n, tmp_extract o ++ s) ∈ libexec b.

Lemma hoare_loaded label : hoare checked_tarball (label_err label (extract_bundle_tarball sys o (tmp_tarball o) (tmp_extract o)))
  (λ b w, ∃ entries, loaded entries w ∧ (∃ body, sent o tag body ∧ hash_ok body ∧ untar o body = Ok entries) ∧ complete entries b) (λ _, True).
Proof.
  intros w (body & (Hsent & Hhash) & Ht). rewrite label_err_result.
  destruct (extract_bundle_tarball _ _ _ _ w) as [[b|e|] w'] eqn:E; [|done..].
  unfold extract_bundle_tarball in E. unfold bind at 1, or_err, bind at 1, read, operation in E.
  destruct (fails _ _ _); cbn [ret fail] in E; [done|]. unfold at_, file_at in Ht.
  destruct (files w !! tmp_tarball o) as [[c|]|]; [|done..]. injection Ht as ->. cbn [ret] in E.
  unfold bind at 1 in E. destruct (untar o body) as [entries|] eqn:Eu; cbn [exec ret fail] in E; [|done].
  unfold bind in E. destruct (extract_entries _ _ _ _ _ _) as [[[[bin|] found]|e|] w2] eqn:Ee; cbn [fst snd ret fail] in E; try done.
  injection E as <- <-. exists entries. destruct (archive body entries Hsent Eu) as [_ Hnd].
  split_and!; [|by exists body|split].
  - intros e s Hs. eapply (extract_contents sys o (tmp_extract o)); [done|done|done|exact Ee|done].
  - eapply (extract_reports sys o (tmp_extract o) unpack_writes entries entries (None, [])); [done| |exact Ee].
    split; [done|]. intros n p H. by apply elem_of_nil in H.
  - destruct (extract_complete sys o (tmp_extract o) unpack_writes entries (None, []) _ _ _ Ee) as [_ H]. exact H.
Qed.

Lemma hoare_everywhere {A} (m : Io BundleLocals A) P : local prefix names P → steady (λ _, True) view m → ∀ F : (PathBuf → option string) → Prop,
  (∀ f g, (∀ p, f p = g p) → F f → F g) →
  hoare (λ w, about P w ∧ F (at_ w)) m (λ _ w, about P w ∧ F (at_ w)) (λ _, True).
Proof.
  intros HP Hm F HF w [[Hw Hk] Hf]. destruct (Hm w) as [Hv Hs].
  assert (about P (m w).2 ∧ F (at_ (m w).2)) as H.
  { split; [split|].
    - rewrite Hv. eapply HP; [|exact Hw]. intros t _. unfold at_. by rewrite !Hs.
    - intros p Hp. unfold at_. rewrite Hs by done. by apply Hk.
    - eapply HF; [|exact Hf]. intros p. unfold at_. by rewrite Hs. }
  by destruct (m w) as [[]].
Qed.

(** Making a backup changes the backup only. *)
Lemma steady_backup t : target t → steady (λ p, p ≠ bak t) (λ _ : BundleLocals, tt) (backup_binary sys t).
Proof.
  intros Ht w. pose proof (backup_result sys t w) as H. destruct (backup_binary sys t w) as [r w']. split; [done|].
  destruct H as (_ & Hf & _). exact Hf.
Qed.

Lemma steady_backup_at t label reg : target t →
  steady (λ p, ∃ y, p = tmp_extract o ++ y) (λ _ : BundleLocals, tt)
    (there ← exists_ t; when there do (b ← label_err label (backup_binary sys t); modify (reg b))).
Proof.
  intros Ht. destruct (target_installed o prefix temps_apart names t Ht) as [_ [_ Hb]].
  apply steady_bind; [apply steady_exists|intros []; [|apply steady_ret]].
  apply steady_bind; [|intros b; by apply steady_modify]. intros w. split; [done|]. intros p [y ->].
  rewrite label_err_result. destruct (steady_backup t Ht w) as [_ H].
  specialize (H (tmp_extract o ++ y) ltac:(intros E; by apply (Hb y))). by destruct (backup_binary sys t w) as [[] ?].
Qed.

Lemma hoare_loaded_kept {A} entries (m : Io BundleLocals A) :
  steady (λ p, ∃ y, p = tmp_extract o ++ y) (λ _ : BundleLocals, tt) m → hoare (loaded entries) m (λ _, loaded entries) (λ _, True).
Proof.
  intros Hm w Hw. destruct (Hm w) as [_ Hf].
  assert (loaded entries (m w).2) as H.
  { intros e s Hs. unfold at_. rewrite Hf by (by eexists). by apply Hw. }
  by destruct (m w) as [[]].
Qed.

(** While the members are swapped in: the rest stands in the extraction directory,
    what is done in its target. *)
Definition swapping (entries : list (result TarEntry string)) (eb : TarEntry) (rest : list (string * PathBuf)) (w : World) : Prop :=
  at_ w (bin_tp_target prefix) = Some (data eb) ∧
  ∀ e s n, ships_at entries e s → s ≠ bin_path → libexec_member s = Some n →
    if bool_decide ((n, tmp_extract o ++ s) ∈ rest) then at_ w (tmp_extract o ++ s) = Some (data e)
    else at_ w (libexec_target prefix n) = Some (data e).

Lemma swap_bin entries b eb label (w : World) : complete entries b → ships_at entries eb bin_path → loaded entries w →
  match label_err label (atomic_replace sys (bin_tp b) (bin_tp_target prefix)) w with
  | (Val _, w') => swapping entries eb (libexec b) w'
  | _ => True
  end.
Proof.
  intros [[Hb _] Hc] Heb Hl. rewrite label_err_result.
  destruct (Hb (bin_tp b) eq_refl) as [Eb _]. rewrite Eb.
  pose proof (replace_result sys (tmp_extract o ++ bin_path) (bin_tp_target prefix) w) as H.
  destruct (atomic_replace _ _ _ w) as [[[]|e|] w']; [|done..]. destruct H as (_ & Hf & _ & Hx).
  destruct (not_target o prefix temps_apart names _ (bin_tp_target prefix) bin_path eq_refl (target_bin _ _)) as [Hne _].
  specialize (Hl eb bin_path Heb) as Hbin. split.
  - unfold at_ in *. rewrite Hx; [done|done|by rewrite Hbin; eexists].
  - intros e s n Hs Hsb Hm. rewrite bool_decide_true by (by eapply Hc). unfold at_ in *.
    destruct (not_target o prefix temps_apart names _ (bin_tp_target prefix) s eq_refl (target_bin _ _)) as [Hne2 _].
    rewrite Hf; [by apply Hl|by intros E; apply app_inv_head in E|done].
Qed.

Lemma never_val {L A B} (m : Files.Io L A) e w : match bind m (λ _, fail (A:=B) e) w with (Val _, _) => False | _ => True end.
Proof. unfold bind. by destruct (m w) as [[] ?]. Qed.

Lemma fst_unique {A B} (l : list (A * B)) x y y' : NoDup l.*1 → (x, y) ∈ l → (x, y') ∈ l → y = y'.
Proof.
  induction l as [|[a b] l IH]; [by intros _ ?%elem_of_nil|]. cbn. rewrite NoDup_cons. intros [Hn Hnd].
  rewrite !elem_of_cons. intros [H|H] [H'|H']; [congruence| | |by apply IH].
  - injection H as -> ->. destruct Hn. apply list_elem_of_fmap. by exists (a, y').
  - injection H' as -> ->. destruct Hn. apply list_elem_of_fmap. by exists (a, y).
Qed.

Lemma swap_member entries b eb m rest : complete entries b → NoDup (libexec b).*1 → (libexec b).*1 = names → m ∈ libexec b → m ∉ rest → rest ⊆ libexec b →
  hoare (swapping entries eb (m :: rest)) (replace_member sys prefix m) (λ _, swapping entries eb rest) (λ _, True).
Proof.
  intros [[_ Hr] Hc] Hnd Hnames Hm Hnot Hrest w [Hb Hw]. unfold replace_member, bind at 1, attempt.
  destruct m as [n p]. destruct (Hr n p Hm) as (e & s & Hs & Hsb & Hl & ->). cbn [fst snd].
  assert (target (libexec_target prefix n)) as Ht.
  { constructor. rewrite <- Hnames. apply list_elem_of_fmap. by exists (n, tmp_extract o ++ s). }
  pose proof (replace_result sys (tmp_extract o ++ s) (libexec_target prefix n) w) as H.
  destruct (atomic_replace _ _ _ w) as [[[]|e'|] w']; [| |done].
  2:{ unfold bind at 1, get_locals. cbv beta iota. match goal with |- context [bind ?k (λ _, fail ?e2) w'] => pose proof (never_val (B:=unit) k e2 w') as Hn; destruct (bind k (λ _, fail e2) w') as [[]] end; done. }
  destruct H as (_ & Hf & _ & Hx). destruct (not_target o prefix temps_apart names _ _ s eq_refl Ht) as [Hne _].
  pose proof (Hw e s n Hs Hsb Hl) as Hsrc. rewrite bool_decide_true in Hsrc by (by left). cbn. split.
  - unfold at_ in *. rewrite Hf; [done| |].
    + by destruct (not_target o prefix temps_apart names _ _ s eq_refl (target_bin _ names)) as [? _]; intros E; destruct H.
    + intros E. by apply (member_not_bin prefix n).
  - intros e2 s2 n2 Hs2 Hsb2 Hl2. specialize (Hw e2 s2 n2 Hs2 Hsb2 Hl2).
    assert (target (libexec_target prefix n2)) as Ht2.
    { constructor. rewrite <- Hnames. apply list_elem_of_fmap. exists (n2, tmp_extract o ++ s2). split; [done|by eapply Hc]. }
    destruct (not_target o prefix temps_apart names _ _ s eq_refl Ht2) as [Hx1 _].
    destruct (not_target o prefix temps_apart names _ _ s2 eq_refl Ht) as [Hx2 _].
    destruct (decide (s2 = s)) as [->|Hs2ne].
    + rewrite Hl in Hl2. injection Hl2 as ->. rewrite bool_decide_false by done. unfold at_ in *.
      rewrite Hx; [by rewrite bool_decide_true in Hw by (by left)|done|by rewrite Hsrc; eexists].
    + destruct (decide (n2 = n)) as [->|Hn2].
      { exfalso. apply Hs2ne. assert ((n, tmp_extract o ++ s2) ∈ libexec b) as Hm2 by (by eapply Hc).
        eapply (fst_unique (libexec b)) in Hm; [|done|exact Hm2]. by apply app_inv_head in Hm. }
      destruct (decide ((n2, tmp_extract o ++ s2) ∈ rest)) as [Hin|Hin].
      * rewrite (bool_decide_true (_ ∈ rest)) by done. rewrite bool_decide_true in Hw by (by right). unfold at_ in *.
        rewrite Hf; [done|by intros E; apply app_inv_head in E|by intros E].
      * rewrite (bool_decide_false (_ ∈ rest)) by done. rewrite bool_decide_false in Hw by (by intros [E|?]%elem_of_cons; [injection E as <- E; apply app_inv_head in E|]).
        unfold at_ in *. rewrite Hf; [done|by intros E|by intros E%member_inj].
Qed.

(** What a successful upgrade has done. *)
Definition installed_all (f : PathBuf → option string) : Prop :=
  ∃ body entries, sent o tag body ∧ hash_ok body ∧ untar o body = Ok entries ∧
    (∃ e, ships_at entries e bin_path ∧ f (bin_tp_target prefix) = Some (data e) ∧ verified (data e)) ∧
    ∀ e s n, ships_at entries e s → s ≠ bin_path → libexec_member s = Some n → f (libexec_target prefix n) = Some (data e).

Lemma finish entries eb body w : sent o tag body → hash_ok body → untar o body = Ok entries → ships_at entries eb bin_path →
  about backed_up w → swapping entries eb [] w →
  match (verified ← verify_new_binary o (bin_tp_target prefix);
         match verified with
         | Rejected reason => fail ("New binary verification failed — " +:+ reason)
         | Verified _ => drop_backups sys;; restart_daemon o
         end) w with
  | (Val _, w') => installed_all (at_ w')
  | _ => True
  end.
Proof.
  intros Hsent Hhash Hun Heb [[O _] _] [Hb Hm]. unfold bind at 1, verify_new_binary at 1, bind at 1, start_program. cbn [fst snd files].
  set (w1 := mkWorld (files w) _ _ _). unfold at_ in Hb. rewrite Hb.
  destruct (run_version o (data eb)) as [out|] eqn:Er; [|done].
  destruct (analyze_verification_output out) as [v|reason] eqn:Ea; [|done].
  assert (∀ t, target t → at_ (bind (drop_backups sys) (λ _, restart_daemon o) w1).2 t = at_ w t) as Hd.
  { intros t Ht. rewrite (drop_backups_aside sys o prefix names w1); [done|exact O|].
    intros t' Ht'. by apply (bak_apart prefix names named). }
  destruct (total_bind _ _ (total_drop_backups sys) (λ _, total_restart o) w1) as [[] Hv].
  destruct (bind _ _ w1) as [r w2]. cbn [fst snd] in *. subst r.
  exists body, entries. split_and!; [done..| |].
  - exists eb. split_and!; [done|by rewrite Hd by constructor|by exists out, v].
  - intros e s n Hs Hne Hl. rewrite Hd.
    + specialize (Hm e s n Hs Hne Hl). by rewrite bool_decide_false in Hm by (by intros ?%elem_of_nil).
    + constructor. destruct (archive body entries Hsent Hun) as [<- _]. unfold shipped. apply list_elem_of_omap.
      destruct Hs as (Hin & Hf & Hc & _). exists (Ok e). split; [done|]. cbn. rewrite Hc, Hf, bool_decide_false by done. done.
Qed.

(** What is left after the extraction. *)
Lemma hoare_install entries eb body b : sent o tag body → hash_ok body → untar o body = Ok entries → complete entries b →
  (libexec b).*1 = names → ships_at entries eb bin_path →
  hoare (λ w, about (backing_up true names) w ∧ loaded entries w)
    (for_each (bin_tp b :: (libexec b).*2) (make_executable sys);;
     backup_bin_tp sys prefix;;
     for_each (libexec b) (backup_member sys prefix);;
     or_err (create_dir_all sys (removelast (bin_tp_target prefix))) (λ e, "create " +:+ show_path (removelast (bin_tp_target prefix)) +:+ ": " +:+ e);;
     or_err (create_dir_all sys (libexec_dir prefix)) (λ e, "create " +:+ show_path (libexec_dir prefix) +:+ ": " +:+ e);;
     label_err "replace bin/tp" (atomic_replace sys (bin_tp b) (bin_tp_target prefix));;
     for_each (libexec b) (replace_member sys prefix);;
     verified ← verify_new_binary o (bin_tp_target prefix);
     match verified with
     | Rejected reason => fail ("New binary verification failed — " +:+ reason)
     | Verified _ => drop_backups sys;; restart_daemon o
     end) (λ _ w, installed_all (at_ w)) (λ _, True).
Proof.
  intros Hsent Hhash Hun Hc Hnames Heb. pose proof named as [Hnd _].
  pose proof (backing_up_local prefix old names true names) as L1. pose proof (backed_up_local prefix old names) as L2.
  set (F := λ f : PathBuf → option string, ∀ e s, ships_at entries e s → f (tmp_extract o ++ s) = Some (data e)).
  assert (∀ f g : PathBuf → option string, (∀ p, f p = g p) → F f → F g) as HF by (intros f g E H e s Hs; rewrite <- E; by apply H).
  assert (∀ m, m ∈ libexec b → m.1 ∈ names ∧ ∃ y, m.2 = tmp_extract o ++ y) as Hmem.
  { intros m Hm. split; [rewrite <- Hnames; by apply list_elem_of_fmap_2|]. destruct m as [n p].
    destruct Hc as [[_ Hr] _]. destruct (Hr n p Hm) as (e & s & _ & _ & _ & ->). by exists s. }
  eapply hoare_bind; [apply (hoare_everywhere _ (backing_up true names) L1) with (F := F); [|done]|intros []].
  { apply steady_for_each. intros p _. apply steady_executable. }
  eapply (hoare_bind _ _ (λ _ w, about (backing_up false names) w ∧ loaded entries w)).
  { eapply hoare_weaken; [eapply hoare_and; [apply (hoare_backup_bin sys o prefix old names named)|apply (hoare_loaded_kept entries)]|done|done|done].
    apply steady_backup_at. constructor. }
  intros []. eapply (hoare_bind _ _ (λ _ w, about backed_up w ∧ loaded entries w)).
  { eapply hoare_weaken; [eapply hoare_and;
      [apply (hoare_backup_members sys o prefix old names named names (libexec b)); [done|done|exact Hnames]|apply (hoare_loaded_kept entries)]|done| |done].
    - apply steady_for_each. intros m Hm. apply (steady_backup_at _ _ (λ bak l, set_libexec_baks (libexec_baks l ++ [(_, bak)]) l)).
      constructor. by apply Hmem.
    - intros [] w [H1 H2]. split; [|done]. revert H1. apply about_impl, backing_up_done. }
  intros []. eapply hoare_bind; [apply (hoare_everywhere _ backed_up L2) with (F := F); [apply steady_or_err, steady_create_dir_all|done]|intros []].
  eapply hoare_bind; [apply (hoare_everywhere _ backed_up L2) with (F := F); [apply steady_or_err, steady_create_dir_all|done]|intros []].
  eapply (hoare_bind _ _ (λ _ w, about backed_up w ∧ swapping entries eb (libexec b) w)).
  { eapply hoare_weaken; [apply (hoare_and (about backed_up) (loaded entries) _ (λ _, about backed_up) (λ _, swapping entries eb (libexec b)) (about (recoverable prefix old names)) (λ _, True));
      [eapply (hoare_replace_bin sys o prefix temps_apart old names named (bin_tp b) bin_path)|]|done|done|done].
    - destruct Hc as [[Hb _] _]. by destruct (Hb _ eq_refl) as [-> _].
    - intros w Hw. pose proof (swap_bin entries b eb "replace bin/tp" w Hc Heb Hw) as H. by destruct (label_err _ _ w) as [[] ?]. }
  intros []. eapply (hoare_bind _ _ (λ _ w, about backed_up w ∧ swapping entries eb [] w)).
  { set (I := λ r w, about backed_up w ∧ swapping entries eb r w).
    refine (hoare_each_nodup I _ _ (libexec b) _ _).
    - apply (NoDup_fmap_1 fst). by rewrite Hnames.
    - intros m r Hm Hr Hsub. destruct (Hmem m Hm) as [Hn [y Hy]].
      eapply hoare_weaken; [eapply hoare_and;
        [apply (hoare_replace_member sys o prefix temps_apart old names named m y Hn Hy)|
         apply (swap_member entries b eb m r Hc); [by rewrite Hnames|done..]]|done|done|done]. }
  intros [] w [H1 H2]. by eapply finish.
Qed.

Lemma bundle_installs : hoare (about (backing_up true names)) (bundle_steps sys o tag prefix) (λ _ w, installed_all (at_ w)) (λ _, True).
Proof.
  assert (∀ body entries, sent o tag body → untar o body = Ok entries → shipped entries = names) as Hships by (intros; by eapply archive).
  unfold bundle_steps.
  eapply (hoare_bind _ _ (λ _ w, about (backing_up true names) w ∧ tarball_there o tag w)).
  { eapply hoare_weaken; [by apply (hoare_download sys o tag prefix temps_apart old names)|done|done|done]. }
  intros []. eapply (hoare_bind _ _ (λ _ w, about (backing_up true names) w ∧ ∃ body, (sent o tag body ∧ hash_ok body) ∧ at_ w (tmp_tarball o) = Some body)).
  { eapply hoare_weaken; [eapply hoare_and; [apply (hoare_verify sys o tag prefix temps_apart old names)|apply hoare_hash]|
      by intros w [? ?]|by intros [] w [[? _] ?]|done]. }
  intros []. eapply hoare_bind.
  { apply (hoare_everywhere _ (backing_up true names)) with
      (F := λ f, ∃ body, (sent o tag body ∧ hash_ok body) ∧ f (tmp_tarball o) = Some body).
    - apply backing_up_local.
    - apply steady_or_err, steady_create_dir_all.
    - intros f g Hfg (body & H & E). exists body. by rewrite <- Hfg. }
  intros []. eapply (hoare_bind _ _ (λ b w, (about (backing_up true names) w ∧ ∃ entries, loaded entries w ∧
     (∃ body, sent o tag body ∧ hash_ok body ∧ untar o body = Ok entries) ∧ complete entries b) ∧ (libexec b).*1 = names)).
  { eapply hoare_weaken; [eapply hoare_and; [apply (hoare_extract sys o tag prefix unpack_local temps_apart old names "extract tarball" Hships)|apply hoare_loaded]| | |done].
    - intros w [H (body & Hb & E)]. split; [split; [done|exists body; by split; [apply Hb|]]|by exists body].
    - intros b w [(H1 & H2 & _) H3]. done. }
  intros b. apply hoare_pure. intros Hnames w [Hw (entries & Hl & (body & Hs & Hh & Hu) & Hc)].
  destruct Hc as [[Hb Hr] Hc]. destruct (Hb _ eq_refl) as [_ [eb Heb]].
  eapply (hoare_install entries eb body b); [done|done|done|done|done|done|by split].
Qed.
End install.

(** What unpacking does, and that the archive has no path twice. *)
Record Archive (o : Outside) (tag : string) : Prop := {
  unpack_writes e dest fs : is_file e = true → (unpack o e dest fs).1 = Ok tt → file_at (unpack o e dest fs).2 dest = Some (data e);
  paths_once status text body entries :
    http_get o (release_url tag (tarball_asset o)) = Answered status text body None → untar o body = Ok entries → NoDup (entry_paths entries)
}.

(** C13. When an upgrade of a bundle succeeds, the archive was the one whose hash the
    release lists (if there is a list), [bin/tp] and every member of [libexec/tp] it ships
    are in their places with the contents it ships, and the new [bin/tp] has said its
    version. (The archive is taken to ship the members named, no name twice and none that
    of another's backup; the file system of the model has no links.) *)
Theorem upgrade_installs {L} sys o tag prefix names (w : World L) :
  Surroundings o tag prefix names → Archive o tag →
  let '(r, w') := upgrade_tp_bundle sys o tag prefix w in
  r = Val None → installed_all o tag prefix (file_at (files w')).
Proof.
  intros [Hu Ht Hn Hs] [Hw Hp]. set (old := file_at (files w)). unfold upgrade_tp_bundle, scope.
  set (w0 := mkWorld (files w) (tick w) (started w) _).
  assert (about o prefix old names (backing_up prefix old names true names) w0) as Hw0 by (by apply fresh_backing_up).
  assert (∀ body entries, sent o tag body → untar o body = Ok entries → shipped entries = names ∧ NoDup (entry_paths entries)) as Har.
  { intros body entries (status & text & H) Hun. split; [by eapply Hs|by eapply Hp]. }
  pose proof (bundle_installs sys o tag prefix old names Hu Hw Ht Hn Har w0 Hw0) as H1.
  pose proof (stable_bundle sys o tag prefix w0) as Ht1.
  unfold bind at 1, attempt. destruct (bundle_steps sys o tag prefix w0) as [[[]|e|] w1] eqn:E; cbn [fst snd] in *.
  - specialize (Ht1 ltac:(split; by intros ? [= <-])).
    destruct (total_clean_temps sys w1) as [[] Hc]. pose proof (λ p, clean_temps_aside sys o w1 p Ht1) as Hf.
    unfold bind. destruct (clean_temps sys w1) as [r' w2]. cbn [fst snd] in *. subst r'. cbn [ret fst snd files]. intros _.
    destruct H1 as (body & entries & ? & ? & ? & (e & He & Hb & Hv) & Hm). exists body, entries.
    assert (∀ x, installed o (prefix ++ x)) as Hin by (intros x; split; [by apply (Ht x [])|intros y; by apply Ht]).
    unfold at_ in *. split_and!; [done..| |].
    + exists e. split_and!; [done| |done]. rewrite Hf; [done|apply Hin].
    + intros e' s n He' Hne Hl. rewrite Hf; [by eapply Hm|]. rewrite member_path. apply Hin.
  - unfold bind. destruct (clean_temps sys w1) as [[[]| |] w2]; cbn [fst snd]; [|done..].
    destruct (roll_back sys prefix w2) as [[[]| |] w3]; done.
  - done.
Qed.
