(* ===== verification/UpgradeDemo.v ===== *)
(** * UpgradeDemo: an upgrade of a small installation, run.
    The surroundings the theorems ask for are those of this installation. *)
From stdpp Require Import base list numbers strings gmap sets.
From Stdlib Require Import Lia NArith ZArith Ascii.
From S2P Require Import Prelude Bytes Text Chars Json Lines Crypto Release Files Upgrade UpgradeLaws UpgradeInstall.

Module UpgradeDemo.
Definition prefix : PathBuf := path_components "/opt/tp".
Definition tarball_url : string := "https://github.com/DaveDev42/teleprompter/releases/download/v1.1.0/tp-linux_x64.tar.gz".

(** A stand-in for the hash: the length of the text, 32 times. *)
Definition sha256 (s : string) : bytes := repeat (as_u8 (N.of_nat (str_len s))) 32.
Definition checksums : string := lower_hex (sha256 "THE BUNDLE") +:+ "  tp-linux_x64.tar.gz" +:+ String lf "".

Definition http_get (url : string) : HttpAnswer :=
  if String.eqb url tarball_url then Answered 200 "200 OK" "THE BUNDLE" None
  else if String.eqb url "https://github.com/DaveDev42/teleprompter/releases/download/v1.1.0/checksums.txt" then Answered 200 "200 OK" checksums None
  else if String.eqb url "https://api.github.com/repos/DaveDev42/teleprompter/releases/latest" then Answered 200 "200 OK" "{}" None
  else Answered 404 "404 Not Found" "" None.

Definition entry (path data : string) : result TarEntry string := Ok (mkEntry (Ok path) true data).
Definition entries : list (result TarEntry string) :=
  [Ok (mkEntry (Ok "tp-linux_x64/") false ""); Ok (mkEntry (Ok "tp-linux_x64/bin/") false ""); entry "tp-linux_x64/bin/tp" "tp 1.1.0";
   entry "tp-linux_x64/libexec/tp/tp-daemon" "daemon 1.1.0"; entry "tp-linux_x64/libexec/tp/tp-new" "new 1.1.0"].

Definition unpack (e : TarEntry) (dest : PathBuf) (fs : Files) : result unit string * Files :=
  if is_file e then (Ok tt, <[dest := File (data e)]> fs)
  else match fs !! dest with Some (File _) => (Err "File exists", fs) | _ => (Ok tt, <[dest := Dir]> fs) end.

Definition outside (says : string) : Outside := {|
  temp_dir := path_components "/tmp"; pid := 7; os := "linux"; arch := "x86_64"; home := Some "/home/u";
  Upgrade.http_get := http_get; Upgrade.sha256 := sha256;
  untar body := if String.eqb body "THE BUNDLE" then Ok entries else Err "not a gzip file";
  Upgrade.unpack := unpack;
  run_version content := Ok (mkOutput (Some 0%Z) None says "");
  service := NoService; current_exe := Some "/opt/tp/bin/tp"; which_tp := None; canonicalize p := Some p;
  gh_release := None; from_str s := Some (Object [("tag_name", Str "v1.1.0"); ("html_url", Str "https://example.invalid")]);
  tp_version := "2.0.0" |}.

Definition target_tp : PathBuf := bin_tp_target prefix.
Definition files0 : Files :=
  list_to_map [(target_tp, File "tp 1.0.0"); (libexec_target prefix "tp-daemon", File "daemon 1.0.0");
               (libexec_target prefix "tp-relay", File "relay 1.0.0")].
Definition world0 : World unit := mkWorld files0 0 [] tt.
Definition member_names : list string := ["tp-daemon"; "tp-new"].

Lemma unpack_other e dest fs p : p ≠ dest → file_at (unpack e dest fs).2 p = file_at fs p.
Proof.
  intros H. unfold unpack. destruct (is_file e); [by apply file_at_insert|].
  destruct (fs !! dest) as [[]|]; [done|by apply file_at_insert..].
Qed.

Lemma surroundings says : Surroundings (outside says) "v1.1.0" prefix member_names.
Proof.
  split.
  - apply unpack_other.
  - intros x y. split; discriminate.
  - split; [by apply (bool_decide_unpack _); vm_compute|].
    intros n n' Hn Hn'. apply list_elem_of_In in Hn, Hn'.
    repeat (destruct Hn as [<-|Hn]; [repeat (destruct Hn' as [<-|Hn']; [discriminate|]); destruct Hn'|]); destruct Hn.
  - intros status text body l Hg Hu. cbn [Upgrade.untar outside] in Hu. destruct (String.eqb body _); [|done].
    injection Hu as <-. vm_compute. reflexivity.
Qed.

Lemma archive says : Archive (outside says) "v1.1.0".
Proof.
  split.
  - intros e dest fs Hf _. cbn [Upgrade.unpack outside]. unfold unpack. rewrite Hf. cbn. unfold file_at. by rewrite lookup_insert_eq.
  - intros status text body l Hg Hu. cbn [Upgrade.untar outside] in Hu. destruct (String.eqb body _); [|done].
    injection Hu as <-. by apply (bool_decide_unpack _); vm_compute.
Qed.

(** A system that refuses nothing, and one that refuses what [refuse] says. *)
Definition refusing (refuse : Op → bool) (kind : Z) : System := {|
  fails t op := if refuse op then Some (mkIo kind "refused") else None; leaves t := Some "half"; survives t p := false |}.
Definition content (r : Res (option string) * World unit) (p : PathBuf) : option string := file_at (files r.2) p.
Definition good : string := "tp v1.1.0".

Definition clean_run := upgrade_tp_bundle (refusing (λ _, false) 1) (outside good) "v1.1.0" prefix world0.

Lemma upgrade_installs_witness :
  content clean_run target_tp = Some "tp 1.1.0" ∧ installed_all (outside good) "v1.1.0" prefix (file_at (files clean_run.2)).
Proof.
  split; [vm_compute; reflexivity|].
  pose proof (upgrade_installs (refusing (λ _, false) 1) (outside good) "v1.1.0" prefix member_names world0 (surroundings good) (archive good)) as H.
  assert (clean_run.1 = Val None) as E by (vm_compute; reflexivity).
  unfold clean_run in *. destruct (upgrade_tp_bundle _ _ _ _ _) as [r w']. apply H. exact E.
Defined.

(** The rename of the new member is across devices, and the copy stops half way. *)
Definition new_member : PathBuf := libexec_target prefix "tp-new".
Definition half_copied (op : Op) : bool :=
  match op with ORename _ dst => bool_decide (dst = new_member) | OCopy _ dst => bool_decide (dst = new_member) | _ => false end.
Definition broken_run := upgrade_tp_bundle (refusing half_copied EXDEV) (outside good) "v1.1.0" prefix world0.

Lemma upgrade_loses_nothing_witness :
  is_Some (match broken_run.1 with Val e => e | _ => None end) ∧
  (content broken_run target_tp = Some "tp 1.0.0" ∨
   content broken_run (bak target_tp) = Some "tp 1.0.0" ∧ ∃ k, fails (refusing half_copied EXDEV) k (ORename (bak target_tp) target_tp) ≠ None).
Proof.
  pose proof (upgrade_loses_nothing (refusing half_copied EXDEV) (outside good) "v1.1.0" prefix member_names world0 (surroundings good)) as H.
  assert (is_Some (match broken_run.1 with Val e => e | _ => None end)) as E by (vm_compute; eexists; reflexivity).
  split; [exact E|]. unfold content, broken_run in *. destruct (upgrade_tp_bundle _ _ _ _ _) as [r w']. cbn [fst snd] in *.
  destruct H as [_ H]. destruct r as [[e|]| |]; try (destruct E as [? E]; discriminate E).
  apply (H target_tp "tp 1.0.0"); [constructor|vm_compute; reflexivity].
Defined.

(** "Any failure restores everything that was replaced": a member that was not there
    before stays, here half copied. *)
Example new_member_left : content broken_run new_member = Some "half" ∧ file_at files0 new_member = None.
Proof. split; vm_compute; reflexivity. Qed.

(** A binary that does not verify where none was before stays as well. *)
Definition fresh_run := upgrade_tp_bundle (refusing (λ _, false) 1) (outside "Segmentation fault") "v1.1.0" prefix (mkWorld ∅ 0 [] tt).
Example unverified_left : fresh_run.1 = Val (Some "New binary verification failed — unexpected output: Segmentation fault") ∧
  content fresh_run target_tp = Some "tp 1.1.0".
Proof. split; vm_compute; reflexivity. Qed.

(** The backup cannot be moved back, so it holds the only good copy; a second
    attempt copies the bad file over it. *)
Definition no_way_back (op : Op) : bool := match op with ORename src _ => bool_decide (src = bak target_tp) | _ => false end.
Definition first_try := upgrade_tp_bundle (refusing no_way_back 13) (outside "Segmentation fault") "v1.1.0" prefix world0.
Definition second_try := upgrade_tp_bundle (refusing no_way_back 13) (outside "Segmentation fault") "v1.1.0" prefix first_try.2.
Example retry_destroys_backup :
  content first_try (bak target_tp) = Some "tp 1.0.0" ∧
  content second_try (bak target_tp) = Some "tp 1.1.0" ∧ content second_try target_tp = Some "tp 1.1.0".
Proof. split_and!; vm_compute; reflexivity. Qed.

(** A release older than the program is installed all the same. *)
Example downgrade : is_older_version "v1.1.0" "2.0.0" = true ∧ ∃ w, run (refusing (λ _, false) 1) (outside good) world0 = (Val (Attempted None), w).
Proof. split; [vm_compute; reflexivity|]. eexists. vm_compute. reflexivity. Qed.
End UpgradeDemo.
