(* ===== verification/CliText.v ===== *)
(** * CliText: what [tp] prints.
    [tp-cli/colors.rs], [format.rs], and the text functions of [commands/session.rs] and
    [commands/pair.rs]: padding, the default label of a host, and the cleaning of labels
    that a phone may have chosen. *)
From stdpp Require Import base list numbers strings.
From Stdlib Require Import Lia NArith ZArith Ascii.
From S2P Require Import Prelude Bytes Text Chars Lines Calendar.

(** Where a line goes; a prompt has no line feed.  The exit codes. *)
Inductive Line := Out (s : string) | ErrLine (s : string) | Prompt (s : string).
Definition SUCCESS : N := 0.
Definition FAILURE : N := 1.

(** ** Colours; [enabled] is that [NO_COLOR] is unset. *)

Definition ESC : string := String (ascii_of_N 27) "".

Section colours.
Context (enabled : bool).
Definition wrap (code text : string) : string :=
  if enabled then ESC +:+ "[" +:+ code +:+ "m" +:+ text +:+ ESC +:+ "[0m" else text.
Definition green := wrap "32".
Definition red := wrap "31".
Definition yellow := wrap "33".
Definition dim := wrap "90".
Definition ok_msg (msg : string) : string := green "✓" +:+ " " +:+ msg.
Definition warn (msg : string) : string := yellow "!" +:+ " " +:+ msg.
Definition fail_msg (msg : string) : string := red "✕" +:+ " " +:+ msg.
End colours.

Definition error_with_hints (message : string) (hints : list string) : string :=
  join (String lf "") (message :: ((λ h, "  → " +:+ h) <$> hints)).

(** ** Ages *)

(** [i64] arithmetic wraps. *)
Definition i64 (z : Z) : Z := ((z + 2 ^ 63) mod 2 ^ 64 - 2 ^ 63)%Z.
(** [{n}] and [{n:04}] of an [i64]. *)
Definition print_i64 (n : Z) : string := if (n <? 0)%Z then "-" +:+ print_dec (Z.to_N (- n)) else print_dec (Z.to_N n).
Definition pad_i64 (w : nat) (n : Z) : string := if (n <? 0)%Z then "-" +:+ pad_zero (w - 1) (- n) else pad_zero w n.

(** Divisions of [i64] here are [div_euclid] by positive constants, or of values that
    are not negative; no intermediate value leaves the range. *)
Definition civil_from_days (days : Z) : Z * Z * Z :=
  let z := (days + 719468)%Z in
  era_formula (z / 146097) z.
Definition iso_date_utc (epoch_ms : Z) : string :=
  let '(year, month, day) := civil_from_days (epoch_ms / 86400000) in
  pad_i64 4 year +:+ "-" +:+ pad_zero 2 month +:+ "-" +:+ pad_zero 2 day.

Definition format_age (age_ms now_ms : Z) : string :=
  let seconds := (age_ms / 1000)%Z in
  if (seconds <? 60)%Z then print_i64 seconds +:+ "s ago"
  else
    let minutes := (seconds / 60)%Z in
    if (minutes <? 60)%Z then print_i64 minutes +:+ "m ago"
    else
      let hours := (minutes / 60)%Z in
      if (hours <? 24)%Z then print_i64 hours +:+ "h ago"
      else
        let days := (hours / 24)%Z in
        if (days <? 7)%Z then print_i64 days +:+ "d ago"
        else iso_date_utc (i64 (now_ms - age_ms)).

(** ** Padding *)

(** [session.rs]'s [pad_end] and [pad_end_chars]. *)
Definition pad_end (s : string) (width : nat) : string :=
  if decide (width ≤ chars_count s) then s else s +:+ repeat_char " "%char (width - chars_count s).

(** [s.chars().take(n).collect()] *)
Definition take_chars (n : nat) (s : string) : string := of_chars (take n (chars s)).

(** ** Labels *)

Definition TRIMMABLE_HOST_SUFFIXES : list string := [".local"; ".lan"; ".localdomain"; ".home"].

(** [s.ends_with(x)] *)
Fixpoint ends_with (x s : string) : bool :=
  String.eqb x s || match s with "" => false | String _ r => ends_with x r end.

Fixpoint strip_host_suffix (suffixes : list string) (lower h : string) : string :=
  match suffixes with
  | [] => h
  | suffix :: suffixes =>
      if ends_with suffix lower && Nat.ltb (str_len suffix) (str_len h) then str_of_bytes (take (str_len h - str_len suffix) (as_bytes h))
      else strip_host_suffix suffixes lower h
  end.

(** [to_lowercase] is [str]'s. *)
Definition normalize_host_label (to_lowercase : string → string) (raw : string) : string :=
  let h := trim raw in strip_host_suffix TRIMMABLE_HOST_SUFFIXES (to_lowercase h) h.

(** [hostname] is the system's answer, lossily decoded. *)
Definition default_label (to_lowercase : string → string) (hostname : option bytes) : string :=
  match hostname with
  | Some os => let h := normalize_host_label to_lowercase (from_utf8_lossy os) in if String.eqb h "" then "daemon" else h
  | None => "daemon"
  end.

(** [char::is_control]: U+0000 to U+001F and U+007F to U+009F. *)
Definition is_control (c : string) : bool :=
  match c with
  | String a "" => (N_of_ascii a <? 32)%N || (N_of_ascii a =? 127)%N
  | String a (String b "") => (N_of_ascii a =? 0xC2)%N && ((0x80 <=? N_of_ascii b) && (N_of_ascii b <=? 0x9F))%N
  | _ => false
  end.

Definition BEL : string := String (ascii_of_N 7) "".
(** ['\u{40}'..='\u{7e}'] *)
Definition is_final (c : string) : bool :=
  match c with String a "" => (64 <=? N_of_ascii a)%N && (N_of_ascii a <=? 126)%N | _ => false end.

(** The loop over the characters, and the two inner loops. *)
Fixpoint sanitize_chars (cs : list string) : list string :=
  match cs with
  | [] => []
  | c :: rest =>
      if String.eqb c ESC then
        match rest with
        | [] => []
        | n :: rest => if String.eqb n "[" then skip_csi rest else if String.eqb n "]" then skip_osc rest else sanitize_chars rest
        end
      else if is_control c then sanitize_chars rest
      else c :: sanitize_chars rest
  end
with skip_csi (cs : list string) : list string :=
  match cs with
  | [] => []
  | n :: rest => if is_final n then sanitize_chars rest else skip_csi rest
  end
with skip_osc (cs : list string) : list string :=
  match cs with
  | [] => []
  | n :: rest =>
      if String.eqb n BEL then sanitize_chars rest
      else if String.eqb n ESC then
        match rest with
        | m :: rest' => if String.eqb m "\" then sanitize_chars rest' else sanitize_chars rest
        | [] => []
        end
      else skip_osc rest
  end.
Definition sanitize_label_for_display (raw : string) : string := of_chars (sanitize_chars (chars raw)).

(** ** Laws *)

Lemma civil_from_days_civil days : civil_from_days days = civil_of_days days.
Proof. apply era_formula_civil. Qed.

(** The date of an age is the day of the Gregorian calendar, counted day by day. *)
Lemma iso_date_calendar n : iso_date_utc (Z.of_nat n * 86400000) =
  let '(y, m, d) := date_after n in pad_i64 4 y +:+ "-" +:+ pad_zero 2 m +:+ "-" +:+ pad_zero 2 d.
Proof. unfold iso_date_utc. rewrite Z.div_mul by lia. by rewrite civil_from_days_civil, civil_after. Qed.

Lemma sanitize_mutual n : ∀ cs, length cs ≤ n →
  (∀ c, c ∈ sanitize_chars cs → c ∈ cs ∧ is_control c = false) ∧ (∀ c, c ∈ skip_csi cs → c ∈ cs ∧ is_control c = false) ∧
  (∀ c, c ∈ skip_osc cs → c ∈ cs ∧ is_control c = false).
Proof.
  induction n as [|n IH]; intros [|c cs] Hn; cbn in Hn; try lia; try (by split_and!; intros ? ?%elem_of_nil).
  assert (∀ l, length l ≤ n → ∀ c, c ∈ sanitize_chars l → c ∈ l ∧ is_control c = false) as IH1 by (intros l Hl; by destruct (IH l Hl) as [A _]).
  cbn [sanitize_chars skip_csi skip_osc].  split_and!; intros x; rewrite ?elem_of_cons.
  - destruct (String.eqb c ESC).
    + destruct cs as [|m cs]; [by intros ?%elem_of_nil|]. cbn in Hn. destruct (IH cs ltac:(lia)) as (A & B & C). rewrite elem_of_cons.
      destruct (String.eqb m "["); [intros []%B; auto|]. destruct (String.eqb m "]"); [intros []%C; auto|intros []%A; auto].
    + destruct (is_control c) eqn:Ec; [intros []%IH1; [auto|lia]|].
      intros [->|Hx]%elem_of_cons; [auto|]. apply IH1 in Hx as []; [auto|lia].
  - destruct (IH cs ltac:(lia)) as (A & B & _). destruct (is_final c); [intros []%A|intros []%B]; auto.
  - destruct (IH cs ltac:(lia)) as (A & _ & C). destruct (String.eqb c BEL); [intros []%A; auto|].
    destruct (String.eqb c ESC); [|intros []%C; auto].
    destruct cs as [|m cs]; [by intros ?%elem_of_nil|]. cbn in Hn. rewrite elem_of_cons.
    destruct (String.eqb m "\"); intros Hx%IH1; cbn; try lia; rewrite ?elem_of_cons in Hx; destruct Hx; auto.
Qed.

Lemma sanitize_plain cs : Forall (λ c, is_control c = false) cs → sanitize_chars cs = cs.
Proof.
  induction 1 as [|c cs Hc _ IH]; [done|]. cbn [sanitize_chars]. destruct (String.eqb_spec c ESC) as [->|]; [done|]. by rewrite Hc, IH.
Qed.

Lemma char_list_sub cs ds : (∀ c, c ∈ ds → c ∈ cs) → char_list cs → char_list ds.
Proof. unfold char_list. rewrite !Forall_forall. auto. Qed.


