(* ===== verification/Completions.v ===== *)
(** * Completions: [tp completions install] and [uninstall]
    ([tp-cli/commands/completions_install.rs]), with the fish script of
    [completions.rs].  The mode of a file is not recorded, so [preserved_mode] is only
    the call it makes; the lock serialises several [tp]s, of which this is one. *)
From stdpp Require Import base list numbers strings gmap.
From Stdlib Require Import Lia NArith ZArith Ascii.
From S2P Require Import Prelude Bytes Text Lines Files CliText.

(** ** The block in the rc file *)

Definition MARKER_START : string := "# >>> tp completions (managed by `tp completions install`) >>>".
Definition MARKER_END : string := "# <<< tp completions <<<".
Definition nl : string := String lf "".

Definition marker_block (line : string) : string := nl +:+ MARKER_START +:+ nl +:+ line +:+ nl +:+ MARKER_END +:+ nl.

Definition contains_marker (contents : string) : bool :=
  match split_str MARKER_START contents with Some _ => true | None => false end.

(** One line feed at the end of [s], or at its start, goes. *)
Definition drop_last_lf (s : string) : string := match rsplit_once lf s with Some (a, "") => a | _ => s end.
Definition drop_first_lf (s : string) : string := default s (strip_prefix nl s).

Definition strip_first_marker_block (contents : string) : string :=
  match split_str MARKER_START contents with
  | None => contents
  | Some (before, after_start) =>
      match split_str MARKER_END after_start with
      | None => contents
      | Some (_, after_end) => drop_last_lf before +:+ drop_first_lf after_end
      end
  end.

(** The loop; [strip_enough] shows the fuel below to be enough. *)
Fixpoint strip_loop (fuel : nat) (out : string) : string :=
  match fuel with
  | O => out
  | S fuel =>
      if contains_marker out then
        let stripped := strip_first_marker_block out in
        if Nat.eqb (str_len stripped) (str_len out) then out else strip_loop fuel stripped
      else out
  end.
Definition strip_marker_block (contents : string) : string := strip_loop (S (str_len contents)) contents.

(** What [install_rc_line] writes. *)
Definition with_newline (base : string) : string :=
  if String.eqb base "" then base
  else match rsplit_once lf base with Some (_, "") => base | _ => base +:+ nl end.
Definition rc_line (shell : string) : string :=
  "eval " +:+ quoted ("$(tp completions " +:+ shell +:+ ")").
Definition rc_next (shell existing : string) : string :=
  with_newline (if contains_marker existing then strip_marker_block existing else existing) +:+ marker_block (rc_line shell).

(** *** Laws *)

Lemma split_str_None_cons needle x r : split_str needle (String x r) = None → split_str needle r = None.
Proof.
  cbn [split_str]. destruct (strip_prefix needle (String x r)); [done|]. by destruct (split_str needle r) as [[]|].
Qed.

(** A needle without [c] does not straddle a [c]. *)
Lemma strip_prefix_sep needle c a b : str_contains c needle = false →
  strip_prefix needle (a +:+ String c b) = let?o r := strip_prefix needle a in Some (r +:+ String c b).
Proof.
  revert a. induction needle as [|x n IH]; intros a Hn; [done|]. cbn [str_contains] in Hn. case_decide as Hx; [done|].
  destruct a as [|y a].
  - change ("" +:+ String c b) with (String c b). cbn. by rewrite decide_False.
  - rewrite str_append_cons. cbn [strip_prefix]. case_decide; [by apply IH|done].
Qed.

Lemma split_str_sep needle c a b : str_contains c needle = false → needle ≠ "" →
  split_str needle (a +:+ String c b) =
    match split_str needle a with
    | Some (x, y) => Some (x, y +:+ String c b)
    | None => let?o (x, y) := split_str needle b in Some (a +:+ String c x, y)
    end.
Proof.
  intros Hc Hne. induction a as [|x a IH].
  - change ("" +:+ ?t) with t. cbn [split_str]. destruct needle as [|y n]; [done|].
    cbn [str_contains strip_prefix] in *. case_decide; [done|]. by rewrite decide_False.
  - rewrite str_append_cons. cbn [split_str]. rewrite <- str_append_cons, strip_prefix_sep by done.
    destruct (strip_prefix needle (String x a)); [done|]. cbn. rewrite IH.
    destruct (split_str needle a) as [[]|]; [done|]. by destruct (split_str needle b) as [[]|].
Qed.

Lemma split_str_here needle r : split_str needle (needle +:+ r) = Some ("", r).
Proof. destruct needle as [|c n]; [by destruct r|]. rewrite str_append_cons. cbn [split_str]. by rewrite <- str_append_cons, strip_prefix_app. Qed.

Lemma split_str_shorter needle s a b : split_str needle s = Some (a, b) → str_len a + str_len needle + str_len b = str_len s.
Proof. intros ->%split_str_Some. rewrite !str_len_app. lia. Qed.

Lemma drop_last_lf_snoc s : drop_last_lf (s +:+ nl) = s.
Proof. unfold drop_last_lf, nl. by rewrite rsplit_once_app. Qed.
Lemma drop_last_lf_len s : str_len (drop_last_lf s) ≤ str_len s.
Proof.
  unfold drop_last_lf. destruct (rsplit_once lf s) as [[a []]|] eqn:E; try done.
  apply rsplit_once_Some in E. subst s. rewrite str_len_app. lia.
Qed.
Lemma drop_first_lf_len s : str_len (drop_first_lf s) ≤ str_len s.
Proof.
  unfold drop_first_lf. destruct (strip_prefix nl s) as [r|] eqn:E; [|done].
  apply strip_prefix_Some in E. subst s. rewrite str_len_app. cbn [from_option id]. lia.
Qed.

(** A block that goes makes the text shorter, by more than its markers. *)
Lemma strip_first_shorter s : strip_first_marker_block s = s ∨ str_len (strip_first_marker_block s) + 80 < str_len s.
Proof.
  unfold strip_first_marker_block. destruct (split_str MARKER_START s) as [[a r]|] eqn:E1; [|by left].
  destruct (split_str MARKER_END r) as [[m b]|] eqn:E2; [|by left]. right.
  apply split_str_shorter in E1, E2. rewrite str_len_app. pose proof (drop_last_lf_len a). pose proof (drop_first_lf_len b).
  assert (str_len MARKER_START = 62) as H1 by reflexivity. assert (str_len MARKER_END = 24) as H2 by reflexivity. lia.
Qed.

(** The loop's own equation. *)
Lemma strip_enough fuel s : str_len s < fuel → strip_loop fuel s = strip_marker_block s.
Proof.
  unfold strip_marker_block. enough (∀ f g s, str_len s < f → str_len s < g → strip_loop f s = strip_loop g s) as H.
  { intros Hs. apply H; lia. }
  clear. intros f. induction f as [|f IH]; intros [|g] s Hf Hg; [lia..|]. cbn [strip_loop].
  destruct (contains_marker s); [|done]. destruct (Nat.eqb_spec (str_len (strip_first_marker_block s)) (str_len s)) as [|Hne]; [done|].
  destruct (strip_first_shorter s) as [E|H]; [by rewrite E in Hne|]. apply IH; lia.
Qed.

Lemma strip_marker_block_eq s :
  strip_marker_block s =
    if contains_marker s then
      (if Nat.eqb (str_len (strip_first_marker_block s)) (str_len s) then s else strip_marker_block (strip_first_marker_block s))
    else s.
Proof.
  unfold strip_marker_block at 1. cbn [strip_loop]. destruct (contains_marker s); [|done].
  destruct (Nat.eqb_spec (str_len (strip_first_marker_block s)) (str_len s)) as [|Hne]; [done|].
  destruct (strip_first_shorter s) as [E|H]; [by rewrite E in Hne|]. apply strip_enough. lia.
Qed.

(** What the user wrote, around blocks with the line [l]. *)
Fixpoint with_blocks (l : string) (first : string) (others : list string) : string :=
  match others with
  | [] => first
  | t :: others => first +:+ marker_block l +:+ with_blocks l t others
  end.
Definition user_text (first : string) (others : list string) : string := first +:+ foldr String.append "" others.

Lemma contains_marker_prefix a b : contains_marker (a +:+ b) = false → contains_marker a = false.
Proof.
  unfold contains_marker. destruct (split_str MARKER_START a) as [[x y]|] eqn:E; [|done]. apply split_str_Some in E. subst a.
  rewrite !str_append_assoc. intros H. exfalso. clear -H. induction x as [|c x IH].
  - change ("" +:+ ?t) with t in H. by rewrite split_str_here in H.
  - apply IH. rewrite str_append_cons in H. cbn [split_str] in H.
    destruct (strip_prefix MARKER_START _); [done|]. by destruct (split_str MARKER_START (x +:+ _)) as [[]|].
Qed.

Lemma nl_app t : nl +:+ t = String lf t.
Proof. done. Qed.

Section line.
Context (l : string) (Hl : str_contains lf l = false) (He : split_str MARKER_END l = None).

Lemma strip_first_block a b : contains_marker a = false → strip_first_marker_block (a +:+ marker_block l +:+ b) = a +:+ b.
Proof.
  unfold contains_marker. intros Ha. destruct (split_str MARKER_START a) as [[]|] eqn:E; [done|]. clear Ha.
  unfold strip_first_marker_block, marker_block. rewrite !str_append_assoc, !nl_app.
  rewrite split_str_sep, E, split_str_here by done. cbn [mbind option_bind].
  change (String lf (l +:+ ?t)) with ("" +:+ String lf (l +:+ t)).
  rewrite split_str_sep by done. change (split_str MARKER_END "") with (@None (string * string)).
  rewrite split_str_sep, He, split_str_here by done.
  change (a +:+ String lf "") with (a +:+ nl). rewrite drop_last_lf_snoc.
  unfold drop_first_lf. cbn [mbind option_bind nl strip_prefix]. by rewrite decide_True.
Qed.

Lemma contains_marker_block a b : contains_marker (a +:+ marker_block l +:+ b) = true.
Proof.
  destruct (contains_marker (a +:+ marker_block l +:+ b)) eqn:E; [done|]. exfalso.
  unfold marker_block in E. rewrite !str_append_assoc in E. rewrite <- (str_append_assoc a nl), <- (str_append_assoc (a +:+ nl)) in E.
  apply contains_marker_prefix in E. unfold contains_marker in E. unfold nl in E.
  rewrite str_append_assoc in E. change (String lf "" +:+ ?t) with (String lf t) in E. rewrite split_str_sep in E by done.
  destruct (split_str MARKER_START a) as [[]|]; [done|].
  rewrite <- (str_append_nil_r MARKER_START) in E at 2. by rewrite split_str_here in E.
Qed.

(** All blocks go, and nothing else. *)
Lemma strip_blocks first others : contains_marker (user_text first others) = false →
  strip_marker_block (with_blocks l first others) = user_text first others.
Proof.
  unfold user_text. revert first. induction others as [|t others IH]; intros first Hm; cbn [with_blocks foldr] in *.
  { rewrite str_append_nil_r in *. rewrite strip_marker_block_eq. by rewrite Hm. }
  rewrite strip_marker_block_eq, contains_marker_block.
  rewrite strip_first_block by (by eapply contains_marker_prefix).
  rewrite (proj2 (Nat.eqb_neq _ _)).
  2:{ rewrite !str_len_app. assert (0 < str_len (marker_block l)) by (unfold marker_block; rewrite str_len_app; cbn; lia). lia. }
  rewrite <- str_append_assoc. rewrite <- IH by (by rewrite str_append_assoc). f_equal.
  destruct others; cbn [with_blocks]; [done|]. by rewrite !str_append_assoc.
Qed.
End line.

(** ** The fish script ([completions.rs]) *)

Definition SUBCOMMANDS : list string :=
  ["daemon"; "run"; "relay"; "pair"; "session"; "status"; "logs"; "doctor"; "upgrade"; "completions"; "version";
   "auth"; "mcp"; "install"; "update"; "agents"; "auto-mode"; "plugin"; "plugins"; "setup-token"].
Definition PAIR_SUBCOMMANDS : list string := ["new"; "list"; "delete"; "rename"].
Definition SESSION_SUBCOMMANDS : list string := ["list"; "delete"; "prune"; "cleanup"].
Definition DAEMON_SUBCOMMANDS : list string := ["start"; "status"; "install"; "uninstall"].
Definition DAEMON_FLAGS : list string :=
  ["--repo-root"; "--relay-url"; "--relay-token"; "--daemon-id"; "--prune"; "--spawn"; "--sid"; "--cwd"; "--worktree-path";
   "--verbose"; "--quiet"; "--watch"].

(** [trim_start_matches("--")] *)
Fixpoint trim_dashes (fuel : nat) (s : string) : string :=
  match fuel, strip_prefix "--" s with S fuel, Some r => trim_dashes fuel r | _, _ => s end.

Definition generate_fish : string := join nl (
  ["# tp fish completion"] ++
  ((λ c, "complete -c tp -n '__fish_use_subcommand' -a '" +:+ c +:+ "' -d '" +:+ c +:+ "'") <$> SUBCOMMANDS) ++
  ((λ s, "complete -c tp -n '__fish_seen_subcommand_from daemon' -a '" +:+ s +:+ "' -d '" +:+ s +:+ "'") <$> DAEMON_SUBCOMMANDS) ++
  ((λ f, "complete -c tp -n '__fish_seen_subcommand_from daemon' -l '" +:+ trim_dashes (str_len f) f +:+ "' -d '" +:+ f +:+ "'") <$> DAEMON_FLAGS) ++
  ((λ s, "complete -c tp -n '__fish_seen_subcommand_from pair' -a '" +:+ s +:+ "' -d '" +:+ s +:+ "'") <$> PAIR_SUBCOMMANDS) ++
  ["complete -c tp -n '__fish_seen_subcommand_from pair; and __fish_seen_subcommand_from new' -l relay -d 'relay URL'";
   "complete -c tp -n '__fish_seen_subcommand_from pair; and __fish_seen_subcommand_from new' -l label -d 'pairing label'"] ++
  ((λ s, "complete -c tp -n '__fish_seen_subcommand_from session' -a '" +:+ s +:+ "' -d '" +:+ s +:+ "'") <$> SESSION_SUBCOMMANDS) ++
  ["complete -c tp -n '__fish_seen_subcommand_from session; and __fish_seen_subcommand_from prune' -l older-than -d 'age cutoff (Nd|Nh|Nm|Ns)'";
   "complete -c tp -n '__fish_seen_subcommand_from session; and __fish_seen_subcommand_from prune' -l all -d 'all stopped sessions'";
   "complete -c tp -n '__fish_seen_subcommand_from session; and __fish_seen_subcommand_from prune' -l running -d 'also include running'";
   "complete -c tp -n '__fish_seen_subcommand_from session; and __fish_seen_subcommand_from prune' -l dry-run -d 'preview only'";
   "complete -c tp -n '__fish_seen_subcommand_from session; and __fish_seen_subcommand_from prune' -l yes -d 'skip confirmation'";
   "complete -c tp -n '__fish_seen_subcommand_from session; and __fish_seen_subcommand_from cleanup' -l all -d 'pre-select all stopped sessions'";
   "complete -c tp -n '__fish_seen_subcommand_from session; and __fish_seen_subcommand_from cleanup' -l yes -d 'skip confirmation'"]).

(** ** Installing and uninstalling *)

Inductive InstallResult := Installed (file : PathBuf) | AlreadyInstalled (file : PathBuf) | InstallPlan (plan : string).
Inductive UninstallResult := Uninstalled (file : PathBuf) | NotInstalled | UninstallPlan (plan : string).

Record InstallOpts := mkOpts { shell : string; home : PathBuf; force : bool; dry_run : bool }.

Definition fish_file_path (home : PathBuf) : PathBuf :=
  home ++ [Normal ".config"; Normal "fish"; Normal "completions"; Normal "tp.fish"].

Section install.
Context (sys : System) (pid : N).
(** The local state is [ATOMIC_COUNTER]. *)
Notation Io := (Io N).
Local Open Scope io_scope.

Definition rc_file_path (shell : string) (home : PathBuf) : Io PathBuf :=
  if String.eqb shell "bash" then ret (home ++ [Normal ".bashrc"])
  else if String.eqb shell "zsh" then ret (home ++ [Normal ".zshrc"])
  else panic.

Definition tmp_of (path : PathBuf) (seq : N) : PathBuf :=
  with_suffix path (".tp-tmp-" +:+ print_dec pid +:+ "-" +:+ print_dec seq).
Definition lock_of (path : PathBuf) : PathBuf := with_suffix path ".tp-lock".

Definition atomic_write (path : PathBuf) (contents : string) : Io unit :=
  seq ← get_locals;
  modify (λ n, as_u32 (n + 1));;
  let tmp := tmp_of path seq in
  result ← attempt
    (or_err (create_new sys tmp) id;;
     or_err (set_mode sys tmp) id;;
     or_err (write_all sys tmp contents) id;;
     or_err (sync_all sys tmp) id;;
     or_err (rename sys tmp path) id);
  match result with
  | Ok _ => ret tt
  | Err e => ignore (remove_file sys tmp);; fail e
  end.

Definition preserved_mode (path : PathBuf) : Io unit := ignore (metadata sys path).

Definition lock_rc_file (rc_path : PathBuf) : Io unit :=
  or_err (open_or_create sys (lock_of rc_path)) id;;
  or_err (lock sys (lock_of rc_path)) id.

Definition read_to_string (path : PathBuf) : Io string :=
  c ← or_err (read sys path) id;
  if utf8_valid (as_bytes c) then ret c else fail "stream did not contain valid UTF-8".

(** The text of [file], empty if there is none. *)
Definition read_if_there (file : PathBuf) : Io string :=
  there ← exists_ file; if (there : bool) then read_to_string file else ret "".

Definition install_rc_line (opts : InstallOpts) : Io InstallResult :=
  file ← rc_file_path (shell opts) (home opts);
  if dry_run opts then
    existing ← read_if_there file;
    let has_marker := contains_marker existing in
    let action := if has_marker && negb (force opts) then "Would skip (already installed)"
                  else if has_marker then "Would rewrite tp completions block in"
                  else "Would append tp completions block to" in
    ret (InstallPlan (action +:+ " " +:+ show_path file))
  else
    lock_rc_file file;;
    existing ← read_if_there file;
    if contains_marker existing && negb (force opts) then ret (AlreadyInstalled file)
    else
      preserved_mode file;;
      atomic_write file (rc_next (shell opts) existing);;
      ret (Installed file).

Definition install_managed_file (opts : InstallOpts) : Io InstallResult :=
  let file := fish_file_path (home opts) in
  if dry_run opts then ret (InstallPlan ("Would write " +:+ show_path file))
  else
    there ← exists_ file;
    if (there : bool) && negb (force opts) then ret (AlreadyInstalled file)
    else
      or_err (create_dir_all sys (removelast file)) id;;
      atomic_write file (generate_fish +:+ nl);;
      ret (Installed file).

Definition install_completion (opts : InstallOpts) : Io InstallResult :=
  if String.eqb (shell opts) "bash" || String.eqb (shell opts) "zsh" then install_rc_line opts
  else if String.eqb (shell opts) "fish" then install_managed_file opts
  else panic.

Definition uninstall_completion (opts : InstallOpts) : Io UninstallResult :=
  if String.eqb (shell opts) "bash" || String.eqb (shell opts) "zsh" then
    file ← rc_file_path (shell opts) (home opts);
    there ← exists_ file;
    if negb there then ret NotInstalled
    else if dry_run opts then
      existing ← read_to_string file;
      if negb (contains_marker existing) then ret NotInstalled
      else ret (UninstallPlan ("Would remove tp completions block from " +:+ show_path file))
    else
      lock_rc_file file;;
      existing ← read_to_string file;
      if negb (contains_marker existing) then ret NotInstalled
      else
        preserved_mode file;;
        atomic_write file (strip_marker_block existing);;
        ret (Uninstalled file)
  else if String.eqb (shell opts) "fish" then
    let file := fish_file_path (home opts) in
    there ← exists_ file;
    if negb there then ret NotInstalled
    else if dry_run opts then ret (UninstallPlan ("Would remove " +:+ show_path file))
    else or_err (remove_file sys file) id;; ret (Uninstalled file)
  else panic.

(** ** The command *)

Record ShellEnv := mkEnv { SHELL : option string; ZSH_VERSION : bool; BASH_VERSION : bool; FISH_VERSION : bool; HOME : option string }.

Definition is_shell (s : string) : bool := bool_decide (s ∈ ["bash"; "zsh"; "fish"]).
Definition detect_shell (env : ShellEnv) : option string :=
  match (let?o p := SHELL env in let?o base := last (split_char "/"%char p) in if is_shell base then Some base else None) with
  | Some base => Some base
  | None => if ZSH_VERSION env then Some "zsh" else if BASH_VERSION env then Some "bash" else if FISH_VERSION env then Some "fish" else None
  end.

Definition ALLOWLIST : list string := ["--force"; "--dry-run"; "--uninstall"; "--help"; "-h"].
Definition unknown_flag (a : string) : bool := starts_with "-" a && negb (String.eqb a "-") && negb (bool_decide (a ∈ ALLOWLIST)).
Definition has (args : list string) (flag : string) : bool := bool_decide (flag ∈ args).

(** [INSTALL_USAGE], one line each. *)
Definition INSTALL_USAGE : string := join nl
  ["Usage: tp completions install [shell] [flags]"; ""; "Shells: bash, zsh, fish"; "Flags:";
   "  --force                Overwrite existing installation";
   "  --uninstall            Remove installed completions";
   "  --dry-run              Show what would change without writing";
   "  --help, -h             Show this help"; ""; "Notes:";
   "  Fish writes completion files to disk; rerun";
   "  'tp completions install fish --force' after 'tp upgrade' to refresh."].

Definition say_install (shell : string) (r : result InstallResult string) : N * list Line :=
  match r with
  | Err e => (FAILURE, [ErrLine ("tp completions install: " +:+ e)])
  | Ok (InstallPlan plan) => (SUCCESS, [Out plan])
  | Ok (AlreadyInstalled file) => (SUCCESS, [ErrLine ("tp completions already installed for " +:+ shell +:+ " (" +:+ show_path file +:+ ")")])
  | Ok (Installed file) =>
      (SUCCESS, [ErrLine ("tp completions installed for " +:+ shell +:+ " (" +:+ show_path file +:+ ")");
                 ErrLine "Restart your shell or source your rc file to activate."])
  end.
Definition say_uninstall (shell : string) (r : result UninstallResult string) : N * list Line :=
  match r with
  | Err e => (FAILURE, [ErrLine ("tp completions uninstall: " +:+ e)])
  | Ok (UninstallPlan plan) => (SUCCESS, [Out plan])
  | Ok (Uninstalled file) => (SUCCESS, [ErrLine ("tp completions removed for " +:+ shell +:+ " (" +:+ show_path file +:+ ")")])
  | Ok NotInstalled => (SUCCESS, [ErrLine ("tp completions not installed for " +:+ shell)])
  end.

Definition run_install (env : ShellEnv) (is_uninstall_subcommand : bool) (args : list string) : Io (N * list Line) :=
  if has args "--help" || has args "-h" then ret (SUCCESS, [Out INSTALL_USAGE])
  else
    match List.find unknown_flag args with
    | Some a => ret (FAILURE, [ErrLine ("Unknown flag: " +:+ a); ErrLine INSTALL_USAGE])
    | None =>
        match (match List.find (λ a, negb (starts_with "-" a)) args with Some s => Some s | None => detect_shell env end) with
        | None =>
            let hint := match SHELL env with
                        | Some v => "Detected $SHELL=" +:+ v +:+ " (unsupported)."
                        | None => "$SHELL is not set and no $ZSH_VERSION / $BASH_VERSION / $FISH_VERSION detected."
                        end in
            ret (FAILURE, [ErrLine ("Could not detect shell. " +:+ hint +:+ " Run 'tp completions install <bash|zsh|fish>'.")])
        | Some shell =>
            if negb (is_shell shell) then ret (FAILURE, [ErrLine ("Unknown shell: " +:+ shell); ErrLine "Supported: bash, zsh, fish"])
            else
              match HOME env with
              | None => ret (FAILURE, [ErrLine "tp completions install: cannot determine home directory ($HOME unset)"])
              | Some home =>
                  let opts := mkOpts shell (path_components home) (has args "--force") (has args "--dry-run") in
                  if is_uninstall_subcommand || has args "--uninstall" then
                    r ← attempt (uninstall_completion opts); ret (say_uninstall shell r)
                  else
                    r ← attempt (install_completion opts); ret (say_install shell r)
              end
        end
    end.
End install.

(** ** Laws *)

Lemma with_suffix_ne d s x : x ≠ "" → with_suffix (d ++ [Normal s]) x ≠ d ++ [Normal s].
Proof.
  intros Hx. rewrite with_suffix_name. intros [= E]%app_inv_head. apply Hx. apply (f_equal str_len) in E.
  rewrite str_len_app in E. destruct x; [done|]. cbn in E. lia.
Qed.

Section laws.
Context (sys : System) (pid : N).

Section file.
Context (d : PathBuf) (s : string).
Definition rc : PathBuf := d ++ [Normal s].

(** Not one of the files made beside [rc]. *)
Definition aside (p : PathBuf) : Prop := p ≠ lock_of rc ∧ ∀ seq, p ≠ tmp_of pid rc seq.
Definition kept (old : PathBuf → option string) (w : World N) : Prop := ∀ p, aside p → file_at (files w) p = old p.
Definition written (old : PathBuf → option string) (c : string) (w : World N) : Prop :=
  file_at (files w) rc = Some c ∧ ∀ p, aside p → p ≠ rc → file_at (files w) p = old p.

Lemma aside_rc : aside rc.
Proof. split; [|intros seq]; intros E; symmetry in E; by apply with_suffix_ne in E. Qed.
Lemma not_aside_tmp seq : ¬ aside (tmp_of pid rc seq).
Proof. intros [_ H]. by apply (H seq). Qed.
Lemma not_aside_lock : ¬ aside (lock_of rc).
Proof. by intros [H _]. Qed.
Hint Resolve not_aside_tmp not_aside_lock : core.

Lemma hoare_kept {A} old (m : Io N A) : steady aside (λ _, tt) m → hoare (kept old) m (λ _, kept old) (kept old).
Proof. intros H. eapply hoare_steady; [exact H|]. intros w w' _ Hf Hw p Hp. by rewrite Hf, Hw. Qed.

Lemma hoare_write_all old seq c :
  hoare (kept old) (write_all sys (tmp_of pid rc seq) c)
    (λ r w, match r with Ok _ => kept old w ∧ file_at (files w) (tmp_of pid rc seq) = Some c | Err _ => kept old w end) (kept old).
Proof.
  intros w Hw. pose proof (steady_write_all aside (λ _ : N, tt) sys (tmp_of pid rc seq) c (not_aside_tmp seq) w) as [_ Hf].
  unfold write_all, writing, operation in *. destruct (fails _ _ _); cbn [snd files] in *.
  - intros p Hp. by rewrite Hf, Hw.
  - split; [intros p Hp; by rewrite Hf, Hw|]. unfold file_at. by rewrite lookup_insert_eq.
Qed.

Lemma hoare_swap old seq c :
  hoare (λ w, kept old w ∧ file_at (files w) (tmp_of pid rc seq) = Some c) (rename sys (tmp_of pid rc seq) rc)
    (λ r w, match r with Ok _ => written old c w | Err _ => kept old w end) (kept old).
Proof.
  intros w [Hw Hc]. destruct (rename_result sys (tmp_of pid rc seq) rc w) as (r & w' & -> & _ & Ho & Hr). destruct r as [[]|e].
  - destruct Hr as (_ & Hr & _). split; [by rewrite Hr|]. intros p Hp Hne. rewrite Ho; [by apply Hw| |done].
    intros ->. by apply (not_aside_tmp seq).
  - destruct Hr as [Hr _]. intros p Hp. by rewrite Hr, Hw.
Qed.

(** Nothing but [rc] changes, and [rc] only as a whole. *)
Lemma hoare_atomic_write old c : hoare (kept old) (atomic_write sys pid rc c) (λ _, written old c) (kept old).
Proof.
  unfold atomic_write. eapply hoare_bind; [apply hoare_kept, steady_get|]. intros seq.
  eapply hoare_bind; [apply hoare_kept, steady_modify; done|]. intros [].
  eapply hoare_bind; [apply hoare_attempt with (Q := λ _, written old c)|].
  - eapply hoare_bind; [apply hoare_kept, steady_or_err, steady_create_new; auto|]. intros [].
    eapply hoare_bind; [apply hoare_kept, steady_or_err, steady_set_mode|]. intros [].
    eapply hoare_bind; [apply hoare_or_err, hoare_write_all|]. intros [].
    eapply hoare_bind with (Q := λ _ w, kept old w ∧ file_at (files w) (tmp_of pid rc seq) = Some c);
      [|intros []; apply hoare_or_err, hoare_swap].
    intros w Hw. unfold or_err, bind, sync_all, operation. destruct (fails _ _ _); [by destruct Hw|exact Hw].
  - intros [[]|e]; [by intros w|]. eapply hoare_bind; [apply hoare_kept, steady_ignore, steady_remove_file; auto|].
    by intros [] w.
Qed.

Lemma hoare_lock old : hoare (kept old) (lock_rc_file sys rc) (λ _, kept old) (kept old).
Proof.
  apply hoare_kept. apply steady_bind; [apply steady_or_err, steady_open_or_create; auto|]. intros []. by apply steady_or_err, steady_operation.
Qed.

Lemma hoare_read old : hoare (kept old) (read_to_string sys rc) (λ c w, kept old w ∧ old rc = Some c) (kept old).
Proof.
  intros w Hw. pose proof (Hw rc aside_rc) as Ho. unfold read_to_string, or_err, bind, read, operation, file_at in *.
  destruct (fails _ _ _); [exact Hw|]. destruct (files w !! rc) as [[c|]|]; cbn; [|exact Hw..].
  by destruct (utf8_valid (as_bytes c)).
Qed.

Lemma hoare_read_if_there old :
  hoare (kept old) (read_if_there sys rc) (λ c w, kept old w ∧ default "" (old rc) = c) (kept old).
Proof.
  unfold read_if_there. eapply hoare_bind with (Q := λ there w, kept old w ∧ (there = false → old rc = None)).
  - intros w Hw. cbn. split; [done|]. intros H%bool_decide_eq_false. rewrite <- (Hw rc aside_rc). unfold file_at.
    destruct (files w !! rc); [by destruct H|done].
  - intros [|] w [Hw Hn].
    + pose proof (hoare_read old w Hw) as H. destruct (read_to_string sys rc w) as [[c| |] w']; [|done..]. by destruct H as [? ->].
    + by rewrite Hn.
Qed.

Definition rc_shell (sh : string) : Prop := sh = "bash" ∧ s = ".bashrc" ∨ sh = "zsh" ∧ s = ".zshrc".
Context (opts : InstallOpts) (Hrc : rc_shell (shell opts)) (Hd : home opts = d).

Lemma rc_path_eq : rc_file_path (shell opts) (home opts) = ret rc.
Proof. rewrite Hd. unfold rc. by destruct Hrc as [[-> ->]|[-> ->]]. Qed.

Lemma hoare_install_completion old :
  hoare (kept old) (install_completion sys pid opts)
    (λ r w, match r with
            | Installed _ => written old (rc_next (shell opts) (default "" (old rc))) w ∧
                             (contains_marker (default "" (old rc)) = true → force opts = true)
            | _ => kept old w
            end) (kept old).
Proof.
  assert (install_completion sys pid opts = install_rc_line sys pid opts) as ->.
  { unfold install_completion. by destruct Hrc as [[-> _]|[-> _]]. }
  unfold install_rc_line. rewrite rc_path_eq. eapply hoare_bind with (Q := λ f w, f = rc ∧ kept old w); [by intros w|].
  intros f w [-> Hw]. revert w Hw. change (hoare (kept old) (if dry_run opts then _ else _) ?Q ?E) with (hoare (kept old) (if dry_run opts then _ else _) Q E).
  destruct (dry_run opts).
  - eapply hoare_bind; [apply hoare_read_if_there|]. by intros c w [Hw _].
  - eapply hoare_bind; [apply hoare_lock|]. intros []. eapply hoare_bind; [apply hoare_read_if_there|].
    intros c w [Hw <-]. set (c := default "" (old rc)) in *. destruct (contains_marker c && negb (force opts)) eqn:Em; [done|].
    revert w Hw. eapply hoare_bind; [apply hoare_kept, steady_ignore, steady_metadata|]. intros [].
    eapply hoare_bind; [apply hoare_atomic_write|]. intros [] w Hw. split; [done|]. intros E. rewrite E in Em. by destruct (force opts).
Qed.

Lemma hoare_uninstall old :
  hoare (kept old) (uninstall_completion sys pid opts)
    (λ r w, match r with Uninstalled _ => written old (strip_marker_block (default "" (old rc))) w | _ => kept old w end) (kept old).
Proof.
  unfold uninstall_completion. replace (String.eqb (shell opts) "bash" || String.eqb (shell opts) "zsh") with true
    by (by destruct Hrc as [[-> _]|[-> _]]).
  rewrite rc_path_eq. eapply hoare_bind with (Q := λ f w, f = rc ∧ kept old w); [by intros w|].
  intros f w [-> Hw]. revert w Hw. eapply hoare_bind; [apply hoare_kept, steady_exists|]. intros [|]; cbn [negb]; [|by intros w].
  destruct (dry_run opts).
  - eapply hoare_bind; [apply hoare_read|]. intros c w [Hw _]. by destruct (negb (contains_marker c)).
  - eapply hoare_bind; [apply hoare_lock|]. intros []. eapply hoare_bind; [apply hoare_read|].
    intros c w [Hw Hc]. destruct (contains_marker c); [|done]. cbn [negb]. rewrite Hc. cbn [from_option id].
    revert w Hw. eapply hoare_bind; [apply hoare_kept, steady_ignore, steady_metadata|]. intros [].
    eapply hoare_bind; [apply hoare_atomic_write|]. by intros [] w Hw.
Qed.
End file.
End laws.

(** *** No panic, and a dry run changes nothing *)

Section walk.
Context (sys : System) (pid : N).

Lemma calm_read_to_string p : calm (read_to_string sys p).
Proof.
  apply calm_bind; [apply calm_or_err, calm_total, total_operation|]. intros c.
  destruct (utf8_valid _); [apply calm_ret|apply calm_fail].
Qed.
Lemma calm_read_if_there p : calm (read_if_there sys p).
Proof. apply calm_bind; [apply calm_total, total_exists|]. intros []; [apply calm_read_to_string|apply calm_ret]. Qed.
Lemma calm_lock p : calm (lock_rc_file sys p).
Proof. apply calm_bind; [|intros _]; apply calm_or_err, calm_total, total_operation. Qed.
Lemma calm_mode p : calm (preserved_mode sys p).
Proof. apply calm_ignore, calm_total, total_operation. Qed.
Lemma calm_atomic_write p c : calm (atomic_write sys pid p c).
Proof.
  apply calm_bind; [apply calm_total, total_get|]. intros seq. apply calm_bind; [apply calm_total, total_modify|]. intros _.
  apply calm_bind.
  - apply calm_attempt. repeat (apply calm_bind; [apply calm_or_err, calm_total|intros _]); try apply total_operation.
    + intros w. apply total_operation.
    + apply calm_or_err, calm_total, total_operation.
  - intros [|e]; [apply calm_ret|]. apply calm_bind; [apply calm_ignore, calm_total, total_operation|]. intros _. apply calm_fail.
Qed.
Lemma calm_rc_path sh h : is_shell sh = true → sh ≠ "fish" → calm (rc_file_path sh h).
Proof.
  intros Hs%bool_decide_eq_true Hf. unfold rc_file_path. destruct (String.eqb_spec sh "bash"); [apply calm_ret|].
  destruct (String.eqb_spec sh "zsh"); [apply calm_ret|]. set_solver.
Qed.
Hint Resolve calm_read_to_string calm_read_if_there calm_lock calm_mode calm_atomic_write calm_ret calm_fail : calm.

Lemma calm_install opts : is_shell (shell opts) = true → calm (install_completion sys pid opts).
Proof.
  intros Hs. unfold install_completion. destruct (String.eqb (shell opts) "bash" || String.eqb (shell opts) "zsh") eqn:E.
  - apply calm_bind; [apply calm_rc_path; [done|intros Hf; by rewrite Hf in E]|]. intros file. destruct (dry_run opts).
    + apply calm_bind; [auto with calm|]. intros c. apply calm_ret.
    + apply calm_bind; [auto with calm|]. intros _. apply calm_bind; [auto with calm|]. intros c.
      destruct (_ && _); [apply calm_ret|]. do 2 (apply calm_bind; [auto with calm|]; intros _). apply calm_ret.
  - destruct (String.eqb_spec (shell opts) "fish") as [|Hf].
    + unfold install_managed_file. destruct (dry_run opts); [apply calm_ret|]. apply calm_bind; [apply calm_total, total_exists|].
      intros there. destruct (_ && _); [apply calm_ret|].
      apply calm_bind; [apply calm_or_err, calm_total, total_operation|]. intros _. apply calm_bind; [auto with calm|]. intros _. apply calm_ret.
    + apply bool_decide_eq_true in Hs. apply orb_false_iff in E as [?%String.eqb_neq ?%String.eqb_neq]. set_solver.
Qed.

Lemma calm_uninstall opts : is_shell (shell opts) = true → calm (uninstall_completion sys pid opts).
Proof.
  intros Hs. unfold uninstall_completion. destruct (String.eqb (shell opts) "bash" || String.eqb (shell opts) "zsh") eqn:E.
  - apply calm_bind; [apply calm_rc_path; [done|intros Hf; by rewrite Hf in E]|]. intros file.
    apply calm_bind; [apply calm_total, total_exists|]. intros []; cbn [negb]; [|apply calm_ret]. destruct (dry_run opts).
    + apply calm_bind; [auto with calm|]. intros c. destruct (negb _); apply calm_ret.
    + apply calm_bind; [auto with calm|]. intros _. apply calm_bind; [auto with calm|]. intros c.
      destruct (negb _); [apply calm_ret|]. do 2 (apply calm_bind; [auto with calm|]; intros _). apply calm_ret.
  - destruct (String.eqb_spec (shell opts) "fish") as [|Hf].
    + apply calm_bind; [apply calm_total, total_exists|]. intros []; cbn [negb]; [|apply calm_ret]. destruct (dry_run opts); [apply calm_ret|].
      apply calm_bind; [apply calm_or_err, calm_total, total_operation|]. intros _. apply calm_ret.
    + apply bool_decide_eq_true in Hs. apply orb_false_iff in E as [?%String.eqb_neq ?%String.eqb_neq]. set_solver.
Qed.

Lemma calm_run_install env sub args : calm (run_install sys pid env sub args).
Proof.
  unfold run_install. destruct (_ || _); [apply calm_ret|]. destruct (List.find _ _); [apply calm_ret|].
  destruct (match List.find _ _ with Some s => Some s | None => detect_shell env end) as [sh|]; [|apply calm_ret].
  destruct (is_shell sh) eqn:E; cbn [negb]; [|apply calm_ret]. destruct (HOME env); [|apply calm_ret].
  destruct (_ || _); (apply calm_bind; [apply calm_attempt|intros r; apply calm_ret]).
  - by apply calm_uninstall.
  - by apply calm_install.
Qed.

Notation unchanged := (steady (λ _, True) (λ n : N, n)).

Lemma read_unchanged p : unchanged (read_to_string sys p).
Proof. apply steady_bind; [apply steady_or_err, steady_read|]. intros c. destruct (utf8_valid _); [apply steady_ret|apply steady_fail]. Qed.
Lemma read_if_there_unchanged p : unchanged (read_if_there sys p).
Proof. apply steady_bind; [apply steady_exists|]. intros []; [apply read_unchanged|apply steady_ret]. Qed.
Lemma rc_path_unchanged sh h : unchanged (rc_file_path sh h).
Proof. unfold rc_file_path. destruct (String.eqb sh "bash"); [apply steady_ret|]. destruct (String.eqb sh "zsh"); [apply steady_ret|apply steady_panic]. Qed.

Lemma dry_install opts : dry_run opts = true → unchanged (install_completion sys pid opts).
Proof.
  intros Hd. unfold install_completion, install_managed_file, install_rc_line. rewrite Hd. destruct (_ || _).
  - apply steady_bind; [apply rc_path_unchanged|]. intros file. apply steady_bind; [apply read_if_there_unchanged|]. intros c. apply steady_ret.
  - destruct (String.eqb _ _); [apply steady_ret|apply steady_panic].
Qed.
Lemma dry_uninstall opts : dry_run opts = true → unchanged (uninstall_completion sys pid opts).
Proof.
  intros Hd. unfold uninstall_completion. rewrite Hd. destruct (_ || _).
  - apply steady_bind; [apply rc_path_unchanged|]. intros file. apply steady_bind; [apply steady_exists|].
    intros []; cbn [negb]; [|apply steady_ret]. apply steady_bind; [apply read_unchanged|]. intros c. destruct (negb _); apply steady_ret.
  - destruct (String.eqb _ _); [|apply steady_panic]. apply steady_bind; [apply steady_exists|]. intros []; apply steady_ret.
Qed.
End walk.

(** ** The claim *)

Lemma rc_line_plain sh s : rc_shell s sh → str_contains lf (rc_line sh) = false ∧ split_str MARKER_END (rc_line sh) = None.
Proof. by intros [[-> _]|[-> _]]; vm_compute. Qed.

Lemma with_newline_eq s : with_newline s = s ∨ with_newline s = s +:+ nl.
Proof. unfold with_newline. destruct (String.eqb s ""); [by left|]. destruct (rsplit_once lf s) as [[a []]|]; auto. Qed.

Lemma contains_marker_nl s : contains_marker s = false → contains_marker (with_newline s) = false.
Proof.
  intros H. destruct (with_newline_eq s) as [->| ->]; [done|]. unfold contains_marker, nl in *.
  rewrite split_str_sep by done. by destruct (split_str MARKER_START s) as [[]|].
Qed.

Lemma rc_next_text sh s first others : rc_shell s sh → contains_marker (user_text first others) = false →
  rc_next sh (with_blocks (rc_line sh) first others) = with_blocks (rc_line sh) (with_newline (user_text first others)) [""].
Proof.
  intros [H1 H2]%rc_line_plain Hm. unfold rc_next.
  replace (if contains_marker _ then _ else _) with (user_text first others).
  { cbn [with_blocks]. by rewrite str_append_nil_r. }
  destruct (contains_marker (with_blocks (rc_line sh) first others)) eqn:E.
  - by rewrite strip_blocks.
  - destruct others as [|t others]; [unfold user_text; cbn; by rewrite str_append_nil_r|]. cbn [with_blocks] in E.
    by rewrite contains_marker_block in E.
Qed.

(** What the rc file of [opts] is, and what it reads as. *)
Definition rc_of (opts : InstallOpts) : PathBuf := rc (home opts) (if String.eqb (shell opts) "bash" then ".bashrc" else ".zshrc").
Definition rc_text (opts : InstallOpts) (w : World N) : string := default "" (file_at (files w) (rc_of opts)).
Definition bash_or_zsh (opts : InstallOpts) : Prop := shell opts = "bash" ∨ shell opts = "zsh".

(** An installation, then, in another process, the removal of what it installed. *)
Definition then_uninstall sys pid sys' pid' opts w :=
  let '(r, w1) := install_completion sys pid opts w in
  let '(r', w2) := uninstall_completion sys' pid' opts (mkWorld (files w1) 0 [] 0%N) in (r, w1, r', w2).

(** C33. What the user wrote around any number of completion blocks survives, as long
    as it contains no start marker itself: an installation leaves the rc file as it was
    or with that text, ended by a line feed, and one block; a removal leaves it as it
    was or with that text alone.  So it is after each command whatever the system
    refuses on the way; no other file is changed but the temporary one and the lock,
    and neither command panics.  (A start marker of the user's own, without its end, is
    taken for a block: [CompletionsDemo.lone_marker_loses_text].) *)
Theorem rc_file_kept sys pid sys' pid' opts w first others :
  bash_or_zsh opts →
  rc_text opts w = with_blocks (rc_line (shell opts)) first others →
  contains_marker (user_text first others) = false →
  let text := user_text first others in
  let '(r, w1, r', w2) := then_uninstall sys pid sys' pid' opts w in
  (∀ p, aside pid (home opts) (if String.eqb (shell opts) "bash" then ".bashrc" else ".zshrc") p →
        aside pid' (home opts) (if String.eqb (shell opts) "bash" then ".bashrc" else ".zshrc") p →
        p ≠ rc_of opts → file_at (files w2) p = file_at (files w) p) ∧
  match r with
  | Val (Installed _) => rc_text opts w1 = with_newline text +:+ marker_block (rc_line (shell opts))
  | Panicked => False
  | _ => rc_text opts w1 = rc_text opts w
  end ∧
  match r' with
  | Val (Uninstalled _) => rc_text opts w2 = match r with Val (Installed _) => with_newline text | _ => text end
  | Panicked => False
  | _ => rc_text opts w2 = rc_text opts w1
  end.
Proof.
  intros Hsh Ht Hm. cbn zeta. unfold rc_text, rc_of in *. set (s := if String.eqb (shell opts) "bash" then _ else _) in *.
  assert (rc_shell s (shell opts)) as Hrc by (by destruct Hsh as [E|E]; unfold s; rewrite E; [left|right]).
  assert (is_shell (shell opts) = true) as His by (by destruct Hsh as [-> | ->]).
  destruct (rc_line_plain _ _ Hrc) as [Hl He].
  pose proof (hoare_install_completion sys pid (home opts) s opts Hrc eq_refl (file_at (files w)) w ltac:(by intros p _)) as H1.
  pose proof (calm_install sys pid opts His w) as P1. unfold then_uninstall.
  destruct (install_completion sys pid opts w) as [r w1]. cbn [fst] in P1.
  set (w1' := mkWorld (files w1) 0 [] 0%N).
  pose proof (hoare_uninstall sys' pid' (home opts) s opts Hrc eq_refl (file_at (files w1')) w1' ltac:(by intros p _)) as H2.
  pose proof (calm_uninstall sys' pid' opts His w1') as P2.
  destruct (uninstall_completion sys' pid' opts w1') as [r' w2]. cbn [fst] in P2. cbn [files w1'] in *.
  assert (∀ p, aside pid (home opts) s p → p ≠ rc (home opts) s → file_at (files w1) p = file_at (files w) p) as F1.
  { intros p Hp Hne. destruct r as [[]| |]; [|by apply H1..]. by apply H1. }
  assert (∀ p, aside pid' (home opts) s p → p ≠ rc (home opts) s → file_at (files w2) p = file_at (files w1) p) as F2.
  { intros p Hp Hne. destruct r' as [[]| |]; [|by apply H2..]. by apply H2. }
  split; [intros p Hp Hp' Hne; by rewrite F2, F1|].
  assert (match r with
          | Val (Installed _) => default "" (file_at (files w1) (rc (home opts) s)) = with_blocks (rc_line (shell opts)) (with_newline (user_text first others)) [""]
          | Panicked => False
          | _ => default "" (file_at (files w1) (rc (home opts) s)) = default "" (file_at (files w) (rc (home opts) s))
          end) as R1.
  { destruct r as [[]| |]; try done; try (f_equal; apply H1, aside_rc).
    destruct H1 as [[-> _] _]. cbn [from_option id]. by rewrite Ht, (rc_next_text _ s). }
  split; [by destruct r as [[]| |]; try done; rewrite R1; cbn [with_blocks]; rewrite str_append_nil_r|].
  destruct r' as [[]| |]; try done; try (f_equal; apply H2, aside_rc).
  destruct H2 as [-> _]. cbn [from_option id].
  destruct r as [[]| |]; try done; rewrite R1; try (by rewrite Ht, strip_blocks).
  rewrite (strip_blocks _ Hl He); [by unfold user_text; cbn; rewrite str_append_nil_r|].
  unfold user_text. cbn. rewrite str_append_nil_r. by apply contains_marker_nl.
Qed.

Module CompletionsDemo.
Definition sys : System := {| fails t op := None; leaves t := None; survives t p := false |}.
Definition opts : InstallOpts := mkOpts "bash" [RootDir; Normal "home"; Normal "u"] false false.
Definition bashrc : string := "alias ll='ls -l'".
Definition world (text : string) : World N := mkWorld {[rc_of opts := File text]} 0 [] 0%N.

Lemma rc_file_kept_witness :
  contains_marker bashrc = false ∧
  let '(r, w1, r', w2) := then_uninstall sys 7 sys 8 opts (world bashrc) in
  r = Val (Installed (rc_of opts)) ∧ r' = Val (Uninstalled (rc_of opts)) ∧ rc_text opts w2 = bashrc +:+ nl.
Proof.
  split; [vm_compute; reflexivity|].
  pose proof (rc_file_kept sys 7 sys 8 opts (world bashrc) bashrc [] (or_introl eq_refl) ltac:(vm_compute; reflexivity) ltac:(vm_compute; reflexivity)) as H.
  assert ((then_uninstall sys 7 sys 8 opts (world bashrc)).1.1.1 = Val (Installed (rc_of opts))) as E1 by (vm_compute; reflexivity).
  assert ((then_uninstall sys 7 sys 8 opts (world bashrc)).1.2 = Val (Uninstalled (rc_of opts))) as E2 by (vm_compute; reflexivity).
  destruct (then_uninstall _ _ _ _ _ _) as [[[r w1] r'] w2]. cbn [fst snd] in *. subst r r'.
  destruct H as (_ & _ & H). split; [reflexivity|]. split; [reflexivity|]. rewrite H. vm_compute. reflexivity.
Defined.

(** An opening marker without its end, as an interrupted hand edit leaves it: a forced
    installation keeps it and adds a block, and the removal that follows takes all the
    user's text from the first marker to the end of the block. *)
Definition broken : string := "a=1" +:+ nl +:+ MARKER_START +:+ nl +:+ "b=2" +:+ nl.
Definition forced : InstallOpts := mkOpts "bash" [RootDir; Normal "home"; Normal "u"] true false.
Definition forced_run := then_uninstall sys 7 sys 8 forced (world broken).
Example lone_marker_loses_text :
  rc_text forced forced_run.1.1.2 = broken +:+ marker_block (rc_line "bash") ∧ rc_text forced forced_run.2 = "a=1".
Proof. split; vm_compute; reflexivity. Qed.
End CompletionsDemo.
