(* ===== verification/CliIpc.v ===== *)
(** * CliIpc: how [tp] talks to the daemon's local socket.
    [tp-cli/codec.rs], [request] and its errors ([ipc_client.rs]), and the reading
    thread of [ipc_session.rs].  The blocking reader is proved against the grammar
    [Codec.Parses], so it reads what the daemon's incremental decoder would. *)
From stdpp Require Import base list numbers strings.
From Stdlib Require Import Lia NArith.
From S2P Require Import Prelude Bytes Text Json Codec Ipc.

(** [io::ErrorKind], where the code looks at it. *)
Inductive ErrorKind := TimedOut | WouldBlock | ConnectionRefused | NotFound | NotConnected | UnexpectedEof | InvalidData | OtherKind.
Record io_error := mkIoError { kind : ErrorKind; io_text : string }.

(** A blocking stream: the bytes to come, and the error that ends them, if the other
    end does not close. *)
Record Reader := mkReader { incoming : bytes; broken : option io_error }.

Definition unexpected_eof : io_error := mkIoError UnexpectedEof "failed to fill whole buffer".
Definition read_exact (n : nat) (r : Reader) : result bytes io_error * Reader :=
  if decide (n ≤ length (incoming r)) then (Ok (take n (incoming r)), mkReader (drop n (incoming r)) (broken r))
  else (Err (default unexpected_eof (broken r)), mkReader [] (broken r)).

(** ** The codec *)

Module CliCodec.
Definition MAX_FRAME_SIZE : N := 64 * 1024 * 1024.
Definition HEADER_SIZE : nat := 8.

Definition encode_frame (json : bytes) : bytes :=
  to_be_bytes 4 (as_u32 (N.of_nat (length json))) ++ to_be_bytes 4 0 ++ json.

Definition too_large (n : N) : io_error :=
  mkIoError InvalidData ("Frame too large: " +:+ print_dec n +:+ " bytes exceeds max " +:+ print_dec MAX_FRAME_SIZE).

Definition read_frame (r : Reader) : result bytes io_error * Reader :=
  match read_exact HEADER_SIZE r with
  | (Err e, r) => (Err e, r)
  | (Ok header, r) =>
      let json_len := from_be_bytes (slice header 0 4) in
      let bin_len := from_be_bytes (slice header 4 8) in
      if decide (MAX_FRAME_SIZE < json_len + bin_len)%N then (Err (too_large (json_len + bin_len)), r)
      else
        match read_exact (N.to_nat json_len) r with
        | (Err e, r) => (Err e, r)
        | (Ok json, r) =>
            if decide (0 < bin_len)%N then
              match read_exact (N.to_nat bin_len) r with
              | (Err e, r) => (Err e, r)
              | (Ok _, r) => (Ok json, r)
              end
            else (Ok json, r)
        end
  end.

(** The first byte is read alone and put back in front. *)
Definition read_frame_eof_aware (r : Reader) : result (option bytes) io_error * Reader :=
  match incoming r, broken r with
  | [], None => (Ok None, r)
  | [], Some e => (Err e, r)
  | first :: rest, e =>
      match read_frame (mkReader ([first] ++ rest) e) with
      | (Ok json, r) => (Ok (Some json), r)
      | (Err e, r) => (Err e, r)
      end
  end.
End CliCodec.

(** ** Requests *)

Inductive IpcError := DaemonDown | Timeout | IoFailed (e : io_error) | Decode (s : string) | Closed.

(** [Display] *)
Definition IpcError_text (e : IpcError) : string :=
  match e with
  | DaemonDown => "Daemon is not running. Start it with `tp daemon start` or `tp daemon install`."
  | Timeout => "Daemon did not reply within 30s; try 'tp daemon status' or restart the daemon"
  | IoFailed e => "IPC I/O error: " +:+ io_text e
  | Decode s => "IPC decode error: " +:+ s
  | Closed => "Daemon closed the IPC connection"
  end.

(** [From<io::Error>] *)
Definition from_io (e : io_error) : IpcError :=
  match kind e with
  | TimedOut | WouldBlock => Timeout
  | ConnectionRefused | NotFound | NotConnected => DaemonDown
  | _ => IoFailed e
  end.

(** What one request meets: the probe, the errors of the calls before the answer, the
    answer. *)
Record Connection := mkConnection {
  is_daemon_running : bool;
  connect_error : option io_error;
  timeout_error : option io_error;
  write_error : option io_error;
  answer : Reader
}.

Section json.
Context (to_string : Value → string) (from_slice : bytes → result Value string).

(** [serde_json::to_vec] of a message; it does not fail. *)
Definition to_vec (m : IpcMessage) : bytes := as_bytes (to_string (ipc_to_value m)).

Definition decode_reply (json : bytes) : result IpcMessage IpcError :=
  match from_slice json with
  | Err e => Err (Decode ("parse JSON: " +:+ e))
  | Ok raw =>
      match parse_ipc_message raw with
      | None => Err (Decode ("unrecognised IPC discriminant: " +:+ to_string raw))
      | Some msg => Ok msg
      end
  end.

(** The bytes written, and the answer. *)
Definition request (c : Connection) (req : IpcMessage) : bytes * result IpcMessage IpcError :=
  if negb (is_daemon_running c) then ([], Err DaemonDown)
  else
    match connect_error c, timeout_error c with
    | Some e, _ | None, Some e => ([], Err (from_io e))
    | None, None =>
        let frame := CliCodec.encode_frame (to_vec req) in
        match write_error c with
        | Some e => ([], Err (IoFailed e))
        | None =>
            (frame, match CliCodec.read_frame (answer c) with
                    | (Err e, _) => Err (from_io e)
                    | (Ok json, _) => decode_reply json
                    end)
        end
    end.

(** ** The reading thread of a session *)

(** Everything the thread puts in the channel; each frame takes at least eight bytes. *)
Fixpoint reader_loop (fuel : nat) (r : Reader) : list (result IpcMessage IpcError) :=
  match fuel with
  | O => []
  | S fuel =>
      match CliCodec.read_frame_eof_aware r with
      | (Ok None, _) => [Err Closed]
      | (Ok (Some json), r) =>
          match from_slice json with
          | Err e => [Err (Decode ("parse JSON: " +:+ e))]
          | Ok raw =>
              match parse_ipc_message raw with
              | Some msg => Ok msg :: reader_loop fuel r
              | None => reader_loop fuel r
              end
          end
      | (Err e, _) => [Err (IoFailed e)]
      end
  end.
Definition read_all (r : Reader) : list (result IpcMessage IpcError) := reader_loop (S (length (incoming r))) r.

(** ** Laws *)

Lemma cli_encode_frame b : CliCodec.encode_frame b = Codec.encode_frame b None.
Proof. unfold CliCodec.encode_frame, Codec.encode_frame. cbn [from_option length]. by rewrite app_nil_r. Qed.

(** [read_frame] in the terms of the grammar. *)
Lemma read_frame_header s e : 8 ≤ length s →
  CliCodec.read_frame (mkReader s e) =
    if decide (Codec.MAX_FRAME_SIZE < hdr_json s + hdr_bin s)%N
    then (Err (CliCodec.too_large (hdr_json s + hdr_bin s)), mkReader (drop 8 s) e)
    else match read_exact (N.to_nat (hdr_json s)) (mkReader (drop 8 s) e) with
         | (Err e, r) => (Err e, r)
         | (Ok j, r) =>
             if decide (0 < hdr_bin s)%N
             then match read_exact (N.to_nat (hdr_bin s)) r with (Err e, r) => (Err e, r) | (Ok _, r) => (Ok j, r) end
             else (Ok j, r)
         end.
Proof.
  intros H8. unfold CliCodec.read_frame at 1. unfold read_exact at 1, CliCodec.HEADER_SIZE. cbn [incoming broken].
  rewrite decide_True by done. unfold slice. change (4 - 0) with 4. change (8 - 4) with 4.
  replace (from_be_bytes (take 4 (drop 0 (take 8 s)))) with (hdr_json s) by (unfold hdr_json; by rewrite drop_0, take_take).
  replace (from_be_bytes (take 4 (drop 4 (take 8 s)))) with (hdr_bin s)
    by (unfold hdr_bin; by rewrite <-(take_drop_commute _ 4 4), take_take).
  done.
Qed.

(** A stream that has a whole frame, one that has not, one whose frame is too large. *)
Lemma read_frame_body s e : 8 ≤ length s → (hdr_json s + hdr_bin s ≤ Codec.MAX_FRAME_SIZE)%N → hdr_total s ≤ length s →
  CliCodec.read_frame (mkReader s e) = (Ok (json (body s)), mkReader (drop (hdr_total s) s) e).
Proof.
  intros H8 Hmax Hfit. rewrite read_frame_header, decide_False by lia. unfold read_exact, hdr_total in *. cbn [incoming broken].
  rewrite decide_True by (rewrite length_drop; lia). cbn [incoming broken]. rewrite drop_drop. unfold body. cbn [json]. case_decide.
  - rewrite decide_True by (rewrite length_drop; lia). by rewrite drop_drop.
  - by replace (hdr_bin s) with 0%N by lia; rewrite Nat.add_0_r.
Qed.

Lemma read_frame_short s e :
  length s < 8 ∨ 8 ≤ length s ∧ (hdr_json s + hdr_bin s ≤ Codec.MAX_FRAME_SIZE)%N ∧ length s < hdr_total s →
  ∃ r, CliCodec.read_frame (mkReader s e) = (Err (default unexpected_eof e), r).
Proof.
  intros [H|(H8 & Hmax & Hp)].
  { unfold CliCodec.read_frame, read_exact, CliCodec.HEADER_SIZE. cbn [incoming broken]. rewrite decide_False by lia. eauto. }
  rewrite read_frame_header, decide_False by lia. unfold read_exact, hdr_total in *. cbn [incoming broken].
  case_decide as Hj; [|eauto]. rewrite length_drop in Hj.
  cbn [incoming broken]. rewrite decide_True by lia. rewrite drop_drop, decide_False by (rewrite length_drop; lia). eauto.
Qed.

Lemma Parses_first s x fs st r : Parses s (x :: fs) st r →
  8 ≤ length s ∧ (hdr_json s + hdr_bin s ≤ Codec.MAX_FRAME_SIZE)%N ∧ hdr_total s ≤ length s ∧ body s = x.
Proof. intros H. remember (x :: fs) as l eqn:El. destruct H; try done. by injection El as -> _. Qed.

Lemma read_frame_enc f rest e : sendable f → CliCodec.read_frame (mkReader (enc f ++ rest) e) = (Ok (json f), mkReader rest e).
Proof.
  intros Hs. destruct (enc_header f rest Hs) as [Ej Eb]. pose proof (enc_length f) as El.
  assert (hdr_total (enc f ++ rest) = length (enc f)) as Et by (unfold hdr_total; rewrite Ej, Eb; lia).
  destruct (Parses_total rest) as (fs & st & r & HP). pose proof (enc_parse1 f rest fs st r Hs HP) as HP'.
  destruct (Parses_first _ _ _ _ _ HP') as (Hl & Hm & Ht & Hb). rewrite read_frame_body by done.
  by rewrite Et, drop_app_length, Hb.
Qed.

(** What the thread reports of a stream: the messages of its frames up to the first
    that is not JSON, then why it stopped. *)
Fixpoint heard (frames : list bytes) (last : result IpcMessage IpcError) : list (result IpcMessage IpcError) :=
  match frames with
  | [] => [last]
  | f :: frames =>
      match from_slice f with
      | Err e => [Err (Decode ("parse JSON: " +:+ e))]
      | Ok raw => match parse_ipc_message raw with Some m => Ok m :: heard frames last | None => heard frames last end
      end
  end.
Definition why_stopped (st : stop) (rest : bytes) (e : option io_error) : result IpcMessage IpcError :=
  match st, rest, e with
  | TooBig n, _, _ => Err (IoFailed (CliCodec.too_large n))
  | More, [], None => Err Closed
  | More, _, _ => Err (IoFailed (default unexpected_eof e))
  end.

Lemma eof_aware s e : s ≠ [] → CliCodec.read_frame_eof_aware (mkReader s e) =
  match CliCodec.read_frame (mkReader s e) with (Ok j, r) => (Ok (Some j), r) | (Err e, r) => (Err e, r) end.
Proof. by destruct s. Qed.

Lemma reader_loop_heard s fs st r e fuel : Parses s fs st r → length s < fuel →
  reader_loop fuel (mkReader s e) = heard (json <$> fs) (why_stopped st r e).
Proof.
  intros H. revert fuel. induction H as [s Hs|s Hs Hb|s Hs Hm Hp|s fs st r Hs Hm Ht HP IH]; intros [|fuel] Hf; try lia; cbn [reader_loop fmap list_fmap heard].
  - destruct s as [|b s]; [by destruct e|]. rewrite eof_aware by done. destruct (read_frame_short (b :: s) e (or_introl Hs)) as [r ->]. done.
  - rewrite eof_aware by (by destruct s; [cbn in Hs; lia|]). rewrite read_frame_header by done. by rewrite decide_True.
  - assert (s ≠ []) as Hne by (by destruct s; [cbn in Hs; lia|]). rewrite eof_aware by done.
    destruct (read_frame_short s e (or_intror (conj Hs (conj Hm Hp)))) as [r ->]. by destruct s.
  - rewrite eof_aware by (by destruct s; [cbn in Hs; lia|]). rewrite read_frame_body by done.
    assert (length (drop (hdr_total s) s) < fuel) as Hl by (rewrite length_drop; unfold hdr_total in *; lia).
    destruct (from_slice (json (body s))); [|done]. destruct (parse_ipc_message _); [f_equal|]; by apply IH.
Qed.

(** C34. The blocking reader of [tp] and the incremental decoder of the daemon read the
    same frames from the same bytes: whatever arrives, the reading thread reports the
    messages of the frames the grammar finds, in order, up to the first that is not
    JSON, and then exactly why it stopped, a clean close only at the end of a frame. *)
Theorem cli_reads_frames s fs st r e : Parses s fs st r →
  read_all (mkReader s e) = heard (json <$> fs) (why_stopped st r e) ∧
  (feed new [s]).1 = stop_result st fs.
Proof.
  intros H. split; [apply reader_loop_heard; [done|cbn; lia]|].
  refine (proj1 (feed_new [s] fs st r _)). cbn. by rewrite app_nil_r.
Qed.

(** *** What the daemon sends is what [tp] hears *)

Context (law : ∀ v, from_slice (as_bytes (to_string v)) = Ok v).

Lemma heard_messages ms last : Forall (λ m, ipc_wf m = true) ms → heard (to_vec <$> ms) last = (Ok <$> ms) ++ [last].
Proof.
  induction 1 as [|m ms Hm _ IH]; [done|]. rewrite !fmap_cons. cbn [heard]. unfold to_vec at 1. rewrite law.
  rewrite ipc_roundtrip by done. by rewrite IH.
Qed.

Definition small (m : IpcMessage) : Prop := (N.of_nat (length (to_vec m)) ≤ Codec.MAX_FRAME_SIZE)%N.

Lemma parses_messages ms t fs st r : Forall small ms → Parses t fs st r →
  Parses (concat (CliCodec.encode_frame <$> (to_vec <$> ms)) ++ t) (((λ m, mkFrame (to_vec m) None) <$> ms) ++ fs) st r.
Proof.
  intros Hs HP. induction Hs as [|m ms Hm _ IH]; [done|]. cbn [fmap list_fmap concat app]. rewrite <- app_assoc, cli_encode_frame.
  apply (enc_parse1 (mkFrame (to_vec m) None)); [|done]. unfold sendable, small in *. cbn. lia.
Qed.

Lemma request_answered c m rest e req : is_daemon_running c = true → connect_error c = None → timeout_error c = None → write_error c = None →
  answer c = mkReader (CliCodec.encode_frame (to_vec m) ++ rest) e → small m → ipc_wf m = true →
  request c req = (CliCodec.encode_frame (to_vec req), Ok m).
Proof.
  intros H1 H2 H3 H4 H5 Hs Hw. unfold request. rewrite H1, H2, H3, H4, H5. cbn [negb]. f_equal.
  rewrite cli_encode_frame. change (Codec.encode_frame (to_vec m) None) with (enc (mkFrame (to_vec m) None)).
  rewrite read_frame_enc; [|unfold sendable, bin_len, small in *; cbn [json binary from_option]; lia].
  cbn [json]. unfold decode_reply, to_vec. by rewrite law, ipc_roundtrip.
Qed.
End json.
