(* ===== verification/CliArgs.v ===== *)
(** * CliArgs: what [tp] makes of its arguments.
    [tp-cli/commands/forward.rs] (which handler a command line goes to),
    [passthrough_split.rs], the command lines [passthrough.rs], [run.rs],
    [forward_claude.rs] and [relay.rs] start other programs with, and the matching and
    duration helpers of [ipc_client.rs]. *)
From stdpp Require Import base list numbers strings sets.
From Stdlib Require Import Lia NArith ZArith Ascii.
From S2P Require Import Prelude Bytes Text Lines Json.
From S2P Require Runners RunnerParts.

(** ** Routes *)

Inductive Route := Native | Passthrough | ForwardClaude | RelayNative | RunNative.
#[export] Instance Route_eq_dec : EqDecision Route.
Proof. solve_decision. Defined.

Definition NATIVE_SUBCOMMANDS : list string :=
  ["daemon"; "pair"; "session"; "status"; "logs"; "doctor"; "upgrade"; "completions"; "version"].
Definition CLAUDE_UTILITY_SUBCOMMANDS : list string :=
  ["auth"; "mcp"; "install"; "update"; "agents"; "auto-mode"; "plugin"; "plugins"; "setup-token"].

Definition decide_route (first : option string) : Route :=
  match first with
  | None => Passthrough
  | Some cmd =>
      if String.eqb cmd "--help" || String.eqb cmd "-h" then Native
      else if String.eqb cmd "--version" || String.eqb cmd "-v" then Native
      else if bool_decide (cmd ∈ NATIVE_SUBCOMMANDS) then Native
      else if String.eqb cmd "relay" then RelayNative
      else if String.eqb cmd "run" then RunNative
      else if bool_decide (cmd ∈ CLAUDE_UTILITY_SUBCOMMANDS) then ForwardClaude
      else if String.eqb cmd "--" then ForwardClaude
      else Passthrough
  end.

(** ** [tp]'s own flags among claude's *)

Definition TP_VALUE_FLAGS : list string := ["--tp-sid"; "--tp-cwd"].
Definition is_tp_flag (s : string) : bool := bool_decide (s ∈ TP_VALUE_FLAGS).

Record TpArgs := mkTpArgs { tp_sid : option string; tp_cwd : option string }.
Record SplitResult := mkSplit { tp_args : TpArgs; claude_args : list string }.
Record SplitError := mkSplitError { flag : string }.

Definition usage_message (e : SplitError) : string :=
  let example := if String.eqb (flag e) "--tp-sid" then "my-session" else "/path/to/project" in
  let nl := String lf "" in
  "Error: " +:+ flag e +:+ " requires a value." +:+ nl +:+ nl +:+
  "Usage: tp " +:+ flag e +:+ " <value> [claude args...]" +:+ nl +:+
  "Example: tp " +:+ flag e +:+ " " +:+ example +:+ " -p " +:+ quoted "hello".

Definition invalid_value (v : string) : bool := is_tp_flag v || String.eqb v "--" || starts_with "-" v.

(** The loop over the arguments from [i] on. *)
Fixpoint split_loop (argv : list string) (tp : TpArgs) (claude : list string) : result SplitResult SplitError :=
  match argv with
  | [] => Ok (mkSplit tp claude)
  | arg :: rest =>
      if is_tp_flag arg then
        match rest with
        | [] => Err (mkSplitError arg)
        | value :: rest =>
            if invalid_value value then Err (mkSplitError arg)
            else split_loop rest (if String.eqb arg "--tp-sid" then mkTpArgs (Some value) (tp_cwd tp) else mkTpArgs (tp_sid tp) (Some value)) claude
        end
      else split_loop rest tp (claude ++ [arg])
  end.
Definition split_args (argv : list string) : result SplitResult SplitError := split_loop argv (mkTpArgs None None) [].

(** ** The programs that are started *)

(** [spawn_runner]: the arguments given to [tp] itself. *)
Definition spawn_runner_args (sid cwd sock : string) (cols rows : N) (claude_args : list string) : list string :=
  ["run"; "--sid"; sid; "--cwd"; cwd; "--socket-path"; sock; "--cols"; print_dec cols; "--rows"; print_dec rows]
  ++ match claude_args with [] => [] | _ => "--" :: claude_args end.

(** [commands::run::run]: the arguments of [tp-runner]. *)
Definition runner_argv (args : list string) : list string :=
  match args with first :: rest => if String.eqb first "run" then rest else args | [] => [] end.

(** [commands::forward_claude::run]: the arguments of [claude]. *)
Definition forwarded_args (args_after_tp : list string) : list string :=
  match args_after_tp with first :: rest => if String.eqb first "--" then rest else args_after_tp | [] => [] end.

(** [commands::passthrough::run], from the arguments to the runner's: the clock, the
    current directory, the socket and the size of the terminal are given. *)
Definition passthrough_runner (now : N) (current_dir : option string) (sock : string) (cols rows : N) (argv : list string)
  : result (list string) string :=
  match split_args argv with
  | Err e => Err (usage_message e)
  | Ok split =>
      let sid := default ("session-" +:+ print_dec now) (tp_sid (tp_args split)) in
      let cwd := match tp_cwd (tp_args split) with Some c => c | None => default "." current_dir end in
      Ok (spawn_runner_args sid cwd sock cols rows (claude_args split))
  end.

(** *** [tp relay start] *)

Record RelayFlags := mkRelayFlags { port : option string; cache_size : option string; max_frame_size : option string }.

Definition set_flag (name v : string) (f : RelayFlags) : option RelayFlags :=
  if String.eqb name "--port" then Some (mkRelayFlags (Some v) (cache_size f) (max_frame_size f))
  else if String.eqb name "--cache-size" then Some (mkRelayFlags (port f) (Some v) (max_frame_size f))
  else if String.eqb name "--max-frame-size" then Some (mkRelayFlags (port f) (cache_size f) (Some v))
  else None.

Fixpoint parse_start_loop (args : list string) (flags : RelayFlags) : RelayFlags :=
  match args with
  | [] => flags
  | arg :: rest =>
      match split_once "="%char arg with
      | Some (name, v) => parse_start_loop rest (default flags (set_flag name v flags))
      | None =>
          match rest with
          | v :: rest' => match set_flag arg v flags with
                          | Some flags => parse_start_loop rest' flags
                          | None => parse_start_loop rest flags
                          end
          | [] => flags
          end
      end
  end.
Definition parse_start_flags (args : list string) : RelayFlags := parse_start_loop args (mkRelayFlags None None None).

Definition valid_int (value : string) : option string := print_dec <$> parse_uint u64_max (trim value).

(** The arguments and the environment [tp-relay] is started with, or the error. *)
Definition relay_start (args : list string) : result (list string * list (string * string)) string :=
  let flags := parse_start_flags args in
  let checked (name : string) (o : option string) : result (option string) string :=
    match o with
    | None => Ok None
    | Some v => match valid_int v with Some n => Ok (Some n) | None => Err ("tp relay: invalid " +:+ name +:+ " value: '" +:+ v +:+ "'") end
    end in
  let? p := checked "--port" (port flags) in
  let? c := checked "--cache-size" (cache_size flags) in
  let? m := checked "--max-frame-size" (max_frame_size flags) in
  Ok (match p with Some p => ["--port"; p] | None => [] end,
      match c with Some c => [("TP_RELAY_CACHE_SIZE", c)] | None => [] end ++
      match m with Some m => [("TP_RELAY_MAX_FRAME_SIZE", m)] | None => [] end).

(** ** Finding a pairing or a session *)

Record SessionRow := mkSessionRow {
  s_sid : string; s_state : string; s_worktree_path : option string; s_cwd : string; s_updated_at : Z;
  s_claude_version : option string; s_last_seq : Z
}.
Record PairingRow := mkPairingRow { p_daemon_id : string; p_relay_url : string; p_created_at : Z; p_label : option string }.

Inductive MatchResult (A : Type) := NoMatch | One (a : A) | Ambiguous (l : list A).
Arguments NoMatch {A}. Arguments One {A} a. Arguments Ambiguous {A} l.

(** A tier: decided if anything matches. *)
Definition tier {A} (l : list A) (next : MatchResult A) : MatchResult A :=
  match l with [] => next | [x] => One x | _ => Ambiguous l end.

Definition keep {A} (P : A → bool) (l : list A) : list A := List.filter P l.

(** [haystack.contains(needle)] *)
Definition str_has (needle haystack : string) : bool := match split_str needle haystack with Some _ => true | None => false end.

Section labels.
(** [str::to_lowercase], the tables of Unicode. *)
Context (to_lowercase : string → string).

Definition match_pairings (candidates : list PairingRow) (fragment : string) : MatchResult PairingRow :=
  let frag_lower := to_lowercase fragment in
  tier (keep (λ c, String.eqb (p_daemon_id c) fragment) candidates)
  (tier (keep (λ c, match p_label c with Some l => String.eqb (to_lowercase l) frag_lower | None => false end) candidates)
  (tier (keep (λ c, starts_with fragment (p_daemon_id c)) candidates)
  (tier (keep (λ c, String.eqb (p_daemon_id c) ("daemon-" +:+ fragment)) candidates)
  (tier (keep (λ c, match p_label c with Some l => str_has frag_lower (to_lowercase l) | None => false end) candidates) NoMatch)))).
End labels.

Definition match_sessions (candidates : list SessionRow) (fragment : string) : MatchResult SessionRow :=
  tier (keep (λ c, String.eqb (s_sid c) fragment) candidates)
  (tier (keep (λ c, starts_with fragment (s_sid c)) candidates) NoMatch).

(** *** Durations *)

Definition duration_ms_for_unit (unit : ascii) : option N :=
  if decide (unit = "s"%char) then Some 1000%N else if decide (unit = "m"%char) then Some 60000%N
  else if decide (unit = "h"%char) then Some 3600000%N else if decide (unit = "d"%char) then Some 86400000%N else None.

(** The last byte of a text and what is before it; a last byte that is not ASCII is no
    character of its own, so [split_at_checked] refuses it or the unit does. *)
Fixpoint split_last (s : string) : option (string * ascii) :=
  match s with
  | "" => None
  | String c "" => Some ("", c)
  | String c r => let?o (a, u) := split_last r in Some (String c a, u)
  end.

Definition bad_duration (raw : string) : string :=
  "Invalid duration '" +:+ raw +:+ "'. Expected <N><s|m|h|d>, e.g. 7d / 24h / 30m.".

Definition parse_duration (raw : string) : result N string :=
  let? x := ok_or (let?o (prefix, unit) := split_last (trim raw) in
                   let?o multiplier := duration_ms_for_unit unit in
                   if negb (String.eqb prefix "") && all_digits prefix then Some (prefix, multiplier) else None) (bad_duration raw) in
  let? n := ok_or (parse_uint u64_max x.1) (bad_duration raw) in
  if (n =? 0)%N then Err ("Invalid duration '" +:+ raw +:+ "'. Must be a positive integer.")
  else if decide (n * x.2 ≤ u64_max)%N then Ok (n * x.2)%N
  else Err ("Duration '" +:+ raw +:+ "' is too large — the resulting millisecond value overflows u64.").

(** ** Laws *)

(** *** The grammar [split_args] reads *)

Inductive Piece := PClaude (arg : string) | PSid (v : string) | PCwd (v : string).
Definition render (p : Piece) : list string :=
  match p with PClaude a => [a] | PSid v => ["--tp-sid"; v] | PCwd v => ["--tp-cwd"; v] end.
Definition piece_ok (p : Piece) : bool :=
  match p with PClaude a => negb (is_tp_flag a) | PSid v | PCwd v => negb (invalid_value v) end.
Definition absorb (r : SplitResult) (p : Piece) : SplitResult :=
  match p with
  | PClaude a => mkSplit (tp_args r) (claude_args r ++ [a])
  | PSid v => mkSplit (mkTpArgs (Some v) (tp_cwd (tp_args r))) (claude_args r)
  | PCwd v => mkSplit (mkTpArgs (tp_sid (tp_args r)) (Some v)) (claude_args r)
  end.
Definition pieces (ps : list Piece) : list string := concat (render <$> ps).

(** What follows the pieces when a flag has no value. *)
Definition bad_flag (f : string) (rest : list string) : bool :=
  is_tp_flag f && match rest with [] => true | v :: _ => invalid_value v end.

Lemma tp_flag_cases f : is_tp_flag f = true → f = "--tp-sid" ∨ f = "--tp-cwd".
Proof. intros H%bool_decide_eq_true. unfold TP_VALUE_FLAGS in H. set_solver. Qed.

Lemma split_loop_sid v rest tp cl : split_loop ("--tp-sid" :: v :: rest) tp cl =
  if invalid_value v then Err (mkSplitError "--tp-sid") else split_loop rest (mkTpArgs (Some v) (tp_cwd tp)) cl.
Proof. reflexivity. Qed.
Lemma split_loop_cwd v rest tp cl : split_loop ("--tp-cwd" :: v :: rest) tp cl =
  if invalid_value v then Err (mkSplitError "--tp-cwd") else split_loop rest (mkTpArgs (tp_sid tp) (Some v)) cl.
Proof. reflexivity. Qed.

Lemma split_loop_pieces ps rest tp cl : Forall (λ p, piece_ok p = true) ps →
  split_loop (pieces ps ++ rest) tp cl = let r := foldl absorb (mkSplit tp cl) ps in split_loop rest (tp_args r) (claude_args r).
Proof.
  intros H. revert tp cl. induction H as [|p ps Hp _ IH]; intros tp cl; [done|].
  change (pieces (p :: ps)) with (render p ++ pieces ps). rewrite <- app_assoc. cbn [foldl]. destruct p as [a|v|v]; cbn [render app piece_ok absorb] in *.
  - apply negb_true_iff in Hp. cbn [split_loop]. rewrite Hp. apply IH.
  - apply negb_true_iff in Hp. rewrite split_loop_sid, Hp. apply IH.
  - apply negb_true_iff in Hp. rewrite split_loop_cwd, Hp. apply IH.
Qed.

(** Every argument list is pieces, then nothing or a flag without its value. *)
Lemma split_pieces argv : ∃ ps rest, Forall (λ p, piece_ok p = true) ps ∧ argv = pieces ps ++ rest ∧
  match rest with [] => True | f :: rest' => bad_flag f rest' = true end.
Proof.
  induction argv as [argv IH] using (induction_ltof1 _ (@length string)). unfold ltof in IH. destruct argv as [|f rest]; [by exists [], []|].
  assert (∀ p rest', piece_ok p = true → f :: rest = render p ++ rest' → length rest' < length (f :: rest) →
    ∃ ps r, Forall (λ p, piece_ok p = true) ps ∧ f :: rest = pieces ps ++ r ∧ match r with [] => True | f :: r' => bad_flag f r' = true end) as Hstep.
  { intros p rest' Hp E Hl. destruct (IH rest' Hl) as (ps & r & Hps & -> & Hr). exists (p :: ps), r. split; [by constructor|].
    split; [by rewrite E; unfold pieces; cbn [fmap list_fmap concat]; rewrite <- app_assoc|done]. }
  destruct (is_tp_flag f) eqn:Ef; [|apply (Hstep (PClaude f) rest); [cbn; by rewrite Ef|done|cbn; lia]].
  destruct rest as [|v rest]; [exists [], [f]; by unfold bad_flag; rewrite Ef|].
  destruct (invalid_value v) eqn:Ev; [exists [], (f :: v :: rest); unfold bad_flag; by rewrite Ef, Ev|].
  destruct (tp_flag_cases f Ef) as [-> | ->]; [apply (Hstep (PSid v) rest)|apply (Hstep (PCwd v) rest)]; cbn; try rewrite Ev; try done; lia.
Qed.

Lemma split_bad ps f rest : Forall (λ p, piece_ok p = true) ps → bad_flag f rest = true → split_args (pieces ps ++ f :: rest) = Err (mkSplitError f).
Proof.
  intros Hps [Hf Hr]%andb_true_iff. unfold split_args. rewrite split_loop_pieces by done. cbn zeta. cbn [split_loop]. rewrite Hf.
  destruct rest as [|v rest]; [done|]. by rewrite Hr.
Qed.
Lemma split_good ps : Forall (λ p, piece_ok p = true) ps → split_args (pieces ps) = Ok (foldl absorb (mkSplit (mkTpArgs None None) []) ps).
Proof.
  intros Hps. unfold split_args. rewrite <- (app_nil_r (pieces ps)), split_loop_pieces by done. cbn. by destruct (foldl _ _ _).
Qed.

(** What the accepted pieces amount to. *)
Lemma absorb_values ps r : Forall (λ p, piece_ok p = true) ps →
  let ok o := from_option (λ v, negb (invalid_value v)) true o in
  let r' := foldl absorb r ps in
  (ok (tp_sid (tp_args r)) = true → ok (tp_sid (tp_args r')) = true) ∧
  (ok (tp_cwd (tp_args r)) = true → ok (tp_cwd (tp_args r')) = true) ∧
  claude_args r' = claude_args r ++ omap (λ p, match p with PClaude a => Some a | _ => None end) ps.
Proof.
  intros H. cbn zeta. revert r. induction H as [|p ps Hp _ IH]; intros r; [by rewrite app_nil_r|]. cbn [foldl].
  destruct (IH (absorb r p)) as (H1 & H2 & ->). split_and!.
  - intros Hr. apply H1. by destruct p.
  - intros Hr. apply H2. by destruct p.
  - destruct p; cbn [absorb claude_args omap list_omap]; [|done..]. by rewrite <- app_assoc.
Qed.

Lemma valid_value_ok v : invalid_value v = false → RunnerParts.value_ok v = true.
Proof.
  unfold invalid_value, RunnerParts.value_ok, RunnerParts.starts_dash. intros [_ H]%orb_false_iff. by rewrite H.
Qed.

Lemma passthrough_argv sid cwd sock cols rows args :
  runner_argv (spawn_runner_args sid cwd sock cols rows args) =
  Runners.runner_args [] sid cwd (Runners.mkSpawnOptions (Some sock) None (Some cols) (Some rows) (Some args) None).
Proof. by destruct args. Qed.

(** C35. [tp <args>] starts what was asked for: the arguments are read as claude's own
    arguments, in order, among the values of [tp]'s two flags, and are refused only at a
    flag without a value; otherwise the process started is routed to the runner, and the
    runner's own parser gives back the session, the directory, the socket, the size and
    claude's arguments, untouched. (The socket and the directory are taken not to look
    like flags, the terminal's size to be positive 16-bit numbers.) *)
Theorem passthrough_reaches_runner now dir sock cols rows argv now' dir' :
  RunnerParts.value_ok sock = true → from_option RunnerParts.value_ok true dir = true →
  (1 ≤ cols ≤ u16_max)%N → (1 ≤ rows ≤ u16_max)%N →
  ∃ ps rest, Forall (λ p, piece_ok p = true) ps ∧ argv = pieces ps ++ rest ∧
    match rest with
    | f :: rest' => bad_flag f rest' = true ∧ passthrough_runner now dir sock cols rows argv = Err (usage_message (mkSplitError f))
    | [] =>
        let r := foldl absorb (mkSplit (mkTpArgs None None) []) ps in
        ∃ args, passthrough_runner now dir sock cols rows argv = Ok args ∧ decide_route (head args) = RunNative ∧
          RunnerParts.parse_args now' dir' (runner_argv args) =
            Ok (RunnerParts.mkOptions (default ("session-" +:+ print_dec now) (tp_sid (tp_args r)))
                  (match tp_cwd (tp_args r) with Some c => c | None => default "." dir end)
                  None (Some sock) (Some cols) (Some rows)
                  (omap (λ p, match p with PClaude a => Some a | _ => None end) ps))
    end.
Proof.
  intros Hk Hd Hco Hro. destruct (split_pieces argv) as (ps & rest & Hps & -> & Hr). exists ps, rest. split; [done|]. split; [done|].
  destruct rest as [|f rest].
  - rewrite app_nil_r. unfold passthrough_runner. rewrite split_good by done. cbn zeta.
    destruct (absorb_values ps (mkSplit (mkTpArgs None None) []) Hps) as (H1 & H2 & H3). cbn zeta in *.
    set (r := foldl absorb _ ps) in *. eexists. split; [done|]. split; [done|].
    rewrite passthrough_argv, RunnerParts.parse_runner_args; cbn [Runners.o_socket_path Runners.o_worktree_path Runners.o_cols Runners.o_rows
      Runners.o_claude_args from_option]; try done; try (by apply bool_decide_eq_true_2).
    + by rewrite H3.
    + specialize (H1 eq_refl). destruct (tp_sid (tp_args r)); [|done]. apply valid_value_ok. cbn in H1. by apply negb_true_iff.
    + specialize (H2 eq_refl). destruct (tp_cwd (tp_args r)); [apply valid_value_ok; cbn in H2; by apply negb_true_iff|]. by destruct dir.
  - split; [done|]. unfold passthrough_runner. by rewrite split_bad.
Qed.

Lemma passthrough_reaches_runner_witness :
  let argv := ["-p"; "hi"; "--tp-cwd"; "/x"; "--model"; "opus"] in
  ∃ args, passthrough_runner 7 (Some "/w") "/run/d.sock" 80 24 argv = Ok args ∧ decide_route (head args) = RunNative.
Proof.
  cbn zeta.
  destruct (passthrough_reaches_runner 7 (Some "/w") "/run/d.sock" 80 24 ["-p"; "hi"; "--tp-cwd"; "/x"; "--model"; "opus"] 8 None)
    as (ps & rest & _ & _ & H); [reflexivity|reflexivity|unfold u16_max; lia|unfold u16_max; lia|].
  destruct rest as [|f rest].
  - destruct H as (args & H1 & H2 & _). exists args. split; assumption.
  - destruct H as [_ H]. vm_compute in H. discriminate H.
Defined.

(** *** Tiers *)

Section tiers.
Context {A : Type}.

Definition tiers (Ps : list (A → bool)) (cs : list A) : MatchResult A := foldr (λ P next, tier (keep P cs) next) NoMatch Ps.
(** The first tier a candidate is in. *)
Fixpoint rank (Ps : list (A → bool)) (c : A) : nat := match Ps with [] => 0 | P :: Ps => if P c then 0 else S (rank Ps c) end.

Lemma keep_elem (P : A → bool) cs c : c ∈ keep P cs ↔ P c = true ∧ c ∈ cs.
Proof. unfold keep. rewrite !list_elem_of_In, List.filter_In. tauto. Qed.

Lemma keep_ext (P Q : A → bool) cs : (∀ c, c ∈ cs → P c = Q c) → keep P cs = keep Q cs.
Proof.
  induction cs as [|c cs IH]; intros H; [done|]. cbn. rewrite (H c) by left. fold (keep P cs) (keep Q cs).
  rewrite IH; [done|]. intros d Hd. apply H. by right.
Qed.

(** The answer is the candidates of the lowest rank there is. *)
Lemma tiers_best Ps cs :
  (∀ c, c ∈ cs → rank Ps c = length Ps) ∧ tiers Ps cs = NoMatch ∨
  ∃ k, k < length Ps ∧ (∀ c, c ∈ cs → k ≤ rank Ps c) ∧
    let best := keep (λ c, Nat.eqb (rank Ps c) k) cs in
    best ≠ [] ∧ tiers Ps cs = match best with [x] => One x | _ => Ambiguous best end.
Proof.
  induction Ps as [|P Ps IH]; [by left|]. cbn [tiers foldr length rank]. fold (tiers Ps cs).
  destruct (keep P cs) as [|x l] eqn:E.
  - assert (∀ c, c ∈ cs → P c = false) as Hn.
    { intros c Hc. destruct (P c) eqn:Ep; [|done]. assert (c ∈ keep P cs) as H by (by apply keep_elem). rewrite E in H. by apply elem_of_nil in H. }
    destruct IH as [[H1 H2]|(k & Hk & Hle & Hb & Ht)]; [left|right; exists (S k)].
    + split; [|done]. intros c Hc. by rewrite Hn, H1.
    + split; [lia|]. split; [intros c Hc; rewrite Hn by done; specialize (Hle c Hc); lia|]. cbn [tier].
      rewrite (keep_ext _ (λ c, Nat.eqb (rank Ps c) k)); [done|]. intros c Hc. by rewrite Hn.
  - right. exists 0. split; [lia|]. split; [lia|]. rewrite (keep_ext (λ c, Nat.eqb (if P c then 0 else S (rank Ps c)) 0) P).
    + rewrite E. split; [done|]. by destruct l.
    + intros c _. by destruct (P c).
Qed.

(** A candidate that alone is in the first tier is the answer. *)
Lemma tiers_first P Ps cs c : c ∈ cs → P c = true → (∀ d, d ∈ cs → P d = true → d = c) → NoDup cs → tiers (P :: Ps) cs = One c.
Proof.
  intros Hc Hp Hu Hnd. cbn [tiers foldr]. assert (keep P cs = [c]) as ->; [|done].
  assert (NoDup (keep P cs)) as Hk by (unfold keep; apply NoDup_ListNoDup, List.NoDup_filter; by apply NoDup_ListNoDup).
  assert (∀ d, d ∈ keep P cs → d = c) as Hall by (intros d [? ?]%keep_elem; by apply Hu).
  assert (c ∈ keep P cs) as Hin by (by apply keep_elem).
  destruct (keep P cs) as [|x [|y l]]; [by apply elem_of_nil in Hin| |].
  - f_equal. apply Hall. left.
  - exfalso. apply NoDup_cons in Hk as [Hk _]. apply Hk. rewrite (Hall x), (Hall y) by set_solver. left.
Qed.
End tiers.

Definition session_tiers (fragment : string) : list (SessionRow → bool) :=
  [λ c, String.eqb (s_sid c) fragment; λ c, starts_with fragment (s_sid c)].
Lemma match_sessions_tiers cs f : match_sessions cs f = tiers (session_tiers f) cs.
Proof. reflexivity. Qed.

Definition pairing_tiers (to_lowercase : string → string) (fragment : string) : list (PairingRow → bool) :=
  [λ c, String.eqb (p_daemon_id c) fragment;
   λ c, match p_label c with Some l => String.eqb (to_lowercase l) (to_lowercase fragment) | None => false end;
   λ c, starts_with fragment (p_daemon_id c);
   λ c, String.eqb (p_daemon_id c) ("daemon-" +:+ fragment);
   λ c, match p_label c with Some l => str_has (to_lowercase fragment) (to_lowercase l) | None => false end].
Lemma match_pairings_tiers lc cs f : match_pairings lc cs f = tiers (pairing_tiers lc f) cs.
Proof. reflexivity. Qed.

(** What [match_sessions] answers with is a session whose id starts with the fragment,
    and the only one whose id is or starts so. *)
Lemma match_sessions_one cs f r : match_sessions cs f = One r → r ∈ cs ∧ starts_with f (s_sid r) = true ∧
  (s_sid r = f ∨ ∀ c, c ∈ cs → starts_with f (s_sid c) = true → c = r).
Proof.
  rewrite match_sessions_tiers. destruct (tiers_best (session_tiers f) cs) as [[_ ->]|(k & Hk & Hle & Hb & ->)]; [done|].
  set (best := keep _ cs) in *. destruct best as [|x [|y l]] eqn:E; [done| |done]. intros [= ->].
  assert (r ∈ best) as Hr by (rewrite E; left). apply keep_elem in Hr as [Hr Hin]. split; [done|]. cbn in *.
  destruct (String.eqb_spec (s_sid r) f) as [Es|Es].
  { split; [|by left]. rewrite Es. apply starts_with_spec. exists "". by rewrite str_append_nil_r. }
  destruct (starts_with f (s_sid r)) eqn:Ef; [|apply Nat.eqb_eq in Hr; lia]. split; [done|]. right. intros c Hc Hs.
  assert (c ∈ best) as Hcb.
  { apply keep_elem. split; [|done]. apply Nat.eqb_eq in Hr. specialize (Hle c Hc). rewrite Hs in *.
    destruct (String.eqb (s_sid c) f); [lia|]. by apply Nat.eqb_eq. }
  rewrite E in Hcb. by apply list_elem_of_singleton in Hcb.
Qed.

(** *** Durations *)

Lemma split_last_app a u : split_last (a +:+ String u "") = Some (a, u).
Proof.
  induction a as [|c a IH]; [done|]. rewrite str_append_cons. cbn [split_last]. rewrite IH.
  destruct (a +:+ String u "") eqn:E; [by destruct a|done].
Qed.

Lemma parse_duration_bounds raw ms : parse_duration raw = Ok ms → (0 < ms ≤ u64_max)%N.
Proof.
  unfold parse_duration. destruct (split_last (trim raw)) as [[p u]|]; cbn; [|done].
  destruct (duration_ms_for_unit u) as [m|] eqn:Eu; cbn; [|done]. destruct (_ && _); cbn; [|done].
  destruct (parse_uint u64_max p) as [n|]; cbn; [|done]. destruct (N.eqb_spec n 0); [done|]. case_decide; [|done]. intros [= <-].
  assert (0 < m)%N; [|lia]. unfold duration_ms_for_unit in Eu. repeat case_decide; simplify_eq; lia.
Qed.

Lemma parse_duration_print n u m : duration_ms_for_unit u = Some m → (0 < n)%N → (n * m ≤ u64_max)%N →
  parse_duration (print_dec n +:+ String u "") = Ok (n * m)%N.
Proof.
  intros Hu Hn Hm. unfold parse_duration.
  assert (is_graphic u = true) as Hg.
  { unfold duration_ms_for_unit in Hu. repeat (case_decide; [subst u; reflexivity|]). done. }
  assert (all_chars is_graphic (print_dec n +:+ String u "") = true) as Hp.
  { rewrite all_chars_app. apply andb_true_iff. split; [|cbn; by rewrite Hg].
    pose proof (digits_print_dec n) as Hd. clear -Hd. induction (print_dec n) as [|c s IH]; [done|]. cbn in *.
    apply andb_true_iff in Hd as [Hc Hs]. apply andb_true_iff. split; [|by apply IH]. unfold is_ascii_digit, is_graphic in *.
    apply andb_true_iff in Hc as [H1%N.leb_le H2%N.leb_le]. apply andb_true_iff. split; [apply N.leb_le|apply N.ltb_lt]; lia. }
  rewrite trim_graphic by done. rewrite split_last_app. cbn. rewrite Hu. cbn. rewrite digits_print_dec.
  destruct (String.eqb_spec (print_dec n) "") as [E|_]; [by apply print_dec_nonempty in E|]. cbn.
  assert (1 ≤ m)%N as H1 by (unfold duration_ms_for_unit in Hu; repeat case_decide; simplify_eq; lia).
  rewrite parse_print_dec by nia. cbn. destruct (N.eqb_spec n 0); [lia|]. by rewrite decide_True.
Qed.
