(* ===== verification/CliCmd.v ===== *)
(** * CliCmd: a command at the terminal.
    The lines the user types, the exchanges with the daemon, the requests that went out
    and what was printed, as a state monad; [prompt_yes_no], [prompt_text] and
    [other_discriminant] of [tp-cli/commands/session.rs]. *)
From stdpp Require Import base list numbers strings.
From Stdlib Require Import Lia NArith Ascii.
From S2P Require Import Prelude Bytes Text Lines Json Label Ipc CliIpc CliText.

(** One [read_line]. *)
Inductive LineRead := Typed (s : string) | EndOfInput | BadRead.

(** [network n] is what the [n]-th probe or request meets. *)
Record World := mkWorld {
  input : list LineRead;
  network : nat → Connection;
  asked : nat;
  requests : list IpcMessage;
  printed : list Line
}.

Definition Cmd (A : Type) : Type := World → A * World.
Definition ret {A} (a : A) : Cmd A := λ w, (a, w).
Definition bind {A B} (m : Cmd A) (k : A → Cmd B) : Cmd B := λ w, let '(a, w) := m w in k a w.

Declare Scope cmd_scope.
Delimit Scope cmd_scope with cmd.
Notation "x ← m ; k" := (bind m (λ x, k)) (at level 20, m at level 100, k at level 200, right associativity) : cmd_scope.
Notation "m ;; k" := (bind m (λ _, k)) (at level 100, k at level 200, right associativity) : cmd_scope.

Definition say (l : Line) : Cmd unit := λ w, (tt, mkWorld (input w) (network w) (asked w) (requests w) (printed w ++ [l])).
Fixpoint say_all (ls : list Line) : Cmd unit :=
  match ls with [] => ret tt | l :: ls => bind (say l) (λ _, say_all ls) end.

(** After the last line the input is at its end. *)
Definition read_line : Cmd LineRead := λ w,
  (match input w with [] => EndOfInput | l :: _ => l end,
   mkWorld (drop 1 (input w)) (network w) (asked w) (requests w) (printed w)).

(** [is_daemon_running()] *)
Definition probe : Cmd bool := λ w,
  (is_daemon_running (network w (asked w)), mkWorld (input w) (network w) (S (asked w)) (requests w) (printed w)).

(** [read_line(..)], [trim], [to_lowercase]: only ASCII letters are lowered to ASCII. *)
Definition is_yes (line : string) : bool := let t := str_ascii_lower (trim line) in String.eqb t "y" || String.eqb t "yes".

Definition prompt_yes_no (question : string) : Cmd bool := (
  say (Prompt (question +:+ " [y/N] "));;
  l ← read_line;
  ret match l with Typed line => is_yes line | EndOfInput => is_yes "" | BadRead => false end)%cmd.

Definition prompt_text (question : string) : Cmd (option string) := (
  say (Prompt (question +:+ " "));;
  l ← read_line;
  ret match l with Typed line => Some (trim_end_char cr (trim_end_char lf line)) | EndOfInput | BadRead => None end)%cmd.

Section network.
Context (to_string : Value → string) (from_slice : bytes → result Value string).

(** [request]; a request is out when its whole frame was written. *)
Definition send_request (req : IpcMessage) : Cmd (result IpcMessage IpcError) := λ w,
  let '(frame, r) := request to_string from_slice (network w (asked w)) req in
  (r, mkWorld (input w) (network w) (S (asked w)) (match frame with [] => requests w | _ => requests w ++ [req] end) (printed w)).
End network.

(** The wire name, for replies nobody expects. *)
Definition other_discriminant (m : IpcMessage) : string :=
  match m with
  | Hello _ _ _ _ _ => "hello" | Rec _ _ _ _ _ _ => "rec" | Bye _ _ _ _ => "bye" | Ack _ _ => "ack"
  | Input _ _ => "input" | Resize _ _ _ => "resize"
  | PairBegin _ _ _ => "pair.begin" | PairBeginOk _ _ _ => "pair.begin.ok" | PairBeginErr _ _ => "pair.begin.err"
  | PairCancel _ => "pair.cancel" | PairCompleted _ _ _ => "pair.completed" | PairCancelled _ => "pair.cancelled"
  | PairError _ _ _ => "pair.error"
  | PairRemove _ => "pair.remove" | PairRemoveOk _ _ => "pair.remove.ok" | PairRemoveErr _ _ _ => "pair.remove.err"
  | PairRename _ _ => "pair.rename" | PairRenameOk _ _ _ => "pair.rename.ok" | PairRenameErr _ _ _ => "pair.rename.err"
  | SessionDelete _ => "session.delete" | SessionDeleteOk _ _ => "session.delete.ok" | SessionDeleteErr _ _ _ => "session.delete.err"
  | SessionPrune _ _ _ => "session.prune" | SessionPruneOk _ _ _ => "session.prune.ok" | SessionPruneErr _ _ _ _ => "session.prune.err"
  | DoctorProbe => "doctor.probe" | DoctorProbeOk _ => "doctor.probe.ok"
  end.

(** ** Reasoning: what a command asks for *)

(** [m] sends nothing and reads nothing. *)
Definition quiet {A} (m : Cmd A) : Prop := ∀ w, requests (m w).2 = requests w ∧ input (m w).2 = input w.
(** [m] sends nothing. *)
Definition silent {A} (m : Cmd A) : Prop := ∀ w, requests (m w).2 = requests w.

Lemma quiet_silent {A} (m : Cmd A) : quiet m → silent m.
Proof. intros H w. apply H. Qed.
Lemma quiet_ret {A} (a : A) : quiet (ret a).
Proof. done. Qed.
Lemma quiet_say l : quiet (say l).
Proof. done. Qed.
Lemma quiet_probe : quiet probe.
Proof. done. Qed.
Lemma quiet_bind {A B} (m : Cmd A) (k : A → Cmd B) : quiet m → (∀ a, quiet (k a)) → quiet (bind m k).
Proof.
  intros Hm Hk w. unfold bind. specialize (Hm w). destruct (m w) as [a w']. destruct (Hk a w') as [H1 H2]. cbn in *.
  split; [by rewrite H1; apply Hm|by rewrite H2; apply Hm].
Qed.
Lemma quiet_say_all ls : quiet (say_all ls).
Proof. induction ls as [|l ls IH]; [done|]. by apply quiet_bind; [|intros _]. Qed.
Lemma silent_bind {A B} (m : Cmd A) (k : A → Cmd B) : silent m → (∀ a, silent (k a)) → silent (bind m k).
Proof. intros Hm Hk w. unfold bind. specialize (Hm w). destruct (m w) as [a w']. rewrite Hk. exact Hm. Qed.
Lemma silent_read : silent read_line.
Proof. done. Qed.
#[export] Hint Resolve quiet_silent quiet_ret quiet_say quiet_probe quiet_say_all silent_read : cmd.

(** What one exchange puts on the wire. *)
Lemma send_request_wire ts fs req w : let w' := (send_request ts fs req w).2 in
  (requests w' = requests w ∨ requests w' = requests w ++ [req]) ∧ input w' = input w.
Proof. unfold send_request. destruct (request _ _ _ _) as [[|b f] r]; auto. Qed.

Lemma send_request_answered ts fs req w m :
  (send_request ts fs req w).1 = Ok m → requests (send_request ts fs req w).2 = requests w ++ [req].
Proof.
  unfold send_request, request. destruct (is_daemon_running _); cbn [negb]; [|done].
  destruct (connect_error _); [done|]. destruct (timeout_error _); [done|]. by destruct (write_error _).
Qed.

(** Nobody typed the consent away: a prompt that says yes read a yes. *)
Lemma prompt_yes_spec q w : let '(b, w') := prompt_yes_no q w in
  requests w' = requests w ∧ input w' = drop 1 (input w) ∧ (b = true → ∃ line, head (input w) = Some (Typed line) ∧ is_yes line = true).
Proof.
  unfold prompt_yes_no, bind, say, read_line, ret. cbn. split; [done|]. split; [done|].
  destruct (input w) as [|[line| |] r]; try done. intros H. by exists line.
Qed.
