(* ===== verification/SessionCmd.v ===== *)
(** * SessionCmd: [tp session list | delete | prune | cleanup]
    ([tp-cli/commands/session.rs]).  Listing reads the store: its rows are given.  What
    the daemon does with a request is [Dispatcher]'s. *)
From stdpp Require Import base list numbers strings gmap sorting.
From Stdlib Require Import Lia NArith ZArith Ascii.
From S2P Require Import Prelude Bytes Text Chars Lines Json Label Ipc CliIpc CliText CliArgs CliCmd.
From S2P Require Files.
Local Open Scope cmd_scope.

(** Which ends are terminals, and whether colours are on. *)
Record Term := mkTerm { stdin_tty : bool; stdout_tty : bool; colours : bool }.

Section session.
Context (to_string : Value → string) (from_slice : bytes → result Value string) (term : Term).
Notation dim := (CliText.dim (colours term)).
Notation fail := (fail_msg (colours term)).
Notation ok := (ok_msg (colours term)).
Notation send_request := (send_request to_string from_slice).

(** ** [list] *)

Definition cwd_of (s : SessionRow) : string := default (s_cwd s) (s_worktree_path s).
Definition column (min : nat) (values : list string) : nat := foldr max min (str_len <$> values).

Definition list_lines (sessions : list SessionRow) (now : Z) : list string :=
  match sessions with
  | [] => ["No sessions."]
  | _ =>
      let sid_w := column 3 (s_sid <$> sessions) in
      let state_w := column 5 (s_state <$> sessions) in
      let cwd_w := column 3 (cwd_of <$> sessions) in
      (pad_end "SID" sid_w +:+ "  " +:+ pad_end "STATE" state_w +:+ "  " +:+ pad_end "CWD" cwd_w +:+ "  UPDATED") ::
      ((λ s, pad_end (s_sid s) sid_w +:+ "  " +:+ pad_end (s_state s) state_w +:+ "  " +:+ pad_end (cwd_of s) cwd_w +:+ "  " +:+
             format_age (i64 (now - s_updated_at s)) now) <$> sessions)
  end.
Definition session_list (sessions : list SessionRow) (now : Z) : Cmd N :=
  say_all (Out <$> list_lines sessions now);; ret SUCCESS.

(** ** [delete] *)

Definition daemon_down : Line :=
  ErrLine (fail "Daemon is not running. Start it with `tp daemon start` or `tp daemon install`.").

Definition MAX_HINT : nat := 20.
Definition no_session (candidates : list SessionRow) (prefix : string) : list Line :=
  ErrLine (fail ("No session matches '" +:+ prefix +:+ "'.")) ::
  match candidates with
  | [] => []
  | _ =>
      ErrLine (dim "Known sids:") :: ((λ c, ErrLine (dim ("  " +:+ s_sid c))) <$> take MAX_HINT candidates) ++
      (if decide (MAX_HINT < length candidates)
       then [ErrLine (dim ("  … " +:+ print_dec (N.of_nat (length candidates - MAX_HINT)) +:+ " more (run 'tp session list')"))] else [])
  end.

(** [reason] and [message] of an error reply, as they are shown. *)
Definition message_suffix (message : option string) : string :=
  match message with Some m => if String.eqb m "" then "" else " — " +:+ m | None => "" end.
Definition delete_error (reason : IpcSessionDeleteErrReason) (message : option string) : string :=
  IpcSessionDeleteErrReason_to_str reason +:+ message_suffix message.

Definition session_delete (candidates : list SessionRow) (prefix : string) (yes : bool) : Cmd N :=
  match match_sessions candidates prefix with
  | NoMatch => say_all (no_session candidates prefix);; ret FAILURE
  | Ambiguous matches =>
      say_all (ErrLine (fail ("Prefix '" +:+ prefix +:+ "' is ambiguous. Candidates:")) :: ((λ c, ErrLine ("  " +:+ s_sid c)) <$> matches));;
      ret FAILURE
  | One row =>
      let target_sid := s_sid row in
      let confirmed : Cmd N :=
        (up ← probe;
         if negb up then say daemon_down;; ret FAILURE
         else
           r ← send_request (SessionDelete target_sid);
           match r with
           | Err e => say (ErrLine (fail ("Session delete failed: " +:+ IpcError_text e)));; ret FAILURE
           | Ok (SessionDeleteErr _ reason message) =>
               say (ErrLine (fail ("Session delete failed: " +:+ delete_error reason message)));; ret FAILURE
           | Ok (SessionDeleteOk sid was_running) =>
               say (Out (ok ("Deleted session " +:+ sid)));;
               (if (was_running : bool) then say (Out (dim "Killed running runner before delete.")) else ret tt);;
               ret SUCCESS
           | Ok other =>
               say (ErrLine (fail ("Session delete failed: unexpected reply discriminant '" +:+ other_discriminant other +:+ "'")));;
               ret FAILURE
           end) in
      if yes then confirmed
      else if negb (stdin_tty term) then say (ErrLine (fail "Refusing to delete without confirmation — pass --yes."));; ret FAILURE
      else
        say (Prompt ("Delete session " +:+ target_sid +:+ "? [y/N] "));;
        l ← read_line;
        match l with
        | Typed line => if is_yes line then confirmed else say (Out "Aborted.");; ret SUCCESS
        | EndOfInput | BadRead => say (Out "Aborted.");; ret SUCCESS
        end
  end.

(** ** [prune] *)

Record PruneOpts := mkPruneOpts { older_than_raw : string; all : bool; running : bool; dry_run : bool; opt_yes : bool }.

Definition format_prune_question (all include_running : bool) (older_than_raw : string) : string :=
  let scope := if all then "all" else "older than " +:+ older_than_raw in
  if include_running then "Prune stopped + running sessions (" +:+ scope +:+ ")?" else "Prune stopped sessions (" +:+ scope +:+ ")?".

Definition MAX_ATTEMPTS : nat := 3.

(** The challenge from [attempt] on, [more] attempts being left: confirmed or not. *)
Fixpoint challenge (more attempt : nat) : Cmd bool :=
  match more with
  | O => ret false
  | S more =>
      s ← prompt_text (yellow (colours term) "This will KILL running Claude sessions." +:+ " Type 'RUNNING' to confirm (attempt " +:+
                       print_dec (N.of_nat attempt) +:+ "/" +:+ print_dec (N.of_nat MAX_ATTEMPTS) +:+ "):");
      match s with
      | Some s => if String.eqb (trim s) "RUNNING" then ret true
                  else say (ErrLine "Type RUNNING exactly to confirm.");; challenge more (S attempt)
      | None => ret false
      end
  end.

(** The gates: go on, or the code to leave with. *)
Definition prune_gates (opts : PruneOpts) : Cmd (option N) :=
  if negb (dry_run opts) && negb (opt_yes opts) then
    if negb (stdin_tty term) then
      say (ErrLine (fail (if running opts then "Refusing to prune (including running) without --yes."
                          else "Refusing to prune without --yes (use --dry-run to preview).")));;
      ret (Some FAILURE)
    else
      y ← prompt_yes_no (format_prune_question (all opts) (running opts) (older_than_raw opts));
      if negb y then say (Out "Aborted.");; ret (Some SUCCESS)
      else if running opts then
        c ← challenge MAX_ATTEMPTS 1;
        if (c : bool) then ret None else say (Out "Aborted.");; ret (Some SUCCESS)
      else ret None
  else ret None.

Definition prune_reply (reply : IpcMessage) : N * list Line :=
  let count (l : list string) := print_dec (N.of_nat (length l)) in
  match reply with
  | SessionPruneOk sids running_killed reply_dry_run =>
      (SUCCESS,
       if bool_decide (sids = []) then [Out "No sessions selected (0 matched)."]
       else if reply_dry_run then
         Out ("Would delete " +:+ count sids +:+ " session(s) (dry-run):") :: ((λ s, Out ("  " +:+ s)) <$> sids)
       else
         Out (ok ("Pruned " +:+ count sids +:+ " session(s):")) :: ((λ s, Out ("  " +:+ s)) <$> sids) ++
         (if (0 <? running_killed)%N then [Out (dim ("Killed " +:+ print_dec running_killed +:+ " running runner(s)."))] else []))
  | SessionPruneErr _ message partial_sids partial_running_killed =>
      (FAILURE,
       ErrLine (fail ("Session prune failed: internal" +:+ message_suffix message)) ::
       (if bool_decide (partial_sids = []) then []
        else ErrLine (dim ("Deleted " +:+ count partial_sids +:+ " session(s) before the error:")) ::
             ((λ s, ErrLine (dim ("  " +:+ s))) <$> partial_sids)) ++
       (if (0 <? partial_running_killed)%N then [ErrLine (dim ("Killed " +:+ print_dec partial_running_killed +:+ " running runner(s)."))] else []))
  | other => (FAILURE, [ErrLine (fail ("Session prune: unexpected reply '" +:+ other_discriminant other +:+ "'"))])
  end.

Definition prune_age (opts : PruneOpts) : result AgeFilter string :=
  if all opts then Ok All else let? ms := parse_duration (older_than_raw opts) in Ok (OlderThan ms).

Definition session_prune (opts : PruneOpts) : Cmd N :=
  match prune_age opts with
  | Err msg => say (ErrLine (fail msg));; ret FAILURE
  | Ok age =>
      g ← prune_gates opts;
      match g with
      | Some code => ret code
      | None =>
          up ← probe;
          if negb up then say daemon_down;; ret FAILURE
          else
            r ← send_request (SessionPrune age (running opts) (dry_run opts));
            match r with
            | Err e => say (ErrLine (fail (IpcError_text e)));; ret FAILURE
            | Ok reply => let '(code, ls) := prune_reply reply in say_all ls;; ret code
            end
      end
  end.

(** ** [cleanup] *)

Record CleanupRow := mkCleanupRow { c_sid : string; cwd_base : string; age : string }.
Record TuiState := mkTui { cursor : nat; selected : gset nat; rows : list CleanupRow }.

Definition indices (n : nat) : gset nat := list_to_set (seq 0 n).
Definition tui_new (rows : list CleanupRow) (preselect_all : bool) : TuiState :=
  mkTui 0 (if preselect_all then indices (length rows) else ∅) rows.

Definition move_up (t : TuiState) : TuiState := if decide (0 < cursor t) then mkTui (cursor t - 1) (selected t) (rows t) else t.
Definition move_down (t : TuiState) : TuiState :=
  if decide (cursor t + 1 < length (rows t)) then mkTui (cursor t + 1) (selected t) (rows t) else t.
Definition toggle_current (t : TuiState) : TuiState :=
  mkTui (cursor t) (if decide (cursor t ∈ selected t) then selected t ∖ {[cursor t]} else selected t ∪ {[cursor t]}) (rows t).
Definition toggle_all (t : TuiState) : TuiState :=
  mkTui (cursor t) (if decide (size (selected t) = length (rows t)) then ∅ else indices (length (rows t))) (rows t).

(** [None]: an index out of range, which would panic. *)
Definition selected_sids (t : TuiState) : option (list string) :=
  mapM (λ i, c_sid <$> rows t !! i) (merge_sort (≤) (elements (selected t))).

(** *** Drawing *)

Definition crlf : string := String cr (String lf "").
Definition paint (code text : string) : string := ESC +:+ "[" +:+ code +:+ "m" +:+ text +:+ ESC +:+ "[0m".

Definition draw_row (t : TuiState) (i : nat) (row : CleanupRow) : string :=
  let is_cursor := bool_decide (i = cursor t) in
  let cursor_col := if is_cursor then paint "36" ">" else " " in
  let checkbox := if decide (i ∈ selected t) then paint "32" "[x]" else paint "90" "[ ]" in
  let sid_short := pad_end (take_chars 20 (c_sid row)) 20 in
  let sid_col := if is_cursor then paint "36;1" sid_short else sid_short in
  let cwd_short := pad_end (take_chars 24 (cwd_base row)) 24 in
  let cwd_col := if is_cursor then paint "36" cwd_short else paint "90" cwd_short in
  cursor_col +:+ " " +:+ checkbox +:+ " " +:+ sid_col +:+ " " +:+ cwd_col +:+ " " +:+ paint "90" (age row) +:+ crlf.

Definition render_tui_initial (t : TuiState) : string :=
  paint "1" "Select stopped sessions to delete (space toggle, a toggle all, Enter confirm, Esc cancel)" +:+ crlf +:+
  foldr String.append "" (imap (draw_row t) (rows t)) +:+ crlf +:+
  paint "90" (print_dec (N.of_nat (size (selected t))) +:+ " selected / " +:+ print_dec (N.of_nat (length (rows t))) +:+ " total").

(** The cursor goes back up over the frame and the line feed printed after it. *)
Definition total_lines (t : TuiState) : nat := length (rows t) + 3.
Definition render_tui (t : TuiState) : string :=
  ESC +:+ "[" +:+ print_dec (N.of_nat (total_lines t)) +:+ "A" +:+ String cr "" +:+ ESC +:+ "[J" +:+ render_tui_initial t.

(** *** Keys *)

Inductive KeyCode := KEsc | KEnter | KUp | KDown | KChar (c : string) | KOther.
Inductive Event := Key (code : KeyCode) (control : bool) | NotAKey | EventError.

Definition is_char (c : string) (k : KeyCode) : bool := match k with KChar d => String.eqb c d | _ => false end.

(** What a key does to the list, if it redraws it. *)
Definition on_key (k : KeyCode) (t : TuiState) : option TuiState :=
  match k with
  | KUp => Some (move_up t)
  | KDown => Some (move_down t)
  | _ =>
      if is_char "k" k then Some (move_up t)
      else if is_char "j" k then Some (move_down t)
      else if is_char " " k then Some (toggle_current t)
      else if is_char "a" k then Some (toggle_all t)
      else None
  end.

Inductive Picked := Waiting | Cancelled | Confirmed (sids : option (list string)).

(** The loop over the events; it waits when there are no more. *)
Fixpoint tui_loop (events : list Event) (t : TuiState) : Cmd Picked :=
  match events with
  | [] => ret Waiting
  | EventError :: _ => ret Cancelled
  | NotAKey :: events => tui_loop events t
  | Key code control :: events =>
      match code with
      | KEsc => ret Cancelled
      | KEnter => ret (Confirmed (selected_sids t))
      | _ =>
          if is_char "c" code && control then ret Cancelled
          else match on_key code t with
               | Some t => say (Prompt (render_tui t));; say (Prompt crlf);; tui_loop events t
               | None => tui_loop events t
               end
      end
  end.

(** *** Deleting what was picked *)

Definition delete_outcome (sid : string) (r : result IpcMessage IpcError) : option (string * string) :=
  match r with
  | Ok (SessionDeleteOk _ _) => None
  | Ok (SessionDeleteErr _ reason message) => Some (sid, "Delete failed: " +:+ delete_error reason message)
  | Err e => Some (sid, IpcError_text e)
  | Ok other => Some (sid, "unexpected reply '" +:+ other_discriminant other +:+ "'")
  end.

Fixpoint delete_each (sids deleted : list string) (failed : list (string * string)) : Cmd (list string * list (string * string)) :=
  match sids with
  | [] => ret (deleted, failed)
  | sid :: sids =>
      r ← send_request (SessionDelete sid);
      match delete_outcome sid r with
      | None => delete_each sids (deleted ++ [sid]) failed
      | Some f => delete_each sids deleted (failed ++ [f])
      end
  end.

Definition cleanup_summary (deleted : list string) (failed : list (string * string)) : N * list Line :=
  let count {A} (l : list A) := print_dec (N.of_nat (length l)) in
  (if bool_decide (failed = []) then SUCCESS else FAILURE,
   (if bool_decide (deleted = []) then []
    else Out (ok ("Deleted " +:+ count deleted +:+ " session(s):")) :: ((λ s, Out ("  " +:+ s)) <$> deleted)) ++
   (if bool_decide (failed = []) then []
    else ErrLine (fail ("Failed to delete " +:+ count failed +:+ " session(s):")) ::
         ((λ f, ErrLine ("  " +:+ f.1 +:+ ": " +:+ f.2)) <$> failed))).

Definition delete_picked (sids : list string) : Cmd N :=
  up ← probe;
  if negb up then say (daemon_down);; ret FAILURE
  else
    df ← delete_each sids [] [];
    let '(code, ls) := cleanup_summary df.1 df.2 in say_all ls;; ret code.

(** From the end of the list on; the exit code [130] is that of an interrupt. *)
Definition after_picking (yes : bool) (picked : Picked) : Cmd (option N) :=
  match picked with
  | Waiting | Confirmed None => ret None
  | Cancelled => say (Prompt crlf);; say (Out "Aborted.");; ret (Some 130%N)
  | Confirmed (Some []) => say (Prompt crlf);; say (Out "No sessions selected.");; ret (Some SUCCESS)
  | Confirmed (Some sids) =>
      say (Prompt crlf);;
      if yes then c ← delete_picked sids; ret (Some c)
      else
        say (Prompt ("Delete " +:+ print_dec (N.of_nat (length sids)) +:+ " session(s)? [y/N] "));;
        l ← read_line;
        match l with
        | Typed line => if is_yes line then c ← delete_picked sids; ret (Some c) else say (Out "Aborted.");; ret (Some SUCCESS)
        | EndOfInput | BadRead => say (Out "Aborted.");; ret (Some SUCCESS)
        end
  end.

(** [sort_unstable_by_key] leaves the order of equal keys open. *)
Context (sort_newest : list (Z * CleanupRow) → list (Z * CleanupRow)).

Definition cleanup_row (now : Z) (s : SessionRow) : Z * CleanupRow :=
  let cwd_raw := cwd_of s in
  (s_updated_at s, mkCleanupRow (s_sid s) (default cwd_raw (Files.path_file_name (Files.path_components cwd_raw)))
                     (format_age (i64 (now - s_updated_at s)) now)).
Definition stopped_rows (sessions : list SessionRow) (now : Z) : list CleanupRow :=
  (sort_newest (cleanup_row now <$> keep (λ s, String.eqb (s_state s) "stopped") sessions)).*2.

(** [None]: still waiting for a key.  [raw_mode] is the error of entering it. *)
Definition session_cleanup (sessions : list SessionRow) (now : Z) (raw_mode : option string) (events : list Event) (yes preselect_all : bool)
  : Cmd (option N) :=
  if negb (stdin_tty term) || negb (stdout_tty term) then
    say (ErrLine (fail "tp session cleanup is interactive; use 'tp session prune' for non-interactive bulk delete"));; ret (Some 1%N)
  else
    match stopped_rows sessions now with
    | [] => say (Out "No stopped sessions to clean up.");; ret (Some SUCCESS)
    | stopped =>
        match raw_mode with
        | Some e => say (ErrLine (fail ("Failed to enable raw mode: " +:+ e)));; ret (Some FAILURE)
        | None =>
            let state := tui_new stopped preselect_all in
            say (Prompt (render_tui_initial state));; say (Prompt crlf);;
            picked ← tui_loop events state;
            after_picking yes picked
        end
    end.
End session.

(** ** Laws *)

Section laws.
Context (to_string : Value → string) (from_slice : bytes → result Value string) (term : Term).
Notation send_request := (send_request to_string from_slice).

(** *** [delete] and [prune] ask once, and only with consent *)

(** A yes at the terminal, on the next line. *)
Definition said_yes (w : World) : Prop := stdin_tty term = true ∧ ∃ line, head (input w) = Some (Typed line) ∧ is_yes line = true.

(** After [m] at most the request [req] went out. *)
Definition asks {A} (req : IpcMessage) (m : Cmd A) : Prop := ∀ w,
  requests (m w).2 = requests w ∨ requests (m w).2 = requests w ++ [req].

Lemma asks_bind_quiet {A B} req (m : Cmd A) (k : A → Cmd B) : silent m → (∀ a, asks req (k a)) → asks req (bind m k).
Proof. intros Hm Hk w. unfold bind. specialize (Hm w). destruct (m w) as [a w']. cbn in Hm. rewrite <- Hm. apply Hk. Qed.
Lemma asks_silent {A} req (m : Cmd A) : silent m → asks req m.
Proof. intros H w. left. apply H. Qed.
Lemma asks_send {A} req (k : result IpcMessage IpcError → Cmd A) : (∀ r, silent (k r)) → asks req (bind (send_request req) k).
Proof.
  intros Hk w. unfold bind. pose proof (send_request_wire to_string from_slice req w) as [H _]. destruct (send_request req w) as [r w']. cbn in H.
  rewrite Hk. exact H.
Qed.

Lemma silent_say_then {A} l (m : Cmd A) : silent m → silent (bind (say l) (λ _, m)).
Proof. intros H. by apply silent_bind; [|intros _]. Qed.
Lemma silent_say_all_then {A} ls (m : Cmd A) : silent m → silent (bind (say_all ls) (λ _, m)).
Proof. intros H. apply silent_bind; [auto with cmd|intros _; done]. Qed.
Hint Resolve silent_say_then silent_say_all_then asks_silent : cmd.

(** A question on one line, whose answer decides. *)
Lemma ask_consent {A} req q (k : LineRead → Cmd A) w :
  (∀ l, (∀ line, l = Typed line → is_yes line = false) → silent (k l)) → (∀ line, asks req (k (Typed line))) →
  let w' := (bind (say q) (λ _, bind read_line k) w).2 in
  requests w' = requests w ∨ requests w' = requests w ++ [req] ∧ ∃ line, head (input w) = Some (Typed line) ∧ is_yes line = true.
Proof.
  intros Hs Hk. cbn zeta. unfold bind, say, read_line. cbn [input network asked requests printed].
  destruct (input w) as [|[line| |] r]; try (left; by rewrite Hs).
  destruct (is_yes line) eqn:Ey; [|left; rewrite Hs; [done|by intros ? [= <-]]].
  match goal with |- context [k (Typed line) ?x] => destruct (Hk line x) as [H|H] end; rewrite H; [by left|].
  right. split; [done|]. by exists line.
Qed.

(** [tp session delete] sends the daemon at most one request, to delete the one session
    the prefix means, and only when [--yes] was given or a yes was typed at a terminal. *)
Theorem delete_needs_consent candidates prefix yes w :
  let w' := (session_delete to_string from_slice term candidates prefix yes w).2 in
  requests w' = requests w ∨
  ∃ row, requests w' = requests w ++ [SessionDelete (s_sid row)] ∧ row ∈ candidates ∧
    (s_sid row = prefix ∨ ∀ c, c ∈ candidates → starts_with prefix (s_sid c) = true → c = row) ∧
    (yes = true ∨ said_yes w).
Proof.
  cbn zeta. unfold session_delete. destruct (match_sessions candidates prefix) as [|row|l] eqn:Em.
  - left. apply silent_say_all_then. apply quiet_silent, quiet_ret.
  - destruct (match_sessions_one _ _ _ Em) as (Hin & _ & Hone). set (confirmed := bind probe _).
    assert (asks (SessionDelete (s_sid row)) confirmed) as Hc.
    { apply asks_bind_quiet; [auto with cmd|]. intros []; cbn [negb]; [|apply asks_silent, silent_say_then, quiet_silent, quiet_ret].
      apply asks_send. intros [[]|e]; try (apply silent_say_then, quiet_silent, quiet_ret).
      apply silent_bind; [auto with cmd|]. intros _. destruct was_running; apply silent_bind; auto with cmd. }
    destruct yes; [destruct (Hc w); [by left|right; exists row; eauto]|].
    destruct (stdin_tty term) eqn:Et; cbn [negb]; [|left; apply silent_say_then; auto with cmd].
    match goal with |- context [bind (say ?q) (λ _, bind read_line ?k)] => destruct (ask_consent (SessionDelete (s_sid row)) q k w) as [H|[H Hy]] end.
    + intros [line| |] Hl; try (apply silent_say_then; auto with cmd). rewrite (Hl line eq_refl). apply silent_say_then; auto with cmd.
    + intros line. destruct (is_yes line); [done|]. apply asks_silent, silent_say_then; auto with cmd.
    + by left.
    + right. exists row. split_and!; try done. by right.
  - left. apply silent_say_all_then. auto with cmd.
Qed.

Lemma prompt_text_input q w : let '(s, w') := prompt_text q w in requests w' = requests w ∧ input w' = drop 1 (input w) ∧
  (∀ t, s = Some t → ∃ line, head (input w) = Some (Typed line) ∧ t = trim_end_char cr (trim_end_char lf line)).
Proof.
  unfold prompt_text, bind, say, read_line, ret. cbn. split; [done|]. split; [done|].
  destruct (input w) as [|[line| |] r]; try done. intros t [= <-]. by exists line.
Qed.

(** The word was typed within the attempts. *)
Definition said_running (l : list LineRead) : Prop :=
  ∃ pre line rest, l = pre ++ Typed line :: rest ∧ length pre < MAX_ATTEMPTS ∧
    trim (trim_end_char cr (trim_end_char lf line)) = "RUNNING".

Lemma challenge_spec more attempt w : let '(b, w') := challenge term more attempt w in
  requests w' = requests w ∧
  (b = true → ∃ pre line rest, input w = pre ++ Typed line :: rest ∧ length pre < more ∧ trim (trim_end_char cr (trim_end_char lf line)) = "RUNNING").
Proof.
  revert attempt w. induction more as [|more IH]; intros attempt w; [done|]. cbn [challenge].
  match goal with |- context [bind (prompt_text ?x) _] => set (q := x) end. unfold bind at 1. pose proof (prompt_text_input q w) as H.
  destruct (prompt_text q w) as [[s|] w'] eqn:Ep; destruct H as (H1 & H2 & H3); [|done].
  destruct (H3 s eq_refl) as (line & Hh & Hs). destruct (String.eqb_spec (trim s) "RUNNING") as [E|E].
  - split; [done|]. intros _. destruct (input w) as [|l rest]; [done|]. injection Hh as ->. exists [], line, rest. cbn. subst s. split_and!; [done|lia|done].
  - unfold bind at 1, say. match goal with |- context [challenge term more ?a ?x] => specialize (IH a x); destruct (challenge term more a x) as [b w''] end.
    destruct IH as [I1 I2]. cbn [requests input] in *. split; [congruence|]. intros Hb. destruct (I2 Hb) as (pre & line' & rest & Hi & Hl & Hr).
    destruct (input w) as [|l tl]; [done|]. cbn in H2. rewrite drop_0 in H2. exists (l :: pre), line', rest. cbn. split_and!; [by rewrite <- H2, Hi|lia|done].
Qed.

(** Consent to prune: nothing is deleted, or [--yes], or a yes at a terminal, and for
    running sessions the word as well. *)
Definition prune_consent (opts : PruneOpts) (w : World) : Prop :=
  dry_run opts = true ∨ opt_yes opts = true ∨ said_yes w ∧ (running opts = true → said_running (drop 1 (input w))).

Lemma prune_gates_spec opts w : let '(g, w') := prune_gates term opts w in
  requests w' = requests w ∧ (g = None → prune_consent opts w).
Proof.
  unfold prune_gates, prune_consent. destruct (dry_run opts); [by split; [|left]|]. destruct (opt_yes opts); [by split; [|right; left]|]. cbn [negb andb].
  destruct (stdin_tty term) eqn:Et; cbn [negb]; [|done]. match goal with |- context [bind (prompt_yes_no ?q) _] => unfold bind at 1; pose proof (prompt_yes_spec q w) as H;
    destruct (prompt_yes_no q w) as [y w'] end. destruct H as (H1 & H2 & H3).
  destruct y; cbn [negb]; [|done]. specialize (H3 eq_refl). assert (said_yes w) as Hy by done.
  destruct (running opts); [|split; [done|]; intros _; by right; right]. unfold bind at 1. pose proof (challenge_spec MAX_ATTEMPTS 1 w') as Hc.
  destruct (challenge term MAX_ATTEMPTS 1 w') as [[] w'']; destruct Hc as [C1 C2].
  - split; [by cbn; rewrite C1|]. intros _. right; right. split; [done|]. intros _. unfold said_running. rewrite <- H2. by apply C2.
  - unfold bind, say, ret. cbn. split; [by rewrite C1|done].
Qed.

(** [tp session prune] sends at most one request, for the age and the sessions the
    options say; unless it is a dry run it goes out only after [--yes] or a yes at a
    terminal, and to kill running sessions only after the word was typed too. *)
Theorem prune_needs_consent opts w :
  let w' := (session_prune to_string from_slice term opts w).2 in
  requests w' = requests w ∨
  ∃ age, prune_age opts = Ok age ∧ requests w' = requests w ++ [SessionPrune age (running opts) (dry_run opts)] ∧
    prune_consent opts w ∧ (∀ ms, age = OlderThan ms → (0 < ms ≤ u64_max)%N).
Proof.
  cbn zeta. remember (requests (session_prune to_string from_slice term opts w).2) as rq eqn:E. revert E. unfold session_prune.
  destruct (prune_age opts) as [age|e] eqn:Ea; [|intros ->; left; apply silent_say_then; auto with cmd].
  assert (∀ ms, age = OlderThan ms → (0 < ms ≤ u64_max)%N) as Hms.
  { intros ms ->. unfold prune_age in Ea. destruct (all opts); [done|].
    destruct (parse_duration (older_than_raw opts)) as [m|] eqn:Ed; [|done]. injection Ea as <-. by eapply parse_duration_bounds. }
  unfold bind at 1. pose proof (prune_gates_spec opts w) as Hg. destruct (prune_gates term opts w) as [[c|] w1]; destruct Hg as [G1 G2]; [intros ->; by left|].
  match goal with |- context [snd (?m w1)] => assert (asks (SessionPrune age (running opts) (dry_run opts)) m) as Hm end.
  { apply asks_bind_quiet; [auto with cmd|]. intros []; cbn [negb]; [|apply asks_silent, silent_say_then; auto with cmd].
    apply asks_send. intros [reply|e]; [|apply silent_say_then; auto with cmd]. destruct (prune_reply term reply). apply silent_say_all_then. auto with cmd. }
  intros ->. destruct (Hm w1) as [H|H]; rewrite H, G1; [by left|right]. exists age. split_and!; [done|done|by apply G2|done].
Qed.

(** *** The list of [cleanup] *)

(** What the keys mean, said without the program's set of indices: where the cursor
    is, and for each row whether it is marked. *)
Definition key_meaning (n : nat) (k : KeyCode) (s : nat * list bool) : nat * list bool :=
  let '(c, marks) := s in
  let pressed x := is_char x k in
  if match k with KUp => true | _ => pressed "k" end then (c - 1, marks)
  else if match k with KDown => true | _ => pressed "j" end then (Nat.min (c + 1) (n - 1), marks)
  else if pressed " " then (c, alter negb c marks)
  else if pressed "a" then (c, replicate n (negb (forallb id marks)))
  else (c, marks).

(** The marks when Enter is pressed, if the choice does not end otherwise before. *)
Fixpoint marks_at_enter (n : nat) (events : list Event) (s : nat * list bool) : option (list bool) :=
  match events with
  | [] | EventError :: _ => None
  | NotAKey :: events => marks_at_enter n events s
  | Key KEsc _ :: _ => None
  | Key KEnter _ :: _ => Some s.2
  | Key k control :: events =>
      if is_char "c" k && control then None else marks_at_enter n events (key_meaning n k s)
  end.

(** The sessions marked, in the order of the list. *)
Definition marked (sids : list string) (marks : list bool) : list string := (filter (λ p, p.2 = true) (zip sids marks)).*1.

Definition choice (sids : list string) (events : list Event) (preselect_all : bool) : list string :=
  match marks_at_enter (length sids) events (0, replicate (length sids) preselect_all) with
  | Some marks => marked sids marks
  | None => []
  end.

(** The cursor and the selection are in the list. *)
Definition tui_ok (t : TuiState) : Prop := cursor t < length (rows t) ∧ ∀ i, i ∈ selected t → i < length (rows t).

Lemma elem_of_indices n i : i ∈ indices n ↔ i < n.
Proof. unfold indices. rewrite elem_of_list_to_set, elem_of_seq. lia. Qed.

Lemma tui_new_ok r b : r ≠ [] → tui_ok (tui_new r b).
Proof.
  intros H. split; [by destruct r; [|cbn; lia]|]. intros i. unfold tui_new. cbn. destruct b; [by intros ?%elem_of_indices|by intros ?%elem_of_empty].
Qed.

Lemma on_key_ok k t t' : tui_ok t → on_key k t = Some t' → tui_ok t' ∧ rows t' = rows t.
Proof.
  intros [Hc Hs] H.
  assert (t' = move_up t ∨ t' = move_down t ∨ t' = toggle_current t ∨ t' = toggle_all t) as Ht.
  { unfold on_key in H. destruct k; repeat (match type of H with context [if ?b then _ else _] => destruct b end); simplify_eq; auto. }
  destruct Ht as [->|[->|[->| ->]]].
  - unfold move_up. case_decide; [|done]. split; [|done]. split; cbn; [lia|done].
  - unfold move_down. case_decide; [|done]. split; [|done]. split; cbn; [lia|done].
  - split; [|done]. split; [done|]. cbn. intros i. case_decide; [by intros [? _]%elem_of_difference; apply Hs|].
    intros [Hi|Hi]%elem_of_union; [by apply Hs|]. by apply elem_of_singleton in Hi as ->.
  - split; [|done]. split; [done|]. cbn. intros i. case_decide; [by intros ?%elem_of_empty|by intros ?%elem_of_indices].
Qed.

Lemma marked_sublist sids marks : marked sids marks `sublist_of` sids.
Proof.
  revert marks. induction sids as [|x sids IH]; intros [|b marks]; [done|done|apply sublist_nil_l|].
  unfold marked. cbn [zip zip_with]. rewrite filter_cons. case_decide; cbn [fmap list_fmap]; constructor; apply IH.
Qed.

(** The list's state is the meaning of the keys so far. *)
Definition means (t : TuiState) (s : nat * list bool) : Prop :=
  s.1 = cursor t ∧ s.2 = (λ i, bool_decide (i ∈ selected t)) <$> seq 0 (length (rows t)).

Lemma means_new r b : means (tui_new r b) (0, replicate (length r) b).
Proof.
  split; [done|]. cbn [tui_new selected rows snd]. apply list_eq. intros i.
  destruct (decide (i < length r)) as [Hi|Hi].
  - rewrite lookup_replicate_2, list_lookup_fmap, lookup_seq_lt by done. cbn. f_equal. symmetry.
    destruct b; [apply bool_decide_eq_true_2; by apply elem_of_indices|apply bool_decide_eq_false_2; set_solver +].
  - rewrite (lookup_ge_None_2 (replicate _ _)), list_lookup_fmap, lookup_seq_ge by (rewrite ?length_replicate; lia). done.
Qed.

Lemma all_selected t : tui_ok t →
  forallb id ((λ i, bool_decide (i ∈ selected t)) <$> seq 0 (length (rows t))) = bool_decide (size (selected t) = length (rows t)).
Proof.
  intros [_ Hs]. assert (selected t ⊆ indices (length (rows t))) as Hsub by (intros i Hi; apply elem_of_indices; by apply Hs).
  assert (size (indices (length (rows t))) = length (rows t)) as Hn.
  { unfold indices. rewrite size_list_to_set by apply NoDup_seq. apply length_seq. }
  apply eq_true_iff_eq. rewrite forallb_forall, bool_decide_eq_true. split.
  - intros H. apply Nat.le_antisymm; [rewrite <-Hn; by apply subseteq_size|]. rewrite <-Hn. apply subseteq_size.
    intros i Hi%elem_of_indices. assert (bool_decide (i ∈ selected t) = true) as Hb; [|by apply bool_decide_eq_true_1 in Hb].
    apply H, list_elem_of_In, list_elem_of_fmap. exists i. split; [done|]. apply elem_of_seq. lia.
  - intros E x Hx%list_elem_of_In. apply list_elem_of_fmap in Hx as (i & -> & Hi%elem_of_seq). apply bool_decide_eq_true_2.
    rewrite (set_subseteq_size_eq _ _ Hsub) by lia. apply elem_of_indices. lia.
Qed.

Lemma key_means k t s : tui_ok t → means t s → k ≠ KEsc → k ≠ KEnter →
  means (default t (on_key k t)) (key_meaning (length (rows t)) k s).
Proof.
  intros Hok [E1 E2] Hn1 Hn2. destruct s as [c marks]. cbn in E1, E2. subst c marks. destruct Hok as [Hc Hs].
  assert (means (move_up t) (cursor t - 1, (λ i, bool_decide (i ∈ selected t)) <$> seq 0 (length (rows t)))) as Hup.
  { unfold move_up. case_decide; [done|]. split; [cbn; lia|done]. }
  assert (means (move_down t) (Nat.min (cursor t + 1) (length (rows t) - 1), (λ i, bool_decide (i ∈ selected t)) <$> seq 0 (length (rows t)))) as Hdn.
  { unfold move_down. case_decide; (split; [cbn; lia|done]). }
  assert (means (toggle_current t) (cursor t, alter negb (cursor t) ((λ i, bool_decide (i ∈ selected t)) <$> seq 0 (length (rows t))))) as Htc.
  { split; [done|]. cbn [toggle_current selected rows snd]. apply list_eq. intros i. rewrite list_lookup_fmap.
    destruct (decide (i = cursor t)) as [->|Hne].
    - rewrite list_lookup_alter_eq, list_lookup_fmap, lookup_seq_lt by done. cbn. f_equal.
      case_decide as Hin; rewrite ?(bool_decide_eq_true_2 _ Hin), ?(bool_decide_eq_false_2 _ Hin); cbn; symmetry;
        [apply bool_decide_eq_false_2|apply bool_decide_eq_true_2]; set_solver.
    - rewrite list_lookup_alter_ne, list_lookup_fmap by done. destruct (seq 0 (length (rows t)) !! i) as [x|] eqn:Ex; [|done].
      apply lookup_seq in Ex as [-> _]. cbn. f_equal. apply bool_decide_ext. case_decide; set_solver. }
  assert (means (toggle_all t) (cursor t, replicate (length (rows t))
    (negb (forallb id ((λ i, bool_decide (i ∈ selected t)) <$> seq 0 (length (rows t))))))) as Hta.
  { split; [done|]. rewrite all_selected by done. cbn [toggle_all selected rows snd].
    destruct (means_new (rows t) (negb (bool_decide (size (selected t) = length (rows t))))) as [_ E]. cbn in E. rewrite E.
    case_decide as Hd; [rewrite bool_decide_eq_true_2 by done|rewrite bool_decide_eq_false_2 by done]; done. }
  assert (means t (cursor t, (λ i, bool_decide (i ∈ selected t)) <$> seq 0 (length (rows t)))) as Hsame by done.
  unfold on_key, key_meaning. destruct k; try done. cbn [is_char].
  repeat match goal with |- context [if ?b then _ else _] => destruct b eqn:? end; cbn [default from_option id]; done.
Qed.

(** What is confirmed is the marked rows, in the order of the list. *)
Lemma marked_filter (l : list CleanupRow) (P : nat → Prop) `{∀ i, Decision (P i)} o :
  marked (c_sid <$> l) ((λ i, bool_decide (P i)) <$> seq o (length l)) =
  (λ i, from_option c_sid "" (l !! (i - o))) <$> filter P (seq o (length l)).
Proof.
  revert o. induction l as [|x l IH]; intros o; [done|]. cbn [length seq fmap list_fmap]. unfold marked. cbn [zip zip_with].
  rewrite !filter_cons. specialize (IH (S o)). unfold marked in IH. cbn [snd].
  assert ((λ i, from_option c_sid "" (l !! (i - S o))) <$> filter P (seq (S o) (length l)) =
          (λ i, from_option c_sid "" ((x :: l) !! (i - o))) <$> filter P (seq (S o) (length l))) as E.
  { apply list_fmap_ext. intros k i [_ Hi%elem_of_seq]%list_elem_of_lookup_2%list_elem_of_filter.
    replace (i - o) with (S (i - S o)) by lia. done. }
  rewrite E in IH. destruct (decide (P o)) as [Ho|Ho].
  - rewrite bool_decide_eq_true_2, decide_True by done. cbn [fmap list_fmap fst]. rewrite IH, Nat.sub_diag. done.
  - rewrite bool_decide_eq_false_2, decide_False by done. exact IH.
Qed.

Lemma selected_sids_spec t s : tui_ok t → means t s → selected_sids t = Some (marked (c_sid <$> rows t) s.2).
Proof.
  intros [_ Hs] [_ Em]. rewrite Em, marked_filter. clear Em. unfold selected_sids. set (n := length (rows t)) in *.
  assert (merge_sort (≤) (elements (selected t)) = filter (λ i, i ∈ selected t) (seq 0 n)) as ->.
  { apply (Sorted_unique (≤)).
    - apply Sorted_merge_sort. apply _.
    - apply StronglySorted_Sorted.
      assert (StronglySorted (≤) (seq 0 n)) as H.
      { clear. generalize 0. induction n as [|k IH]; intros s; cbn; constructor; [apply IH|]. apply Forall_forall. intros x. rewrite elem_of_seq. lia. }
      induction H as [|x l H IH Hx]; [constructor|]. rewrite filter_cons. case_decide; [|done]. constructor; [done|].
      apply Forall_forall. intros y [_ Hy]%list_elem_of_filter. rewrite Forall_forall in Hx. by apply Hx.
    - rewrite merge_sort_Permutation. apply NoDup_Permutation; [apply NoDup_elements|apply NoDup_filter, NoDup_seq|].
      intros i. rewrite elem_of_elements, list_elem_of_filter, elem_of_seq. split; [intros Hi; split; [done|specialize (Hs i Hi); lia]|tauto]. }
  assert (∀ l, (∀ i, i ∈ l → i < n) → mapM (λ i, c_sid <$> rows t !! i) l = Some ((λ i, from_option c_sid "" (rows t !! (i - 0))) <$> l)) as Hm.
  { induction l as [|i l IH]; intros Hl; [done|]. cbn. destruct (lookup_lt_is_Some_2 (rows t) i) as [x Hx]; [apply Hl; left|].
    rewrite Nat.sub_0_r, Hx. cbn. by rewrite IH by (intros j Hj; apply Hl; by right). }
  apply Hm. intros i [_ Hi]%list_elem_of_filter. apply elem_of_seq in Hi. lia.
Qed.

Definition still_choosing (events : list Event) : Prop :=
  Forall (λ e, match e with Key KEsc _ | Key KEnter _ | EventError => False | _ => True end) events.

(** How the loop ends, in terms of the marks. *)
Definition loop_ends (sids : list string) (events : list Event) (s : nat * list bool) (r : Picked) : Prop :=
  match r with
  | Waiting => still_choosing events ∧ marks_at_enter (length sids) events s = None
  | Cancelled => marks_at_enter (length sids) events s = None
  | Confirmed o => (∃ ctrl, Key KEnter ctrl ∈ events) ∧
      ∃ marks, marks_at_enter (length sids) events s = Some marks ∧ o = Some (marked sids marks)
  end.

Lemma loop_ends_cons sids e events s s' r :
  match e with Key KEsc _ | Key KEnter _ | EventError => False | _ => True end →
  marks_at_enter (length sids) (e :: events) s = marks_at_enter (length sids) events s' →
  loop_ends sids events s' r → loop_ends sids (e :: events) s r.
Proof.
  unfold loop_ends. intros He ->. destruct r as [| |o]; [|done|].
  - intros [H1 H2]. split; [by constructor|done].
  - intros [[c Hc] H]. split; [exists c; by right|done].
Qed.

(** The loop sends nothing, and ends with the rows that are marked. *)
Lemma tui_loop_spec events t s w : tui_ok t → means t s → let '(r, w') := tui_loop events t w in
  requests w' = requests w ∧ input w' = input w ∧ loop_ends (c_sid <$> rows t) events s r.
Proof.
  revert t s w. induction events as [|e events IH]; intros t s w Ht Hm; [split_and!; [done|done|by split; [constructor|]]|].
  assert (∀ t' s' w1, tui_ok t' → rows t' = rows t → means t' s' → requests w1 = requests w → input w1 = input w →
    match e with Key KEsc _ | Key KEnter _ | EventError => False | _ => True end →
    marks_at_enter (length (c_sid <$> rows t)) (e :: events) s = marks_at_enter (length (c_sid <$> rows t)) events s' →
    let '(r, w') := tui_loop events t' w1 in
    requests w' = requests w ∧ input w' = input w ∧ loop_ends (c_sid <$> rows t) (e :: events) s r) as Hgo.
  { intros t' s' w1 Ht' Hr Hm' E1 E2 He Hk. specialize (IH t' s' w1 Ht' Hm'). destruct (tui_loop events t' w1) as [r w'].
    destruct IH as (I1 & I2 & I3). rewrite Hr in I3. split_and!; [congruence|congruence|]. by eapply loop_ends_cons. }
  destruct e as [code control| |]; cbn [tui_loop]; [|by apply (Hgo t s)|by split_and!].
  assert (∀ k, code = k → k ≠ KEsc → k ≠ KEnter →
    marks_at_enter (length (c_sid <$> rows t)) (Key k control :: events) s =
      (if is_char "c" k && control then None else marks_at_enter (length (c_sid <$> rows t)) events (key_meaning (length (c_sid <$> rows t)) k s)) →
    let '(r, w') := (if is_char "c" k && control then ret Cancelled
      else match on_key k t with
           | Some t => bind (say (Prompt (render_tui t))) (λ _, bind (say (Prompt crlf)) (λ _, tui_loop events t))
           | None => tui_loop events t
           end) w in
    requests w' = requests w ∧ input w' = input w ∧ loop_ends (c_sid <$> rows t) (Key k control :: events) s r) as Hk.
  { intros k <- H1 H2 Hmk. pose proof (key_means code t s Ht Hm H1 H2) as Hn. rewrite <-(length_fmap c_sid) in Hn.
    destruct (is_char "c" code && control) eqn:Ec; [by split_and!|].
    destruct (on_key code t) as [t'|] eqn:Ek; [destruct (on_key_ok _ _ _ Ht Ek)|]; (eapply Hgo; [..|exact Hmk]); try done; by destruct code. }
  destruct code; try (by apply (Hk _ eq_refl)); [by split_and!|]. cbn [ret]. split; [done|]. split; [done|].
  split; [exists control; left|]. exists s.2. split; [done|]. f_equal. by apply selected_sids_spec.
Qed.

(** Every picked session is reported once, as deleted or as failed; when none failed,
    each was asked for. *)
Lemma delete_each_spec sids deleted failed w : let '(df, w') := delete_each to_string from_slice sids deleted failed w in
  (∃ sent, requests w' = requests w ++ (SessionDelete <$> sent) ∧ sent `sublist_of` sids ∧ (df.2 = [] → sent = sids)) ∧
  df.1 ++ df.2.*1 ≡ₚ deleted ++ failed.*1 ++ sids ∧ (df.2 = [] → failed = []).
Proof.
  revert deleted failed w. induction sids as [|sid sids IH]; intros deleted failed w; cbn [delete_each].
  - cbn. split; [exists []; by rewrite app_nil_r|]. by rewrite !app_nil_r.
  - unfold bind at 1. pose proof (send_request_wire to_string from_slice (SessionDelete sid) w) as [Hw _].
    pose proof (send_request_answered to_string from_slice (SessionDelete sid) w) as Ha.
    destruct (send_request (SessionDelete sid) w) as [r w1]. cbn in Hw, Ha.
    assert (∀ sent, requests w1 ++ (SessionDelete <$> sent) = requests w ++ (SessionDelete <$> sent) ∨
                    requests w1 ++ (SessionDelete <$> sent) = requests w ++ (SessionDelete <$> (sid :: sent))) as Hsent.
    { intros sent. destruct Hw as [->| ->]; [by left|right]. by rewrite <- app_assoc. }
    assert (delete_outcome sid r = None ∧ (∃ m, r = Ok m) ∨ ∃ e, delete_outcome sid r = Some (sid, e)) as [[E [m Em]]|[e E]]
      by (destruct r as [[]|]; cbn; eauto).
    + rewrite E. specialize (IH (deleted ++ [sid]) failed w1). destruct (delete_each _ _ sids _ _ w1) as [df w2].
      destruct IH as ((sent & I1 & I2 & I3) & I4 & I5). split; [|split; [rewrite I4; solve_Permutation|done]].
      exists (sid :: sent). split; [rewrite I1, (Ha m Em), <-app_assoc; done|]. split; [by constructor|].
      intros Hf. by rewrite (I3 Hf).
    + rewrite E. specialize (IH deleted (failed ++ [(sid, e)]) w1). destruct (delete_each _ _ sids _ _ w1) as [df w2].
      destruct IH as ((sent & I1 & I2 & I3) & I4 & I5). split; [|split; [rewrite I4, fmap_app; cbn; solve_Permutation|]].
      2: { intros Hf. apply I5 in Hf. by destruct failed. }
      assert (df.2 ≠ []) as Hne by (intros Hf; apply I5 in Hf; by destruct failed).
      destruct (Hsent sent) as [E'|E']; [exists sent|exists (sid :: sent)]; (split; [by rewrite I1|split; [by constructor|done]]).
Qed.
Lemma delete_picked_spec sids w : let '(c, w') := delete_picked to_string from_slice term sids w in
  ∃ sent, requests w' = requests w ++ (SessionDelete <$> sent) ∧ sent `sublist_of` sids ∧ (c = SUCCESS → sent = sids).
Proof.
  unfold delete_picked, bind at 1, probe. destruct (is_daemon_running _); cbn [negb]; [|exists []; split; [by rewrite app_nil_r|split; [apply sublist_nil_l|done]]].
  unfold bind at 1. match goal with |- context [delete_each _ _ sids [] [] ?x] => pose proof (delete_each_spec sids [] [] x) as H;
    destruct (delete_each _ _ sids [] [] x) as [df w1] end.
  destruct H as ((sent & H1 & H2 & H3) & _).
  assert ((cleanup_summary term df.1 df.2).1 = SUCCESS → df.2 = []) as Hc by (cbn; by case_bool_decide).
  destruct (cleanup_summary term df.1 df.2) as [c ls]. cbn in Hc.
  unfold bind. pose proof (quiet_say_all ls w1) as [Hq _]. destruct (say_all ls w1) as [u w2]. exists sent. cbn in *.
  split; [by rewrite Hq, H1|]. split; [done|]. intros E. by apply H3, Hc.
Qed.

(** What was picked, when it was confirmed. *)
Definition picked_sids (p : Picked) : list string := match p with Confirmed (Some sids) => sids | _ => [] end.

Lemma after_picking_spec yes picked w : let '(r, w') := after_picking to_string from_slice term yes picked w in
  ∃ sent, requests w' = requests w ++ (SessionDelete <$> sent) ∧ sent `sublist_of` picked_sids picked ∧
    (sent = [] ∨ yes = true ∨ ∃ line, head (input w) = Some (Typed line) ∧ is_yes line = true) ∧
    (r = Some SUCCESS → yes = true ∨ (∃ line, head (input w) = Some (Typed line) ∧ is_yes line = true) → sent = picked_sids picked) ∧
    (r = None → picked = Waiting ∨ picked = Confirmed None).
Proof.
  assert (∀ w' (r : option N), requests w' = requests w → (r = Some SUCCESS → picked_sids picked = []) →
    (r = None → picked = Waiting ∨ picked = Confirmed None) →
    ∃ sent, requests w' = requests w ++ (SessionDelete <$> sent) ∧ sent `sublist_of` picked_sids picked ∧
    (sent = [] ∨ yes = true ∨ ∃ line, head (input w) = Some (Typed line) ∧ is_yes line = true) ∧
    (r = Some SUCCESS → yes = true ∨ (∃ line, head (input w) = Some (Typed line) ∧ is_yes line = true) → sent = picked_sids picked) ∧
    (r = None → picked = Waiting ∨ picked = Confirmed None)) as Hno.
  { intros w' r E Hs Hr. exists []. split; [by rewrite app_nil_r|]. split; [apply sublist_nil_l|]. split; [by left|].
    split; [intros H _; by rewrite Hs|done]. }
  destruct picked as [| |[sids|]]; cbn [after_picking]; try (apply Hno; auto; done).
  destruct sids as [|s0 sids]; [by apply Hno|]. set (all := s0 :: sids) in *. cbn [picked_sids] in *.
  unfold bind at 1, say. destruct yes.
  - unfold bind. match goal with |- context [delete_picked _ _ _ all ?x] => pose proof (delete_picked_spec all x) as H; destruct (delete_picked _ _ _ all x) as [c w1] end.
    destruct H as (sent & H1 & H2 & H3). exists sent. split_and!; [done|done|by right; left|intros [= ->] _; by apply H3|done].
  - unfold bind at 1. cbn [input network asked requests printed]. unfold bind at 1, read_line. cbn [input network asked requests printed].
    assert (∀ (r : option N) w', requests w' = requests w → r ≠ None → (∀ line, head (input w) = Some (Typed line) → is_yes line = true → False) →
      ∃ sent, requests w' = requests w ++ (SessionDelete <$> sent) ∧ sent `sublist_of` all ∧
      (sent = [] ∨ false = true ∨ ∃ line, head (input w) = Some (Typed line) ∧ is_yes line = true) ∧
      (r = Some SUCCESS → false = true ∨ (∃ line, head (input w) = Some (Typed line) ∧ is_yes line = true) → sent = all) ∧
      (r = None → Confirmed (Some all) = Waiting ∨ Confirmed (Some all) = Confirmed None)) as Hsaid.
    { intros r w' E Hr Hl. exists []. split; [by rewrite app_nil_r|]. split; [apply sublist_nil_l|]. split; [by left|].
      split; [|done]. intros _ [|(line & H1 & H2)]; [done|]. by destruct (Hl line H1 H2). }
    destruct (input w) as [|[line| |] rest] eqn:Ei; try (by apply Hsaid).
    destruct (is_yes line) eqn:Ey; [|by apply Hsaid; [| |intros l [= ->]; rewrite Ey]].
    unfold bind. match goal with |- context [delete_picked _ _ _ all ?x] => pose proof (delete_picked_spec all x) as H; destruct (delete_picked _ _ _ all x) as [c w1] end.
    destruct H as (sent & H1 & H2 & H3). exists sent. split_and!; [done|done| |intros [= ->] _; by apply H3|done].
    right; right. by exists line.
Qed.

Context (sort_newest : list (Z * CleanupRow) → list (Z * CleanupRow)).

Lemma stopped_rows_stopped sessions now sid : (∀ l, sort_newest l ≡ₚ l) → sid ∈ c_sid <$> stopped_rows sort_newest sessions now →
  ∃ s, s ∈ sessions ∧ s_sid s = sid ∧ s_state s = "stopped".
Proof.
  intros Hsort (row & -> & Hr)%list_elem_of_fmap. unfold stopped_rows in Hr. apply list_elem_of_fmap in Hr as (x & -> & Hx).
  rewrite Hsort in Hx. apply list_elem_of_fmap in Hx as (s & -> & Hs). apply keep_elem in Hs as [H1%String.eqb_eq H2]. by exists s.
Qed.

(** C38. [tp session cleanup] deletes the sessions that are marked when Enter is pressed
    and no others.  The marks are what the keys say: none, or all, to begin with; up and
    down (or k and j) move the cursor within the list, a space flips the mark under it,
    [a] marks all or, when all are marked, none; Escape, Ctrl-C or a broken terminal end
    the choice with nothing.  Only sessions with the state [stopped] are on the list;
    each marked one is asked for at most once and in the order of the list, and when the
    command reports success with consent given, every one of them was.  Nothing is asked
    for unless both ends are terminals and after [--yes] or a typed yes; and the command
    waits only while no key has ended the choice. *)
Theorem cleanup_deletes_picked sessions now raw_mode events yes preselect_all w : (∀ l, sort_newest l ≡ₚ l) →
  let '(r, w') := session_cleanup to_string from_slice term sort_newest sessions now raw_mode events yes preselect_all w in
  let listed := c_sid <$> stopped_rows sort_newest sessions now in
  let picked := choice listed events preselect_all in
  ∃ sent, requests w' = requests w ++ (SessionDelete <$> sent) ∧ sent `sublist_of` picked ∧
    (r = Some SUCCESS → yes = true ∨ said_yes w → sent = picked) ∧
    (∀ sid, sid ∈ sent → ∃ s, s ∈ sessions ∧ s_sid s = sid ∧ s_state s = "stopped") ∧
    (sent ≠ [] → stdin_tty term = true ∧ stdout_tty term = true ∧ (yes = true ∨ said_yes w) ∧ ∃ ctrl, Key KEnter ctrl ∈ events) ∧
    (r = None → still_choosing events).
Proof.
  intros Hsort. unfold session_cleanup. set (listed := c_sid <$> stopped_rows sort_newest sessions now).
  assert (∀ (r : option N) w', requests w' = requests w → (r = Some SUCCESS → choice listed events preselect_all = []) →
    (r = None → still_choosing events) →
    ∃ sent, requests w' = requests w ++ (SessionDelete <$> sent) ∧ sent `sublist_of` choice listed events preselect_all ∧
    (r = Some SUCCESS → yes = true ∨ said_yes w → sent = choice listed events preselect_all) ∧
    (∀ sid, sid ∈ sent → ∃ s, s ∈ sessions ∧ s_sid s = sid ∧ s_state s = "stopped") ∧
    (sent ≠ [] → stdin_tty term = true ∧ stdout_tty term = true ∧ (yes = true ∨ said_yes w) ∧ ∃ ctrl, Key KEnter ctrl ∈ events) ∧
    (r = None → still_choosing events)) as Hnone.
  { intros r w' E Hs Hr. exists []. split_and!; [by rewrite app_nil_r|apply sublist_nil_l|intros H _; by rewrite Hs|by intros ? ?%elem_of_nil|done|done]. }
  destruct (stdin_tty term) eqn:Et; cbn [negb orb]; [|by apply (Hnone (Some 1%N))].
  destruct (stdout_tty term) eqn:Eo; cbn [negb]; [|by apply (Hnone (Some 1%N))].
  pose proof (λ sid, stopped_rows_stopped sessions now sid Hsort) as Hst.
  destruct (stopped_rows sort_newest sessions now) as [|row0 rows0] eqn:Er.
  { apply (Hnone (Some SUCCESS)); [done| |done]. intros _. unfold choice. cbn [listed fmap list_fmap length]. by destruct (marks_at_enter _ _ _). }
  destruct raw_mode as [e|]; [by apply (Hnone (Some FAILURE))|]. set (stopped := row0 :: rows0) in *.
  unfold bind at 1, say. unfold bind at 1. cbn [input network asked requests printed]. unfold bind at 1.
  match goal with |- context [tui_loop events ?t ?x] => pose proof (tui_loop_spec events t _ x (tui_new_ok stopped preselect_all ltac:(done)) (means_new stopped preselect_all)) as H;
    destruct (tui_loop events t x) as [p w1] end.
  destruct H as (H1 & H2 & H3). cbn [requests input rows tui_new] in *. fold listed in H3.
  assert (picked_sids p = choice listed events preselect_all) as Hp.
  { assert (length listed = length stopped) as Hl by apply length_fmap. unfold choice, loop_ends in *. rewrite Hl in *.
    destruct p as [| |o]; [by destruct H3 as [_ ->]|by rewrite H3|]. by destruct H3 as (_ & marks & -> & ->). }
  pose proof (after_picking_spec yes p w1) as Ha. destruct (after_picking to_string from_slice term yes p w1) as [r w2].
  destruct Ha as (sent & A1 & A2 & A3 & A4 & A5). rewrite Hp in A2, A4. rewrite H2 in A3, A4.
  assert ((∃ line, head (input w) = Some (Typed line) ∧ is_yes line = true) → said_yes w) as Hy by done.
  exists sent. split; [by rewrite A1, H1|]. split; [done|]. split; [|split; [|split]].
  - intros Hr [Hc|[_ Hc]]; apply A4; auto.
  - intros sid Hsid. apply Hst. fold listed. eapply elem_of_submseteq; [exact Hsid|]. apply sublist_submseteq.
    etrans; [exact A2|]. unfold choice. destruct (marks_at_enter _ _ _); [|apply sublist_nil_l].
    apply marked_sublist.
  - intros Hne. split; [done|]. split; [done|]. split; [destruct A3 as [->|[|]]; auto; done|].
    rewrite <-Hp in A2. destruct p as [| |o]; [by apply sublist_nil_r in A2..|apply H3].
  - intros Hr. destruct (A5 Hr) as [-> | ->]; [apply H3|]. by destruct H3 as (_ & marks & _ & ?).
Qed.
End laws.
