(* ===== verification/PairCmd.v ===== *)
(** * PairCmd: [tp pair list | delete | rename] ([tp-cli/commands/pair.rs]).
    Listing reads the store: its rows are given. *)
From stdpp Require Import base list numbers strings.
From Stdlib Require Import Lia NArith ZArith Ascii.
From S2P Require Import Prelude Bytes Text Chars Lines Json Label Ipc CliIpc CliText CliArgs CliCmd SessionCmd.
Local Open Scope cmd_scope.

Section pair.
(** [to_lowercase] is [str]'s, [debug] the derived [Debug] of a message. *)
Context (to_string : Value → string) (from_slice : bytes → result Value string) (to_lowercase : string → string)
        (debug : IpcMessage → string) (term : Term).
Notation dim := (CliText.dim (colours term)).
Notation fail := (fail_msg (colours term)).
Notation ok := (ok_msg (colours term)).
Notation send_request := (send_request to_string from_slice).

(** ** [list] *)

Definition pair_label (p : PairingRow) : string := sanitize_label_for_display (default "" (p_label p)).
Definition char_column (min : nat) (values : list string) : nat := foldr max min (chars_count <$> values).

Definition pair_list_lines (pairings : list PairingRow) (now : Z) : list string :=
  match pairings with
  | [] => ["No pairings registered."; ""; "Create one with: tp pair new"]
  | _ =>
      let label_w := char_column 5 (pair_label <$> pairings) in
      let id_w := char_column 9 (p_daemon_id <$> pairings) in
      let relay_w := char_column 5 (p_relay_url <$> pairings) in
      (pad_end "LABEL" label_w +:+ "  " +:+ pad_end "DAEMON ID" id_w +:+ "  " +:+ pad_end "RELAY" relay_w +:+ "  CREATED") ::
      ((λ p, pad_end (pair_label p) label_w +:+ "  " +:+ pad_end (p_daemon_id p) id_w +:+ "  " +:+ pad_end (p_relay_url p) relay_w +:+ "  " +:+
             format_age (i64 (now - p_created_at p)) now) <$> pairings)
  end.
Definition pair_list (pairings : list PairingRow) (now : Z) : Cmd N :=
  say_all (Out <$> pair_list_lines pairings now);; ret SUCCESS.

(** ** Shared by [delete] and [rename] *)

Definition no_pairing (candidates : list PairingRow) (prefix : string) : list Line :=
  ErrLine (fail ("No pairing matches '" +:+ prefix +:+ "'.")) ::
  match candidates with
  | [] => []
  | _ => ErrLine (dim "Known daemon IDs:") :: ((λ c, ErrLine (dim ("  " +:+ p_daemon_id c))) <$> candidates)
  end.
Definition ambiguous_pairing (what : string) (matches : list PairingRow) : list Line :=
  ErrLine (fail what) :: ((λ m, ErrLine ("  " +:+ p_daemon_id m +:+ "  " +:+ p_relay_url m)) <$> matches).

Definition pair_suffix (message : option string) : string := match message with Some m => " — " +:+ m | None => "" end.
Definition request_failed (what : string) (e : IpcError) : Line :=
  ErrLine (fail (match e with DaemonDown => IpcError_text e | _ => what +:+ " failed: " +:+ IpcError_text e end)).
Definition notified (peers : N) : list Line :=
  if (0 <? peers)%N then [Out (dim ("Notified " +:+ print_dec peers +:+ " frontend(s)."))] else [].

(** ** [delete] *)

Definition delete_usage : Line := ErrLine (fail "Usage: tp pair delete <daemon-id> [--yes]").

(** The flag and the positionals, or the option nobody knows. *)
Fixpoint delete_args (args : list string) (yes : bool) (positionals : list string) : result (bool * list string) string :=
  match args with
  | [] => Ok (yes, positionals)
  | arg :: args =>
      if String.eqb arg "--yes" || String.eqb arg "-y" then delete_args args true positionals
      else if starts_with "-" arg then Err arg
      else delete_args args yes (positionals ++ [arg])
  end.

Definition remove_reply (reply : IpcMessage) : N * list Line :=
  match reply with
  | PairRemoveOk daemon_id notified_peers => (SUCCESS, Out (ok ("Deleted pairing " +:+ daemon_id)) :: notified notified_peers)
  | PairRemoveErr _ reason message =>
      (FAILURE, [ErrLine (fail ("Pair delete failed: " +:+ IpcPairRemoveErrReason_to_str reason +:+ pair_suffix message))])
  | other => (FAILURE, [ErrLine (fail ("Pair delete failed: unexpected response discriminant " +:+ debug other))])
  end.

Definition pair_delete (candidates : list PairingRow) (args : list string) : Cmd N :=
  match delete_args args false [] with
  | Err arg => say (ErrLine (fail ("Unknown option: " +:+ arg)));; say delete_usage;; ret FAILURE
  | Ok (_, []) | Ok (_, _ :: _ :: _) => say delete_usage;; ret FAILURE
  | Ok (yes, [prefix]) =>
      match match_pairings to_lowercase candidates prefix with
      | NoMatch => say_all (no_pairing candidates prefix);; ret FAILURE
      | Ambiguous matches => say_all (ambiguous_pairing ("'" +:+ prefix +:+ "' is ambiguous. Candidates:") matches);; ret FAILURE
      | One target =>
          let confirmed : Cmd N :=
            (r ← send_request (PairRemove (p_daemon_id target));
             match r with
             | Err e => say (request_failed "Pair delete" e);; ret FAILURE
             | Ok reply => say_all (remove_reply reply).2;; ret (remove_reply reply).1
             end) in
          if yes then confirmed
          else if negb (stdin_tty term) then say (ErrLine (fail "Refusing to delete without confirmation — pass --yes."));; ret FAILURE
          else
            y ← prompt_yes_no ("Delete pairing for " +:+ p_daemon_id target +:+ " (relay " +:+ p_relay_url target +:+ ")?");
            if negb y then say (Out "Aborted.");; ret SUCCESS else confirmed
      end
  end.

(** ** [rename] *)

Definition pair_usage : list Line := Out <$> [
  ""; "tp pair — manage mobile app pairings"; ""; "Usage:";
  "  tp pair [--relay URL]                        Alias for 'tp pair new'";
  "  tp pair new [--relay URL] [--label <name>]   Generate a QR and BLOCK until the";
  "                                               mobile app scans it (Ctrl+C to cancel).";
  "                                               Auto-starts the daemon if needed.";
  "  tp pair list                                 List registered (completed) pairings";
  "  tp pair rename <daemon-id> <label...>        Rename a pairing (prefix match)";
  "  tp pair delete <daemon-id> [-y]              Delete a pairing (prefix match allowed)"; ""].
Definition rename_usage : Line := ErrLine (fail "Usage: tp pair rename <daemon-id-prefix> <label...>").

(** The positionals; or an early end: help, or an option nobody knows. *)
Fixpoint rename_args (args : list string) (positionals : list string) : result (list string) (N * list Line) :=
  match args with
  | [] => Ok positionals
  | arg :: args =>
      if String.eqb arg "--help" || String.eqb arg "-h" then Err (SUCCESS, pair_usage)
      else if starts_with "-" arg then Err (FAILURE, [rename_usage])
      else rename_args args (positionals ++ [arg])
  end.

(** [labels.join(" ")], trimmed. *)
Definition rename_label (labels : list string) : Label :=
  let new_label := trim (join " " labels) in
  if String.eqb new_label "" then make_label None else make_label (Some new_label).

Definition rename_reply (reply : IpcMessage) : N * list Line :=
  match reply with
  | PairRenameOk daemon_id label notified_peers =>
      let display := match label_to_nullable label with
                     | None => "(cleared)"
                     | Some v => quoted (sanitize_label_for_display v)
                     end in
      (SUCCESS, Out (ok ("Renamed " +:+ daemon_id +:+ " → " +:+ display)) :: notified notified_peers)
  | PairRenameErr _ reason message =>
      (FAILURE, [ErrLine (fail ("Pair rename failed: " +:+ IpcPairRenameErrReason_to_str reason +:+ pair_suffix message))])
  | other => (FAILURE, [ErrLine (fail ("Pair rename failed: unexpected response discriminant " +:+ debug other))])
  end.

Definition pair_rename (candidates : list PairingRow) (args : list string) : Cmd N :=
  match rename_args args [] with
  | Err (code, ls) => say_all ls;; ret code
  | Ok [] | Ok [_] => say rename_usage;; ret FAILURE
  | Ok (prefix :: labels) =>
      match match_pairings to_lowercase candidates prefix with
      | NoMatch => say_all (no_pairing candidates prefix);; ret FAILURE
      | Ambiguous matches => say_all (ambiguous_pairing ("Prefix '" +:+ prefix +:+ "' is ambiguous. Candidates:") matches);; ret FAILURE
      | One target =>
          r ← send_request (PairRename (p_daemon_id target) (rename_label labels));
          match r with
          | Err e => say (request_failed "Pair rename" e);; ret FAILURE
          | Ok reply => say_all (rename_reply reply).2;; ret (rename_reply reply).1
          end
      end
  end.
End pair.

(** ** Laws *)

Section laws.
Context (to_string : Value → string) (from_slice : bytes → result Value string) (to_lowercase : string → string)
        (debug : IpcMessage → string) (term : Term).

(** The one answer is a candidate of the best tier there is, and alone there. *)
Lemma match_pairings_one cs f r : match_pairings to_lowercase cs f = One r → r ∈ cs ∧
  rank (pairing_tiers to_lowercase f) r < 5 ∧ (∀ c, c ∈ cs → rank (pairing_tiers to_lowercase f) c ≤ rank (pairing_tiers to_lowercase f) r → c = r).
Proof.
  rewrite match_pairings_tiers. destruct (tiers_best (pairing_tiers to_lowercase f) cs) as [[_ ->]|(k & Hk & Hle & Hb & ->)]; [done|].
  set (best := keep _ cs) in *. destruct best as [|x [|y l]] eqn:E; [done| |done]. intros [= ->].
  assert (r ∈ best) as Hr by (rewrite E; left). apply keep_elem in Hr as [Hr%Nat.eqb_eq Hin]. split; [done|].
  split; [by rewrite Hr|]. intros c Hc Hrank.
  assert (c ∈ best) as Hcb by (apply keep_elem; split; [apply Nat.eqb_eq; specialize (Hle c Hc); lia|done]).
  rewrite E in Hcb. by apply list_elem_of_singleton in Hcb.
Qed.

Lemma delete_args_yes args yes pos ps : delete_args args yes pos = Ok (true, ps) → yes = true ∨ "--yes" ∈ args ∨ "-y" ∈ args.
Proof.
  revert yes pos. induction args as [|a args IH]; intros yes pos; cbn [delete_args]; [intros [= ->]; by left|].
  destruct (String.eqb a "--yes" || String.eqb a "-y") eqn:Ey.
  - intros _. right. apply orb_true_iff in Ey as [->%String.eqb_eq| ->%String.eqb_eq]; [left|right]; apply list_elem_of_here.
  - destruct (starts_with "-" a); [done|]. intros [H|[H|H]]%IH; [by left|right; left|right; right]; by apply list_elem_of_further.
Qed.

(** A request and what is said of its reply. *)
Lemma asks_report req what (reply : IpcMessage → N * list Line) :
  asks req (bind (send_request to_string from_slice req) (λ r,
    match r with
    | Err e => bind (say (request_failed term what e)) (λ _, ret FAILURE)
    | Ok m => bind (say_all (reply m).2) (λ _, ret (reply m).1)
    end)).
Proof. apply asks_send. intros [m|e]; [apply silent_say_all_then|apply silent_say_then]; auto with cmd. Qed.

(** [tp pair delete] sends at most one request, to remove the one pairing the argument
    means best, and only when [--yes] was given or a yes typed at a terminal. *)
Theorem pair_delete_needs_consent candidates args w :
  let w' := (pair_delete to_string from_slice to_lowercase debug term candidates args w).2 in
  requests w' = requests w ∨
  ∃ row prefix, requests w' = requests w ++ [PairRemove (p_daemon_id row)] ∧ row ∈ candidates ∧
    (∀ c, c ∈ candidates → rank (pairing_tiers to_lowercase prefix) c ≤ rank (pairing_tiers to_lowercase prefix) row → c = row) ∧
    ("--yes" ∈ args ∨ "-y" ∈ args ∨ said_yes term w).
Proof.
  cbn zeta. unfold pair_delete.
  destruct (delete_args args false []) as [[yes [|prefix [|]]]|a] eqn:Ea; try (left; repeat apply silent_say_then; by auto with cmd).
  destruct (match_pairings to_lowercase candidates prefix) as [|row|l] eqn:Em; try (left; apply silent_say_all_then; by auto with cmd).
  destruct (match_pairings_one _ _ _ Em) as (Hin & _ & Hone). cbv zeta.
  pose proof (asks_report (PairRemove (p_daemon_id row)) "Pair delete" (remove_reply debug term)) as Hc. set (confirmed := bind _ _) in *.
  destruct yes.
  { destruct (Hc w) as [H|H]; [by left|right]. exists row, prefix. split_and!; try done.
    destruct (delete_args_yes _ _ _ _ Ea) as [|[|]]; [done|by left|by right; left]. }
  destruct (stdin_tty term) eqn:Et; cbn [negb]; [|left; by apply silent_say_then; auto with cmd].
  match goal with |- requests ?x = _ ∨ _ => remember x as w2 eqn:E2 end. unfold bind at 1 in E2.
  match type of E2 with context [prompt_yes_no ?q] => pose proof (prompt_yes_spec q w) as H; destruct (prompt_yes_no q w) as [y w'] end.
  destruct H as (H1 & _ & H3). destruct y; cbn [negb] in E2; [|left; by subst w2].
  destruct (Hc w') as [H|H]; rewrite <- E2, H1 in H; [by left|right]. exists row, prefix. split_and!; try done. right; right. by split; [|apply H3].
Qed.

(** [tp pair rename] sends at most one request, to give the one pairing the first
    argument means best the trimmed rest as its label; an empty rest clears it. *)
Lemma pair_rename_asks candidates args w :
  let w' := (pair_rename to_string from_slice to_lowercase debug term candidates args w).2 in
  requests w' = requests w ∨
  ∃ row prefix labels, rename_args term args [] = Ok (prefix :: labels) ∧ labels ≠ [] ∧ row ∈ candidates ∧
    match_pairings to_lowercase candidates prefix = One row ∧
    requests w' = requests w ++ [PairRename (p_daemon_id row) (make_label (Some (join " " labels)))].
Proof.
  cbn zeta. unfold pair_rename.
  destruct (rename_args term args []) as [[|prefix [|l0 labels]]|[code ls]] eqn:Ea; try (left; by first [apply silent_say_then|apply silent_say_all_then]; auto with cmd).
  destruct (match_pairings to_lowercase candidates prefix) as [|row|l] eqn:Em; try (left; apply silent_say_all_then; by auto with cmd).
  destruct (match_pairings_one _ _ _ Em) as (Hin & _ & _).
  destruct (asks_report (PairRename (p_daemon_id row) (rename_label (l0 :: labels))) "Pair rename" (rename_reply debug term) w) as [H|H]; [by left|right].
  exists row, prefix, (l0 :: labels). split_and!; try done. rewrite H. do 3 f_equal. unfold rename_label, make_label. cbv zeta.
  destruct (String.eqb_spec (trim (join " " (l0 :: labels))) "") as [E|E]; [by rewrite decide_True|]. by rewrite trim_idemp.
Qed.
End laws.
