(* ===== verification/PairNew.v ===== *)
(** * PairNew: [tp pair new] ([tp-cli/commands/pair.rs], [osc52.rs], [pair_lock.rs],
    [tui/raw_mode.rs]).
    The main thread waits for messages, the handler of SIGINT and the threads that listen
    for keys share its socket and its pairing id: a run is a sequence of events, each what
    one of them does at once. *)
From stdpp Require Import base list numbers strings gmap.
From Stdlib Require Import Lia NArith ZArith Ascii.
From S2P Require Import Prelude Bytes Text Chars Lines Json Label Ipc CliIpc CliText CliCmd SessionCmd PairCmd.

(** ** The clipboard *)

(** [$TERM], [$TMUX], [$STY], [$TERM_PROGRAM]. *)
Record TermEnv := mkTermEnv { TERM : option string; TMUX : option string; STY : option string; TERM_PROGRAM : option string }.

Definition KNOWN_GOOD_PROGRAMS : list string := ["iTerm.app"; "vscode"; "Apple_Terminal"; "WezTerm"; "ghostty"; "Hyper"].
Definition KNOWN_GOOD_TERMS : list string := ["xterm"; "screen"; "tmux"; "alacritty"; "kitty"].

Definition env_set (v : option string) : bool := match v with Some s => negb (String.eqb s "") | None => false end.
Definition dumb (e : TermEnv) : bool := let term := default "" (TERM e) in String.eqb term "dumb" || String.eqb term "".

Definition is_clipboard_support_likely (stdout_tty : bool) (e : TermEnv) : bool :=
  if negb stdout_tty then false
  else if dumb e then false
  else if env_set (TMUX e) || env_set (STY e) then true
  else if bool_decide (default "" (TERM_PROGRAM e) ∈ KNOWN_GOOD_PROGRAMS) then true
  else if existsb (λ t, starts_with t (default "" (TERM e))) KNOWN_GOOD_TERMS then true
  else true.

Section clipboard.
(** Base64, the standard alphabet. *)
Context (b64_encode : bytes → string).

Fixpoint double_esc (s : string) : string :=
  match s with "" => "" | String a r => if Ascii.eqb a (ascii_of_N 27) then String a (String a (double_esc r)) else String a (double_esc r) end.

Definition build_osc52 (text : string) (tmux screen : bool) : string :=
  let inner := ESC +:+ "]52;c;" +:+ b64_encode (as_bytes text) +:+ BEL in
  if tmux then ESC +:+ "Ptmux;" +:+ double_esc inner +:+ ESC +:+ "\"
  else if screen then ESC +:+ "P" +:+ inner +:+ ESC +:+ "\"
  else inner.

(** What is written, and why not. *)
Definition copy_to_clipboard (stdout_tty : bool) (e : TermEnv) (text : string) : result string string :=
  if negb stdout_tty then Err "stdout is not a TTY"
  else if dumb e then Err "$TERM is dumb or unset"
  else Ok (build_osc52 text (env_set (TMUX e)) (env_set (STY e))).
End clipboard.

(** ** The arguments *)

Definition DEFAULT_PAIRING_RELAY_URL : string := "wss://relay.tpmt.dev".

Record NewArgs := mkNewArgs { relay_url : option string; daemon_id : option string; raw_label : option string; help : bool }.

(** A flag at the end takes no value, and forgets an earlier one. *)
Fixpoint new_args (args : list string) (o : NewArgs) : NewArgs :=
  match args with
  | [] => o
  | arg :: rest =>
      let relay v := mkNewArgs v (daemon_id o) (raw_label o) (help o) in
      let id v := mkNewArgs (relay_url o) v (raw_label o) (help o) in
      let label v := mkNewArgs (relay_url o) (daemon_id o) v (help o) in
      if String.eqb arg "--help" || String.eqb arg "-h" then new_args rest (mkNewArgs (relay_url o) (daemon_id o) (raw_label o) true)
      else if String.eqb arg "--relay" then match rest with v :: rest => new_args rest (relay (Some v)) | [] => relay None end
      else if String.eqb arg "--daemon-id" then match rest with v :: rest => new_args rest (id (Some v)) | [] => id None end
      else if String.eqb arg "--label" then match rest with v :: rest => new_args rest (label (Some v)) | [] => label None end
      else
        new_args rest
          match strip_prefix "--relay=" arg, strip_prefix "--daemon-id=" arg, strip_prefix "--label=" arg with
          | Some v, _, _ => relay (Some v)
          | None, Some v, _ => id (Some v)
          | None, None, Some v => label (Some v)
          | None, None, None => o
          end
  end.
Definition no_args : NewArgs := mkNewArgs None None None false.

(** ** The lock *)

(** [acquire_pair_lock]: what making the directory, opening the file and [try_lock] meet. *)
Record LockTry := mkLockTry { dir_made : bool; file_opened : bool; free : bool }.
Definition acquire_pair_lock (t : LockTry) : bool := dir_made t && file_opened t && free t.

(** ** A run *)

Record Setup := mkSetup { lock : LockTry; running : bool; connected : option IpcError; begun : option IpcError }.

(** [raw] is the terminal's mode, [guard] that the main thread holds the guard of it;
    [listeners] are the threads that read keys, each with its link. *)
Record New := mkNew {
  relay : string; label_text : string;
  pairing_id : option string; raw : bool; guard : bool; listeners : list string; open : bool;
  sent : list IpcMessage; shown : list Line; exit : option N
}.

Inductive NewKey := CtrlC | Plain (c : string) | OtherKey | NoKey | ReadError.

(** What one thread does next, and whether the system lets it.  [Typed i k]: a key, read
    by the [i]-th listener if the terminal delivers it to one. *)
Inductive NewEvent :=
| Heard (r : result IpcMessage IpcError) (raw_ok spawn_ok : bool)
| Sigint (write_ok : bool)
| Typed (i : nat) (k : NewKey) (write_ok : bool).

Section new.
Context (to_lowercase : string → string) (hostname : option bytes) (render_qr_small : string → string) (b64_encode : bytes → string)
        (term : Term) (env : TermEnv).
Notation dim := (CliText.dim (colours term)).
Notation fail := (fail_msg (colours term)).
Notation ok := (ok_msg (colours term)).

(** Up to the request: the code and the lines of an early end, or the wait. *)
Definition new_start (args : list string) (s : Setup) : result New (N * list Line) :=
  let o := new_args args no_args in
  if help o then Err (SUCCESS, pair_usage)
  else
    let relay := default DEFAULT_PAIRING_RELAY_URL (relay_url o) in
    let raw_label_trimmed := default "" (trim <$> raw_label o) in
    let label_value := if String.eqb raw_label_trimmed "" then default_label to_lowercase hostname else raw_label_trimmed in
    if negb (acquire_pair_lock (lock s)) then Err (FAILURE, [ErrLine (fail "Another `tp pair new` is already running. Cancel it first.")])
    else if negb (running s) then Err (FAILURE, [ErrLine (fail (IpcError_text DaemonDown))])
    else
      match connected s, begun s with
      | Some e, _ | None, Some e => Err (FAILURE, [ErrLine (fail ("Pairing failed: " +:+ IpcError_text e))])
      | None, None =>
          Ok (mkNew relay label_value None false false [] true [PairBegin relay (daemon_id o) (Some (make_label (Some label_value)))] [] None)
      end.

(** The handler of SIGINT, and what a listener does on Ctrl+C. *)
Definition cancel (write_ok : bool) (n : New) : New :=
  match pairing_id n with
  | Some pid =>
      mkNew (relay n) (label_text n) (pairing_id n) (raw n) (guard n) (listeners n) (open n)
            (if open n && write_ok then sent n ++ [PairCancel pid] else sent n) (shown n) (exit n)
  | None => mkNew (relay n) (label_text n) (pairing_id n) (raw n) (guard n) (listeners n) false (sent n) (shown n) (exit n)
  end.

(** A terminal message: cooked mode again, the line, the end of the session. *)
Definition finish (code : N) (l : Line) (n : New) : New :=
  mkNew (relay n) (label_text n) (pairing_id n) (if guard n then false else raw n) false (listeners n) false (sent n) (shown n ++ [l]) (Some code).

Definition can_copy : bool := is_clipboard_support_likely (stdout_tty term) env && stdin_tty term.

Definition begin_ok (pid qr_string did : string) (raw_ok spawn_ok : bool) (n : New) : New :=
  let qr := render_qr_small qr_string in
  let text := (if String.eqb qr "" then [] else [Out qr]) ++
    [Out (String lf ("Daemon ID:    " +:+ did)); Out ("Label:        " +:+ label_text n); Out ("Relay:        " +:+ relay n);
     Out (String lf (dim "Scan with the iPhone Camera app, or paste this URL in Teleprompter:")); Out qr_string] ++
    (if can_copy then [Out (String lf (dim "Press c to copy URL  ·  Ctrl+C to cancel"))]
     else [Out (String lf (dim "Waiting for your app to scan the QR..." +:+ " (Ctrl+C to cancel)"))]) in
  let on := can_copy && raw_ok in
  (* storing the new guard drops the one held before *)
  mkNew (relay n) (label_text n) (Some pid) (if on then negb (guard n) else raw n) (guard n || on)
        (listeners n ++ (if on && spawn_ok then [qr_string] else [])) (open n) (sent n) (shown n ++ text) (exit n).

Definition on_heard (r : result IpcMessage IpcError) (raw_ok spawn_ok : bool) (n : New) : New :=
  match r with
  | Ok (PairBeginOk pid qr_string did) => begin_ok pid qr_string did raw_ok spawn_ok n
  | Ok (PairBeginErr reason message) =>
      finish FAILURE (ErrLine (fail ("Pairing failed: " +:+ IpcPairBeginErrReason_to_str reason +:+ pair_suffix message))) n
  | Ok (PairCompleted _ did label) =>
      finish SUCCESS (Out (ok ("Paired " +:+ default did (label_to_nullable label) +:+ " (" +:+ did +:+ ")"))) n
  | Ok (PairCancelled _) => finish 130 (ErrLine (dim "Pairing cancelled.")) n
  | Ok (PairError _ reason message) =>
      finish FAILURE (ErrLine (fail ("Pairing error: " +:+ IpcPairErrorReason_to_str reason +:+ pair_suffix message))) n
  | Ok _ => n
  | Err Closed => finish FAILURE (ErrLine (fail "Daemon disconnected — pairing aborted.")) n
  | Err e => finish FAILURE (ErrLine (fail ("Pairing failed: " +:+ IpcError_text e))) n
  end.

(** The [i]-th listener is over. *)
Definition stop_listener (i : nat) (n : New) : New :=
  mkNew (relay n) (label_text n) (pairing_id n) (raw n) (guard n) (delete i (listeners n)) (open n) (sent n) (shown n) (exit n).

Definition on_key (i : nat) (url : string) (k : NewKey) (write_ok : bool) (n : New) : New :=
  match k with
  | ReadError => stop_listener i n
  | NoKey | OtherKey => n
  | CtrlC => stop_listener i (cancel write_ok n)
  | Plain c =>
      if String.eqb c "c" || String.eqb c "C" then
        let crlf l := Prompt (String lf (String cr (l +:+ crlf))) in
        let text := match copy_to_clipboard b64_encode (stdout_tty term) env url with
                    | Ok seq => [Prompt seq; crlf (green (colours term) "Copied to clipboard")]
                    | Err _ => [crlf (dim "Clipboard copy not supported by this terminal — copy the URL above manually")]
                    end in
        stop_listener i (mkNew (relay n) (label_text n) (pairing_id n) (raw n) (guard n) (listeners n) (open n) (sent n) (shown n ++ text) (exit n))
      else n
  end.

(** A cooked terminal turns Ctrl+C into SIGINT; a raw one hands it to a listener. *)
Definition new_step (e : NewEvent) (n : New) : New :=
  match exit n with
  | Some _ => n
  | None =>
      match e with
      | Heard r raw_ok spawn_ok => on_heard r raw_ok spawn_ok n
      | Sigint write_ok => cancel write_ok n
      | Typed i k write_ok =>
          match k, raw n with
          | CtrlC, false => cancel write_ok n
          | _, _ => match listeners n !! i with Some url => on_key i url k write_ok n | None => n end
          end
      end
  end.
Definition new_run (es : list NewEvent) (n : New) : New := foldl (λ n e, new_step e n) n es.
End new.

(** ** Laws *)

Section laws.
Context (to_lowercase : string → string) (hostname : option bytes) (render_qr_small : string → string) (b64_encode : bytes → string)
        (term : Term) (env : TermEnv).
Notation new_start := (new_start to_lowercase hostname term).
Notation new_step := (new_step render_qr_small b64_encode term env).
Notation new_run := (new_run render_qr_small b64_encode term env).

(** The code a message ends the wait with, and that of the first which does. *)
Definition verdict (r : result IpcMessage IpcError) : option N :=
  match r with
  | Ok (PairCompleted _ _ _) => Some SUCCESS
  | Ok (PairCancelled _) => Some 130%N
  | Ok (PairBeginErr _ _) | Ok (PairError _ _ _) | Err _ => Some FAILURE
  | Ok _ => None
  end.
Fixpoint first_verdict (es : list NewEvent) : option N :=
  match es with
  | [] => None
  | Heard r _ _ :: es => match verdict r with Some c => Some c | None => first_verdict es end
  | _ :: es => first_verdict es
  end.

(** The ids the daemon gave. *)
Definition given (es : list NewEvent) (pid : string) : Prop := ∃ qr did r s, Heard (Ok (PairBeginOk pid qr did)) r s ∈ es.

(** The terminal is left as it was found: raw only under a guard, and not at the end. *)
Definition tidy (n : New) : Prop :=
  (raw n = true → guard n = true) ∧ match exit n with Some _ => raw n = false ∧ guard n = false ∧ open n = false | None => True end.

(** One step from a wait that goes on: what it may do. *)
Definition step_ok (e : NewEvent) (n n' : New) : Prop :=
  (sent n' = sent n ∨ ∃ pid, pairing_id n = Some pid ∧ sent n' = sent n ++ [PairCancel pid]) ∧
  (pairing_id n' = pairing_id n ∨ ∃ pid, pairing_id n' = Some pid ∧ given [e] pid) ∧
  exit n' = first_verdict [e] ∧ tidy n'.

Lemma cancel_ok w n : tidy n → exit n = None →
  (sent (cancel w n) = sent n ∨ ∃ pid, pairing_id n = Some pid ∧ sent (cancel w n) = sent n ++ [PairCancel pid]) ∧
  pairing_id (cancel w n) = pairing_id n ∧ exit (cancel w n) = None ∧ tidy (cancel w n).
Proof.
  unfold cancel, tidy. intros Ht Hx. destruct (pairing_id n) as [pid|] eqn:Ep; cbn; rewrite Hx in *; [|by auto].
  split; [|done]. destruct (open n && w); [right; by exists pid|by left].
Qed.

Lemma on_key_spec i url k w n : tidy n → exit n = None → let n' := on_key b64_encode term env i url k w n in
  (sent n' = sent n ∨ ∃ pid, pairing_id n = Some pid ∧ sent n' = sent n ++ [PairCancel pid]) ∧
  pairing_id n' = pairing_id n ∧ exit n' = None ∧ tidy n'.
Proof.
  intros Ht Hx. destruct k as [|c| | |]; cbn zeta; unfold on_key; try (by auto).
  - destruct (cancel_ok w n Ht Hx) as (H1 & H2 & H3 & H4). unfold stop_listener. cbn. split_and!; [done|done|done|]. done.
  - destruct (_ || _); by auto.
Qed.

Lemma finish_ok code l n : tidy n → sent (finish code l n) = sent n ∧ pairing_id (finish code l n) = pairing_id n ∧
  exit (finish code l n) = Some code ∧ tidy (finish code l n).
Proof. intros [H _]. unfold tidy, finish. cbn. split_and!; try done; destruct (guard n), (raw n); try done; by discriminate H. Qed.

Lemma new_step_ok e n : tidy n → exit n = None → step_ok e n (new_step e n).
Proof.
  intros Ht Hx. unfold step_ok, PairNew.new_step. rewrite Hx. destruct e as [r raw_ok spawn_ok|w|i k w]; cbn [first_verdict].
  - assert (∀ code l, verdict r = Some code → step_ok (Heard r raw_ok spawn_ok) n (finish code l n)) as Hf.
    { intros code l Hv. destruct (finish_ok code l n Ht) as (H1 & H2 & H3 & H4). unfold step_ok. cbn [first_verdict]. rewrite Hv. auto. }
    destruct r as [[]|[]]; try (by apply Hf); try (cbn; by auto).
    unfold on_heard, begin_ok. cbn. split; [by left|]. split; [right; exists pairing_id0; split; [done|]; exists qr_string, daemon_id0, raw_ok, spawn_ok; left|].
    split; [done|]. unfold tidy in *. cbn. rewrite Hx. split; [|done]. destruct Ht as [Ht _].
    destruct (can_copy term env && raw_ok), (guard n); try done; cbn; intros H; by rewrite ?orb_true_r, ?orb_false_r; auto.
  - destruct (cancel_ok w n Ht Hx) as (H1 & H2 & H3 & H4). auto.
  - assert (step_ok (Typed i k w) n (match listeners n !! i with Some url => on_key b64_encode term env i url k w n | None => n end)) as Hk.
    { destruct (listeners n !! i) as [url|]; unfold step_ok; [destruct (on_key_spec i url k w n Ht Hx) as (H1 & H2 & H3 & H4); by auto|by auto]. }
    destruct (cancel_ok w n Ht Hx) as (H1 & H2 & H3 & H4). destruct k; try exact Hk. destruct (raw n); [exact Hk|]. by auto.
Qed.

Lemma new_step_over e n c : exit n = Some c → new_step e n = n.
Proof. intros H. unfold PairNew.new_step. by rewrite H. Qed.
Lemma new_run_over es n c : exit n = Some c → new_run es n = n.
Proof. intros H. induction es as [|e es IH]; [done|]. unfold PairNew.new_run in *. cbn [foldl]. by rewrite (new_step_over e n c H). Qed.

Lemma new_run_spec es n : tidy n → exit n = None → let n' := new_run es n in
  (∃ cancels, sent n' = sent n ++ (PairCancel <$> cancels) ∧ ∀ pid, pid ∈ cancels → pairing_id n = Some pid ∨ given es pid) ∧
  exit n' = first_verdict es ∧ tidy n'.
Proof.
  revert n. induction es as [|e es IH]; intros n Ht Hx; cbn zeta.
  { split; [|done]. exists []. rewrite app_nil_r. split; [done|]. by intros ? ?%elem_of_nil. }
  destruct (new_step_ok e n Ht Hx) as (H1 & H2 & H3 & H4). set (n1 := new_step e n) in *.
  assert (∃ cs, sent n1 = sent n ++ (PairCancel <$> cs) ∧ ∀ pid, pid ∈ cs → pairing_id n = Some pid) as (cs & Hs & Hcs).
  { destruct H1 as [->|(pid & Hp & ->)]; [exists []|exists [pid]].
    - rewrite app_nil_r. split; [done|]. by intros ? ?%elem_of_nil.
    - split; [done|]. by intros ? ->%list_elem_of_singleton. }
  change (new_run (e :: es) n) with (new_run es n1).
  assert (first_verdict (e :: es) = match exit n1 with Some c => Some c | None => first_verdict es end) as Hv.
  { rewrite H3. destruct e as [r ? ?|?|]; cbn [first_verdict]; [by destruct (verdict r)|done..]. }
  destruct (exit n1) as [c|] eqn:Ex.
  - rewrite (new_run_over es n1 c Ex), Ex, Hv. split; [|done]. exists cs. split; [done|]. intros pid Hp. left. by apply Hcs.
  - destruct (IH n1 H4 Ex) as ((cs' & I1 & I2) & I3 & I4). split; [|by rewrite Hv]. exists (cs ++ cs').
    rewrite fmap_app, app_assoc, <- Hs. split; [done|]. intros pid [Hp|Hp]%elem_of_app; [left; by apply Hcs|].
    assert (∀ l, given l pid → (∃ l', e :: es = l' ++ l) ∨ l = [e] → given (e :: es) pid) as Hg.
    { intros l (qr & did & r & s & Hin) Hl. exists qr, did, r, s. destruct Hl as [[l' ->]| ->]; [by apply elem_of_app; right|].
      apply list_elem_of_singleton in Hin as ->. left. }
    destruct (I2 pid Hp) as [Hq|Hq]; [|right; apply (Hg es Hq); left; by exists [e]].
    destruct H2 as [H2|(pid' & H2 & Hq')]; [left; by rewrite <- H2|]. right. rewrite Hq in H2. injection H2 as ->. apply (Hg [e] Hq'). by right.
Qed.

(** C37. [tp pair new], whatever it hears, is typed or is signalled: it asks for one pairing
    and after that only cancels it, each time by an id the daemon gave; it waits until the
    first message that ends the pairing (or the loss of the daemon) and leaves with the
    code of that one; the terminal is raw only while a guard will restore it, and cooked,
    with the socket shut, when it leaves. *)
Theorem pair_new_story args s n es : new_start args s = Ok n → let n' := new_run es n in
  (∃ cancels, sent n' = sent n ++ (PairCancel <$> cancels) ∧ ∀ pid, pid ∈ cancels → given es pid) ∧
  (∃ id, sent n = [PairBegin (relay n) id (Some (make_label (Some (label_text n))))]) ∧
  exit n' = first_verdict es ∧ tidy n'.
Proof.
  unfold PairNew.new_start. destruct (help _); [done|]. cbv zeta. set (label := if String.eqb _ _ then _ else _).
  destruct (negb _); [done|]. destruct (negb _); [done|]. destruct (connected s), (begun s); try done. intros [= <-].
  match goal with |- context [PairNew.new_run _ _ _ _ es ?x] => destruct (new_run_spec es x) as ((cs & H1 & H2) & H3 & H4); [done|done|] end.
  split; [|split; [|done]].
  - exists cs. split; [done|]. intros pid Hp. by destruct (H2 pid Hp) as [|?].
  - by eexists.
Qed.

(** C40. The key that copies also ends the listening: when the one listener of a raw
    terminal has copied the link, nothing typed does anything any more, Ctrl+C included,
    until the daemon says something or the process is signalled from elsewhere. *)
Theorem copy_ends_listening n url c w keys : exit n = None → raw n = true → listeners n = [url] → (c = "c" ∨ c = "C") →
  Forall (λ e, match e with Typed _ _ _ => True | _ => False end) keys →
  let n' := new_step (Typed 0 (Plain c) w) n in
  new_run keys n' = n' ∧ sent n' = sent n ∧ open n' = open n ∧ exit n' = None ∧ raw n' = true.
Proof.
  intros Hx Hr Hl Hc Hk. cbn zeta. assert (new_step (Typed 0 (Plain c) w) n = on_key b64_encode term env 0 url (Plain c) w n) as ->.
  { unfold PairNew.new_step. by rewrite Hx, Hl. }
  unfold on_key. replace (String.eqb c "c" || String.eqb c "C") with true by (by destruct Hc as [-> | ->]). unfold stop_listener. cbv zeta.
  match goal with |- new_run keys ?x = _ ∧ _ => set (n' := x) end.
  assert (listeners n' = []) as Hn by (cbn; by rewrite Hl). assert (raw n' = true ∧ exit n' = None) as [Hr' Hx'] by done.
  split; [|done]. clearbody n'. induction Hk as [|e keys He _ IH]; [done|]. destruct e as [| |i k w']; try done. unfold PairNew.new_run in *. cbn [foldl].
  assert (new_step (Typed i k w') n' = n') as ->; [|exact IH]. unfold PairNew.new_step. rewrite Hx', Hr', Hn. by destruct k.
Qed.

(** Before that a Ctrl+C cancels, raw or not, once the id is known; earlier it shuts the
    socket, which makes the daemon give up. *)
Lemma ctrl_c_heard n i url : exit n = None → (raw n = true → listeners n !! i = Some url) →
  let n' := new_step (Typed i CtrlC true) n in
  match pairing_id n with
  | Some pid => open n = true → sent n' = sent n ++ [PairCancel pid]
  | None => open n' = false
  end.
Proof.
  intros Hx Hl. cbn zeta. unfold PairNew.new_step, on_key, cancel, stop_listener. rewrite Hx.
  destruct (raw n); [rewrite (Hl eq_refl)|]; destruct (pairing_id n) as [pid|]; cbn; try done; by intros ->.
Qed.
End laws.

(** ** One at a time

    The lock is the kernel's: free until a process has it, and again when that process
    drops it or ends. *)

Record Shared := mkShared { holder : option nat; pairing : gmap nat New }.

Section lock.
Context (to_lowercase : string → string) (hostname : option bytes) (render_qr_small : string → string) (b64_encode : bytes → string)
        (term : Term) (env : TermEnv).

Inductive LockEvent :=
| Started (p : nat) (args : list string) (dir_made file_opened running : bool) (connected begun : option IpcError)
| Happened (p : nat) (e : NewEvent)
| Died (p : nat).

Definition release (p : nat) (s : Shared) : Shared :=
  mkShared (if decide (holder s = Some p) then None else holder s) (delete p (pairing s)).

Definition lock_step (e : LockEvent) (s : Shared) : Shared :=
  match e with
  | Started p args dir_made file_opened running connected begun =>
      let free := match holder s with None => true | Some _ => false end in
      match new_start to_lowercase hostname term args (mkSetup (mkLockTry dir_made file_opened free) running connected begun) with
      | Ok n => mkShared (Some p) (<[p := n]> (pairing s))
      | Err _ => s
      end
  | Happened p e =>
      match pairing s !! p with
      | Some n =>
          let n' := new_step render_qr_small b64_encode term env e n in
          match exit n' with Some _ => release p s | None => mkShared (holder s) (<[p := n']> (pairing s)) end
      | None => s
      end
  | Died p => release p s
  end.
Definition lock_run (es : list LockEvent) : Shared := foldl (λ s e, lock_step e s) (mkShared None ∅) es.

(** Whatever is started, happens and dies, at most one process is pairing. *)
Lemma one_pairing_at_a_time es p q : is_Some (pairing (lock_run es) !! p) → is_Some (pairing (lock_run es) !! q) → p = q.
Proof.
  assert (∀ p, is_Some (pairing (lock_run es) !! p) → holder (lock_run es) = Some p) as H.
  { clear p q. induction es as [|e es IH] using rev_ind; intros p.
    { cbn. rewrite lookup_empty. by intros [? ?]. }
    unfold lock_run in *. rewrite foldl_app. cbn [foldl]. set (s := foldl _ _ es) in *. clearbody s.
    assert (∀ r, is_Some (pairing (release r s) !! p) → holder (release r s) = Some p) as Hrel.
    { intros r. unfold release. cbn. rewrite lookup_delete_is_Some. intros [Hne Hp]. rewrite (IH p Hp). by rewrite decide_False by congruence. }
    destruct e as [r args d f run c b|r e|r]; cbn [lock_step]; [| |apply Hrel].
    - destruct (new_start _ _ _ _ _) as [n|] eqn:E; [|apply IH]. cbn. intros Hp. destruct (decide (p = r)) as [->|Hne]; [done|].
      rewrite lookup_insert_ne in Hp by done. exfalso. specialize (IH p Hp).
      unfold new_start in E. cbn in E. rewrite IH in E. unfold acquire_pair_lock in E. cbn in E. rewrite andb_false_r in E. by destruct (help _).
    - destruct (pairing s !! r) as [n|] eqn:En; [|apply IH]. destruct (exit _); [apply Hrel|]. cbn. intros Hp.
      destruct (decide (p = r)) as [->|Hne]; [apply IH; by rewrite En|]. apply IH. by rewrite lookup_insert_ne in Hp by done. }
  intros Hp%H Hq%H. congruence.
Qed.
End lock.

(** ** Witnesses *)

Definition demo_term : Term := mkTerm true true false.
Definition demo_env : TermEnv := mkTermEnv (Some "xterm") None None None.
Definition demo_new : New := mkNew "wss://relay" "mac" None false false [] true [PairBegin "wss://relay" None (Some (Set_ "mac"))] [] None.

Lemma pair_new_story_witness :
  exit (new_run (λ _, "") (λ _, "aGk=") demo_term demo_env
    [Heard (Ok (PairBeginOk "p1" "tp://p?d=x" "daemon-1")) true true; Typed 0 CtrlC true; Heard (Ok (PairCancelled "p1")) true true] demo_new) = Some 130%N.
Proof.
  destruct (pair_new_story (λ s, s) None (λ _, "") (λ _, "aGk=") demo_term demo_env ["--relay"; "wss://relay"; "--label"; "mac"]
    (mkSetup (mkLockTry true true true) true None None) demo_new
    [Heard (Ok (PairBeginOk "p1" "tp://p?d=x" "daemon-1")) true true; Typed 0 CtrlC true; Heard (Ok (PairCancelled "p1")) true true] eq_refl) as (_ & _ & H & _).
  exact H.
Defined.

Lemma copy_ends_listening_witness :
  let n := new_step (λ _, "") (λ _, "aGk=") demo_term demo_env (Heard (Ok (PairBeginOk "p1" "tp://p?d=x" "daemon-1")) true true) demo_new in
  sent (new_run (λ _, "") (λ _, "aGk=") demo_term demo_env [Typed 0 CtrlC true] (new_step (λ _, "") (λ _, "aGk=") demo_term demo_env (Typed 0 (Plain "c") true) n)) = sent n.
Proof.
  intros n. destruct (copy_ends_listening (λ _, "") (λ _, "aGk=") demo_term demo_env n "tp://p?d=x" "c" true [Typed 0 CtrlC true]
    eq_refl eq_refl eq_refl (or_introl eq_refl) ltac:(by repeat constructor)) as (-> & H & _). exact H.
Defined.
