(* ===== verification/Passthrough.v ===== *)
(** * Passthrough: the terminal of [tp <claude args>]
    ([tp-cli/commands/passthrough.rs], [records_from] of [tp-cli/store.rs]).
    The runner owns the pty; this process copies what the daemon has stored of its output
    to the terminal, tells the runner of every new size and sends it what is typed. *)
From stdpp Require Import base list numbers strings sorting.
From Stdlib Require Import Lia NArith ZArith.
From S2P Require Import Prelude Bytes Text Json Label Ipc CliIpc CliText.

(** ** The session's records *)

Record RecordRow := mkRecordRow { seq : Z; kind : string; payload : bytes }.

(** [WHERE seq > ? ORDER BY seq LIMIT ?] over the rows in the order of their numbers;
    [None]: there is no database yet, or it cannot be read. *)
Definition records_from (table : option (list RecordRow)) (after_seq : Z) (limit : nat) : list RecordRow :=
  match table with Some rows => take limit (List.filter (λ r, (after_seq <? seq r)%Z) rows) | None => [] end.

Definition is_io (r : RecordRow) : bool := String.eqb (kind r) "io".
(** What a terminal shows of some rows. *)
Definition io_text (rows : list RecordRow) : bytes := concat (payload <$> List.filter is_io rows).

(** ** The proxy *)

Definition BATCH : nat := 1000.

Record Proxy := mkProxy { last_seq : Z; written : bytes; last_size : N * N; proxied : list IpcMessage }.

Fixpoint write_rows (recs : list RecordRow) (p : Proxy) : Proxy :=
  match recs with
  | [] => p
  | r :: recs => write_rows recs (mkProxy (seq r) (if is_io r then written p ++ payload r else written p) (last_size p) (proxied p))
  end.
Definition drain_io (table : option (list RecordRow)) (p : Proxy) : Proxy := write_rows (records_from table (last_seq p) BATCH) p.

(** [Resize], if the size has changed and the daemon's socket is there. *)
Definition sample_size (ipc : bool) (sid : string) (size : N * N) (p : Proxy) : Proxy :=
  if ipc && negb (bool_decide (size = last_size p))
  then mkProxy (last_seq p) (written p) size (proxied p ++ [Resize sid size.1 size.2]) else p.

(** [try_wait]: an exit by a signal has no code. *)
Inductive Wait := Runs | Exited (code : option Z) | CannotWait.
Definition exit_code_of (code : option Z) : N := match code with Some c => Z.to_N (Z.land c 255) | None => FAILURE end.

(** One round: the table as the round reads it, the size, the runner, and the table as
    the final drain reads it. *)
Record Round := mkRound { table : option (list RecordRow); size : N * N; wait : Wait; final_table : option (list RecordRow) }.

(** The polling loop; with no more rounds it still runs. *)
Fixpoint proxy_loop (ipc : bool) (sid : string) (rounds : list Round) (p : Proxy) : option N * Proxy :=
  match rounds with
  | [] => (None, p)
  | r :: rounds =>
      let p := sample_size ipc sid (size r) (drain_io (table r) p) in
      match wait r with
      | Exited code => (Some (exit_code_of code), drain_io (final_table r) p)
      | CannotWait => (Some FAILURE, p)
      | Runs => proxy_loop ipc sid rounds p
      end
  end.
Definition run_proxy (ipc : bool) (sid : string) (cols rows : N) (rounds : list Round) : option N * Proxy :=
  proxy_loop ipc sid rounds (mkProxy 0 [] (cols, rows) []).

(** [terminal_size]: [size] is what the terminal answers, if it is one and does. *)
Definition terminal_size (stdout_tty : bool) (size : option (N * N)) : N * N :=
  if stdout_tty then default (120, 40)%N size else (120, 40)%N.

(** ** What is typed *)

Section stdin.
Context (b64_encode : bytes → string).

(** One [read] of at most 4096 bytes: a chunk (an empty one is the end of the input), or
    an error; [over] and [sent] are what the thread then finds. *)
Record Read := mkRead { over : bool; chunk : option bytes; written_ok : bool }.
Fixpoint forward_stdin (sid : string) (reads : list Read) : list IpcMessage :=
  match reads with
  | [] => []
  | r :: reads =>
      if over r then []
      else
        match chunk r with
        | None | Some [] => []
        | Some data => if written_ok r then Input sid (b64_encode data) :: forward_stdin sid reads else []
        end
  end.
End stdin.

(** ** Laws *)

(** A table of a session: numbered from one upwards. *)
Definition table_ok (rows : list RecordRow) : Prop := StronglySorted (λ a b, (seq a < seq b)%Z) rows ∧ Forall (λ r, (0 < seq r)%Z) rows.

Lemma write_rows_spec recs p : write_rows recs p =
  mkProxy (match last recs with Some r => seq r | None => last_seq p end) (written p ++ io_text recs) (last_size p) (proxied p).
Proof.
  revert p. induction recs as [|r recs IH]; intros p; cbn [write_rows]; [by destruct p; cbn; rewrite app_nil_r|].
  rewrite IH. cbn [last_seq written last_size proxied]. f_equal.
  - destruct recs as [|r' recs]; [done|]. by destruct (last (r' :: recs)) eqn:E; [cbn; rewrite E|apply last_None in E].
  - unfold io_text. cbn [List.filter]. destruct (is_io r); [|done]. cbn. by rewrite app_assoc.
Qed.

(** In a sorted table the rows after the last of a first part are the rest. *)
Lemma filter_after done rest after : table_ok (done ++ rest) →
  after = match last done with Some r => seq r | None => 0%Z end →
  List.filter (λ r, (after <? seq r)%Z) (done ++ rest) = rest.
Proof.
  intros [Hs Hp] ->. rewrite List.filter_app.
  assert (∀ x, x ∈ done → (seq x ≤ match last done with Some r => seq r | None => 0 end)%Z) as Hd.
  { destruct done as [|d0 done _] using rev_ind; [by intros ? ?%elem_of_nil|]. rewrite last_snoc. intros x [Hx| ->%list_elem_of_singleton]%elem_of_app; [|lia].
    rewrite <- app_assoc in Hs. apply StronglySorted_app in Hs as (Hs & _ & _). pose proof (Hs x d0 Hx ltac:(by left)). lia. }
  assert (∀ x, x ∈ rest → (match last done with Some r => seq r | None => 0 end < seq x)%Z) as Hr.
  { intros x Hx. destruct (last done) as [l|] eqn:El.
    - apply StronglySorted_app in Hs as (Hs & _ & _). apply Hs; [|done]. by apply last_Some_elem_of.
    - rewrite Forall_forall in Hp. apply Hp. apply elem_of_app. by right. }
  assert (List.filter (λ r, (match last done with Some r0 => seq r0 | None => 0 end <? seq r)%Z) done = []) as ->.
  { clear Hr. revert Hd. generalize (match last done with Some r => seq r | None => 0 end)%Z as a. intros a Hd. clear Hs Hp.
    induction done as [|d done IH]; [done|]. cbn. rewrite (proj2 (Z.ltb_ge _ _)) by (apply Hd; left). apply IH. intros x Hx. apply Hd. by right. }
  cbn [app]. clear Hd. revert Hr. generalize (match last done with Some r => seq r | None => 0 end)%Z as a. intros a Hr. clear Hs Hp.
  induction rest as [|d rest IH]; [done|]. cbn. rewrite (proj2 (Z.ltb_lt _ _)) by (apply Hr; left). f_equal. apply IH. intros x Hx. apply Hr. by right.
Qed.

(** The terminal shows the output of the first rows of [all], and [last_seq] is theirs. *)
Definition mirrors (rows : list RecordRow) (p : Proxy) : Prop :=
  last_seq p = match last rows with Some r => seq r | None => 0%Z end ∧ written p = io_text rows.

Lemma io_text_app a b : io_text (a ++ b) = io_text a ++ io_text b.
Proof. unfold io_text. by rewrite List.filter_app, fmap_app, concat_app. Qed.

Lemma table_ok_prefix a b : table_ok (a ++ b) → table_ok a.
Proof. intros [Hs Hp]. apply StronglySorted_app in Hs as (_ & Hs & _). apply Forall_app in Hp as [Hp _]. by split. Qed.

(** What a drain adds: at most a batch of what its table has beyond. *)
Lemma drain_spec all shown t p : table_ok all → shown `prefix_of` all → mirrors shown p → match t with Some rows => rows `prefix_of` all | None => True end →
  ∃ shown', shown `prefix_of` shown' ∧ shown' `prefix_of` all ∧ mirrors shown' (drain_io t p) ∧
    match t with
    | Some rows => shown' = if decide (length shown ≤ length rows) then take (length shown + BATCH) rows else shown
    | None => shown' = shown
    end ∧ last_size (drain_io t p) = last_size p ∧ proxied (drain_io t p) = proxied p.
Proof.
  intros Hok Hsh [Hl Hw] Ht. destruct t as [rows|]; [|exists shown; done]. unfold drain_io. rewrite write_rows_spec. cbn [records_from last_size proxied].
  destruct (prefix_weak_total shown rows all Hsh Ht) as [[more ->]|[extra ->]].
  - rewrite (filter_after shown more) by (first [done|destruct Ht as [z ->]; by eapply table_ok_prefix]). rewrite decide_True by (rewrite length_app; lia).
    exists (shown ++ take BATCH more). rewrite take_app, (take_ge shown) by lia. replace (length shown + BATCH - length shown) with BATCH by lia.
    split_and!; try done; [by eexists| |split].
    + etrans; [|exact Ht]. exists (drop BATCH more). by rewrite <- app_assoc, take_drop.
    + cbn [last_seq]. rewrite last_app. destruct (last (take BATCH more)); [done|exact Hl].
    + cbn [written]. rewrite Hw. unfold io_text. by rewrite List.filter_app, fmap_app, concat_app.
  - exists (rows ++ extra). assert (List.filter (λ r, (last_seq p <? seq r)%Z) rows = []) as Hnil.
    { assert (table_ok (rows ++ extra)) as Hok' by (destruct Hsh as [z ->]; by eapply table_ok_prefix).
      pose proof (filter_after (rows ++ extra) [] (last_seq p)) as H. rewrite app_nil_r in H. specialize (H Hok' Hl).
      rewrite List.filter_app in H. by apply app_eq_nil in H as [-> _]. }
    rewrite Hnil, take_nil. cbn [last]. split_and!; try done.
    + split; [exact Hl|]. cbn. by rewrite app_nil_r.
    + case_decide as Hd; [|done]. rewrite length_app in Hd. destruct extra; [|cbn in Hd; lia]. by rewrite app_nil_r, take_ge by lia.
Qed.

Definition table_in (all : list RecordRow) (t : option (list RecordRow)) : Prop := match t with Some rows => rows `prefix_of` all | None => True end.

(** The sizes the runner is told, one after another. *)
Fixpoint changes (now : N * N) (sizes : list (N * N)) : list (N * N) :=
  match sizes with
  | [] => []
  | s :: sizes => if decide (s = now) then changes now sizes else s :: changes s sizes
  end.

(** The rounds that are polled: up to the first in which the runner is not running. *)
Fixpoint polled (rounds : list Round) : list Round :=
  match rounds with [] => [] | r :: rounds => match wait r with Runs => r :: polled rounds | _ => [r] end end.

Lemma sample_spec sid s p : let p' := sample_size true sid s p in
  last_seq p' = last_seq p ∧ written p' = written p ∧ last_size p' = s ∧
  proxied p' = proxied p ++ ((λ x, Resize sid x.1 x.2) <$> changes (last_size p) [s]).
Proof.
  unfold sample_size. cbn. destruct (decide (s = last_size p)) as [->|H]; [rewrite bool_decide_eq_true_2 by done|rewrite bool_decide_eq_false_2 by done]; cbn; [|done].
  by rewrite app_nil_r.
Qed.

Lemma changes_app now a b : changes now (a ++ b) = changes now a ++ changes (default now (last a)) b.
Proof.
  revert now. induction a as [|s a IH]; intros now; [done|]. cbn [app changes]. destruct (decide (s = now)) as [->|H]; rewrite IH.
  - f_equal. f_equal. destruct a; [done|]. by destruct (last (p :: a)) eqn:E; [cbn; rewrite E|apply last_None in E].
  - cbn. do 2 f_equal. destruct a; [done|]. by destruct (last (p :: a)) eqn:E; [cbn; rewrite E|apply last_None in E].
Qed.

(** How many rows a drain, and a run, have shown. *)
Definition reach (n : nat) (t : option (list RecordRow)) : nat :=
  match t with Some rows => Nat.max n (Nat.min (n + BATCH) (length rows)) | None => n end.
Fixpoint reached (n : nat) (rounds : list Round) : nat :=
  match rounds with
  | [] => n
  | r :: rounds =>
      let n := reach n (table r) in
      match wait r with Exited _ => reach n (final_table r) | CannotWait => n | Runs => reached n rounds end
  end.
Fixpoint ending (rounds : list Round) : option N :=
  match rounds with
  | [] => None
  | r :: rounds => match wait r with Exited code => Some (exit_code_of code) | CannotWait => Some FAILURE | Runs => ending rounds end
  end.

Lemma drain_reach all n t p : table_ok all → table_in all t → n ≤ length all → mirrors (take n all) p →
  mirrors (take (reach n t) all) (drain_io t p) ∧ reach n t ≤ length all ∧ last_size (drain_io t p) = last_size p ∧ proxied (drain_io t p) = proxied p.
Proof.
  intros Hok Ht Hn Hm. destruct (drain_spec all (take n all) t p Hok) as (s' & _ & _ & H3 & H4 & H5 & H6); [eexists; symmetry; apply take_drop|done|done|].
  destruct t as [rows|]; cbn [reach]; [|by subst s']. destruct Ht as [z Hz].
  assert (length (take n all) = n) as Hl by (rewrite length_take; lia). assert (length rows ≤ length all) as Hle by (rewrite Hz, length_app; lia).
  split; [|split; [lia|done]]. enough (s' = take (Nat.max n (Nat.min (n + BATCH) (length rows))) all) as <- by done.
  rewrite H4, Hl. clear H4. case_decide; [|f_equal; lia]. replace (Nat.max _ _) with (Nat.min (n + BATCH) (length rows)) by lia.
  rewrite Hz, take_app_le by lia. destruct (Nat.le_ge_cases (n + BATCH) (length rows)); [f_equal; lia|].
  by rewrite (take_ge rows (n + BATCH)), Nat.min_r, firstn_all by lia.
Qed.

Lemma proxy_loop_spec all sid ipc rounds n p : table_ok all → Forall (λ r, table_in all (table r) ∧ table_in all (final_table r)) rounds →
  n ≤ length all → mirrors (take n all) p →
  let '(code, p') := proxy_loop ipc sid rounds p in
  mirrors (take (reached n rounds) all) p' ∧ code = ending rounds ∧
  proxied p' = proxied p ++ (if ipc then (λ x, Resize sid x.1 x.2) <$> changes (last_size p) (size <$> polled rounds) else []).
Proof.
  intros Hok Hr. revert n p. induction Hr as [|r rounds [Ht Hf] _ IH]; intros n p Hn Hm; cbn [proxy_loop reached ending polled].
  { split; [done|]. split; [done|]. by destruct ipc; rewrite app_nil_r. }
  destruct (drain_reach all n (table r) p Hok Ht Hn Hm) as (D1 & D2 & D3 & D4). set (p1 := drain_io (table r) p) in *.
  assert (∃ p2, p2 = sample_size ipc sid (size r) p1 ∧ mirrors (take (reach n (table r)) all) p2 ∧ (ipc = true → last_size p2 = size r) ∧
    proxied p2 = proxied p ++ (if ipc then (λ x, Resize sid x.1 x.2) <$> changes (last_size p) [size r] else [])) as (p2 & <- & S1 & S2 & S3).
  { eexists. split; [done|]. destruct ipc.
    - destruct (sample_spec sid (size r) p1) as (E1 & E2 & E3 & E4). split; [by split; [rewrite E1; apply D1|rewrite E2; apply D1]|].
      split; [done|]. by rewrite E4, D3, D4.
    - rewrite app_nil_r, <- D4. done. }
  destruct (wait r) as [|code|].
  - specialize (IH _ p2 D2 S1). destruct (proxy_loop ipc sid rounds p2) as [code p']. destruct IH as (I1 & I2 & I3). split; [done|]. split; [done|].
    rewrite I3, S3, <- app_assoc. f_equal. destruct ipc; [|done]. rewrite (S2 eq_refl), <- fmap_app. f_equal. cbn [fmap list_fmap].
    by rewrite <- (changes_app (last_size p) [size r]).
  - destruct (drain_reach all _ (final_table r) p2 Hok Hf D2 S1) as (F1 & F2 & F3 & F4). split; [done|]. split; [done|]. by rewrite F4, S3.
  - split; [done|]. by split.
Qed.

(** C36. What the terminal of a passthrough shows is the session's output from its start:
    every stored byte of output once and in order, as far as the rounds have come, which
    is a batch of records a round and one more when the runner has exited; the runner is
    told each change of size once; and the exit code is the runner's. *)
Theorem terminal_mirrors_session all ipc sid cols rows rounds : table_ok all →
  Forall (λ r, table_in all (table r) ∧ table_in all (final_table r)) rounds →
  let '(code, p) := run_proxy ipc sid cols rows rounds in
  written p = io_text (take (reached 0 rounds) all) ∧ code = ending rounds ∧
  proxied p = (if ipc then (λ x, Resize sid x.1 x.2) <$> changes (cols, rows) (size <$> polled rounds) else []).
Proof.
  intros Hok Hr. unfold run_proxy. pose proof (proxy_loop_spec all sid ipc rounds 0 (mkProxy 0 [] (cols, rows) []) Hok Hr ltac:(lia) ltac:(done)) as H.
  destruct (proxy_loop _ _ _ _) as [code p]. destruct H as ([_ H1] & H2 & H3). by split.
Qed.

(** ** Witnesses *)

Definition demo_rows (n : nat) : list RecordRow := (λ i, mkRecordRow (Z.of_nat i) "io" [as_u8 46]) <$> List.seq 1 n.
Definition demo_rounds (n : nat) : list Round := [mkRound None (80, 24)%N Runs None; mkRound (Some (demo_rows n)) (80, 25)%N (Exited (Some 0%Z)) (Some (demo_rows n))].

Lemma demo_rows_ok n : table_ok (demo_rows n).
Proof.
  unfold demo_rows. split.
  - generalize 1. induction n as [|n IH]; intros k; cbn; [constructor|]. constructor; [apply IH|]. apply Forall_fmap, Forall_forall. intros x Hx.
    apply elem_of_seq in Hx. cbn. lia.
  - apply Forall_fmap, Forall_forall. intros x Hx. apply elem_of_seq in Hx. cbn. lia.
Qed.

Lemma terminal_mirrors_session_witness : run_proxy true "s" 80 24 (demo_rounds 3) = (Some 0%N, mkProxy 3 (replicate 3 (as_u8 46)) (80, 25)%N [Resize "s" 80 25]) ∧
  written (run_proxy true "s" 80 24 (demo_rounds 3)).2 = io_text (take 3 (demo_rows 3)).
Proof.
  split; [reflexivity|].
  pose proof (terminal_mirrors_session (demo_rows 3) true "s" 80 24 (demo_rounds 3) (demo_rows_ok 3)) as H.
  destruct (run_proxy true "s" 80 24 (demo_rounds 3)) as [code p]. destruct H as [H _]; [repeat constructor; by exists []|]. exact H.
Defined.

(** A burst of output just before the end: what is beyond two batches is never shown. *)
Example burst_tail_lost : length (written (run_proxy true "s" 80 24 (demo_rounds 2003)).2) = 2000.
Proof. vm_compute. reflexivity. Qed.
