(* ===== verification/CliDemo.v ===== *)
(** * CliDemo: the command line's theorems applied. *)
From stdpp Require Import base list numbers strings gmap sorting.
From Stdlib Require Import Lia NArith ZArith.
From S2P Require Import Prelude Bytes Text Chars Lines Json Label Codec Ipc CliIpc CliText CliArgs CliCmd SessionCmd.

(** A parser that takes everything for the same message. *)
Definition demo_slice (b : bytes) : result Value string := Ok (Object [("t", Str "pair.cancelled"); ("pairingId", Str "p1")]).
Definition demo_stream : bytes := enc (mkFrame (as_bytes "{}") None) ++ [as_u8 0; as_u8 0; as_u8 0].

(** A frame, and the loss of the daemon in the next one. *)
Lemma cli_reads_frames_witness : ∃ st r, Parses demo_stream [mkFrame (as_bytes "{}") None] st r ∧
  read_all demo_slice (mkReader demo_stream None) = [Ok (PairCancelled "p1"); Err (IoFailed unexpected_eof)].
Proof.
  assert (Parses demo_stream [mkFrame (as_bytes "{}") None] More [as_u8 0; as_u8 0; as_u8 0]) as H.
  { apply (enc_parse1 (mkFrame (as_bytes "{}") None)); [vm_compute; discriminate|constructor; cbn; lia]. }
  exists More, [as_u8 0; as_u8 0; as_u8 0]. split; [exact H|].
  exact (proj1 (cli_reads_frames demo_slice demo_stream _ _ _ None H)).
Defined.

(** Two of three sessions are stopped; the first is unmarked before Enter. *)
Definition demo_sessions : list SessionRow :=
  [mkSessionRow "s1" "stopped" None "/a" 3 None 0; mkSessionRow "s2" "running" None "/b" 2 None 0; mkSessionRow "s3" "stopped" None "/c" 1 None 0].
Definition newer (a b : Z * CleanupRow) : Prop := (b.1 ≤ a.1)%Z.
#[export] Instance newer_dec : RelDecision newer := λ a b, decide (b.1 ≤ a.1)%Z.
Definition demo_newest (l : list (Z * CleanupRow)) : list (Z * CleanupRow) := merge_sort newer l.

Definition up : Connection := mkConnection true None None None (mkReader [] None).
Definition demo_world : World := mkWorld [Typed "y"] (λ _, up) 0 [] [].
Definition demo_cleanup := session_cleanup (λ _, "{}") demo_slice (mkTerm true true false) demo_newest demo_sessions 10 None
  [Key (KChar " ") false; Key KEnter false] false true demo_world.

Lemma demo_newest_perm l : demo_newest l ≡ₚ l.
Proof. apply merge_sort_Permutation. Qed.

Lemma cleanup_deletes_picked_witness : requests demo_cleanup.2 = [SessionDelete "s3"] ∧
  ∃ sent, requests demo_cleanup.2 = requests demo_world ++ (SessionDelete <$> sent) ∧ sent `sublist_of` ["s3"].
Proof.
  split; [reflexivity|].
  pose proof (cleanup_deletes_picked (λ _, "{}") demo_slice (mkTerm true true false) demo_newest demo_sessions 10 None
    [Key (KChar " ") false; Key KEnter false] false true demo_world demo_newest_perm) as H. fold demo_cleanup in H.
  assert (choice (c_sid <$> stopped_rows demo_newest demo_sessions 10) [Key (KChar " ") false; Key KEnter false] true = ["s3"]) as E
    by (vm_compute; reflexivity).
  destruct demo_cleanup as [r w']. cbv zeta in H. rewrite E in H. destruct H as (sent & H1 & H2 & _). by exists sent.
Defined.
