(* ===== verification/Locate.v ===== *)
(** * Locate: where [tp] finds the programs it starts, and where its own files are.
    [tp-cli/locate.rs], [tp-proto/locate.rs], [tp-cli/config_dir.rs], the paths of
    [tp-cli/store.rs], [service_linux.rs], [service_darwin.rs], [commands/daemon.rs] and
    [ensure_daemon.rs]. *)
From stdpp Require Import base list numbers strings.
From Stdlib Require Import Lia NArith.
From S2P Require Import Prelude Text Files.

(** What the process sees: variables that are Unicode, its own path, links resolved,
    and what is there. *)
Record Env := mkEnv {
  var : string → option string;
  current_exe : result PathBuf string;
  canonicalize : PathBuf → option PathBuf;
  there : PathBuf → bool
}.
Definition non_empty (v : option string) : option string := match v with Some s => if String.eqb s "" then None else Some s | None => None end.
Definition join_path (p : PathBuf) (names : list string) : PathBuf := p ++ (Normal <$> names).

(** ** The programs beside [tp] *)

Section locate.
Context (e : Env).

(** The climb goes up at most sixteen directories. *)
Fixpoint climb (n : nat) (current : PathBuf) : option PathBuf :=
  match n with
  | O => None
  | S n =>
      let?o current := path_parent current in
      if there e (join_path current ["rust"; "tp-cli"; "Cargo.toml"]) then Some current else climb n current
  end.
Definition find_repo_root (start : PathBuf) : option PathBuf := climb 16 start.

Definition current_canon : option PathBuf := match current_exe e with Ok p => canonicalize e p | Err _ => None end.
Definition is_self (candidate : PathBuf) : bool :=
  match canonicalize e candidate, current_canon with Some c, Some me => bool_decide (c = me) | _, _ => false end.
Definition usable (p : PathBuf) : bool := negb (is_self p) && there e p.

(** The three places, in order. *)
Definition candidates (exe_path : PathBuf) (name : string) : list (option PathBuf) :=
  [ (let?o canon := canonicalize e exe_path in let?o bin := path_parent canon in let?o prefix := path_parent bin in
     Some (join_path prefix ["libexec"; "tp"; name]));
    (let?o dir := path_parent exe_path in Some (join_path dir [name]));
    (let?o root := find_repo_root exe_path in Some (join_path root ["rust"; "target"; "release"; name])) ].

Definition locate_inner (variable name : string) : result PathBuf string :=
  match non_empty (var e variable) with
  | Some bin =>
      let p := path_components bin in
      if is_self p then Err ("tp: " +:+ variable +:+ " resolves to the tp binary itself (" +:+ bin +:+ "); infinite loop prevented. Set " +:+
                             variable +:+ " to the " +:+ name +:+ " binary.")
      else if there e p then Ok p
      else Err ("tp: " +:+ variable +:+ " is set to '" +:+ bin +:+ "' but that file does not exist.")
  | None =>
      match current_exe e with
      | Err err => Err ("tp: cannot determine current executable path: " +:+ err)
      | Ok exe_path =>
          let cs := candidates exe_path name in
          match List.find usable (omap id cs) with
          | Some p => Ok p
          | None => Err ("tp: bundled " +:+ name +:+ " not found (looked in " +:+ join ", " (show_path <$> omap id cs) +:+
                         "). Reinstall tp or set " +:+ variable +:+ ".")
          end
      end
  end.
Definition locate_tp_daemon : result PathBuf string := locate_inner "TP_DAEMON_BIN" "tp-daemon".
Definition locate_tp_relay : result PathBuf string := locate_inner "TP_RELAY_BIN" "tp-relay".
Definition locate_tp_runner : result PathBuf string := locate_inner "TP_RUNNER_BIN" "tp-runner".

(** ** Directories *)

(** The path of an absolute text replaces what it is joined to; these bases come first. *)
Definition config_dir : PathBuf :=
  let base := match var e "XDG_CONFIG_HOME" with
              | Some v => path_components v
              | None => join_path (path_components (default "/tmp" (var e "HOME"))) [".config"]
              end in
  join_path base ["teleprompter"].

(** [$XDG_DATA_HOME], or below the home directory; none without one. *)
Definition data_home : option PathBuf :=
  match non_empty (var e "XDG_DATA_HOME") with
  | Some v => Some (path_components v)
  | None => let?o h := var e "HOME" in Some (join_path (path_components h) [".local"; "share"])
  end.
Definition log_dir : option PathBuf := let?o d := data_home in Some (join_path d ["teleprompter"; "logs"]).
Definition get_log_dir : PathBuf := default (path_components "/tmp/teleprompter/logs") log_dir.

Definition MACOS_LABEL : string := "dev.tpmt.daemon".
Definition LINUX_SERVICE_NAME : string := "teleprompter-daemon".

(** The unit as [install] and [uninstall] know it ([service_linux.rs]). *)
Definition unit_dir : PathBuf :=
  join_path (match non_empty (var e "XDG_CONFIG_HOME") with
             | Some v => path_components v
             | None => join_path (path_components (default "/tmp" (var e "HOME"))) [".config"]
             end) ["systemd"; "user"].
Definition unit_path : PathBuf := join_path unit_dir [LINUX_SERVICE_NAME +:+ ".service"].
(** The unit as [stop], [status] and the automatic start look for it. *)
Definition probed_unit_path : PathBuf :=
  join_path (default (path_components "/tmp") (path_parent config_dir)) ["systemd"; "user"; LINUX_SERVICE_NAME +:+ ".service"].

(** The same for the plist: only the installer falls back to [/tmp]. *)
Definition plist_path : PathBuf :=
  join_path (path_components (default "/tmp" (var e "HOME"))) ["Library"; "LaunchAgents"; MACOS_LABEL +:+ ".plist"].
Definition probed_plist_path : option PathBuf :=
  let?o h := var e "HOME" in Some (join_path (path_components h) ["Library"; "LaunchAgents"; MACOS_LABEL +:+ ".plist"]).
End locate.

(** ** Laws *)

Section laws.
Context (e : Env).

Lemma find_first {A} (P : A → bool) cs p : List.find P cs = Some p → ∃ l r, cs = l ++ p :: r ∧ Forall (λ q, P q = false) l ∧ P p = true.
Proof.
  induction cs as [|c cs IH]; [done|]. cbn. destruct (P c) eqn:Ec; [intros [= ->]; by exists [], cs|].
  intros (l & r & -> & Hl & Hp)%IH. exists (c :: l), r. split; [done|]. split; [by constructor|done].
Qed.

(** What is found is there and is not [tp] itself, and it is the override if there is
    one, else the first of the three places that will do; an error says there is none. *)
Theorem locate_sound variable name :
  match locate_inner e variable name with
  | Ok p => there e p = true ∧ (∀ me, current_canon e = Some me → canonicalize e p ≠ Some me) ∧
      match non_empty (var e variable) with
      | Some bin => p = path_components bin
      | None => ∃ exe l r, current_exe e = Ok exe ∧ omap id (candidates e exe name) = l ++ p :: r ∧ Forall (λ q, usable e q = false) l
      end
  | Err _ =>
      match non_empty (var e variable), current_exe e with
      | Some bin, _ => usable e (path_components bin) = false
      | None, Ok exe => Forall (λ q, usable e q = false) (omap id (candidates e exe name))
      | None, Err _ => True
      end
  end.
Proof.
  assert (∀ p, is_self e p = false → ∀ me, current_canon e = Some me → canonicalize e p ≠ Some me) as Hself.
  { intros p Hs me Hme Hp. unfold is_self in Hs. rewrite Hp, Hme in Hs. by apply bool_decide_eq_false in Hs. }
  unfold locate_inner. destruct (non_empty (var e variable)) as [bin|].
  { destruct (is_self e _) eqn:Es; [unfold usable; by rewrite Es|]. destruct (there e _) eqn:Et; [by auto|]. unfold usable. by rewrite Et, andb_false_r. }
  destruct (current_exe e) as [exe|] eqn:Ee; [|done]. cbv zeta.
  destruct (List.find (usable e) (omap id (candidates e exe name))) as [p|] eqn:Ef.
  - apply find_first in Ef as (l & r & El & Hl & Hp). unfold usable in Hp. apply andb_true_iff in Hp as [Hs Ht]. apply negb_true_iff in Hs.
    split; [done|]. split; [by apply Hself|]. by exists exe, l, r.
  - apply Forall_forall. intros q Hq. apply (List.find_none _ _ Ef). by apply list_elem_of_In.
Qed.

(** Installing and looking agree on the unit, unless the variable is set to nothing. *)
Lemma unit_paths_agree : var e "XDG_CONFIG_HOME" ≠ Some "" → is_absolute (path_components (default "/tmp" (var e "HOME"))) = true →
  probed_unit_path e = unit_path e.
Proof.
  intros Hv Hh. unfold probed_unit_path, unit_path, unit_dir, config_dir, non_empty, path_parent, join_path. cbn [fmap list_fmap].
  rewrite last_snoc, removelast_last. cbn [from_option id]. rewrite <- app_assoc. f_equal.
  destruct (var e "XDG_CONFIG_HOME") as [v|]; [|done]. destruct (String.eqb_spec v "") as [->|]; done.
Qed.
End laws.

(** Set to nothing, the variable sends the search to a relative path: an installed unit is
    not seen, so [tp daemon stop] signals the daemon and systemd starts it again. *)
Definition empty_config : Env :=
  mkEnv (λ v, if String.eqb v "XDG_CONFIG_HOME" then Some "" else if String.eqb v "HOME" then Some "/home/u" else None)
        (Err "") (λ p, Some p) (λ p, bool_decide (p = path_components "/home/u/.config/systemd/user/teleprompter-daemon.service")).
Example unit_not_seen : there empty_config (unit_path empty_config) = true ∧ there empty_config (probed_unit_path empty_config) = false.
Proof. by vm_compute. Qed.
