(* ===== verification/Service.v ===== *)
(** * Service: the daemon as a service of the system, and starting it.
    [tp-cli/ensure_daemon.rs], [service_linux.rs], [service_darwin.rs] and [stop],
    [install] and [uninstall] of [commands/daemon.rs], over [Files]: a program that is
    started answers, the clock goes on, and a probe finds the daemon or does not. *)
From stdpp Require Import base list numbers strings gmap.
From Stdlib Require Import Lia NArith ZArith Ascii.
From S2P Require Import Prelude Bytes Text Lines Files CliText Locate.
From S2P Require CliCmd.
From S2P Require DaemonLock.
Local Open Scope io_scope.

(** How a program ended: it could not be started, or whether its exit code was 0, the
    one thing the code looks at, and what it wrote to its standard error.  A signal:
    delivered, nobody there, refused. *)
Inductive ProgramEnd := CannotStart (e : string) | Ended (success : bool) (stderr : string).
Inductive Kill := Delivered | NoProcess | Refused (e : string).

(** [program n]: the [n]-th program started; [up n]: the [n]-th probe; [lag n], [over n]:
    how long it takes, and how much longer the sleep after it is than was asked for. *)
Record Host := mkHost {
  vars : string → option string; exe : result PathBuf string; links : PathBuf → option PathBuf;
  os : string; uid : N; stdin_tty : bool; stderr_tty : bool; coloured : bool;
  answer : CliCmd.LineRead; kill : Z → Kill;
  program : nat → ProgramEnd; up : nat → bool; lag : nat → N; over : nat → N
}.

Record Local := mkLocal { shown : list Line; now : N; probes : nat; signalled : list Z }.

Section service.
Context (sys : System) (h : Host).
Notation Io := (Io Local).
Notation dim := (CliText.dim (coloured h)).

Definition say (l : Line) : Io unit := modify (λ s, mkLocal (shown s ++ [l]) (now s) (probes s) (signalled s)).
Definition run_program (prog : string) (args : list string) : Io ProgramEnd := λ w,
  (Val (program h (length (started w))), mkWorld (files w) (tick w) (started w ++ [(prog, args)]) (locals w)).
Definition get_env : Io Env := λ w, (Val (mkEnv (vars h) (exe h) (links h) (λ p, bool_decide (is_Some (files w !! p)))), w).
Definition is_daemon_running : Io bool := λ w,
  let s := locals w in
  (Val (up h (probes s)), mkWorld (files w) (tick w) (started w) (mkLocal (shown s) (now s + lag h (probes s)) (S (probes s)) (signalled s))).
Definition sleep (ms : N) : Io unit := modify (λ s, mkLocal (shown s) (now s + ms + over h (probes s)) (probes s) (signalled s)).
(** [std::fs::write] *)
Definition fs_write (p : PathBuf) (c : string) : Io (result unit IoError) :=
  r ← create sys p; match r with Ok _ => write_all sys p c | Err e => ret (Err e) end.

(** ** Starting the daemon *)

Definition is_service_installed : Io bool :=
  env ← get_env;
  if String.eqb (os h) "macos" then ret (match probed_plist_path env with Some p => there env p | None => false end)
  else if String.eqb (os h) "linux" then ret (there env (probed_unit_path env))
  else ret false.

Definition start_service : Io bool :=
  if String.eqb (os h) "macos" then
    i ← is_service_installed;
    if (i : bool) then run_program "launchctl" ["kickstart"; "gui/" +:+ print_dec (uid h) +:+ "/" +:+ MACOS_LABEL];; ret true else ret false
  else if String.eqb (os h) "linux" then
    i ← is_service_installed;
    if (i : bool) then run_program "systemctl" ["--user"; "start"; LINUX_SERVICE_NAME];; ret true else ret false
  else ret false.

(** The loop; [None] is that the fuel ran out, which [poll_enough] excludes. *)
Fixpoint poll (fuel : nat) (deadline : N) : Io (option bool) :=
  match fuel with
  | O => ret None
  | S fuel =>
      u ← is_daemon_running;
      if (u : bool) then ret (Some true)
      else
        s ← get_locals;
        if (deadline <=? now s)%N then ret (Some false) else sleep 500;; poll fuel deadline
  end.
Definition wait_for_daemon_ready : Io bool :=
  s ← get_locals;
  r ← poll 21 (now s + 10000);
  match r with Some b => ret b | None => panic end.

(** The variable [LOG_LEVEL] the daemon is given is left out. *)
Definition spawn_background_daemon : Io unit :=
  env ← get_env;
  match locate_tp_daemon env with
  | Err e => fail e
  | Ok daemon_bin =>
      r ← run_program (show_path daemon_bin) [];
      match r with
      | CannotStart e => fail ("tp: failed to spawn daemon (" +:+ show_path daemon_bin +:+ "): " +:+ e)
      | Ended _ _ => ret tt
      end
  end.

(** ** The service's files *)

Definition generate_unit (tp_binary home : string) : string :=
  join (String lf "") ["[Unit]"; "Description=Teleprompter Daemon"; "After=network.target"; ""; "[Service]";
    "ExecStart=" +:+ tp_binary +:+ " daemon start"; "Restart=on-failure"; "RestartSec=5"; "Environment=HOME=" +:+ home;
    "Environment=PATH=/usr/local/bin:/usr/bin:/bin:" +:+ home +:+ "/.local/bin"; ""; "[Install]"; "WantedBy=default.target"; ""].

Definition xml_string (s : string) : string := "<string>" +:+ s +:+ "</string>".
Definition generate_plist (tp_binary : string) (log_dir : PathBuf) (home : string) : string :=
  let log_str := show_path (join_path log_dir ["daemon.log"]) in
  join (String lf "") [
    "<?xml version=" +:+ quoted "1.0" +:+ " encoding=" +:+ quoted "UTF-8" +:+ "?>";
    "<!DOCTYPE plist PUBLIC " +:+ quoted "-//Apple//DTD PLIST 1.0//EN" +:+ " " +:+ quoted "http://www.apple.com/DTDs/PropertyList-1.0.dtd" +:+ ">";
    "<plist version=" +:+ quoted "1.0" +:+ ">"; "<dict>"; "  <key>Label</key>"; "  " +:+ xml_string MACOS_LABEL;
    "  <key>ProgramArguments</key>"; "  <array>"; "    " +:+ xml_string tp_binary; "    " +:+ xml_string "daemon"; "    " +:+ xml_string "start"; "  </array>";
    "  <key>RunAtLoad</key>"; "  <true/>"; "  <key>KeepAlive</key>"; "  <true/>";
    "  <key>StandardOutPath</key>"; "  " +:+ xml_string log_str; "  <key>StandardErrorPath</key>"; "  " +:+ xml_string log_str;
    "  <key>EnvironmentVariables</key>"; "  <dict>"; "    <key>HOME</key>"; "    " +:+ xml_string home;
    "    <key>PATH</key>"; "    " +:+ xml_string ("/usr/local/bin:/usr/bin:/bin:" +:+ home +:+ "/.local/bin"); "  </dict>"; "</dict>"; "</plist>"].

Definition home (env : Env) : string := default "/tmp" (var env "HOME").

(** The program the service runs: this one, else the first [tp] of [$PATH], else one of
    the usual places, else nothing. *)
Definition first_there (env : Env) (ps : list PathBuf) : option PathBuf := List.find (there env) ps.
Definition path_entries (env : Env) : list PathBuf :=
  match var env "PATH" with
  | Some v => (λ entry, join_path (path_components entry) ["tp"]) <$> List.filter (λ entry, negb (String.eqb entry "")) (split_char ":"%char v)
  | None => []
  end.
Definition well_known (env : Env) : list PathBuf :=
  path_components <$> (["/usr/local/bin/tp"; "/opt/homebrew/bin/tp"] ++
                       match var env "HOME" with Some v => [v +:+ "/.local/bin/tp"] | None => [] end).
Definition resolve_tp_binary (env : Env) : string :=
  match first_there env (match exe h with Ok p => [p] | Err _ => [] end ++ path_entries env ++ well_known env) with
  | Some p => show_path p
  | None => ""
  end.

(** *** Linux *)

Definition install_linux : Io bool :=
  env ← get_env;
  let tp_binary := resolve_tp_binary env in
  let unit := unit_path env in
  d ← create_dir_all sys (unit_dir env);
  match d with
  | Err e => say (ErrLine ("[Service] failed to create unit dir " +:+ show_path (unit_dir env) +:+ ": " +:+ io_text e));; ret false
  | Ok _ =>
      f ← fs_write unit (generate_unit tp_binary (home env));
      match f with
      | Err e => say (ErrLine ("[Service] failed to write unit " +:+ show_path unit +:+ ": " +:+ io_text e));; ret false
      | Ok _ =>
          run_program "systemctl" ["--user"; "daemon-reload"];;
          r ← run_program "systemctl" ["--user"; "enable"; "--now"; LINUX_SERVICE_NAME];
          match r with
          | Ended true _ =>
              say (Out ("[Service] Installed systemd user service: " +:+ LINUX_SERVICE_NAME));;
              say (Out ("[Service] Unit: " +:+ show_path unit));;
              say (Out ("[Service] Binary: " +:+ tp_binary));;
              say (Out (String lf "The daemon will start automatically on login."));;
              say (Out ("To check status: systemctl --user status " +:+ LINUX_SERVICE_NAME));;
              ret true
          | Ended false e | CannotStart e => say (ErrLine ("[Service] systemctl enable failed: " +:+ e));; ret false
          end
      end
  end.

Definition uninstall_linux : Io N :=
  env ← get_env;
  let unit := unit_path env in
  if negb (there env unit) then say (Out ("[Service] No systemd service found at " +:+ show_path unit));; ret SUCCESS
  else
    run_program "systemctl" ["--user"; "disable"; "--now"; LINUX_SERVICE_NAME];;
    r ← remove_file sys unit;
    match r with
    | Err e => say (ErrLine ("[Service] failed to remove unit " +:+ show_path unit +:+ ": " +:+ io_text e));; ret FAILURE
    | Ok _ =>
        run_program "systemctl" ["--user"; "daemon-reload"];;
        say (Out ("[Service] Uninstalled systemd user service: " +:+ LINUX_SERVICE_NAME));;
        say (Out ("[Service] Removed: " +:+ show_path unit));;
        ret SUCCESS
    end.

(** *** macOS *)

(** [success]: [exit_code == 0]. *)
Record LaunchctlResult := mkLaunchctl { success : bool; stderr : string }.
Definition launchctl (args : list string) : Io LaunchctlResult :=
  r ← run_program "launchctl" args;
  ret match r with Ended b e => mkLaunchctl b e | CannotStart _ => mkLaunchctl false "" end.

Definition is_loaded (target : string) : Io bool := r ← launchctl ["print"; target]; ret (success r).

Fixpoint wait_unloaded (n : nat) (target : string) : Io unit :=
  match n with
  | O => ret tt
  | S n => l ← is_loaded target; if (l : bool) then sleep 100;; wait_unloaded n target else ret tt
  end.
Definition bootout_and_wait (target : string) : Io unit := launchctl ["bootout"; target];; wait_unloaded 30 target.

Definition is_eio (r : LaunchctlResult) : bool := match split_str "5: Input/output error" (stderr r) with Some _ => true | None => false end.

(** [n] more attempts after [r]. *)
Fixpoint retry_bootstrap (n : nat) (domain plist target : string) (r : LaunchctlResult) : Io LaunchctlResult :=
  match n with
  | O => ret r
  | S n =>
      if success r || negb (is_eio r) then ret r
      else
        sleep 300;; bootout_and_wait target;;
        r ← launchctl ["bootstrap"; domain; plist];
        retry_bootstrap n domain plist target r
  end.
Definition bootstrap_with_retry (domain plist target : string) : Io LaunchctlResult :=
  r ← launchctl ["bootstrap"; domain; plist]; retry_bootstrap 4 domain plist target r.

Definition install_darwin : Io bool :=
  env ← get_env;
  let tp_binary := resolve_tp_binary env in
  let logs := get_log_dir env in
  let plist := plist_path env in
  d ← create_dir_all sys logs;
  match d with
  | Err e => say (ErrLine ("[Service] failed to create log dir " +:+ show_path logs +:+ ": " +:+ io_text e));; ret false
  | Ok _ =>
      d ← create_dir_all sys (join_path (path_components (home env)) ["Library"; "LaunchAgents"]);
      match d with
      | Err e => say (ErrLine ("[Service] failed to create LaunchAgents dir: " +:+ io_text e));; ret false
      | Ok _ =>
          f ← fs_write plist (generate_plist tp_binary logs (home env));
          match f with
          | Err e => say (ErrLine ("[Service] failed to write plist " +:+ show_path plist +:+ ": " +:+ io_text e));; ret false
          | Ok _ =>
              let domain := "gui/" +:+ print_dec (uid h) in
              let target := domain +:+ "/" +:+ MACOS_LABEL in
              bootout_and_wait target;;
              r ← bootstrap_with_retry domain (show_path plist) target;
              if negb (success r) then say (ErrLine ("[Service] launchctl bootstrap failed: " +:+ stderr r));; ret false
              else
                launchctl ["kickstart"; "-k"; target];;
                say (Out ("[Service] Installed launchd service: " +:+ MACOS_LABEL));;
                say (Out ("[Service] Plist: " +:+ show_path plist));;
                say (Out ("[Service] Logs: " +:+ show_path (join_path logs ["daemon.log"])));;
                say (Out ("[Service] Binary: " +:+ tp_binary));;
                say (Out (String lf "The daemon will start automatically on login."));;
                say (Out ("To check status: launchctl list " +:+ MACOS_LABEL));;
                ret true
          end
      end
  end.

Definition uninstall_darwin : Io N :=
  env ← get_env;
  let plist := plist_path env in
  if negb (there env plist) then say (Out ("[Service] No launchd service found at " +:+ show_path plist));; ret SUCCESS
  else
    launchctl ["bootout"; "gui/" +:+ print_dec (uid h) +:+ "/" +:+ MACOS_LABEL];;
    r ← remove_file sys plist;
    match r with
    | Err e => say (ErrLine ("[Service] failed to remove plist " +:+ show_path plist +:+ ": " +:+ io_text e));; ret FAILURE
    | Ok _ =>
        say (Out ("[Service] Uninstalled launchd service: " +:+ MACOS_LABEL));;
        say (Out ("[Service] Removed: " +:+ show_path plist));;
        ret SUCCESS
    end.

(** *** [tp daemon install | uninstall | stop] *)

Definition install_service_ok : Io bool :=
  if String.eqb (os h) "macos" then install_darwin
  else if String.eqb (os h) "linux" then install_linux
  else say (ErrLine ("tp: `daemon install` is not supported on " +:+ os h));; ret false.
Definition daemon_install : Io N := b ← install_service_ok; ret (if (b : bool) then SUCCESS else FAILURE).
Definition daemon_uninstall : Io N :=
  if String.eqb (os h) "macos" then uninstall_darwin
  else if String.eqb (os h) "linux" then uninstall_linux
  else say (ErrLine ("tp: `daemon uninstall` is not supported on " +:+ os h));; ret FAILURE.

(** Where the socket and the pid file are ([socket.rs]). *)
Definition runtime_dir (env : Env) (is_dir : PathBuf → bool) : PathBuf :=
  match non_empty (var env "XDG_RUNTIME_DIR") with
  | Some xdg => path_components xdg
  | None =>
      let systemd_dir := path_components ("/run/user/" +:+ print_dec (uid h)) in
      if is_dir systemd_dir then systemd_dir else path_components ("/tmp/teleprompter-" +:+ print_dec (uid h))
  end.
Definition read_daemon_pid : Io (option Z) := λ w,
  (c ← read sys (join_path (runtime_dir (mkEnv (vars h) (exe h) (links h) (λ _, false)) (λ p, match files w !! p with Some Dir => true | _ => false end)) ["daemon.pid"]);
   ret match c with
       | Ok c => if utf8_valid (as_bytes c)
                 then let?o pid := DaemonLock.parse_i32 (trim c) in if (pid <=? 0)%Z then None else Some pid
                 else None
       | Err _ => None
       end) w.

(** The first half: ask the manager; [None]: go on and signal. *)
Definition stop_service : Io (option N) :=
  env ← get_env;
  if String.eqb (os h) "macos" && match probed_plist_path env with Some p => there env p | None => false end then
    r ← run_program "launchctl" ["bootout"; "gui/" +:+ print_dec (uid h) +:+ "/" +:+ MACOS_LABEL];
    match r with Ended true _ => say (Out ("[Daemon] unloaded launchd service " +:+ MACOS_LABEL));; ret None | _ => ret None end
  else if String.eqb (os h) "linux" && there env (probed_unit_path env) then
    r ← run_program "systemctl" ["--user"; "stop"; LINUX_SERVICE_NAME];
    match r with
    | Ended true _ => say (Out ("[Daemon] stopped systemd unit " +:+ LINUX_SERVICE_NAME));; ret None
    | _ =>
        say (ErrLine ("[Daemon] systemctl stop " +:+ LINUX_SERVICE_NAME +:+ " failed — daemon may still be running (systemd Restart= is active). " +:+
                      "Check: systemctl --user status " +:+ LINUX_SERVICE_NAME));;
        ret (Some FAILURE)
    end
  else ret None.

Definition print_pid (pid : Z) : string := print_dec (Z.to_N pid).
Definition stop_daemon : Io N :=
  s ← stop_service;
  match s with
  | Some code => ret code
  | None =>
      p ← read_daemon_pid;
      match p with
      | None => say (Out "[Daemon] no running daemon found (no pid file)");; ret SUCCESS
      | Some pid =>
          modify (λ s, mkLocal (shown s) (now s) (probes s) (signalled s ++ [pid]));;
          match kill h pid with
          | Delivered => say (Out ("[Daemon] sent SIGTERM to pid=" +:+ print_pid pid));; ret SUCCESS
          | NoProcess => say (Out ("[Daemon] pid=" +:+ print_pid pid +:+ " is no longer running"));; ret SUCCESS
          | Refused e => say (ErrLine ("[Daemon] failed to send SIGTERM to pid=" +:+ print_pid pid +:+ ": " +:+ e));; ret FAILURE
          end
      end
  end.

(** ** The first run *)

Inductive InstallPromptMode := Skip | Hint | PromptUser.
Record InstallPromptInputs := mkInputs {
  hint_file_exists : bool; service_installed : bool; stdin_is_tty : bool; stderr_is_tty : bool; no_auto_install_env : bool
}.
Definition decide_install_prompt_mode (i : InstallPromptInputs) : InstallPromptMode :=
  if hint_file_exists i then Skip
  else if service_installed i then Skip
  else if stdin_is_tty i && stderr_is_tty i && negb (no_auto_install_env i) then PromptUser
  else Hint.

(** Only [n], [N], [y] and [Y] are lowered to [n] or [y]. *)
Definition parse_yes_no_answer (raw : string) (default_yes : bool) : bool :=
  let trimmed := str_ascii_lower (trim raw) in
  if String.eqb trimmed "" then default_yes
  else if starts_with "n" trimmed then false
  else if starts_with "y" trimmed then true
  else default_yes.
Definition read_yes_no_line : bool :=
  match answer h with CliCmd.Typed line => parse_yes_no_answer line true | CliCmd.EndOfInput | CliCmd.BadRead => false end.

Definition hint_file (env : Env) : PathBuf := join_path (config_dir env) [".daemon-hint-shown"].
Definition mark_hinted : Io unit :=
  env ← get_env;
  ignore (create_dir_all sys (config_dir env));;
  ignore (fs_write (hint_file env) ("shown" +:+ String lf "")).

Definition show_install_hint : Io unit :=
  env ← get_env;
  installed ← is_service_installed;
  match decide_install_prompt_mode
          (mkInputs (there env (hint_file env)) installed (stdin_tty h) (stderr_tty h)
                    (match var env "TP_NO_AUTO_INSTALL" with Some v => String.eqb v "1" | None => false end)) with
  | Skip => ret tt
  | Hint => say (ErrLine (dim "Tip: Run 'tp daemon install' to start tp automatically on login."));; mark_hinted
  | PromptUser =>
      say (ErrLine (dim "tp daemon is now running in the background. It can also auto-start on login."));;
      say (Prompt "Install daemon as an OS service so it auto-starts on login? [Y/n] ");;
      let accepted := read_yes_no_line in
      mark_hinted;;
      if negb accepted then say (ErrLine (dim "Skipping. Run 'tp daemon install' later to enable auto-start."))
      else
        b ← install_service_ok;
        if (b : bool) then ret tt else say (ErrLine (dim "Service install failed. Run 'tp daemon install' manually."))
  end.

Definition ensure_daemon : Io bool :=
  u ← is_daemon_running;
  if (u : bool) then ret true
  else
    s ← start_service;
    r ← (if (s : bool) then wait_for_daemon_ready else ret false);
    if (r : bool) then ret true
    else
      spawn_background_daemon;;
      r ← wait_for_daemon_ready;
      if (r : bool) then show_install_hint;; ret true else ret false.
End service.
