(* ===== verification/ServiceLaws.v ===== *)
(** * ServiceLaws: starting the daemon ends and tells the truth; a service is installed
    only with consent, and uninstalling takes away what installing wrote. *)
From stdpp Require Import base list numbers strings gmap.
From Stdlib Require Import Lia NArith ZArith.
From S2P Require Import Prelude Bytes Text Lines Files CliText Locate Service.
From S2P Require CliCmd.

Section laws.
Context (sys : System) (h : Host).
Notation World := (World Local).

(** ** Waiting *)

(** The files and the programs are as they were. *)
Definition same_system (w w' : World) : Prop := files w' = files w ∧ tick w' = tick w ∧ started w' = started w.
(** The probes from the [a]-th to before the [b]-th found nobody. *)
Definition down_between (a b : nat) : Prop := ∀ n, a ≤ n < b → up h n = false.

Lemma poll_spec fuel deadline (w : World) : fuel ≠ 0 → (deadline ≤ now (locals w) + 500 * N.of_nat (fuel - 1))%N →
  let '(r, w') := poll h fuel deadline w in
  ∃ b n, r = Val (Some b) ∧ same_system w w' ∧ probes (locals w') = S n ∧ probes (locals w) ≤ n < probes (locals w) + fuel ∧
    down_between (probes (locals w)) n ∧ up h n = b.
Proof.
  revert w. induction fuel as [|fuel IH]; intros w Hf Hd; [done|]. cbn [poll].
  set (s := locals w) in *. unfold bind at 1, is_daemon_running. fold s. cbn [files tick started].
  destruct (up h (probes s)) eqn:Eu.
  { exists true, (probes s). cbn. split_and!; try done; [lia|]. intros n Hn. lia. }
  unfold bind at 1, get_locals. cbn [locals now]. destruct (N.leb_spec deadline (now s + lag h (probes s))) as [Hle|Hlt].
  { exists false, (probes s). cbn. split_and!; try done; [lia|]. intros n Hn. lia. }
  destruct fuel as [|fuel]; [cbn in Hd; lia|]. unfold bind at 1, sleep, modify. cbn [files tick started locals shown now probes signalled].
  match goal with |- context [poll h (S fuel) deadline ?x] => specialize (IH x ltac:(done)); destruct (poll h (S fuel) deadline x) as [r w'] end.
  cbn [locals now probes] in IH. destruct IH as (b & n & H1 & H2 & H3 & H4 & H5 & H6); [lia|].
  exists b, n. split_and!; try done; [lia|lia|]. intros m Hm. destruct (decide (m = probes s)) as [->|]; [done|]. apply H5. lia.
Qed.

Lemma wait_spec (w : World) : let '(r, w') := wait_for_daemon_ready h w in
  ∃ b n, r = Val b ∧ same_system w w' ∧ probes (locals w') = S n ∧ probes (locals w) ≤ n < probes (locals w) + 21 ∧
    down_between (probes (locals w)) n ∧ up h n = b.
Proof.
  unfold wait_for_daemon_ready. unfold bind at 1, get_locals. unfold bind at 1.
  pose proof (poll_spec 21 (now (locals w) + 10000) w ltac:(done) ltac:(cbn; lia)) as H. destruct (poll h 21 _ w) as [r w'].
  destruct H as (b & n & -> & H). cbn [ret]. by exists b, n.
Qed.

(** ** Small steps *)

Definition keeps_probes {A} (m : Io Local A) : Prop := ∀ w, probes (locals (m w).2) = probes (locals w).
Lemma unprobed_bind {A B} (m : Io Local A) (k : A → Io Local B) : keeps_probes m → (∀ a, keeps_probes (k a)) → keeps_probes (bind m k).
Proof. intros Hm Hk w. unfold bind. specialize (Hm w). destruct (m w) as [[a|e|] w']; cbn in *; [by rewrite Hk|done|done]. Qed.
Lemma unprobed_pure {A} (m : Io Local A) : (∀ w, locals (m w).2 = locals w) → keeps_probes m.
Proof. intros H w. by rewrite H. Qed.
Lemma unprobed_operation {A : Type} op on_failure (act : Files → result A IoError * Files) : keeps_probes (operation sys op on_failure act).
Proof. apply unprobed_pure. intros w. unfold operation. destruct (fails _ _ _); [done|]. by destruct (act _). Qed.
Lemma unprobed_say l : keeps_probes (say l).
Proof. by intros w. Qed.
Lemma unprobed_sleep ms : keeps_probes (sleep h ms).
Proof. by intros w. Qed.
Lemma unprobed_run prog args : keeps_probes (run_program h prog args).
Proof. by intros w. Qed.
Lemma unprobed_env : keeps_probes (get_env h).
Proof. by intros w. Qed.
Lemma unprobed_ret {A} (a : A) : keeps_probes (ret a).
Proof. by intros w. Qed.
Lemma total_run prog args : total (run_program h prog args).
Proof. intros w. by eexists. Qed.
Lemma total_env : total (get_env h).
Proof. intros w. by eexists. Qed.
Lemma total_say l : total (say l).
Proof. intros w. by eexists. Qed.
Lemma total_sleep ms : total (sleep h ms).
Proof. intros w. by eexists. Qed.
Lemma total_create p : total (create (L := Local) sys p).
Proof. apply total_operation. Qed.
Lemma total_write p c : total (write_all (L := Local) sys p c).
Proof. intros w. apply total_operation. Qed.
Lemma total_mkdir p : total (create_dir_all (L := Local) sys p).
Proof. apply total_operation. Qed.
Lemma total_remove p : total (remove_file (L := Local) sys p).
Proof. apply total_operation. Qed.
Lemma unprobed_create p : keeps_probes (create sys p).
Proof. apply unprobed_operation. Qed.
Lemma unprobed_write p c : keeps_probes (write_all sys p c).
Proof. intros w. apply unprobed_operation. Qed.
Lemma unprobed_mkdir p : keeps_probes (create_dir_all sys p).
Proof. apply unprobed_operation. Qed.

Create HintDb service.
#[local] Hint Resolve total_run total_env total_say total_sleep total_create total_write total_mkdir total_remove total_ret total_ignore total_modify
  unprobed_say unprobed_sleep unprobed_run unprobed_env unprobed_ret unprobed_create unprobed_write unprobed_mkdir : service.

(** A program without errors or probes, by its shape. *)
Ltac by_shape bind_lemma :=
  repeat match goal with
         | _ => progress (auto with service)
         | |- ∀ _, _ => intros ?
         | |- _ (bind _ _) => apply bind_lemma
         | |- _ (let x := _ in _) => cbv zeta
         | |- _ (if ?b then _ else _) => destruct b
         | |- _ (match ?x with _ => _ end) => destruct x
         end.

Lemma total_fs_write p c : total (fs_write sys p c).
Proof. unfold fs_write. by_shape (@total_bind Local). Qed.
Lemma unprobed_fs_write p c : keeps_probes (fs_write sys p c).
Proof. unfold fs_write. by_shape (@unprobed_bind). Qed.
Lemma unprobed_ignore {A} (m : Io Local A) : keeps_probes m → keeps_probes (ignore m).
Proof. intros H. by apply unprobed_bind. Qed.
#[local] Hint Resolve total_fs_write unprobed_fs_write unprobed_ignore : service.

Lemma total_launchctl args : total (launchctl h args).
Proof. unfold launchctl. by_shape (@total_bind Local). Qed.
Lemma unprobed_launchctl args : keeps_probes (launchctl h args).
Proof. unfold launchctl. by_shape (@unprobed_bind). Qed.
#[local] Hint Resolve total_launchctl unprobed_launchctl : service.
Lemma total_unloaded n target : total (wait_unloaded h n target).
Proof. induction n as [|n IH]; cbn [wait_unloaded]; unfold is_loaded; by_shape (@total_bind Local). Qed.
Lemma unprobed_unloaded n target : keeps_probes (wait_unloaded h n target).
Proof. induction n as [|n IH]; cbn [wait_unloaded]; unfold is_loaded; by_shape (@unprobed_bind). Qed.
#[local] Hint Resolve total_unloaded unprobed_unloaded : service.
Lemma total_bootout target : total (bootout_and_wait h target).
Proof. unfold bootout_and_wait. by_shape (@total_bind Local). Qed.
Lemma unprobed_bootout target : keeps_probes (bootout_and_wait h target).
Proof. unfold bootout_and_wait. by_shape (@unprobed_bind). Qed.
#[local] Hint Resolve total_bootout unprobed_bootout : service.
Lemma total_retry n domain plist target r : total (retry_bootstrap h n domain plist target r).
Proof. revert r. induction n as [|n IH]; intros r; cbn [retry_bootstrap]; by_shape (@total_bind Local). Qed.
Lemma unprobed_retry n domain plist target r : keeps_probes (retry_bootstrap h n domain plist target r).
Proof. revert r. induction n as [|n IH]; intros r; cbn [retry_bootstrap]; by_shape (@unprobed_bind). Qed.
#[local] Hint Resolve total_retry unprobed_retry : service.

Lemma total_install : total (install_service_ok sys h).
Proof. unfold install_service_ok, install_linux, install_darwin, bootstrap_with_retry. by_shape (@total_bind Local). Qed.
Lemma unprobed_install : keeps_probes (install_service_ok sys h).
Proof. unfold install_service_ok, install_linux, install_darwin, bootstrap_with_retry. by_shape (@unprobed_bind). Qed.
#[local] Hint Resolve total_install unprobed_install : service.

Lemma total_hint : total (show_install_hint sys h).
Proof. unfold show_install_hint, is_service_installed, mark_hinted. by_shape (@total_bind Local). Qed.
Lemma unprobed_hint : keeps_probes (show_install_hint sys h).
Proof. unfold show_install_hint, is_service_installed, mark_hinted. by_shape (@unprobed_bind). Qed.
Lemma total_start_service : total (start_service h).
Proof. unfold start_service, is_service_installed. by_shape (@total_bind Local). Qed.
Lemma unprobed_start_service : keeps_probes (start_service h).
Proof. unfold start_service, is_service_installed. by_shape (@unprobed_bind). Qed.
Lemma spawn_spec (w : World) : let '(r, w') := spawn_background_daemon h w in
  (r = Val tt ∨ ∃ e, r = Error e) ∧ probes (locals w') = probes (locals w).
Proof.
  unfold spawn_background_daemon, get_env. unfold bind at 1. destruct (locate_tp_daemon _) as [p|e]; [|cbn; eauto].
  unfold bind at 1, run_program. destruct (program h _); cbn; eauto.
Qed.

(** ** [ensure_daemon] *)

(** Whatever the system answers, starting the daemon ends after at most 43 probes and
    without a panic; it says the daemon is up only when the last probe found it, that it
    is not (or that it cannot be started) only when no probe did, and the waiting itself
    touches nothing. *)
Theorem ensure_daemon_truthful w : let '(r, w') := ensure_daemon sys h w in
  ∃ n, probes (locals w') = S n ∧ probes (locals w) ≤ n ∧ S n ≤ probes (locals w) + 43 ∧ down_between (probes (locals w)) n ∧
    match r with Val b => up h n = b | Error _ => up h n = false | Panicked => False end.
Proof.
  unfold ensure_daemon. unfold bind at 1, is_daemon_running. set (a := probes (locals w)). destruct (up h a) eqn:Ea.
  { exists a. cbn. split_and!; try done; [lia|]. intros n Hn. lia. }
  match goal with |- context [bind (start_service h) _ ?x] => set (w1 := x) end. assert (probes (locals w1) = S a) as H1 by done. clearbody w1.
  unfold bind at 1. destruct (total_start_service w1) as [s Hs]. pose proof (unprobed_start_service w1) as Hk.
  destruct (start_service h w1) as [r w2]. cbn in Hs, Hk. subst r. rewrite H1 in Hk. unfold bind at 1.
  assert (∃ b n w3, (if s then wait_for_daemon_ready h else ret false) w2 = (Val b, w3) ∧ probes (locals w3) = S n ∧ a ≤ n ≤ a + 21 ∧
    down_between a n ∧ up h n = b) as (b & n & w3 & -> & H3 & Hn & Hd & Hb).
  { destruct s.
    - pose proof (wait_spec w2) as H. destruct (wait_for_daemon_ready h w2) as [r w3]. destruct H as (b & n & -> & _ & E & Hr & Hd & Hb).
      exists b, n, w3. split_and!; try done; [lia|lia|]. intros m Hm. destruct (decide (m = a)) as [->|]; [done|]. apply Hd. lia.
    - exists false, a, w2. split_and!; try done; [lia|]. intros m Hm. lia. }
  destruct b; [exists n; cbn; split_and!; try done; lia|].
  unfold bind at 1. pose proof (spawn_spec w3) as H. destruct (spawn_background_daemon h w3) as [r w4]. destruct H as [[->|[e ->]] H4].
  2:{ exists n. rewrite H4. split_and!; try done; lia. }
  unfold bind at 1. pose proof (wait_spec w4) as H. destruct (wait_for_daemon_ready h w4) as [r w5]. destruct H as (b & m & -> & _ & E & Hr & Hd' & Hb').
  assert (down_between a m) as Hd2.
  { intros k Hk2. destruct (decide (k < n)); [apply Hd; lia|]. destruct (decide (k = n)) as [->|]; [done|]. apply Hd'. lia. }
  destruct b; [|exists m; cbn; split_and!; try done; lia].
  unfold bind at 1. destruct (total_hint w5) as [u Hu]. pose proof (unprobed_hint w5) as Hk5. destruct (show_install_hint sys h w5) as [r w6]. cbn in Hu, Hk5.
  subst r. exists m. cbn. rewrite Hk5. split_and!; try done; lia.
Qed.

(** ** Which files *)

Section quiet.
Context (S : PathBuf → Prop).
Notation steady := (steady S (λ _ : Local, tt)).

Lemma steady_run prog args : steady (run_program h prog args).
Proof. by intros w. Qed.
Lemma steady_probe : steady (is_daemon_running h).
Proof. by intros w. Qed.
Lemma steady_say l : steady (say l).
Proof. by intros w. Qed.
Lemma steady_sleep ms : steady (sleep h ms).
Proof. by intros w. Qed.
Lemma steady_locals : steady get_locals.
Proof. by intros w. Qed.
(** The environment has the host's variables. *)
Lemma steady_env {B} (k : Env → Io Local B) : (∀ t, steady (k (mkEnv (vars h) (exe h) (links h) t))) → steady (bind (get_env h) k).
Proof. intros H w. unfold bind, get_env. apply H. Qed.
Lemma steady_value {A} (a : A) : steady (ret a).
Proof. by intros w. Qed.
Lemma steady_error {A} e : steady (fail (A := A) e).
Proof. by intros w. Qed.
Lemma steady_stop {A} : steady (panic (A := A)).
Proof. by intros w. Qed.
Lemma steady_mkdir p : steady (create_dir_all sys p).
Proof. apply steady_create_dir_all. Qed.
#[local] Hint Resolve steady_run steady_probe steady_say steady_sleep steady_locals steady_value steady_error steady_stop steady_mkdir : service.

Ltac steps :=
  repeat match goal with
         | _ => progress (auto with service)
         | |- ∀ _, _ => intros ?
         | |- _ _ _ (bind (get_env _) _) => apply steady_env
         | |- _ _ _ (bind _ _) => apply steady_bind
         | |- _ _ _ (ignore _) => apply steady_ignore
         | |- _ _ _ (let x := _ in _) => cbv zeta
         | |- _ _ _ (if ?b then _ else _) => destruct b
         | |- _ _ _ (match ?x with _ => _ end) => destruct x
         end.

Lemma steady_fs_write p c : ¬ S p → steady (fs_write sys p c).
Proof. intros H. unfold fs_write. steps; [by apply steady_create|by apply steady_write_all]. Qed.
Lemma steady_poll fuel deadline : steady (poll h fuel deadline).
Proof. induction fuel as [|fuel IH]; cbn [poll]; steps. Qed.
Lemma steady_wait : steady (wait_for_daemon_ready h).
Proof. unfold wait_for_daemon_ready. steps. apply steady_poll. Qed.
Lemma steady_is_installed : steady (is_service_installed h).
Proof. unfold is_service_installed. steps. Qed.
#[local] Hint Resolve steady_wait steady_is_installed : service.
Lemma steady_start_service : steady (start_service h).
Proof. unfold start_service. steps. Qed.
Lemma steady_spawn : steady (spawn_background_daemon h).
Proof. unfold spawn_background_daemon. steps. Qed.
#[local] Hint Resolve steady_start_service steady_spawn : service.

Definition host_env : Env := mkEnv (vars h) (exe h) (links h) (λ _, false).
Lemma steady_mark : ¬ S (hint_file host_env) → steady (mark_hinted sys h).
Proof. intros H. unfold mark_hinted. steps. by apply steady_fs_write. Qed.

(** Whether the question could be asked and was answered with a yes. *)
Definition consented : bool :=
  stdin_tty h && stderr_tty h && negb (match vars h "TP_NO_AUTO_INSTALL" with Some v => String.eqb v "1" | None => false end) && read_yes_no_line h.

Lemma steady_hint : ¬ S (hint_file host_env) → consented = false → steady (show_install_hint sys h).
Proof.
  intros H Hc. unfold show_install_hint. apply steady_env. intros t. apply steady_bind; [auto with service|]. intros i.
  unfold decide_install_prompt_mode. cbn [hint_file_exists service_installed stdin_is_tty stderr_is_tty no_auto_install_env var].
  destruct (there _ _); [auto with service|]. destruct i; [auto with service|]. unfold consented in Hc.
  destruct (stdin_tty h && stderr_tty h && negb _) eqn:E.
  - cbn [andb] in Hc. rewrite Hc. cbn [negb]. steps. by apply steady_mark.
  - steps. by apply steady_mark.
Qed.
Lemma steady_ensure : ¬ S (hint_file host_env) → consented = false → steady (ensure_daemon sys h).
Proof.
  intros H Hc. unfold ensure_daemon. apply steady_bind; [auto with service|]. intros []; [auto with service|].
  apply steady_bind; [auto with service|]. intros s. apply steady_bind; [destruct s; auto with service|]. intros []; [auto with service|].
  apply steady_bind; [auto with service|]. intros []. apply steady_bind; [auto with service|]. intros []; [|auto with service].
  apply steady_bind; [by apply steady_hint|]. auto with service.
Qed.

Lemma steady_install : ¬ S (unit_path host_env) → steady (install_linux sys h).
Proof. intros H. unfold install_linux. steps. by apply steady_fs_write. Qed.
Lemma steady_uninstall : ¬ S (unit_path host_env) → steady (uninstall_linux sys h).
Proof. intros H. unfold uninstall_linux. steps. by apply steady_remove_file. Qed.
End quiet.

(** Starting the daemon installs nothing without consent: unless the question was asked
    at a terminal, and the answer read was not a no, every file but the marker of the
    hint is as it was. *)
Theorem ensure_installs_with_consent w p : consented = false → p ≠ hint_file host_env →
  file_at (files (ensure_daemon sys h w).2) p = file_at (files w) p.
Proof.
  intros Hc Hp. destruct (steady_ensure (λ q, q ≠ hint_file host_env) ltac:(tauto) Hc w) as [_ H]. by apply H.
Qed.

(** ** Installing and uninstalling *)

(** [m] keeps all files. *)
Definition still {A} (m : Io Local A) : Prop := ∀ w, files (m w).2 = files w.
Lemma still_bind {A B} (m : Io Local A) (k : A → Io Local B) : still m → (∀ a, still (k a)) → still (bind m k).
Proof. intros Hm Hk w. unfold bind. specialize (Hm w). destruct (m w) as [[a|e|] w']; cbn in *; [by rewrite Hk|done|done]. Qed.
Lemma still_say l : still (say l).
Proof. by intros w. Qed.
Lemma still_run prog args : still (run_program h prog args).
Proof. by intros w. Qed.
Lemma still_ret {A} (a : A) : still (ret a).
Proof. by intros w. Qed.
#[local] Hint Resolve still_say still_run still_ret : service.

Lemma fs_write_ok p c (w : World) : (fs_write sys p c w).1 = Val (Ok tt) → file_at (files (fs_write sys p c w).2) p = Some c.
Proof.
  unfold fs_write, bind. destruct (total_create p w) as [[[]|e] E]; destruct (create sys p w) as [r w1]; cbn in E; subst r; [|done].
  unfold write_all, writing, operation. destruct (fails sys (tick w1) (OWrite p)); [done|]. cbn. intros _. unfold file_at. by rewrite lookup_insert_eq.
Qed.
Lemma remove_ok p (w : World) : (remove_file sys p w).1 = Val (Ok tt) → file_at (files (remove_file sys p w).2) p = None.
Proof.
  unfold remove_file, operation. destruct (fails sys (tick w) (ORemove p)); [done|]. destruct (files w !! p) as [[]|]; cbn; try done.
  intros _. unfold file_at. by rewrite lookup_delete_eq.
Qed.

Lemma install_linux_spec (w : World) : let '(r, w') := install_linux sys h w in
  ∃ b, r = Val b ∧ (b = true → ∃ bin, file_at (files w') (unit_path host_env) = Some (generate_unit bin (home host_env))).
Proof.
  unfold install_linux. unfold bind at 1, get_env. set (env := mkEnv _ _ _ _). cbv zeta. unfold bind at 1.
  destruct (total_mkdir (unit_dir env) w) as [d Ed]. destruct (create_dir_all sys (unit_dir env) w) as [r w1]. cbn in Ed. subst r.
  destruct d as [u|e]; [|unfold bind, say, modify, ret; cbn; by exists false]. unfold bind at 1.
  pose proof (total_fs_write (unit_path env) (generate_unit (resolve_tp_binary h env) (home env)) w1) as [f Ef].
  pose proof (fs_write_ok (unit_path env) (generate_unit (resolve_tp_binary h env) (home env)) w1) as Hf.
  destruct (fs_write sys _ _ w1) as [r w2]. cbn in Ef. subst r. destruct f as [[]|e]; [|unfold bind, say, modify, ret; cbn; by exists false].
  specialize (Hf eq_refl). cbn [snd] in Hf. unfold bind at 1, run_program. unfold bind at 1, run_program.
  destruct (program h _) as [e|[] e]; unfold bind, say, modify, ret; cbn; [by exists false| |by exists false].
  exists true. split; [done|]. intros _. eexists. exact Hf.
Qed.
Lemma uninstall_linux_spec (w : World) : let '(r, w') := uninstall_linux sys h w in
  ∃ c, r = Val c ∧ (c = SUCCESS → file_at (files w') (unit_path host_env) = None).
Proof.
  unfold uninstall_linux. unfold bind at 1, get_env. set (env := mkEnv _ _ _ _). cbv zeta. destruct (there env (unit_path env)) eqn:Et; cbn [negb].
  2:{ unfold bind, say, modify, ret. cbn. exists SUCCESS. split; [done|]. intros _. cbn in Et. apply bool_decide_eq_false, eq_None_not_Some in Et.
      unfold file_at. change (unit_path host_env) with (unit_path env). by rewrite Et. }
  unfold bind at 1, run_program. unfold bind at 1. match goal with |- context [remove_file sys _ ?x] => set (w1 := x) end.
  destruct (total_remove (unit_path env) w1) as [d Ed]. pose proof (remove_ok (unit_path env) w1) as Hr.
  destruct (remove_file sys (unit_path env) w1) as [r w2]. cbn in Ed. subst r.
  destruct d as [[]|e]; unfold bind, run_program, say, modify, ret; cbn; [|by exists FAILURE].
  exists SUCCESS. split; [done|]. intros _. by apply Hr.
Qed.

(** On Linux the service comes and goes without a trace, whatever fails on the way:
    neither installing nor uninstalling touches a file other than the unit; an install
    that says it succeeded has written the unit for this binary and home, an uninstall
    that says so has left none; and both always answer. *)
Theorem service_comes_and_goes w :
  let '(r, w1) := install_linux sys h w in
  let '(c, w2) := uninstall_linux sys h w1 in
  (∃ b, r = Val b ∧ (b = true → ∃ bin, file_at (files w1) (unit_path host_env) = Some (generate_unit bin (home host_env)))) ∧
  (∃ code, c = Val code ∧ (code = SUCCESS → file_at (files w2) (unit_path host_env) = None)) ∧
  ∀ p, p ≠ unit_path host_env → file_at (files w1) p = file_at (files w) p ∧ file_at (files w2) p = file_at (files w) p.
Proof.
  pose proof (install_linux_spec w) as Hi. destruct (steady_install (λ q, q ≠ unit_path host_env) ltac:(tauto) w) as [_ Si].
  destruct (install_linux sys h w) as [r w1]. pose proof (uninstall_linux_spec w1) as Hu.
  destruct (steady_uninstall (λ q, q ≠ unit_path host_env) ltac:(tauto) w1) as [_ Su]. destruct (uninstall_linux sys h w1) as [c w2]. cbn [snd] in *.
  split; [exact Hi|]. split; [exact Hu|]. intros p Hp. split; [by apply Si|]. rewrite Su by done. by apply Si.
Qed.

(** A unit that systemd could not stop is not signalled either, since it would be started
    again: the command fails and nothing is signalled; otherwise at most the process the
    pid file names is. *)
Lemma stop_respects_systemd (w : World) : let '(r, w') := stop_daemon sys h w in
  (signalled (locals w') = signalled (locals w) ∨ ∃ pid, (0 < pid)%Z ∧ signalled (locals w') = signalled (locals w) ++ [pid]) ∧
  (os h = "linux" → is_Some (files w !! probed_unit_path host_env) → (∀ e, program h (length (started w)) ≠ Ended true e) →
   r = Val FAILURE ∧ signalled (locals w') = signalled (locals w)).
Proof.
  assert (∀ w : World, ∃ o, (read_daemon_pid sys h w).1 = Val o ∧ signalled (locals (read_daemon_pid sys h w).2) = signalled (locals w) ∧
    ∀ pid, o = Some pid → (0 < pid)%Z) as Hpid.
  { clear w. intros w. unfold read_daemon_pid, bind, read, operation. set (p := join_path _ _). destruct (match fails _ _ _ with Some _ => _ | None => _ end) as [[c|e] fs]; cbn; [|by exists None].
    eexists. split; [done|]. split; [done|]. intros pid. destruct (utf8_valid _); [|done]. destruct (DaemonLock.parse_i32 _) as [z|]; [|done]. cbn.
    destruct (Z.leb_spec z 0); [done|]. intros [= <-]. done. }
  assert (∃ o w1, stop_service h w = (Val o, w1) ∧ signalled (locals w1) = signalled (locals w) ∧
    (os h = "linux" → is_Some (files w !! probed_unit_path host_env) → (∀ e, program h (length (started w)) ≠ Ended true e) → o = Some FAILURE)) as (o & w1 & E & H1 & H2).
  { unfold stop_service, bind, get_env, run_program, say, modify, ret. cbn [there]. destruct (String.eqb_spec (os h) "macos") as [Em|Em]; cbn [andb].
    - rewrite !Em. change (String.eqb "macos" "linux") with false. cbn [andb]. destruct (probed_plist_path _) as [p|]; [destruct (bool_decide _)|]; [destruct (program h _) as [|[]]|..]; cbn;
        (eexists _, _; split; [done|]; split; [done|]); by intros H.
    - destruct (String.eqb_spec (os h) "linux") as [El|El]; cbn [andb]; [|eexists _, _; split; [done|]; split; [done|]; done].
      destruct (bool_decide _) eqn:Eb.
      + destruct (program h _) as [|[]] eqn:Ep; (eexists _, _; split; [done|]; split; [done|]); try done. intros _ _ Hn. exfalso. by eapply Hn.
      + eexists _, _. split; [done|]. split; [done|]. intros _ Hs _. apply bool_decide_eq_false in Eb. by destruct Eb. }
  unfold stop_daemon. unfold bind at 1. rewrite E. destruct o as [code|].
  { cbn. split; [by left|]. intros Ho Hs Hn. injection (H2 Ho Hs Hn) as ->. done. }
  unfold bind at 1. destruct (Hpid w1) as (o & P1 & P2 & P3). destruct (read_daemon_pid sys h w1) as [r w2]. cbn in P1, P2. subst r.
  assert (∀ P : Prop, os h = "linux" → is_Some (files w !! probed_unit_path host_env) → (∀ e, program h (length (started w)) ≠ Ended true e) → P) as Habs
    by (intros P Ho Hs Hn; by specialize (H2 Ho Hs Hn)).
  destruct o as [pid|]; [|unfold bind, say, modify, ret; cbn; split; [left; congruence|apply Habs]].
  unfold bind, modify. destruct (kill h pid); unfold bind, say, modify, ret; cbn; rewrite P2, H1; (split; [right; exists pid; split; [by apply P3|done]|apply Habs]).
Qed.
End laws.
